(* ===== verification/_CoqProject ===== *)
-Q . S2P
Prelude.v
Res.v
Coverage.v
Rng.v
CoverageFacts.v
CountFacts.v
MutTables.v
Mutations.v
MutationsFacts.v
MutationsOps.v
MutationsTerm.v
MutationsRun.v
Diffs.v
TextCheck.v
Queue.v
QueueFacts.v
CullFacts.v
Score.v
Alias.v
AliasFacts.v
AliasExact.v
ScoreFacts.v
HashMap.v
Cache.v
CacheFacts.v
CacheMain.v
Extras.v
ExtrasFacts.v
ExtrasAuto.v
Tmin.v
TminFacts.v
TminMain.v
Trim.v
TrimFacts.v
Stage.v
StageFacts.v
Det.v
DetSpec.v
DetSim.v
DetFlips.v
DetTokens.v
DetWords.v
DetExtras.v
DetFacts.v
Havoc.v
HavocOps.v
HavocTerm.v
HavocFacts.v
HavocCache.v
HavocMain.v
Encode.v
EncodeFacts.v
Color.v
ColorFacts.v
ColorMain.v
Redqueen.v
RedqueenRtn.v
RedqueenFacts.v
RedqueenMain.v
RedqueenStage.v
InputToState.v
FuzzOne.v
FuzzOneMain.v
Skipdet.v
SkipdetFacts.v
Save.v
CalFacts.v
SaveFacts.v
SaveFatal.v
SaveMain.v
SaveLoop.v
Fuzz.v
