(* ===== verification/Prelude.v ===== *)
(** * Verification of the AFL++ fuzzer core

    The repository holds AFL++, a coverage-guided fuzzer, under [AFLplusplus/], next to
    exercises that use it.  The fuzzer runs a target program on mutated inputs; the
    target writes the edges it takes to a shared map; an input that reaches something
    new joins a queue, and the queue is scored and culled to favour small fast inputs
    that together still cover everything.  This library models the parts of the C code
    that carry this logic and proves them correct.  Paths below are relative to
    [AFLplusplus/].

    ** The parts and where they are modelled

    - [Prelude] (this file): C integers as [Z] with explicit wrap-around, byte buffers
      with bounds-checked access, little-endian words, the tactics and hints.
    - [Coverage] (definitions), [CoverageFacts], [CountFacts] (theorems): the coverage
      maps of [include/coverage-64.h], [include/coverage-32.h] and
      [src/afl-fuzz-bitmap.c]: classification of hit counts, simplification of traces,
      discovery of new bits ([has_new_bits]), the three vectorised [skim]s,
      [has_new_bits_unclassified], the counting routines and [minimize_bits].  One
      model serves the 32-bit and the 64-bit code, by the size of the word.
    - [Rng]: the generator of [src/afl-performance.c], [rand_below] and [next_p2] of
      [include/afl-fuzz.h], [next_pow2] of [include/alloc-inl.h], and the interface
      [RandSource] that the mutators use.
    - [MutTables] (operators and tables), [Mutations] (definitions), [MutationsFacts]
      and [MutationsOps] (each operator against its abstract effect), [MutationsTerm]
      (termination), [MutationsRun] (the whole of [afl_mutate]): the havoc engine of
      [include/afl-mutations.h].
    - [Diffs]: [could_be_bitflip], [could_be_arith], [could_be_interest] and
      [locate_diffs] of [src/afl-fuzz-one.c].
    - [TextCheck]: [check_if_text] and [check_if_text_buf] of [src/afl-fuzz-queue.c].
    - [Queue] (definitions), [QueueFacts], [CullFacts] (theorems): the queue, the
      table [top_rated] of winners, [update_bitmap_score], [cull_queue],
      [mark_as_redundant], [recalculate_all_scores] of [src/afl-fuzz-queue.c].
    - [Tmin] (definitions), [TminFacts], [TminMain] (theorems): the test case
      minimizer [src/afl-tmin.c]; [minimize] is written against the interface
      [Runner]/[Target], which [tmin_run_target] implements.
    - [Score], [ScoreFacts]: [calculate_score] and the schedules; [Alias] (definitions),
      [AliasFacts], [AliasExact] (theorems): [create_alias_table] and
      [select_next_queue_entry] of [src/afl-fuzz-queue.c].
    - [HashMap]: the table of [src/hashmap.c].
    - [Cache] (definitions), [CacheFacts], [CacheMain] (theorems): the test case cache
      of [src/afl-fuzz-queue.c], [queue_testcase_get] and its companions.
    - [Extras] (definitions), [ExtrasFacts], [ExtrasAuto] (theorems): dictionaries and
      automatic tokens of [src/afl-fuzz-extras.c], and the writer of
      [utils/libtokencap].
    - [Trim] (definitions), [TrimFacts] (theorem): [trim_case] of [src/afl-fuzz-run.c],
      over the cache, the queue and a target.
    - [Res]: the results [Ret], [Exit], [Fault], [NoFuel] of operations, their monad and
      the predicate [yields] on them.
    - [Stage]: what the fuzzing stages share: their ways out as a monad, [afl_realloc], the
      bit maps, [is_det_timeout], [common_fuzz_stuff] of [src/afl-fuzz-run.c], against the
      interface [Fuzzer] for the fork server, clock, signals and [save_if_interesting];
      [StageFacts]: the predicate [goes] (an operation ends, with what result) and its rules.
    - [Det] (definitions), [DetSpec] (specification), [DetSim] (relation of the two),
      [DetFlips], [DetTokens], [DetWords], [DetExtras], [DetFacts] (theorems): the
      deterministic stages of [fuzz_one_original] in [src/afl-fuzz-one.c].
    - [Havoc] (definitions), [HavocOps] (each operator against its effect), [HavocTerm]
      (termination), [HavocFacts] (the stages), [HavocCache] (the interface met by the
      cache), [HavocMain] (theorems): the havoc and
      splicing stages of the same function, with the operators of [Mutations] where they
      are the same, against the interface [Splicing] for the queue and its cache.
    - The input-to-state stage of [src/afl-fuzz-redqueen.c]: [Color] (definitions),
      [ColorFacts], [ColorMain] (theorem): the coloring of an input, [colorization];
      [Encode], [EncodeFacts] (round trips): the conversions of numbers, base64, swapped
      bytes, compact integers and floating point; [Redqueen] (definitions), [RedqueenFacts],
      [RedqueenMain] (theorems): the replacement of the operands of comparisons,
      [cmp_extend_encoding] and [cmp_fuzz]; [RedqueenRtn] (definitions), [RedqueenStage]
      (lemmas and theorems): the same for compared memory, [rtn_fuzz], and the stage;
      [InputToState]: coloring and replacement together.  The log of comparisons that the
      target writes ([include/cmplog.h]) is behind the interface [CmplogHost].
    - [Skipdet] (definitions), [SkipdetFacts] (theorem): the choice of the bytes for these
      stages, [src/afl-fuzz-skipdet.c].
    - [Save] (definitions), [CalFacts], [SaveFacts], [SaveFatal] (lemmas), [SaveMain], [SaveLoop]
      (theorems): [calibrate_case] of [src/afl-fuzz-run.c] and [save_if_interesting] of
      [src/afl-fuzz-bitmap.c] over [Coverage], [Queue] and [Cache], with the fork server,
      the sanitizer binaries and the clock behind the interface [Host].
    - [FuzzOne] (definitions), [FuzzOneMain] (theorems): the rest of [fuzz_one_original],
      from the choice to skip the entry to the label [abandon_entry], and the loop of
      [src/afl-fuzz.c] that selects the entry, with the generator of [Rng] and the cache of
      [Cache].  Calibration, trimming and the stages, which the files above model over states
      of their own, are parameters here ([Phases]) of which nothing is assumed.
    - [Fuzz]: [save_if_interesting] as the implementation of the interface [Fuzzer], and the
      theorem on the whole step of a stage.

    ** A defect of the source

    [src/afl-fuzz-one.c] as committed has one closing brace too many: line 2205 closes the
    block that line 2199 opens, and line 3287 is meant to close it again.  Counted as they
    are, line 3287 ends the stacking loop, line 3289 the loop of the havoc stage and line
    3317 the function, so that the splicing stage and the label [abandon_entry] stand
    outside of every function and the file does not compile.  [Havoc] (from the
    definition [one_round] on) and [FuzzOne] read the file without the brace of line 2205, which is
    how it is indented.

    ** State and effects

    The state of a component is a record with the fields of the C structure the code
    reads or writes; an operation is a function on it.  An access outside of an
    allocation makes the operation return [None] or [Fault], so that each theorem
    that states a result also states memory safety.  Loops are structural where the C
    loop counts, and take fuel elsewhere, with [NoFuel] (or [None]) when it runs out;
    theorems give a sufficient amount: 64 steps for [next_p2], 32 for the shifts of
    [could_be_bitflip], the length of the file for the text scan, [2 * in_len + 1] for
    the loops of the minimizer (each pass that continues lowers the number of bytes
    plus the number of bytes that are not '0'), one more than the bytes for the loops of
    the skipping stage, 32 doublings for its blocks, 13 turns for calibration (twelve runs at
    most), one more than the sum of the bytes of [virgin_tmout] for the loop that queues slow
    inputs (each turn takes a bit from that map), sixteen stages for havoc with its splices,
    [havoc_limit] runs in each (the score that doubles them is bounded), [2 * len] turns for
    the coloring, one more than the ranges for its taints, a depth of four and of two for the
    recursive encoders of operands (the bytes are swapped once and the value is changed
    once).  The rejection loops of [rand_below],
    and the loops of the mutators that draw again, end when the generator cooperates:
    [MutationsTerm] proves termination for a source that does, since no fixed bound
    holds for all.  The loop that selects an entry has no bound either, and a theorem says
    when no number of turns is enough.

    ** What the theorems show

    - Coverage: [has_new_bits] returns the highest novelty of a trace and clears just
      the bits seen; a second look finds nothing; the quick check on unclassified traces
      agrees with the slow path; the vectorised scans agree with the plain one; the
      counts are the numbers of set bits and bytes; classification and
      simplification act byte by byte on every word size.
    - Random numbers: the step is a bijection, [rand_below] is unbiased, the powers of
      two are the least ones.
    - Mutation: each operator has its abstract effect, lengths stay in bounds, buffers
      are respected when the caller leaves six spare bytes per step, and how they are
      overrun otherwise; the operator tables hold the operators they should.
    - Redundancy tests of the deterministic stages: which changes they accept, exactly,
      and where these differ from what the earlier stages generate.
    - Text: the byte tests accept exactly the UTF-8 encodings; what the guards on the
      length really do.
    - Queue: the reference counts and minimised traces agree with [top_rated]; each
      contest is decided as intended; the favoured entries cover every bit whose winner
      still has its trace; the two ways in which this cover is lost.
    - Minimizer: memory safety and termination, for any target; the result
      reproduces the original behaviour and, with the default limit and an input of more than
      one byte, is minimal for the deletion of one byte.
    - Selection: the score is bounded under every schedule, for counters that do not make
      the code divide by zero; a draw from the alias table gives each
      entry with exactly its share of the weights.
    - Hash table: it refines a finite map.
    - Cache: a lookup gives the contents of the file and keeps slots, buffers and sizes
      consistent; it can always return; how the accounted size drifts.
    - Dictionaries: what is written is read back; the tables stay sorted and free of
      duplicates; how automatic tokens enter and leave.
    - Trimming: any target, safety, termination within 33 lengths and as many
      positions as bytes, agreement of buffer, queue, cache and file, unless the last of the
      logged runs was stopped.
    - Deterministic stages: for any target, the code that changes [out_buf] in place
      refines a specification that enumerates inputs; insertion is exact when every byte
      counts, and how it is not otherwise.
    - Havoc and splicing: every operator stays inside buffers that are grown in time and has
      its effect; the stages end, run a bounded number of inputs, and each input comes from
      the current test case or a splice; what a splice holds; the setting in which the
      stage reads behind a buffer.
    - Input-to-state: for any target and any log, the coloring keeps the path and marks just
      the bytes that can be replaced; a logged operand that is found in the input is replaced
      by the other one and run, and the input is restored; the whole stage is safe and ends
      unless the transformations are switched on, and how it is not safe then; base64 and
      compact integers are read back.
    - Skipping: for any target, safety and termination; what the map of effective bytes
      and the flags of the entry mean, in terms of the runs noted in the call.
    - Interesting inputs: for any target, safety and termination of calibration and of
      [save_if_interesting], under one invariant of maps, queue, scores and cache; what is
      kept is what is new; which crashes are saved; the setting in which it does not return.
      A whole step of a stage, with all of this behind it, keeps the invariant.
    - A round of fuzzing: at its end the counts of pending entries stay those of the queue;
      when the calibration of the entry that is waited for has failed for good, the
      selection never ends.

    Where a theorem speaks of the runs of a call, the target or fuzzer is one that logs them
    ([TrimFacts.logged], [SkipdetFacts.recording]), or the statement is for every property of
    the fuzzer that the runs keep.

    ** What is not modelled

    The compiler wrappers and instrumentation passes, the fork server and the other
    ways to run a target (binary modes), custom mutators and Python, the user
    interface and statistics, initialisation and synchronisation with other instances
    are processes, files or other languages.  Hash functions and the target are
    parameters.  Of [save_if_interesting] and calibration, custom mutators, Nyx, the
    introspection build and the names of files are left out.  Of the input-to-state
    stage, the refreshing of the screen and the debugging output are left out, and the code
    for other machines than 64-bit little-endian ones.  Of a round of fuzzing,
    custom mutators and the old selection in the order of the queue are left out.  MOpt, a
    second copy of the stages with operators chosen by particle swarm optimisation in
    floating point, is not modelled. *)

From stdpp Require Export base list numbers option.
From Stdlib Require Export ZArith Lia Bool.

#[global] Open Scope Z_scope.

(** ** Machine integers

    An unsigned [w]-bit C integer is a [Z] in [0, 2^w); [wrap w] is the
    conversion the C abstract machine performs on assignment. *)

Definition wrap (w z : Z) : Z := z mod 2 ^ w.

Abbreviation u8 := (wrap 8).
Abbreviation u16 := (wrap 16).
Abbreviation u32 := (wrap 32).
Abbreviation u64 := (wrap 64).

(** Signed reinterpretation of a [w]-bit pattern (two's complement). *)
Definition swrap (w z : Z) : Z :=
  let v := wrap w z in if v <? 2 ^ (w - 1) then v else v - 2 ^ w.

Abbreviation s32 := (swrap 32).
Abbreviation s64 := (swrap 64).

Declare Scope cbool_scope.
Delimit Scope cbool_scope with cbool.

(** C truth values: [b2z] is the value of a comparison, [z2b] the test of a
    controlling expression. *)
Definition b2z (b : bool) : Z := if b then 1 else 0.
Definition z2b (z : Z) : bool := negb (z =? 0).

Definition in_width (w z : Z) : Prop := 0 <= z < 2 ^ w.

#[export] Instance in_width_dec w z : Decision (in_width w z).
Proof. unfold in_width. apply _. Defined.

Abbreviation is_u8 := (in_width 8).
Abbreviation is_u16 := (in_width 16).
Abbreviation is_u32 := (in_width 32).
Abbreviation is_u64 := (in_width 64).

(** ** Automation *)

Create HintDb afl.
Create HintDb afl_rw.

(** Case analysis on the first boolean test of the goal or of a hypothesis. *)
Ltac cond_step :=
  match goal with
  | |- context [if ?b then _ else _] => let E := fresh "E" in destruct b eqn:E
  | H : context [if ?b then _ else _] |- _ =>
      let E := fresh "E" in destruct b eqn:E
  end.

(** Turns the boolean comparisons of the context into propositions. *)
Ltac b2p :=
  repeat match goal with
  | H : (_ && _) = true |- _ => apply andb_true_iff in H; destruct H
  | H : (_ || _) = false |- _ => apply orb_false_iff in H; destruct H
  | H : (_ && _) = false |- _ => apply andb_false_iff in H
  | H : (_ || _) = true |- _ => apply orb_true_iff in H
  | H : negb _ = true |- _ => apply negb_true_iff in H
  | H : negb _ = false |- _ => apply negb_false_iff in H
  | H : (_ =? _) = true |- _ => apply Z.eqb_eq in H
  | H : (_ =? _) = false |- _ => apply Z.eqb_neq in H
  | H : (_ <? _) = true |- _ => apply Z.ltb_lt in H
  | H : (_ <? _) = false |- _ => apply Z.ltb_ge in H
  | H : (_ <=? _) = true |- _ => apply Z.leb_le in H
  | H : (_ <=? _) = false |- _ => apply Z.leb_gt in H
  | H : (_ >? _) = _ |- _ => rewrite Z.gtb_ltb in H
  | H : (_ >=? _) = _ |- _ => rewrite Z.geb_leb in H
  end.

Ltac split_and_true :=
  repeat match goal with
  | |- (_ && _) = true => apply andb_true_intro; split
  | |- (_ <=? _) = true => apply Z.leb_le
  | |- (_ <? _) = true => apply Z.ltb_lt
  | |- (_ =? _) = true => apply Z.eqb_eq
  end.

(** [lia] with quotients and remainders. *)
Ltac dlia := zify; Z.to_euclidean_division_equations; lia.

(** ** Facts on widths *)

Lemma pow2_pos w : 0 <= w -> 0 < 2 ^ w.
Proof. intros. apply Z.pow_pos_nonneg; lia. Qed.

Lemma wrap_range w z : 0 <= w -> in_width w (wrap w z).
Proof. intros Hw. apply Z.mod_pos_bound, pow2_pos, Hw. Qed.

Lemma wrap_small w z : in_width w z -> wrap w z = z.
Proof. intros H. apply Z.mod_small, H. Qed.

Lemma wrap_wrap w z : 0 <= w -> wrap w (wrap w z) = wrap w z.
Proof. intros. apply wrap_small, wrap_range. done. Qed.

Lemma wrap_land w z : 0 <= w -> wrap w z = Z.land z (Z.ones w).
Proof. intros. symmetry. by apply Z.land_ones. Qed.

Lemma swrap_small w z : 0 < w -> - 2 ^ (w - 1) <= z < 2 ^ (w - 1) -> swrap w z = z.
Proof.
  intros Hw Hz. unfold swrap, wrap.
  assert (2 ^ w = 2 * 2 ^ (w - 1)) as E.
  { rewrite <- Z.pow_succ_r by lia. f_equal. lia. }
  destruct (decide (0 <= z)).
  - rewrite Z.mod_small by lia. rewrite (proj2 (Z.ltb_lt _ _)); lia.
  - replace (z mod 2 ^ w) with (z + 2 ^ w).
    + rewrite (proj2 (Z.ltb_ge _ _)); lia.
    + symmetry. rewrite <- (Z.mod_add z 1), Z.mul_1_l by lia. apply Z.mod_small. lia.
Qed.

Lemma in_width_mono w w' z : 0 <= w <= w' -> in_width w z -> in_width w' z.
Proof.
  intros Hw [? ?]. split; [done|].
  eapply Z.lt_le_trans; [done|]. apply Z.pow_le_mono_r; lia.
Qed.

#[export] Hint Resolve wrap_range pow2_pos : afl.

(** Bits at and above the width are clear. *)
Lemma testbit_high w z i : in_width w z -> 0 <= w <= i -> Z.testbit z i = false.
Proof.
  intros Hz Hi. rewrite <- (wrap_small w z Hz). by apply Z.mod_pow2_bits_high.
Qed.

Lemma in_width_bits w z :
  0 <= w -> 0 <= z -> (forall i, w <= i -> Z.testbit z i = false) -> in_width w z.
Proof.
  intros Hw Hz Hb. assert (wrap w z = z) as <-; [|by apply wrap_range].
  apply Z.bits_inj'. intros i Hi. unfold wrap.
  destruct (decide (i < w)).
  - by rewrite Z.mod_pow2_bits_low.
  - rewrite Z.mod_pow2_bits_high by lia. symmetry. apply Hb. lia.
Qed.

Lemma land_width w x y : 0 <= w -> in_width w x -> 0 <= y -> in_width w (Z.land x y).
Proof.
  intros Hw Hx Hy. apply in_width_bits; [done| |].
  - apply Z.land_nonneg. left. apply Hx.
  - intros i Hi. rewrite Z.land_spec, (testbit_high w x) by (done || lia). done.
Qed.

Lemma lor_width w x y : 0 <= w -> in_width w x -> in_width w y -> in_width w (Z.lor x y).
Proof.
  intros Hw Hx Hy. apply in_width_bits; [done| |].
  - apply Z.lor_nonneg. split; [apply Hx|apply Hy].
  - intros i Hi.
    rewrite Z.lor_spec, (testbit_high w x), (testbit_high w y) by (done || lia). done.
Qed.

Lemma lxor_width w x y : 0 <= w -> in_width w x -> in_width w y -> in_width w (Z.lxor x y).
Proof.
  intros Hw Hx Hy. apply in_width_bits; [done| |].
  - apply Z.lxor_nonneg. destruct Hx, Hy. tauto.
  - intros i Hi.
    rewrite Z.lxor_spec, (testbit_high w x), (testbit_high w y) by (done || lia). done.
Qed.

#[export] Hint Resolve land_width lor_width lxor_width : afl.

(** ** Byte buffers

    C memory reached through a pointer is the list of the bytes of the
    allocation; an access outside of it is [None]. *)

Abbreviation bytes_ok := (Forall (in_width 8)).

Definition zlen {A} (l : list A) : Z := Z.of_nat (length l).

(** [in_bounds m off n]: the [n] bytes at offset [off] are inside [m]. *)
Definition in_bounds {A} (m : list A) (off n : Z) : bool :=
  (0 <=? off) && (0 <=? n) && (off + n <=? zlen m).

Definition slice {A} (m : list A) (off n : Z) : list A :=
  take (Z.to_nat n) (drop (Z.to_nat off) m).

(** Read [n] elements at [off]. *)
Definition load {A} (m : list A) (off n : Z) : option (list A) :=
  if in_bounds m off n then Some (slice m off n) else None.

(** Overwrite the elements at [off] by [bs]. *)
Definition splice_at {A} (m : list A) (off : Z) (bs : list A) : list A :=
  take (Z.to_nat off) m ++ bs ++ drop (Z.to_nat off + length bs)%nat m.

Definition store {A} (m : list A) (off : Z) (bs : list A) : option (list A) :=
  if in_bounds m off (zlen bs) then Some (splice_at m off bs) else None.

(** [m[off]] *)
Definition get {A} (m : list A) (off : Z) : option A :=
  if 0 <=? off then m !! Z.to_nat off else None.

(** [m[off] = b] *)
Definition put {A} (m : list A) (off : Z) (b : A) : option (list A) :=
  store m off [b].

(** Little-endian value of a byte sequence, and the [n] bytes of a value. *)
Fixpoint le_word (bs : list Z) : Z :=
  match bs with
  | [] => 0
  | b :: bs => b + 256 * le_word bs
  end.

Fixpoint le_bytes (n : nat) (z : Z) : list Z :=
  match n with
  | O => []
  | S n => z mod 256 :: le_bytes n (z / 256)
  end.

(** *** Lengths and contents *)

Lemma zlen_nonneg {A} (l : list A) : 0 <= zlen l.
Proof. unfold zlen. lia. Qed.

Lemma zlen_app {A} (l k : list A) : zlen (l ++ k) = zlen l + zlen k.
Proof. unfold zlen. rewrite length_app. lia. Qed.

Lemma zlen_cons {A} (x : A) l : zlen (x :: l) = 1 + zlen l.
Proof. unfold zlen. simpl. lia. Qed.

Lemma zlen_one {A} (x : A) : zlen [x] = 1.
Proof. done. Qed.

Lemma zlen_rev {A} (l : list A) : zlen (rev l) = zlen l.
Proof. unfold zlen. by rewrite length_rev. Qed.

Lemma zlen_replicate {A} n (x : A) : 0 <= n -> zlen (replicate (Z.to_nat n) x) = n.
Proof. intros. unfold zlen. rewrite length_replicate. lia. Qed.

Lemma in_bounds_spec {A} (m : list A) off n :
  in_bounds m off n = true <-> 0 <= off /\ 0 <= n /\ off + n <= zlen m.
Proof. unfold in_bounds. rewrite !andb_true_iff, !Z.leb_le. tauto. Qed.

Lemma in_bounds_false {A} (m : list A) off n :
  zlen m < off + n -> in_bounds m off n = false.
Proof.
  intros Hn. destruct (in_bounds m off n) eqn:E; [|done]. apply in_bounds_spec in E. lia.
Qed.

Lemma zlen_slice {A} (m : list A) off n :
  0 <= off -> 0 <= n -> off + n <= zlen m -> zlen (slice m off n) = n.
Proof. unfold zlen, slice. intros. rewrite length_take, length_drop. lia. Qed.

Lemma load_Some {A} (m : list A) off n :
  0 <= off -> 0 <= n -> off + n <= zlen m -> load m off n = Some (slice m off n).
Proof. intros. unfold load. by rewrite (proj2 (in_bounds_spec _ _ _)). Qed.

Lemma store_Some {A} (m : list A) off bs :
  0 <= off -> off + zlen bs <= zlen m -> store m off bs = Some (splice_at m off bs).
Proof.
  intros. unfold store. rewrite (proj2 (in_bounds_spec _ _ _)); [done|].
  pose proof (zlen_nonneg bs). lia.
Qed.

Lemma load_inv {A} (m : list A) off n l :
  load m off n = Some l ->
  0 <= off /\ 0 <= n /\ off + n <= zlen m /\ l = slice m off n.
Proof.
  unfold load. destruct (in_bounds m off n) eqn:E; [|done].
  intros [= <-]. apply in_bounds_spec in E. destruct E as (?&?&?). done.
Qed.

Lemma store_inv {A} (m m' : list A) off bs :
  store m off bs = Some m' ->
  0 <= off /\ off + zlen bs <= zlen m /\ m' = splice_at m off bs.
Proof.
  unfold store. destruct (in_bounds m off (zlen bs)) eqn:E; [|done].
  intros [= <-]. apply in_bounds_spec in E. destruct E as (?&?&?). done.
Qed.

Lemma zlen_splice_at {A} (m : list A) off bs :
  0 <= off -> off + zlen bs <= zlen m -> zlen (splice_at m off bs) = zlen m.
Proof.
  unfold zlen, splice_at. intros. rewrite !length_app, length_take, length_drop. lia.
Qed.

(** [lia] up to the length of overwritten buffers. *)
Ltac zlia := repeat (rewrite zlen_splice_at by zlia); lia.

Lemma store_zlen {A} (m m' : list A) off bs : store m off bs = Some m' -> zlen m' = zlen m.
Proof. intros (?&?&->)%store_inv. by apply zlen_splice_at. Qed.

Lemma get_Some {A} (m : list A) off :
  0 <= off < zlen m -> exists b, get m off = Some b.
Proof.
  intros [H0 H1]. unfold get. rewrite (proj2 (Z.leb_le _ _)) by done.
  apply lookup_lt_is_Some_2. unfold zlen in H1. lia.
Qed.

Lemma get_pos {A} (m : list A) i : 0 <= i -> get m i = m !! Z.to_nat i.
Proof. intros. unfold get. by rewrite (proj2 (Z.leb_le 0 i)). Qed.

Lemma get_nat {A} (m : list A) (n : nat) : get m (Z.of_nat n) = m !! n.
Proof. rewrite get_pos by lia. by rewrite Nat2Z.id. Qed.

Lemma get_inv {A} (m : list A) off b :
  get m off = Some b -> 0 <= off < zlen m /\ m !! Z.to_nat off = Some b.
Proof.
  unfold get. destruct (0 <=? off) eqn:E; [|done]. intros H.
  apply Z.leb_le in E. split; [|done]. apply lookup_lt_Some in H. unfold zlen. lia.
Qed.

Lemma put_Some {A} (m : list A) off (b : A) :
  0 <= off < zlen m -> put m off b = Some (<[Z.to_nat off := b]> m).
Proof.
  intros H. unfold put. rewrite store_Some by (change (zlen [b]) with 1; lia).
  f_equal. unfold splice_at. rewrite insert_take_drop by (unfold zlen in H; lia).
  simpl. f_equal. f_equal. f_equal. lia.
Qed.

Lemma alter_is_insert {A} (f : A -> A) i (l : list A) x :
  l !! i = Some x -> alter f i l = <[i := f x]> l.
Proof.
  intros Hx. apply list_eq. intros j. destruct (decide (j = i)) as [->|Hj].
  - rewrite list_lookup_alter_eq, Hx, list_lookup_insert_eq by (by eapply lookup_lt_Some). done.
  - by rewrite list_lookup_alter_ne, list_lookup_insert_ne.
Qed.

Lemma splice_one {A} (m : list A) off (b : A) :
  0 <= off < zlen m -> splice_at m off [b] = <[Z.to_nat off := b]> m.
Proof.
  intros Hm. pose proof (put_Some m off b Hm) as Hp. unfold put in Hp.
  rewrite store_Some in Hp by (rewrite ?zlen_one; lia). by injection Hp.
Qed.

Lemma zlen_insert {A} (m : list A) i x : zlen (<[i := x]> m) = zlen m.
Proof. unfold zlen. by rewrite length_insert. Qed.

Lemma Forall_slice {A} (P : A -> Prop) (m : list A) off n : Forall P m -> Forall P (slice m off n).
Proof. intros. by apply Forall_take, Forall_drop. Qed.

Lemma Forall_splice_at {A} (P : A -> Prop) (m : list A) off bs :
  Forall P m -> Forall P bs -> Forall P (splice_at m off bs).
Proof.
  intros. unfold splice_at. rewrite !Forall_app.
  split_and!; [by apply Forall_take|done|by apply Forall_drop].
Qed.

Lemma slice_one {A} (m : list A) off :
  0 <= off < zlen m -> exists b, slice m off 1 = [b] /\ m !! Z.to_nat off = Some b.
Proof.
  intros Ho. destruct (lookup_lt_is_Some_2 m (Z.to_nat off)) as [b Hb]; [unfold zlen in Ho; lia|].
  exists b. split; [|done]. unfold slice. by rewrite (drop_S _ b _ Hb).
Qed.

Lemma zlen_lookup {A} (m : list A) i : 0 <= i < zlen m -> exists x, m !! Z.to_nat i = Some x.
Proof. intros Hi. destruct (slice_one m i Hi) as (x&_&Hx). by exists x. Qed.

Lemma slice_0 {A} (m : list A) n : slice m 0 n = take (Z.to_nat n) m.
Proof. done. Qed.

Lemma slice_full {A} (m : list A) n : zlen m <= n -> slice m 0 n = m.
Proof. unfold slice, zlen. intros. simpl. apply take_ge. lia. Qed.

Lemma slice_app {A} (m : list A) off n k :
  0 <= off -> 0 <= n -> 0 <= k -> slice m off n ++ slice m (off + n) k = slice m off (n + k).
Proof.
  intros. unfold slice.
  rewrite (Z2Nat.inj_add off n), (Z2Nat.inj_add n k), <- drop_drop by done.
  by rewrite take_take_drop.
Qed.

(** A store is read back, and leaves the disjoint bytes alone. *)
Lemma slice_splice_same {A} (m : list A) off bs :
  0 <= off -> off + zlen bs <= zlen m -> slice (splice_at m off bs) off (zlen bs) = bs.
Proof.
  unfold slice, splice_at, zlen. intros. rewrite Nat2Z.id.
  rewrite drop_app_ge by (rewrite length_take; lia).
  rewrite length_take, Nat.min_l, Nat.sub_diag, drop_0 by lia.
  rewrite take_app_le by lia. by apply take_ge.
Qed.

Lemma lookup_splice_ne {A} (m : list A) off bs i :
  0 <= off -> off + zlen bs <= zlen m ->
  (Z.of_nat i < off \/ off + zlen bs <= Z.of_nat i) ->
  splice_at m off bs !! i = m !! i.
Proof.
  unfold splice_at, zlen. intros H0 H1 [Hi|Hi].
  - rewrite lookup_app_l by (rewrite length_take; lia). apply lookup_take_lt. lia.
  - rewrite !lookup_app_r; rewrite ?length_take; try lia.
    rewrite lookup_drop. f_equal. lia.
Qed.

Lemma lookup_splice_eq {A} (m : list A) off bs i :
  0 <= off -> off + zlen bs <= zlen m ->
  off <= Z.of_nat i < off + zlen bs ->
  splice_at m off bs !! i = bs !! (i - Z.to_nat off)%nat.
Proof.
  unfold splice_at, zlen. intros H0 H1 Hi.
  rewrite lookup_app_r by (rewrite length_take; lia).
  rewrite length_take, lookup_app_l by lia. f_equal. lia.
Qed.

#[export] Hint Resolve Forall_slice Forall_splice_at zlen_nonneg : afl.

(** *** Little-endian words *)

Lemma length_le_bytes n z : length (le_bytes n z) = n.
Proof. revert z. induction n; simpl; auto. Qed.

Lemma zlen_le_bytes n z : zlen (le_bytes n z) = Z.of_nat n.
Proof. unfold zlen. by rewrite length_le_bytes. Qed.

Lemma le_bytes_ok n z : bytes_ok (le_bytes n z).
Proof.
  revert z. induction n; intros z; simpl; constructor; [|done].
  apply Z.mod_pos_bound. lia.
Qed.

Lemma le_word_le_bytes n z : le_word (le_bytes n z) = wrap (8 * Z.of_nat n) z.
Proof.
  revert z. induction n; intros z; [unfold wrap; cbn; by rewrite Z.mod_1_r|].
  cbn [le_bytes le_word]. rewrite IHn. unfold wrap.
  replace (8 * Z.of_nat (S n)) with (8 + 8 * Z.of_nat n) by lia.
  rewrite Z.pow_add_r by lia. change (2 ^ 8) with 256.
  rewrite Z.rem_mul_r; [done|lia|]. apply Z.pow_pos_nonneg; lia.
Qed.

Lemma le_bytes_le_word bs : bytes_ok bs -> le_bytes (length bs) (le_word bs) = bs.
Proof.
  induction 1 as [|b bs Hb Hbs IH]; [done|]. cbn [length le_bytes le_word].
  unfold in_width in Hb. f_equal.
  - rewrite Z.mul_comm, Z.mod_add by lia. by apply Z.mod_small.
  - rewrite Z.mul_comm, Z.div_add, Z.div_small by (done || lia). apply IH.
Qed.

Lemma le_word_range bs : bytes_ok bs -> in_width (8 * zlen bs) (le_word bs).
Proof.
  unfold zlen. induction 1 as [|b bs Hb Hbs IH]; [done|]. cbn [length le_word].
  unfold in_width in *.
  replace (8 * Z.of_nat (S (length bs))) with (8 + 8 * Z.of_nat (length bs)) by lia.
  rewrite Z.pow_add_r by lia. lia.
Qed.

Lemma le_word_zero bs : bytes_ok bs -> le_word bs = 0 <-> Forall (eq 0) bs.
Proof.
  induction 1 as [|b bs Hb Hbs IH]; [by split|]. cbn [le_word].
  pose proof (le_word_range bs Hbs). unfold in_width in *.
  rewrite Forall_cons_iff, <- IH. lia.
Qed.

(** Bits of a word whose low byte is split off. *)
Lemma testbit_cons a x i :
  is_u8 a -> 0 <= i ->
  Z.testbit (a + 256 * x) i = if i <? 8 then Z.testbit a i else Z.testbit x (i - 8).
Proof.
  intros Ha Hi. change 256 with (2 ^ 8). rewrite Z.mul_comm.
  destruct (i <? 8) eqn:E; b2p.
  - rewrite <- (Z.mod_pow2_bits_low _ 8) by lia.
    rewrite Z.mod_add by lia. by rewrite Z.mod_pow2_bits_low.
  - rewrite <- (Z.sub_add 8 i) at 1. rewrite <- Z.div_pow2_bits by lia.
    rewrite Z.div_add, Z.div_small by (done || lia). done.
Qed.

Lemma land_cons a b x y :
  is_u8 a -> is_u8 b -> Z.land (a + 256 * x) (b + 256 * y) = Z.land a b + 256 * Z.land x y.
Proof.
  intros Ha Hb. apply Z.bits_inj'. intros i Hi.
  rewrite Z.land_spec, !testbit_cons by first [done | apply land_width; [lia|done|apply Hb]].
  destruct (i <? 8); by rewrite Z.land_spec.
Qed.

Lemma ldiff_width w x y : 0 <= w -> in_width w x -> in_width w (Z.ldiff x y).
Proof.
  intros Hw Hx. apply in_width_bits; [done| |].
  - apply Z.ldiff_nonneg. left. apply Hx.
  - intros i Hi. rewrite Z.ldiff_spec, (testbit_high w x) by (done || lia). done.
Qed.

Lemma ldiff_cons a b x y :
  is_u8 a -> is_u8 b -> Z.ldiff (a + 256 * x) (b + 256 * y) = Z.ldiff a b + 256 * Z.ldiff x y.
Proof.
  intros Ha Hb. apply Z.bits_inj'. intros i Hi.
  rewrite Z.ldiff_spec, !testbit_cons by first [done | apply ldiff_width; [lia|done]].
  destruct (i <? 8); by rewrite Z.ldiff_spec.
Qed.

Lemma lor_cons a b x y :
  is_u8 a -> is_u8 b -> Z.lor (a + 256 * x) (b + 256 * y) = Z.lor a b + 256 * Z.lor x y.
Proof.
  intros Ha Hb. apply Z.bits_inj'. intros i Hi.
  rewrite Z.lor_spec, !testbit_cons by first [done | apply lor_width; [lia|done|done]].
  destruct (i <? 8); by rewrite Z.lor_spec.
Qed.

(** Bitwise operations on words act byte by byte. *)
Lemma le_word_lor xs ys :
  bytes_ok xs -> bytes_ok ys -> length xs = length ys ->
  Z.lor (le_word xs) (le_word ys) = le_word (zip_with Z.lor xs ys).
Proof.
  intros Hx. revert ys. induction Hx as [|x xs Hx Hxs IH]; intros ys Hys Hl.
  - by destruct ys.
  - destruct Hys as [|y ys Hy Hys]; [done|].
    cbn [le_word zip_with]. rewrite lor_cons by done. rewrite IH; [done..|]. by inversion Hl.
Qed.

Lemma le_word_land xs ys :
  bytes_ok xs -> bytes_ok ys ->
  Z.land (le_word xs) (le_word ys) = le_word (zip_with Z.land xs ys).
Proof.
  intros Hx. revert ys. induction Hx as [|x xs Hx Hxs IH]; intros ys Hys.
  - apply Z.land_0_l.
  - destruct Hys as [|y ys Hy Hys]; [apply Z.land_0_r|].
    cbn [le_word zip_with]. rewrite land_cons by done. by rewrite IH.
Qed.

Lemma le_word_ldiff xs ys :
  bytes_ok xs -> bytes_ok ys -> length xs = length ys ->
  Z.ldiff (le_word xs) (le_word ys) = le_word (zip_with Z.ldiff xs ys).
Proof.
  intros Hx. revert ys. induction Hx as [|x xs Hx Hxs IH]; intros ys Hys Hl.
  - apply Z.ldiff_0_l.
  - destruct Hys as [|y ys Hy Hys]; [done|].
    cbn [le_word zip_with]. rewrite ldiff_cons by done. rewrite IH; [done..|]. by inversion Hl.
Qed.

Lemma zip_with_bytes_ok (f : Z -> Z -> Z) xs ys :
  (forall x y, is_u8 x -> is_u8 y -> is_u8 (f x y)) ->
  bytes_ok xs -> bytes_ok ys -> bytes_ok (zip_with f xs ys).
Proof.
  intros Hf Hx. revert ys. induction Hx; intros ys [|]; cbn; constructor; auto.
Qed.

(** Reading the first [n] bytes of a buffer. *)
Lemma load_head {A} (m : list A) (n : nat) :
  (n <= length m)%nat -> load m 0 (Z.of_nat n) = Some (take n m).
Proof.
  intros. rewrite load_Some by (unfold zlen; lia). unfold slice. by rewrite Nat2Z.id.
Qed.
