(* ===== verification/Res.v ===== *)
(** * Outcomes of C functions

    The result type of the components that run the target, use files or loop on random
    numbers: a value, the end of the process, an access outside of an allocation, or no
    more fuel.  [yields] is the postcondition of a computation that may also end the
    process when [ex] holds. *)

From S2P Require Import Prelude.

(** [Exit] is [FATAL] or [exit(1)]. *)
Inductive res (A : Type) :=
| Ret (a : A)
| Exit
| Fault
| NoFuel.
Arguments Ret {A} a.
Arguments Exit {A}.
Arguments Fault {A}.
Arguments NoFuel {A}.

#[export] Instance res_ret : MRet res := fun _ a => Ret a.
#[export] Instance res_bind : MBind res := fun _ _ k m =>
  match m with
  | Ret a => k a
  | Exit => Exit
  | Fault => Fault
  | NoFuel => NoFuel
  end.

Definition of_option {A} (o : option A) : res A :=
  match o with Some a => Ret a | None => Fault end.

(** [memcpy(d + doff, s + soff, n)] between distinct allocations; nothing is
    accessed when [n] is 0. *)
Definition memcpy (d : list Z) (doff : Z) (s : list Z) (soff n : Z) : res (list Z) :=
  if n =? 0 then Ret d
  else bs ← of_option (load s soff n); of_option (store d doff bs).

(** [memset(d + off, c, n)] *)
Definition memset (d : list Z) (off c n : Z) : res (list Z) :=
  of_option (store d off (replicate (Z.to_nat n) c)).

(** ** Postconditions *)

(** [yields ex nf r Q]: [r] returns a value with [Q]; it may end the process only if
    [ex], run out of fuel only if [nf], and never leaves its buffers. *)
Definition yields {A} (ex nf : Prop) (r : res A) (Q : A -> Prop) : Prop :=
  match r with
  | Ret a => Q a
  | Exit => ex
  | Fault => False
  | NoFuel => nf
  end.

Section Yields.
Context (ex nf : Prop).

Lemma yields_bind {A B} (r : res A) (k : A -> res B) Q :
  yields ex nf r (fun a => yields ex nf (k a) Q) -> yields ex nf (r ≫= k) Q.
Proof. by destruct r. Qed.

Lemma yields_mono {A} (r : res A) (P Q : A -> Prop) :
  yields ex nf r P -> (forall a, P a -> Q a) -> yields ex nf r Q.
Proof. destruct r; cbn; auto. Qed.
End Yields.
