(* ===== verification/Coverage.v ===== *)
(** * Coverage bitmaps

    [include/coverage-64.h], [include/coverage-32.h] and the bitmap routines of
    [src/afl-fuzz-bitmap.c]: hit-count classification, trace simplification, the
    search for new coverage (slow path, and the [skim] fast path in its scalar
    and vector variants), the counting routines and [minimize_bits].

    The two headers differ in the width of the word the maps are walked by;
    [lg] is the logarithm of that width in bytes, 3 for [coverage-64.h] and 2
    for [coverage-32.h]. *)

From S2P Require Import Prelude.

(** ** Lookup tables *)

(** [count_class_lookup8], written with the ranges of its initialiser. *)
Definition count_class_lookup8 (i : Z) : Z :=
  if i =? 0 then 0
  else if i =? 1 then 1
  else if i =? 2 then 2
  else if i =? 3 then 4
  else if (4 <=? i) && (i <=? 7) then 8
  else if (8 <=? i) && (i <=? 15) then 16
  else if (16 <=? i) && (i <=? 31) then 32
  else if (32 <=? i) && (i <=? 127) then 64
  else 128.

(** [simplify_lookup] *)
Definition simplify_lookup (i : Z) : Z := if i =? 0 then 1 else 128.

(** The global array [count_class_lookup16], and one assignment to it. *)
Definition table16 := Z -> Z.

Definition table_set (t : table16) (i v : Z) : table16 :=
  fun j => if j =? i then v else t j.

(** [init_count_class16]: the two nested loops that fill the table. *)
Definition init_count_class16_row (t : table16) (b1 : Z) : table16 :=
  foldl (fun t b2 =>
           table_set t (Z.shiftl b1 8 + b2)
             (u16 (Z.lor (Z.shiftl (count_class_lookup8 b1) 8) (count_class_lookup8 b2))))
        t (seqZ 0 256).

Definition init_count_class16 (t : table16) : table16 :=
  foldl init_count_class16_row t (seqZ 0 256).

(** ** Word-wise walks over the maps *)

(** A word reinterpreted as an array of [u16] (the [memcpy] to [mem16]). *)
Fixpoint u16s (bs : list Z) : list Z :=
  match bs with
  | a :: b :: bs => (a + 256 * b) :: u16s bs
  | _ => []
  end.

Section Word.

Context (lg : Z).

(** [sizeof(_AFL_INTSIZEVAR)] *)
Definition wsize : Z := 2 ^ lg.
Definition wbytes : nat := Z.to_nat wsize.

(** [classify_word] *)
Definition classify_word (t : table16) (word : Z) : Z :=
  le_word (flat_map (fun h => le_bytes 2 (t h)) (u16s (le_bytes wbytes word))).

(** [classify_counts]: [i] words are left, [mem] points at the next one. *)
Fixpoint classify_loop (t : table16) (i : nat) (mem : list Z) : option (list Z) :=
  match i with
  | O => Some mem
  | S i =>
      w ← load mem 0 wsize;
      rest ← classify_loop t i (drop wbytes mem);
      Some ((if z2b (le_word w) then le_bytes wbytes (classify_word t (le_word w)) else w)
            ++ rest)
  end.

Definition classify_counts (t : table16) (map_size : Z) (trace_bits : list Z)
  : option (list Z) :=
  classify_loop t (Z.to_nat (Z.shiftr map_size lg)) trace_bits.

(** [simplify_trace] *)
Fixpoint simplify_loop (i : nat) (mem : list Z) : option (list Z) :=
  match i with
  | O => Some mem
  | S i =>
      w ← load mem 0 wsize;
      rest ← simplify_loop i (drop wbytes mem);
      Some ((if z2b (le_word w) then map simplify_lookup w
             else replicate wbytes 1) ++ rest)
  end.

Definition simplify_trace (map_size : Z) (bytes : list Z) : option (list Z) :=
  simplify_loop (Z.to_nat (Z.shiftr map_size lg)) bytes.

(** [discover_word]: [ret] and the virgin word after the call. *)
Definition discover_word (ret : Z) (current virgin : list Z) : Z * list Z :=
  if z2b (Z.land (le_word current) (le_word virgin)) then
    ((if ret <? 2 then
        if existsb (fun '(c, v) => z2b c && (v =? 255)) (combine current virgin)
        then 2 else 1
      else ret),
     le_bytes wbytes (Z.land (le_word virgin) (Z.lnot (le_word current))))
  else (ret, virgin).

Fixpoint has_new_bits_loop (i : nat) (ret : Z) (current virgin : list Z)
  : option (Z * list Z) :=
  match i with
  | O => Some (ret, virgin)
  | S i =>
      c ← load current 0 wsize;
      v ← load virgin 0 wsize;
      let '(ret, v) := if z2b (le_word c) then discover_word ret c v else (ret, v) in
      '(ret, rest) ← has_new_bits_loop i ret (drop wbytes current) (drop wbytes virgin);
      Some (ret, v ++ rest)
  end.

(** The words [has_new_bits] walks: [(real_map_size + 7) >> 3], or [+ 3 >> 2]. *)
Definition new_bits_words (real_map_size : Z) : nat :=
  Z.to_nat (Z.shiftr (u32 (real_map_size + (wsize - 1))) lg).

(** [skim], scalar variant: four words per iteration, [fuel] bounds the number
    of iterations of [for (; current < current_end; ...)]. *)
Definition skim_hit (t : table16) (c v : list Z) : bool :=
  z2b (le_word c) && z2b (Z.land (classify_word t (le_word c)) (le_word v)).

Fixpoint skim_words (t : table16) (n : nat) (current virgin : list Z)
  : option bool :=
  match n with
  | O => Some false
  | S n =>
      c ← load current 0 wsize;
      v ← load virgin 0 wsize;
      if skim_hit t c v then Some true
      else skim_words t n (drop wbytes current) (drop wbytes virgin)
  end.

Fixpoint skim_loop (t : table16) (fuel : nat) (todo : Z) (virgin current : list Z)
  : option Z :=
  match fuel with
  | O => None
  | S fuel =>
      if 0 <? todo then
        hit ← skim_words t 4 current virgin;
        if (hit : bool) then Some 1
        else skim_loop t fuel (todo - 4 * wsize)
               (drop (4 * wbytes) virgin) (drop (4 * wbytes) current)
      else Some 0
  end.

(** The distance to [current_end] is [map_size] bytes. *)
Definition skim (t : table16) (map_size : Z) (virgin current : list Z) : option Z :=
  skim_loop t (S (Z.to_nat map_size)) map_size virgin current.

End Word.

(** ** [coverage-32.h]

    The routines above at a word of four bytes. *)

Definition classify_word32 : table16 -> Z -> Z := classify_word 2.
Definition simplify_trace32 : Z -> list Z -> option (list Z) := simplify_trace 2.
Definition classify_counts32 : table16 -> Z -> list Z -> option (list Z) := classify_counts 2.
Definition discover_word32 : Z -> list Z -> list Z -> Z * list Z := discover_word 2.
Definition skim32 : table16 -> Z -> list Z -> list Z -> option Z := skim 2.

(** ** The fuzzer state the bitmap routines touch *)

(** The three virgin maps [has_new_bits] is called with; comparing the pointer
    with [afl->virgin_bits] is comparing this tag with [VirginBits]. *)
Inductive virgin_id := VirginBits | VirginTmout | VirginCrash.

#[export] Instance virgin_id_eq_dec : EqDecision virgin_id.
Proof. solve_decision. Defined.

Record cov_state := CovState {
  cov_map_size : Z;
  cov_real_map_size : Z;
  trace_bits : list Z;
  virgin_bits : list Z;
  virgin_tmout : list Z;
  virgin_crash : list Z;
  bitmap_changed : bool
}.

Definition virgin_of (a : cov_state) (id : virgin_id) : list Z :=
  match id with
  | VirginBits => virgin_bits a
  | VirginTmout => virgin_tmout a
  | VirginCrash => virgin_crash a
  end.

Definition set_virgin (id : virgin_id) (v : list Z) (a : cov_state) : cov_state :=
  {| cov_map_size := cov_map_size a; cov_real_map_size := cov_real_map_size a;
     trace_bits := trace_bits a;
     virgin_bits := if decide (id = VirginBits) then v else virgin_bits a;
     virgin_tmout := if decide (id = VirginTmout) then v else virgin_tmout a;
     virgin_crash := if decide (id = VirginCrash) then v else virgin_crash a;
     bitmap_changed := bitmap_changed a |}.

Definition set_trace (tr : list Z) (a : cov_state) : cov_state :=
  {| cov_map_size := cov_map_size a; cov_real_map_size := cov_real_map_size a;
     trace_bits := tr; virgin_bits := virgin_bits a; virgin_tmout := virgin_tmout a;
     virgin_crash := virgin_crash a; bitmap_changed := bitmap_changed a |}.

Definition set_changed (c : bool) (a : cov_state) : cov_state :=
  {| cov_map_size := cov_map_size a; cov_real_map_size := cov_real_map_size a;
     trace_bits := trace_bits a; virgin_bits := virgin_bits a;
     virgin_tmout := virgin_tmout a; virgin_crash := virgin_crash a;
     bitmap_changed := c |}.

(** [has_new_bits] *)
Definition has_new_bits (lg : Z) (id : virgin_id) (a : cov_state)
  : option (Z * cov_state) :=
  '(ret, v) ← has_new_bits_loop lg (new_bits_words lg (cov_real_map_size a)) 0
                (trace_bits a) (virgin_of a id);
  let a := set_virgin id v a in
  Some (ret, if z2b ret && bool_decide (id = VirginBits) then set_changed true a else a).

(** [has_new_bits_unclassified] *)
Definition has_new_bits_unclassified (lg : Z) (t : table16) (id : virgin_id)
    (a : cov_state) : option (Z * cov_state) :=
  s ← skim lg t (cov_map_size a) (virgin_of a id) (trace_bits a);
  if s =? 0 then Some (0, a)
  else
    tr ← classify_counts lg t (cov_map_size a) (trace_bits a);
    has_new_bits lg id (set_trace tr a).

(** ** The vector variants of [skim] (coverage-64.h)

    [_mm256_movemask_epi8 (_mm256_cmpeq_epi64 value 0)] has the eight bits of
    lane [k] set exactly when lane [k] is zero;
    [_mm512_testn_epi64_mask value value] has bit [k] set exactly when lane [k]
    is zero. *)

Fixpoint lanes (n : nat) (mem : list Z) : option (list Z) :=
  match n with
  | O => Some []
  | S n =>
      w ← load mem 0 8;
      ws ← lanes n (drop 8 mem);
      Some (le_word w :: ws)
  end.

Fixpoint movemask_cmpeq0 (ws : list Z) : Z :=
  match ws with
  | [] => 0
  | w :: ws => (if w =? 0 then 255 else 0) + 256 * movemask_cmpeq0 ws
  end.

Fixpoint testn_mask (ws : list Z) : Z :=
  match ws with
  | [] => 0
  | w :: ws => (if w =? 0 then 1 else 0) + 2 * testn_mask ws
  end.

(** The unrolled tests of one iteration: lane [k] is looked at when its part
    [sel k] of the mask is clear. *)
Fixpoint unrolled (t : table16) (mask : Z) (sel : nat -> Z) (k n : nat)
    (cs vs : list Z) : bool :=
  match n, cs, vs with
  | S n, c :: cs, v :: vs =>
      ((Z.land mask (sel k) =? 0) && z2b (Z.land (classify_word 3 t c) v))
      || unrolled t mask sel (S k) n cs vs
  | _, _, _ => false
  end.

Fixpoint skim_avx2_loop (t : table16) (fuel : nat) (todo : Z) (virgin current : list Z)
  : option Z :=
  match fuel with
  | O => None
  | S fuel =>
      if 0 <? todo then
        cs ← lanes 4 current;
        vs ← lanes 4 virgin;
        let mask := movemask_cmpeq0 cs in
        if mask =? 0xffffffff then
          skim_avx2_loop t fuel (todo - 32) (drop 32 virgin) (drop 32 current)
        else if unrolled t mask (fun k => Z.shiftl 0xff (8 * Z.of_nat k)) 0 4 cs vs
        then Some 1
        else skim_avx2_loop t fuel (todo - 32) (drop 32 virgin) (drop 32 current)
      else Some 0
  end.

Definition skim_avx2 (t : table16) (map_size : Z) (virgin current : list Z) : option Z :=
  skim_avx2_loop t (S (Z.to_nat map_size)) map_size virgin current.

(** The loop test of the 512-bit variant is [current != current_end]. *)
Fixpoint skim_avx512_loop (t : table16) (fuel : nat) (todo : Z) (virgin current : list Z)
  : option Z :=
  match fuel with
  | O => None
  | S fuel =>
      if negb (todo =? 0) then
        cs ← lanes 8 current;
        vs ← lanes 8 virgin;
        let mask := testn_mask cs in
        if mask =? 0xff then
          skim_avx512_loop t fuel (todo - 64) (drop 64 virgin) (drop 64 current)
        else if unrolled t mask (fun k => Z.shiftl 1 (Z.of_nat k)) 0 8 cs vs
        then Some 1
        else skim_avx512_loop t fuel (todo - 64) (drop 64 virgin) (drop 64 current)
      else Some 0
  end.

Definition skim_avx512 (t : table16) (map_size : Z) (virgin current : list Z) : option Z :=
  skim_avx512_loop t (S (Z.to_nat map_size)) map_size virgin current.

(** ** Counting *)

(** [i = ((real_map_size + 3) >> 2)] words of 32 bits. *)
Definition count_words (real_map_size : Z) : nat :=
  Z.to_nat (Z.shiftr (u32 (real_map_size + 3)) 2).

(** The common walk: [step] is the contribution of a word to [ret]. *)
Fixpoint count_loop (step : Z -> Z) (i : nat) (ret : Z) (mem : list Z) : option Z :=
  match i with
  | O => Some ret
  | S i =>
      v ← load mem 0 4;
      count_loop step i (u32 (ret + step (le_word v))) (drop 4 mem)
  end.

(** The portable population count of [count_bits]. *)
Definition swar_popcount (v : Z) : Z :=
  let v := u32 (v - Z.land (Z.shiftr v 1) 0x55555555) in
  let v := u32 (Z.land v 0x33333333 + Z.land (Z.shiftr v 2) 0x33333333) in
  Z.shiftr (u32 (Z.land (u32 (v + Z.shiftr v 4)) 0xF0F0F0F * 0x01010101)) 24.

(** [__builtin_popcount] *)
Definition popcount (w : nat) (v : Z) : Z :=
  foldr (fun i acc => b2z (Z.testbit v i) + acc) 0 (seqZ 0 (Z.of_nat w)).

Definition count_bits_step (builtin : bool) (v : Z) : Z :=
  if v =? 0xffffffff then 32
  else if builtin then popcount 32 v else swar_popcount v.

Definition count_bits (builtin : bool) (real_map_size : Z) (mem : list Z) : option Z :=
  count_loop (count_bits_step builtin) (count_words real_map_size) 0 mem.

Definition count_bytes_step (v : Z) : Z :=
  if v =? 0 then 0
  else b2z (z2b (Z.land v 0x000000ff)) + b2z (z2b (Z.land v 0x0000ff00))
       + b2z (z2b (Z.land v 0x00ff0000)) + b2z (z2b (Z.land v 0xff000000)).

Definition count_bytes (real_map_size : Z) (mem : list Z) : option Z :=
  count_loop count_bytes_step (count_words real_map_size) 0 mem.

Definition count_non_255_step (v : Z) : Z :=
  if v =? 0xffffffff then 0
  else b2z (negb (Z.land v 0x000000ff =? 0x000000ff))
       + b2z (negb (Z.land v 0x0000ff00 =? 0x0000ff00))
       + b2z (negb (Z.land v 0x00ff0000 =? 0x00ff0000))
       + b2z (negb (Z.land v 0xff000000 =? 0xff000000)).

Definition count_non_255_bytes (real_map_size : Z) (mem : list Z) : option Z :=
  count_loop count_non_255_step (count_words real_map_size) 0 mem.

(** ** Compacting a trace *)

(** [minimize_bits]: [todo] iterations remain, [i] is the index. *)
Fixpoint minimize_loop (todo : nat) (i : Z) (src dst : list Z) : option (list Z) :=
  match todo with
  | O => Some dst
  | S todo =>
      b ← get src i;
      if z2b b then
        d ← get dst (Z.shiftr i 3);
        dst ← put dst (Z.shiftr i 3) (u8 (Z.lor d (Z.shiftl 1 (Z.land i 7))));
        minimize_loop todo (i + 1) src dst
      else minimize_loop todo (i + 1) src dst
  end.

Definition minimize_bits (map_size : Z) (dst src : list Z) : option (list Z) :=
  minimize_loop (Z.to_nat map_size) 0 src dst.
