(* ===== verification/Rng.v ===== *)
(** * Random numbers

    [rand_next] and [rand_set_seed] of [src/afl-performance.c] (the 64-bit
    romuDuoJr generator), [rand_below], [rand_below_datalen] and [next_p2] of
    [include/afl-fuzz.h], [next_pow2] of [include/alloc-inl.h], and the interface
    [RandSource] the mutators are written against. *)

From S2P Require Import Prelude.

(** ** State *)

(** [dev_urandom] is what the kernel answers to the successive reads of
    [rand_seed] from the urandom descriptor. *)
Record rng := Rng {
  rand_seed0 : Z;
  rand_seed1 : Z;
  rand_seed2 : Z;
  rand_cnt : Z;
  init_seed : Z;
  fixed_seed : bool;
  dev_urandom : nat -> Z * Z * Z;
  urandom_pos : nat
}.

Definition set_seeds (s0 s1 s2 : Z) (r : rng) : rng :=
  Rng s0 s1 s2 (rand_cnt r) (init_seed r) (fixed_seed r) (dev_urandom r) (urandom_pos r).

Definition set_cnt (c : Z) (r : rng) : rng :=
  Rng (rand_seed0 r) (rand_seed1 r) (rand_seed2 r) c (init_seed r) (fixed_seed r)
      (dev_urandom r) (urandom_pos r).

(** [ROTL] on 64 bits. *)
Definition rotl64 (d lrot : Z) : Z :=
  Z.lor (u64 (Z.shiftl d lrot)) (Z.shiftr d (64 - lrot)).

(** [rand_next], [WORD_SIZE_64] *)
Definition rand_next (r : rng) : Z * rng :=
  let xp := rand_seed0 r in
  let s0 := u64 (15241094284759029579 * rand_seed1 r) in
  let s1 := u64 (rand_seed1 r - xp) in
  let s1 := rotl64 s1 27 in
  (xp, set_seeds s0 s1 (rand_seed2 r) r).

(** [rand_set_seed]; [hash64] is the XXH3 hash of the eight bytes of the seed. *)
Definition rand_set_seed (hash64 : list Z -> Z) (seed : Z) (r : rng) : rng :=
  let s0 := hash64 (le_bytes 8 seed) in
  let s1 := Z.lxor s0 0x1234567890abcdef in
  let s2 := Z.lxor (Z.land s0 0x1234567890abcdef) (Z.lor s1 0xfedcba9876543210) in
  Rng s0 s1 s2 (rand_cnt r) seed (fixed_seed r) (dev_urandom r) (urandom_pos r).

(** [rand_get_seed] *)
Definition rand_get_seed (r : rng) : Z :=
  if fixed_seed r then init_seed r else s64 (rand_seed0 r).

Definition RESEED_RNG : Z := 2500000.
Definition UINT64_MAX : Z := 0xffffffffffffffff.

(** The reseeding test of [rand_below]: the counter is always decremented. *)
Definition reseed (r : rng) : rng :=
  let due := rand_cnt r =? 0 in
  let r := set_cnt (u32 (rand_cnt r - 1)) r in
  if due && negb (fixed_seed r) then
    let '(s0, s1, s2) := dev_urandom r (urandom_pos r) in
    Rng s0 s1 s2 (u32 (RESEED_RNG / 2 + s1 mod RESEED_RNG)) (init_seed r) (fixed_seed r)
        (dev_urandom r) (S (urandom_pos r))
  else r.

(** Values at and above this bound are rejected. *)
Definition reject_bound (limit : Z) : Z := UINT64_MAX - UINT64_MAX mod limit.

(** The rejection loop, with [fuel] iterations. *)
Fixpoint draw (fuel : nat) (limit : Z) (r : rng) : option (Z * rng) :=
  match fuel with
  | O => None
  | S fuel =>
      let '(rnd, r) := rand_next r in
      if rnd >=? reject_bound limit then draw fuel limit r
      else Some (rnd mod limit, r)
  end.

Definition rand_below (fuel : nat) (limit : Z) (r : rng) : option (Z * rng) :=
  if limit <=? 1 then Some (0, r) else draw fuel limit (reseed r).

(** [rand_below_datalen]; gcc and clang evaluate the draws from left to right. *)
Definition rand_below_datalen (fuel : nat) (limit : Z) (r : rng) : option (Z * rng) :=
  if limit <=? 1 then Some (0, r)
  else
    '(c, r) ← rand_below fuel 3 r;
    if c =? 2 then
      '(a, r) ← rand_below fuel limit r;
      '(b, r) ← rand_below fuel (limit - 1) r;
      '(d, r) ← rand_below fuel (limit - 1) r;
      Some ((a mod (1 + b)) mod (1 + d), r)
    else if c =? 1 then
      '(a, r) ← rand_below fuel limit r;
      '(b, r) ← rand_below fuel (limit - 1) r;
      Some (a mod (1 + b), r)
    else rand_below fuel limit r.

(** ** Powers of two *)

(** [next_p2]: 64 doublings reach the overflow of [ret]. *)
Fixpoint next_p2_loop (fuel : nat) (val ret : Z) : option Z :=
  if val >? ret then
    match fuel with
    | O => None
    | S fuel => next_p2_loop fuel val (u64 (Z.shiftl ret 1))
    end
  else Some ret.

Definition next_p2 (val : Z) : option Z := next_p2_loop 64 val 1.

(** [next_pow2] on a 64-bit [size_t]. *)
Definition next_pow2 (n : Z) : Z :=
  let out := u64 (n - 1) in
  let out := Z.lor out (Z.shiftr out 1) in
  let out := Z.lor out (Z.shiftr out 2) in
  let out := Z.lor out (Z.shiftr out 4) in
  let out := Z.lor out (Z.shiftr out 8) in
  let out := Z.lor out (Z.shiftr out 16) in
  u64 (out + 1).

(** ** The interface the mutators use *)

Class RandSource (S : Type) := {
  rs_below : Z -> S -> option (Z * S);
  rs_next : S -> Z * S;
  rs_small : forall limit s v s', limit <= 1 -> rs_below limit s = Some (v, s') -> v = 0;
  rs_range : forall limit s v s', 1 < limit -> rs_below limit s = Some (v, s') -> 0 <= v < limit
}.

(** A scripted source: the answers are read off a list. *)
Definition script_below (limit : Z) (l : list Z) : option (Z * list Z) :=
  if limit <=? 1 then Some (0, l)
  else match l with
       | [] => None
       | x :: l => Some (x mod limit, l)
       end.

Definition script_next (l : list Z) : Z * list Z :=
  match l with
  | [] => (0, [])
  | x :: l => (u64 x, l)
  end.

#[export] Instance script_source : RandSource (list Z).
Proof.
  refine {| rs_below := script_below; rs_next := script_next |}.
  - intros limit s v s' Hl. unfold script_below. rewrite (proj2 (Z.leb_le _ _)) by done. congruence.
  - intros limit s v s' Hl. unfold script_below. rewrite (proj2 (Z.leb_gt _ _)) by done.
    destruct s; [done|]. intros [= <- _]. apply Z.mod_pos_bound. lia.
Defined.

(** ** Facts *)

Lemma reject_bound_multiple limit :
  1 < limit -> reject_bound limit = UINT64_MAX / limit * limit.
Proof. intros. unfold reject_bound. rewrite (Z.mod_eq UINT64_MAX limit) by lia. lia. Qed.

Lemma draw_range fuel limit r v r' :
  1 < limit -> draw fuel limit r = Some (v, r') -> 0 <= v < limit.
Proof.
  intros Hl. revert r. induction fuel as [|fuel IH]; intros r H; [done|].
  cbn in H. destruct (_ >=? _); [by apply IH in H|]. injection H as <- _.
  apply Z.mod_pos_bound. lia.
Qed.

Lemma rand_below_range fuel limit r v r' :
  1 < limit -> rand_below fuel limit r = Some (v, r') -> 0 <= v < limit.
Proof.
  intros Hl. unfold rand_below. rewrite (proj2 (Z.leb_gt _ _)) by done. by apply draw_range.
Qed.

(** The generator of the program is a source; [fuel] bounds the rejections of
    one draw. *)
#[export] Instance rng_source (fuel : nat) : RandSource rng.
Proof.
  refine {| rs_below := rand_below fuel; rs_next := rand_next |}.
  - intros limit s v s' Hl. unfold rand_below. rewrite (proj2 (Z.leb_le _ _)) by done. congruence.
  - intros limit s v s' Hl. by apply rand_below_range.
Defined.

(** ** Bijectivity of the generator

    The multiplier is odd; [romu_inv] is its inverse modulo 2^64. *)

Definition romu_inv : Z := 0x43d68ed20cd1fa63.

Definition rotr64 (d rrot : Z) : Z :=
  Z.lor (Z.shiftr d rrot) (u64 (Z.shiftl d (64 - rrot))).

(** The state before the last [rand_next]. *)
Definition rand_prev (r : rng) : rng :=
  let s1 := u64 (romu_inv * rand_seed0 r) in
  let s0 := u64 (s1 - rotr64 (rand_seed1 r) 27) in
  set_seeds s0 s1 (rand_seed2 r) r.

Lemma testbit_wrap w z i : 0 <= i -> 0 <= w -> Z.testbit (wrap w z) i = (i <? w) && Z.testbit z i.
Proof.
  intros Hi Hw. unfold wrap. destruct (i <? w) eqn:E; b2p.
  - by rewrite Z.mod_pow2_bits_low.
  - by rewrite Z.mod_pow2_bits_high.
Qed.

Lemma testbit_rotl64 d k i :
  is_u64 d -> 0 <= k <= 64 -> 0 <= i < 64 ->
  Z.testbit (rotl64 d k) i = Z.testbit d (if i <? k then i - k + 64 else i - k).
Proof.
  intros Hd Hk Hi. unfold rotl64.
  rewrite Z.lor_spec, testbit_wrap, Z.shiftl_spec, Z.shiftr_spec by lia.
  rewrite (proj2 (Z.ltb_lt i 64)) by lia. cbn [andb].
  destruct (i <? k) eqn:E; b2p.
  - rewrite Z.testbit_neg_r by lia. cbn [orb]. f_equal. lia.
  - rewrite (testbit_high 64 d (i + (64 - k))), orb_false_r by (done || lia). done.
Qed.

Lemma testbit_rotr64 d k i :
  is_u64 d -> 0 <= k <= 64 -> 0 <= i < 64 ->
  Z.testbit (rotr64 d k) i = Z.testbit d (if i <? 64 - k then i + k else i + k - 64).
Proof.
  intros Hd Hk Hi. unfold rotr64.
  rewrite Z.lor_spec, testbit_wrap, Z.shiftl_spec, Z.shiftr_spec by lia.
  rewrite (proj2 (Z.ltb_lt i 64)) by lia. cbn [andb].
  destruct (i <? 64 - k) eqn:E; b2p.
  - rewrite (Z.testbit_neg_r d (i - (64 - k))), orb_false_r by lia. done.
  - rewrite (testbit_high 64 d (i + k)) by (done || lia). cbn [orb]. f_equal. lia.
Qed.

Lemma rot64_width d k : is_u64 d -> 0 <= k <= 64 -> is_u64 (rotl64 d k) /\ is_u64 (rotr64 d k).
Proof.
  intros Hd Hk. unfold rotl64, rotr64.
  assert (forall j, 0 <= j -> is_u64 (Z.shiftr d j)) as Hs.
  { intros j Hj. rewrite Z.shiftr_div_pow2 by done. unfold in_width in *.
    pose proof (pow2_pos j Hj). split; [apply Z.div_pos; lia|].
    apply Z.div_lt_upper_bound; [done|]. nia. }
  split; apply lor_width; try lia; first [apply wrap_range; lia | apply Hs; lia].
Qed.

Lemma rotr_rotl d k : is_u64 d -> 0 <= k <= 64 -> rotr64 (rotl64 d k) k = d.
Proof.
  intros Hd Hk. destruct (rot64_width d k Hd Hk) as [Hl _].
  destruct (rot64_width (rotl64 d k) k Hl Hk) as [_ Hr].
  apply Z.bits_inj'. intros i Hi. destruct (decide (i < 64)).
  - rewrite testbit_rotr64, testbit_rotl64; [|done|done|by cond_step; b2p; lia|done|done|lia].
    f_equal. destruct (i <? 64 - k) eqn:E; b2p; cond_step; b2p; lia.
  - rewrite !(testbit_high 64) by (done || lia). done.
Qed.

(** ** Smearing the top bit *)

(** [y] has bit [i] set when [x] has one of the bits [i .. i + n - 1]. *)
Definition smeared (x : Z) (n : Z) (y : Z) : Prop :=
  forall i, 0 <= i ->
    Z.testbit y i = true <-> exists j, 0 <= j < n /\ Z.testbit x (i + j) = true.

Lemma smeared_1 x : smeared x 1 x.
Proof.
  intros i Hi. split; [intros H; exists 0; rewrite Z.add_0_r; by split|].
  intros (j&Hj&H). by assert (j = 0) as -> by lia; rewrite Z.add_0_r in H.
Qed.

Lemma smeared_double x n y :
  0 < n -> smeared x n y -> smeared x (2 * n) (Z.lor y (Z.shiftr y n)).
Proof.
  intros Hn Hs i Hi. rewrite Z.lor_spec, Z.shiftr_spec, orb_true_iff by done.
  rewrite (Hs i), (Hs (i + n)) by lia. split.
  - intros [(j&Hj&H)|(j&Hj&H)]; [exists j|exists (n + j)]; split; try lia; [done|].
    by rewrite Z.add_assoc.
  - intros (j&Hj&H). destruct (decide (j < n)); [left; exists j|right; exists (j - n)]; split; try lia.
    + done.
    + by replace (i + n + (j - n)) with (i + j) by lia.
Qed.

Lemma lor_shiftr_nonneg y k : 0 <= y -> 0 <= Z.lor y (Z.shiftr y k).
Proof. intros. apply Z.lor_nonneg. split; [done|]. by apply Z.shiftr_nonneg. Qed.

Lemma smear_ones x y :
  0 < x < 2 ^ 32 -> 0 <= y -> smeared x 32 y -> y = Z.ones (Z.log2 x + 1).
Proof.
  intros Hx Hy Hs. pose proof (Z.log2_nonneg x).
  assert (Z.log2 x < 32) as Hl by (apply Z.log2_lt_pow2; lia).
  apply Z.bits_inj'. intros i Hi. destruct (decide (i < Z.log2 x + 1)).
  - rewrite Z.ones_spec_low by lia. apply Hs; [done|]. exists (Z.log2 x - i). split; [lia|].
    replace (i + (Z.log2 x - i)) with (Z.log2 x) by lia. apply Z.bit_log2. lia.
  - rewrite Z.ones_spec_high by lia. destruct (Z.testbit y i) eqn:E; [|done].
    apply Hs in E as (j&Hj&E); [|done]. rewrite Z.bits_above_log2 in E by lia. done.
Qed.

Lemma next_pow2_value n : 1 < n <= 2 ^ 32 -> next_pow2 n = 2 ^ (Z.log2 (n - 1) + 1).
Proof.
  intros Hn. unfold next_pow2. rewrite (wrap_small 64 (n - 1)) by (unfold in_width; lia).
  set (x := n - 1) in *.
  pose proof (smeared_double x 1 _ eq_refl (smeared_1 x)) as H2. change (2 * 1) with 2 in H2.
  pose proof (smeared_double x 2 _ eq_refl H2) as H4. change (2 * 2) with 4 in H4.
  pose proof (smeared_double x 4 _ eq_refl H4) as H8. change (2 * 4) with 8 in H8.
  pose proof (smeared_double x 8 _ eq_refl H8) as H16. change (2 * 8) with 16 in H16.
  pose proof (smeared_double x 16 _ eq_refl H16) as Hs. change (2 * 16) with 32 in Hs.
  pose proof (Z.log2_nonneg x).
  assert (Z.log2 x < 32) by (apply Z.log2_lt_pow2; lia).
  apply smear_ones in Hs; [|lia|repeat apply lor_shiftr_nonneg; lia].
  cbv zeta.
  rewrite Hs, Z.ones_equiv. replace (Z.pred _ + 1) with (2 ^ (Z.log2 x + 1)) by lia.
  apply wrap_small. split; [apply Z.pow_nonneg; lia|]. apply Z.pow_lt_mono_r; lia.
Qed.

(** ** Properties *)

(** The generator is a permutation of its states: [rand_prev] recovers the
    state before [rand_next], so distinct states never merge and a cycle of the
    generator contains its start. *)
Theorem rand_next_invertible r :
  is_u64 (rand_seed0 r) -> is_u64 (rand_seed1 r) ->
  rand_prev (rand_next r).2 = r /\
  is_u64 (rand_seed0 (rand_next r).2) /\ is_u64 (rand_seed1 (rand_next r).2).
Proof.
  intros H0 H1. unfold rand_next, rand_prev. cbn [snd set_seeds rand_seed0 rand_seed1 rand_seed2].
  assert (u64 (romu_inv * u64 (15241094284759029579 * rand_seed1 r)) = rand_seed1 r) as ->.
  { unfold wrap. rewrite Z.mul_mod_idemp_r, Z.mul_assoc, <- Z.mul_mod_idemp_l by done.
    change ((romu_inv * 15241094284759029579) mod 2 ^ 64) with 1. rewrite Z.mul_1_l.
    by apply Z.mod_small. }
  rewrite rotr_rotl by (lia || (apply wrap_range; lia)). split_and!.
  - destruct r as [s0 s1 s2 c i f d p]. cbn in *.
    unfold wrap. rewrite Zminus_mod_idemp_r. replace (s1 - (s1 - s0)) with s0 by lia.
    rewrite (Z.mod_small s0) by done. reflexivity.
  - apply wrap_range. lia.
  - apply rot64_width; [apply wrap_range|]; lia.
Qed.

Definition demo_rng : rng := Rng 11 22 33 5 0 true (fun _ => (1, 2, 3)) 0.

Theorem rand_next_witness : rand_prev (rand_next demo_rng).2 = demo_rng.
Proof. apply (rand_next_invertible demo_rng); split; cbn; lia. Defined.

(** The generator after [n] outputs. *)
Definition after_outputs (n : nat) (r : rng) : rng := Nat.iter n (fun r => (rand_next r).2) r.

Lemma after_outputs_S n r : after_outputs (S n) r = after_outputs n (rand_next r).2.
Proof. apply Nat.iter_succ_r. Qed.

Lemma draw_one limit r :
  draw 1 limit r = if rand_seed0 r >=? reject_bound limit then None else Some (rand_seed0 r mod limit, (rand_next r).2).
Proof. cbn. unfold rand_next. cbn. done. Qed.

Lemma draw_turn fuel limit r :
  draw (S fuel) limit r = match draw 1 limit r with Some a => Some a | None => draw fuel limit (rand_next r).2 end.
Proof. cbn [draw]. destruct (rand_next r) as [x r']. by destruct (x >=? reject_bound limit). Qed.

(** The loop ends with its first turn that does. *)
Lemma draw_first fuel limit : forall r a,
  draw fuel limit r = Some a <->
  exists n, (n < fuel)%nat /\ (forall j, (j < n)%nat -> draw 1 limit (after_outputs j r) = None) /\
    draw 1 limit (after_outputs n r) = Some a.
Proof.
  induction fuel as [|fuel IH]; intros r a; [split; [done|intros (n&?&_); lia]|]. rewrite draw_turn.
  destruct (draw 1 limit r) as [b|] eqn:E.
  - split; [intros [= ->]; exists O; split_and!; [lia|lia|done]|]. intros ([|n]&_&Hj&Ha); [change (draw 1 limit r = Some a) in Ha; congruence|].
    specialize (Hj O ltac:(lia)). change (draw 1 limit r = None) in Hj. congruence.
  - rewrite IH. split.
    + intros (n&Hn&Hj&Ha). exists (S n). rewrite after_outputs_S. split_and!; [lia| |done]. intros [|j] Hlt; [done|].
      rewrite after_outputs_S. apply Hj. lia.
    + intros ([|n]&Hn&Hj&Ha); [change (draw 1 limit r = Some a) in Ha; congruence|]. rewrite after_outputs_S in Ha.
      exists n. split_and!; [lia| |done]. intros j Hlt. specialize (Hj (S j) ltac:(lia)). by rewrite after_outputs_S in Hj.
Qed.

(** C30. [rand_below] is unbiased, for a limit above 1.  In a turn of its loop, each result
    [v] below the limit is the answer for just [UINT64_MAX / limit] outputs of the generator, the
    same number for every [v] and never zero; for the other outputs the turn has no answer.  What
    [rand_below] returns is the answer of the first turn that has one, on the successive
    outputs of the generator, which is reseeded before the first. *)
Theorem rand_below_unbiased fuel limit r :
  1 < limit < 2 ^ 32 ->
  let q := UINT64_MAX / limit in
  0 < q /\
  (forall v g, 0 <= v < limit -> 0 <= rand_seed0 g ->
     draw 1 limit g = Some (v, (rand_next g).2) <-> exists k, 0 <= k < q /\ rand_seed0 g = v + k * limit) /\
  (forall v r', rand_below fuel limit r = Some (v, r') -> 0 <= v < limit) /\
  (forall v r', rand_below fuel limit r = Some (v, r') <->
     exists n, (n < fuel)%nat /\ (forall j, (j < n)%nat -> draw 1 limit (after_outputs j (reseed r)) = None) /\
       draw 1 limit (after_outputs n (reseed r)) = Some (v, r')).
Proof.
  intros Hl q. assert (0 < q) as Hq by (apply Z.div_str_pos; unfold UINT64_MAX; lia).
  split_and!; [done| | |].
  - intros v g Hv Hg. rewrite draw_one, reject_bound_multiple by lia. fold q. set (x := rand_seed0 g) in *. split.
    + destruct (x >=? q * limit) eqn:E; b2p; [done|]. intros [= Hm]. exists (x / limit). split; [|dlia].
      split; [apply Z.div_pos; lia|]. apply Z.div_lt_upper_bound; lia.
    + intros (k&Hk&->). destruct (_ >=? _) eqn:E; b2p; [nia|]. rewrite Z.mod_add by lia. by rewrite Z.mod_small.
  - intros v r'. apply rand_below_range. lia.
  - intros v r'. unfold rand_below. rewrite (proj2 (Z.leb_gt _ _)) by lia. apply draw_first.
Qed.

Theorem rand_below_witness :
  0 < UINT64_MAX / 10 /\ rand_below 1 10 demo_rng = Some (1, (rand_next (reseed demo_rng)).2).
Proof.
  destruct (rand_below_unbiased 1 10 demo_rng) as (Hq&_&_&H); [lia|].
  split; [exact Hq|]. apply H. exists O. split; [lia|]. split; [lia|reflexivity].
Defined.

Lemma next_pow2_least n :
  1 <= n <= 2 ^ 32 ->
  exists k, 0 <= k /\ next_pow2 n = 2 ^ k /\ n <= 2 ^ k /\
    forall j, 0 <= j -> n <= 2 ^ j -> k <= j.
Proof.
  intros Hn. destruct (decide (n = 1)) as [->|Hne].
  { exists 0. split_and!; [lia|done|done|lia]. }
  pose proof (Z.log2_nonneg (n - 1)). destruct (Z.log2_spec (n - 1)) as [Hlo Hhi]; [lia|].
  exists (Z.log2 (n - 1) + 1). split_and!; [lia|by apply next_pow2_value; lia|lia|].
  intros j Hj Hle. apply Z.lt_succ_r. destruct (decide (Z.log2 (n - 1) < j)); [lia|].
  assert (2 ^ j <= 2 ^ Z.log2 (n - 1)) by (apply Z.pow_le_mono_r; lia). lia.
Qed.

(** [next_pow2] returns, for arguments up to 2^32, the least power of two that is
    not below its argument; above it is not a power of two any more: the smearing of the
    top bit stops at 32 positions although [size_t] has 64 bits. *)
Theorem next_pow2_correct :
  (forall n, 1 <= n <= 2 ^ 32 ->
    exists k, 0 <= k /\ next_pow2 n = 2 ^ k /\ n <= 2 ^ k /\
      forall j, 0 <= j -> n <= 2 ^ j -> k <= j) /\
  next_pow2 (2 ^ 32 + 1) = 2 ^ 33 - 1 /\ forall k, 0 <= k -> next_pow2 (2 ^ 32 + 1) <> 2 ^ k.
Proof.
  split; [exact next_pow2_least|].
  assert (next_pow2 (2 ^ 32 + 1) = 2 ^ 33 - 1) as E by reflexivity.
  split; [done|]. intros k Hk. rewrite E. intros H.
  destruct (decide (k < 33)).
  - assert (2 ^ k <= 2 ^ 32) by (apply Z.pow_le_mono_r; lia). lia.
  - assert (2 ^ 33 <= 2 ^ k) by (apply Z.pow_le_mono_r; lia). lia.
Qed.

Theorem next_pow2_witness : exists k, 0 <= k /\ next_pow2 100 = 2 ^ k.
Proof. destruct (proj1 next_pow2_correct 100) as (k&Hk&E&_); [lia|]. by exists k. Defined.
