(* ===== verification/CoverageFacts.v ===== *)
(** * Correctness of the coverage bitmaps

    Reference (byte-wise) specifications of the routines of [Coverage], the
    proofs that the word-wise code computes them without leaving the maps, and
    the equivalence of the fast path with the slow path. *)

From S2P Require Import Prelude Coverage.

(** ** Specifications *)

(** What one byte of a trace tells about one byte of a virgin map: nothing new,
    a new hit count, or a new tuple. *)
Definition byte_level (c v : Z) : Z :=
  if Z.land c v =? 0 then 0 else if v =? 255 then 2 else 1.

Definition new_level (cs vs : list Z) : Z :=
  foldr Z.max 0 (zip_with byte_level cs vs).

(** The virgin map once the bits of the trace are cleared from it. *)
Definition clear_bits (vs cs : list Z) : list Z := zip_with Z.ldiff vs cs.

(** The maps of a well-formed state: bytes, of the size the shared memory has,
    which is a multiple of 64 and holds the real map. *)
Record cov_wf (a : cov_state) : Prop := {
  wf_size : is_u32 (cov_map_size a);
  wf_align : cov_map_size a mod 64 = 0;
  wf_real : 0 <= cov_real_map_size a <= cov_map_size a;
  wf_trace : bytes_ok (trace_bits a) /\ zlen (trace_bits a) = cov_map_size a;
  wf_virgin : forall id, bytes_ok (virgin_of a id) /\ zlen (virgin_of a id) = cov_map_size a
}.

(** ** The classification table *)

Lemma count_class_lookup8_u8 i : is_u8 (count_class_lookup8 i).
Proof. unfold count_class_lookup8, in_width. repeat cond_step; lia. Qed.

Lemma simplify_lookup_u8 i : is_u8 (simplify_lookup i).
Proof. unfold simplify_lookup, in_width. cond_step; lia. Qed.

#[export] Hint Resolve count_class_lookup8_u8 simplify_lookup_u8 : afl.

Definition class16 (j : Z) : Z :=
  count_class_lookup8 (j mod 256) + 256 * count_class_lookup8 (j / 256).

Lemma row_value b1 b2 :
  0 <= b1 < 256 -> 0 <= b2 < 256 ->
  u16 (Z.lor (Z.shiftl (count_class_lookup8 b1) 8) (count_class_lookup8 b2))
  = class16 (Z.shiftl b1 8 + b2).
Proof.
  intros H1 H2. unfold class16.
  pose proof (count_class_lookup8_u8 b1) as C1. pose proof (count_class_lookup8_u8 b2) as C2.
  set (c1 := count_class_lookup8 b1) in *. set (c2 := count_class_lookup8 b2) in *.
  unfold in_width in *.
  assert (Z.lor (Z.shiftl c1 8) c2 = c2 + 256 * c1) as ->.
  { apply Z.bits_inj'. intros i Hi. rewrite testbit_cons, Z.lor_spec by done.
    destruct (i <? 8) eqn:E; b2p.
    - by rewrite Z.shiftl_spec_low.
    - rewrite Z.shiftl_spec, (testbit_high 8 c2) by (done || lia). by rewrite orb_false_r. }
  rewrite Z.shiftl_mul_pow2 by lia. change (2 ^ 8) with 256.
  replace (b1 * 256 + b2) with (b2 + b1 * 256) by lia.
  rewrite Z.mod_add, Z.div_add, Z.mod_small, (Z.div_small b2), Z.add_0_l by lia.
  apply wrap_small. unfold in_width. lia.
Qed.

Lemma init_row_spec t b1 (S : Z -> Prop) l :
  0 <= b1 < 256 -> (forall b2, b2 ∈ l -> 0 <= b2 < 256) ->
  (forall j, S j -> t j = class16 j) ->
  forall j, (S j \/ exists b2, b2 ∈ l /\ j = Z.shiftl b1 8 + b2) ->
  foldl (fun t b2 => table_set t (Z.shiftl b1 8 + b2)
     (u16 (Z.lor (Z.shiftl (count_class_lookup8 b1) 8) (count_class_lookup8 b2)))) t l j
  = class16 j.
Proof.
  intros Hb1. revert t S. induction l as [|b2 l IH]; intros t S Hl Ht j Hj.
  - destruct Hj as [Hj|(b2&[]%not_elem_of_nil&_)]. by apply Ht.
  - cbn [foldl]. apply (IH _ (fun j => S j \/ j = Z.shiftl b1 8 + b2)).
    + intros b Hb. apply Hl. by constructor.
    + intros k Hk. unfold table_set. destruct (k =? _) eqn:E; b2p.
      * subst k. apply row_value; [done|]. apply Hl. constructor.
      * destruct Hk as [Hk|Hk]; [by apply Ht|done].
    + destruct Hj as [Hj|(b&[->|Hb]%elem_of_cons&Hj)]; eauto.
Qed.

Lemma init_rows_spec t (S : Z -> Prop) l :
  (forall b1, b1 ∈ l -> 0 <= b1 < 256) ->
  (forall j, S j -> t j = class16 j) ->
  forall j, (S j \/ exists b1 b2, b1 ∈ l /\ 0 <= b2 < 256 /\ j = Z.shiftl b1 8 + b2) ->
  foldl init_count_class16_row t l j = class16 j.
Proof.
  revert t S. induction l as [|b1 l IH]; intros t S Hl Ht j Hj.
  - destruct Hj as [Hj|(b1&b2&[]%not_elem_of_nil&_)]. by apply Ht.
  - cbn [foldl].
    apply (IH _ (fun j => S j \/ exists b2, b2 ∈ seqZ 0 256 /\ j = Z.shiftl b1 8 + b2)).
    + intros b Hb. apply Hl. by constructor.
    + intros k Hk. apply (init_row_spec t b1 S); [|intros b Hb%elem_of_seqZ; lia|done|done].
      apply Hl. constructor.
    + destruct Hj as [Hj|(b&b2&[->|Hb]%elem_of_cons&Hb2&Hj)]; [by eauto|..].
      * left. right. exists b2. rewrite elem_of_seqZ. split; [lia|done].
      * right. by exists b, b2.
Qed.

(** The table maps a pair of bytes to the pair of their classes, whatever it
    held before. *)
Lemma init_count_class16_bytes t a b :
  is_u8 a -> is_u8 b ->
  init_count_class16 t (a + 256 * b)
  = count_class_lookup8 a + 256 * count_class_lookup8 b.
Proof.
  unfold in_width. intros Ha Hb. unfold init_count_class16.
  rewrite (init_rows_spec t (fun _ => False)).
  - unfold class16. rewrite Z.mul_comm, Z.mod_add, Z.div_add by lia.
    by rewrite Z.mod_small, Z.div_small, Z.add_0_l by lia.
  - intros b1 H%elem_of_seqZ. lia.
  - done.
  - right. exists b, a. rewrite elem_of_seqZ, Z.shiftl_mul_pow2 by lia.
    split_and!; lia.
Qed.

(** ** Words *)

Section Word.

Context (lg : Z) (Hlg : 1 <= lg <= 3) (t0 : table16).

Let t := init_count_class16 t0.
Let W := wbytes lg.

Lemma wsize_wbytes : wsize lg = Z.of_nat W.
Proof. unfold W, wbytes, wsize. rewrite Z2Nat.id; [done|]. apply Z.pow_nonneg. lia. Qed.

Lemma wbytes_even : exists k, W = (2 * k)%nat.
Proof.
  exists (Z.to_nat (2 ^ (lg - 1))). unfold W, wbytes, wsize.
  replace lg with (1 + (lg - 1)) at 1 by lia. rewrite Z.pow_add_r by lia. lia.
Qed.

Lemma wbytes_pos : (0 < W)%nat.
Proof. unfold W, wbytes, wsize. assert (0 < 2 ^ lg) by (apply pow2_pos; lia). lia. Qed.

Lemma classify_u16s bs k :
  length bs = (2 * k)%nat -> bytes_ok bs ->
  flat_map (fun h => le_bytes 2 (t h)) (u16s bs) = map count_class_lookup8 bs.
Proof.
  revert bs. induction k as [|k IH]; intros bs Hl Hbs.
  - by destruct bs.
  - destruct bs as [|a [|b bs]]; [simpl in Hl; lia..|].
    apply Forall_cons_iff in Hbs as [Ha [Hb Hbs]%Forall_cons_iff].
    cbn [u16s flat_map map]. rewrite IH by (done || (simpl in Hl; lia)).
    unfold t. rewrite init_count_class16_bytes by done.
    pose proof (count_class_lookup8_u8 a) as Ca. pose proof (count_class_lookup8_u8 b) as Cb.
    unfold in_width in *. cbn [le_bytes].
    rewrite Z.mul_comm, Z.mod_add, Z.div_add by lia.
    rewrite Z.mod_small, (Z.div_small (count_class_lookup8 a)), Z.add_0_l by lia.
    rewrite Z.mod_small by lia. done.
Qed.

Lemma map_class_bytes_ok bs : bytes_ok (map count_class_lookup8 bs).
Proof. apply Forall_map, Forall_forall. auto with afl. Qed.

Lemma map_simplify_bytes_ok bs : bytes_ok (map simplify_lookup bs).
Proof. apply Forall_map, Forall_forall. auto with afl. Qed.

Lemma classify_word_le bs :
  length bs = W -> bytes_ok bs ->
  classify_word lg t (le_word bs) = le_word (map count_class_lookup8 bs).
Proof.
  intros Hl Hbs. unfold classify_word. fold W.
  rewrite <- Hl, le_bytes_le_word by done. f_equal.
  destruct wbytes_even as [k Hk]. apply (classify_u16s _ k); congruence.
Qed.

Lemma map_zeros (f : Z -> Z) bs : Forall (eq 0) bs -> map f bs = replicate (length bs) (f 0).
Proof. induction 1 as [|? ? <- ? IH]; cbn; [done|]. by rewrite IH. Qed.

Lemma classify_chunk w :
  length w = W -> bytes_ok w ->
  (if z2b (le_word w) then le_bytes W (classify_word lg t (le_word w)) else w)
  = map count_class_lookup8 w.
Proof.
  intros Hl Hw. unfold z2b. destruct (le_word w =? 0) eqn:E; cbn; b2p.
  - apply le_word_zero in E; [|done]. rewrite map_zeros by done.
    clear Hl Hw. induction E as [|? ? <- ? IH]; [done|]. cbn in *. by f_equal.
  - rewrite classify_word_le by done.
    transitivity (le_bytes (length (map count_class_lookup8 w))
                    (le_word (map count_class_lookup8 w))).
    + by rewrite length_map, Hl.
    + apply le_bytes_le_word, map_class_bytes_ok.
Qed.

Lemma simplify_chunk w :
  length w = W -> bytes_ok w ->
  (if z2b (le_word w) then map simplify_lookup w else replicate W 1) = map simplify_lookup w.
Proof.
  intros Hl Hw. unfold z2b. destruct (le_word w =? 0) eqn:E; cbn; b2p; [|done].
  apply le_word_zero in E; [|done]. by rewrite map_zeros, Hl.
Qed.

(** The loops, [i] words over a memory that holds them. *)
Lemma classify_loop_spec i mem :
  (i * W <= length mem)%nat -> bytes_ok mem ->
  classify_loop lg t i mem
  = Some (map count_class_lookup8 (take (i * W) mem) ++ drop (i * W) mem).
Proof.
  revert mem. induction i as [|i IH]; intros mem Hl Hm; [done|].
  cbn [classify_loop]. rewrite wsize_wbytes, load_head by (fold W; lia). cbn [mbind option_bind].
  fold W. rewrite IH by (try rewrite length_drop; lia || by apply Forall_drop).
  cbn [mbind option_bind]. f_equal.
  rewrite classify_chunk by first [rewrite length_take; lia | by apply Forall_take].
  rewrite drop_drop, app_assoc, <- map_app, take_take_drop.
  by replace (W + i * W)%nat with (S i * W)%nat by lia.
Qed.

Lemma simplify_loop_spec i mem :
  (i * W <= length mem)%nat -> bytes_ok mem ->
  simplify_loop lg i mem
  = Some (map simplify_lookup (take (i * W) mem) ++ drop (i * W) mem).
Proof.
  revert mem. induction i as [|i IH]; intros mem Hl Hm; [done|].
  cbn [simplify_loop]. rewrite wsize_wbytes, load_head by (fold W; lia). cbn [mbind option_bind].
  fold W. rewrite IH by (try rewrite length_drop; lia || by apply Forall_drop).
  cbn [mbind option_bind]. f_equal.
  rewrite simplify_chunk by first [rewrite length_take; lia | by apply Forall_take].
  rewrite drop_drop, app_assoc, <- map_app, take_take_drop.
  by replace (W + i * W)%nat with (S i * W)%nat by lia.
Qed.

End Word.

(** ** New coverage *)

Lemma byte_level_range c v : 0 <= byte_level c v <= 2.
Proof. unfold byte_level. repeat cond_step; lia. Qed.

Lemma new_level_cons c v cs vs :
  new_level (c :: cs) (v :: vs) = Z.max (byte_level c v) (new_level cs vs).
Proof. done. Qed.

Lemma new_level_range cs vs : 0 <= new_level cs vs <= 2.
Proof.
  revert vs. induction cs as [|c cs IH]; intros [|v vs]; try (cbn; lia).
  rewrite new_level_cons. pose proof (byte_level_range c v). specialize (IH vs). lia.
Qed.

Lemma new_level_app c1 c2 v1 v2 :
  length c1 = length v1 ->
  new_level (c1 ++ c2) (v1 ++ v2) = Z.max (new_level c1 v1) (new_level c2 v2).
Proof.
  revert v1. induction c1 as [|c c1 IH]; intros [|v v1] Hl; try done.
  - cbn [app]. pose proof (new_level_range c2 v2).
    change (new_level [] []) with 0. lia.
  - cbn [app]. rewrite !new_level_cons, IH by (by inversion Hl). lia.
Qed.

Lemma ldiff_land_0 c v : Z.land c v = 0 -> Z.ldiff v c = v.
Proof.
  intros H. apply Z.bits_inj'. intros i Hi. rewrite Z.ldiff_spec.
  apply (f_equal (fun z => Z.testbit z i)) in H. rewrite Z.land_spec, Z.bits_0 in H.
  destruct (Z.testbit c i), (Z.testbit v i); done.
Qed.

Lemma nothing_new cs vs :
  length cs = length vs -> Forall (eq 0) (zip_with Z.land cs vs) ->
  new_level cs vs = 0 /\ clear_bits vs cs = vs.
Proof.
  revert vs. induction cs as [|c cs IH]; intros [|v vs] Hl Hz; try done.
  apply Forall_cons_iff in Hz as [H0 Hz]. destruct (IH vs) as [E1 E2]; [by inversion Hl|done|].
  split.
  - rewrite new_level_cons, E1. unfold byte_level. by rewrite <- H0.
  - unfold clear_bits in *. cbn. by rewrite E2, ldiff_land_0.
Qed.

Lemma something_new cs vs :
  length cs = length vs -> bytes_ok cs -> bytes_ok vs ->
  ~ Forall (eq 0) (zip_with Z.land cs vs) ->
  new_level cs vs
  = if existsb (fun '(c, v) => z2b c && (v =? 255)) (combine cs vs) then 2 else 1.
Proof.
  revert vs. induction cs as [|c cs IH]; intros [|v vs] Hl Hc Hv Hz; try done.
  { by contradict Hz. }
  apply Forall_cons_iff in Hc as [Hc0 Hc]. apply Forall_cons_iff in Hv as [Hv0 Hv].
  assert (length cs = length vs) as Hl' by (by inversion Hl).
  cbn [zip_with] in Hz. rewrite Forall_cons_iff in Hz. cbn [combine existsb].
  rewrite new_level_cons. pose proof (new_level_range cs vs).
  destruct (decide (v = 255)) as [->|Hne].
  - assert (Z.land c 255 = c) as Ec.
    { change 255 with (Z.ones 8). rewrite Z.land_ones by lia. by apply Z.mod_small. }
    unfold byte_level, z2b. rewrite Ec. destruct (c =? 0) eqn:E; cbn; b2p; [|lia].
    assert (new_level cs vs = if existsb (fun '(c, v) => z2b c && (v =? 255))
              (combine cs vs) then 2 else 1) as IHv.
    { apply IH; auto. intros Hf. apply Hz. split; [congruence|done]. }
    unfold z2b in IHv. rewrite <- IHv. lia.
  - rewrite (proj2 (Z.eqb_neq v 255)), andb_false_r by done. cbn [orb].
    destruct (decide (Forall (eq 0) (zip_with Z.land cs vs))) as [Hf|Hf].
    + destruct (nothing_new cs vs Hl' Hf) as [-> _].
      assert (existsb (fun '(c, v) => z2b c && (v =? 255)) (combine cs vs) = false) as ->.
      { clear -Hf Hc Hl'. revert vs Hl' Hf. induction Hc as [|c cs Hc _ IH];
          intros [|v vs] Hl Hf; try done.
        apply Forall_cons_iff in Hf as [H0 Hf]. cbn. rewrite IH by (done || by inversion Hl).
        rewrite orb_false_r. destruct (v =? 255) eqn:Ev; [|by rewrite andb_false_r].
        b2p. subst v. unfold z2b.
        change 255 with (Z.ones 8) in H0. rewrite Z.land_ones, Z.mod_small in H0 by (done || lia).
        by subst c. }
      unfold byte_level. rewrite (proj2 (Z.eqb_neq v 255)) by done.
      destruct (Z.land c v =? 0) eqn:E; b2p; [|lia]. exfalso. apply Hz. by rewrite E.
    + rewrite <- IH by done. specialize (IH vs Hl' Hc Hv Hf).
      assert (1 <= new_level cs vs) by (rewrite IH; cond_step; lia).
      unfold byte_level. rewrite (proj2 (Z.eqb_neq v 255)) by done. cond_step; lia.
Qed.

Section Discover.

Context (lg : Z) (Hlg : 1 <= lg <= 3).

Let W := wbytes lg.

Lemma discover_chunk ret c v :
  length c = W -> length v = W -> bytes_ok c -> bytes_ok v -> 0 <= ret <= 2 ->
  (if z2b (le_word c) then discover_word lg ret c v else (ret, v))
  = (Z.max ret (new_level c v), clear_bits v c).
Proof.
  intros Hc Hv Bc Bv Hr.
  pose proof (new_level_range c v) as Hn.
  assert (bytes_ok (zip_with Z.land c v)) as Bz.
  { apply zip_with_bytes_ok; [|done..]. intros x y Hx Hy. apply land_width; [lia|done|apply Hy]. }
  assert (Z.land (le_word c) (le_word v) = 0 ->
          (ret, v) = (Z.max ret (new_level c v), clear_bits v c)) as Hquiet.
  { rewrite le_word_land, le_word_zero by done. intros Hz.
    destruct (nothing_new c v) as [-> ->]; [congruence|done|]. f_equal. lia. }
  unfold discover_word, z2b at 1.
  destruct (le_word c =? 0) eqn:Ec; cbn [negb]; b2p.
  - apply Hquiet. by rewrite Ec.
  - unfold z2b at 1. destruct (Z.land _ _ =? 0) eqn:E; cbn [negb]; b2p; [by apply Hquiet|].
    rewrite le_word_land, le_word_zero in E by done.
    rewrite (something_new c v) in Hn |- * by (congruence || done).
    f_equal.
    + destruct (ret <? 2) eqn:Er; b2p; repeat cond_step; lia.
    + rewrite <- Z.ldiff_land, le_word_ldiff by congruence.
      fold W. unfold clear_bits.
      rewrite <- (le_bytes_le_word (zip_with Z.ldiff v c)) at 2.
      * f_equal. rewrite length_zip_with. lia.
      * apply zip_with_bytes_ok; [|done..]. intros. by apply ldiff_width.
Qed.

Lemma has_new_bits_loop_spec i ret cs vs :
  (i * W <= length cs)%nat -> (i * W <= length vs)%nat ->
  bytes_ok cs -> bytes_ok vs -> 0 <= ret <= 2 ->
  has_new_bits_loop lg i ret cs vs
  = Some (Z.max ret (new_level (take (i * W) cs) (take (i * W) vs)),
          clear_bits (take (i * W) vs) (take (i * W) cs) ++ drop (i * W) vs).
Proof.
  revert ret cs vs. induction i as [|i IH]; intros ret cs vs Hc Hv Bc Bv Hr.
  { rewrite Nat.mul_0_l, !take_0, drop_0. change (new_level [] []) with 0.
    cbn. do 2 f_equal. lia. }
  cbn [has_new_bits_loop].
  rewrite wsize_wbytes, !load_head by (fold W; lia). cbn [mbind option_bind]. fold W.
  pose proof (new_level_range (take W cs) (take W vs)).
  rewrite discover_chunk; try (rewrite length_take; lia); try (by apply Forall_take); [|lia].
  rewrite IH; try (rewrite length_drop; lia); try (by apply Forall_drop); [|lia].
  cbn [mbind option_bind].
  replace (S i * W)%nat with (W + i * W)%nat by lia.
  rewrite <- !take_take_drop, new_level_app by (rewrite !length_take; lia).
  unfold clear_bits. rewrite zip_with_app by (rewrite !length_take; lia).
  rewrite drop_drop, app_assoc. do 2 f_equal. lia.
Qed.

End Discover.

(** ** The skimming fast path *)

Definition any_new (cs vs : list Z) : bool := existsb z2b (zip_with Z.land cs vs).

Lemma any_new_false cs vs : any_new cs vs = false <-> Forall (eq 0) (zip_with Z.land cs vs).
Proof.
  unfold any_new. induction (zip_with Z.land cs vs) as [|x l IH]; cbn; [by split|].
  rewrite Forall_cons_iff, orb_false_iff, IH. unfold z2b. rewrite negb_false_iff, Z.eqb_eq.
  split; intros [? ?]; split; congruence.
Qed.

Lemma any_new_app c1 c2 v1 v2 :
  length c1 = length v1 -> any_new (c1 ++ c2) (v1 ++ v2) = any_new c1 v1 || any_new c2 v2.
Proof. intros. unfold any_new. by rewrite zip_with_app, existsb_app. Qed.

Section Skim.

Context (lg : Z) (Hlg : 1 <= lg <= 3) (t0 : table16).

Let t := init_count_class16 t0.
Let W := wbytes lg.

Lemma skim_hit_spec c v :
  length c = W -> length v = W -> bytes_ok c -> bytes_ok v ->
  skim_hit lg t c v = any_new (map count_class_lookup8 c) v.
Proof.
  intros Hc Hv Bc Bv. unfold skim_hit. unfold t. rewrite classify_word_le by done.
  assert (bytes_ok (zip_with Z.land (map count_class_lookup8 c) v)) as Bz.
  { apply zip_with_bytes_ok; [|apply map_class_bytes_ok|done].
    intros x y Hx Hy. apply land_width; [lia|done|apply Hy]. }
  destruct (any_new _ _) eqn:E.
  - unfold z2b. rewrite andb_true_iff, !negb_true_iff, !Z.eqb_neq. split.
    + rewrite le_word_zero by done. intros Hz.
      assert (any_new (map count_class_lookup8 c) v = false) as E'; [|congruence].
      apply any_new_false. clear -Hz. revert v.
      induction Hz as [|? ? <- ? IH]; intros [|v vs]; cbn; constructor; auto.
    + rewrite le_word_land, le_word_zero by (done || apply map_class_bytes_ok).
      rewrite <- any_new_false. congruence.
  - apply any_new_false in E. rewrite le_word_land by (done || apply map_class_bytes_ok).
    apply le_word_zero in E; [|done]. rewrite E. apply andb_false_r.
Qed.

Lemma skim_words_spec n cs vs :
  (n * W <= length cs)%nat -> (n * W <= length vs)%nat -> bytes_ok cs -> bytes_ok vs ->
  skim_words lg t n cs vs
  = Some (any_new (map count_class_lookup8 (take (n * W) cs)) (take (n * W) vs)).
Proof.
  revert cs vs. induction n as [|n IH]; intros cs vs Hc Hv Bc Bv; [done|].
  cbn [skim_words]. rewrite wsize_wbytes, !load_head by (fold W; lia).
  cbn [mbind option_bind]. fold W.
  rewrite skim_hit_spec; try (rewrite length_take; fold W; lia); try (by apply Forall_take).
  rewrite IH; try (rewrite length_drop; lia); try (by apply Forall_drop).
  replace (S n * W)%nat with (W + n * W)%nat by lia.
  rewrite <- !take_take_drop, map_app, any_new_app by (rewrite length_map, !length_take; lia).
  by destruct (any_new _ _).
Qed.

Lemma skim_loop_spec fuel k cs vs :
  (k < fuel)%nat -> length cs = (k * (4 * W))%nat -> length vs = (k * (4 * W))%nat ->
  bytes_ok cs -> bytes_ok vs ->
  skim_loop lg t fuel (Z.of_nat (k * (4 * W))) vs cs
  = Some (b2z (any_new (map count_class_lookup8 cs) vs)).
Proof.
  revert k cs vs. induction fuel as [|fuel IH]; intros k cs vs Hk Hc Hv Bc Bv; [lia|].
  pose proof (wbytes_pos lg Hlg) as HW. fold W in HW. cbn [skim_loop].
  destruct k as [|k].
  - apply nil_length_inv in Hc, Hv. by subst.
  - rewrite (proj2 (Z.ltb_lt _ _)) by lia.
    rewrite skim_words_spec by (done || lia). cbn [mbind option_bind].
    rewrite <- (take_drop (4 * W) cs) at 3. rewrite <- (take_drop (4 * W) vs) at 3.
    rewrite map_app, any_new_app by (rewrite length_map, !length_take; lia).
    destruct (any_new _ _); [done|]. cbn [orb].
    rewrite wsize_wbytes by done. fold W.
    replace (Z.of_nat (S k * (4 * W)) - 4 * Z.of_nat W)
      with (Z.of_nat (k * (4 * W))) by lia.
    apply IH; try (rewrite length_drop; lia); try (by apply Forall_drop). lia.
Qed.

Lemma skim_spec k cs vs :
  length cs = (k * (4 * W))%nat -> length vs = length cs -> bytes_ok cs -> bytes_ok vs ->
  skim lg t (zlen cs) vs cs = Some (b2z (any_new (map count_class_lookup8 cs) vs)).
Proof.
  intros Hc Hv Bc Bv. unfold skim, zlen. rewrite Hc. apply skim_loop_spec; [|congruence..|done|done].
  pose proof (wbytes_pos lg Hlg) as HW. fold W in HW. nia.
Qed.

End Skim.

(** ** The vector variants *)

Section Vector.

Context (t0 : table16).

Let t := init_count_class16 t0.

Lemma lanes_spec n mem :
  (n * 8 <= length mem)%nat ->
  exists ws, lanes n mem = Some ws /\ length ws = n.
Proof.
  revert mem. induction n as [|n IH]; intros mem Hl; [by exists []|].
  cbn [lanes]. change 8 with (Z.of_nat 8). rewrite load_head by lia. cbn [mbind option_bind].
  destruct (IH (drop 8 mem)) as (ws&->&Hws); [rewrite length_drop; lia|].
  cbn [mbind option_bind]. eexists. split; [done|]. by rewrite <- Hws.
Qed.

(** Whether some of the first lanes passes the scalar test. *)
Fixpoint lanes_hit (cs vs : list Z) : bool :=
  match cs, vs with
  | c :: cs, v :: vs =>
      (z2b c && z2b (Z.land (classify_word 3 t c) v)) || lanes_hit cs vs
  | _, _ => false
  end.

Lemma skim_words_lanes n cur vir cs vs :
  lanes n cur = Some cs -> lanes n vir = Some vs ->
  skim_words 3 t n cur vir = Some (lanes_hit cs vs).
Proof.
  revert cur vir cs vs. induction n as [|n IH]; intros cur vir cs vs Hc Hv.
  - cbn in *. by simplify_eq.
  - cbn [lanes skim_words] in *. change (wsize 3) with 8. change (wbytes 3) with 8%nat.
    destruct (load cur 0 8) as [c|] eqn:Ec; [|done]. destruct (load vir 0 8) as [v|] eqn:Ev; [|done].
    cbn [mbind option_bind] in *.
    destruct (lanes n (drop 8 cur)) as [cs'|] eqn:Ecs; [|done].
    destruct (lanes n (drop 8 vir)) as [vs'|] eqn:Evs; [|done].
    cbn in Hc, Hv. injection Hc as <-. injection Hv as <-.
    unfold skim_hit. cbn [lanes_hit]. rewrite (IH _ _ _ _ Ecs Evs).
    by destruct (z2b (le_word c) && _).
Qed.

Lemma lanes_hit_zero cs vs : Forall (eq 0) cs -> lanes_hit cs vs = false.
Proof. intros H. revert vs. induction H as [|? ? <- ? IH]; intros [|v vs]; cbn; auto. Qed.

(** The unrolled tests are the scalar ones when the mask tells the zero lanes. *)
Lemma unrolled_spec mask sel k n cs vs :
  length cs = n ->
  (forall j c, cs !! j = Some c -> (Z.land mask (sel (k + j)%nat) =? 0) = z2b c) ->
  unrolled t mask sel k n cs vs = lanes_hit cs vs.
Proof.
  revert k cs vs. induction n as [|n IH]; intros k [|c cs] vs Hl Hm; try done.
  destruct vs as [|v vs]; [done|]. cbn [unrolled lanes_hit].
  rewrite <- (Hm 0%nat c), Nat.add_0_r by done. f_equal.
  apply IH; [by inversion Hl|]. intros j d Hj. rewrite <- (Hm (S j) d) by done.
  by rewrite Nat.add_succ_r.
Qed.

Lemma movemask_lane cs j c :
  length cs = 4%nat -> cs !! j = Some c ->
  (Z.land (movemask_cmpeq0 cs) (Z.shiftl 0xff (8 * Z.of_nat j)) =? 0) = z2b c.
Proof.
  intros Hl Hj. pose proof (lookup_lt_Some _ _ _ Hj) as Hlt. rewrite Hl in Hlt.
  do 4 (destruct cs as [|? cs]; [done|]). destruct cs; [|done].
  cbn [movemask_cmpeq0]. unfold z2b.
  do 4 (destruct j as [|j]; [injection Hj as ->;
    repeat match goal with |- context [if ?z =? 0 then _ else _] => destruct (z =? 0) end;
    reflexivity|]). lia.
Qed.

Lemma testn_testbit ws j c :
  ws !! j = Some c -> Z.testbit (testn_mask ws) (Z.of_nat j) = (c =? 0).
Proof.
  revert j. induction ws as [|w ws IH]; intros j Hj; [done|]. cbn [testn_mask].
  change (if w =? 0 then 1 else 0) with (Z.b2z (w =? 0)).
  destruct j as [|j]; [injection Hj as ->; apply Z.add_b2z_double_bit0|].
  rewrite Nat2Z.inj_succ, Z.add_comm, Z.testbit_succ_r by lia. by apply IH.
Qed.

Lemma testn_lane ws j c :
  ws !! j = Some c -> (Z.land (testn_mask ws) (Z.shiftl 1 (Z.of_nat j)) =? 0) = z2b c.
Proof.
  intros Hj. pose proof (testn_testbit ws j c Hj) as Hb. unfold z2b.
  rewrite <- Hb. destruct (Z.testbit (testn_mask ws) (Z.of_nat j)) eqn:E; cbn.
  - apply Z.eqb_neq. intros H0. apply (f_equal (fun z => Z.testbit z (Z.of_nat j))) in H0.
    rewrite Z.land_spec, E, Z.shiftl_spec, Z.sub_diag, Z.bits_0 in H0 by lia. done.
  - apply Z.eqb_eq, Z.bits_inj'. intros i Hi. rewrite Z.land_spec, Z.bits_0.
    destruct (decide (i = Z.of_nat j)) as [->|Hne]; [by rewrite E|].
    rewrite Z.shiftl_1_l, Z.pow2_bits_false, andb_false_r by lia. done.
Qed.

(** The early [continue] on an all-zero vector changes nothing. *)
Lemma avx2_lanes cs vs :
  length cs = 4%nat ->
  (negb (movemask_cmpeq0 cs =? 0xffffffff) &&
   unrolled t (movemask_cmpeq0 cs) (fun k => Z.shiftl 0xff (8 * Z.of_nat k)) 0 4 cs vs)
  = lanes_hit cs vs.
Proof.
  intros Hc. rewrite unrolled_spec by (done || by intros; apply movemask_lane).
  destruct (_ =? _) eqn:E; [|done]. b2p. cbn. symmetry. apply lanes_hit_zero.
  apply Forall_lookup. intros j c Hj. pose proof (movemask_lane cs j c Hc Hj) as Hm.
  rewrite E in Hm. apply lookup_lt_Some in Hj. rewrite Hc in Hj. unfold z2b in Hm.
  do 4 (destruct j as [|j]; [symmetry in Hm; change (Z.land _ _ =? 0) with false in Hm; b2p; done|]).
  lia.
Qed.

Lemma avx512_lanes cs vs :
  length cs = 8%nat ->
  (negb (testn_mask cs =? 0xff) &&
   unrolled t (testn_mask cs) (fun k => Z.shiftl 1 (Z.of_nat k)) 0 8 cs vs)
  = lanes_hit cs vs.
Proof.
  intros Hc. rewrite unrolled_spec by (done || by intros; apply testn_lane).
  destruct (_ =? _) eqn:E; [|done]. b2p. cbn. symmetry. apply lanes_hit_zero.
  apply Forall_lookup. intros j c Hj. pose proof (testn_lane cs j c Hj) as Hm.
  rewrite E in Hm. apply lookup_lt_Some in Hj. rewrite Hc in Hj. unfold z2b in Hm.
  do 8 (destruct j as [|j]; [symmetry in Hm; change (Z.land _ _ =? 0) with false in Hm; b2p; done|]).
  lia.
Qed.

Lemma skim_avx2_loop_equiv fuel k cur vir :
  length cur = (k * 32)%nat -> length vir = (k * 32)%nat ->
  skim_avx2_loop t fuel (Z.of_nat (k * 32)) vir cur
  = skim_loop 3 t fuel (Z.of_nat (k * 32)) vir cur.
Proof.
  revert k cur vir. induction fuel as [|fuel IH]; intros k cur vir Hc Hv; [done|].
  cbn [skim_avx2_loop skim_loop]. destruct (0 <? _) eqn:E; [|done]. b2p.
  destruct k as [|k]; [lia|].
  destruct (lanes_spec 4 cur) as (cs&Ecs&Lcs); [lia|].
  destruct (lanes_spec 4 vir) as (vs&Evs&Lvs); [lia|].
  rewrite (skim_words_lanes 4 cur vir cs vs), Ecs, Evs by done. cbn [mbind option_bind].
  rewrite <- avx2_lanes by done.
  change (4 * wsize 3) with 32. change (4 * wbytes 3)%nat with 32%nat.
  replace (Z.of_nat (S k * 32) - 32) with (Z.of_nat (k * 32)) by lia.
  rewrite IH by (rewrite length_drop; lia).
  destruct (movemask_cmpeq0 cs =? _); cbn [negb andb]; [done|]. by destruct (unrolled _ _ _ _ _ _ _).
Qed.

(** A pass over eight lanes is two passes over four. *)
Lemma lanes_hit_app c1 c2 v1 v2 :
  length c1 = length v1 -> lanes_hit (c1 ++ c2) (v1 ++ v2) = lanes_hit c1 v1 || lanes_hit c2 v2.
Proof.
  revert v1. induction c1 as [|c c1 IH]; intros [|v v1] Hl; try done. cbn.
  rewrite IH by (by inversion Hl). by rewrite orb_assoc.
Qed.

Lemma lanes_split n m mem ws :
  lanes (n + m) mem = Some ws ->
  exists w1 w2, lanes n mem = Some w1 /\ lanes m (drop (n * 8) mem) = Some w2 /\ ws = w1 ++ w2.
Proof.
  revert mem ws. induction n as [|n IH]; intros mem ws H; [by exists [], ws|].
  cbn [lanes Nat.add] in *. destruct (load mem 0 8) as [w|]; [|done]. cbn [mbind option_bind] in *.
  destruct (lanes (n + m) (drop 8 mem)) as [ws'|] eqn:E; [|done]. cbn in H. injection H as <-.
  destruct (IH _ _ E) as (w1&w2&->&E2&->). cbn [mbind option_bind].
  exists (le_word w :: w1), w2. rewrite drop_drop in E2. done.
Qed.

Lemma skim_avx512_loop_equiv fuel fuel' k cur vir :
  (k < fuel)%nat -> (k * 2 < fuel')%nat ->
  length cur = (k * 64)%nat -> length vir = (k * 64)%nat ->
  skim_avx512_loop t fuel (Z.of_nat (k * 64)) vir cur
  = skim_loop 3 t fuel' (Z.of_nat (k * 64)) vir cur.
Proof.
  revert fuel' k cur vir. induction fuel as [|fuel IH]; intros fuel' k cur vir Hk Hk' Hc Hv; [lia|].
  cbn [skim_avx512_loop]. destruct k as [|k].
  - destruct fuel'; [lia|done].
  - rewrite (proj2 (Z.eqb_neq _ 0)) by lia. cbn [negb].
    destruct (lanes_spec 8 cur) as (cs&Ecs&Lcs); [lia|].
    destruct (lanes_spec 8 vir) as (vs&Evs&Lvs); [lia|].
    rewrite Ecs, Evs. cbn [mbind option_bind].
    destruct (lanes_split 4 4 cur cs Ecs) as (c1&c2&Ec1&Ec2&->).
    destruct (lanes_split 4 4 vir vs Evs) as (v1&v2&Ev1&Ev2&->).
    destruct fuel' as [|[|fuel']]; [lia..|]. cbn [skim_loop].
    rewrite (proj2 (Z.ltb_lt 0 _)) by lia.
    rewrite (skim_words_lanes 4 cur vir c1 v1) by done. cbn [mbind option_bind].
    change (4 * wsize 3) with 32. change (4 * wbytes 3)%nat with 32%nat.
    rewrite (proj2 (Z.ltb_lt 0 _)) by lia.
    change (4 * 8)%nat with 32%nat in *.
    rewrite (skim_words_lanes 4 _ _ c2 v2) by done. cbn [mbind option_bind].
    rewrite !drop_drop. change (32 + 32)%nat with 64%nat.
    replace (Z.of_nat (S k * 64) - 32 - 32) with (Z.of_nat (k * 64)) by lia.
    replace (Z.of_nat (S k * 64) - 64) with (Z.of_nat (k * 64)) by lia.
    rewrite (IH fuel') by first [lia | rewrite length_drop; lia].
    pose proof (avx512_lanes (c1 ++ c2) (v1 ++ v2) Lcs) as Hmask.
    assert (length c1 = length v1) as Hl1.
    { destruct (lanes_spec 4 cur) as (?&E1&?); [lia|]. destruct (lanes_spec 4 vir) as (?&E2&?); [lia|].
      congruence. }
    rewrite lanes_hit_app in Hmask by done.
    destruct (testn_mask (c1 ++ c2) =? 255); cbn [negb andb] in Hmask.
    + symmetry in Hmask. apply orb_false_iff in Hmask as [-> ->]. done.
    + rewrite Hmask. by destruct (lanes_hit c1 v1), (lanes_hit c2 v2).
Qed.

End Vector.

(** ** The state-level theorems *)

Definition word_log (lg : Z) : Prop := lg = 2 \/ lg = 3.

Lemma word_log_range lg : word_log lg -> 1 <= lg <= 3.
Proof. unfold word_log. lia. Qed.

#[export] Hint Resolve word_log_range : afl.

(** How many bytes [has_new_bits] looks at. *)
Definition scanned (lg : Z) (a : cov_state) : nat :=
  (new_bits_words lg (cov_real_map_size a) * wbytes lg)%nat.

Lemma words_of_size lg n :
  word_log lg -> 0 <= n -> n mod 64 = 0 ->
  (Z.to_nat (Z.shiftr n lg) * wbytes lg)%nat = Z.to_nat n.
Proof.
  intros Hlg Hn Hm. rewrite Z.shiftr_div_pow2 by (unfold word_log in Hlg; lia).
  unfold wbytes, wsize. destruct Hlg as [-> | ->].
  - change (2 ^ 2) with 4. change (Z.to_nat 4) with 4%nat. dlia.
  - change (2 ^ 3) with 8. change (Z.to_nat 8) with 8%nat. dlia.
Qed.

Lemma scanned_bounds lg a :
  word_log lg -> cov_wf a ->
  cov_real_map_size a <= Z.of_nat (scanned lg a) <= cov_map_size a.
Proof.
  intros Hlg [Hs Ha Hr _ _]. unfold scanned, new_bits_words, in_width in *.
  rewrite Z.shiftr_div_pow2 by (unfold word_log in Hlg; lia).
  destruct Hlg as [-> | ->]; unfold wbytes, wsize.
  - change (2 ^ 2) with 4. change (Z.to_nat 4) with 4%nat.
    rewrite wrap_small by (unfold in_width; dlia). dlia.
  - change (2 ^ 3) with 8. change (Z.to_nat 8) with 8%nat.
    rewrite wrap_small by (unfold in_width; dlia). dlia.
Qed.

Definition has_new_bits_result (lg : Z) (id : virgin_id) (a : cov_state) : Z * cov_state :=
  let n := scanned lg a in
  let tr := take n (trace_bits a) in
  let v := virgin_of a id in
  let r := new_level tr (take n v) in
  let a := set_virgin id (clear_bits (take n v) tr ++ drop n v) a in
  (r, if z2b r && bool_decide (id = VirginBits) then set_changed true a else a).

Lemma wf_lengths lg id a :
  word_log lg -> cov_wf a ->
  (scanned lg a <= length (trace_bits a))%nat /\ (scanned lg a <= length (virgin_of a id))%nat.
Proof.
  intros Hlg Hwf. pose proof (scanned_bounds lg a Hlg Hwf).
  destruct (wf_trace a Hwf) as [_ Ht]. destruct (wf_virgin a Hwf id) as [_ Hv].
  unfold zlen in *. lia.
Qed.

Lemma has_new_bits_run lg id a :
  word_log lg -> cov_wf a -> has_new_bits lg id a = Some (has_new_bits_result lg id a).
Proof.
  intros Hlg Hwf. destruct (wf_lengths lg id a Hlg Hwf) as [Ht Hv].
  unfold has_new_bits, has_new_bits_result.
  rewrite has_new_bits_loop_spec; auto with afl; try lia.
  - cbn [mbind option_bind]. fold (scanned lg a). do 2 f_equal.
    + pose proof (new_level_range (take (scanned lg a) (trace_bits a))
        (take (scanned lg a) (virgin_of a id))). lia.
    + rewrite Z.max_r by apply new_level_range. done.
  - apply (wf_trace a Hwf).
  - apply (wf_virgin a Hwf id).
Qed.

Lemma clear_bits_wf vs cs n :
  length cs = length vs -> bytes_ok vs ->
  let v' := clear_bits (take n vs) (take n cs) ++ drop n vs in
  bytes_ok v' /\ zlen v' = zlen vs.
Proof.
  intros Hl Hv. cbn. unfold clear_bits. split.
  - apply Forall_app. split; [|by apply Forall_drop].
    apply Forall_lookup. intros i x Hx. apply lookup_zip_with_Some in Hx as (u&c&->&Hu&_).
    apply ldiff_width; [lia|]. apply (Forall_lookup_1 _ (take n vs) i); [by apply Forall_take|done].
  - unfold zlen. rewrite length_app, length_zip_with, !length_take, length_drop. lia.
Qed.

Lemma virgin_of_set id id' v a :
  virgin_of (set_virgin id v a) id' = if decide (id = id') then v else virgin_of a id'.
Proof. by destruct id, id'. Qed.

Lemma virgin_of_set_changed c id a : virgin_of (set_changed c a) id = virgin_of a id.
Proof. by destruct id. Qed.

Lemma virgin_of_set_trace tr id a : virgin_of (set_trace tr a) id = virgin_of a id.
Proof. by destruct id. Qed.

Lemma set_virgin_wf id v a :
  cov_wf a -> bytes_ok v -> zlen v = cov_map_size a -> cov_wf (set_virgin id v a).
Proof.
  intros [Hs Ha Hr Ht Hv] Bv Lv. constructor; try done. intros id'.
  rewrite virgin_of_set. destruct (decide (id = id')); [done|]. apply Hv.
Qed.

Lemma set_changed_wf c a : cov_wf a -> cov_wf (set_changed c a).
Proof. intros [Hs Ha Hr Ht Hv]. by constructor. Qed.

Lemma set_trace_wf tr a :
  cov_wf a -> bytes_ok tr -> zlen tr = cov_map_size a -> cov_wf (set_trace tr a).
Proof.
  intros [Hs Ha Hr Ht Hv] Bt Lt. by constructor.
Qed.

Lemma has_new_bits_result_wf lg id a :
  word_log lg -> cov_wf a -> cov_wf (has_new_bits_result lg id a).2.
Proof.
  intros Hlg Hwf. destruct (wf_trace a Hwf) as [Bt Lt]. destruct (wf_virgin a Hwf id) as [Bv Lv].
  destruct (clear_bits_wf (virgin_of a id) (trace_bits a) (scanned lg a)) as [B L];
    [unfold zlen in *; lia|done|].
  unfold has_new_bits_result; cbn [snd].
  assert (cov_wf (set_virgin id (clear_bits (take (scanned lg a) (virgin_of a id))
     (take (scanned lg a) (trace_bits a)) ++ drop (scanned lg a) (virgin_of a id)) a)) as H.
  { apply set_virgin_wf; [done|done|congruence]. }
  cond_step; [by apply set_changed_wf|done].
Qed.

Lemma classify_counts_run lg t0 n tr :
  word_log lg -> 0 <= n -> n mod 64 = 0 -> bytes_ok tr -> zlen tr = n ->
  classify_counts lg (init_count_class16 t0) n tr = Some (map count_class_lookup8 tr).
Proof.
  intros Hlg Hn Hm Ht Hl. unfold classify_counts. unfold zlen in Hl.
  pose proof (words_of_size lg n Hlg Hn Hm) as Hw.
  rewrite classify_loop_spec by (auto with afl || lia).
  rewrite Hw, take_ge, drop_ge, app_nil_r by lia. done.
Qed.

Lemma simplify_trace_run lg n tr :
  word_log lg -> 0 <= n -> n mod 64 = 0 -> bytes_ok tr -> zlen tr = n ->
  simplify_trace lg n tr = Some (map simplify_lookup tr).
Proof.
  intros Hlg Hn Hm Ht Hl. unfold simplify_trace. unfold zlen in Hl.
  pose proof (words_of_size lg n Hlg Hn Hm) as Hw.
  rewrite simplify_loop_spec by (auto with afl || lia).
  rewrite Hw, take_ge, drop_ge, app_nil_r by lia. done.
Qed.

Lemma skim_run lg t0 cs vs :
  word_log lg -> zlen cs mod 64 = 0 -> length vs = length cs -> bytes_ok cs -> bytes_ok vs ->
  skim lg (init_count_class16 t0) (zlen cs) vs cs
  = Some (b2z (any_new (map count_class_lookup8 cs) vs)).
Proof.
  intros Hlg Hm Hl Bc Bv.
  eapply (skim_spec lg (word_log_range lg Hlg) t0
            (Z.to_nat (zlen cs / (4 * wsize lg)))); [|done..].
  unfold zlen in *. destruct Hlg as [-> | ->]; unfold wbytes, wsize.
  - change (4 * 2 ^ 2) with 16. change (Z.to_nat (2 ^ 2)) with 4%nat. dlia.
  - change (4 * 2 ^ 3) with 32. change (Z.to_nat (2 ^ 3)) with 8%nat. dlia.
Qed.

Lemma no_hit_prefix n cs vs :
  length cs = length vs -> any_new cs vs = false ->
  new_level (take n cs) (take n vs) = 0 /\ clear_bits (take n vs) (take n cs) ++ drop n vs = vs.
Proof.
  intros Hl Hf. apply any_new_false in Hf.
  destruct (nothing_new (take n cs) (take n vs)) as [E1 E2].
  - rewrite !length_take. lia.
  - rewrite <- zip_with_take. by apply Forall_take.
  - split; [done|]. by rewrite E2, take_drop.
Qed.

(** The two thresholds of [new_level], position by position. *)
Lemma byte_level_2 c v : is_u8 c -> byte_level c v = 2 <-> c <> 0 /\ v = 255.
Proof.
  intros Hc. unfold byte_level. destruct (v =? 255) eqn:E; b2p; [subst v|cond_step; lia].
  change 255 with (Z.ones 8). rewrite Z.land_ones, Z.mod_small by (done || lia).
  cond_step; b2p; lia.
Qed.

Lemma new_level_0 cs vs :
  new_level cs vs = 0 <->
  forall i c v, cs !! i = Some c -> vs !! i = Some v -> Z.land c v = 0.
Proof.
  revert vs. induction cs as [|c cs IH]; intros [|v vs]; try by split.
  rewrite new_level_cons. pose proof (new_level_range cs vs). pose proof (byte_level_range c v).
  specialize (IH vs). split.
  - intros Hz [|i] c' v' Hc Hv; [|apply (proj1 IH) with i; [lia|done|done]].
    injection Hc as ->. injection Hv as ->. unfold byte_level in Hz.
    destruct (_ =? 0) eqn:E; b2p; [done|]. destruct (_ =? 255); lia.
  - intros Hall. assert (new_level cs vs = 0).
    { apply IH. intros i c' v' Hc Hv. by apply (Hall (S i)). }
    unfold byte_level. rewrite (Hall 0%nat c v) by done. rewrite Z.eqb_refl. lia.
Qed.

Lemma new_level_2 cs vs :
  bytes_ok cs ->
  new_level cs vs = 2 <-> exists i c, cs !! i = Some c /\ c <> 0 /\ vs !! i = Some 255.
Proof.
  intros Hc. revert vs. induction Hc as [|c cs Hc Hcs IH]; intros vs.
  { split; [done|]. intros (i&c&H&_). done. }
  destruct vs as [|v vs].
  { split; [done|]. intros (i&x&_&_&H). by rewrite lookup_nil in H. }
  rewrite new_level_cons. pose proof (new_level_range cs vs). pose proof (byte_level_range c v).
  split.
  - intros Hm. destruct (decide (byte_level c v = 2)) as [E|E].
    + apply byte_level_2 in E as [? ->]; [|done]. by exists 0%nat, c.
    + destruct (proj1 (IH vs)) as (i&x&?&?&?); [lia|]. by exists (S i), x.
  - intros ([|i]&x&Hx&Hne&Hv); simplify_eq/=.
    + rewrite (proj2 (byte_level_2 _ _ Hc)) by done. lia.
    + rewrite (proj2 (IH vs)) by eauto. lia.
Qed.

Lemma lookup_clear_bits n vs cs i c v :
  cs !! i = Some c -> vs !! i = Some v ->
  (clear_bits (take n vs) (take n cs) ++ drop n vs) !! i
  = Some (if (i <? n)%nat then Z.ldiff v c else v).
Proof.
  intros Hc Hv. pose proof (lookup_lt_Some _ _ _ Hc). pose proof (lookup_lt_Some _ _ _ Hv).
  unfold clear_bits. destruct (Nat.ltb_spec i n).
  - rewrite lookup_app_l by (rewrite length_zip_with, !length_take; lia).
    apply lookup_zip_with_Some. exists v, c. by rewrite !lookup_take_lt.
  - assert (length (zip_with Z.ldiff (take n vs) (take n cs)) = n) as El
      by (rewrite length_zip_with, !length_take; lia).
    rewrite lookup_app_r, El by lia.
    rewrite lookup_drop. rewrite <- Hv. f_equal. lia.
Qed.

(** ** Properties *)

(** [classify_counts] replaces every byte of the trace by its hit-count
    class, for both word widths, without leaving the map: walking the map by
    words through the 16-bit table, and skipping zero words, is the byte-wise
    classification. *)
Theorem classify_counts_correct lg t0 map_size trace :
  word_log lg -> 0 <= map_size -> map_size mod 64 = 0 ->
  bytes_ok trace -> zlen trace = map_size ->
  classify_counts lg (init_count_class16 t0) map_size trace
  = Some (map count_class_lookup8 trace).
Proof. apply classify_counts_run. Qed.

Definition demo_trace : list Z := replicate 8 0 ++ [1; 2; 3; 4; 8; 16; 32; 200] ++ replicate 48 0.

Theorem classify_counts_witness :
  classify_counts 3 (init_count_class16 (fun _ => 0)) 64 demo_trace
  = Some (replicate 8 0 ++ [1; 2; 4; 8; 16; 32; 64; 128] ++ replicate 48 0).
Proof.
  apply (classify_counts_correct 3 (fun _ => 0) 64 demo_trace);
    [by right|lia|done| |done].
  unfold demo_trace. repeat (constructor || split || lia).
Defined.

(** [simplify_trace] maps every byte of the trace to 0x80 or 0x01 according to
    whether the tuple was hit, for both word widths. *)
Theorem simplify_trace_correct lg map_size trace :
  word_log lg -> 0 <= map_size -> map_size mod 64 = 0 ->
  bytes_ok trace -> zlen trace = map_size ->
  exists tr, simplify_trace lg map_size trace = Some tr /\ zlen tr = map_size /\
    forall i b, trace !! i = Some b -> tr !! i = Some (if b =? 0 then 1 else 128).
Proof.
  intros Hlg Hn Hm Hb Hl. exists (map simplify_lookup trace). split_and!.
  - by apply simplify_trace_run.
  - unfold zlen in *. by rewrite length_map.
  - intros i b Hi. by rewrite list_lookup_fmap, Hi.
Qed.

Theorem simplify_trace_witness :
  exists tr, simplify_trace 2 64 demo_trace = Some tr /\ zlen tr = 64 /\
    forall i b, demo_trace !! i = Some b -> tr !! i = Some (if b =? 0 then 1 else 128).
Proof.
  apply (simplify_trace_correct 2 64 demo_trace); [by left|lia|done| |done].
  unfold demo_trace. repeat (constructor || split || lia).
Defined.

Lemma has_new_bits_spec lg id a :
  word_log lg -> cov_wf a ->
  let n := scanned lg a in
  cov_real_map_size a <= Z.of_nat n <= cov_map_size a /\
  exists r a', has_new_bits lg id a = Some (r, a') /\ cov_wf a' /\ 0 <= r <= 2 /\
    (r = 2 <-> exists i c, (i < n)%nat /\ trace_bits a !! i = Some c /\ c <> 0 /\
                           virgin_of a id !! i = Some 255) /\
    (r = 0 <-> forall i c v, (i < n)%nat -> trace_bits a !! i = Some c ->
                             virgin_of a id !! i = Some v -> Z.land c v = 0) /\
    (forall i c v, trace_bits a !! i = Some c -> virgin_of a id !! i = Some v ->
       virgin_of a' id !! i = Some (if (i <? n)%nat then Z.ldiff v c else v)) /\
    (forall id', id' <> id -> virgin_of a' id' = virgin_of a id') /\
    trace_bits a' = trace_bits a /\
    bitmap_changed a' = bitmap_changed a || (z2b r && bool_decide (id = VirginBits)).
Proof.
  intros Hlg Hwf n. split; [by apply scanned_bounds|].
  pose proof (has_new_bits_result_wf lg id a Hlg Hwf) as Hwf'.
  exists (has_new_bits_result lg id a).1, (has_new_bits_result lg id a).2.
  split; [rewrite has_new_bits_run by done; by destruct (has_new_bits_result lg id a)|].
  split; [done|]. destruct (wf_trace a Hwf) as [Bt _].
  assert (virgin_of (has_new_bits_result lg id a).2 id =
    clear_bits (take n (virgin_of a id)) (take n (trace_bits a)) ++ drop n (virgin_of a id)) as Ev.
  { unfold has_new_bits_result. cbn [snd]. destruct (_ && _);
      rewrite ?virgin_of_set_changed, virgin_of_set, decide_True by done; reflexivity. }
  split_and!.
  - apply new_level_range.
  - apply new_level_range.
  - cbn [fst has_new_bits_result]. rewrite new_level_2 by (by apply Forall_take).
    fold n. split; intros (i&c&H).
    + destruct H as ([? ?]%lookup_take_Some&?&[? ?]%lookup_take_Some). by exists i, c.
    + destruct H as (?&?&?&?). exists i, c. by rewrite !lookup_take_lt.
  - cbn [fst has_new_bits_result]. rewrite new_level_0. fold n. split; intros H i c v.
    + intros Hi Hc Hv. apply (H i); by rewrite lookup_take_lt.
    + rewrite !lookup_take_Some. intros [Hc Hi] [Hv _]. by apply (H i).
  - intros i c v Hc Hv. rewrite Ev. by apply lookup_clear_bits.
  - intros id' Hne. unfold has_new_bits_result. cbn [snd]. destruct (_ && _);
      rewrite ?virgin_of_set_changed, virgin_of_set, decide_False by done; reflexivity.
  - unfold has_new_bits_result. cbn [snd]. by destruct (_ && _).
  - unfold has_new_bits_result. cbn [fst snd]. destruct (_ && _); cbn; by rewrite ?orb_true_r, ?orb_false_r.
Qed.

(** C1. [has_new_bits] returns 2 exactly when a byte of the scanned part of the
    trace is hit whose virgin byte is pristine (a new tuple), 0 exactly when no
    trace bit is still virgin, and 1 otherwise; it clears exactly the trace bits
    from the virgin map it is given, leaves the other maps and the trace alone,
    flags [bitmap_changed] only for [virgin_bits], stays inside the maps, scans
    at least [real_map_size] bytes, and keeps the state well formed. *)
Theorem has_new_bits_correct lg id a :
  word_log lg -> cov_wf a ->
  let n := scanned lg a in
  cov_real_map_size a <= Z.of_nat n <= cov_map_size a /\
  exists r a', has_new_bits lg id a = Some (r, a') /\ cov_wf a' /\ 0 <= r <= 2 /\
    (r = 2 <-> exists i c, (i < n)%nat /\ trace_bits a !! i = Some c /\ c <> 0 /\
                           virgin_of a id !! i = Some 255) /\
    (r = 0 <-> forall i c v, (i < n)%nat -> trace_bits a !! i = Some c ->
                             virgin_of a id !! i = Some v -> Z.land c v = 0) /\
    (forall i c v, trace_bits a !! i = Some c -> virgin_of a id !! i = Some v ->
       virgin_of a' id !! i = Some (if (i <? n)%nat then Z.ldiff v c else v)) /\
    (forall id', id' <> id -> virgin_of a' id' = virgin_of a id') /\
    trace_bits a' = trace_bits a /\
    bitmap_changed a' = bitmap_changed a || (z2b r && bool_decide (id = VirginBits)).
Proof. apply has_new_bits_spec. Qed.

(** A small state: a 64-byte map of which 60 bytes are real. *)
Definition demo_state : cov_state :=
  {| cov_map_size := 64; cov_real_map_size := 60; trace_bits := demo_trace;
     virgin_bits := replicate 64 255; virgin_tmout := replicate 64 255;
     virgin_crash := replicate 64 255; bitmap_changed := false |}.

Lemma demo_state_wf : cov_wf demo_state.
Proof.
  assert (bytes_ok (replicate 64 255)) as B by (repeat (constructor || split || lia)).
  constructor; cbn; [done|done|lia| |by intros []].
  split; [|done]. unfold demo_trace. repeat (constructor || split || lia).
Qed.

Theorem has_new_bits_witness :
  exists r a', has_new_bits 3 VirginBits demo_state = Some (r, a') /\
    (r = 2 <-> exists i c, (i < 64)%nat /\ trace_bits demo_state !! i = Some c /\ c <> 0 /\
                           virgin_of demo_state VirginBits !! i = Some 255).
Proof.
  destruct (has_new_bits_correct 3 VirginBits demo_state (or_intror eq_refl) demo_state_wf)
    as (_&r&a'&H&_&_&H2&_). by exists r, a'.
Defined.

(** After a call of [has_new_bits] a further call on the same trace and virgin
    map finds nothing: it returns 0 and changes nothing. *)
Theorem has_new_bits_again lg id a :
  word_log lg -> cov_wf a ->
  exists r a', has_new_bits lg id a = Some (r, a') /\ has_new_bits lg id a' = Some (0, a').
Proof.
  intros Hlg Hwf.
  pose proof (has_new_bits_result_wf lg id a Hlg Hwf) as Hwf'.
  exists (has_new_bits_result lg id a).1, (has_new_bits_result lg id a).2.
  split; [rewrite has_new_bits_run by done; by destruct (has_new_bits_result lg id a)|].
  rewrite has_new_bits_run by done. f_equal. set (b := (has_new_bits_result lg id a).2) in *.
  set (n := scanned lg a). set (tr := trace_bits a) in *. set (v := virgin_of a id).
  assert (scanned lg b = n /\ trace_bits b = tr) as [Es Et].
  { unfold b, has_new_bits_result, scanned, n. cbn [snd]. by destruct (_ && _). }
  assert (virgin_of b id = clear_bits (take n v) (take n tr) ++ drop n v) as Ev.
  { unfold b, has_new_bits_result. cbn [snd]. destruct (_ && _);
      rewrite ?virgin_of_set_changed, virgin_of_set, decide_True by done; reflexivity. }
  destruct (wf_trace a Hwf) as [Bt Lt]. destruct (wf_virgin a Hwf id) as [Bv Lv].
  destruct (wf_lengths lg id a Hlg Hwf) as [Hnt Hnv]. fold n tr v in Hnt, Hnv.
  assert (any_new (take n tr) (take n (virgin_of b id)) = false) as Hq.
  { apply any_new_false. rewrite Ev. apply Forall_lookup. intros i x Hx.
    apply lookup_zip_with_Some in Hx as (c&w&->&[Hc Hi]%lookup_take_Some&[Hw _]%lookup_take_Some).
    destruct (lookup_lt_is_Some_2 v i) as [u Hu]; [lia|].
    rewrite (lookup_clear_bits n v tr i c u) in Hw by done.
    rewrite (proj2 (Nat.ltb_lt i n) Hi) in Hw. injection Hw as <-.
    apply Z.bits_inj'. intros k Hk. rewrite Z.land_spec, Z.ldiff_spec, Z.bits_0.
    destruct (Z.testbit c k), (Z.testbit u k); done. }
  unfold has_new_bits_result. rewrite Es, Et.
  destruct (no_hit_prefix n (take n tr) (take n (virgin_of b id))) as [E1 E2].
  { rewrite !length_take. destruct (wf_lengths lg id b Hlg Hwf') as [_ Hb]. rewrite Es in Hb. lia. }
  { done. }
  rewrite !take_take, !Nat.min_id in E1, E2. rewrite E1. cbn [z2b Z.eqb negb andb]. f_equal.
  rewrite drop_ge, app_nil_r in E2 by (rewrite length_take; lia).
  rewrite E2, take_drop. clear. by destruct b, id.
Qed.

Theorem has_new_bits_again_witness :
  exists r a', has_new_bits 3 VirginBits demo_state = Some (r, a') /\
               has_new_bits 3 VirginBits a' = Some (0, a').
Proof.
  apply (has_new_bits_again 3 VirginBits demo_state (or_intror eq_refl) demo_state_wf).
Defined.

Lemma has_new_bits_unclassified_run lg t0 id a :
  word_log lg -> cov_wf a ->
  exists tr r b c,
    classify_counts lg (init_count_class16 t0) (cov_map_size a) (trace_bits a) = Some tr /\
    has_new_bits lg id (set_trace tr a) = Some (r, b) /\
    has_new_bits_unclassified lg (init_count_class16 t0) id a = Some (r, c) /\
    (forall id', virgin_of c id' = virgin_of b id') /\
    bitmap_changed c = bitmap_changed b /\
    (trace_bits c = tr \/ (trace_bits c = trace_bits a /\ r = 0)).
Proof.
  intros Hlg Hwf. destruct (wf_trace a Hwf) as [Bt Lt]. destruct (wf_virgin a Hwf id) as [Bv Lv].
  destruct Hwf as [Hs Ha Hr Ht Hv] eqn:EQ. clear EQ.
  set (tr := map count_class_lookup8 (trace_bits a)).
  assert (cov_wf (set_trace tr a)) as Hwf'.
  { apply set_trace_wf; [by constructor|apply map_class_bytes_ok|].
    unfold tr, zlen in *. by rewrite length_map. }
  assert (classify_counts lg (init_count_class16 t0) (cov_map_size a) (trace_bits a) = Some tr) as Ec.
  { apply classify_counts_run; auto; apply Hs. }
  pose proof (has_new_bits_run lg id _ Hlg Hwf') as Eb.
  destruct (has_new_bits_result lg id (set_trace tr a)) as [r b] eqn:Er.
  unfold has_new_bits_unclassified. rewrite <- Lt in Ha.
  rewrite <- Lt, skim_run by (done || (unfold zlen in *; lia)). cbn [mbind option_bind].
  fold tr. destruct (any_new tr (virgin_of a id)) eqn:En; cbn [b2z Z.eqb].
  - exists tr, r, b, b. rewrite Lt, Ec. cbn [mbind option_bind]. rewrite Eb.
    split_and!; try done. left. replace b with (has_new_bits_result lg id (set_trace tr a)).2 by (by rewrite Er).
    unfold has_new_bits_result. cbn [snd]. by destruct (_ && _).
  - exists tr, r, b, a. rewrite Lt.
    destruct (no_hit_prefix (scanned lg (set_trace tr a)) tr (virgin_of a id)) as [E1 E2].
    { unfold tr, zlen in *. rewrite length_map. lia. }
    { done. }
    unfold has_new_bits_result in Er. rewrite virgin_of_set_trace in Er. cbn [trace_bits set_trace] in Er.
    rewrite E1, E2 in Er. cbn [z2b Z.eqb negb andb] in Er. injection Er as <- <-.
    split_and!; try done.
    + intros id'. rewrite virgin_of_set, virgin_of_set_trace. by case_decide; subst.
    + by right.
Qed.

(** C10. The fast path is equivalent to the slow path: on a well-formed state
    [has_new_bits_unclassified] and [classify_counts] followed by [has_new_bits]
    return the same value and leave the same virgin maps and [bitmap_changed];
    the trace is either kept or the classified one, and it is kept only when 0 is
    returned. *)
Theorem has_new_bits_unclassified_equiv lg t0 id a :
  word_log lg -> cov_wf a ->
  exists tr r b c,
    classify_counts lg (init_count_class16 t0) (cov_map_size a) (trace_bits a) = Some tr /\
    has_new_bits lg id (set_trace tr a) = Some (r, b) /\
    has_new_bits_unclassified lg (init_count_class16 t0) id a = Some (r, c) /\
    (forall id', virgin_of c id' = virgin_of b id') /\
    bitmap_changed c = bitmap_changed b /\
    (trace_bits c = tr \/ (trace_bits c = trace_bits a /\ r = 0)).
Proof. apply has_new_bits_unclassified_run. Qed.

Theorem has_new_bits_unclassified_witness :
  exists tr r b c,
    classify_counts 2 (init_count_class16 (fun _ => 0)) 64 demo_trace = Some tr /\
    has_new_bits 2 VirginCrash (set_trace tr demo_state) = Some (r, b) /\
    has_new_bits_unclassified 2 (init_count_class16 (fun _ => 0)) VirginCrash demo_state
    = Some (r, c).
Proof.
  destruct (has_new_bits_unclassified_equiv 2 (fun _ => 0) VirginCrash demo_state
              (or_introl eq_refl) demo_state_wf) as (tr&r&b&c&H1&H2&H3&_).
  exists tr, r, b, c. exact (conj H1 (conj H2 H3)).
Defined.

(** The three variants of [skim] of coverage-64.h agree on maps of a size that
    is a multiple of 64: they return 1 exactly when some byte of the classified
    trace has a bit that is still virgin, and they stay inside the maps. *)
Theorem skim_variants_agree t0 trace virgin :
  zlen trace mod 64 = 0 -> length virgin = length trace -> bytes_ok trace -> bytes_ok virgin ->
  let t := init_count_class16 t0 in
  let r := b2z (any_new (map count_class_lookup8 trace) virgin) in
  skim 3 t (zlen trace) virgin trace = Some r /\
  skim_avx2 t (zlen trace) virgin trace = Some r /\
  skim_avx512 t (zlen trace) virgin trace = Some r.
Proof.
  intros Hm Hl Bt Bv t r.
  assert (skim 3 t (zlen trace) virgin trace = Some r) as E by (apply skim_run; auto; by right).
  assert (length trace = (Z.to_nat (zlen trace / 64) * 64)%nat) as Hk by (unfold zlen in *; dlia).
  set (k := Z.to_nat (zlen trace / 64)) in *.
  unfold skim, skim_avx2, skim_avx512 in *. unfold zlen in *. rewrite Hk in *.
  split_and!; [done|..].
  - rewrite <- E. replace (k * 64)%nat with (k * 2 * 32)%nat by lia.
    apply skim_avx2_loop_equiv; lia.
  - rewrite <- E. apply skim_avx512_loop_equiv; lia.
Qed.

Theorem skim_variants_witness :
  let t := init_count_class16 (fun _ => 0) in
  let r := b2z (any_new (map count_class_lookup8 demo_trace) (replicate 64 255)) in
  r = 1 /\ skim_avx2 t 64 (replicate 64 255) demo_trace = Some r /\
  skim_avx512 t 64 (replicate 64 255) demo_trace = Some r.
Proof.
  destruct (skim_variants_agree (fun _ => 0) demo_trace (replicate 64 255)) as (_&H2&H3);
    [done|done| | |].
  - unfold demo_trace. repeat (constructor || split || lia).
  - repeat (constructor || split || lia).
  - split_and!; [reflexivity|exact H2|exact H3].
Defined.
