(* ===== verification/CountFacts.v ===== *)
(** * Counting bits and bytes of a map; compacting a trace

    Correctness of [count_bits] (with the portable population count),
    [count_bytes], [count_non_255_bytes] and [minimize_bits] of
    [src/afl-fuzz-bitmap.c]. *)

From S2P Require Import Prelude Coverage CoverageFacts.

(** ** Numbers in base [2 ^ k] *)

Fixpoint digits (k : Z) (ds : list Z) : Z :=
  match ds with
  | [] => 0
  | d :: ds => d + 2 ^ k * digits k ds
  end.

Lemma testbit_digit k a x i :
  0 <= k -> in_width k a -> 0 <= i ->
  Z.testbit (a + 2 ^ k * x) i = if i <? k then Z.testbit a i else Z.testbit x (i - k).
Proof.
  intros Hk Ha Hi. pose proof (pow2_pos k Hk). rewrite Z.mul_comm.
  destruct (i <? k) eqn:E; b2p.
  - rewrite <- (Z.mod_pow2_bits_low _ k) by lia.
    rewrite Z.mod_add by lia. by rewrite Z.mod_pow2_bits_low.
  - rewrite <- (Z.sub_add k i) at 1. rewrite <- Z.div_pow2_bits by lia.
    rewrite Z.div_add, Z.div_small by (done || lia). done.
Qed.

Lemma land_digits k xs ys :
  0 <= k -> Forall (in_width k) xs -> Forall (in_width k) ys ->
  Z.land (digits k xs) (digits k ys) = digits k (zip_with Z.land xs ys).
Proof.
  intros Hk Hx. revert ys. induction Hx as [|x xs Hx Hxs IH]; intros ys Hys.
  - apply Z.land_0_l.
  - destruct Hys as [|y ys Hy Hys]; [apply Z.land_0_r|].
    cbn [digits zip_with]. rewrite <- IH by done. apply Z.bits_inj'. intros i Hi.
    assert (in_width k (Z.land x y)) by (apply land_width; [done|done|apply Hy]).
    rewrite Z.land_spec, !testbit_digit by done.
    destruct (i <? k); by rewrite Z.land_spec.
Qed.

Lemma shiftr_digits k d ds :
  0 <= k -> in_width k d -> Z.shiftr (digits k (d :: ds)) k = digits k ds.
Proof.
  intros Hk Hd. pose proof (pow2_pos k Hk). rewrite Z.shiftr_div_pow2 by done. cbn [digits].
  rewrite Z.mul_comm, Z.div_add, Z.div_small by (done || lia). done.
Qed.

(** The 32 bits of a word, as numbers. *)
Definition bits_of (n : nat) (v : Z) : list Z :=
  map (fun i => b2z (Z.testbit v (Z.of_nat i))) (seq 0 n).

Lemma b2z_range b : 0 <= b2z b <= 1.
Proof. destruct b; cbn; lia. Qed.

Lemma digits_bits_of n v s :
  digits 1 (map (fun i => b2z (Z.testbit v (Z.of_nat i))) (seq s n))
  = wrap (Z.of_nat n) (Z.shiftr v (Z.of_nat s)).
Proof.
  revert s. induction n as [|n IH]; intros s; [unfold wrap; cbn; by rewrite Z.mod_1_r|].
  cbn [seq map digits]. rewrite IH. apply Z.bits_inj'. intros i Hi.
  rewrite testbit_digit; [|lia|pose proof (b2z_range (Z.testbit v (Z.of_nat s)));
    unfold in_width; lia|done].
  unfold wrap. destruct (i <? 1) eqn:E; b2p.
  - assert (i = 0) as -> by lia. rewrite Z.mod_pow2_bits_low, Z.shiftr_spec by lia.
    rewrite Z.add_0_l. by destruct (Z.testbit v (Z.of_nat s)).
  - destruct (decide (i < Z.of_nat (S n))).
    + rewrite !Z.mod_pow2_bits_low, !Z.shiftr_spec by lia. f_equal. lia.
    + rewrite !Z.mod_pow2_bits_high by lia. done.
Qed.

Lemma popcount_bits_of n v : popcount n v = foldr Z.add 0 (bits_of n v).
Proof.
  unfold popcount, bits_of, seqZ. rewrite Nat2Z.id. induction (seq 0 n) as [|i l IH]; [done|].
  cbn [fmap list_fmap foldr map]. rewrite <- IH. by rewrite Z.add_0_r.
Qed.

Lemma bits_of_01 n v : Forall (fun b => 0 <= b <= 1) (bits_of n v).
Proof.
  apply Forall_map, Forall_forall. intros i _. apply b2z_range.
Qed.

(** ** The portable population count

    The three folding steps, on explicit digits of 1, 2 and 4 bits. *)

Lemma land_1 b : 0 <= b <= 1 -> Z.land b 1 = b.
Proof. intros. assert (b = 0 \/ b = 1) as [-> | ->] by lia; done. Qed.

Lemma land_mask k d : 0 <= k -> in_width k d -> Z.land d (Z.ones k) = d.
Proof. intros. rewrite Z.land_ones by done. by apply wrap_small. Qed.

Ltac digit_width :=
  repeat (apply Forall_cons; [unfold in_width; change (2 ^ 1) with 2; change (2 ^ 2) with 4; change (2 ^ 4) with 16; lia|]); try apply Forall_nil_2.

Lemma swar_step1 b0 b1 b2 b3 b4 b5 b6 b7 b8 b9 b10 b11 b12 b13 b14 b15
    b16 b17 b18 b19 b20 b21 b22 b23 b24 b25 b26 b27 b28 b29 b30 b31 :
  let bs := [b0; b1; b2; b3; b4; b5; b6; b7; b8; b9; b10; b11; b12; b13; b14; b15;
             b16; b17; b18; b19; b20; b21; b22; b23; b24; b25; b26; b27; b28; b29; b30; b31] in
  Forall (fun b => 0 <= b <= 1) bs ->
  u32 (digits 1 bs - Z.land (Z.shiftr (digits 1 bs) 1) 0x55555555)
  = digits 2 [b0 + b1; b2 + b3; b4 + b5; b6 + b7; b8 + b9; b10 + b11; b12 + b13; b14 + b15;
              b16 + b17; b18 + b19; b20 + b21; b22 + b23; b24 + b25; b26 + b27; b28 + b29;
              b30 + b31].
Proof.
  intros bs H. unfold bs in *. repeat (apply Forall_cons_iff in H as [? H]).
  rewrite shiftr_digits by (unfold in_width; lia).
  change 0x55555555 with (digits 1 [1;0;1;0;1;0;1;0;1;0;1;0;1;0;1;0;1;0;1;0;1;0;1;0;1;0;1;0;1;0;1;0]).
  rewrite land_digits by (lia || digit_width). cbn [zip_with].
  rewrite !land_1, !Z.land_0_r by done. cbn [digits].
  rewrite wrap_small; [|unfold in_width]; lia.
Qed.

Lemma swar_step2 d0 d1 d2 d3 d4 d5 d6 d7 d8 d9 d10 d11 d12 d13 d14 d15 :
  let ds := [d0; d1; d2; d3; d4; d5; d6; d7; d8; d9; d10; d11; d12; d13; d14; d15] in
  Forall (fun d => 0 <= d <= 2) ds ->
  u32 (Z.land (digits 2 ds) 0x33333333 + Z.land (Z.shiftr (digits 2 ds) 2) 0x33333333)
  = digits 4 [d0 + d1; d2 + d3; d4 + d5; d6 + d7; d8 + d9; d10 + d11; d12 + d13; d14 + d15].
Proof.
  intros ds H. unfold ds in *. repeat (apply Forall_cons_iff in H as [? H]).
  rewrite shiftr_digits by (unfold in_width; change (2 ^ 2) with 4; lia).
  change 0x33333333 with (digits 2 [3;0;3;0;3;0;3;0;3;0;3;0;3;0;3;0]).
  rewrite !land_digits by (lia || digit_width). cbn [zip_with].
  change 3 with (Z.ones 2).
  rewrite !land_mask, !Z.land_0_r by (unfold in_width; change (2 ^ 2) with 4; lia).
  cbn [digits]. rewrite wrap_small; [|unfold in_width]; lia.
Qed.

Lemma swar_step3 n0 n1 n2 n3 n4 n5 n6 n7 :
  let ns := [n0; n1; n2; n3; n4; n5; n6; n7] in
  Forall (fun n => 0 <= n <= 4) ns ->
  Z.land (u32 (digits 4 ns + Z.shiftr (digits 4 ns) 4)) 0xF0F0F0F
  = (n0 + n1) + 2 ^ 8 * (n2 + n3) + 2 ^ 16 * (n4 + n5) + 2 ^ 24 * (n6 + n7).
Proof.
  intros ns H. unfold ns in *. repeat (apply Forall_cons_iff in H as [? H]).
  rewrite shiftr_digits by (unfold in_width; change (2 ^ 4) with 16; lia).
  assert (u32 (digits 4 [n0; n1; n2; n3; n4; n5; n6; n7] + digits 4 [n1; n2; n3; n4; n5; n6; n7])
    = digits 4 [n0 + n1; n1 + n2; n2 + n3; n3 + n4; n4 + n5; n5 + n6; n6 + n7; n7]) as ->.
  { cbn [digits]. rewrite wrap_small; [|unfold in_width]; lia. }
  change 0xF0F0F0F with (digits 4 [15;0;15;0;15;0;15;0]).
  rewrite land_digits by (lia || digit_width). cbn [zip_with].
  change 15 with (Z.ones 4).
  rewrite !land_mask, !Z.land_0_r by (unfold in_width; change (2 ^ 4) with 16; lia).
  cbn [digits]. lia.
Qed.

Lemma swar_step4 m0 m1 m2 m3 :
  0 <= m0 <= 8 -> 0 <= m1 <= 8 -> 0 <= m2 <= 8 -> 0 <= m3 <= 8 ->
  Z.shiftr (u32 ((m0 + 2 ^ 8 * m1 + 2 ^ 16 * m2 + 2 ^ 24 * m3) * 0x01010101)) 24
  = m0 + m1 + m2 + m3.
Proof.
  intros. rewrite Z.shiftr_div_pow2 by lia. unfold wrap.
  set (hi := m1 + m2 + m3 + 2 ^ 8 * (m2 + m3) + 2 ^ 16 * m3).
  set (lo := m0 + 2 ^ 8 * (m0 + m1) + 2 ^ 16 * (m0 + m1 + m2)).
  replace ((m0 + 2 ^ 8 * m1 + 2 ^ 16 * m2 + 2 ^ 24 * m3) * 0x01010101)
    with (lo + (m0 + m1 + m2 + m3) * 2 ^ 24 + hi * 2 ^ 32) by (unfold lo, hi; lia).
  rewrite Z.mod_add by lia. rewrite Z.mod_small by (unfold lo; lia).
  rewrite Z.div_add by lia. rewrite Z.div_small by (unfold lo; lia). lia.
Qed.

Lemma swar_popcount_bits v : is_u32 v -> swar_popcount v = popcount 32 v.
Proof.
  intros Hv. rewrite popcount_bits_of.
  pose proof (digits_bits_of 32 v 0) as Hd. pose proof (bits_of_01 32 v) as Hb.
  fold (bits_of 32 v) in Hd. rewrite Z.shiftr_0_r, wrap_small in Hd by done.
  transitivity (swar_popcount (digits 1 (bits_of 32 v))); [by rewrite Hd|]. clear Hd. revert Hb.
  unfold bits_of. cbn [seq map]. generalize (fun i => b2z (Z.testbit v (Z.of_nat i))). intros f Hb.
  unfold swar_popcount. cbv zeta. rewrite swar_step1 by done. repeat (apply Forall_cons_iff in Hb as [? Hb]).
  rewrite swar_step2, swar_step3, swar_step4 by (repeat (apply Forall_cons; [lia|]); try apply Forall_nil_2; lia).
  cbn [foldr]. lia.
Qed.

(** ** The counting loops *)

Definition sumf (f : Z -> Z) (bs : list Z) : Z := foldr (fun b acc => f b + acc) 0 bs.

Lemma sumf_app f xs ys : sumf f (xs ++ ys) = sumf f xs + sumf f ys.
Proof. unfold sumf. induction xs as [|x xs IH]; cbn; [done|]. rewrite IH. lia. Qed.

Lemma count_loop_spec step f i ret mem :
  (forall a b c d, is_u8 a -> is_u8 b -> is_u8 c -> is_u8 d ->
     step (le_word [a; b; c; d]) = f a + f b + f c + f d) ->
  (i * 4 <= length mem)%nat -> bytes_ok mem -> is_u32 ret ->
  count_loop step i ret mem = Some (u32 (ret + sumf f (take (i * 4) mem))).
Proof.
  intros Hf. revert ret mem. induction i as [|i IH]; intros ret mem Hl Hm Hr.
  { cbn. rewrite Z.add_0_r, wrap_small by done. done. }
  cbn [count_loop]. change 4 with (Z.of_nat 4). rewrite load_head by lia. cbn [mbind option_bind].
  do 4 (destruct mem as [|? mem]; [cbn in Hl; lia|]).
  repeat (apply Forall_cons_iff in Hm as [? Hm]). cbn [take drop]. rewrite drop_0, take_0.
  rewrite Hf by done. cbn [length] in Hl.
  rewrite IH by (done || lia || (apply wrap_range; lia)).
  replace (S i * 4)%nat with (S (S (S (S (i * 4))))) by lia. cbn [take sumf foldr].
  f_equal. fold (sumf f (take (i * 4) mem)). unfold wrap. rewrite Z.add_mod_idemp_l by lia. f_equal. lia.
Qed.

Lemma count_words_bound n :
  0 <= n < 2 ^ 32 - 3 -> n <= Z.of_nat (count_words n * 4) < n + 4.
Proof.
  intros Hn. unfold count_words. rewrite Z.shiftr_div_pow2 by lia. change (2 ^ 2) with 4.
  rewrite wrap_small by (unfold in_width; lia). dlia.
Qed.

Definition byte_bits (b : Z) : Z := popcount 8 b.

Ltac bytes4 := repeat first [apply Forall_nil_2 | apply Forall_cons; [assumption|]].

Lemma testbit_word4 a b c d i :
  is_u8 a -> is_u8 b -> is_u8 c -> is_u8 d -> 0 <= i ->
  Z.testbit (le_word [a; b; c; d]) i
  = if i <? 8 then Z.testbit a i else if i <? 16 then Z.testbit b (i - 8)
    else if i <? 24 then Z.testbit c (i - 16) else if i <? 32 then Z.testbit d (i - 24) else false.
Proof.
  intros Ha Hb Hc Hd Hi. cbn [le_word].
  rewrite testbit_cons by done. destruct (i <? 8) eqn:E1; [done|]. b2p.
  rewrite testbit_cons by (done || lia).
  destruct (i - 8 <? 8) eqn:E2, (i <? 16) eqn:E2'; b2p; try lia; [done|].
  rewrite testbit_cons by (done || lia).
  destruct (i - 8 - 8 <? 8) eqn:E3, (i <? 24) eqn:E3'; b2p; try lia; [f_equal; lia|].
  rewrite testbit_cons by (done || lia).
  destruct (i - 8 - 8 - 8 <? 8) eqn:E4, (i <? 32) eqn:E4'; b2p; try lia; [f_equal; lia|].
  apply Z.testbit_0_l.
Qed.

Lemma popcount_word4 a b c d :
  is_u8 a -> is_u8 b -> is_u8 c -> is_u8 d ->
  popcount 32 (le_word [a; b; c; d]) = byte_bits a + byte_bits b + byte_bits c + byte_bits d.
Proof.
  intros Ha Hb Hc Hd. unfold byte_bits. rewrite !popcount_bits_of. unfold bits_of.
  cbn [seq map foldr]. rewrite !testbit_word4 by (done || lia).
  repeat match goal with
  | |- context [Z.of_nat ?n <? ?m] =>
      let r := eval vm_compute in (Z.of_nat n <? m) in change (Z.of_nat n <? m) with r
  | |- context [Z.of_nat ?n - ?m] =>
      let r := eval vm_compute in (Z.of_nat n - m) in change (Z.of_nat n - m) with r
  | |- context [Z.testbit ?x (Z.of_nat ?n)] =>
      let r := eval vm_compute in (Z.of_nat n) in change (Z.of_nat n) with r
  end. cbv iota. lia.
Qed.

Lemma count_bits_step_spec builtin a b c d :
  is_u8 a -> is_u8 b -> is_u8 c -> is_u8 d ->
  count_bits_step builtin (le_word [a; b; c; d])
  = byte_bits a + byte_bits b + byte_bits c + byte_bits d.
Proof.
  intros Ha Hb Hc Hd. rewrite <- popcount_word4 by done. unfold count_bits_step.
  destruct (_ =? _) eqn:E; b2p; [by rewrite E|]. destruct builtin; [done|].
  apply swar_popcount_bits. apply (le_word_range [a; b; c; d]). bytes4.
Qed.

(** The mask tests of the byte counters look at one byte each. *)
Lemma land_word4 a b c d m0 m1 m2 m3 :
  is_u8 a -> is_u8 b -> is_u8 c -> is_u8 d -> is_u8 m0 -> is_u8 m1 -> is_u8 m2 -> is_u8 m3 ->
  Z.land (le_word [a; b; c; d]) (le_word [m0; m1; m2; m3])
  = Z.land a m0 + 256 * Z.land b m1 + 256 ^ 2 * Z.land c m2 + 256 ^ 3 * Z.land d m3.
Proof.
  intros. rewrite le_word_land by bytes4. cbn [zip_with le_word]. lia.
Qed.

Lemma land_byte a : is_u8 a -> Z.land a 255 = a.
Proof. intros. by apply (land_mask 8). Qed.

Lemma land_words4 a b c d :
  is_u8 a -> is_u8 b -> is_u8 c -> is_u8 d ->
  let v := le_word [a; b; c; d] in
  Z.land v 0x000000ff = a /\ Z.land v 0x0000ff00 = 256 * b /\
  Z.land v 0x00ff0000 = 256 ^ 2 * c /\ Z.land v 0xff000000 = 256 ^ 3 * d.
Proof.
  intros Ha Hb Hc Hd v. unfold v.
  change 0x000000ff with (le_word [255; 0; 0; 0]). change 0x0000ff00 with (le_word [0; 255; 0; 0]).
  change 0x00ff0000 with (le_word [0; 0; 255; 0]). change 0xff000000 with (le_word [0; 0; 0; 255]).
  rewrite !land_word4 by (done || (unfold in_width; lia)).
  rewrite !Z.land_0_r, !land_byte by done. lia.
Qed.

Lemma count_bytes_step_spec a b c d :
  is_u8 a -> is_u8 b -> is_u8 c -> is_u8 d ->
  count_bytes_step (le_word [a; b; c; d])
  = b2z (z2b a) + b2z (z2b b) + b2z (z2b c) + b2z (z2b d).
Proof.
  intros Ha Hb Hc Hd. destruct (land_words4 a b c d Ha Hb Hc Hd) as (E1&E2&E3&E4).
  unfold count_bytes_step. rewrite E1, E2, E3, E4. unfold in_width in *.
  destruct (_ =? 0) eqn:E; b2p.
  - cbn [le_word] in E. assert (a = 0 /\ b = 0 /\ c = 0 /\ d = 0) as (->&->&->&->) by lia. done.
  - unfold z2b. destruct (256 * b =? 0) eqn:?, (b =? 0) eqn:?, (256 ^ 2 * c =? 0) eqn:?, (c =? 0) eqn:?,
      (256 ^ 3 * d =? 0) eqn:?, (d =? 0) eqn:?; b2p; lia.
Qed.

Lemma count_non_255_step_spec a b c d :
  is_u8 a -> is_u8 b -> is_u8 c -> is_u8 d ->
  count_non_255_step (le_word [a; b; c; d])
  = b2z (negb (a =? 255)) + b2z (negb (b =? 255)) + b2z (negb (c =? 255)) + b2z (negb (d =? 255)).
Proof.
  intros Ha Hb Hc Hd. destruct (land_words4 a b c d Ha Hb Hc Hd) as (E1&E2&E3&E4).
  unfold count_non_255_step. rewrite E1, E2, E3, E4. unfold in_width in *.
  destruct (_ =? 0xffffffff) eqn:E; b2p.
  - cbn [le_word] in E. assert (a = 255 /\ b = 255 /\ c = 255 /\ d = 255) as (->&->&->&->) by lia. done.
  - destruct (256 * b =? 0xff00) eqn:?, (b =? 255) eqn:?, (256 ^ 2 * c =? 0xff0000) eqn:?,
      (c =? 255) eqn:?, (256 ^ 3 * d =? 0xff000000) eqn:?, (d =? 255) eqn:?; b2p; lia.
Qed.

(** ** Properties *)

(** The part of the map the counters walk: [real_map_size] rounded up to 4. *)
Definition counted (real_map_size : Z) (mem : list Z) : list Z :=
  take (count_words real_map_size * 4) mem.



(** ** [minimize_bits] *)

(** The bits the iterations [i .. i + k - 1] set: those of non-zero bytes. *)
Definition src_hit (src : list Z) (i : Z) (k : nat) (j : Z) : bool :=
  (i <=? j) && (j <? i + Z.of_nat k) &&
  match src !! Z.to_nat j with Some s => z2b s | None => false end.

Lemma src_hit_S src i k j s :
  src !! Z.to_nat i = Some s ->
  src_hit src i (S k) j = ((j =? i) && z2b s) || src_hit src (i + 1) k j.
Proof.
  intros Hs. unfold src_hit. destruct (decide (j = i)) as [->|Hne].
  - rewrite Hs, Z.eqb_refl, (proj2 (Z.leb_le i i)), (proj2 (Z.leb_gt (i + 1) i)),
      (proj2 (Z.ltb_lt i (i + Z.of_nat (S k)))) by lia. cbn. by rewrite orb_false_r.
  - rewrite (proj2 (Z.eqb_neq j i)) by done. cbn [andb orb]. f_equal.
    destruct (i <=? j) eqn:?, (i + 1 <=? j) eqn:?, (j <? i + Z.of_nat (S k)) eqn:?,
      (j <? i + 1 + Z.of_nat k) eqn:?; b2p; lia || done.
Qed.

(** Setting bit [i land 7] of a byte. *)
Lemma testbit_set d i m :
  0 <= m < 8 ->
  Z.testbit (u8 (Z.lor d (Z.shiftl 1 (Z.land i 7)))) m = Z.testbit d m || (m =? i mod 8).
Proof.
  intros Hm. change 7 with (Z.ones 3). rewrite Z.land_ones by lia. change (2 ^ 3) with 8.
  unfold wrap. rewrite Z.mod_pow2_bits_low, Z.lor_spec by lia.
  rewrite Z.shiftl_1_l, Z.pow2_bits_eqb by dlia. by rewrite Z.eqb_sym.
Qed.

(** [dst'] is [dst] with the bits [P] added. *)
Definition bits_added (P : Z -> bool) (dst dst' : list Z) : Prop :=
  zlen dst' = zlen dst /\ bytes_ok dst' /\
  forall j b d, 0 <= j -> dst !! Z.to_nat (j / 8) = Some b -> dst' !! Z.to_nat (j / 8) = Some d ->
    Z.testbit d (j mod 8) = Z.testbit b (j mod 8) || P j.

Lemma bits_added_set i d0 dst :
  0 <= i -> bytes_ok dst -> dst !! Z.to_nat (i / 8) = Some d0 ->
  bits_added (fun j => j =? i) dst
    (<[Z.to_nat (i / 8) := u8 (Z.lor d0 (Z.shiftl 1 (Z.land i 7)))]> dst).
Proof.
  intros Hi Hb Hd. pose proof (lookup_lt_Some _ _ _ Hd). split_and!.
  - unfold zlen. by rewrite length_insert.
  - apply Forall_insert; [done|]. apply wrap_range. lia.
  - intros j b d Hj Hjb Hjd. destruct (decide (i / 8 = j / 8)) as [Heq|Hne].
    + rewrite <- Heq in Hjb, Hjd. rewrite list_lookup_insert_eq in Hjd by done. simplify_eq.
      rewrite testbit_set by dlia. f_equal.
      destruct (j =? i) eqn:E, (j mod 8 =? i mod 8) eqn:E'; b2p; dlia || done.
    + rewrite list_lookup_insert_ne in Hjd by dlia. simplify_eq.
      rewrite (proj2 (Z.eqb_neq j i)), orb_false_r; [done|]. by intros ->.
Qed.

Lemma bits_added_trans P Q R d1 d2 d3 :
  bits_added P d1 d2 -> bits_added Q d2 d3 -> (forall j, 0 <= j -> R j = P j || Q j) ->
  bits_added R d1 d3.
Proof.
  intros (L1&B1&H1) (L2&B2&H2) HR. split_and!; [congruence|done|].
  intros j b d Hj Hb Hd. destruct (lookup_lt_is_Some_2 d2 (Z.to_nat (j / 8))) as [e He].
  { apply lookup_lt_Some in Hb. unfold zlen in L1. lia. }
  by rewrite (H2 j e d), (H1 j b e), HR, orb_assoc by done.
Qed.

Lemma minimize_loop_spec k i src dst :
  0 <= i -> i + Z.of_nat k <= zlen src -> i + Z.of_nat k <= 8 * zlen dst -> bytes_ok dst ->
  exists dst', minimize_loop k i src dst = Some dst' /\ bits_added (src_hit src i k) dst dst'.
Proof.
  revert i dst. induction k as [|k IH]; intros i dst Hi Hs Hd Hb.
  { exists dst. split; [done|]. split_and!; try done. intros j b d _ ? ?. simplify_eq.
    unfold src_hit. destruct (i <=? j) eqn:?, (j <? i + Z.of_nat 0) eqn:?; b2p; try lia;
      by rewrite ?orb_false_r. }
  cbn [minimize_loop]. destruct (get_Some src i) as [s Es]; [lia|].
  rewrite Es. cbn [mbind option_bind]. apply get_inv in Es as [_ Es].
  destruct (z2b s) eqn:Ez.
  - rewrite Z.shiftr_div_pow2 by lia. change (2 ^ 3) with 8.
    destruct (get_Some dst (i / 8)) as [d0 Ed]; [dlia|].
    rewrite Ed. cbn [mbind option_bind]. apply get_inv in Ed as [Hir Ed].
    rewrite put_Some by done. cbn [mbind option_bind].
    pose proof (bits_added_set i d0 dst Hi Hb Ed) as Hset. pose proof Hset as (L&B&_).
    edestruct (IH (i + 1)) as (dst'&E&Ha); [..|exists dst'; split; [exact E|]]; [lia|lia|lia|done|].
    eapply bits_added_trans; [exact Hset|exact Ha|]. intros j _. cbn beta.
    by rewrite (src_hit_S _ _ _ _ s), Ez, andb_true_r by done.
  - destruct (IH (i + 1) dst) as (dst'&E&L&B&H); [lia..|done|].
    exists dst'. split; [done|]. split_and!; try done. intros j b d Hj Hjb Hjd.
    rewrite (H j b d), (src_hit_S _ _ _ _ s), Ez, andb_false_r by done. done.
Qed.

(** [minimize_bits] stays inside its buffers and sets, in the destination,
    exactly the bits [i < map_size] whose trace byte is non-zero, keeping the bits
    that were set before. *)
Theorem minimize_bits_correct map_size dst src :
  0 <= map_size -> map_size <= zlen src -> map_size <= 8 * zlen dst -> bytes_ok dst ->
  exists dst', minimize_bits map_size dst src = Some dst' /\ zlen dst' = zlen dst /\
    bytes_ok dst' /\
    forall j b d, 0 <= j -> dst !! Z.to_nat (j / 8) = Some b ->
      dst' !! Z.to_nat (j / 8) = Some d ->
      (Z.testbit d (j mod 8) = true <->
       Z.testbit b (j mod 8) = true \/
       (j < map_size /\ exists s, src !! Z.to_nat j = Some s /\ s <> 0)).
Proof.
  intros Hm Hs Hd Hb. unfold minimize_bits.
  destruct (minimize_loop_spec (Z.to_nat map_size) 0 src dst) as (dst'&E&L&B&H); [lia..|done|].
  exists dst'. split_and!; try done. intros j b d Hj Hjb Hjd. rewrite (H j b d) by done.
  unfold src_hit. rewrite orb_true_iff, !andb_true_iff, Z.leb_le, Z.ltb_lt.
  destruct (src !! Z.to_nat j) as [s|] eqn:Es.
  - unfold z2b. rewrite negb_true_iff, Z.eqb_neq. split.
    + intros [?|[[_ ?] ?]]; [by left|right]. split; [lia|]. by exists s.
    + intros [?|[? (?&[= <-]&?)]]; [by left|right]. split; [lia|done].
  - split; [intros [?|[_ ?]]; [by left|done]|intros [?|[_ (?&?&_)]]; [by left|done]].
Qed.

Theorem minimize_bits_witness :
  exists dst', minimize_bits 64 (replicate 8 0) demo_trace = Some dst' /\ zlen dst' = 8.
Proof.
  destruct (minimize_bits_correct 64 (replicate 8 0) demo_trace) as (dst'&E&L&_);
    [lia|done|done| |by exists dst'].
  repeat (constructor || split || lia).
Defined.
