(* ===== verification/MutTables.v ===== *)
(** * Mutation tables

    The operators of [include/afl-mutations.h], the eight tables the havoc stage
    draws them from, and the interesting values of [include/config.h].  A table is
    written as its runs of equal entries, in the order of the source. *)

From S2P Require Import Prelude.

Inductive mut :=
| MUT_FLIPBIT
| MUT_INTERESTING8
| MUT_INTERESTING16
| MUT_INTERESTING16BE
| MUT_INTERESTING32
| MUT_INTERESTING32BE
| MUT_ARITH8_
| MUT_ARITH8
| MUT_ARITH16_
| MUT_ARITH16BE_
| MUT_ARITH16
| MUT_ARITH16BE
| MUT_ARITH32_
| MUT_ARITH32BE_
| MUT_ARITH32
| MUT_ARITH32BE
| MUT_RAND8
| MUT_CLONE_COPY
| MUT_CLONE_FIXED
| MUT_OVERWRITE_COPY
| MUT_OVERWRITE_FIXED
| MUT_BYTEADD
| MUT_BYTESUB
| MUT_FLIP8
| MUT_SWITCH
| MUT_DEL
| MUT_SHUFFLE
| MUT_DELONE
| MUT_INSERTONE
| MUT_ASCIINUM
| MUT_INSERTASCIINUM
| MUT_EXTRA_OVERWRITE
| MUT_EXTRA_INSERT
| MUT_AUTO_EXTRA_OVERWRITE
| MUT_AUTO_EXTRA_INSERT
| MUT_SPLICE_OVERWRITE
| MUT_SPLICE_INSERT.
#[export] Instance mut_eq_dec : EqDecision mut.
Proof. solve_decision. Defined.

(** All operators, in the order of their numbers. *)
Definition all_muts : list mut :=
  [MUT_FLIPBIT; MUT_INTERESTING8; MUT_INTERESTING16; MUT_INTERESTING16BE;
   MUT_INTERESTING32; MUT_INTERESTING32BE; MUT_ARITH8_; MUT_ARITH8;
   MUT_ARITH16_; MUT_ARITH16BE_; MUT_ARITH16; MUT_ARITH16BE;
   MUT_ARITH32_; MUT_ARITH32BE_; MUT_ARITH32; MUT_ARITH32BE;
   MUT_RAND8; MUT_CLONE_COPY; MUT_CLONE_FIXED; MUT_OVERWRITE_COPY;
   MUT_OVERWRITE_FIXED; MUT_BYTEADD; MUT_BYTESUB; MUT_FLIP8;
   MUT_SWITCH; MUT_DEL; MUT_SHUFFLE; MUT_DELONE;
   MUT_INSERTONE; MUT_ASCIINUM; MUT_INSERTASCIINUM; MUT_EXTRA_OVERWRITE;
   MUT_EXTRA_INSERT; MUT_AUTO_EXTRA_OVERWRITE; MUT_AUTO_EXTRA_INSERT; MUT_SPLICE_OVERWRITE;
   MUT_SPLICE_INSERT].

Definition MUT_STRATEGY_ARRAY_SIZE : Z := 256.
Definition MUT_TXT_ARRAY_SIZE : Z := 200.
Definition MUT_BIN_ARRAY_SIZE : Z := 256.
Definition MUT_NORMAL_ARRAY_SIZE : Z := 77.
Definition MUT_SPLICE_ARRAY_SIZE : Z := 81.

Definition expand (runs : list (mut * nat)) : list mut :=
  runs ≫= fun '(m, n) => replicate n m.

Definition text_array : list mut := expand
  [(MUT_FLIPBIT, 8); (MUT_INTERESTING8, 4); (MUT_INTERESTING16, 2);
   (MUT_INTERESTING16BE, 2); (MUT_INTERESTING32, 2); (MUT_INTERESTING32BE, 2);
   (MUT_ARITH8_, 6); (MUT_ARITH8, 6); (MUT_ARITH16_, 5); (MUT_ARITH16BE_, 5);
   (MUT_ARITH16, 5); (MUT_ARITH16BE, 5); (MUT_ARITH32_, 5); (MUT_ARITH32BE_, 5);
   (MUT_ARITH32, 5); (MUT_ARITH32BE, 5); (MUT_RAND8, 8); (MUT_CLONE_COPY, 16);
   (MUT_CLONE_FIXED, 8); (MUT_OVERWRITE_COPY, 10); (MUT_OVERWRITE_FIXED, 5);
   (MUT_BYTEADD, 5); (MUT_BYTESUB, 5); (MUT_FLIP8, 4); (MUT_SWITCH, 7); (MUT_DEL, 10);
   (MUT_EXTRA_OVERWRITE, 7); (MUT_EXTRA_INSERT, 9); (MUT_AUTO_EXTRA_OVERWRITE, 4);
   (MUT_AUTO_EXTRA_INSERT, 5); (MUT_SPLICE_OVERWRITE, 12); (MUT_SPLICE_INSERT, 13)]%nat.

Definition binary_array : list mut := expand
  [(MUT_FLIPBIT, 11); (MUT_INTERESTING8, 9); (MUT_INTERESTING16, 6);
   (MUT_INTERESTING16BE, 6); (MUT_INTERESTING32, 6); (MUT_INTERESTING32BE, 6);
   (MUT_ARITH8_, 9); (MUT_ARITH8, 10); (MUT_ARITH16_, 6); (MUT_ARITH16BE_, 6);
   (MUT_ARITH16, 6); (MUT_ARITH16BE, 6); (MUT_ARITH32_, 6); (MUT_ARITH32BE_, 6);
   (MUT_ARITH32, 6); (MUT_ARITH32BE, 6); (MUT_RAND8, 9); (MUT_CLONE_COPY, 14);
   (MUT_CLONE_FIXED, 7); (MUT_OVERWRITE_COPY, 10); (MUT_OVERWRITE_FIXED, 5);
   (MUT_BYTEADD, 6); (MUT_BYTESUB, 6); (MUT_FLIP8, 4); (MUT_SWITCH, 6); (MUT_DEL, 9);
   (MUT_EXTRA_OVERWRITE, 10); (MUT_EXTRA_INSERT, 12); (MUT_AUTO_EXTRA_OVERWRITE, 9);
   (MUT_AUTO_EXTRA_INSERT, 11); (MUT_SPLICE_OVERWRITE, 13); (MUT_SPLICE_INSERT, 14)]%nat.

Definition normal_splice_array : list mut := expand
  [(MUT_FLIPBIT, 4); (MUT_INTERESTING8, 4); (MUT_INTERESTING16, 2);
   (MUT_INTERESTING16BE, 2); (MUT_INTERESTING32, 2); (MUT_INTERESTING32BE, 2);
   (MUT_ARITH8_, 4); (MUT_ARITH8, 4); (MUT_ARITH16_, 2); (MUT_ARITH16BE_, 2);
   (MUT_ARITH16, 2); (MUT_ARITH16BE, 2); (MUT_ARITH32_, 2); (MUT_ARITH32BE_, 2);
   (MUT_ARITH32, 2); (MUT_ARITH32BE, 2); (MUT_RAND8, 4); (MUT_CLONE_COPY, 3);
   (MUT_CLONE_FIXED, 1); (MUT_OVERWRITE_COPY, 3); (MUT_OVERWRITE_FIXED, 1);
   (MUT_BYTEADD, 1); (MUT_BYTESUB, 1); (MUT_FLIP8, 1); (MUT_SWITCH, 2); (MUT_DEL, 8);
   (MUT_EXTRA_OVERWRITE, 2); (MUT_EXTRA_INSERT, 2); (MUT_AUTO_EXTRA_OVERWRITE, 2);
   (MUT_AUTO_EXTRA_INSERT, 2); (MUT_SPLICE_OVERWRITE, 2); (MUT_SPLICE_INSERT, 2)]%nat.

Definition full_splice_array : list mut := expand
  [(MUT_FLIPBIT, 4); (MUT_INTERESTING8, 4); (MUT_INTERESTING16, 2);
   (MUT_INTERESTING16BE, 2); (MUT_INTERESTING32, 2); (MUT_INTERESTING32BE, 2);
   (MUT_ARITH8_, 4); (MUT_ARITH8, 4); (MUT_ARITH16_, 2); (MUT_ARITH16BE_, 2);
   (MUT_ARITH16, 2); (MUT_ARITH16BE, 2); (MUT_ARITH32_, 2); (MUT_ARITH32BE_, 2);
   (MUT_ARITH32, 2); (MUT_ARITH32BE, 2); (MUT_RAND8, 4); (MUT_CLONE_COPY, 3);
   (MUT_CLONE_FIXED, 1); (MUT_OVERWRITE_COPY, 3); (MUT_OVERWRITE_FIXED, 1);
   (MUT_BYTEADD, 1); (MUT_BYTESUB, 1); (MUT_FLIP8, 1); (MUT_SWITCH, 2); (MUT_DEL, 8);
   (MUT_EXTRA_OVERWRITE, 2); (MUT_EXTRA_INSERT, 2); (MUT_AUTO_EXTRA_OVERWRITE, 2);
   (MUT_AUTO_EXTRA_INSERT, 2); (MUT_SPLICE_OVERWRITE, 4); (MUT_SPLICE_INSERT, 4)]%nat.

Definition mutation_strategy_exploration_text : list mut := expand
  [(MUT_FLIPBIT, 6); (MUT_INTERESTING8, 5); (MUT_INTERESTING16, 5);
   (MUT_INTERESTING16BE, 5); (MUT_INTERESTING32, 5); (MUT_INTERESTING32BE, 5);
   (MUT_ARITH8_, 6); (MUT_ARITH8, 6); (MUT_ARITH16_, 6); (MUT_ARITH16BE_, 6);
   (MUT_ARITH16, 6); (MUT_ARITH16BE, 6); (MUT_ARITH32_, 6); (MUT_ARITH32BE_, 6);
   (MUT_ARITH32, 6); (MUT_ARITH32BE, 6); (MUT_RAND8, 6); (MUT_CLONE_COPY, 13);
   (MUT_CLONE_FIXED, 10); (MUT_OVERWRITE_COPY, 9); (MUT_OVERWRITE_FIXED, 8);
   (MUT_BYTEADD, 6); (MUT_BYTESUB, 6); (MUT_FLIP8, 8); (MUT_SWITCH, 8); (MUT_DEL, 7);
   (MUT_SHUFFLE, 8); (MUT_DELONE, 7); (MUT_INSERTONE, 6); (MUT_ASCIINUM, 8);
   (MUT_INSERTASCIINUM, 8); (MUT_EXTRA_OVERWRITE, 8); (MUT_EXTRA_INSERT, 8);
   (MUT_AUTO_EXTRA_OVERWRITE, 6); (MUT_AUTO_EXTRA_INSERT, 6); (MUT_SPLICE_OVERWRITE, 9);
   (MUT_SPLICE_INSERT, 10)]%nat.

Definition mutation_strategy_exploration_binary : list mut := expand
  [(MUT_FLIPBIT, 7); (MUT_INTERESTING8, 6); (MUT_INTERESTING16, 6);
   (MUT_INTERESTING16BE, 6); (MUT_INTERESTING32, 6); (MUT_INTERESTING32BE, 6);
   (MUT_ARITH8_, 7); (MUT_ARITH8, 7); (MUT_ARITH16_, 6); (MUT_ARITH16BE_, 6);
   (MUT_ARITH16, 6); (MUT_ARITH16BE, 6); (MUT_ARITH32_, 6); (MUT_ARITH32BE_, 6);
   (MUT_ARITH32, 7); (MUT_ARITH32BE, 6); (MUT_RAND8, 6); (MUT_CLONE_COPY, 14);
   (MUT_CLONE_FIXED, 9); (MUT_OVERWRITE_COPY, 9); (MUT_OVERWRITE_FIXED, 7);
   (MUT_BYTEADD, 7); (MUT_BYTESUB, 7); (MUT_FLIP8, 10); (MUT_SWITCH, 7); (MUT_DEL, 6);
   (MUT_SHUFFLE, 6); (MUT_DELONE, 6); (MUT_INSERTONE, 6); (MUT_ASCIINUM, 6);
   (MUT_INSERTASCIINUM, 6); (MUT_EXTRA_OVERWRITE, 7); (MUT_EXTRA_INSERT, 7);
   (MUT_AUTO_EXTRA_OVERWRITE, 6); (MUT_AUTO_EXTRA_INSERT, 6); (MUT_SPLICE_OVERWRITE, 8);
   (MUT_SPLICE_INSERT, 10)]%nat.

Definition mutation_strategy_exploitation_text : list mut := expand
  [(MUT_FLIPBIT, 7); (MUT_INTERESTING8, 7); (MUT_INTERESTING16, 7);
   (MUT_INTERESTING16BE, 7); (MUT_INTERESTING32, 8); (MUT_INTERESTING32BE, 8);
   (MUT_ARITH8_, 6); (MUT_ARITH8, 7); (MUT_ARITH16_, 6); (MUT_ARITH16BE_, 7);
   (MUT_ARITH16, 7); (MUT_ARITH16BE, 7); (MUT_ARITH32_, 6); (MUT_ARITH32BE_, 6);
   (MUT_ARITH32, 6); (MUT_ARITH32BE, 7); (MUT_RAND8, 7); (MUT_CLONE_COPY, 9);
   (MUT_CLONE_FIXED, 8); (MUT_OVERWRITE_COPY, 6); (MUT_OVERWRITE_FIXED, 6);
   (MUT_BYTEADD, 7); (MUT_BYTESUB, 6); (MUT_FLIP8, 9); (MUT_SWITCH, 7); (MUT_DEL, 6);
   (MUT_SHUFFLE, 7); (MUT_DELONE, 5); (MUT_INSERTONE, 6); (MUT_ASCIINUM, 6);
   (MUT_INSERTASCIINUM, 8); (MUT_EXTRA_OVERWRITE, 7); (MUT_EXTRA_INSERT, 7);
   (MUT_AUTO_EXTRA_OVERWRITE, 7); (MUT_AUTO_EXTRA_INSERT, 7); (MUT_SPLICE_OVERWRITE, 7);
   (MUT_SPLICE_INSERT, 9)]%nat.

Definition mutation_strategy_exploitation_binary : list mut := expand
  [(MUT_FLIPBIT, 7); (MUT_INTERESTING8, 7); (MUT_INTERESTING16, 7);
   (MUT_INTERESTING16BE, 7); (MUT_INTERESTING32, 8); (MUT_INTERESTING32BE, 8);
   (MUT_ARITH8_, 6); (MUT_ARITH8, 7); (MUT_ARITH16_, 6); (MUT_ARITH16BE_, 7);
   (MUT_ARITH16, 7); (MUT_ARITH16BE, 7); (MUT_ARITH32_, 6); (MUT_ARITH32BE_, 7);
   (MUT_ARITH32, 7); (MUT_ARITH32BE, 7); (MUT_RAND8, 7); (MUT_CLONE_COPY, 9);
   (MUT_CLONE_FIXED, 8); (MUT_OVERWRITE_COPY, 6); (MUT_OVERWRITE_FIXED, 6);
   (MUT_BYTEADD, 7); (MUT_BYTESUB, 6); (MUT_FLIP8, 10); (MUT_SWITCH, 7); (MUT_DEL, 6);
   (MUT_SHUFFLE, 6); (MUT_DELONE, 5); (MUT_INSERTONE, 6); (MUT_ASCIINUM, 5);
   (MUT_INSERTASCIINUM, 7); (MUT_EXTRA_OVERWRITE, 7); (MUT_EXTRA_INSERT, 7);
   (MUT_AUTO_EXTRA_OVERWRITE, 7); (MUT_AUTO_EXTRA_INSERT, 7); (MUT_SPLICE_OVERWRITE, 7);
   (MUT_SPLICE_INSERT, 9)]%nat.

(** ** Interesting values *)

Definition INTERESTING_8 : list Z := [-128; -1; 0; 1; 16; 32; 64; 100; 127].
Definition INTERESTING_16 : list Z :=
  [-32768; -129; 128; 255; 256; 512; 1000; 1024; 4096; 32767].
Definition INTERESTING_32 : list Z :=
  [-2147483648; -100663046; -32769; 32768; 65535; 65536; 100663045; 2139095040; 2147483647].

Definition interesting_8 : list Z := INTERESTING_8.
Definition interesting_16 : list Z := INTERESTING_8 ++ INTERESTING_16.
Definition interesting_32 : list Z := INTERESTING_8 ++ INTERESTING_16 ++ INTERESTING_32.

Definition ARITH_MAX : Z := 35.
Definition HAVOC_BLK_SMALL : Z := 32.
Definition HAVOC_BLK_MEDIUM : Z := 128.
Definition HAVOC_BLK_LARGE : Z := 1500.
Definition HAVOC_BLK_XL : Z := 32768.

(** The table [afl_mutate] selects. *)
Definition mutation_array (is_text is_exploration : bool) : list mut :=
  if is_text then
    if is_exploration then mutation_strategy_exploration_text
    else mutation_strategy_exploitation_text
  else
    if is_exploration then mutation_strategy_exploration_binary
    else mutation_strategy_exploitation_binary.
(** The table and the bound of the draw that the havoc stage of [fuzz_one_original]
    selects. *)
Definition havoc_array (input_mode fuzz_mode : Z) : list mut * Z :=
  if input_mode =? 1 then
    if fuzz_mode =? 0 then (binary_array, MUT_BIN_ARRAY_SIZE)
    else (text_array, MUT_TXT_ARRAY_SIZE)
  else if input_mode =? 2 then
    if fuzz_mode =? 0 then (mutation_strategy_exploration_binary, MUT_STRATEGY_ARRAY_SIZE)
    else (mutation_strategy_exploitation_binary, MUT_STRATEGY_ARRAY_SIZE)
  else
    if fuzz_mode =? 0 then (binary_array, MUT_BIN_ARRAY_SIZE)
    else (text_array, MUT_TXT_ARRAY_SIZE).
