(* ===== verification/Mutations.v ===== *)
(** * Havoc mutations

    [choose_block_len] and [afl_mutate] of [include/afl-mutations.h], one definition
    for each case of the switch.  The code works on two allocations, the caller's
    [buf] and the static [tmp_buf]; an access outside of an allocation, or a [memcpy]
    between overlapping ranges, is the outcome [Fault]. *)

From S2P Require Import Prelude Rng MutTables.

(** ** The state and the monad *)

Inductive outcome (A : Type) :=
| Ok (a : A)
| Fault
| NoRand
| NoFuel.
Arguments Ok {A} a.
Arguments Fault {A}.
Arguments NoRand {A}.
Arguments NoFuel {A}.

Record mst (S : Type) := Mst {
  buf : list Z;
  len : Z;
  tmp_buf : list Z;
  src : S
}.
Arguments Mst {S}.
Arguments buf {S}.
Arguments len {S}.
Arguments tmp_buf {S}.
Arguments src {S}.

Record extra_data := Extra { data : list Z; extra_len : Z }.

(** What [afl_mutate] reads: its arguments and the fields of [afl]. *)
Record env := Env {
  max_len : Z;
  splice_buf : option (list Z);
  splice_len : Z;
  extras : list extra_data;
  extras_cnt : Z;
  a_extras : list extra_data;
  a_extras_cnt : Z;
  queue_cycle : Z;
  run_over10m : bool
}.

(** How a case of the switch ends: [break], or [goto retry_havoc_step]. *)
Inductive ctl := Break | Retry.

Definition M (S A : Type) : Type := mst S -> outcome (A * mst S).

#[export] Instance M_ret {S} : MRet (M S) := fun _ a s => Ok (a, s).
#[export] Instance M_bind {S} : MBind (M S) := fun _ _ k m s =>
  match m s with
  | Ok (a, s) => k a s
  | Fault => Fault
  | NoRand => NoRand
  | NoFuel => NoFuel
  end.

Section Havoc.
Context {S : Type} `{RandSource S}.

Definition gets {A} (f : mst S -> A) : M S A := fun s => Ok (f s, s).
Definition fault_opt {A} (o : option A) : M S A := fun s =>
  match o with
  | Some a => Ok (a, s)
  | None => Fault
  end.
Definition set_len (l : Z) : M S unit := fun s => Ok ((), Mst (buf s) l (tmp_buf s) (src s)).

(** [rand_below(afl, limit)]; the argument is converted to [u32]. *)
Definition rand (limit : Z) : M S Z := fun s =>
  match rs_below (u32 limit) (src s) with
  | Some (v, r) => Ok (v, Mst (buf s) (len s) (tmp_buf s) r)
  | None => NoRand
  end.

(** [rand_next(afl)] *)
Definition rand_u64 : M S Z := fun s =>
  let '(v, r) := rs_next (src s) in Ok (u64 v, Mst (buf s) (len s) (tmp_buf s) r).

Definition buf_load (off n : Z) : M S (list Z) := fun s =>
  match load (buf s) off n with
  | Some bs => Ok (bs, s)
  | None => Fault
  end.

Definition buf_store (off : Z) (bs : list Z) : M S unit := fun s =>
  match store (buf s) off bs with
  | Some b => Ok ((), Mst b (len s) (tmp_buf s) (src s))
  | None => Fault
  end.

Definition tmp_load (off n : Z) : M S (list Z) := fun s =>
  match load (tmp_buf s) off n with
  | Some bs => Ok (bs, s)
  | None => Fault
  end.

Definition tmp_store (off : Z) (bs : list Z) : M S unit := fun s =>
  match store (tmp_buf s) off bs with
  | Some t => Ok ((), Mst (buf s) (len s) t (src s))
  | None => Fault
  end.

(** [memmove] inside [buf]; [memcpy] inside [buf] needs disjoint ranges. *)
Definition buf_memmove (dst from n : Z) : M S unit :=
  bs ← buf_load from n; buf_store dst bs.

Definition buf_memcpy (dst from n : Z) : M S unit :=
  if (dst + n <=? from) || (from + n <=? dst) then buf_memmove dst from n
  else fault_opt None.

Definition rd (off : Z) : M S Z := bs ← buf_load off 1; fault_opt (head bs).
Definition wr (off v : Z) : M S unit := buf_store off [u8 v].
Definition upd (off : Z) (f : Z -> Z) : M S unit := v ← rd off; wr off (f v).
Definition rd16 (off : Z) : M S Z := bs ← buf_load off 2; mret (le_word bs).
Definition wr16 (off v : Z) : M S unit := buf_store off (le_bytes 2 (u16 v)).
Definition upd16 (off : Z) (f : Z -> Z) : M S unit := v ← rd16 off; wr16 off (f v).
Definition rd32 (off : Z) : M S Z := bs ← buf_load off 4; mret (le_word bs).
Definition wr32 (off v : Z) : M S unit := buf_store off (le_bytes 4 (u32 v)).
Definition upd32 (off : Z) (f : Z -> Z) : M S unit := v ← rd32 off; wr32 off (f v).

Definition SWAP16 (x : Z) : Z :=
  let r := u16 x in u16 (Z.lor (Z.shiftl r 8) (Z.shiftr r 8)).

Definition SWAP32 (x : Z) : Z :=
  let r := u32 x in
  u32 (Z.lor (Z.lor (Z.lor (u32 (Z.shiftl r 24)) (Z.shiftr r 24))
                    (Z.land (u32 (Z.shiftl r 8)) 0x00FF0000))
             (Z.land (Z.shiftr r 8) 0x0000FF00)).

(** ** Block lengths *)

Definition choose_block_len (e : env) (limit : Z) : M S Z :=
  let limit := u32 limit in
  let rlim := if run_over10m e then Z.min (queue_cycle e) 3 else 1 in
  c ← rand rlim;
  '(min_value, max_value) ←
    (if c =? 0 then mret (1, HAVOC_BLK_SMALL)
     else if c =? 1 then mret (HAVOC_BLK_SMALL, HAVOC_BLK_MEDIUM)
     else
       big ← rand 10;
       if z2b big then mret (HAVOC_BLK_MEDIUM, HAVOC_BLK_LARGE)
       else mret (HAVOC_BLK_LARGE, HAVOC_BLK_XL));
  let min_value := if min_value >=? limit then 1 else min_value in
  d ← rand (Z.min max_value limit - min_value + 1);
  mret (u32 (min_value + d)).

(** ** Edits of bytes and words *)

Definition mut_flipbit : M S ctl :=
  bit ← rand 8;
  l ← gets len;
  off ← rand l;
  upd off (fun b => Z.lxor b (Z.shiftl 1 bit));;
  mret Break.

Definition mut_interesting8 : M S ctl :=
  item ← rand (zlen interesting_8);
  l ← gets len;
  off ← rand l;
  v ← fault_opt (get interesting_8 item);
  wr off v;;
  mret Break.

Definition mut_interesting16 : M S ctl :=
  l ← gets len;
  if l <? 2 then mret Break
  else
    item ← rand (zlen interesting_16);
    off ← rand (l - 1);
    v ← fault_opt (get interesting_16 item);
    wr16 off v;;
    mret Break.

Definition mut_interesting16be : M S ctl :=
  l ← gets len;
  if l <? 2 then mret Break
  else
    item ← rand (zlen interesting_16);
    off ← rand (l - 1);
    v ← fault_opt (get interesting_16 item);
    wr16 off (SWAP16 v);;
    mret Break.

Definition mut_interesting32 : M S ctl :=
  l ← gets len;
  if l <? 4 then mret Break
  else
    item ← rand (zlen interesting_32);
    off ← rand (l - 3);
    v ← fault_opt (get interesting_32 item);
    wr32 off v;;
    mret Break.

Definition mut_interesting32be : M S ctl :=
  l ← gets len;
  if l <? 4 then mret Break
  else
    item ← rand (zlen interesting_32);
    off ← rand (l - 3);
    v ← fault_opt (get interesting_32 item);
    wr32 off (SWAP32 v);;
    mret Break.

Definition mut_arith8_sub : M S ctl :=
  r ← rand ARITH_MAX;
  let item := 1 + r in
  l ← gets len;
  off ← rand l;
  upd off (fun b => b - item);;
  mret Break.

Definition mut_arith8 : M S ctl :=
  r ← rand ARITH_MAX;
  let item := 1 + r in
  l ← gets len;
  off ← rand l;
  upd off (fun b => b + item);;
  mret Break.

Definition mut_arith16_sub : M S ctl :=
  l ← gets len;
  if l <? 2 then mret Break
  else
    pos ← rand (l - 1);
    r ← rand ARITH_MAX;
    let item := 1 + r in
    upd16 pos (fun v => v - item);;
    mret Break.

Definition mut_arith16be_sub : M S ctl :=
  l ← gets len;
  if l <? 2 then mret Break
  else
    pos ← rand (l - 1);
    r ← rand ARITH_MAX;
    let num := u16 (1 + r) in
    upd16 pos (fun v => SWAP16 (SWAP16 v - num));;
    mret Break.

Definition mut_arith16 : M S ctl :=
  l ← gets len;
  if l <? 2 then mret Break
  else
    pos ← rand (l - 1);
    r ← rand ARITH_MAX;
    let item := 1 + r in
    upd16 pos (fun v => v + item);;
    mret Break.

Definition mut_arith16be : M S ctl :=
  l ← gets len;
  if l <? 2 then mret Break
  else
    pos ← rand (l - 1);
    r ← rand ARITH_MAX;
    let num := u16 (1 + r) in
    upd16 pos (fun v => SWAP16 (SWAP16 v + num));;
    mret Break.

Definition mut_arith32_sub : M S ctl :=
  l ← gets len;
  if l <? 4 then mret Break
  else
    pos ← rand (l - 3);
    r ← rand ARITH_MAX;
    let item := 1 + r in
    upd32 pos (fun v => v - item);;
    mret Break.

Definition mut_arith32be_sub : M S ctl :=
  l ← gets len;
  if l <? 4 then mret Break
  else
    pos ← rand (l - 3);
    r ← rand ARITH_MAX;
    let num := 1 + r in
    upd32 pos (fun v => SWAP32 (SWAP32 v - num));;
    mret Break.

Definition mut_arith32 : M S ctl :=
  l ← gets len;
  if l <? 4 then mret Break
  else
    pos ← rand (l - 3);
    r ← rand ARITH_MAX;
    let item := 1 + r in
    upd32 pos (fun v => v + item);;
    mret Break.

Definition mut_arith32be : M S ctl :=
  l ← gets len;
  if l <? 4 then mret Break
  else
    pos ← rand (l - 3);
    r ← rand ARITH_MAX;
    let num := 1 + r in
    upd32 pos (fun v => SWAP32 (SWAP32 v + num));;
    mret Break.

Definition mut_rand8 : M S ctl :=
  l ← gets len;
  pos ← rand l;
  r ← rand 255;
  let item := 1 + r in
  upd pos (fun b => Z.lxor b item);;
  mret Break.

Definition mut_byteadd : M S ctl :=
  l ← gets len;
  off ← rand l;
  upd off (fun b => b + 1);;
  mret Break.

Definition mut_bytesub : M S ctl :=
  l ← gets len;
  off ← rand l;
  upd off (fun b => b - 1);;
  mret Break.

Definition mut_flip8 : M S ctl :=
  l ← gets len;
  off ← rand l;
  upd off (fun b => Z.lxor b 0xff);;
  mret Break.

(** ** Edits of blocks *)

(** The sequence head, inserted part, tail and copy back through [tmp_buf] that the
    inserting cases share: [blk] replaces the bytes from [off] to [off2]. *)
Definition via_tmp (off : Z) (blk : list Z) (off2 : Z) : M S unit :=
  l ← gets len;
  hd ← buf_load 0 off;
  tmp_store 0 hd;;
  tmp_store off blk;;
  tl ← buf_load off2 (u32 (l - off2));
  tmp_store (off + zlen blk) tl;;
  let l := u32 (l + u32 (zlen blk - (off2 - off))) in
  set_len l;;
  all ← tmp_load 0 l;
  buf_store 0 all.

(** A block of the data inserted, by [replace], elsewhere. *)
Definition clone_copy (replace : Z -> list Z -> Z -> M S unit) (e : env) : M S ctl :=
  l ← gets len;
  if u32 (l + HAVOC_BLK_XL) <? max_len e then
    clone_len ← choose_block_len e l;
    clone_from ← rand (l - clone_len + 1);
    clone_to ← rand l;
    blk ← buf_load clone_from clone_len;
    replace clone_to blk clone_to;;
    mret Break
  else if l <? 8 then mret Break
  else mret Retry.

Definition mut_clone_copy (e : env) : M S ctl := clone_copy via_tmp e.

(** The byte that fixed blocks repeat: a random one or the one before the block. *)
Definition fixed_item (to strat : Z) : M S Z :=
  let from := if z2b to then to - 1 else 0 in
  if z2b strat then rand 256 else rd from.

Definition clone_fixed (replace : Z -> list Z -> Z -> M S unit) (e : env) : M S ctl :=
  l ← gets len;
  if u32 (l + HAVOC_BLK_XL) <? max_len e then
    clone_len ← choose_block_len e HAVOC_BLK_XL;
    clone_to ← rand l;
    strat ← rand 2;
    item ← fixed_item clone_to strat;
    replace clone_to (replicate (Z.to_nat clone_len) (u8 item)) clone_to;;
    mret Break
  else if l <? 8 then mret Break
  else mret Retry.

Definition mut_clone_fixed (e : env) : M S ctl := clone_fixed via_tmp e.

Definition mut_overwrite_copy (e : env) : M S ctl :=
  l ← gets len;
  if l <? 2 then mret Break
  else
    copy_len ← choose_block_len e (l - 1);
    copy_from ← rand (l - copy_len + 1);
    copy_to ← rand (l - copy_len + 1);
    (if negb (copy_from =? copy_to) then buf_memmove copy_to copy_from copy_len
     else mret ());;
    mret Break.

Definition mut_overwrite_fixed (e : env) : M S ctl :=
  l ← gets len;
  if l <? 2 then mret Break
  else
    copy_len ← choose_block_len e (l - 1);
    copy_to ← rand (l - copy_len + 1);
    strat ← rand 2;
    item ← fixed_item copy_to strat;
    buf_store copy_to (replicate (Z.to_nat copy_len) (u8 item));;
    mret Break.

(** The do-while loops that draw again while the answer is [avoid]. *)
Fixpoint draw_other (fuel : nat) (limit avoid : Z) : M S Z :=
  match fuel with
  | O => fun _ => NoFuel
  | Datatypes.S fuel =>
      v ← rand limit;
      if v =? avoid then draw_other fuel limit avoid else mret v
  end.

Definition mut_switch (fuel : nat) (e : env) : M S ctl :=
  l ← gets len;
  if l <? 4 then mret Break
  else
    switch_from ← rand l;
    switch_to ← draw_other fuel l switch_from;
    let '(switch_len, to_end) :=
      if switch_from <? switch_to then (switch_to - switch_from, l - switch_to)
      else (switch_from - switch_to, l - switch_from) in
    switch_len ← choose_block_len e (Z.min switch_len to_end);
    backup ← buf_load switch_from switch_len;
    tmp_store 0 backup;;
    buf_memcpy switch_from switch_to switch_len;;
    saved ← tmp_load 0 switch_len;
    buf_store switch_to saved;;
    mret Break.

Definition mut_del (e : env) : M S ctl :=
  l ← gets len;
  if l <? 2 then mret Break
  else
    del_len ← choose_block_len e (l - 1);
    del_from ← rand (l - del_len + 1);
    buf_memmove del_from (del_from + del_len) (u32 (l - del_from - del_len));;
    set_len (u32 (l - del_len));;
    mret Break.

(** [for (i = blen - 1; i > 0; i--)]; [i] counts the remaining swaps. *)
Fixpoint shuffle_loop (fuel : nat) (off : Z) (i : nat) : M S unit :=
  match i with
  | O => mret ()
  | Datatypes.S i' =>
      j ← draw_other fuel (Z.of_nat i + 1) (Z.of_nat i);
      temp ← rd (off + Z.of_nat i);
      other ← rd (off + j);
      wr (off + Z.of_nat i) other;;
      wr (off + j) temp;;
      shuffle_loop fuel off i'
  end.

Definition mut_shuffle (fuel : nat) (e : env) : M S ctl :=
  l ← gets len;
  if l <? 4 then mret Break
  else
    blen ← choose_block_len e (l - 1);
    off ← rand (l - blen + 1);
    shuffle_loop fuel off (Z.to_nat (blen - 1));;
    mret Break.

Definition mut_delone : M S ctl :=
  l ← gets len;
  if l <? 2 then mret Break
  else
    let del_len := 1 in
    del_from ← rand (l - del_len + 1);
    buf_memmove del_from (del_from + del_len) (u32 (l - del_from - del_len));;
    set_len (u32 (l - del_len));;
    mret Break.

Definition insertone (replace : Z -> list Z -> Z -> M S unit) : M S ctl :=
  l ← gets len;
  if l <? 2 then mret Break
  else
    clone_to ← rand l;
    strat ← rand 2;
    item ← fixed_item clone_to strat;
    replace clone_to [u8 item] clone_to;;
    mret Break.

Definition mut_insertone : M S ctl := insertone via_tmp.

(** ** Decimal numbers *)

Definition isdigit (b : Z) : bool := (48 <=? b) && (b <=? 57).

(** [n] steps of [while (pos < limit && isdigit(buf[pos]) != want) ++pos], where
    [limit = pos + n]. *)
Fixpoint scan (n : nat) (want : bool) (pos : Z) : M S Z :=
  match n with
  | O => mret pos
  | Datatypes.S n =>
      b ← rd pos;
      if Bool.eqb (isdigit b) want then mret pos else scan n want (pos + 1)
  end.

(** [val = (val * 10) + buf[i] - '0'] over [n] bytes; [s64] wraps around. *)
Fixpoint digits_value (n : nat) (pos val : Z) : M S Z :=
  match n with
  | O => mret val
  | Datatypes.S n =>
      b ← rd pos;
      digits_value n (pos + 1) (s64 (val * 10 + b - 48))
  end.

(** Decimal digits of a non-negative number, most significant first. *)
Fixpoint dec_digits (fuel : nat) (v : Z) : list Z :=
  match fuel with
  | O => []
  | Datatypes.S fuel =>
      (if v <? 10 then [] else dec_digits fuel (v / 10)) ++ [48 + v mod 10]
  end.

(** What [snprintf] writes for [%lld] and [%llu]: 20 digits hold any [u64], and a
    buffer of [n] bytes takes [n - 1] characters. *)
Definition print_dec (v : Z) : list Z :=
  if v <? 0 then 45 :: dec_digits 20 (- v) else dec_digits 20 v.
Definition snprintf_dec (n : Z) (v : Z) : list Z := take (Z.to_nat (n - 1)) (print_dec v).

Definition sizeof_pointer : Z := 8.

Definition asciinum_val (strat val : Z) : M S Z :=
  if strat =? 0 then mret (s64 (val + 1))
  else if strat =? 1 then mret (s64 (val - 1))
  else if strat =? 2 then mret (s64 (val * 2))
  else if strat =? 3 then mret (Z.quot val 2)
  else if strat =? 4 then
    if z2b val && (u64 val <? 0x19999999) then
      r ← rand_u64; mret (s64 (r mod u64 (u64 val * 10)))
    else rand 256
  else if strat =? 5 then r ← rand 256; mret (s64 (val + r))
  else if strat =? 6 then r ← rand 256; mret (s64 (val - r))
  else if strat =? 7 then mret (Z.lnot val)
  else mret val.

(** The first digit at or after [off], else the first one before [off]. *)
Definition find_digit (l off : Z) : M S (option Z) :=
  p ← scan (Z.to_nat (l - off)) true off;
  if p =? l then
    cnt ← scan (Z.to_nat off) true 0;
    mret (if cnt =? off then None else Some cnt)
  else mret (Some p).

(** The number is printed into [size] bytes; [replace off num off2] puts it in place of the
    bytes from [off] to [off2]. *)
Definition asciinum (size : Z) (replace : Z -> list Z -> Z -> M S unit) : M S ctl :=
  l ← gets len;
  if l <? 4 then mret Break
  else
    off ← rand l;
    found ← find_digit l off;
    match found with
    | None => mret (if l <? 8 then Break else Retry)
    | Some off =>
        off2 ← scan (Z.to_nat (l - (off + 1))) false (off + 1);
        d0 ← rd off;
        val ← digits_value (Z.to_nat (off2 - (off + 1))) (off + 1) (d0 - 48);
        val ← (if z2b off then
                 b ← rd (off - 1);
                 mret (if b =? 45 then s64 (- val) else val)
               else mret val);
        strat ← rand 8;
        val ← asciinum_val strat val;
        let numbuf := snprintf_dec size val in
        (if off2 - off =? zlen numbuf then buf_store off numbuf
         else replace off numbuf off2);;
        mret Break
    end.

Definition mut_asciinum : M S ctl := asciinum sizeof_pointer via_tmp.

Definition mut_insertasciinum : M S ctl :=
  r ← rand 8;
  let ins_len := 1 + r in
  l ← gets len;
  pos ← rand l;
  if l <? u32 (pos + ins_len) then mret (if l <? 8 then Break else Retry)
  else
    val ← rand_u64;
    let numbuf := snprintf_dec 32 val in
    let val_len := zlen numbuf in
    let '(ins_len, off) :=
      if ins_len >? val_len then (val_len, 0) else (ins_len, val_len - ins_len) in
    bs ← fault_opt (load numbuf off ins_len);
    buf_store pos bs;;
    mret Break.

(** ** Dictionary tokens and splicing *)

Definition extra_overwrite (toks : list extra_data) (cnt : Z) : M S ctl :=
  if negb (z2b cnt) then mret Retry
  else
    use_extra ← rand cnt;
    x ← fault_opt (get toks use_extra);
    l ← gets len;
    if extra_len x >? l then mret Retry
    else
      insert_at ← rand (l - extra_len x + 1);
      bs ← fault_opt (load (data x) 0 (extra_len x));
      buf_store insert_at bs;;
      mret Break.

Definition extra_insert (e : env) (toks : list extra_data) (cnt : Z) : M S ctl :=
  if negb (z2b cnt) then mret Retry
  else
    use_extra ← rand cnt;
    x ← fault_opt (get toks use_extra);
    l ← gets len;
    if u32 (l + extra_len x) >=? max_len e then mret Retry
    else
      insert_at ← rand (l + 1);
      buf_memmove (insert_at + extra_len x) insert_at (u32 (l - insert_at));;
      bs ← fault_opt (load (data x) 0 (extra_len x));
      buf_store insert_at bs;;
      set_len (u32 (l + extra_len x));;
      mret Break.

Definition mut_extra_overwrite (e : env) : M S ctl := extra_overwrite (extras e) (extras_cnt e).
Definition mut_extra_insert (e : env) : M S ctl := extra_insert e (extras e) (extras_cnt e).
Definition mut_auto_extra_overwrite (e : env) : M S ctl :=
  extra_overwrite (a_extras e) (a_extras_cnt e).
Definition mut_auto_extra_insert (e : env) : M S ctl :=
  extra_insert e (a_extras e) (a_extras_cnt e).

(** A block of the [n] bytes at [sp] written over, or inserted by [replace]. *)
Definition splice_overwrite (e : env) (sp : list Z) (n : Z) : M S ctl :=
  copy_len ← choose_block_len e (n - 1);
  l ← gets len;
  let copy_len := if copy_len >? l then l else copy_len in
  copy_from ← rand (n - copy_len + 1);
  copy_to ← rand (l - copy_len + 1);
  bs ← fault_opt (load sp copy_from copy_len);
  buf_store copy_to bs;;
  mret Break.

Definition splice_insert (replace : Z -> list Z -> Z -> M S unit) (e : env) (sp : list Z) (n : Z) :
  M S ctl :=
  l ← gets len;
  clone_len ← choose_block_len e n;
  clone_from ← rand (n - clone_len + 1);
  clone_to ← rand (l + 1);
  bs ← fault_opt (load sp clone_from clone_len);
  replace clone_to bs clone_to;;
  mret Break.

Definition mut_splice_overwrite (e : env) : M S ctl :=
  match splice_buf e with
  | None => mret Retry
  | Some sp =>
      if negb (z2b (splice_len e)) then mret Retry
      else splice_overwrite e sp (splice_len e)
  end.

Definition mut_splice_insert (e : env) : M S ctl :=
  match splice_buf e with
  | None => mret Retry
  | Some sp =>
      if negb (z2b (splice_len e)) then mret Retry
      else
        l ← gets len;
        if u32 (l + HAVOC_BLK_XL) >=? max_len e then mret Retry
        else splice_insert via_tmp e sp (splice_len e)
  end.

(** ** One step, and the whole routine *)

(** The switch. *)
Definition apply_mut (fuel : nat) (e : env) (m : mut) : M S ctl :=
  match m with
  | MUT_FLIPBIT => mut_flipbit
  | MUT_INTERESTING8 => mut_interesting8
  | MUT_INTERESTING16 => mut_interesting16
  | MUT_INTERESTING16BE => mut_interesting16be
  | MUT_INTERESTING32 => mut_interesting32
  | MUT_INTERESTING32BE => mut_interesting32be
  | MUT_ARITH8_ => mut_arith8_sub
  | MUT_ARITH8 => mut_arith8
  | MUT_ARITH16_ => mut_arith16_sub
  | MUT_ARITH16BE_ => mut_arith16be_sub
  | MUT_ARITH16 => mut_arith16
  | MUT_ARITH16BE => mut_arith16be
  | MUT_ARITH32_ => mut_arith32_sub
  | MUT_ARITH32BE_ => mut_arith32be_sub
  | MUT_ARITH32 => mut_arith32
  | MUT_ARITH32BE => mut_arith32be
  | MUT_RAND8 => mut_rand8
  | MUT_CLONE_COPY => mut_clone_copy e
  | MUT_CLONE_FIXED => mut_clone_fixed e
  | MUT_OVERWRITE_COPY => mut_overwrite_copy e
  | MUT_OVERWRITE_FIXED => mut_overwrite_fixed e
  | MUT_BYTEADD => mut_byteadd
  | MUT_BYTESUB => mut_bytesub
  | MUT_FLIP8 => mut_flip8
  | MUT_SWITCH => mut_switch fuel e
  | MUT_DEL => mut_del e
  | MUT_SHUFFLE => mut_shuffle fuel e
  | MUT_DELONE => mut_delone
  | MUT_INSERTONE => mut_insertone
  | MUT_ASCIINUM => mut_asciinum
  | MUT_INSERTASCIINUM => mut_insertasciinum
  | MUT_EXTRA_OVERWRITE => mut_extra_overwrite e
  | MUT_EXTRA_INSERT => mut_extra_insert e
  | MUT_AUTO_EXTRA_OVERWRITE => mut_auto_extra_overwrite e
  | MUT_AUTO_EXTRA_INSERT => mut_auto_extra_insert e
  | MUT_SPLICE_OVERWRITE => mut_splice_overwrite e
  | MUT_SPLICE_INSERT => mut_splice_insert e
  end.

(** [retry_havoc_step]: draw an operator until one ends with [break]. *)
Fixpoint havoc_step (fuel : nat) (e : env) (table : list mut) (tries : nat) : M S unit :=
  match tries with
  | O => fun _ => NoFuel
  | Datatypes.S tries =>
      r ← rand MUT_STRATEGY_ARRAY_SIZE;
      m ← fault_opt (get table r);
      c ← apply_mut fuel e m;
      match c with
      | Break => mret ()
      | Retry => havoc_step fuel e table tries
      end
  end.

Fixpoint havoc_steps (fuel : nat) (e : env) (table : list mut) (steps : nat) : M S unit :=
  match steps with
  | O => mret ()
  | Datatypes.S steps => havoc_step fuel e table fuel;; havoc_steps fuel e table steps
  end.

(** The static [tmp_buf] is grown to [max_len] (a null [tmp_buf] has size 0); [block]
    is what [malloc] or [realloc] returns, and [None] is an allocation failure. *)
Definition grow_tmp (tmp : list Z) (max_len : Z) (block : option (list Z)) : option (list Z) :=
  if max_len >? zlen tmp then block else Some tmp.

(** Returns the new length, the buffers and the state of the generator; length 0 is
    the error return.  [b] is [None] for a null pointer. *)
Definition afl_mutate (fuel : nat) (e : env) (is_text is_exploration : bool) (steps : nat)
  (tmp : list Z) (block : option (list Z)) (b : option (list Z)) (l : Z) (r : S) :
  outcome (Z * mst S) :=
  match b with
  | None => Ok (0, Mst [] l tmp r)
  | Some b =>
      if l =? 0 then Ok (0, Mst b l tmp r)
      else
        match grow_tmp tmp (max_len e) block with
        | None => Ok (0, Mst b l tmp r)
        | Some t =>
            match havoc_steps fuel e (mutation_array is_text is_exploration) steps
                    (Mst b l t r) with
            | Ok (_, s) => Ok (len s, s)
            | Fault => Fault
            | NoRand => NoRand
            | NoFuel => NoFuel
            end
        end
  end.

End Havoc.
