(* ===== verification/MutationsFacts.v ===== *)
(** * Facts on havoc mutations

    A weakest-precondition calculus for the mutation monad, the abstract effect of
    each operator on the data of the buffer, and the proof that every case of the
    switch stays in its allocations and has its effect. *)

From S2P Require Import Prelude Rng MutTables Mutations.

(** ** Weakest preconditions

    [wp m Q s]: [m] does not fault from [s], and if it ends its result satisfies [Q]. *)
Definition wp {S A} (m : M S A) (Q : A -> mst S -> Prop) (s : mst S) : Prop :=
  match m s with
  | Ok (a, s') => Q a s'
  | Fault => False
  | NoRand | NoFuel => True
  end.

Definition with_src {S} (r : S) (s : mst S) : mst S := Mst (buf s) (len s) (tmp_buf s) r.
Definition with_buf {S} (b : list Z) (s : mst S) : mst S := Mst b (len s) (tmp_buf s) (src s).
Definition with_tmp {S} (t : list Z) (s : mst S) : mst S := Mst (buf s) (len s) t (src s).
Definition with_len {S} (l : Z) (s : mst S) : mst S := Mst (buf s) l (tmp_buf s) (src s).

(** Normalises the fields of updated states. *)
Ltac st_simpl :=
  cbn [with_src with_buf with_tmp with_len buf len tmp_buf src] in *.

Section Rules.
Context {S : Type} `{RandSource S}.
Implicit Types (s : mst S).

Lemma wp_ret {A} (a : A) Q s : Q a s -> wp (mret a) Q s.
Proof. done. Qed.

Lemma wp_bind {A B} (m : M S A) (k : A -> M S B) Q s :
  wp m (fun a => wp (k a) Q) s -> wp (m ≫= k) Q s.
Proof. unfold wp, mbind, M_bind. by destruct (m s) as [[a s']| | |]. Qed.

Lemma wp_mono {A} (m : M S A) (P Q : A -> mst S -> Prop) s :
  wp m P s -> (forall a s', P a s' -> Q a s') -> wp m Q s.
Proof. unfold wp. destruct (m s) as [[a s']| | |]; auto. Qed.

Lemma wp_gets {A} (f : mst S -> A) Q s : Q (f s) s -> wp (gets f) Q s.
Proof. done. Qed.

Lemma wp_set_len l Q s : Q () (with_len l s) -> wp (set_len l) Q s.
Proof. done. Qed.

Lemma wp_opt {A} (o : option A) a Q s : o = Some a -> Q a s -> wp (fault_opt o) Q s.
Proof. by intros ->. Qed.

Lemma wp_rand limit Q s :
  0 < limit < 2 ^ 32 ->
  (forall v r, 0 <= v < limit -> Q v (with_src r s)) -> wp (rand limit) Q s.
Proof.
  intros Hl HQ. unfold wp, rand. rewrite wrap_small by (unfold in_width; lia).
  destruct (rs_below limit (src s)) as [[v r]|] eqn:E; [|done]. apply HQ.
  destruct (decide (limit = 1)) as [->|].
  - apply rs_small in E; lia.
  - apply rs_range in E; lia.
Qed.

(** A draw from an empty range answers 0. *)
Lemma wp_rand_zero Q s : (forall r, Q 0 (with_src r s)) -> wp (rand 0) Q s.
Proof.
  intros HQ. unfold wp, rand. change (u32 0) with 0.
  destruct (rs_below 0 (src s)) as [[v r]|] eqn:E; [|done].
  apply rs_small in E; [|lia]. subst. apply HQ.
Qed.

Lemma wp_rand_u64 Q s : (forall v r, is_u64 v -> Q v (with_src r s)) -> wp rand_u64 Q s.
Proof.
  intros HQ. unfold wp, rand_u64. destruct (rs_next (src s)) as [v r].
  apply HQ. apply wrap_range. lia.
Qed.

Lemma wp_buf_load off n Q s :
  0 <= off -> 0 <= n -> off + n <= zlen (buf s) ->
  Q (slice (buf s) off n) s -> wp (buf_load off n) Q s.
Proof. intros. unfold wp, buf_load. by rewrite load_Some. Qed.

Lemma wp_buf_store off bs Q s :
  0 <= off -> off + zlen bs <= zlen (buf s) ->
  Q () (with_buf (splice_at (buf s) off bs) s) -> wp (buf_store off bs) Q s.
Proof. intros. unfold wp, buf_store. by rewrite store_Some. Qed.

Lemma wp_tmp_load off n Q s :
  0 <= off -> 0 <= n -> off + n <= zlen (tmp_buf s) ->
  Q (slice (tmp_buf s) off n) s -> wp (tmp_load off n) Q s.
Proof. intros. unfold wp, tmp_load. by rewrite load_Some. Qed.

Lemma wp_tmp_store off bs Q s :
  0 <= off -> off + zlen bs <= zlen (tmp_buf s) ->
  Q () (with_tmp (splice_at (tmp_buf s) off bs) s) -> wp (tmp_store off bs) Q s.
Proof. intros. unfold wp, tmp_store. by rewrite store_Some. Qed.

Lemma wp_memmove dst from n Q s :
  0 <= dst -> 0 <= from -> 0 <= n -> dst + n <= zlen (buf s) -> from + n <= zlen (buf s) ->
  Q () (with_buf (splice_at (buf s) dst (slice (buf s) from n)) s) ->
  wp (buf_memmove dst from n) Q s.
Proof.
  intros. apply wp_bind, wp_buf_load; [done..|].
  apply wp_buf_store; [done| |done]. by rewrite zlen_slice.
Qed.

Lemma wp_rd off Q s :
  0 <= off < zlen (buf s) ->
  (forall b, slice (buf s) off 1 = [b] -> Q b s) -> wp (rd off) Q s.
Proof.
  intros Ho HQ. apply wp_bind, wp_buf_load; [lia..|].
  destruct (slice_one (buf s) off) as (b&E&_); [lia|]. rewrite E. by apply HQ.
Qed.

Lemma wp_rd_lookup off b Q s :
  0 <= off -> buf s !! Z.to_nat off = Some b -> Q b s -> wp (rd off) Q s.
Proof.
  intros Ho Hb HQ. assert (0 <= off < zlen (buf s)) as Hr.
  { apply lookup_lt_Some in Hb. unfold zlen. lia. }
  apply wp_rd; [done|]. intros b' Hb'. destruct (slice_one (buf s) off Hr) as (b''&E&Hl).
  assert (b' = b) as -> by congruence. done.
Qed.

Lemma wp_wr off v Q s :
  0 <= off < zlen (buf s) -> is_u8 v ->
  Q () (with_buf (<[Z.to_nat off := v]> (buf s)) s) -> wp (wr off v) Q s.
Proof.
  intros Ho Hv HQ. unfold wp, wr, buf_store. rewrite wrap_small by done.
  change (store (buf s) off [v]) with (put (buf s) off v). by rewrite put_Some.
Qed.

(** The last draw of [choose_block_len], from a state that differs from [s] only in
    the generator. *)
Lemma wp_block_draw limit lo hi Q s s' :
  s' = with_src (src s') s -> 0 <= limit < 2 ^ 32 -> 1 <= lo <= hi -> hi <= HAVOC_BLK_XL ->
  (forall v r, 1 <= v <= Z.max 1 (Z.min limit HAVOC_BLK_XL) -> Q v (with_src r s)) ->
  wp (let lo := if lo >=? limit then 1 else lo in
      d ← rand (Z.min hi limit - lo + 1); mret (u32 (lo + d))) Q s'.
Proof.
  intros Es' Hl Hlo Hhi HQ. cbv zeta. apply wp_bind. unfold HAVOC_BLK_XL in *.
  assert (forall v r, 1 <= v <= Z.max 1 (Z.min limit 32768) -> Q v (with_src r s')) as HQ'.
  { intros v r Hv. rewrite Es'. by apply (HQ v r). }
  destruct (decide (limit = 0)) as [->|].
  { rewrite (proj2 (Z.geb_le lo 0)) by lia.
    replace (Z.min hi 0 - 1 + 1) with 0 by lia. apply wp_rand_zero.
    intros r. apply HQ'. unfold wrap. rewrite Z.mod_small; lia. }
  apply wp_rand.
  - destruct (lo >=? limit) eqn:E; b2p; lia.
  - intros v r Hv. apply wp_ret, HQ'. destruct (lo >=? limit) eqn:E; b2p;
      rewrite wrap_small by (unfold in_width; lia); lia.
Qed.

Lemma wp_choose_block_len e limit Q s :
  0 <= limit < 2 ^ 32 -> 0 <= queue_cycle e ->
  (forall v r, 1 <= v <= Z.max 1 (Z.min limit HAVOC_BLK_XL) -> Q v (with_src r s)) ->
  wp (choose_block_len e limit) Q s.
Proof.
  intros Hl Hq HQ. unfold choose_block_len. rewrite (wrap_small 32 limit) by done.
  assert (forall c r, wp ('(lo, hi) ←
      (if c =? 0 then mret (1, HAVOC_BLK_SMALL)
       else if c =? 1 then mret (HAVOC_BLK_SMALL, HAVOC_BLK_MEDIUM)
       else
         big ← rand 10;
         if z2b big then mret (HAVOC_BLK_MEDIUM, HAVOC_BLK_LARGE)
         else mret (HAVOC_BLK_LARGE, HAVOC_BLK_XL));
      let lo := if lo >=? limit then 1 else lo in
      d ← rand (Z.min hi limit - lo + 1); mret (u32 (lo + d))) Q (with_src r s)) as Hsel.
  { intros c r. apply wp_bind.
    destruct (c =? 0); [by apply wp_ret, (wp_block_draw limit 1 HAVOC_BLK_SMALL Q s)|].
    destruct (c =? 1);
      [by apply wp_ret, (wp_block_draw limit HAVOC_BLK_SMALL HAVOC_BLK_MEDIUM Q s)|].
    apply wp_bind, wp_rand; [lia|]. intros big r' _. destruct (z2b big); apply wp_ret.
    - by apply (wp_block_draw limit HAVOC_BLK_MEDIUM HAVOC_BLK_LARGE Q s).
    - by apply (wp_block_draw limit HAVOC_BLK_LARGE HAVOC_BLK_XL Q s). }
  apply wp_bind. set (rlim := if run_over10m e then Z.min (queue_cycle e) 3 else 1).
  destruct (decide (rlim = 0)) as [->|].
  - apply wp_rand_zero. intros r. apply Hsel.
  - apply wp_rand; [unfold rlim in *; destruct (run_over10m e); lia|].
    intros v r _. apply Hsel.
Qed.

End Rules.

(** ** Effects on the data *)

(** The data of the state: the first [len] bytes of [buf]. *)
Definition dat {S} (s : mst S) : list Z := slice (buf s) 0 (len s).

(** [d'] is [d] with a block written over, inserted, or put in place of the bytes
    from [off] to [off2]. *)
Definition replaced (d : list Z) (off : Z) (blk : list Z) (off2 : Z) : list Z :=
  slice d 0 off ++ blk ++ slice d off2 (zlen d - off2).

Definition over (d d' : list Z) (P : Z -> list Z -> Prop) : Prop :=
  exists off blk, 0 <= off /\ off + zlen blk <= zlen d /\ P off blk /\ d' = splice_at d off blk.

Definition ins (d d' : list Z) (P : Z -> list Z -> Prop) : Prop :=
  exists off blk, 0 <= off <= zlen d /\ P off blk /\ d' = replaced d off blk off.

Definition del (d d' : list Z) (P : Z -> Prop) : Prop :=
  exists off n, 0 <= off /\ off + n <= zlen d /\ P n /\ d' = replaced d off [] (off + n).

(** One byte, or a word in little- or big-endian order, changed by [f]. *)
Definition byte_by (d : list Z) (f : Z -> Z) (off : Z) (blk : list Z) : Prop :=
  exists b, slice d off 1 = [b] /\ blk = [f b mod 256].
Definition le_by (n : nat) (d : list Z) (f : Z -> Z) (off : Z) (blk : list Z) : Prop :=
  blk = le_bytes n (f (le_word (slice d off (Z.of_nat n)))).
Definition be_by (n : nat) (d : list Z) (f : Z -> Z) (off : Z) (blk : list Z) : Prop :=
  blk = rev (le_bytes n (f (le_word (rev (slice d off (Z.of_nat n)))))).

(** A block of one repeated byte. *)
Definition fixed_block (blk : list Z) : Prop :=
  exists n b, blk = replicate n b /\ is_u8 b.

Definition is_delta (k : Z) : Prop := 1 <= k <= ARITH_MAX.
Definition too_short (n : Z) (d d' : list Z) : Prop := zlen d < n /\ d' = d.

(** The tokens of a dictionary. *)
Definition token (toks : list extra_data) (blk : list Z) : Prop :=
  exists x, x ∈ toks /\ blk = slice (data x) 0 (extra_len x).

(** The bytes from [off] to [off2] are a maximal run of digits on their right. *)
Definition digit_run (d : list Z) (off off2 : Z) : Prop :=
  0 <= off < off2 /\ off2 <= zlen d /\
  Forall (fun b => isdigit b = true) (slice d off (off2 - off)) /\
  (off2 < zlen d -> exists b, slice d off2 1 = [b] /\ isdigit b = false).

(** Two disjoint blocks exchanged. *)
Definition exchanged (d : list Z) (a b n : Z) : list Z :=
  slice d 0 a ++ slice d b n ++ slice d (a + n) (b - (a + n)) ++ slice d a n ++
  slice d (b + n) (zlen d - (b + n)).

Definition effect (e : env) (m : mut) (d d' : list Z) : Prop :=
  match m with
  | MUT_FLIPBIT => over d d' (fun off blk =>
      exists bit, 0 <= bit < 8 /\ byte_by d (fun b => Z.lxor b (2 ^ bit)) off blk)
  | MUT_INTERESTING8 => over d d' (fun off blk =>
      exists v, v ∈ interesting_8 /\ byte_by d (fun _ => v) off blk)
  | MUT_INTERESTING16 => too_short 2 d d' \/ over d d' (fun off blk =>
      exists v, v ∈ interesting_16 /\ le_by 2 d (fun _ => v) off blk)
  | MUT_INTERESTING16BE => too_short 2 d d' \/ over d d' (fun off blk =>
      exists v, v ∈ interesting_16 /\ be_by 2 d (fun _ => v) off blk)
  | MUT_INTERESTING32 => too_short 4 d d' \/ over d d' (fun off blk =>
      exists v, v ∈ interesting_32 /\ le_by 4 d (fun _ => v) off blk)
  | MUT_INTERESTING32BE => too_short 4 d d' \/ over d d' (fun off blk =>
      exists v, v ∈ interesting_32 /\ be_by 4 d (fun _ => v) off blk)
  | MUT_ARITH8_ => over d d' (fun off blk =>
      exists k, is_delta k /\ byte_by d (fun b => b - k) off blk)
  | MUT_ARITH8 => over d d' (fun off blk =>
      exists k, is_delta k /\ byte_by d (fun b => b + k) off blk)
  | MUT_ARITH16_ => too_short 2 d d' \/ over d d' (fun off blk =>
      exists k, is_delta k /\ le_by 2 d (fun v => v - k) off blk)
  | MUT_ARITH16BE_ => too_short 2 d d' \/ over d d' (fun off blk =>
      exists k, is_delta k /\ be_by 2 d (fun v => v - k) off blk)
  | MUT_ARITH16 => too_short 2 d d' \/ over d d' (fun off blk =>
      exists k, is_delta k /\ le_by 2 d (fun v => v + k) off blk)
  | MUT_ARITH16BE => too_short 2 d d' \/ over d d' (fun off blk =>
      exists k, is_delta k /\ be_by 2 d (fun v => v + k) off blk)
  | MUT_ARITH32_ => too_short 4 d d' \/ over d d' (fun off blk =>
      exists k, is_delta k /\ le_by 4 d (fun v => v - k) off blk)
  | MUT_ARITH32BE_ => too_short 4 d d' \/ over d d' (fun off blk =>
      exists k, is_delta k /\ be_by 4 d (fun v => v - k) off blk)
  | MUT_ARITH32 => too_short 4 d d' \/ over d d' (fun off blk =>
      exists k, is_delta k /\ le_by 4 d (fun v => v + k) off blk)
  | MUT_ARITH32BE => too_short 4 d d' \/ over d d' (fun off blk =>
      exists k, is_delta k /\ be_by 4 d (fun v => v + k) off blk)
  | MUT_RAND8 => over d d' (fun off blk =>
      exists k, 1 <= k <= 255 /\ byte_by d (fun b => Z.lxor b k) off blk)
  | MUT_CLONE_COPY => too_short 8 d d' \/ ins d d' (fun _ blk =>
      exists from n, 1 <= n <= HAVOC_BLK_XL /\ 0 <= from /\ from + n <= zlen d /\
        blk = slice d from n)
  | MUT_CLONE_FIXED => too_short 8 d d' \/ ins d d' (fun _ blk =>
      1 <= zlen blk <= HAVOC_BLK_XL /\ fixed_block blk)
  | MUT_OVERWRITE_COPY => too_short 2 d d' \/ over d d' (fun _ blk =>
      exists from n, 1 <= n < zlen d /\ 0 <= from /\ from + n <= zlen d /\
        blk = slice d from n)
  | MUT_OVERWRITE_FIXED => too_short 2 d d' \/ over d d' (fun _ blk =>
      1 <= zlen blk < zlen d /\ fixed_block blk)
  | MUT_BYTEADD => over d d' (byte_by d (fun b => b + 1))
  | MUT_BYTESUB => over d d' (byte_by d (fun b => b - 1))
  | MUT_FLIP8 => over d d' (byte_by d (fun b => 255 - b))
  | MUT_SWITCH => too_short 4 d d' \/
      exists a b n, 1 <= n /\ 0 <= a /\ a + n <= b /\ b + n <= zlen d /\
        d' = exchanged d a b n
  | MUT_DEL => too_short 2 d d' \/ del d d' (fun n => 1 <= n < zlen d)
  | MUT_SHUFFLE => too_short 4 d d' \/ over d d' (fun off blk =>
      1 <= zlen blk < zlen d /\ blk ≡ₚ slice d off (zlen blk))
  | MUT_DELONE => too_short 2 d d' \/ del d d' (fun n => n = 1)
  | MUT_INSERTONE => too_short 2 d d' \/ ins d d' (fun _ blk =>
      zlen blk = 1 /\ fixed_block blk)
  | MUT_ASCIINUM => too_short 8 d d' \/
      exists off off2 v, digit_run d off off2 /\
        d' = replaced d off (snprintf_dec sizeof_pointer v) off2
  | MUT_INSERTASCIINUM => too_short 8 d d' \/ over d d' (fun _ blk =>
      1 <= zlen blk <= 8 /\ Forall (fun b => isdigit b = true) blk)
  | MUT_EXTRA_OVERWRITE => over d d' (fun _ blk => token (extras e) blk)
  | MUT_EXTRA_INSERT => ins d d' (fun _ blk => token (extras e) blk)
  | MUT_AUTO_EXTRA_OVERWRITE => over d d' (fun _ blk => token (a_extras e) blk)
  | MUT_AUTO_EXTRA_INSERT => ins d d' (fun _ blk => token (a_extras e) blk)
  | MUT_SPLICE_OVERWRITE => over d d' (fun _ blk =>
      exists sp from n, splice_buf e = Some sp /\ 0 <= from /\ from + n <= splice_len e /\
        1 <= n /\ blk = slice sp from n)
  | MUT_SPLICE_INSERT => ins d d' (fun _ blk =>
      exists sp from n, splice_buf e = Some sp /\ 0 <= from /\ from + n <= splice_len e /\
        1 <= n <= HAVOC_BLK_XL /\ blk = slice sp from n)
  end.

(** ** Well-formed states, and what an operator guarantees *)

Record tok_ok (x : extra_data) : Prop := {
  to_bytes : bytes_ok (data x);
  to_len : 0 <= extra_len x <= zlen (data x);
  to_small : extra_len x < 2 ^ 30
}.

Record dict_ok (toks : list extra_data) (cnt : Z) : Prop := {
  di_cnt : 0 <= cnt <= zlen toks;
  di_width : cnt < 2 ^ 32;
  di_toks : Forall tok_ok toks
}.

Record wf_env (e : env) : Prop := {
  we_cycle : 0 <= queue_cycle e;
  we_max : 0 <= max_len e <= 2 ^ 30;
  we_extras : dict_ok (extras e) (extras_cnt e);
  we_a_extras : dict_ok (a_extras e) (a_extras_cnt e);
  we_splice : forall sp, splice_buf e = Some sp ->
    bytes_ok sp /\ 0 <= splice_len e <= zlen sp /\ splice_len e < 2 ^ 30
}.

(** The data is inside [buf]. *)
Record wf_data {S} (s : mst S) : Prop := {
  wd_len : 1 <= len s;
  wd_buf : len s <= zlen (buf s);
  wd_width : zlen (buf s) < 2 ^ 31;
  wd_bytes : bytes_ok (dat s)
}.

(** Both allocations hold [max_len] bytes and leave six bytes after the data. *)
Record wf_st {S} (e : env) (s : mst S) : Prop := {
  ws_data : wf_data s;
  ws_buf : len s + 6 <= zlen (buf s);
  ws_tmp : len s + 6 <= zlen (tmp_buf s);
  ws_max_buf : max_len e <= zlen (buf s);
  ws_max_tmp : max_len e <= zlen (tmp_buf s)
}.

(** How far an operator can exceed [max_len]. *)
Definition growth (m : mut) : Z :=
  match m with
  | MUT_INSERTONE => 1
  | MUT_ASCIINUM => 6
  | _ => 0
  end.

Record post {S} (e : env) (m : mut) (s : mst S) (c : ctl) (s' : mst S) : Prop := {
  po_buf : zlen (buf s') = zlen (buf s);
  po_tmp : zlen (tmp_buf s') = zlen (tmp_buf s);
  po_len : 1 <= len s' <= Z.max (len s) (max_len e) + growth m;
  po_in : len s' <= zlen (buf s');
  po_bytes : bytes_ok (dat s');
  po_effect : match c with
              | Break => effect e m (dat s) (dat s')
              | Retry => len s' = len s /\ dat s' = dat s
              end
}.

(** ** From buffers to data *)

Lemma slice_slice {A} (b : list A) l off n :
  0 <= off -> 0 <= n -> off + n <= l -> slice (slice b 0 l) off n = slice b off n.
Proof.
  intros. rewrite slice_0. unfold slice. rewrite skipn_firstn_comm, take_take.
  f_equal. lia.
Qed.

Lemma dat_with_src {S} (s : mst S) r : dat (with_src r s) = dat s.
Proof. done. Qed.

Lemma with_src_src {S} (s : mst S) r r' : with_src r (with_src r' s) = with_src r s.
Proof. done. Qed.

Lemma with_src_self {S} (s : mst S) : with_src (src s) s = s.
Proof. by destruct s. Qed.

Lemma dat_with_tmp {S} (s : mst S) t : dat (with_tmp t s) = dat s.
Proof. done. Qed.

Lemma zlen_dat {S} (s : mst S) : 0 <= len s <= zlen (buf s) -> zlen (dat s) = len s.
Proof. intros. apply zlen_slice; lia. Qed.

Lemma slice_dat {S} (s : mst S) off n :
  0 <= off -> 0 <= n -> off + n <= len s -> slice (dat s) off n = slice (buf s) off n.
Proof. apply slice_slice. Qed.

Lemma splice_slice {A} (b : list A) l off blk :
  0 <= off -> off + zlen blk <= l <= zlen b ->
  slice (splice_at b off blk) 0 l = splice_at (slice b 0 l) off blk.
Proof.
  intros H0 H1. unfold zlen in H1. rewrite !slice_0. unfold splice_at.
  rewrite firstn_app, length_take, Nat.min_l by lia.
  rewrite take_take, (Nat.min_r (Z.to_nat l)) by lia.
  rewrite firstn_app, (take_ge blk) by lia.
  rewrite take_take, (Nat.min_l (Z.to_nat off)) by lia.
  f_equal. f_equal. rewrite skipn_firstn_comm. f_equal. lia.
Qed.

Lemma slice_app_l {A} (l k : list A) off n :
  0 <= off -> 0 <= n -> off + n <= zlen l -> slice (l ++ k) off n = slice l off n.
Proof.
  intros. unfold slice, zlen in *. rewrite drop_app_le by lia.
  rewrite take_app_le; [done|]. rewrite length_drop. lia.
Qed.

Lemma slice_splice_before {A} (b : list A) off blk n :
  0 <= n -> n <= off -> off + zlen blk <= zlen b ->
  slice (splice_at b off blk) 0 n = slice b 0 n.
Proof.
  intros. unfold splice_at. pose proof (zlen_nonneg blk).
  assert (zlen (take (Z.to_nat off) b) = off) by (unfold zlen in *; rewrite length_take; lia).
  rewrite slice_app_l by lia. change (take (Z.to_nat off) b) with (slice b 0 off).
  apply slice_slice; lia.
Qed.

(** The prefix up to the end of a store. *)
Lemma slice_splice_upto {A} (b : list A) off blk :
  0 <= off -> off + zlen blk <= zlen b ->
  slice (splice_at b off blk) 0 (off + zlen blk) = slice b 0 off ++ blk.
Proof.
  intros. pose proof (zlen_nonneg blk).
  rewrite <- (slice_app _ 0 off (zlen blk)) by lia.
  rewrite slice_splice_before by lia. f_equal. by apply slice_splice_same.
Qed.

Lemma slice_splice_after {A} (b : list A) off blk o n :
  0 <= off -> off + zlen blk <= zlen b -> off + zlen blk <= o -> 0 <= n ->
  slice (splice_at b off blk) o n = slice b o n.
Proof.
  unfold slice, splice_at, zlen. intros. f_equal.
  rewrite drop_app_ge by (rewrite length_take; lia).
  rewrite drop_app_ge by (rewrite length_take; lia).
  rewrite drop_drop, length_take. f_equal. lia.
Qed.

Lemma splice_at_app {A} (l x k y : list A) :
  length x = length y -> splice_at (l ++ x ++ k) (zlen l) y = l ++ y ++ k.
Proof.
  intros Hl. unfold splice_at, zlen. rewrite Nat2Z.id, take_app_length, <- Hl, <- drop_drop.
  by rewrite !drop_app_length.
Qed.

Lemma splice_at_id {A} (d : list A) off n :
  0 <= off -> 0 <= n -> off + n <= zlen d -> splice_at d off (slice d off n) = d.
Proof.
  intros. assert (zlen (slice d off n) = n) by (by apply zlen_slice).
  unfold splice_at. replace (Z.to_nat off + length (slice d off n))%nat
    with (Z.to_nat off + Z.to_nat n)%nat by (unfold zlen in *; lia).
  unfold slice. by rewrite <- drop_drop, !take_drop.
Qed.

Lemma slices_five (d : list Z) a b n :
  0 <= a -> 1 <= n -> a + n <= b -> b + n <= zlen d ->
  d = slice d 0 a ++ slice d a n ++ slice d (a + n) (b - (a + n)) ++ slice d b n ++
      slice d (b + n) (zlen d - (b + n)).
Proof.
  intros. rewrite (slice_app d b n) by lia.
  replace b with (a + n + (b - (a + n))) at 2 by lia. rewrite slice_app by lia.
  rewrite slice_app by lia. rewrite <- (Z.add_0_l a) at 2. rewrite slice_app by lia.
  symmetry. apply slice_full. lia.
Qed.

Lemma exchange_splices (d : list Z) a b n :
  0 <= a -> 1 <= n -> a + n <= b -> b + n <= zlen d ->
  splice_at (splice_at d a (slice d b n)) b (slice d a n) = exchanged d a b n /\
  splice_at (splice_at d b (slice d a n)) a (slice d b n) = exchanged d a b n.
Proof.
  intros Ha Hn Hab Hb. unfold exchanged.
  assert (zlen (slice d 0 a) = a) as HA by (apply zlen_slice; lia).
  assert (zlen (slice d a n) = n) as HX by (apply zlen_slice; lia).
  assert (zlen (slice d (a + n) (b - (a + n))) = b - (a + n)) as HB by (apply zlen_slice; lia).
  assert (zlen (slice d b n) = n) as HY by (apply zlen_slice; lia).
  pose proof (slices_five d a b n Ha Hn Hab Hb) as Ed. revert Ed HA HX HB HY.
  generalize (slice d 0 a) as A, (slice d a n) as X, (slice d (a + n) (b - (a + n))) as B,
    (slice d b n) as Y, (slice d (b + n) (zlen d - (b + n))) as C.
  intros A X B Y C -> HA HX HB HY. assert (length X = length Y) as Hl by (unfold zlen in *; lia).
  assert (zlen (A ++ X ++ B) = b) as HAXB by (rewrite !zlen_app; lia).
  assert (zlen (A ++ Y ++ B) = b) as HAYB by (rewrite !zlen_app; lia).
  split.
  - rewrite <- HA at 1. rewrite splice_at_app by done.
    replace (A ++ Y ++ B ++ Y ++ C) with ((A ++ Y ++ B) ++ Y ++ C) by (by rewrite <- !app_assoc).
    rewrite <- HAYB. rewrite splice_at_app by done. by rewrite <- !app_assoc.
  - replace (A ++ X ++ B ++ Y ++ C) with ((A ++ X ++ B) ++ Y ++ C) by (by rewrite <- !app_assoc).
    rewrite <- HAXB at 1. rewrite splice_at_app by done. rewrite <- !app_assoc.
    rewrite <- HA at 1. by rewrite splice_at_app.
Qed.

Lemma Forall_replaced (P : Z -> Prop) d off blk off2 :
  Forall P d -> Forall P blk -> Forall P (replaced d off blk off2).
Proof. intros. unfold replaced. rewrite !Forall_app. auto with afl. Qed.

Lemma zlen_replaced d off blk off2 :
  0 <= off <= off2 -> off2 <= zlen d ->
  zlen (replaced d off blk off2) = zlen d + zlen blk - (off2 - off).
Proof. intros. unfold replaced. rewrite !zlen_app, !zlen_slice by lia. lia. Qed.

Section Blocks.
Context {S : Type} `{RandSource S}.
Implicit Types (s : mst S).

(** Writing a block inside the data. *)
Lemma post_over e m s off blk t r :
  wf_data s -> zlen t = zlen (tmp_buf s) ->
  0 <= off -> off + zlen blk <= len s -> bytes_ok blk ->
  effect e m (dat s) (splice_at (dat s) off blk) ->
  post e m s Break (Mst (splice_at (buf s) off blk) (len s) t r).
Proof.
  intros [] Ht Ho Hb Hok He.
  assert (dat (Mst (splice_at (buf s) off blk) (len s) t r) = splice_at (dat s) off blk) as Ed
    by (apply splice_slice; lia).
  split; cbn [buf tmp_buf len].
  - apply zlen_splice_at; lia.
  - done.
  - destruct m; cbn; lia.
  - rewrite zlen_splice_at; lia.
  - rewrite Ed. auto with afl.
  - by rewrite Ed.
Qed.

(** An operator that leaves the data alone. *)
Lemma post_same e m s c s' :
  wf_data s -> buf s' = buf s -> len s' = len s -> tmp_buf s' = tmp_buf s ->
  (c = Break -> effect e m (dat s) (dat s)) -> post e m s c s'.
Proof.
  intros [] Hb Hl Ht He. assert (dat s' = dat s) as Ed by (unfold dat; by rewrite Hb, Hl).
  split; rewrite ?Hb, ?Hl, ?Ht, ?Ed; try done; [destruct m; cbn; lia|]. destruct c; auto.
Qed.

Lemma wp_via_tmp off blk off2 Q s :
  0 <= off <= off2 -> off2 <= len s -> len s <= zlen (buf s) -> zlen (buf s) < 2 ^ 31 ->
  len s + zlen blk - (off2 - off) <= zlen (buf s) ->
  len s + zlen blk - (off2 - off) <= zlen (tmp_buf s) ->
  (forall b t, zlen b = zlen (buf s) -> zlen t = zlen (tmp_buf s) ->
     slice b 0 (len s + zlen blk - (off2 - off)) = replaced (dat s) off blk off2 ->
     Q () (Mst b (len s + zlen blk - (off2 - off)) t (src s))) ->
  wp (via_tmp off blk off2) Q s.
Proof.
  intros Ho H2 Hl Hw Hb Ht HQ. pose proof (zlen_nonneg blk) as Hn.
  remember (len s + zlen blk - (off2 - off)) as l' eqn:El'.
  assert (u32 (len s + u32 (zlen blk - (off2 - off))) = l') as El.
  { unfold wrap. rewrite Z.add_mod_idemp_r by done.
    rewrite Z.mod_small; lia. }
  unfold via_tmp. apply wp_bind, wp_gets, wp_bind, wp_buf_load; [lia..|].
  set (hd := slice (buf s) 0 off). assert (zlen hd = off) as Eh by (apply zlen_slice; lia).
  apply wp_bind, wp_tmp_store; [lia..|]. apply wp_bind, wp_tmp_store; st_simpl;
    [lia|zlia|].
  rewrite (wrap_small 32 (len s - off2)) by (unfold in_width; lia).
  apply wp_bind, wp_buf_load; st_simpl; [lia..|].
  set (tl := slice (buf s) off2 _). assert (zlen tl = len s - off2) as Etl by (apply zlen_slice; lia).
  apply wp_bind, wp_tmp_store; st_simpl;
    [lia|zlia|].
  rewrite El. apply wp_bind, wp_set_len. st_simpl.
  set (t := splice_at _ (off + zlen blk) tl).
  assert (zlen t = zlen (tmp_buf s)) as Et
    by (unfold t; zlia).
  apply wp_bind, wp_tmp_load; st_simpl; [lia..|].
  assert (slice t 0 l' = replaced (dat s) off blk off2) as Ec.
  { unfold t. replace l' with (off + zlen blk + zlen tl) by lia.
    rewrite slice_splice_upto by zlia.
    rewrite slice_splice_upto by zlia.
    unfold replaced. rewrite <- app_assoc. rewrite zlen_dat by lia.
    rewrite !slice_dat by lia. f_equal.
    pose proof (slice_splice_same (tmp_buf s) 0 hd) as Hh. rewrite Eh in Hh. apply Hh; lia. }
  assert (zlen (slice t 0 l') = l') by (apply zlen_slice; lia).
  apply wp_buf_store; st_simpl; [lia..|]. apply HQ.
  - apply zlen_splice_at; lia.
  - done.
  - rewrite <- Ec. transitivity (slice (splice_at (buf s) 0 (slice t 0 l')) 0 (zlen (slice t 0 l'))).
    + f_equal. lia.
    + apply slice_splice_same; lia.
Qed.

Lemma wp_upd off f Q s :
  0 <= off < len s -> len s <= zlen (buf s) ->
  (forall b, slice (dat s) off 1 = [b] ->
     Q () (with_buf (splice_at (buf s) off [f b mod 256]) s)) ->
  wp (upd off f) Q s.
Proof.
  intros ? ? HQ. apply wp_bind, wp_rd; [lia|]. intros b Hb.
  apply wp_buf_store; [lia|change (zlen [_]) with 1; lia|].
  rewrite <- slice_dat in Hb by lia. by apply HQ.
Qed.

Lemma le_bytes_wrap n w z : w = 8 * Z.of_nat n -> le_bytes n (wrap w z) = le_bytes n z.
Proof.
  intros ->. rewrite <- (le_word_le_bytes n z).
  rewrite <- (length_le_bytes n z) at 1. apply le_bytes_le_word, le_bytes_ok.
Qed.

Lemma wp_upd16 off f Q s :
  0 <= off -> off + 2 <= len s -> len s <= zlen (buf s) ->
  Q () (with_buf (splice_at (buf s) off (le_bytes 2 (f (le_word (slice (dat s) off 2))))) s) ->
  wp (upd16 off f) Q s.
Proof.
  intros. apply wp_bind, wp_bind, wp_buf_load; [lia..|]. apply wp_ret, wp_buf_store;
    [lia|rewrite zlen_le_bytes; lia|].
  rewrite le_bytes_wrap by done. rewrite slice_dat in * by lia. done.
Qed.

Lemma wp_upd32 off f Q s :
  0 <= off -> off + 4 <= len s -> len s <= zlen (buf s) ->
  Q () (with_buf (splice_at (buf s) off (le_bytes 4 (f (le_word (slice (dat s) off 4))))) s) ->
  wp (upd32 off f) Q s.
Proof.
  intros. apply wp_bind, wp_bind, wp_buf_load; [lia..|]. apply wp_ret, wp_buf_store;
    [lia|rewrite zlen_le_bytes; lia|].
  rewrite le_bytes_wrap by done. rewrite slice_dat in * by lia. done.
Qed.

End Blocks.

(** ** Byte order *)

Lemma land_255 b : is_u8 b -> Z.land b 255 = b.
Proof. intros. change 255 with (Z.ones 8). rewrite Z.land_ones by lia. by apply Z.mod_small. Qed.

Lemma byte_0 : is_u8 0.
Proof. done. Qed.

#[local] Hint Resolve byte_0 : afl.
#[local] Hint Constructors Forall : afl.

Lemma SWAP16_word a b : is_u8 a -> is_u8 b -> SWAP16 (le_word [a; b]) = le_word [b; a].
Proof.
  intros Ha Hb. unfold SWAP16. pose proof (le_word_range [a; b]) as Hr.
  rewrite (wrap_small 16 (le_word [a; b])) by (apply Hr; auto with afl).
  unfold in_width in Ha, Hb.
  assert (Z.shiftl (le_word [a; b]) 8 = le_word [0; a; b]) as ->
    by (rewrite Z.shiftl_mul_pow2 by lia; cbn [le_word]; lia).
  assert (Z.shiftr (le_word [a; b]) 8 = le_word [b; 0; 0]) as ->
    by (rewrite Z.shiftr_div_pow2 by lia; cbn [le_word]; dlia).
  rewrite le_word_lor by auto with afl. cbn [zip_with]. rewrite !Z.lor_0_r, Z.lor_0_l.
  unfold wrap. cbn [le_word]. dlia.
Qed.

Lemma SWAP32_word a b c d :
  is_u8 a -> is_u8 b -> is_u8 c -> is_u8 d ->
  SWAP32 (le_word [a; b; c; d]) = le_word [d; c; b; a].
Proof.
  intros Ha Hb Hc Hd. unfold SWAP32. pose proof (le_word_range [a; b; c; d]) as Hr.
  rewrite (wrap_small 32 (le_word [a; b; c; d])) by (apply Hr; auto with afl).
  change 0x00FF0000 with (le_word [0; 0; 255; 0]). change 0x0000FF00 with (le_word [0; 255; 0; 0]).
  assert (u32 (Z.shiftl (le_word [a; b; c; d]) 24) = le_word [0; 0; 0; a]) as ->
    by (unfold in_width in *; rewrite Z.shiftl_mul_pow2 by lia; unfold wrap; cbn [le_word]; dlia).
  assert (u32 (Z.shiftl (le_word [a; b; c; d]) 8) = le_word [0; a; b; c]) as ->
    by (unfold in_width in *; rewrite Z.shiftl_mul_pow2 by lia; unfold wrap; cbn [le_word]; dlia).
  assert (Z.shiftr (le_word [a; b; c; d]) 24 = le_word [d; 0; 0; 0]) as ->
    by (unfold in_width in *; rewrite Z.shiftr_div_pow2 by lia; cbn [le_word]; dlia).
  assert (Z.shiftr (le_word [a; b; c; d]) 8 = le_word [b; c; d; 0]) as ->
    by (unfold in_width in *; rewrite Z.shiftr_div_pow2 by lia; cbn [le_word]; dlia).
  assert (is_u8 255) by done.
  rewrite !le_word_land by auto 10 with afl. cbn [zip_with].
  rewrite !Z.land_0_r, !land_255 by done.
  rewrite !le_word_lor by (cbn [zip_with]; rewrite ?Z.lor_0_r, ?Z.lor_0_l; auto 10 with afl).
  cbn [zip_with]. rewrite ?Z.lor_0_r, ?Z.lor_0_l.
  apply wrap_small. apply (le_word_range [d; c; b; a]). auto 10 with afl.
Qed.

Lemma SWAP16_rev bs : bytes_ok bs -> length bs = 2%nat -> SWAP16 (le_word bs) = le_word (rev bs).
Proof.
  destruct bs as [|a [|b [|]]]; try done. rewrite !Forall_cons_iff. intros (?&?&_) _.
  by apply SWAP16_word.
Qed.

Lemma SWAP32_rev bs : bytes_ok bs -> length bs = 4%nat -> SWAP32 (le_word bs) = le_word (rev bs).
Proof.
  destruct bs as [|a [|b [|c [|d [|]]]]]; try done. rewrite !Forall_cons_iff.
  intros (?&?&?&?&_) _. by apply SWAP32_word.
Qed.

Lemma SWAP16_bytes x : le_bytes 2 (SWAP16 x) = rev (le_bytes 2 x).
Proof.
  assert (SWAP16 x = SWAP16 (u16 x)) as -> by (unfold SWAP16; by rewrite wrap_wrap).
  change 16 with (8 * Z.of_nat 2). rewrite <- le_word_le_bytes, SWAP16_rev by auto using le_bytes_ok.
  apply (le_bytes_le_word (rev (le_bytes 2 x))). apply Forall_rev, le_bytes_ok.
Qed.

Lemma SWAP32_bytes x : le_bytes 4 (SWAP32 x) = rev (le_bytes 4 x).
Proof.
  assert (SWAP32 x = SWAP32 (u32 x)) as -> by (unfold SWAP32; by rewrite wrap_wrap).
  change 32 with (8 * Z.of_nat 4). rewrite <- le_word_le_bytes, SWAP32_rev by auto using le_bytes_ok.
  apply (le_bytes_le_word (rev (le_bytes 4 x))). apply Forall_rev, le_bytes_ok.
Qed.
