(* ===== verification/MutationsOps.v ===== *)
(** * The operators of the havoc stage, one by one

    For each case of the switch: from a well-formed state it stays inside its
    allocations and has the effect [effect] assigns to it. *)

From S2P Require Import Prelude Rng MutTables Mutations MutationsFacts.

(** Side conditions: bounds of draws and accesses. *)
Ltac wside :=
  cbn [growth];
  st_simpl;
  unfold MUT_STRATEGY_ARRAY_SIZE, ARITH_MAX, HAVOC_BLK_XL in *;
  rewrite ?zlen_dat by (st_simpl; lia);
  change (zlen interesting_8) with 9 in *;
  change (zlen interesting_16) with 19 in *;
  change (zlen interesting_32) with 28 in *;
  rewrite ?zlen_one, ?zlen_rev, ?zlen_le_bytes;
  first [lia | zlia].

(** One step of the calculus; the draws introduce their result and its range. *)
Ltac wp_step :=
  lazymatch goal with
  | |- wp (mbind _ _) _ _ => apply wp_bind
  | |- wp (mret _) _ _ => apply wp_ret
  | |- wp (gets _) _ _ => apply wp_gets
  | |- wp (set_len _) _ _ => apply wp_set_len
  | |- wp (rand _) _ _ => apply wp_rand; [wside | intros ? ? ?]
  | |- wp (choose_block_len _ _) _ _ =>
      apply wp_choose_block_len; [wside | apply we_cycle; done | intros ? ? ?]
  | |- wp rand_u64 _ _ => apply wp_rand_u64; intros ? ? ?
  | |- wp (upd _ _) _ _ => apply wp_upd; [wside | wside | intros ? ?]
  | |- wp (upd16 _ _) _ _ => apply wp_upd16; [wside | wside | wside |]
  | |- wp (upd32 _ _) _ _ => apply wp_upd32; [wside | wside | wside |]
  end; cbv beta zeta; rewrite ?with_src_src, ?dat_with_src in *; st_simpl.
Ltac wp_go := repeat wp_step.

Section Operators.
Context {S : Type} `{RandSource S}.
Context (e : env) (He : wf_env e).
Implicit Types (s : mst S).

(** The guard of the operators on words, and their no-op. *)
Lemma post_short m s k s' :
  wf_data s -> buf s' = buf s -> len s' = len s -> tmp_buf s' = tmp_buf s -> len s < k ->
  (too_short k (dat s) (dat s) -> effect e m (dat s) (dat s)) ->
  post e m s Break s'.
Proof.
  intros Hs ? ? ? Hk Heff. apply post_same; [done..|]. intros _. apply Heff.
  destruct Hs. split; [rewrite zlen_dat; lia|done].
Qed.

Lemma post_intro m s s' d' :
  dat s' = d' -> zlen (buf s') = zlen (buf s) -> zlen (tmp_buf s') = zlen (tmp_buf s) ->
  1 <= len s' <= Z.max (len s) (max_len e) + growth m /\ len s' <= zlen (buf s') ->
  bytes_ok d' -> effect e m (dat s) d' -> post e m s Break s'.
Proof. by intros <- ? ? [? ?] ? ?. Qed.

(** A value of a table of interesting values. *)
Lemma wp_interesting (l : list Z) i Q s :
  0 <= i < zlen l -> (forall v, v ∈ l -> Q v s) -> wp (fault_opt (get l i)) Q s.
Proof.
  intros Hi HQ. destruct (get_Some l i Hi) as [v Hv]. apply (wp_opt _ v); [done|].
  apply HQ. apply get_inv in Hv as [_ Hv]. by eapply list_elem_of_lookup_2.
Qed.

Lemma byte_one z : bytes_ok [z mod 256].
Proof. constructor; [apply Z.mod_pos_bound; lia|constructor]. Qed.
Lemma byte_wrap z : bytes_ok [u8 z].
Proof. apply byte_one. Qed.
#[local] Hint Resolve byte_one byte_wrap : afl.

(** Writing a block inside the data, the effect being to write such a block. *)
Lemma post_write m s off blk t r (P : Z -> list Z -> Prop) :
  wf_data s -> zlen t = zlen (tmp_buf s) ->
  0 <= off -> off + zlen blk <= len s -> bytes_ok blk ->
  (over (dat s) (splice_at (dat s) off blk) P ->
   effect e m (dat s) (splice_at (dat s) off blk)) ->
  P off blk ->
  post e m s Break (Mst (splice_at (buf s) off blk) (len s) t r).
Proof.
  intros Hs Ht Ho Hl Hb Heff HP. apply post_over; [done..|].
  apply Heff. exists off, blk. destruct Hs. rewrite zlen_dat by lia. done.
Qed.

Lemma slice_length (d : list Z) off (n : nat) :
  0 <= off -> off + Z.of_nat n <= zlen d -> length (slice d off (Z.of_nat n)) = n.
Proof. intros. pose proof (zlen_slice d off (Z.of_nat n)). unfold zlen in *. lia. Qed.

Ltac op_start :=
  let Hs := fresh "Hs" in
  intros Hs; pose proof Hs as [];
  try match goal with Hd : wf_data _ |- _ => pose proof Hd as [] end;
  try (match goal with
       | |- wp ?m _ _ => let h := eval red in m in change m with h
       end);
  wp_go.
Ltac op_short k := case_match; b2p; [apply wp_ret; eapply (post_short _ _ k); [done|done|done|done|lia|by left]|]; wp_go.
Ltac op_write :=
  unfold with_src, with_buf, with_tmp; cbn [buf len tmp_buf src];
  eapply post_write; [done|done|lia|wside|solve [auto using le_bytes_ok, Forall_rev with afl]
                     |first [exact (fun x => x) | exact (fun x => or_intror x)]|].

Lemma mut_flipbit_ok s : wf_data s -> wp mut_flipbit (post e MUT_FLIPBIT s) s.
Proof.
  op_start. op_write.
  exists v. split; [lia|]. eexists. split; [done|]. by rewrite Z.shiftl_1_l.
Qed.

Lemma mut_interesting8_ok s : wf_data s -> wp mut_interesting8 (post e MUT_INTERESTING8 s) s.
Proof.
  op_start. apply wp_interesting; [done|]. intros x Hx. wp_go.
  apply wp_buf_store; [wside..|]. wp_go. op_write. exists x. split; [done|].
  destruct (slice_one (dat s) v0) as (b&Hb&_); [wside|]. by exists b.
Qed.

Lemma mut_interesting16_ok s : wf_data s -> wp mut_interesting16 (post e MUT_INTERESTING16 s) s.
Proof.
  op_start. op_short 2. apply wp_interesting; [done|]. intros x Hx. wp_go.
  apply wp_buf_store; [wside..|]. rewrite le_bytes_wrap by done. wp_go. op_write. by exists x.
Qed.

Lemma mut_interesting16be_ok s : wf_data s -> wp mut_interesting16be (post e MUT_INTERESTING16BE s) s.
Proof.
  op_start. op_short 2. apply wp_interesting; [done|]. intros x Hx. wp_go.
  apply wp_buf_store; [wside..|]. rewrite le_bytes_wrap, SWAP16_bytes by done. wp_go. op_write. by exists x.
Qed.

Lemma mut_interesting32_ok s : wf_data s -> wp mut_interesting32 (post e MUT_INTERESTING32 s) s.
Proof.
  op_start. op_short 4. apply wp_interesting; [done|]. intros x Hx. wp_go.
  apply wp_buf_store; [wside..|]. rewrite le_bytes_wrap by done. wp_go. op_write. by exists x.
Qed.

Lemma mut_interesting32be_ok s : wf_data s -> wp mut_interesting32be (post e MUT_INTERESTING32BE s) s.
Proof.
  op_start. op_short 4. apply wp_interesting; [done|]. intros x Hx. wp_go.
  apply wp_buf_store; [wside..|]. rewrite le_bytes_wrap, SWAP32_bytes by done. wp_go. op_write. by exists x.
Qed.

Lemma mut_arith8_sub_ok s : wf_data s -> wp mut_arith8_sub (post e MUT_ARITH8_ s) s.
Proof. op_start. op_write. exists (1 + v). split; [unfold is_delta; wside|]. by eexists. Qed.

Lemma mut_arith8_ok s : wf_data s -> wp mut_arith8 (post e MUT_ARITH8 s) s.
Proof. op_start. op_write. exists (1 + v). split; [unfold is_delta; wside|]. by eexists. Qed.

Lemma mut_arith16_sub_ok s : wf_data s -> wp mut_arith16_sub (post e MUT_ARITH16_ s) s.
Proof. op_start. op_short 2. op_write. exists (1 + v0). split; [unfold is_delta; wside|done]. Qed.

Lemma mut_arith16_ok s : wf_data s -> wp mut_arith16 (post e MUT_ARITH16 s) s.
Proof. op_start. op_short 2. op_write. exists (1 + v0). split; [unfold is_delta; wside|done]. Qed.

Lemma mut_arith16be_sub_ok s : wf_data s -> wp mut_arith16be_sub (post e MUT_ARITH16BE_ s) s.
Proof.
  op_start. op_short 2. rewrite SWAP16_bytes. op_write. exists (1 + v0). split; [unfold is_delta; wside|].
  unfold be_by. rewrite <- SWAP16_rev by (first [apply Forall_slice; assumption | apply slice_length; wside]). rewrite wrap_small by (unfold in_width; wside). done.
Qed.

Lemma mut_arith16be_ok s : wf_data s -> wp mut_arith16be (post e MUT_ARITH16BE s) s.
Proof.
  op_start. op_short 2. rewrite SWAP16_bytes. op_write. exists (1 + v0). split; [unfold is_delta; wside|].
  unfold be_by. rewrite <- SWAP16_rev by (first [apply Forall_slice; assumption | apply slice_length; wside]). rewrite wrap_small by (unfold in_width; wside). done.
Qed.

Lemma mut_arith32_sub_ok s : wf_data s -> wp mut_arith32_sub (post e MUT_ARITH32_ s) s.
Proof. op_start. op_short 4. op_write. exists (1 + v0). split; [unfold is_delta; wside|done]. Qed.

Lemma mut_arith32_ok s : wf_data s -> wp mut_arith32 (post e MUT_ARITH32 s) s.
Proof. op_start. op_short 4. op_write. exists (1 + v0). split; [unfold is_delta; wside|done]. Qed.

Lemma mut_arith32be_sub_ok s : wf_data s -> wp mut_arith32be_sub (post e MUT_ARITH32BE_ s) s.
Proof.
  op_start. op_short 4. rewrite SWAP32_bytes. op_write. exists (1 + v0). split; [unfold is_delta; wside|].
  unfold be_by. rewrite <- SWAP32_rev by (first [apply Forall_slice; assumption | apply slice_length; wside]). done.
Qed.

Lemma mut_arith32be_ok s : wf_data s -> wp mut_arith32be (post e MUT_ARITH32BE s) s.
Proof.
  op_start. op_short 4. rewrite SWAP32_bytes. op_write. exists (1 + v0). split; [unfold is_delta; wside|].
  unfold be_by. rewrite <- SWAP32_rev by (first [apply Forall_slice; assumption | apply slice_length; wside]). done.
Qed.

Lemma mut_byteadd_ok s : wf_data s -> wp mut_byteadd (post e MUT_BYTEADD s) s.
Proof. op_start. op_write. by eexists. Qed.

Lemma mut_bytesub_ok s : wf_data s -> wp mut_bytesub (post e MUT_BYTESUB s) s.
Proof. op_start. op_write. by eexists. Qed.

Lemma mut_rand8_ok s : wf_data s -> wp mut_rand8 (post e MUT_RAND8 s) s.
Proof. op_start. op_write. exists (1 + v0). split; [lia|]. by eexists. Qed.

Lemma lxor_255 b : is_u8 b -> Z.lxor b 255 = 255 - b.
Proof.
  intros Hb. assert (Forall (fun x => Z.lxor x 255 = 255 - x) (seqZ 0 256)) as Hall
    by (apply (bool_decide_unpack _); vm_compute; exact I).
  rewrite Forall_forall in Hall. apply Hall, list_elem_of_In, elem_of_seqZ. unfold in_width in Hb. lia.
Qed.

Lemma mut_flip8_ok s : wf_data s -> wp mut_flip8 (post e MUT_FLIP8 s) s.
Proof.
  op_start. op_write. exists b. split; [done|]. rewrite lxor_255; [done|].
  assert (bytes_ok (slice (dat s) v 1)) as Hb by auto with afl.
  rewrite H1 in Hb. by apply Forall_cons_iff in Hb as [Hb _].
Qed.

(** ** Blocks *)

(** The inserting operators end by copying through [tmp_buf]. *)
Lemma wp_insert m s r off blk off2 :
  let l' := len s + zlen blk - (off2 - off) in
  wf_st e s -> 0 <= off <= off2 -> off2 <= len s -> bytes_ok blk ->
  1 <= l' <= Z.max (len s) (max_len e) + growth m ->
  l' <= zlen (buf s) -> l' <= zlen (tmp_buf s) ->
  effect e m (dat s) (replaced (dat s) off blk off2) ->
  wp (via_tmp off blk off2) (fun _ => wp (mret Break) (post e m s)) (with_src r s).
Proof.
  intros l' [[]] Ho H2 Hblk Hl Hb Ht Heff. unfold l' in *.
  apply wp_via_tmp; st_simpl; [lia..|]. intros b t Hzb Hzt Hc. apply wp_ret.
  rewrite dat_with_src in Hc. eapply post_intro; [exact Hc|done|done|cbn [len buf]; lia| |done]. by apply Forall_replaced.
Qed.

Lemma ins_intro d off blk (P : Z -> list Z -> Prop) :
  0 <= off <= zlen d -> P off blk -> ins d (replaced d off blk off) P.
Proof. intros. by exists off, blk. Qed.

Lemma wp_fixed_item to strat Q s r :
  wf_data s -> 0 <= to <= len s ->
  (forall v r, is_u8 v -> Q v (with_src r s)) ->
  wp (fixed_item to strat) Q (with_src r s).
Proof.
  intros Hs Ht HQ. pose proof Hs as []. unfold fixed_item. destruct (z2b strat).
  - wp_go. apply HQ. unfold in_width. lia.
  - assert (0 <= (if z2b to then to - 1 else 0) < len s) as Hf.
    { unfold z2b. destruct (to =? 0) eqn:E; b2p; cbn; lia. }
    apply wp_rd; [wside|]. intros b Hb. apply HQ. st_simpl.
    rewrite <- slice_dat in Hb by lia.
    assert (bytes_ok (slice (dat s) (if z2b to then to - 1 else 0) 1)) as Hok by auto with afl.
    rewrite Hb in Hok. by apply Forall_cons_iff in Hok as [? _].
Qed.

Lemma replicate_fixed n b : is_u8 b -> fixed_block (replicate n (u8 b)).
Proof. intros. exists n, (u8 b). split; [done|]. by rewrite wrap_small. Qed.

Lemma replicate_ok n b : is_u8 b -> bytes_ok (replicate n (u8 b)).
Proof. intros. apply Forall_replicate. by rewrite wrap_small. Qed.

Lemma room_test l : 1 <= l < 2 ^ 31 -> u32 (l + HAVOC_BLK_XL) = l + HAVOC_BLK_XL.
Proof. intros. apply wrap_small. unfold in_width, HAVOC_BLK_XL. lia. Qed.

(** No room: a short input is left alone, a longer one draws again. *)
Lemma post_no_room m s s' :
  wf_data s -> s' = s -> (too_short 8 (dat s) (dat s) -> effect e m (dat s) (dat s)) ->
  wp (if len s <? 8 then mret Break else mret Retry) (post e m s) s'.
Proof.
  intros Hs -> Heff. case_match; b2p; apply wp_ret.
  - by apply (post_short _ _ 8).
  - by apply post_same.
Qed.

(** The operators that insert, by what they give to [replace]. *)
Lemma wp_clone_copy replace Q s :
  wf_data s ->
  (too_short 8 (dat s) (dat s) -> Q Break s) -> Q Retry s ->
  (forall to from n r, len s + HAVOC_BLK_XL < max_len e -> 0 <= to < len s -> 0 <= from ->
     from + n <= len s -> 1 <= n <= HAVOC_BLK_XL -> zlen (slice (dat s) from n) = n ->
     wp (replace to (slice (dat s) from n) to) (fun _ => Q Break) (with_src r s)) ->
  wp (clone_copy replace e) Q s.
Proof.
  intros Hs HB HR HQ. pose proof Hs as []. unfold clone_copy. wp_go. rewrite room_test by lia.
  case_match; b2p; [|case_match; b2p; apply wp_ret; [apply HB; split; [rewrite zlen_dat; lia|done]|done]].
  wp_go. apply wp_buf_load; [wside..|]. st_simpl. wp_go. rewrite <- slice_dat by wside.
  eapply wp_mono; [apply HQ; [done|wside..|]|]; [apply zlen_slice; wside|]. intros. by apply wp_ret.
Qed.

Lemma wp_clone_fixed replace Q s :
  wf_data s ->
  (too_short 8 (dat s) (dat s) -> Q Break s) -> Q Retry s ->
  (forall to blk r, len s + HAVOC_BLK_XL < max_len e -> 0 <= to < len s -> 1 <= zlen blk <= HAVOC_BLK_XL ->
     fixed_block blk -> bytes_ok blk -> wp (replace to blk to) (fun _ => Q Break) (with_src r s)) ->
  wp (clone_fixed replace e) Q s.
Proof.
  intros Hs HB HR HQ. pose proof Hs as []. unfold clone_fixed. wp_go. rewrite room_test by lia.
  case_match; b2p; [|case_match; b2p; apply wp_ret; [apply HB; split; [rewrite zlen_dat; lia|done]|done]].
  wp_go. apply wp_fixed_item; [done|lia|]. intros b r' Hb. wp_go.
  assert (zlen (replicate (Z.to_nat v) (u8 b)) = v) as Hz by (apply zlen_replicate; lia).
  eapply wp_mono; [apply HQ; rewrite ?Hz; [done|wside..|by apply replicate_fixed|by apply replicate_ok]|].
  intros. by apply wp_ret.
Qed.

Lemma wp_insertone replace Q s :
  wf_data s ->
  (too_short 2 (dat s) (dat s) -> Q Break s) ->
  (forall to b r, 0 <= to < len s -> is_u8 b ->
     wp (replace to [u8 b] to) (fun _ => Q Break) (with_src r s)) ->
  wp (insertone replace) Q s.
Proof.
  intros Hs HB HQ. pose proof Hs as []. unfold insertone. wp_go.
  case_match; b2p; [apply wp_ret, HB; split; [rewrite zlen_dat; lia|done]|].
  wp_go. apply wp_fixed_item; [done|lia|]. intros b r' Hb. wp_go.
  eapply wp_mono; [apply HQ; [lia|done]|]. intros. by apply wp_ret.
Qed.

Lemma mut_clone_copy_ok s : wf_st e s -> wp (mut_clone_copy e) (post e MUT_CLONE_COPY s) s.
Proof.
  intros Hs. pose proof Hs as [Hwd]. pose proof Hwd as [].
  apply wp_clone_copy; [done|intros; apply post_same; [done..|by left]|by apply post_same|].
  intros to from n r Hroom Hto Hf Hfn Hn Hz.
  eapply wp_mono; [apply (wp_insert MUT_CLONE_COPY); rewrite ?Hz; [done|lia|lia|auto with afl|wside..|]|done].
  right. apply ins_intro; [wside|]. exists from, n. rewrite zlen_dat by lia. split_and!; [wside..|done].
Qed.

Lemma mut_clone_fixed_ok s : wf_st e s -> wp (mut_clone_fixed e) (post e MUT_CLONE_FIXED s) s.
Proof.
  intros Hs. pose proof Hs as [Hwd]. pose proof Hwd as [].
  apply wp_clone_fixed; [done|intros; apply post_same; [done..|by left]|by apply post_same|].
  intros to blk r Hroom Hto Hz Hfix Hok.
  eapply wp_mono; [apply (wp_insert MUT_CLONE_FIXED); [done|lia|lia|done|wside..|]|done].
  right. apply ins_intro; [wside|done].
Qed.

Lemma mut_insertone_ok s : wf_st e s -> wp mut_insertone (post e MUT_INSERTONE s) s.
Proof.
  intros Hs. pose proof Hs as [Hwd]. pose proof Hwd as [].
  apply wp_insertone; [done|intros; apply post_same; [done..|by left]|].
  intros to b r Hto Hb.
  eapply wp_mono; [apply (wp_insert MUT_INSERTONE); rewrite ?zlen_one; [done|lia|lia|apply byte_wrap|wside..|]|done].
  right. apply ins_intro; [wside|]. split; [done|]. exact (replicate_fixed 1 b Hb).
Qed.

Lemma mut_overwrite_copy_ok s :
  wf_data s -> wp (mut_overwrite_copy e) (post e MUT_OVERWRITE_COPY s) s.
Proof.
  op_start. op_short 2.
  assert (over (dat s) (splice_at (dat s) v1 (slice (dat s) v0 v)) (fun _ blk =>
    exists from n, 1 <= n < zlen (dat s) /\ 0 <= from /\ from + n <= zlen (dat s) /\
      blk = slice (dat s) from n)) as Hover.
  { exists v1, (slice (dat s) v0 v). rewrite zlen_slice by wside. split_and!; [wside..| |done].
    exists v0, v. split_and!; [wside..|done]. }
  destruct (v0 =? v1) eqn:E; b2p; cbn [negb].
  - wp_go. apply post_same; [done..|]. intros _. right.
    subst v1. by rewrite splice_at_id in Hover by wside.
  - apply wp_memmove; [wside..|]. wp_go. unfold with_src, with_buf; cbn [buf len tmp_buf src].
    rewrite <- slice_dat by wside. apply post_over; [done|done|lia| |auto with afl|by right].
    rewrite zlen_slice by wside. wside.
Qed.

Lemma mut_overwrite_fixed_ok s :
  wf_data s -> wp (mut_overwrite_fixed e) (post e MUT_OVERWRITE_FIXED s) s.
Proof.
  op_start. op_short 2. apply wp_fixed_item; [done|lia|]. intros b r' Hb. wp_go.
  assert (zlen (replicate (Z.to_nat v) (u8 b)) = v) as Hz by (apply zlen_replicate; lia).
  apply wp_buf_store; rewrite ?Hz; [wside..|]. wp_go.
  unfold with_src, with_buf; cbn [buf len tmp_buf src].
  eapply post_write; rewrite ?Hz; [done|done|lia|wside|by apply replicate_ok|by right|].
  cbv beta. rewrite Hz. split; [wside|by apply replicate_fixed].
Qed.

(** Deleting [n] bytes: the tail is moved down, the length shrinks. *)
Lemma wp_delete m s r from n :
  wf_data s -> 0 <= from -> 1 <= n < len s -> from + n <= len s ->
  effect e m (dat s) (replaced (dat s) from [] (from + n)) ->
  wp (buf_memmove from (from + n) (u32 (len s - from - n)))
     (fun _ => wp (set_len (u32 (len s - n)) ;; mret Break) (post e m s)) (with_src r s).
Proof.
  intros [] Hf Hn Hl Heff. rewrite !wrap_small by (unfold in_width; lia).
  apply wp_memmove; [wside..|]. wp_go. st_simpl.
  set (tail := slice (buf s) (from + n) (len s - from - n)).
  assert (zlen tail = len s - from - n) as Ht by (apply zlen_slice; lia).
  assert (dat (Mst (splice_at (buf s) from tail) (len s - n) (tmp_buf s) r) =
          replaced (dat s) from [] (from + n)) as Ed.
  { unfold dat at 1. cbn [buf len]. replace (len s - n) with (from + zlen tail) by lia.
    rewrite slice_splice_upto by lia. unfold replaced, tail. rewrite zlen_dat by lia.
    rewrite !slice_dat by lia. cbn [app]. do 2 f_equal. lia. }
  eapply post_intro; [exact Ed|..]; cbn [buf len tmp_buf]; [wside|done| | |done].
  - destruct m; wside.
  - apply Forall_replaced; [done|constructor].
Qed.

Lemma mut_del_ok s : wf_data s -> wp (mut_del e) (post e MUT_DEL s) s.
Proof.
  op_start. op_short 2. apply wp_delete; [done|wside..|].
  right. exists v0, v. split_and!; [wside..|done].
Qed.

Lemma mut_delone_ok s : wf_data s -> wp mut_delone (post e MUT_DELONE s) s.
Proof.
  op_start. op_short 2. apply wp_delete; [done|wside..|].
  right. exists v, 1. split_and!; [wside..|done].
Qed.

Lemma wp_draw_other fuel limit avoid Q s r :
  0 < limit < 2 ^ 32 ->
  (forall v r, 0 <= v < limit -> v <> avoid -> Q v (with_src r s)) ->
  wp (draw_other fuel limit avoid) Q (with_src r s).
Proof.
  intros Hl HQ. revert r. induction fuel as [|fuel IH]; intros r; cbn [draw_other]; [done|].
  wp_go. case_match; b2p; [apply IH|apply wp_ret, HQ; done].
Qed.

(** The two copies of [MUT_SWITCH] through [tmp_buf] exchange the blocks. *)
Lemma wp_exchange s r from to n :
  wf_data s -> n <= zlen (tmp_buf s) -> 0 <= from -> 0 <= to -> 1 <= n -> from + n <= len s -> to + n <= len s ->
  (from + n <= to \/ to + n <= from) ->
  wp (backup ← buf_load from n; tmp_store 0 backup;; buf_memcpy from to n;;
      saved ← tmp_load 0 n; buf_store to saved;; mret Break) (post e MUT_SWITCH s) (with_src r s).
Proof.
  intros Hs Htmp Hf Ht Hn Hfl Htl Hd. pose proof Hs as [].
  assert (zlen (slice (buf s) from n) = n) as Hz by (apply zlen_slice; lia).
  assert (zlen (slice (buf s) to n) = n) as Hz' by (apply zlen_slice; lia).
  apply wp_bind, wp_buf_load; [wside..|]. st_simpl. apply wp_bind, wp_tmp_store; [wside..|].
  apply wp_bind. unfold buf_memcpy.
  rewrite (proj2 (orb_true_iff _ _)) by (rewrite !Z.leb_le; lia).
  apply wp_memmove; [wside..|]. apply wp_bind, wp_tmp_load; [wside..|]. st_simpl.
  assert (slice (splice_at (tmp_buf s) 0 (slice (buf s) from n)) 0 n = slice (buf s) from n) as ->.
  { pose proof (slice_splice_same (tmp_buf s) 0 (slice (buf s) from n)) as Hh.
    rewrite Hz in Hh. apply Hh; lia. }
  apply wp_bind, wp_buf_store; [wside..|]. wp_go. st_simpl. unfold with_buf. cbn [buf len tmp_buf src].
  set (b' := splice_at _ to _).
  assert (slice b' 0 (len s) = exchanged (dat s) (Z.min from to) (Z.max from to) n) as Ed.
  { unfold b'. rewrite !splice_slice by (rewrite ?Hz, ?Hz'; wside). fold (dat s).
    rewrite <- !slice_dat by lia.
    destruct (exchange_splices (dat s) (Z.min from to) (Z.max from to) n) as [E1 E2];
      rewrite ?zlen_dat by lia; [lia..|].
    destruct Hd; [rewrite Z.min_l, Z.max_r in * by lia|rewrite Z.min_r, Z.max_l in * by lia];
      assumption. }
  eapply post_intro; [exact Ed|..]; cbn [buf len tmp_buf].
  - unfold b'. wside.
  - apply zlen_splice_at; lia.
  - split; [wside|unfold b'; wside].
  - unfold exchanged. rewrite !Forall_app. auto 10 with afl.
  - right. exists (Z.min from to), (Z.max from to), n.
    rewrite zlen_dat by lia. split_and!; [lia..|done].
Qed.

Lemma mut_switch_ok fuel s : wf_st e s -> wp (mut_switch fuel e) (post e MUT_SWITCH s) s.
Proof.
  op_start. op_short 4. apply wp_draw_other; [wside|]. intros to r' Hto Hne.
  destruct (v <? to) eqn:E; b2p; do 2 wp_step; apply wp_exchange; try done; wside.
Qed.

Lemma shuffle_loop_ok fuel (A C : list Z) i : forall blk Q l t r,
  (i < length blk)%nat -> bytes_ok blk -> zlen blk < 2 ^ 31 ->
  (forall blk' r, blk' ≡ₚ blk -> Q () (Mst (A ++ blk' ++ C) l t r)) ->
  wp (shuffle_loop fuel (zlen A) i) Q (Mst (A ++ blk ++ C) l t r).
Proof.
  induction i as [|i IH]; intros blk Q l t r Hi Hok Hw HQ.
  { by apply (HQ blk). }
  cbn [shuffle_loop]. apply wp_bind.
  refine (wp_draw_other fuel _ _ _ (Mst (A ++ blk ++ C) l t r) r _ _); [unfold zlen in Hw; lia|].
  intros j r' Hj Hne. unfold with_src. cbn [buf len tmp_buf].
  destruct (lookup_lt_is_Some_2 blk (Datatypes.S i) Hi) as [x Hx].
  destruct (lookup_lt_is_Some_2 blk (Z.to_nat j)) as [y Hy]; [lia|].
  assert (forall k b z, 0 <= k -> blk !! Z.to_nat k = Some b ->
    (A ++ blk ++ C) !! Z.to_nat (zlen A + k) = Some b /\
    forall blk', length blk' = length blk -> <[Z.to_nat (zlen A + k) := z]> (A ++ blk' ++ C) =
      A ++ <[Z.to_nat k := z]> blk' ++ C) as Hmem.
  { intros k b z Hk Hb. pose proof (lookup_lt_Some _ _ _ Hb).
    replace (Z.to_nat (zlen A + k)) with (length A + Z.to_nat k)%nat by (unfold zlen; lia). split.
    - rewrite lookup_app_r, lookup_app_l by lia. rewrite <- Hb. f_equal. lia.
    - intros blk' Hl. rewrite insert_app_r, insert_app_l by lia. done. }
  rewrite <- (Nat2Z.id (Datatypes.S i)) in Hx.
  destruct (Hmem (Z.of_nat (Datatypes.S i)) x y) as [Hlx Hix]; [lia|done|].
  destruct (Hmem j y x) as [Hly Hiy]; [lia|done|].
  pose proof (zlen_nonneg A). pose proof (zlen_nonneg C).
  assert (zlen (A ++ blk ++ C) = zlen A + zlen blk + zlen C) by (rewrite !zlen_app; lia).
  assert (is_u8 x /\ is_u8 y) as [Hxb Hyb]
    by (split; (eapply Forall_lookup_1; [exact Hok|eassumption])).
  apply wp_bind. eapply wp_rd_lookup; [lia|exact Hlx|].
  apply wp_bind. eapply wp_rd_lookup; [lia|exact Hly|].
  apply wp_bind, wp_wr; cbn [buf]; [unfold zlen in *; lia|done|].
  unfold with_buf. cbn [buf len tmp_buf src]. rewrite Hix by done.
  apply wp_bind, wp_wr; cbn [buf];
    [rewrite !zlen_app; unfold zlen in *; rewrite length_insert; lia|done|].
  unfold with_buf. cbn [buf len tmp_buf src]. rewrite Hiy by (by rewrite length_insert).
  assert (<[Z.to_nat j:=x]> (<[Z.to_nat (Z.of_nat (Datatypes.S i)):=y]> blk) ≡ₚ blk) as Hp
    by (by apply Permutation_insert_swap).
  apply IH.
  - rewrite !length_insert. lia.
  - by rewrite Hp.
  - unfold zlen in *. by rewrite !length_insert.
  - intros blk' r'' Hp'. apply HQ. by rewrite Hp'.
Qed.

Lemma mut_shuffle_ok fuel s : wf_data s -> wp (mut_shuffle fuel e) (post e MUT_SHUFFLE s) s.
Proof.
  op_start. op_short 4.
  assert (zlen (slice (buf s) v0 v) = v) as Hz by (apply zlen_slice; wside).
  assert (zlen (slice (buf s) 0 v0) = v0) as Hz0 by (apply zlen_slice; wside).
  pose proof (splice_at_id (buf s) v0 v) as Eb. unfold splice_at in Eb.
  rewrite <- slice_0 in Eb. unfold with_src. rewrite <- Eb at 1 by wside. rewrite <- Hz0 at 1.
  apply shuffle_loop_ok.
  - unfold zlen in Hz. lia.
  - rewrite <- slice_dat by wside. auto with afl.
  - lia.
  - intros blk r' Hp. apply wp_ret. rewrite slice_0.
    assert (length blk = length (slice (buf s) v0 v)) as Hl by (by rewrite Hp).
    assert (zlen blk = v) as Hzb by (unfold zlen in *; lia). rewrite <- Hl.
    fold (splice_at (buf s) v0 blk).
    eapply post_write; [done|done|lia|wside| |by right|].
    + rewrite Hp, <- slice_dat by wside. auto with afl.
    + cbv beta. rewrite Hzb, slice_dat by wside. split; [wside|done].
Qed.

(** ** Dictionary tokens *)

Lemma wp_token toks cnt i Q s :
  dict_ok toks cnt -> 0 <= i < cnt ->
  (forall x, x ∈ toks -> tok_ok x -> Q x s) -> wp (fault_opt (get toks i)) Q s.
Proof.
  intros [] Hi HQ. destruct (zlen_lookup toks i) as [x Hx]; [lia|].
  apply (wp_opt _ x).
  - unfold get. by rewrite (proj2 (Z.leb_le 0 i)) by lia.
  - apply HQ; [by eapply list_elem_of_lookup_2|]. by eapply Forall_lookup_1.
Qed.

Lemma wp_token_data x Q s :
  tok_ok x -> Q (slice (data x) 0 (extra_len x)) s ->
  wp (fault_opt (load (data x) 0 (extra_len x))) Q s.
Proof. intros [] HQ. eapply wp_opt; [|done]. apply load_Some; lia. Qed.

Lemma zlen_token x : tok_ok x -> zlen (slice (data x) 0 (extra_len x)) = extra_len x.
Proof. intros []. apply zlen_slice; lia. Qed.

Lemma extra_overwrite_ok m toks cnt s :
  (forall d d', over d d' (fun _ blk => token toks blk) -> effect e m d d') ->
  dict_ok toks cnt -> wf_data s -> wp (extra_overwrite toks cnt) (post e m s) s.
Proof.
  intros Heff Hd. pose proof Hd as []. op_start. unfold z2b. rewrite negb_involutive.
  case_match; b2p; [apply wp_ret; by apply post_same|]. wp_go.
  apply (wp_token toks cnt); [done|done|]. intros x Hx Hok. wp_go.
  pose proof Hok as []. case_match; b2p; [apply wp_ret; by apply post_same|]. wp_go.
  apply wp_token_data; [done|]. pose proof (zlen_token x Hok) as Hz.
  wp_go. apply wp_buf_store; rewrite ?Hz; [wside..|]. wp_go.
  unfold with_src, with_buf; cbn [buf len tmp_buf src].
  eapply post_write; rewrite ?Hz; [done|done|lia|wside|auto with afl|apply Heff|].
  by exists x.
Qed.

(** Inserting in place: the tail is moved up, then the token is written. *)
Lemma insert_in_place (b blk : list Z) (l at_ : Z) :
  0 <= at_ <= l -> l + zlen blk <= zlen b ->
  slice (splice_at (splice_at b (at_ + zlen blk) (slice b at_ (l - at_))) at_ blk) 0 (l + zlen blk)
  = replaced (slice b 0 l) at_ blk at_.
Proof.
  intros Ha Hl. pose proof (zlen_nonneg blk).
  assert (zlen (slice b at_ (l - at_)) = l - at_) as Hz by (apply zlen_slice; lia).
  replace (l + zlen blk) with (at_ + zlen blk + (l - at_)) by lia.
  rewrite <- (slice_app _ 0 (at_ + zlen blk) (l - at_)) by lia.
  rewrite slice_splice_upto by zlia. rewrite slice_splice_before by lia.
  rewrite slice_splice_after by zlia.
  pose proof (slice_splice_same b (at_ + zlen blk) (slice b at_ (l - at_))) as Hs.
  rewrite Hz in Hs. rewrite Z.add_0_l, Hs by lia. unfold replaced.
  rewrite (zlen_slice b 0 l), !slice_slice, <- app_assoc by lia. done.
Qed.

Lemma extra_insert_ok m toks cnt s :
  (forall d d', ins d d' (fun _ blk => token toks blk) -> effect e m d d') ->
  dict_ok toks cnt -> wf_st e s -> wp (extra_insert e toks cnt) (post e m s) s.
Proof.
  intros Heff Hd. pose proof Hd as []. pose proof (we_max e He). op_start.
  unfold z2b. rewrite negb_involutive.
  case_match; b2p; [apply wp_ret; by apply post_same|]. wp_go.
  apply (wp_token toks cnt); [done|done|]. intros x Hx Hok. wp_go. pose proof Hok as [].
  rewrite (wrap_small 32 (len s + extra_len x)) by (unfold in_width; lia).
  case_match; b2p; [apply wp_ret; by apply post_same|]. wp_go.
  rewrite (wrap_small 32) by (unfold in_width; lia).
  apply wp_memmove; [wside..|]. wp_go. apply wp_token_data; [done|].
  pose proof (zlen_token x Hok) as Hz. wp_go.
  assert (zlen (slice (buf s) v0 (len s - v0)) = len s - v0) as Hz' by (apply zlen_slice; wside).
  apply wp_buf_store; rewrite ?Hz; [wside..|]. wp_go. st_simpl.
  unfold with_len, with_buf. cbn [buf len tmp_buf src].
  pose proof (insert_in_place (buf s) (slice (data x) 0 (extra_len x)) (len s) v0) as Ed.
  rewrite Hz in Ed. eapply post_intro; [unfold dat; cbn [buf len]; apply Ed; lia|..]; cbn [buf len tmp_buf].
  - wside.
  - done.
  - destruct m; wside.
  - apply Forall_replaced; [done|auto with afl].
  - apply Heff, (ins_intro (dat s)); [wside|]. by exists x.
Qed.

(** ** Splicing *)

Lemma splice_overwrite_ok m sp n s (P : Z -> list Z -> Prop) :
  wf_data s -> bytes_ok (slice sp 0 n) -> 1 <= n <= zlen sp -> n < 2 ^ 30 ->
  (forall d d', over d d' P -> effect e m d d') ->
  (forall off from k, 0 <= from -> from + k <= n -> 1 <= k -> P off (slice sp from k)) ->
  wp (splice_overwrite e sp n) (post e m s) s.
Proof.
  intros Hs Hok Hlen Hw Heff HP. pose proof Hs as []. unfold splice_overwrite. wp_go.
  set (k := if v >? len s then len s else v).
  assert (1 <= k <= len s /\ k <= n) as Hn.
  { unfold k. destruct (v >? len s) eqn:Ec; b2p; wside. }
  wp_go. eapply wp_opt; [apply load_Some; wside|]. wp_go.
  assert (zlen (slice sp v0 k) = k) as Hz by (apply zlen_slice; lia).
  apply wp_buf_store; rewrite ?Hz; [wside..|]. wp_go.
  unfold with_src, with_buf; cbn [buf len tmp_buf src].
  assert (bytes_ok (slice sp v0 k)) by (rewrite <- (slice_slice sp n) by lia; auto with afl).
  eapply post_write; rewrite ?Hz; [done|done|lia|wside|done|apply Heff|].
  apply HP; lia.
Qed.

Lemma mut_splice_overwrite_ok s :
  wf_data s -> wp (mut_splice_overwrite e) (post e MUT_SPLICE_OVERWRITE s) s.
Proof.
  intros Hs. unfold mut_splice_overwrite.
  destruct (splice_buf e) as [sp|] eqn:Esp; [|apply wp_ret; by apply post_same].
  destruct (we_splice e He sp Esp) as (Hok&Hlen&Hw). unfold z2b. rewrite negb_involutive.
  case_match; b2p; [apply wp_ret; by apply post_same|].
  eapply splice_overwrite_ok; [done|auto with afl|lia|done|exact (fun d d' x => x)|].
  intros off from k ? ? ?. exists sp, from, k. done.
Qed.

(** What [splice_insert] gives to [replace]. *)
Lemma wp_splice_insert replace sp n Q s :
  wf_data s -> bytes_ok (slice sp 0 n) -> 1 <= n <= zlen sp -> n < 2 ^ 30 ->
  (forall to from k r, 0 <= to <= len s -> 0 <= from -> from + k <= n -> 1 <= k <= HAVOC_BLK_XL ->
     zlen (slice sp from k) = k -> bytes_ok (slice sp from k) -> wp (replace to (slice sp from k) to) (fun _ => Q Break) (with_src r s)) ->
  wp (splice_insert replace e sp n) Q s.
Proof.
  intros Hs Hok Hlen Hw HQ. pose proof Hs as []. unfold splice_insert. wp_go.
  eapply wp_opt; [apply load_Some; wside|]. wp_go.
  eapply wp_mono; [apply HQ; [wside..| |]|];
    [apply zlen_slice; wside|rewrite <- (slice_slice sp n) by wside; auto with afl|]. intros. by apply wp_ret.
Qed.

Lemma mut_splice_insert_ok s :
  wf_st e s -> wp (mut_splice_insert e) (post e MUT_SPLICE_INSERT s) s.
Proof.
  intros Hs. pose proof Hs as [Hwd]. pose proof Hwd as []. unfold mut_splice_insert.
  destruct (splice_buf e) as [sp|] eqn:Esp; [|apply wp_ret; by apply post_same].
  destruct (we_splice e He sp Esp) as (Hok&Hlen&Hw). unfold z2b. rewrite negb_involutive.
  case_match; b2p; [apply wp_ret; by apply post_same|]. wp_go. rewrite room_test by lia.
  case_match; b2p; [apply wp_ret; by apply post_same|].
  apply wp_splice_insert; [done|auto with afl|lia|done|]. intros to from k r Hto Hf Hfk Hk Hz Hbs.
  eapply wp_mono; [apply (wp_insert MUT_SPLICE_INSERT); rewrite ?Hz; [done|lia|lia|auto with afl|wside..|]|done].
  apply ins_intro; [wside|]. exists sp, from, k. split_and!; [done|wside..|done].
Qed.

(** ** Decimal numbers *)

Lemma dec_digits_ok fuel v : Forall (fun b => isdigit b = true) (dec_digits fuel v).
Proof.
  revert v. induction fuel as [|fuel IH]; intros v; cbn [dec_digits]; [constructor|].
  apply Forall_app. split; [destruct (v <? 10); [constructor|apply IH]|].
  constructor; [|constructor]. unfold isdigit. pose proof (Z.mod_pos_bound v 10).
  split_and_true; lia.
Qed.

Lemma dec_digits_max fuel v : zlen (dec_digits fuel v) <= Z.of_nat fuel.
Proof.
  revert v. induction fuel as [|fuel IH]; intros v; cbn [dec_digits]; [done|].
  rewrite zlen_app, zlen_one. specialize (IH (v / 10)).
  destruct (v <? 10); [change (zlen []) with 0|]; lia.
Qed.

Lemma dec_digits_length fuel v :
  1 <= zlen (dec_digits (Datatypes.S fuel) v) <= Z.of_nat (Datatypes.S fuel).
Proof.
  split; [|apply dec_digits_max]. cbn [dec_digits]. rewrite zlen_app, zlen_one.
  match goal with |- context [zlen ?l + 1] => pose proof (zlen_nonneg l) end. lia.
Qed.

Lemma isdigit_byte b : isdigit b = true -> is_u8 b.
Proof. unfold isdigit. intros H0. b2p. unfold in_width. lia. Qed.

Lemma snprintf_dec_ok n v :
  2 <= n -> bytes_ok (snprintf_dec n v) /\ 1 <= zlen (snprintf_dec n v) <= n - 1.
Proof.
  intros Hn. unfold snprintf_dec, print_dec.
  assert (forall w, bytes_ok (dec_digits 20 w)) as Hd.
  { intros w. eapply Forall_impl; [apply isdigit_byte|apply dec_digits_ok]. }
  split.
  - apply Forall_take. destruct (v <? 0); [constructor; [done|apply Hd]|apply Hd].
  - assert (1 <= zlen (if v <? 0 then 45 :: dec_digits 20 (- v) else dec_digits 20 v)).
    { destruct (v <? 0); [rewrite zlen_cons; pose proof (zlen_nonneg (dec_digits 20 (- v))); lia|].
      pose proof (dec_digits_length 19 v). lia. }
    unfold zlen in *. rewrite length_take. lia.
Qed.

(** The digits of an unsigned number, as [%llu] prints them into a large buffer. *)
Lemma snprintf_u64 v :
  is_u64 v -> Forall (fun b => isdigit b = true) (snprintf_dec 32 v) /\
  1 <= zlen (snprintf_dec 32 v) <= 20.
Proof.
  intros [Hv _]. unfold snprintf_dec, print_dec. rewrite (proj2 (Z.ltb_ge v 0)) by lia.
  pose proof (dec_digits_length 19 v) as Hl. split; [apply Forall_take, dec_digits_ok|].
  rewrite take_ge by (unfold zlen in Hl; lia). lia.
Qed.

Lemma wp_scan want n : forall pos Q s,
  0 <= pos -> pos + Z.of_nat n <= len s -> len s <= zlen (buf s) ->
  (forall p, pos <= p <= pos + Z.of_nat n ->
     Forall (fun b => isdigit b <> want) (slice (dat s) pos (p - pos)) ->
     (p < pos + Z.of_nat n -> exists b, slice (dat s) p 1 = [b] /\ isdigit b = want) -> Q p s) ->
  wp (scan n want pos) Q s.
Proof.
  induction n as [|n IH]; intros pos Q s Hp Hn Hl HQ; cbn [scan].
  { apply wp_ret, HQ; [lia| |lia]. rewrite Z.sub_diag. constructor. }
  apply wp_bind, wp_rd; [lia|]. intros b Hb. rewrite <- slice_dat in Hb by lia.
  destruct (Bool.eqb (isdigit b) want) eqn:E.
  - apply wp_ret, HQ; [lia|rewrite Z.sub_diag; constructor|]. intros _. exists b.
    by apply eqb_prop in E.
  - apply IH; [lia..|]. intros p Hpp Hall Hend. apply HQ; [lia| |intros; apply Hend; lia].
    replace (p - pos) with (1 + (p - (pos + 1))) by lia. rewrite <- slice_app by lia.
    apply Forall_app. split; [|done]. rewrite Hb. constructor; [|constructor].
    intros Heq. rewrite Heq in E. by rewrite eqb_reflx in E.
Qed.

Lemma wp_digits_value n : forall pos val Q s,
  0 <= pos -> pos + Z.of_nat n <= zlen (buf s) -> (forall v, Q v s) ->
  wp (digits_value n pos val) Q s.
Proof.
  induction n as [|n IH]; intros pos val Q s Hp Hl HQ; cbn [digits_value]; [by apply wp_ret|].
  apply wp_bind, wp_rd; [lia|]. intros b _. apply IH; [lia..|done].
Qed.

Lemma wp_asciinum_val strat val Q s r :
  (forall v r, Q v (with_src r s)) -> wp (asciinum_val strat val) Q (with_src r s).
Proof.
  intros HQ. unfold asciinum_val.
  repeat (case_match; try (apply wp_ret; apply HQ)); wp_go; try apply HQ.
Qed.

(** The digit the operator works on. *)
Lemma wp_find_digit off Q s r :
  wf_data s -> 0 <= off < len s ->
  Q None (with_src r s) ->
  (forall p b, 0 <= p < len s -> slice (dat s) p 1 = [b] -> isdigit b = true ->
     Q (Some p) (with_src r s)) ->
  wp (find_digit (len s) off) Q (with_src r s).
Proof.
  intros [] Ho HN HS. unfold find_digit. apply wp_bind, wp_scan; [wside..|].
  rewrite dat_with_src. intros p Hp _ Hend. case_match; b2p.
  - apply wp_bind, wp_scan; [wside..|]. rewrite dat_with_src. intros c Hc _ Hcend.
    apply wp_ret. destruct (c =? off) eqn:E; b2p; [done|].
    destruct Hcend as (b&Hb&Hd); [lia|]. apply (HS c b); [lia|done|done].
  - apply wp_ret. destruct Hend as (b&Hb&Hd); [lia|]. apply (HS p b); [lia|done|done].
Qed.

Lemma mut_insertasciinum_ok s :
  wf_data s -> wp mut_insertasciinum (post e MUT_INSERTASCIINUM s) s.
Proof.
  op_start. rewrite wrap_small by (unfold in_width; lia).
  case_match eqn:Efit; b2p.
  { apply wp_ret. destruct (len s <? 8) eqn:E8; b2p; [by apply (post_short _ _ 8); [..|left]|].
    by apply post_same. }
  wp_go. destruct (snprintf_u64 _ H2) as [Hdig Hlen]. set (num := snprintf_dec 32 v1) in *.
  set (io := if 1 + v >? zlen num then _ else _).
  assert (exists i o, io = (i, o) /\ 1 <= i <= 1 + v /\ 0 <= o /\ o + i <= zlen num) as (i&o&->&Hi&Ho&Hio).
  { unfold io. destruct (1 + v >? zlen num) eqn:E; b2p; eexists _, _; (split; [done|lia]). }
  wp_go. eapply wp_opt; [apply load_Some; lia|]. wp_go.
  assert (zlen (slice num o i) = i) as Hz by (apply zlen_slice; lia).
  assert (Forall (fun b => isdigit b = true) (slice num o i)) as Hd by auto with afl.
  apply wp_buf_store; rewrite ?Hz; [wside..|]. wp_go.
  unfold with_src, with_buf; cbn [buf len tmp_buf src].
  eapply post_write; rewrite ?Hz; [done|done|lia|wside| |by right|].
  - eapply Forall_impl; [apply isdigit_byte|exact Hd].
  - cbv beta. rewrite Hz. split; [lia|done].
Qed.

Lemma wp_sign off val Q s r :
  wf_data s -> 0 <= off < len s -> (forall v, Q v (with_src r s)) ->
  wp (if z2b off then b ← rd (off - 1); mret (if b =? 45 then s64 (- val) else val)
      else mret val) Q (with_src r s).
Proof.
  intros [] Ho HQ. unfold z2b. destruct (off =? 0) eqn:E; b2p; cbn [negb]; [by apply wp_ret|].
  apply wp_bind, wp_rd; [wside|]. intros b _. by apply wp_ret.
Qed.

Lemma digit_run_intro d off off2 b :
  0 <= off -> slice d off 1 = [b] -> isdigit b = true ->
  off + 1 <= off2 <= off + 1 + Z.of_nat (Z.to_nat (zlen d - (off + 1))) -> off + 1 <= zlen d ->
  Forall (fun b => isdigit b <> false) (slice d (off + 1) (off2 - (off + 1))) ->
  (off2 < off + 1 + Z.of_nat (Z.to_nat (zlen d - (off + 1))) ->
   exists b, slice d off2 1 = [b] /\ isdigit b = false) ->
  digit_run d off off2.
Proof.
  intros Ho Hb Hd H2 Hl Hall Hend. split_and!; [lia..| |].
  - replace (off2 - off) with (1 + (off2 - (off + 1))) by lia. rewrite <- slice_app by lia.
    apply Forall_app. split; [rewrite Hb; by constructor|].
    eapply Forall_impl; [|exact Hall]. intros x. cbv beta. by destruct (isdigit x).
  - intros. apply Hend. lia.
Qed.

(** Putting a block in place of as many bytes is writing it over them. *)
Lemma replaced_same d off blk :
  0 <= off -> off + zlen blk <= zlen d -> replaced d off blk (off + zlen blk) = splice_at d off blk.
Proof.
  intros. unfold replaced, splice_at. rewrite slice_0. do 2 f_equal.
  unfold slice, zlen. rewrite take_ge; [f_equal; lia|]. rewrite length_drop. lia.
Qed.

(** The number the operator finds and changes is put in place of its digits, by [replace]
    when it has another length. *)
Lemma wp_asciinum size replace Q s :
  wf_data s -> 2 <= size ->
  (too_short 8 (dat s) (dat s) -> forall r, Q Break (with_src r s)) ->
  (forall r, Q Retry (with_src r s)) ->
  (forall off off2 v r, digit_run (dat s) off off2 ->
     (off2 - off = zlen (snprintf_dec size v) ->
      Q Break (with_buf (splice_at (buf s) off (snprintf_dec size v)) (with_src r s))) /\
     wp (replace off (snprintf_dec size v) off2) (fun _ => Q Break) (with_src r s)) ->
  wp (asciinum size replace) Q s.
Proof.
  intros Hs Hsize HB HR HQ. pose proof Hs as []. unfold asciinum. wp_go.
  case_match; b2p; [apply wp_ret; rewrite <- (with_src_self s); apply HB; split; [rewrite zlen_dat; lia|done]|].
  wp_go. apply wp_find_digit; [done|lia| |].
  { wp_go. destruct (len s <? 8) eqn:E8; b2p; [apply HB; split; [rewrite zlen_dat; lia|done]|apply HR]. }
  intros off b Hoff Hb Hdig. wp_go. apply wp_scan; [wside..|]. rewrite dat_with_src.
  intros off2 Hoff2 Hall Hend. st_simpl. wp_go. apply wp_rd; [wside|]. intros d0 _. wp_go.
  apply wp_digits_value; [wside..|]. intros val. wp_go.
  apply wp_sign; [done|lia|]. clear val. intros val. wp_go. apply wp_asciinum_val. clear val.
  intros val r'. wp_go.
  assert (digit_run (dat s) off off2) as Hrun
    by (apply (digit_run_intro _ _ _ b); rewrite ?zlen_dat by lia; try done; lia).
  destruct (HQ off off2 val r' Hrun) as [Hput Hrep].
  case_match eqn:Esame; b2p.
  - apply wp_buf_store; [wside..|]. wp_go. by apply Hput.
  - eapply wp_mono; [exact Hrep|]. intros ? ? ?. by apply wp_ret.
Qed.

Lemma mut_asciinum_ok s : wf_st e s -> wp mut_asciinum (post e MUT_ASCIINUM s) s.
Proof.
  intros Hs. pose proof Hs as [Hwd]. pose proof Hwd as [].
  apply wp_asciinum; [done|done| | |].
  - intros Hshort r. by apply post_same; [..|intros _; left].
  - intros r. by apply post_same.
  - intros off off2 v r Hrun. pose proof Hrun as (Ho&H2&_).
    rewrite zlen_dat in H2 by lia. destruct (snprintf_dec_ok sizeof_pointer v) as [Hok Hlen]; [done|].
    set (num := snprintf_dec sizeof_pointer v) in *. unfold sizeof_pointer in Hlen.
    assert (effect e MUT_ASCIINUM (dat s) (replaced (dat s) off num off2)) as Heff
      by (right; by exists off, off2, v).
    split.
    + intros Hz. unfold with_src, with_buf; cbn [buf len tmp_buf src].
      apply post_over; [done|done|lia|lia|done|].
      rewrite <- replaced_same, Z.add_comm; [|lia|rewrite zlen_dat; lia].
      replace (zlen num + off) with off2 by lia. done.
    + eapply wp_mono; [apply (wp_insert MUT_ASCIINUM); [done|lia|lia|done|wside..|exact Heff]|]. done.
Qed.

End Operators.
