(* ===== verification/MutationsTerm.v ===== *)
(** * Termination of the havoc stage

    The loops of [afl_mutate] end with probability one only.  On a scripted source,
    which answers from a finite list, every iteration of a loop consumes an answer;
    so with more fuel than answers a run ends or asks for an answer that is not
    there, and never exhausts its fuel. *)

From S2P Require Import Prelude Rng MutTables Mutations.

(** [calm F m P]: from a state with fewer than [F] answers left, [m] does not run out
    of fuel, uses up no more than the answers there are, and returns a value in [P]. *)
Definition calm {A} (F : nat) (m : M (list Z) A) (P : A -> Prop) : Prop :=
  forall s, (length (src s) < F)%nat -> is_u32 (len s) ->
  match m s with
  | Ok (a, s') => P a /\ (length (src s') <= length (src s))%nat /\ is_u32 (len s')
  | Fault | NoRand => True
  | NoFuel => False
  end.

Abbreviation calm_ F m := (calm F m (fun _ => True)).

Section Calm.
Context (F : nat).

Lemma calm_ret {A} (a : A) (P : A -> Prop) : P a -> calm F (mret a) P.
Proof. intros HP s Hs Hl. done. Qed.

Lemma calm_bind {A B} (m : M (list Z) A) (k : A -> M (list Z) B) P Q :
  calm F m P -> (forall a, P a -> calm F (k a) Q) -> calm F (m ≫= k) Q.
Proof.
  intros Hm Hk s Hs Hl. unfold mbind, M_bind. specialize (Hm s Hs Hl).
  destruct (m s) as [[a s']| | |]; try done. destruct Hm as (HP&Hs'&Hl').
  specialize (Hk a HP s' ltac:(lia) Hl'). destruct (k a s') as [[b s'']| | |]; try done.
  destruct Hk as (?&?&?). split_and!; [done|lia|done].
Qed.

Lemma calm_bind_ {A B} (m : M (list Z) A) (k : A -> M (list Z) B) Q :
  calm_ F m -> (forall a, calm F (k a) Q) -> calm F (m ≫= k) Q.
Proof. intros Hm Hk. eapply calm_bind; [exact Hm|auto]. Qed.

Lemma calm_weaken {A} (m : M (list Z) A) P : calm F m P -> calm_ F m.
Proof.
  intros Hm s Hs Hl. specialize (Hm s Hs Hl). destruct (m s) as [[a s']| | |]; try done.
  by destruct Hm as (_&?).
Qed.

Lemma calm_len {B} (k : Z -> M (list Z) B) Q :
  (forall l, is_u32 l -> calm F (k l) Q) -> calm F (gets len ≫= k) Q.
Proof. intros Hk s Hs Hl. by apply Hk. Qed.

Lemma calm_opt {A} (o : option A) : calm_ F (fault_opt o).
Proof. intros s Hs Hl. by destruct o. Qed.

Lemma calm_set_len l : calm_ F (set_len (u32 l)).
Proof. intros s Hs Hl. split_and!; [done|done|]. apply wrap_range. lia. Qed.

Lemma rand_script limit s a s' :
  rand limit s = Ok (a, s') ->
  len s' = len s /\ (length (src s') <= length (src s))%nat /\
  (1 < u32 limit -> (length (src s') < length (src s))%nat).
Proof.
  unfold rand. cbn [rs_below script_source]. unfold script_below.
  destruct (u32 limit <=? 1) eqn:E; b2p.
  - intros [= <- <-]. cbn. split_and!; [done|lia|lia].
  - destruct (src s) as [|x l]; [done|]. intros [= <- <-]. cbn. split_and!; [done|lia|lia].
Qed.

Lemma calm_rand limit : calm_ F (rand limit).
Proof.
  intros s Hs Hl. destruct (rand limit s) as [[a s']| | |] eqn:E; try done.
  - apply rand_script in E as (->&?&_). done.
  - revert E. unfold rand. by destruct (rs_below _ _) as [[]|].
Qed.

Lemma calm_rand_u64 : calm_ F rand_u64.
Proof.
  intros s Hs Hl. unfold rand_u64. cbn [rs_next script_source]. unfold script_next.
  destruct (src s) eqn:E; cbn [src len length]; split_and!; try done; lia.
Qed.

Lemma calm_buf_load off n : calm_ F (buf_load off n).
Proof. intros s Hs Hl. unfold buf_load. by destruct (load _ _ _). Qed.
Lemma calm_tmp_load off n : calm_ F (tmp_load off n).
Proof. intros s Hs Hl. unfold tmp_load. by destruct (load _ _ _). Qed.
Lemma calm_buf_store off bs : calm_ F (buf_store off bs).
Proof. intros s Hs Hl. unfold buf_store. by destruct (store _ _ _). Qed.
Lemma calm_tmp_store off bs : calm_ F (tmp_store off bs).
Proof. intros s Hs Hl. unfold tmp_store. by destruct (store _ _ _). Qed.

Lemma draw_other_calm limit avoid : 1 < limit < 2 ^ 32 -> calm_ F (draw_other F limit avoid).
Proof.
  intros Hlim. assert (forall f s, (length (src s) < f)%nat -> is_u32 (len s) ->
    match draw_other f limit avoid s with
    | Ok (a, s') => True /\ (length (src s') <= length (src s))%nat /\ is_u32 (len s')
    | Fault | NoRand => True
    | NoFuel => False
    end) as Hf; [|exact (Hf F)].
  induction f as [|f IH]; intros s Hs Hl; [lia|]. cbn [draw_other]. unfold mbind, M_bind.
  pose proof (calm_rand limit) as Hr. unfold calm in Hr.
  destruct (rand limit s) as [[a s']| | |] eqn:E; try done.
  - apply rand_script in E as (El&?&Hlt). rewrite wrap_small in Hlt by (unfold in_width; lia).
    destruct (a =? avoid).
    + specialize (IH s' ltac:(lia) ltac:(by rewrite El)).
      destruct (draw_other f limit avoid s') as [[]| | |]; try done.
      destruct IH as (?&?&?). split_and!; [done|lia|done].
    + split_and!; [done|lia|by rewrite El].
  - revert E. unfold rand. by destruct (rs_below _ _) as [[]|].
Qed.

End Calm.

Create HintDb calm.
#[export] Hint Resolve calm_opt calm_rand calm_rand_u64 calm_set_len calm_buf_load calm_tmp_load
  calm_buf_store calm_tmp_store : calm.

(** Follows the structure of a straight-line operator. *)
Ltac calm_step :=
  cbv zeta;
  lazymatch goal with
  | |- calm _ (gets len ≫= _) _ => apply calm_len; intros ? ?
  | |- calm _ (_ ≫= _) _ => apply calm_bind_; [|intros ?]
  | |- calm _ (mret _) _ => by apply calm_ret
  | |- calm _ (if ?b then _ else _) _ => destruct b eqn:?
  | |- calm _ (match ?x with (a, b) => _ end) _ => destruct x
  | |- calm _ (match ?x with _ => _ end) _ => destruct x eqn:?
  | _ => solve [auto with calm]
  end.
Ltac calm_tac := repeat calm_step.

Section Operators.
Context (F : nat) (e : env).

Lemma rd_calm off : calm_ F (rd off).
Proof. unfold rd. calm_tac. Qed.
Lemma wr_calm off v : calm_ F (wr off v).
Proof. unfold wr. calm_tac. Qed.
Lemma wr16_calm off v : calm_ F (wr16 off v).
Proof. unfold wr16. calm_tac. Qed.
Lemma wr32_calm off v : calm_ F (wr32 off v).
Proof. unfold wr32. calm_tac. Qed.
#[local] Hint Resolve rd_calm wr_calm wr16_calm wr32_calm : calm.
Lemma upd_calm off f : calm_ F (upd off f).
Proof. unfold upd. calm_tac. Qed.
Lemma upd16_calm off f : calm_ F (upd16 off f).
Proof. unfold upd16, rd16. calm_tac. Qed.
Lemma upd32_calm off f : calm_ F (upd32 off f).
Proof. unfold upd32, rd32. calm_tac. Qed.
Lemma memmove_calm a b n : calm_ F (buf_memmove a b n).
Proof. unfold buf_memmove. calm_tac. Qed.
#[local] Hint Resolve upd_calm upd16_calm upd32_calm memmove_calm : calm.
Lemma memcpy_calm a b n : calm_ F (buf_memcpy a b n).
Proof. unfold buf_memcpy. calm_tac. Qed.
Lemma via_tmp_calm a b n : calm_ F (via_tmp a b n).
Proof. unfold via_tmp. calm_tac. Qed.
Lemma fixed_item_calm a b : calm_ F (fixed_item a b).
Proof. unfold fixed_item. calm_tac. Qed.
#[local] Hint Resolve memcpy_calm via_tmp_calm fixed_item_calm : calm.

Lemma choose_block_len_u32 limit : calm F (choose_block_len e limit) is_u32.
Proof.
  unfold choose_block_len. cbv zeta. apply calm_bind_; [auto with calm|]. intros c.
  apply calm_bind_; [calm_tac|]. intros [lo hi]. cbv zeta.
  apply calm_bind_; [auto with calm|]. intros d. apply calm_ret, wrap_range. lia.
Qed.

Lemma choose_block_len_calm limit : calm_ F (choose_block_len e limit).
Proof. eapply calm_weaken, choose_block_len_u32. Qed.
#[local] Hint Resolve choose_block_len_calm : calm.

Lemma shuffle_loop_calm off i : Z.of_nat i < 2 ^ 32 - 1 -> calm_ F (shuffle_loop F off i).
Proof.
  induction i as [|i IH]; intros Hi; cbn [shuffle_loop]; [by apply calm_ret|].
  apply calm_bind_; [apply draw_other_calm; lia|]. intros j.
  repeat (apply calm_bind_; [auto with calm|intros ?]). apply IH. lia.
Qed.

Lemma scan_calm n want : forall pos, calm_ F (scan n want pos).
Proof. induction n as [|n IH]; intros pos; cbn [scan]; calm_tac. Qed.
Lemma digits_value_calm n : forall pos val, calm_ F (digits_value n pos val).
Proof. induction n as [|n IH]; intros pos val; cbn [digits_value]; calm_tac. Qed.
Lemma asciinum_val_calm strat val : calm_ F (asciinum_val strat val).
Proof. unfold asciinum_val. calm_tac. Qed.
#[local] Hint Resolve scan_calm digits_value_calm asciinum_val_calm : calm.
Lemma find_digit_calm l off : calm_ F (find_digit l off).
Proof. unfold find_digit. calm_tac. Qed.
#[local] Hint Resolve find_digit_calm : calm.

Lemma mut_shuffle_calm : calm_ F (mut_shuffle F e).
Proof.
  unfold mut_shuffle. apply calm_len. intros l Hl. calm_step; [calm_step|].
  eapply calm_bind; [apply choose_block_len_u32|]. intros blen Hb.
  apply calm_bind_; [auto with calm|]. intros off. apply calm_bind_; [|intros ?; calm_tac].
  apply shuffle_loop_calm. unfold in_width in Hb. lia.
Qed.

Lemma mut_switch_calm : calm_ F (mut_switch F e).
Proof.
  unfold mut_switch. apply calm_len. intros l Hl. calm_step; [calm_step|]. b2p.
  apply calm_bind_; [auto with calm|]. intros from.
  apply calm_bind_; [apply draw_other_calm; unfold in_width in Hl; lia|]. intros to. calm_tac.
Qed.

Lemma apply_mut_calm m : calm_ F (apply_mut F e m).
Proof.
  destruct m; cbn [apply_mut]; try apply mut_shuffle_calm; try apply mut_switch_calm;
  lazymatch goal with |- calm _ ?f _ =>
    let f' := eval red in f in change f with f' end;
  unfold extra_overwrite, extra_insert, clone_copy, clone_fixed, insertone, asciinum, splice_overwrite, splice_insert; calm_tac.
Qed.

Lemma havoc_step_calm table tries s :
  (length (src s) < tries)%nat -> (length (src s) < F)%nat -> is_u32 (len s) ->
  match havoc_step F e table tries s with
  | Ok (_, s') => (length (src s') <= length (src s))%nat /\ is_u32 (len s')
  | Fault | NoRand => True
  | NoFuel => False
  end.
Proof.
  revert s. induction tries as [|tries IH]; intros s Ht Hs Hl; [lia|]. cbn [havoc_step].
  unfold mbind, M_bind. destruct (rand _ s) as [[r s1]| | |] eqn:E; try done.
  - apply rand_script in E as (El&_&Hlt). specialize (Hlt eq_refl).
    unfold fault_opt. destruct (get table r) as [m|]; [|done].
    pose proof (apply_mut_calm m s1 ltac:(lia) ltac:(by rewrite El)) as Hm.
    destruct (apply_mut F e m s1) as [[c s2]| | |]; try done. destruct Hm as (_&Hs2&Hl2).
    destruct c; cbn; [split; [lia|done]|].
    specialize (IH s2 ltac:(lia) ltac:(lia) Hl2).
    destruct (havoc_step F e table tries s2) as [[]| | |]; try done. destruct IH. split; [lia|done].
  - revert E. unfold rand. by destruct (rs_below _ _) as [[]|].
Qed.

Lemma havoc_steps_calm table n : calm_ F (havoc_steps F e table n).
Proof.
  induction n as [|n IH]; cbn [havoc_steps]; [by apply calm_ret|].
  apply calm_bind_; [|auto]. intros s Hs Hl.
  pose proof (havoc_step_calm table F s Hs Hs Hl) as Hst.
  destruct (havoc_step _ _ _ _ _) as [[]| | |]; done.
Qed.

End Operators.
#[export] Hint Resolve rd_calm wr_calm wr16_calm wr32_calm upd_calm upd16_calm upd32_calm memmove_calm
  memcpy_calm via_tmp_calm fixed_item_calm choose_block_len_calm scan_calm digits_value_calm
  asciinum_val_calm find_digit_calm mut_shuffle_calm mut_switch_calm : calm.

(** ** Property *)

(** C29. On every finite list of random answers [afl_mutate] ends within as many
    iterations of its retry and redraw loops as there are answers: with that much
    fuel it does not run out of it. *)
Theorem afl_mutate_terminates e is_text is_exploration steps tmp block b l (script : list Z) :
  is_u32 l ->
  afl_mutate (Datatypes.S (length script)) e is_text is_exploration steps tmp block b l script
  <> NoFuel.
Proof.
  intros Hl. unfold afl_mutate. destruct b as [b|]; [|done]. destruct (l =? 0); [done|].
  destruct (grow_tmp _ _ _) as [t|]; [|done].
  pose proof (havoc_steps_calm (Datatypes.S (length script)) e
    (mutation_array is_text is_exploration) steps (Mst b l t script)) as Hc.
  cbn [src len] in Hc. specialize (Hc ltac:(lia) Hl).
  destruct (havoc_steps _ _ _ _ _) as [[]| | |]; done.
Qed.

Definition term_env : env := Env 16 None 0 [] 0 [] 0 1 false.

Theorem afl_mutate_terminates_witness :
  is_u32 4 /\
  afl_mutate 5 term_env true true 2 [] (Some (replicate 16 0)) (Some (replicate 16 65)) 4 [0; 1; 2; 3]
  <> NoFuel.
Proof.
  assert (is_u32 4) as H by done. split; [exact H|].
  exact (afl_mutate_terminates term_env true true 2 [] (Some (replicate 16 0))
    (Some (replicate 16 65)) 4 [0; 1; 2; 3] H).
Defined.
