(* ===== verification/MutationsRun.v ===== *)
(** * Whole runs of [afl_mutate]

    The switch, the retry loop and the loop over the steps: memory safety and the
    effect of a run, termination on every finite sequence of random answers, and the
    overflow of the operators that do not look at [max_len]. *)

From S2P Require Import Prelude Rng MutTables Mutations MutationsFacts MutationsOps.

Section Runs.
Context {S : Type} `{RandSource S}.
Implicit Types (s : mst S).

Lemma apply_mut_ok fuel e m s :
  wf_env e -> wf_st e s -> wp (apply_mut fuel e m) (post e m s) s.
Proof.
  intros He Hs. pose proof (we_extras e He). pose proof (we_a_extras e He). pose proof (ws_data e s Hs).
  destruct m; cbn [apply_mut];
  [ by apply mut_flipbit_ok | by apply mut_interesting8_ok | by apply mut_interesting16_ok
  | by apply mut_interesting16be_ok | by apply mut_interesting32_ok
  | by apply mut_interesting32be_ok | by apply mut_arith8_sub_ok | by apply mut_arith8_ok
  | by apply mut_arith16_sub_ok | by apply mut_arith16be_sub_ok | by apply mut_arith16_ok
  | by apply mut_arith16be_ok | by apply mut_arith32_sub_ok | by apply mut_arith32be_sub_ok
  | by apply mut_arith32_ok | by apply mut_arith32be_ok | by apply mut_rand8_ok
  | by apply mut_clone_copy_ok | by apply mut_clone_fixed_ok
  | by apply mut_overwrite_copy_ok | by apply mut_overwrite_fixed_ok
  | by apply mut_byteadd_ok | by apply mut_bytesub_ok | by apply mut_flip8_ok
  | by apply mut_switch_ok | by apply mut_del_ok | by apply mut_shuffle_ok
  | by apply mut_delone_ok | by apply mut_insertone_ok | by apply mut_asciinum_ok
  | by apply mut_insertasciinum_ok | by apply extra_overwrite_ok | by apply extra_insert_ok
  | by apply extra_overwrite_ok | by apply extra_insert_ok
  | by apply mut_splice_overwrite_ok | by apply mut_splice_insert_ok ].
Qed.

(** A run of [n] operators of [table] on the data. *)
Inductive havoc_chain (e : env) (table : list mut) : nat -> list Z -> list Z -> Prop :=
| chain_nil d : havoc_chain e table 0 d d
| chain_cons n m d d1 d2 :
    m ∈ table -> effect e m d d1 -> havoc_chain e table n d1 d2 ->
    havoc_chain e table (Datatypes.S n) d d2.

(** Allocations with room for [n] more steps. *)
Record roomy (e : env) (n : nat) (s : mst S) : Prop := {
  ro_len : 1 <= len s;
  ro_buf : Z.max (len s) (max_len e) + 6 * Z.of_nat n <= zlen (buf s) < 2 ^ 31;
  ro_tmp : Z.max (len s) (max_len e) + 6 * Z.of_nat n <= zlen (tmp_buf s);
  ro_bytes : bytes_ok (dat s)
}.

Lemma roomy_wf e n s : roomy e (Datatypes.S n) s -> wf_st e s.
Proof. intros []. split; [split|..]; lia || done. Qed.

Lemma growth_max m : 0 <= growth m <= 6.
Proof. destruct m; cbn; lia. Qed.

Lemma havoc_step_ok fuel e table tries n s :
  wf_env e -> zlen table = MUT_STRATEGY_ARRAY_SIZE -> roomy e (Datatypes.S n) s ->
  wp (havoc_step fuel e table tries)
     (fun _ s' => roomy e n s' /\ zlen (buf s') = zlen (buf s) /\
        len s' <= Z.max (len s) (max_len e) + 6 /\
        exists m, m ∈ table /\ effect e m (dat s) (dat s')) s.
Proof.
  intros He Ht. revert s. induction tries as [|tries IH]; intros s Hr; [done|].
  cbn [havoc_step]. apply wp_bind, wp_rand; [done|]. intros r src' Hr'.
  destruct (zlen_lookup table r) as [m Hm]; [rewrite Ht; done|].
  apply wp_bind. apply (wp_opt _ m).
  { unfold get. by rewrite (proj2 (Z.leb_le 0 r)) by lia. }
  assert (roomy e (Datatypes.S n) (with_src src' s)) as Hr2 by (by destruct Hr).
  apply wp_bind. eapply wp_mono; [apply apply_mut_ok; [done|by eapply roomy_wf]|].
  intros c s' []. st_simpl. destruct Hr as []. pose proof (growth_max m).
  destruct c.
  - apply wp_ret. split_and!; [split; lia || done|done|lia|].
    exists m. split; [by eapply list_elem_of_lookup_2|done].
  - destruct po_effect as [El Ed]. rewrite dat_with_src in Ed.
    eapply wp_mono; [apply IH; split; rewrite ?El, ?Ed; lia || done|].
    cbv beta. intros _ s'' (Hr3&Hb&Hl&m'&Hm'&He'). rewrite El in Hl. rewrite Ed in He'.
    split_and!; [done|lia|lia|by exists m'].
Qed.

Lemma havoc_steps_ok fuel e table n : forall s,
  wf_env e -> zlen table = MUT_STRATEGY_ARRAY_SIZE -> roomy e n s ->
  wp (havoc_steps fuel e table n)
     (fun _ s' => 1 <= len s' <= Z.max (len s) (max_len e) + 6 * Z.of_nat n /\
        len s' <= zlen (buf s') /\ zlen (buf s') = zlen (buf s) /\
        bytes_ok (dat s') /\ havoc_chain e table n (dat s) (dat s')) s.
Proof.
  induction n as [|n IH]; intros s He Ht Hr; cbn [havoc_steps].
  - apply wp_ret. destruct Hr. split_and!; [lia..|done|constructor].
  - apply wp_bind. eapply wp_mono; [by apply havoc_step_ok|]. cbv beta.
    intros _ s1 (Hr1&Hb1&Hl1&m&Hm&He1). eapply wp_mono; [by apply IH|]. cbv beta.
    intros _ s2 (Hl2&Hlb&Hb2&Hok&Hc). split_and!; [lia..|done|]. by econstructor.
Qed.

Lemma mutation_array_length is_text is_exploration :
  zlen (mutation_array is_text is_exploration) = MUT_STRATEGY_ARRAY_SIZE.
Proof. by destruct is_text, is_exploration; vm_compute. Qed.

(** ** Properties *)

(** C7. From a state with six spare bytes in both allocations ([wf_st], which the
    callers of [afl_mutate] do not guarantee: without them [MUT_INSERTONE] and
    [MUT_ASCIINUM] may write behind the buffer) every case of the switch stays inside
    them, keeps a length between 1 and the larger of the old length and [max_len] (one
    more for [MUT_INSERTONE], six more for [MUT_ASCIINUM]), and changes the data as
    [effect] says of that operator; a case that goes to [retry_havoc_step] leaves the
    data alone. *)
Theorem apply_mut_correct fuel e m s :
  wf_env e -> wf_st e s ->
  match apply_mut fuel e m s with
  | Ok (c, s') => post e m s c s'
  | Fault => False
  | NoRand | NoFuel => True
  end.
Proof. intros. by apply (apply_mut_ok fuel e m s). Qed.

(** C28. A call of [afl_mutate] whose buffers have six spare bytes per step never
    leaves them: it returns a positive length of at most the larger of [len] and
    [max_len] plus six per step, and the data it leaves is reached by one operator of
    the selected table per step. *)
Theorem afl_mutate_correct fuel e is_text is_exploration steps tmp block t b l r :
  wf_env e -> 1 <= l -> bytes_ok b -> zlen b < 2 ^ 31 ->
  grow_tmp tmp (max_len e) block = Some t ->
  Z.max l (max_len e) + 6 * Z.of_nat steps <= Z.min (zlen b) (zlen t) ->
  match afl_mutate fuel e is_text is_exploration steps tmp block (Some b) l r with
  | Ok (l', s') =>
      1 <= l' <= Z.max l (max_len e) + 6 * Z.of_nat steps /\ zlen (buf s') = zlen b /\
      havoc_chain e (mutation_array is_text is_exploration) steps
        (slice b 0 l) (slice (buf s') 0 l')
  | Fault => False
  | NoRand | NoFuel => True
  end.
Proof.
  intros He Hl Hb Hw Hg Hcap. unfold afl_mutate. rewrite (proj2 (Z.eqb_neq l 0)), Hg by lia.
  assert (roomy e steps (Mst b l t r)) as Hr.
  { split; cbn [len buf tmp_buf]; [lia..|]. unfold dat. auto with afl. }
  pose proof (havoc_steps_ok fuel e (mutation_array is_text is_exploration) steps
    (Mst b l t r) He (mutation_array_length _ _) Hr) as H0.
  unfold wp in H0. destruct (havoc_steps _ _ _ _ _) as [[[] s']| | |]; try done.
  destruct H0 as (?&_&?&_&?). done.
Qed.

(** The error returns of [afl_mutate]: a null buffer, an empty input or a failed
    allocation give length 0 and leave the buffer and the generator alone. *)
Theorem afl_mutate_errors fuel e is_text is_exploration steps tmp block b l r :
  b = None \/ l = 0 \/ (max_len e > zlen tmp /\ block = None) ->
  afl_mutate fuel e is_text is_exploration steps tmp block b l r
  = Ok (0, Mst (default [] b) l tmp r).
Proof.
  intros Hc. unfold afl_mutate. destruct b as [b|]; [|done].
  destruct (l =? 0) eqn:El; b2p; [done|]. destruct Hc as [?|[?|[Hm ->]]]; [done..|].
  unfold grow_tmp. rewrite (proj2 (Z.gtb_lt _ _)) by lia. done.
Qed.

End Runs.

(** ** Concrete runs *)

Definition demo_env : env :=
  Env 20 (Some [7; 8; 9]) 3 [Extra [1; 2] 2] 1 [] 0 1 false.

Definition demo_st (script : list Z) : mst (list Z) :=
  Mst ([65; 66; 67; 68; 49; 50; 70; 71] ++ replicate 24 0) 8 (replicate 32 0) script.

Lemma demo_env_wf : wf_env demo_env.
Proof.
  split; cbn; try lia.
  - repeat split; repeat constructor; cbn; unfold zlen; cbn; lia.
  - repeat split; repeat constructor; cbn; unfold zlen; cbn; lia.
  - intros sp [= <-]. split; [repeat constructor; done|]. unfold zlen. cbn. lia.
Qed.

Lemma demo_st_wf script : wf_st demo_env (demo_st script).
Proof.
  split; [split|..]; try (unfold zlen; cbn; lia). apply (bool_decide_unpack _). by vm_compute.
Qed.

Theorem apply_mut_witness :
  exists s', apply_mut 3 demo_env MUT_SWITCH (demo_st [1; 5; 0; 2]) = Ok (Break, s') /\
    post demo_env MUT_SWITCH (demo_st [1; 5; 0; 2]) Break s'.
Proof.
  pose proof (apply_mut_correct 3 demo_env MUT_SWITCH (demo_st [1; 5; 0; 2]) demo_env_wf
    (demo_st_wf _)) as H.
  eexists. split; [vm_compute; reflexivity|exact H].
Defined.

Theorem afl_mutate_witness :
  exists l' s', afl_mutate 3 demo_env true true 2 (replicate 32 0) None
      (Some ([65; 66; 67; 68] ++ replicate 28 0)) 4 [0; 1; 2; 0; 3; 1] = Ok (l', s') /\
    1 <= l' <= 32 /\
    havoc_chain demo_env (mutation_array true true) 2 [65; 66; 67; 68] (slice (buf s') 0 l').
Proof.
  pose proof (afl_mutate_correct 3 demo_env true true 2 (replicate 32 0) None (replicate 32 0)
    ([65; 66; 67; 68] ++ replicate 28 0) 4 [0; 1; 2; 0; 3; 1] demo_env_wf) as H.
  destruct (afl_mutate 3 demo_env true true 2 (replicate 32 0) None
    (Some ([65; 66; 67; 68] ++ replicate 28 0)) 4 [0; 1; 2; 0; 3; 1]) as [[l' s']| | |] eqn:E;
    [|vm_compute in E; discriminate E..].
  exists l', s'. destruct H as (Hl&_&Hc);
    [lia| |by vm_compute|done|by vm_compute|split_and!; [done|apply Hl|apply Hl|exact Hc]].
  apply (bool_decide_unpack _). by vm_compute.
Defined.

Theorem afl_mutate_errors_witness :
  afl_mutate 3 demo_env true true 2 [] None (Some [65]) 1 [0; 1]
  = Ok (0, Mst [65] 1 [] [0; 1]).
Proof. apply (afl_mutate_errors 3 demo_env true true 2 [] None (Some [65]) 1 [0; 1]). right. right. done. Defined.


(** ** The operators that do not look at [max_len] *)

Lemma via_tmp_full (s : mst (list Z)) v :
  0 <= len s < 2 ^ 31 -> len s <= zlen (buf s) -> zlen (tmp_buf s) = len s -> 0 < len s ->
  via_tmp 0 [v] 0 s = Fault.
Proof.
  intros Hl Hb Ht Hp. unfold via_tmp, mbind, M_bind, gets, buf_load, tmp_store.
  rewrite load_Some by lia. change (slice (buf s) 0 0) with (@nil Z).
  rewrite store_Some by (change (zlen (@nil Z)) with 0; lia).
  change (splice_at (tmp_buf s) 0 []) with (tmp_buf s). cbn [buf tmp_buf len src].
  rewrite store_Some by (rewrite ?zlen_one; lia). cbn [buf tmp_buf len src].
  rewrite (wrap_small 32 (len s - 0)) by (unfold in_width; lia).
  rewrite load_Some by lia. cbn [buf tmp_buf len src]. rewrite zlen_one.
  unfold store at 1. rewrite in_bounds_false; [done|].
  rewrite zlen_slice, zlen_splice_at, Ht by (rewrite ?zlen_one; lia). lia.
Qed.

Lemma rand_scripted limit x l s :
  1 < u32 limit -> src s = x :: l -> rand limit s = Ok (x mod u32 limit, with_src l s).
Proof.
  intros Hl Hs. unfold rand. cbn [rs_below script_source]. unfold script_below.
  rewrite (proj2 (Z.leb_gt _ 1)) by done. by rewrite Hs.
Qed.

Lemma insertone_fault e b t l :
  2 <= l < 2 ^ 31 -> zlen b = l -> zlen t = l ->
  apply_mut 1 e MUT_INSERTONE (Mst b l t [0; 1; 65]) = Fault.
Proof.
  intros Hl Hb Ht. cbn [apply_mut]. unfold mut_insertone, insertone, mbind at 1, M_bind at 1, gets. cbn [len].
  rewrite (proj2 (Z.ltb_ge l 2)) by lia. unfold mbind at 1, M_bind at 1.
  assert (u32 l = l) as El by (apply wrap_small; unfold in_width; lia).
  rewrite (rand_scripted l 0 [1; 65]) by (rewrite ?El; lia || done). rewrite El, Z.mod_0_l by lia.
  unfold mbind at 1, M_bind at 1. rewrite (rand_scripted 2 1 [65]) by done.
  change (1 mod u32 2) with 1. unfold mbind at 1, M_bind at 1.
  unfold fixed_item. change (z2b 1) with true. cbv beta iota zeta.
  rewrite (rand_scripted 256 65 []) by done. unfold mbind at 1, M_bind at 1.
  by rewrite via_tmp_full by (cbn; lia).
Qed.

(** [MUT_INSERTONE] writes past its allocations when the input has reached
    [max_len]: whatever the input, with a buffer of exactly [max_len] bytes, the size
    the interface asks for, and the [tmp_buf] of [max_len] bytes that [afl_mutate]
    allocates itself, one step can leave the allocation. *)
Theorem afl_mutate_overflow e b t :
  2 <= max_len e < 2 ^ 31 -> zlen b = max_len e -> zlen t = max_len e ->
  afl_mutate 1 e true true 1 [] (Some t) (Some b) (max_len e) [187; 0; 1; 65] = Fault.
Proof.
  intros Hm Hb Ht. unfold afl_mutate, grow_tmp. rewrite (proj2 (Z.eqb_neq _ 0)) by lia.
  rewrite (proj2 (Z.gtb_lt (max_len e) (zlen []))) by (change (zlen (@nil Z)) with 0; lia).
  cbn [havoc_steps havoc_step]. unfold mbind, M_bind.
  change (rand MUT_STRATEGY_ARRAY_SIZE (Mst b (max_len e) t [187; 0; 1; 65]))
    with (Ok (187, Mst b (max_len e) t [0; 1; 65])).
  cbv beta iota. change (get (mutation_array true true) 187) with (Some MUT_INSERTONE).
  unfold fault_opt. rewrite insertone_fault by (done || lia). done.
Qed.

Theorem afl_mutate_overflow_witness :
  max_len demo_env = 20 /\
  afl_mutate 1 demo_env true true 1 [] (Some (replicate 20 0)) (Some (replicate 20 65)) 20
    [187; 0; 1; 65] = Fault.
Proof.
  split; [done|]. apply (afl_mutate_overflow demo_env (replicate 20 65) (replicate 20 0));
    [split; done|done|done].
Defined.

(** Every draw of an operator hits its table: the bound of the draw is the length
    of the table, in [afl_mutate] as in the havoc stage of the fuzzer, every table
    offers an operator that never asks for a retry, and the four strategies of
    [afl_mutate] offer every operator. *)
Theorem tables_correct input_mode fuzz_mode is_text is_exploration :
  let '(table, rand_max) := havoc_array input_mode fuzz_mode in
  zlen table = rand_max /\ MUT_FLIPBIT ∈ table /\
  zlen (mutation_array is_text is_exploration) = MUT_STRATEGY_ARRAY_SIZE /\
  forall m, m ∈ mutation_array is_text is_exploration.
Proof.
  assert (forall m, m ∈ mutation_array is_text is_exploration) as Hall.
  { intros m. apply (bool_decide_unpack _). by destruct is_text, is_exploration, m; vm_compute. }
  pose proof (mutation_array_length is_text is_exploration) as Hlen.
  unfold havoc_array. repeat case_match; simplify_eq;
    (split_and!; [done|apply (bool_decide_unpack _); by vm_compute|done|done]).
Qed.
