(* ===== verification/Diffs.v ===== *)
(** * Redundancy tests of the deterministic stages

    [could_be_bitflip], [could_be_arith], [could_be_interest] and [locate_diffs] of
    [src/afl-fuzz-one.c]: the predicates that keep the deterministic stages from
    executing a change an earlier stage has tried, and the comparison that picks a
    splicing point. *)

From stdpp Require Import sets.
From S2P Require Import Prelude MutTables Mutations MutationsFacts MutationsOps.

(** ** Definitions *)

(** The [while] loop of [could_be_bitflip]: a non-zero 32-bit value has its lowest
    bit within 32 steps. *)
Fixpoint shift_out (fuel : nat) (xor_val sh : Z) : option (Z * Z) :=
  if Z.land xor_val 1 =? 0 then
    match fuel with
    | O => None
    | S fuel => shift_out fuel (Z.shiftr xor_val 1) (sh + 1)
    end
  else Some (xor_val, sh).

Definition could_be_bitflip (xor_val : Z) : option bool :=
  if xor_val =? 0 then Some true
  else
    '(xor_val, sh) ← shift_out 32 xor_val 0;
    Some (if (xor_val =? 1) || (xor_val =? 3) || (xor_val =? 15) then true
          else if z2b (Z.land sh 7) then false
          else (xor_val =? 0xff) || (xor_val =? 0xffff) || (xor_val =? 0xffffffff)).

(** The loops of [could_be_arith] over the [n] lanes of [w] bits, from lane [i] on. *)
Fixpoint lane_diffs (w : Z) (n : nat) (i : Z) (old_val new_val : Z) (acc : Z * Z * Z) : Z * Z * Z :=
  match n with
  | O => acc
  | S n =>
      let a := wrap w (Z.shiftr old_val (w * i)) in
      let b := wrap w (Z.shiftr new_val (w * i)) in
      let '(diffs, ov, nv) := acc in
      lane_diffs w n (i + 1) old_val new_val
        (if negb (a =? b) then (diffs + 1, a, b) else acc)
  end.

(** [(uN)(ov - nv) <= ARITH_MAX || (uN)(nv - ov) <= ARITH_MAX] *)
Definition near (w ov nv : Z) : bool :=
  (wrap w (ov - nv) <=? ARITH_MAX) || (wrap w (nv - ov) <=? ARITH_MAX).

Definition could_be_arith (old_val new_val blen : Z) : bool :=
  if old_val =? new_val then true
  else
    let '(diffs, ov, nv) := lane_diffs 8 (Z.to_nat blen) 0 old_val new_val (0, 0, 0) in
    if (diffs =? 1) && near 8 ov nv then true
    else if blen =? 1 then false
    else
      let '(diffs, ov, nv) := lane_diffs 16 (Z.to_nat (blen / 2)) 0 old_val new_val (0, ov, nv) in
      if (diffs =? 1) && (near 16 ov nv || near 16 (SWAP16 ov) (SWAP16 nv)) then true
      else if blen =? 4 then
        near 32 old_val new_val || near 32 (SWAP32 old_val) (SWAP32 new_val)
      else false.

(** [(old_val & ~(mask << (i * 8))) | (v << (i * 8))] on 32 bits. *)
Definition put_at (old_val mask v i : Z) : Z :=
  Z.lor (Z.land old_val (u32 (Z.lnot (Z.shiftl mask (i * 8))))) (u32 (Z.shiftl v (i * 8))).

Definition could_be_interest (old_val new_val blen : Z) (check_le : bool) : bool :=
  if old_val =? new_val then true
  else if existsb (fun i => existsb (fun x => new_val =? put_at old_val 0xff (u8 x) i)
                              interesting_8) (seqZ 0 blen) then true
  else if (blen =? 2) && negb check_le then false
  else if existsb (fun i => existsb (fun x =>
            (new_val =? put_at old_val 0xffff (u16 x) i)
            || ((blen >? 2) && (new_val =? put_at old_val 0xffff (SWAP16 x) i)))
            interesting_16) (seqZ 0 (blen - 1)) then true
  else if (blen =? 4) && check_le then existsb (fun x => new_val =? u32 x) interesting_32
  else false.

(** The loop of [locate_diffs]; [s32] positions. *)
Fixpoint locate_loop (p1 p2 : list Z) (n : nat) (pos f_loc l_loc : Z) {struct n} : option (Z * Z) :=
  match n with
  | O => Some (f_loc, l_loc)
  | S n =>
      match p1, p2 with
      | a :: p1, b :: p2 =>
          if negb (a =? b) then
            locate_loop p1 p2 n (pos + 1) (if f_loc =? -1 then s32 pos else f_loc) (s32 pos)
          else locate_loop p1 p2 n (pos + 1) f_loc l_loc
      | _, _ => None
      end
  end.

Definition locate_diffs (ptr1 ptr2 : list Z) (len : Z) : option (Z * Z) :=
  locate_loop ptr1 ptr2 (Z.to_nat len) 0 (-1) (-1).

(** ** Bit flips *)

(** The changes of the bit-flip stages: 1, 2 or 4 bits anywhere, 1, 2 or 4 bytes at
    a byte boundary. *)
Definition bitflip_pattern (x : Z) : Prop :=
  exists n k, 0 <= k /\ x = (2 ^ n - 1) * 2 ^ k /\
    (n ∈ [1; 2; 4] \/ n ∈ [8; 16; 32] /\ k mod 8 = 0).

Lemma land_1_mod x : Z.land x 1 = x mod 2.
Proof. change 1 with (Z.ones 1). by rewrite Z.land_ones. Qed.

Lemma shift_out_spec fuel x sh :
  0 < x < 2 ^ Z.of_nat fuel ->
  exists y k, shift_out fuel x sh = Some (y, sh + k) /\ 0 <= k /\ x = y * 2 ^ k /\ y mod 2 = 1.
Proof.
  revert x sh. induction fuel as [|fuel IH]; intros x sh Hx; [cbn in Hx; lia|].
  cbn [shift_out]. rewrite land_1_mod. destruct (x mod 2 =? 0) eqn:E; b2p.
  - rewrite Z.shiftr_div_pow2 by lia. change (2 ^ 1) with 2.
    rewrite Nat2Z.inj_succ, Z.pow_succ_r in Hx by lia.
    destruct (IH (x / 2) (sh + 1)) as (y&k&->&Hk&Hy&Ho); [dlia|].
    exists y, (k + 1). split_and!; [do 2 f_equal; lia|lia| |done].
    rewrite Z.pow_add_r by lia. dlia.
  - exists x, 0. split_and!; [do 2 f_equal; lia|lia|lia|dlia].
Qed.

Lemma odd_part_unique y z a b :
  y mod 2 = 1 -> z mod 2 = 1 -> 0 <= a -> 0 <= b -> y * 2 ^ a = z * 2 ^ b -> y = z /\ a = b.
Proof.
  assert (forall y z a b, y mod 2 = 1 -> 0 <= a < b -> y * 2 ^ a <> z * 2 ^ b) as Hlt.
  { intros y' z' a' b' Hy Hab E. replace b' with (a' + (1 + (b' - a' - 1))) in E by lia.
    rewrite !Z.pow_add_r in E by lia. pose proof (pow2_pos a').
    assert (y' = z' * (2 * 2 ^ (b' - a' - 1))) as -> by nia.
    replace (z' * (2 * 2 ^ (b' - a' - 1))) with (2 * (z' * 2 ^ (b' - a' - 1))) in Hy by lia.
    rewrite Z.mul_comm, Z.mod_mul in Hy; lia. }
  intros Hy Hz Ha Hb E. destruct (Z.lt_trichotomy a b) as [?|[->|?]].
  - by apply Hlt in E.
  - split; [|done]. pose proof (pow2_pos b). nia.
  - symmetry in E. by apply Hlt in E.
Qed.

Lemma ones_odd n : 1 <= n -> (2 ^ n - 1) mod 2 = 1.
Proof. intros. replace n with (1 + (n - 1)) by lia. rewrite Z.pow_add_r by lia. dlia. Qed.

(** [could_be_bitflip] answers, within 32 shifts, whether the change is one the
    bit-flip stages have made (or no change at all). *)
Lemma could_be_bitflip_ok x :
  is_u32 x ->
  exists b, could_be_bitflip x = Some b /\ (b = true <-> x = 0 \/ bitflip_pattern x).
Proof.
  intros Hx. unfold could_be_bitflip. destruct (x =? 0) eqn:E0; b2p; [exists true; tauto|].
  destruct (shift_out_spec 32 x 0) as (y&k&->&Hk&Ex&Hy); [unfold in_width in Hx; cbn; lia|].
  rewrite Z.add_0_l. cbn [mbind option_bind]. eexists. split; [done|]. change 7 with (Z.ones 3). rewrite Z.land_ones by lia.
  change (2 ^ 3) with 8. transitivity ((exists n, y = 2 ^ n - 1 /\ n ∈ [1; 2; 4]) \/
    k mod 8 = 0 /\ exists n, y = 2 ^ n - 1 /\ n ∈ [8; 16; 32]).
  - destruct ((y =? 1) || (y =? 3) || (y =? 15)) eqn:E1.
    + split; [intros _; left|done]. b2p. destruct E1 as [E1|E1]; b2p; [destruct E1; b2p|].
      * exists 1. split; [done|set_solver].
      * exists 2. split; [done|set_solver].
      * exists 4. split; [done|set_solver].
    + b2p. assert (~ exists n, y = 2 ^ n - 1 /\ n ∈ [1; 2; 4]) as Hno.
      { intros (n&Ey&Hn). rewrite !elem_of_cons, elem_of_nil in Hn.
        destruct Hn as [->|[->|[->|[]]]]; cbn in Ey; lia. }
      unfold z2b. destruct (k mod 8 =? 0) eqn:E8; b2p; cbn [negb].
      * rewrite !orb_true_iff, !Z.eqb_eq. split.
        -- intros [[->| ->]| ->]; right; (split; [done|]);
             [exists 8|exists 16|exists 32]; (split; [done|set_solver]).
        -- intros [?|(_&n&->&Hn)]; [done|]. rewrite !elem_of_cons, elem_of_nil in Hn.
           destruct Hn as [->|[->|[->|[]]]]; auto.
      * split; [done|]. intros [?|(?&_)]; done.
  - split.
    + intros [(n&->&Hn)|(H8&n&->&Hn)]; right; exists n, k; auto.
    + intros [?|(n&k'&Hk'&Ex'&Hn)]; [done|]. rewrite Ex in Ex'.
      assert (1 <= n) by (destruct Hn as [Hn|[Hn _]]; set_unfold; lia).
      apply odd_part_unique in Ex' as [-> ->]; [|done|by apply ones_odd|done..].
      destruct Hn as [Hn|[Hn H8]]; [left|right; split; [done|]]; by exists n.
Qed.

(** ** Arithmetic *)

(** The [n] lanes of [w] bits of a value, lowest first. *)
Fixpoint lanes (w : Z) (n : nat) (v : Z) : list Z :=
  match n with
  | O => []
  | S n => wrap w v :: lanes w n (Z.shiftr v w)
  end.

(** A lane changed by adding or subtracting at most [ARITH_MAX]. *)
Definition arith_step (w o n : Z) : Prop :=
  exists k, 0 <= k <= ARITH_MAX /\ (n = wrap w (o + k) \/ n = wrap w (o - k)).

(** One lane changed so, in the byte order [swap]. *)
Definition arith_lane (w : Z) (n : nat) (swap : Z -> Z) (old_val new_val : Z) : Prop :=
  exists j x y, lanes w n old_val !! j = Some x /\ lanes w n new_val = <[j := y]> (lanes w n old_val) /\
    arith_step w (swap x) (swap y).

Fixpoint list_diffs (xs ys : list Z) (acc : Z * Z * Z) : Z * Z * Z :=
  match xs, ys with
  | a :: xs, b :: ys =>
      list_diffs xs ys (if negb (a =? b) then (acc.1.1 + 1, a, b) else acc)
  | _, _ => acc
  end.

Lemma lane_diffs_lists w n i o v acc :
  0 < w -> 0 <= i ->
  lane_diffs w n i o v acc = list_diffs (lanes w n (Z.shiftr o (w * i))) (lanes w n (Z.shiftr v (w * i))) acc.
Proof.
  intros Hw. revert i acc. induction n as [|n IH]; intros i acc Hi; [done|].
  cbn [lane_diffs lanes list_diffs]. destruct acc as [[d ov] nv]. rewrite IH by lia. cbn [fst].
  rewrite !Z.shiftr_shiftr by lia. by replace (w * (i + 1)) with (w * i + w) by lia.
Qed.

Lemma list_diffs_none xs : forall ys acc,
  length xs = length ys -> acc.1.1 <= (list_diffs xs ys acc).1.1 /\
  ((list_diffs xs ys acc).1.1 = acc.1.1 <-> xs = ys) /\ list_diffs xs xs acc = acc.
Proof.
  induction xs as [|x xs IH]; intros [|y ys] acc Hl; try done. cbn [list_diffs].
  injection Hl as Hl. rewrite Z.eqb_refl. cbn [negb].
  destruct (x =? y) eqn:E; cbn [negb]; b2p.
  - subst. destruct (IH ys acc Hl) as (?&?&?). split_and!; [done| |done].
    split; [intros Hd; f_equal; tauto|]. intros [= ->]. tauto.
  - destruct (IH ys (acc.1.1 + 1, x, y) Hl) as (Hle&_&_). cbn [fst] in Hle.
    destruct (IH ys acc Hl) as (_&_&Hs). split_and!; [lia| |done].
    split; [lia|congruence].
Qed.

Lemma list_diffs_one xs : forall ys a b x y,
  length xs = length ys -> x <> y ->
  list_diffs xs ys (0, a, b) = (1, x, y) <->
  exists j, xs !! j = Some x /\ ys = <[j := y]> xs.
Proof.
  induction xs as [|c xs IH]; intros [|d ys] a b x y Hl Hne; try done.
  { split; [done|]. intros (j&Hj&_). done. }
  injection Hl as Hl. cbn [list_diffs fst]. destruct (c =? d) eqn:E; cbn [negb]; b2p.
  - subst d. rewrite IH by done. split.
    + intros (j&Hj& ->). by exists (S j).
    + intros ([|j]&Hj&Hy); cbn in *; [|injection Hy as ->; by exists j].
      injection Hj as <-. by injection Hy as ->.
  - destruct (list_diffs_none xs ys (0 + 1, c, d) Hl) as (_&Hd&Hs). split.
    + intros Heq. rewrite Heq in Hd. destruct (proj1 Hd eq_refl). rewrite Hs in Heq.
      injection Heq as <- <-. by exists 0%nat.
    + intros ([|j]&Hj&Hy); cbn in *.
      * injection Hj as ->. injection Hy as -> ->. by rewrite Hs.
      * injection Hy as -> ->. done.
Qed.

Lemma length_lanes w n v : length (lanes w n v) = n.
Proof. revert v. induction n; intros v; cbn; auto. Qed.

Lemma lanes_width w n v : 0 <= w -> Forall (in_width w) (lanes w n v).
Proof. intros Hw. revert v. induction n; intros v; cbn; constructor; auto. by apply wrap_range. Qed.

Lemma lanes_inj w n o v :
  0 < w -> in_width (w * Z.of_nat n) o -> in_width (w * Z.of_nat n) v ->
  lanes w n o = lanes w n v -> o = v.
Proof.
  intros Hw. revert o v. induction n as [|n IH]; intros o v Ho Hv E.
  { unfold in_width in *. rewrite Z.mul_0_r in *. cbn in *. lia. }
  cbn in E. injection E as E1 E2. pose proof (pow2_pos w).
  assert (forall z, in_width (w * Z.of_nat (S n)) z -> in_width (w * Z.of_nat n) (Z.shiftr z w)) as Hd.
  { intros z Hz. unfold in_width in *. rewrite Z.shiftr_div_pow2 by lia.
    replace (w * Z.of_nat (S n)) with (w * Z.of_nat n + w) in Hz by lia.
    rewrite Z.pow_add_r in Hz by lia.
    split; [apply Z.div_pos; lia|apply Z.div_lt_upper_bound; lia]. }
  apply IH in E2; [|auto..]. rewrite !Z.shiftr_div_pow2 in E2 by lia. unfold wrap in E1.
  rewrite (Z.div_mod o (2 ^ w)), (Z.div_mod v (2 ^ w)) by lia. congruence.
Qed.

Lemma near_spec w o n :
  0 <= w -> in_width w o -> in_width w n -> near w o n = true <-> arith_step w o n.
Proof.
  intros Hw Ho Hn. unfold near, arith_step. rewrite orb_true_iff, !Z.leb_le.
  pose proof (wrap_range w (o - n) Hw) as [Hr1 _]. pose proof (wrap_range w (n - o) Hw) as [Hr2 _].
  pose proof (pow2_pos w Hw). split.
  - intros [Hk|Hk]; [exists (wrap w (o - n))|exists (wrap w (n - o))]; (split; [lia|]).
    + right. unfold wrap. rewrite Zminus_mod_idemp_r. rewrite Z.mod_small; unfold in_width in Hn; lia.
    + left. unfold wrap. rewrite Zplus_mod_idemp_r. rewrite Z.mod_small; unfold in_width in Hn; lia.
  - assert (forall k, 0 <= k <= ARITH_MAX -> wrap w k <= ARITH_MAX) as Hsmall.
    { intros k Hk. unfold wrap. etransitivity; [apply Z.mod_le; lia|lia]. }
    intros (k&Hk&[->| ->]); [right|left]; unfold wrap in *.
    + rewrite Zminus_mod_idemp_l. replace (o + k - o) with k by lia. by apply Hsmall.
    + rewrite Zminus_mod_idemp_r. replace (o - (o - k)) with k by lia. by apply Hsmall.
Qed.

Lemma list_diffs_ne xs : forall ys a b x y,
  length xs = length ys -> list_diffs xs ys (0, a, b) = (1, x, y) -> x <> y.
Proof.
  induction xs as [|c xs IH]; intros [|d ys] a b x y Hl; try done.
  injection Hl as Hl. cbn [list_diffs fst]. destruct (c =? d) eqn:E; cbn [negb]; b2p; [by apply IH|].
  intros Heq. destruct (list_diffs_none xs ys (0 + 1, c, d) Hl) as (_&Hd&Hs).
  rewrite Heq in Hd. destruct (proj1 Hd eq_refl). rewrite Hs in Heq. by injection Heq as <- <-.
Qed.

(** The test of one lane width: exactly one lane differs and the pair passes [t]. *)
Lemma lane_test w n o v a b (t : Z -> Z -> bool) :
  0 < w -> in_width (w * Z.of_nat n) o -> in_width (w * Z.of_nat n) v -> o <> v ->
  (let '(d, ov, nv) := lane_diffs w n 0 o v (0, a, b) in (d =? 1) && t ov nv) = true <->
  exists j x y, lanes w n o !! j = Some x /\ lanes w n v = <[j := y]> (lanes w n o) /\ t x y = true.
Proof.
  intros Hw Ho Hv Hne. rewrite lane_diffs_lists, Z.mul_0_r, !Z.shiftr_0_r by lia.
  assert (length (lanes w n o) = length (lanes w n v)) as Hl by (by rewrite !length_lanes).
  destruct (list_diffs _ _ _) as [[d ov] nv] eqn:E. split.
  - intros Ht. b2p. subst d. pose proof (list_diffs_ne _ _ _ _ _ _ Hl E) as Hxy.
    apply list_diffs_one in E as (j&Hj&Hy); [|done..]. by exists j, ov, nv.
  - intros (j&x&y&Hj&Hy&Ht). assert (x <> y) as Hxy.
    { intros ->. apply Hne. apply (lanes_inj w n); [done..|]. by rewrite Hy, list_insert_id. }
    assert (list_diffs (lanes w n o) (lanes w n v) (0, a, b) = (1, x, y)) as E'
      by (apply list_diffs_one; [done..|by exists j]).
    rewrite E' in E. injection E as <- <- <-. by rewrite Z.eqb_refl, Ht.
Qed.

Lemma lane_near w n o v (swap : Z -> Z) :
  0 <= w -> (forall z, in_width w z -> in_width w (swap z)) ->
  (exists j x y, lanes w n o !! j = Some x /\ lanes w n v = <[j := y]> (lanes w n o) /\
     near w (swap x) (swap y) = true) <-> arith_lane w n swap o v.
Proof.
  intros Hw Hswap. split; intros (j&x&y&Hj&Hy&Ht); exists j, x, y; (split_and!; [done..|]);
  pose proof (lanes_width w n o Hw) as Fo; pose proof (lanes_width w n v Hw) as Fv;
  (assert (in_width w x) by (by eapply Forall_lookup_1 in Fo));
  (assert (in_width w y) by (eapply Forall_lookup_1 in Fv; [done|];
     rewrite Hy; apply list_lookup_insert_eq; by eapply lookup_lt_Some));
  revert Ht; apply near_spec; auto.
Qed.

Lemma SWAP16_width x : is_u16 (SWAP16 x).
Proof. apply wrap_range. lia. Qed.
Lemma SWAP32_width x : is_u32 (SWAP32 x).
Proof. apply wrap_range. lia. Qed.

Lemma lane16_test n o v a b :
  in_width (16 * Z.of_nat n) o -> in_width (16 * Z.of_nat n) v -> o <> v ->
  (let '(d, ov, nv) := lane_diffs 16 n 0 o v (0, a, b) in
   (d =? 1) && (near 16 ov nv || near 16 (SWAP16 ov) (SWAP16 nv))) = true <->
  arith_lane 16 n id o v \/ arith_lane 16 n SWAP16 o v.
Proof.
  intros Ho Hv Hne.
  rewrite (lane_test 16 n o v a b (fun x y => near 16 x y || near 16 (SWAP16 x) (SWAP16 y)))
    by (done || lia).
  rewrite <- (lane_near 16 _ _ _ id), <- (lane_near 16 _ _ _ SWAP16)
    by (done || lia || (intros; apply SWAP16_width)).
  split.
  - intros (j&x&y&?&?&Ht). apply orb_true_iff in Ht as [Ht|Ht]; [left|right]; by exists j, x, y.
  - intros [(j&x&y&?&?&Ht)|(j&x&y&?&?&Ht)]; exists j, x, y; rewrite orb_true_iff; auto.
Qed.

(** What the arithmetic stages reach for values of [blen] bytes. *)
Definition arith_reachable (blen old_val new_val : Z) : Prop :=
  arith_lane 8 (Z.to_nat blen) id old_val new_val \/
  (2 <= blen /\ (arith_lane 16 (Z.to_nat (blen / 2)) id old_val new_val \/
                 arith_lane 16 (Z.to_nat (blen / 2)) SWAP16 old_val new_val)) \/
  (blen = 4 /\ (arith_step 32 old_val new_val \/
                arith_step 32 (SWAP32 old_val) (SWAP32 new_val))).

(** [could_be_arith] answers whether the new value is the old one, or the old one
    with one aligned byte, word or double word, in either byte order, changed by at
    most [ARITH_MAX]. *)
Lemma could_be_arith_ok old_val new_val blen :
  blen ∈ [1; 2; 4] -> in_width (8 * blen) old_val -> in_width (8 * blen) new_val ->
  could_be_arith old_val new_val blen = true <->
  old_val = new_val \/ arith_reachable blen old_val new_val.
Proof.
  intros Hb Ho Hn. unfold could_be_arith.
  destruct (old_val =? new_val) eqn:E; b2p; [tauto|].
  assert (blen = 1 \/ blen = 2 \/ blen = 4) as Hb3.
  { rewrite !elem_of_cons, elem_of_nil in Hb. tauto. }
  pose proof (lane_test 8 (Z.to_nat blen) old_val new_val 0 0 (near 8)) as H8.
  rewrite (lane_near 8 _ _ _ id) in H8 by (done || lia).
  destruct (lane_diffs 8 _ _ _ _ _) as [[d ov] nv].
  rewrite Z2Nat.id in H8 by lia. specialize (H8 ltac:(lia) Ho Hn E).
  pose proof (lane16_test (Z.to_nat (blen / 2)) old_val new_val ov nv) as H16.
  rewrite Z2Nat.id in H16 by (apply Z.div_pos; lia).
  destruct (lane_diffs 16 _ _ _ _ _) as [[d' ov'] nv'].
  assert (2 <= blen -> (d' =? 1) && (near 16 ov' nv' || near 16 (SWAP16 ov') (SWAP16 nv')) = true <->
    arith_lane 16 (Z.to_nat (blen / 2)) id old_val new_val \/
    arith_lane 16 (Z.to_nat (blen / 2)) SWAP16 old_val new_val) as A16.
  { intros H2. apply H16; [| |done]; by destruct Hb3 as [->|[->| ->]]. }
  assert (blen = 4 -> (arith_step 32 old_val new_val \/ arith_step 32 (SWAP32 old_val) (SWAP32 new_val))
    <-> near 32 old_val new_val || near 32 (SWAP32 old_val) (SWAP32 new_val) = true) as A32.
  { intros ->. rewrite orb_true_iff, !near_spec by (done || lia || apply SWAP32_width). done. }
  unfold arith_reachable. rewrite <- H8.
  destruct ((d =? 1) && near 8 ov nv) eqn:T8; [tauto|].
  destruct (blen =? 1) eqn:B1; b2p; [split; [done|]; intros [?|[?|[[? _]|[? _]]]]; lia || done|].
  rewrite <- A16 by lia. destruct ((d' =? 1) && _) eqn:T16; [split; [intros _; right; right; left; lia || auto|done]|].
  destruct (blen =? 4) eqn:B4; b2p.
  - rewrite A32 by done. intuition discriminate.
  - split; [done|]. intros [?|[?|[[_ ?]|[? _]]]]; lia || done.
Qed.

(** ** Interesting values *)

(** The value with the bytes [bs] written at byte [i]. *)
Definition put_bytes (old_val i : Z) (bs : list Z) : Z :=
  le_word (splice_at (le_bytes 4 old_val) i bs).

Lemma u32_bytes v : is_u32 v -> exists a b c d,
  v = le_word [a; b; c; d] /\ le_bytes 4 v = [a; b; c; d] /\
  is_u8 a /\ is_u8 b /\ is_u8 c /\ is_u8 d.
Proof.
  intros Hv. pose proof (le_word_le_bytes 4 v) as E. rewrite wrap_small in E by done.
  pose proof (le_bytes_ok 4 v) as Hok. revert E Hok. cbn [le_bytes].
  generalize (v mod 256) as a, (v / 256 mod 256) as b, (v / 256 / 256 mod 256) as c,
    (v / 256 / 256 / 256 mod 256) as d.
  intros a b c d E. rewrite !Forall_cons_iff. intros (?&?&?&?&_). by exists a, b, c, d.
Qed.

#[local] Hint Resolve byte_0 : afl.
#[local] Hint Constructors Forall : afl.

(** Reduces [put_at] on explicit bytes; [bs] is the shifted value. *)
Ltac put_case bs :=
  match goal with |- context [u32 (Z.lnot ?x)] =>
    let y := eval vm_compute in (le_bytes 4 (u32 (Z.lnot x))) in
    change (u32 (Z.lnot x)) with (le_word y) end;
  match goal with |- context [splice_at ?l ?i ?b] =>
    let y := eval cbn in (splice_at l i b) in change (splice_at l i b) with y end;
  match goal with |- context [u32 (Z.shiftl ?x ?n)] =>
    assert (u32 (Z.shiftl x n) = le_word bs) as ->
      by (rewrite Z.shiftl_mul_pow2 by lia; unfold in_width in *; unfold wrap; cbn [le_word];
          rewrite Z.mod_small; lia) end;
  assert (is_u8 255) by done;
  rewrite le_word_land by auto 10 with afl; cbn [zip_with];
  rewrite ?Z.land_0_r, ?land_255 by done;
  rewrite le_word_lor by auto 10 with afl; cbn [zip_with];
  by rewrite ?Z.lor_0_r, ?Z.lor_0_l.

Lemma put_at_byte old_val v i :
  is_u32 old_val -> is_u8 v -> 0 <= i < 4 -> put_at old_val 0xff v i = put_bytes old_val i [v].
Proof.
  intros Ho Hv Hi. unfold put_at, put_bytes.
  destruct (u32_bytes old_val Ho) as (a&b&c&d& -> & -> &Ha&Hb&Hc&Hd).
  assert (i = 0 \/ i = 1 \/ i = 2 \/ i = 3) as [->|[->|[->| ->]]] by lia.
  - put_case [v; 0; 0; 0].
  - put_case [0; v; 0; 0].
  - put_case [0; 0; v; 0].
  - put_case [0; 0; 0; v].
Qed.

Lemma put_at_word old_val x y i :
  is_u32 old_val -> is_u8 x -> is_u8 y -> 0 <= i < 3 ->
  put_at old_val 0xffff (le_word [x; y]) i = put_bytes old_val i [x; y].
Proof.
  intros Ho Hx Hy Hi. unfold put_at, put_bytes.
  destruct (u32_bytes old_val Ho) as (a&b&c&d& -> & -> &Ha&Hb&Hc&Hd).
  assert (i = 0 \/ i = 1 \/ i = 2) as [->|[->| ->]] by lia.
  - put_case [x; y; 0; 0].
  - put_case [0; x; y; 0].
  - put_case [0; 0; x; y].
Qed.

Lemma put_at_le16 old_val v i :
  is_u32 old_val -> 0 <= i < 3 -> put_at old_val 0xffff (u16 v) i = put_bytes old_val i (le_bytes 2 v).
Proof.
  intros Ho Hi. pose proof (le_bytes_ok 2 v) as Hok. change 16 with (8 * Z.of_nat 2).
  rewrite <- le_word_le_bytes. cbn [le_bytes] in *. rewrite !Forall_cons_iff in Hok.
  destruct Hok as (?&?&_). by apply put_at_word.
Qed.

Lemma put_at_be16 old_val v i :
  is_u32 old_val -> 0 <= i < 3 ->
  put_at old_val 0xffff (SWAP16 v) i = put_bytes old_val i (rev (le_bytes 2 v)).
Proof.
  intros Ho Hi. rewrite <- SWAP16_bytes, <- put_at_le16 by done.
  by rewrite wrap_small by apply SWAP16_width.
Qed.

(** What the earlier insertions of interesting values reach for [blen] bytes. *)
Definition interest_reachable (blen : Z) (check_le : bool) (old_val new_val : Z) : Prop :=
  (exists i x, 0 <= i < blen /\ x ∈ interesting_8 /\
     new_val = put_bytes old_val i (le_bytes 1 x)) \/
  ((blen <> 2 \/ check_le = true) /\ exists i x, 0 <= i < blen - 1 /\ x ∈ interesting_16 /\
     (new_val = put_bytes old_val i (le_bytes 2 x) \/
      2 < blen /\ new_val = put_bytes old_val i (rev (le_bytes 2 x)))) \/
  (blen = 4 /\ check_le = true /\ exists x, x ∈ interesting_32 /\ new_val = u32 x).

Lemma existsb_spec {A} (f : A -> bool) l : existsb f l = true <-> exists x, x ∈ l /\ f x = true.
Proof. rewrite existsb_exists. by setoid_rewrite list_elem_of_In. Qed.

Lemma interest8_test old_val new_val blen :
  is_u32 old_val -> blen <= 4 ->
  existsb (fun i => existsb (fun x => new_val =? put_at old_val 0xff (u8 x) i)
    interesting_8) (seqZ 0 blen) = true <->
  exists i x, 0 <= i < blen /\ x ∈ interesting_8 /\ new_val = put_bytes old_val i (le_bytes 1 x).
Proof.
  intros Ho Hb. rewrite existsb_spec. split.
  - intros (i&Hi&Hx). apply elem_of_seqZ in Hi. apply existsb_spec in Hx as (x&Hx&E). b2p.
    exists i, x. split_and!; [lia..|done|]. rewrite E. apply put_at_byte; [done|apply wrap_range; lia|lia].
  - intros (i&x&Hi&Hx& ->). exists i. split; [apply elem_of_seqZ; lia|].
    apply existsb_spec. exists x. split; [done|]. apply Z.eqb_eq. symmetry.
    apply put_at_byte; [done|apply wrap_range; lia|lia].
Qed.

Lemma interest16_test old_val new_val blen :
  is_u32 old_val -> blen <= 4 ->
  existsb (fun i => existsb (fun x =>
    (new_val =? put_at old_val 0xffff (u16 x) i)
    || ((blen >? 2) && (new_val =? put_at old_val 0xffff (SWAP16 x) i)))
    interesting_16) (seqZ 0 (blen - 1)) = true <->
  exists i x, 0 <= i < blen - 1 /\ x ∈ interesting_16 /\
    (new_val = put_bytes old_val i (le_bytes 2 x) \/
     2 < blen /\ new_val = put_bytes old_val i (rev (le_bytes 2 x))).
Proof.
  intros Ho Hb. rewrite existsb_spec. split.
  - intros (i&Hi&Hx). apply elem_of_seqZ in Hi. apply existsb_spec in Hx as (x&Hx&E).
    exists i, x. split_and!; [lia..|done|]. apply orb_true_iff in E as [E|E]; b2p.
    + left. rewrite E. apply put_at_le16; [done|lia].
    + right. split; [lia|]. rewrite H0. apply put_at_be16; [done|lia].
  - intros (i&x&Hi&Hx&Hor). exists i. split; [apply elem_of_seqZ; lia|].
    apply existsb_spec. exists x. split; [done|].
    rewrite put_at_le16, put_at_be16 by (done || lia).
    apply orb_true_iff. destruct Hor as [->|[H2 ->]]; [left; apply Z.eqb_refl|right].
    by rewrite Z.eqb_refl, (proj2 (Z.gtb_lt blen 2)).
Qed.

(** [could_be_interest] answers whether the new value is the old one, or the old
    one with an interesting byte at any of its [blen] bytes, or, for more than two
    bytes or after the little-endian insertions, with an interesting word at any byte
    (big-endian only for four bytes), or an interesting double word already
    inserted. *)
Lemma could_be_interest_ok old_val new_val blen check_le :
  is_u32 old_val -> blen ∈ [1; 2; 4] ->
  could_be_interest old_val new_val blen check_le = true <->
  old_val = new_val \/ interest_reachable blen check_le old_val new_val.
Proof.
  intros Ho Hb. unfold could_be_interest, interest_reachable.
  assert (blen <= 4) by (rewrite !elem_of_cons, elem_of_nil in Hb; lia).
  rewrite <- (interest8_test old_val new_val blen), <- (interest16_test old_val new_val blen) by done.
  destruct (old_val =? new_val) eqn:E; b2p; [tauto|].
  destruct (existsb _ (seqZ 0 blen)); [tauto|].
  destruct ((blen =? 2) && negb check_le) eqn:E2.
  { b2p. split; [done|]. intros [?|[?|[[[?|?] _]|(?&_)]]]; congruence || lia. }
  assert (blen <> 2 \/ check_le = true) as Hcond.
  { b2p. destruct E2 as [E2|E2]; b2p; auto. }
  destruct (existsb _ (seqZ 0 (blen - 1))); [tauto|].
  destruct ((blen =? 4) && check_le) eqn:E4.
  - b2p. rewrite existsb_spec. setoid_rewrite Z.eqb_eq.
    split; [intros Hx; right; right; right; auto|].
    intros [?|[?|[[_ ?]|(_&_&Hx)]]]; done.
  - split; [done|]. intros [?|[?|[[_ ?]|(H4&Hc&_)]]]; try done. by rewrite H4, Hc in E4.
Qed.

(** What [FLIP_BIT] changes in a byte when the bits [p] to [p + n - 1], counted from the highest,
    are flipped. *)
Definition flip_mask (p n : Z) : Z := foldr (fun j m => Z.lxor (Z.shiftr 128 j) m) 0 (seqZ p n).

Definition byte_flips : list (Z * Z) := filter (fun '(p, n) => p + n <= 8) (list_prod (seqZ 0 8) [1; 2; 4; 8]).

Lemma bitflip_in_byte x : 0 <= x < 256 ->
  could_be_bitflip x = Some true <-> x = 0 \/ exists p n, 0 <= p /\ p + n <= 8 /\ n ∈ [1; 2; 4; 8] /\ x = flip_mask p n.
Proof.
  intros Hx. set (test x := Bool.eqb (bool_decide (could_be_bitflip x = Some true))
    ((x =? 0) || existsb (fun '(p, n) => x =? flip_mask p n) byte_flips)).
  assert (forallb test (seqZ 0 256) = true) as Ht by (vm_compute; reflexivity).
  rewrite forallb_forall in Ht. specialize (Ht x ltac:(apply list_elem_of_In, elem_of_seqZ; lia)). apply Bool.eqb_prop in Ht.
  rewrite <- (bool_decide_eq_true (could_be_bitflip x = Some true)), Ht, orb_true_iff, Z.eqb_eq, existsb_exists.
  apply or_iff_compat_l. split.
  - intros ([p n]&Hin&E). apply list_elem_of_In, list_elem_of_filter in Hin as [Hle Hin%list_elem_of_In]. apply in_prod_iff in Hin as [Hp Hn].
    apply list_elem_of_In, elem_of_seqZ in Hp. apply list_elem_of_In in Hn. exists p, n. split_and!; [lia|done|done|by apply Z.eqb_eq].
  - intros (p&n&Hp&Hle&Hn&E). exists (p, n). split; [|by apply Z.eqb_eq]. apply list_elem_of_In, list_elem_of_filter. split; [done|].
    assert (1 <= n) by (rewrite !elem_of_cons, elem_of_nil in Hn; lia).
    apply list_elem_of_In, in_prod_iff. split; apply list_elem_of_In; [apply elem_of_seqZ; lia|done].
Qed.

(** C31. What the redundancy tests of the deterministic stages answer, exactly.
    [could_be_bitflip], within 32 shifts: whether the change is 0, a run of one, two or four bits
    anywhere, or one of 8, 16 or 32 bits that starts at a multiple of 8; for a change inside one byte
    these are just the changes that the bit-flip stages make with [FLIP_BIT].  (Across bytes they
    are not: [FLIP_BIT] counts bits from the highest of a byte, the test from the lowest of the
    word.)  [could_be_arith]: whether one byte, or one 16-bit or 32-bit lane aligned to its size, in
    either byte order, is changed by at most [ARITH_MAX], or nothing is.  [could_be_interest]:
    whether an interesting byte, word (little-endian, or big-endian in four bytes) or double
    word was written somewhere, or nothing has changed. *)
Theorem could_be_correct :
  (forall x, is_u32 x ->
    exists b, could_be_bitflip x = Some b /\ (b = true <-> x = 0 \/ bitflip_pattern x)) /\
  (forall x, 0 <= x < 256 ->
    could_be_bitflip x = Some true <->
    x = 0 \/ exists p n, 0 <= p /\ p + n <= 8 /\ n ∈ [1; 2; 4; 8] /\ x = flip_mask p n) /\
  (forall old_val new_val blen,
    blen ∈ [1; 2; 4] -> in_width (8 * blen) old_val -> in_width (8 * blen) new_val ->
    could_be_arith old_val new_val blen = true <->
    old_val = new_val \/ arith_reachable blen old_val new_val) /\
  (forall old_val new_val blen check_le, is_u32 old_val -> blen ∈ [1; 2; 4] ->
    could_be_interest old_val new_val blen check_le = true <->
    old_val = new_val \/ interest_reachable blen check_le old_val new_val).
Proof.
  split_and!; [exact could_be_bitflip_ok|exact bitflip_in_byte|exact could_be_arith_ok|exact could_be_interest_ok].
Qed.

Theorem could_be_witness :
  (exists b, could_be_bitflip 0xff0000 = Some b) /\
  arith_reachable 2 0x1ff 0x200 /\ interest_reachable 2 true 0x1234 0x7f34.
Proof.
  destruct could_be_correct as (Hf&_&Ha&Hi). split_and!.
  - destruct (Hf 0xff0000) as (b&E&_); [split; lia|]. by exists b.
  - destruct (proj1 (Ha 0x1ff 0x200 2 ltac:(by right; left) ltac:(split; lia) ltac:(split; lia)) eq_refl);
      [lia|done].
  - destruct (proj1 (Hi 0x1234 0x7f34 2 true ltac:(split; lia) ltac:(by right; left)) eq_refl); [lia|done].
Defined.

(** ** Splicing points *)

(** [f] and [l] are the first and the last position where the lists differ. *)
Definition first_last_diff (xs ys : list Z) (f l : Z) : Prop :=
  0 <= f <= l /\ xs !! Z.to_nat f <> ys !! Z.to_nat f /\ xs !! Z.to_nat l <> ys !! Z.to_nat l /\
  forall i, xs !! i <> ys !! i -> f <= Z.of_nat i <= l.

Lemma locate_loop_spec n : forall p1 p2 pos f l,
  (n <= length p1)%nat -> (n <= length p2)%nat -> 0 <= pos -> pos + Z.of_nat n <= 2 ^ 31 ->
  (f = -1 <-> l = -1) -> -1 <= f <= l -> l < pos ->
  exists f' l', locate_loop p1 p2 n pos f l = Some (f', l') /\
    (take n p1 = take n p2 -> f' = f /\ l' = l) /\
    (take n p1 <> take n p2 ->
     exists g h, first_last_diff (take n p1) (take n p2) g h /\ l' = pos + h /\
       f' = if f =? -1 then pos + g else f).
Proof.
  induction n as [|n IH]; intros p1 p2 pos f l H1 H2 Hp Hw Hfl Hle Hlt; cbn [locate_loop].
  { exists f, l. split; [done|]. split; [auto|]. by rewrite !take_0. }
  destruct p1 as [|a p1]; [cbn in H1; lia|]. destruct p2 as [|b p2]; [cbn in H2; lia|].
  cbn [take length] in *. rewrite swrap_small by lia.
  destruct (a =? b) eqn:E; cbn [negb]; b2p.
  - subst b. destruct (IH p1 p2 (pos + 1) f l) as (f'&l'&Heq&Hsame&Hdiff); [lia..|done|lia|lia|].
    exists f', l'. split_and!; [done| |].
    + intros [= ?]. auto.
    + intros Hne. destruct Hdiff as (g&h&(Hg&Hgd&Hhd&Hall)&Hl&Hf); [congruence|].
      exists (g + 1), (h + 1). split_and!; [|lia|destruct (f =? -1); lia].
      split_and!; [lia..| | |].
      * by rewrite Z2Nat.inj_add, Nat.add_1_r by lia.
      * by rewrite Z2Nat.inj_add, Nat.add_1_r by lia.
      * intros [|i] Hi; [done|]. specialize (Hall i Hi). lia.
  - destruct (IH p1 p2 (pos + 1) (if f =? -1 then pos else f) pos) as (f'&l'&Heq&Hsame&Hdiff);
      [lia..|destruct (f =? -1) eqn:?; b2p; lia|destruct (f =? -1) eqn:?; b2p; lia|lia|].
    exists f', l'. split_and!; [done|congruence|]. intros _.
    destruct (decide (take n p1 = take n p2)) as [Eq|Ne].
    + destruct (Hsame Eq) as [-> ->]. exists 0, 0. rewrite Eq.
      split_and!; [|lia|destruct (f =? -1); lia].
      split_and!; [lia..|intros [= ?]; congruence|intros [= ?]; congruence|]. intros [|i] Hi; [lia|done].
    + destruct (Hdiff Ne) as (g&h&(Hg&Hgd&Hhd&Hall)&Hl&Hf). exists 0, (h + 1).
      split_and!; [|lia|].
      * split_and!; [lia..|intros [= ?]; congruence| |].
        -- by rewrite Z2Nat.inj_add, Nat.add_1_r by lia.
        -- intros [|i] Hi; [lia|]. specialize (Hall i Hi). lia.
      * destruct (f =? -1) eqn:Ef; b2p; [rewrite (proj2 (Z.eqb_neq pos (-1))) in Hf by lia; lia|].
        rewrite (proj2 (Z.eqb_neq f (-1))) in Hf by lia. done.
Qed.

(** [locate_diffs] stays inside both buffers and returns -1 and -1 when their
    first [len] bytes agree, else the first and the last position where they
    differ. *)
Theorem locate_diffs_correct p1 p2 len :
  0 <= len <= 2 ^ 31 -> len <= zlen p1 -> len <= zlen p2 ->
  exists f l, locate_diffs p1 p2 len = Some (f, l) /\
    (slice p1 0 len = slice p2 0 len -> f = -1 /\ l = -1) /\
    (slice p1 0 len <> slice p2 0 len -> first_last_diff (slice p1 0 len) (slice p2 0 len) f l).
Proof.
  intros Hl H1 H2. unfold locate_diffs, zlen in *. rewrite !slice_0.
  destruct (locate_loop_spec (Z.to_nat len) p1 p2 0 (-1) (-1)) as (f&l&Heq&Hsame&Hdiff); [lia..|].
  exists f, l. split_and!; [done|done|]. intros Hne.
  destruct (Hdiff Hne) as (g&h&Hfl& -> & ->). done.
Qed.

Theorem locate_diffs_witness :
  locate_diffs [1; 2; 3; 4] [1; 9; 3; 5] 4 = Some (1, 3) /\
  first_last_diff [1; 2; 3; 4] [1; 9; 3; 5] 1 3.
Proof.
  split; [reflexivity|].
  destruct (locate_diffs_correct [1; 2; 3; 4] [1; 9; 3; 5] 4) as (f&l&E&_&H); [lia|done|done|].
  vm_compute in E. injection E as <- <-. apply H. done.
Defined.
