(* ===== verification/TextCheck.v ===== *)
(** * Text detection

    [check_if_text_buf] and [check_if_text] of [src/afl-fuzz-queue.c], against the
    definition of UTF-8 by the encoding of scalar values. *)

From S2P Require Import Prelude.

(** ** Definitions *)

Definition between (lo b hi : Z) : bool := (lo <=? b) && (b <=? hi).

(** Printable ASCII, tab, line feed and carriage return. *)
Definition plain_ascii (b : Z) : bool :=
  (b =? 0x09) || (b =? 0x0A) || (b =? 0x0D) || between 0x20 b 0x7E.

(** [isascii(b) || isprint(b)] in the C locale. *)
Definition ascii_or_print (b : Z) : bool := between 0 b 0x7F || between 0x20 b 0x7E.

(** The length of the multi-byte sequence at the head of the remaining bytes, 0 if
    there is none; [len - offset > k] is that more than [k] bytes remain. *)
Definition multi_len (rest : list Z) : Z :=
  let two := match rest with
    | a :: b :: _ => between 0xC2 a 0xDF && between 0x80 b 0xBF
    | _ => false
    end in
  let three := match rest with
    | a :: b :: c :: _ =>
        ((a =? 0xE0) && between 0xA0 b 0xBF && between 0x80 c 0xBF)
        || ((between 0xE1 a 0xEC || (a =? 0xEE) || (a =? 0xEF))
            && between 0x80 b 0xBF && between 0x80 c 0xBF)
        || ((a =? 0xED) && between 0x80 b 0x9F && between 0x80 c 0xBF)
    | _ => false
    end in
  let four := match rest with
    | a :: b :: c :: d :: _ =>
        ((a =? 0xF0) && between 0x90 b 0xBF && between 0x80 c 0xBF && between 0x80 d 0xBF)
        || (between 0xF1 a 0xF3 && between 0x80 b 0xBF && between 0x80 c 0xBF
            && between 0x80 d 0xBF)
        || ((a =? 0xF4) && between 0x80 b 0x8F && between 0x80 c 0xBF && between 0x80 d 0xBF)
    | _ => false
    end in
  if two then 2 else if three then 3 else if four then 4 else 0.

Record counts := Counts { ascii : Z; utf8 : Z; comp : Z }.

(** The scanning loop; every iteration consumes at least one byte. *)
Fixpoint text_loop (fuel : nat) (rest : list Z) (c : counts) : option counts :=
  match rest with
  | [] => Some c
  | a :: tl =>
      match fuel with
      | O => None
      | S fuel =>
          if plain_ascii a then text_loop fuel tl (Counts (ascii c + 1) (utf8 c + 1) (comp c))
          else
            let asc := if ascii_or_print a then ascii c + 1 else ascii c in
            let k := multi_len rest in
            if z2b k then
              text_loop fuel (drop (Z.to_nat k) rest) (Counts asc (utf8 c + 1) (comp c - (k - 1)))
            else text_loop fuel tl (Counts asc (utf8 c) (comp c))
      end
  end.

(** The value is returned as [u8]. *)
Definition check_if_text_buf (buf : list Z) (len : Z) : option Z :=
  rest ← load buf 0 len;
  c ← text_loop (Z.to_nat len) rest (Counts 0 0 len);
  Some (u8 (if utf8 c >? ascii c then utf8 c else ascii c)).

Definition AFL_TXT_MIN_LEN : Z := 12.
Definition AFL_TXT_MAX_LEN : Z := 65535.
Definition AFL_TXT_MIN_PERCENT : Z := 99.
Definition MAX_FILE : Z := 1024 * 1024.

(** [file] is what the file of the queue entry holds ([None]: it cannot be opened),
    [q_len] the recorded length. *)
Definition check_if_text (file : option (list Z)) (q_len : Z) : option Z :=
  if (q_len <? AFL_TXT_MIN_LEN) || (q_len <? AFL_TXT_MAX_LEN) then Some 0
  else
    let len := if q_len >=? MAX_FILE then MAX_FILE - 1 else q_len in
    match file with
    | None => Some 0
    | Some f =>
        let buf := take (Z.to_nat len) f in
        if negb (zlen buf =? len) then Some 0
        else
          c ← text_loop (Z.to_nat len) buf (Counts 0 0 len);
          if comp c =? 0 then None
          else
            let percent_utf8 := u32 (Z.quot (u32 (utf8 c * 100)) (comp c)) in
            let percent_ascii := u32 (ascii c * 100) / len in
            Some (if (percent_utf8 >=? percent_ascii) && (percent_utf8 >=? AFL_TXT_MIN_PERCENT)
                  then 2
                  else if percent_ascii >=? AFL_TXT_MIN_PERCENT then 1 else 0)
    end.

(** ** UTF-8 *)

(** Unicode scalar values and their encoding. *)
Definition scalar (cp : Z) : Prop := 0 <= cp <= 0x10FFFF /\ ~ (0xD800 <= cp <= 0xDFFF).

Definition utf8_encode (cp : Z) : list Z :=
  if cp <? 0x80 then [cp]
  else if cp <? 0x800 then [0xC0 + cp / 64; 0x80 + cp mod 64]
  else if cp <? 0x10000 then [0xE0 + cp / 4096; 0x80 + cp / 64 mod 64; 0x80 + cp mod 64]
  else [0xF0 + cp / 262144; 0x80 + cp / 4096 mod 64; 0x80 + cp / 64 mod 64; 0x80 + cp mod 64].

Lemma between_spec lo b hi : between lo b hi = true <-> lo <= b <= hi.
Proof. unfold between. rewrite andb_true_iff, !Z.leb_le. done. Qed.

(** Turns the byte tests into inequalities. *)
Ltac ranges :=
  repeat rewrite ?orb_true_iff, ?andb_true_iff, ?between_spec, ?Z.eqb_eq in *.

Ltac by_compare :=
  repeat match goal with
  | |- context [if ?x <? ?y then _ else _] =>
      first [rewrite (proj2 (Z.ltb_lt x y)) by lia | rewrite (proj2 (Z.ltb_ge x y)) by lia]
  end.

(** The byte tests, and the code points they stand for. *)
Definition two_ok (a b : Z) : bool := between 0xC2 a 0xDF && between 0x80 b 0xBF.

Lemma encode_2 a b :
  two_ok a b = true <-> exists cp, 0x80 <= cp < 0x800 /\ utf8_encode cp = [a; b].
Proof.
  unfold two_ok. ranges. split.
  - intros [Ha Hb]. exists ((a - 0xC0) * 64 + (b - 0x80)). split; [lia|].
    unfold utf8_encode. by_compare. f_equal; [dlia|f_equal; dlia].
  - intros (cp&Hcp&E). revert E. unfold utf8_encode. by_compare. intros [= <- <-]. dlia.
Qed.

Definition three_ok (a b c : Z) : bool :=
  ((a =? 0xE0) && between 0xA0 b 0xBF && between 0x80 c 0xBF)
  || ((between 0xE1 a 0xEC || (a =? 0xEE) || (a =? 0xEF)) && between 0x80 b 0xBF && between 0x80 c 0xBF)
  || ((a =? 0xED) && between 0x80 b 0x9F && between 0x80 c 0xBF).

Lemma encode_3 a b c :
  three_ok a b c = true <-> exists cp, 0x800 <= cp < 0x10000 /\ scalar cp /\ utf8_encode cp = [a; b; c].
Proof.
  unfold three_ok, scalar. ranges. split.
  - intros Hr. exists ((a - 0xE0) * 4096 + (b - 0x80) * 64 + (c - 0x80)). split_and!; [lia..|].
    unfold utf8_encode. by_compare. f_equal; [dlia|f_equal; [dlia|f_equal; dlia]].
  - intros (cp&Hcp&Hs&E). revert E. unfold utf8_encode. by_compare. intros [= <- <- <-]. dlia.
Qed.

Definition four_ok (a b c d : Z) : bool :=
  ((a =? 0xF0) && between 0x90 b 0xBF && between 0x80 c 0xBF && between 0x80 d 0xBF)
  || (between 0xF1 a 0xF3 && between 0x80 b 0xBF && between 0x80 c 0xBF && between 0x80 d 0xBF)
  || ((a =? 0xF4) && between 0x80 b 0x8F && between 0x80 c 0xBF && between 0x80 d 0xBF).

Lemma encode_4 a b c d :
  four_ok a b c d = true <->
  exists cp, 0x10000 <= cp <= 0x10FFFF /\ utf8_encode cp = [a; b; c; d].
Proof.
  unfold four_ok. ranges. split.
  - intros Hr. exists ((a - 0xF0) * 262144 + (b - 0x80) * 4096 + (c - 0x80) * 64 + (d - 0x80)).
    split_and!; [lia..|]. unfold utf8_encode. by_compare.
    f_equal; [dlia|f_equal; [dlia|f_equal; [dlia|f_equal; dlia]]].
  - intros (cp&Hcp&E). revert E. unfold utf8_encode. by_compare. intros [= <- <- <- <-]. dlia.
Qed.

Lemma three_not_two a b c : three_ok a b c = true -> two_ok a b = false.
Proof. unfold three_ok, two_ok. intros H. apply not_true_iff_false. ranges. lia. Qed.

Lemma four_not_less a b c d :
  four_ok a b c d = true -> two_ok a b = false /\ three_ok a b c = false.
Proof.
  unfold four_ok, three_ok, two_ok. intros H. rewrite <- !not_true_iff_false. ranges. lia.
Qed.

Lemma multi_len_sound rest k :
  multi_len rest = k -> k <> 0 ->
  exists cp tl, 0x80 <= cp /\ scalar cp /\ rest = utf8_encode cp ++ tl /\ zlen (utf8_encode cp) = k.
Proof.
  unfold multi_len. intros <- Hk.
  destruct rest as [|a [|b tl]]; [done..|]. fold (two_ok a b) in *.
  destruct (two_ok a b) eqn:E2.
  { apply encode_2 in E2 as (cp&Hcp&E). exists cp, tl. rewrite E. unfold scalar.
    split_and!; (done || lia). }
  destruct tl as [|c tl]; [done|]. fold (three_ok a b c) in *. destruct (three_ok a b c) eqn:E3.
  { apply encode_3 in E3 as (cp&Hcp&Hs&E). exists cp, tl. rewrite E. split_and!; (done || lia). }
  destruct tl as [|d tl]; [done|]. fold (four_ok a b c d) in *. destruct (four_ok a b c d) eqn:E4; [|done].
  apply encode_4 in E4 as (cp&Hcp&E). exists cp, tl. rewrite E. unfold scalar.
  split_and!; (done || lia).
Qed.

Lemma multi_len_complete cp tl :
  0x80 <= cp -> scalar cp -> multi_len (utf8_encode cp ++ tl) = zlen (utf8_encode cp).
Proof.
  intros Hlo Hs. pose proof Hs as Hs'. unfold scalar in Hs'. unfold multi_len.
  destruct (decide (cp < 0x800)) as [H2|H2]; [|destruct (decide (cp < 0x10000)) as [H3|H3]].
  - destruct (utf8_encode cp) as [|a [|b [|]]] eqn:E; revert E; unfold utf8_encode at 1; by_compare; try done.
    intros E. cbn [app]. fold (two_ok a b).
    rewrite (proj2 (encode_2 a b)); [done|]. exists cp. split; [lia|].
    unfold utf8_encode. by_compare. done.
  - destruct (utf8_encode cp) as [|a [|b [|c [|]]]] eqn:E; revert E; unfold utf8_encode at 1; by_compare; try done.
    intros E. cbn [app]. fold (two_ok a b) (three_ok a b c).
    assert (three_ok a b c = true) as T.
    { apply encode_3. exists cp. split_and!; [lia..|done|]. unfold utf8_encode. by_compare. done. }
    by rewrite (three_not_two a b c T), T.
  - destruct (utf8_encode cp) as [|a [|b [|c [|d [|]]]]] eqn:E; revert E; unfold utf8_encode at 1; by_compare; try done.
    intros E. cbn [app]. fold (two_ok a b) (three_ok a b c) (four_ok a b c d).
    assert (four_ok a b c d = true) as T.
    { apply encode_4. exists cp. split_and!; [lia..|]. unfold utf8_encode. by_compare. done. }
    destruct (four_not_less a b c d T) as [-> ->]. by rewrite T.
Qed.

(** The byte tests of the scanning loop accept a multi-byte sequence exactly when
    it is the UTF-8 encoding of a Unicode scalar value from U+0080 on, and skip as
    many bytes as it has: overlong forms, surrogates and values above U+10FFFF are
    refused. *)
Theorem multi_len_correct rest k :
  k <> 0 ->
  multi_len rest = k <->
  exists cp tl, 0x80 <= cp /\ scalar cp /\ rest = utf8_encode cp ++ tl /\ zlen (utf8_encode cp) = k.
Proof.
  intros Hk. split; [intros E; by apply multi_len_sound|].
  intros (cp&tl&Hlo&Hs&->&<-). by apply multi_len_complete.
Qed.

Theorem multi_len_witness :
  exists cp tl, 0x80 <= cp /\ scalar cp /\ [0xE2; 0x82; 0xAC; 0x21] = utf8_encode cp ++ tl /\
    zlen (utf8_encode cp) = 3.
Proof. apply (multi_len_correct [0xE2; 0x82; 0xAC; 0x21] 3); [done|reflexivity]. Defined.

(** ** The loop *)

Lemma multi_len_range rest :
  multi_len rest = 0 \/ 2 <= multi_len rest <= 4 /\ multi_len rest <= zlen rest.
Proof.
  destruct (decide (multi_len rest = 0)) as [|Hk]; [by left|right].
  destruct (multi_len_sound rest _ eq_refl Hk) as (cp&tl&Hlo&Hs&E&<-).
  rewrite E, zlen_app. pose proof (zlen_nonneg tl). split; [|lia].
  unfold utf8_encode. rewrite (proj2 (Z.ltb_ge cp 0x80)) by lia.
  destruct (cp <? 0x800); [done|]. by destruct (cp <? 0x10000).
Qed.

(** Any input: the loop ends within its length; [comp] counts the iterations, of
    which [utf8] and [ascii] are parts. *)
Lemma text_loop_total fuel : forall rest c,
  (length rest <= fuel)%nat ->
  exists c' n, text_loop fuel rest c = Some c' /\ comp c' = comp c - (zlen rest - n) /\
    0 <= n <= zlen rest /\ (rest <> [] -> 1 <= n) /\
    utf8 c <= utf8 c' <= utf8 c + n /\ ascii c <= ascii c' <= ascii c + n.
Proof.
  induction fuel as [|fuel IH]; intros rest c Hl.
  { destruct rest; [|cbn in Hl; lia]. exists c, 0. cbn. change (zlen []) with 0. split_and!; (done || lia). }
  destruct rest as [|a tl]; [exists c, 0; change (zlen (@nil Z)) with 0; split_and!; (done || lia)|].
  cbn [text_loop]. rewrite zlen_cons. cbn [length] in Hl.
  destruct (plain_ascii a).
  { destruct (IH tl (Counts (ascii c + 1) (utf8 c + 1) (comp c))) as (c'&n&->&Hc&Hn&_&Hu&Ha); [lia|].
    cbn in *. exists c', (n + 1). split_and!; (done || lia). }
  set (asc := if ascii_or_print a then ascii c + 1 else ascii c).
  assert (ascii c <= asc <= ascii c + 1) as Hasc by (unfold asc; destruct (ascii_or_print a); lia).
  destruct (multi_len_range (a :: tl)) as [->|[Hk Hkl]].
  - change (z2b 0) with false. cbv iota.
    destruct (IH tl (Counts asc (utf8 c) (comp c))) as (c'&n&->&Hc&Hn&_&Hu&Ha); [lia|].
    cbn in *. exists c', (n + 1). split_and!; (done || lia).
  - unfold z2b. rewrite (proj2 (Z.eqb_neq (multi_len (a :: tl)) 0)) by lia. cbn [negb].
    set (k := multi_len (a :: tl)) in *. rewrite zlen_cons in Hkl.
    assert (zlen (drop (Z.to_nat k) (a :: tl)) = 1 + zlen tl - k) as Hz.
    { unfold zlen in *. rewrite length_drop. cbn [length]. lia. }
    destruct (IH (drop (Z.to_nat k) (a :: tl)) (Counts asc (utf8 c + 1) (comp c - (k - 1))))
      as (c'&n&->&Hc&Hn&_&Hu&Ha); [unfold zlen in Hz; lia|].
    cbn [ascii utf8 comp] in *. exists c', (n + 1). split_and!; (done || lia).
Qed.

(** The characters of a text: plain ASCII, or any scalar value from U+0080 on. *)
Definition text_char (cp : Z) : Prop := plain_ascii cp = true \/ (0x80 <= cp /\ scalar cp).
Definition encode_text (cps : list Z) : list Z := cps ≫= utf8_encode.

Lemma plain_encode cp : plain_ascii cp = true -> utf8_encode cp = [cp].
Proof. unfold plain_ascii. ranges. intros H. unfold utf8_encode. by_compare. done. Qed.

Lemma encode_head cp :
  0x80 <= cp -> scalar cp -> exists a tl, utf8_encode cp = a :: tl /\ 0xC0 <= a <= 0xFF.
Proof.
  unfold scalar. intros Hlo Hs. unfold utf8_encode. rewrite (proj2 (Z.ltb_ge cp 0x80)) by lia.
  repeat case_match; b2p; eexists _, _; (split; [done|dlia]).
Qed.

Lemma text_loop_text fuel cps : forall c,
  Forall text_char cps -> (length (encode_text cps) <= fuel)%nat ->
  exists c', text_loop fuel (encode_text cps) c = Some c' /\
    utf8 c' = utf8 c + zlen cps /\ comp c' = comp c - (zlen (encode_text cps) - zlen cps) /\
    ascii c <= ascii c' <= ascii c + zlen cps.
Proof.
  revert fuel. induction cps as [|cp cps IH]; intros fuel c Hall Hl.
  { exists c. change (encode_text []) with (@nil Z). change (zlen (@nil Z)) with 0.
    split_and!; [by destruct fuel|lia..]. }
  apply Forall_cons_iff in Hall as [Hcp Hall].
  change (encode_text (cp :: cps)) with (utf8_encode cp ++ encode_text cps) in *.
  rewrite length_app in Hl. rewrite zlen_app, zlen_cons.
  destruct Hcp as [Hp|[Hlo Hs]].
  - rewrite plain_encode in * by done. cbn [app length] in *.
    destruct fuel as [|fuel]; [lia|]. cbn [text_loop]. rewrite Hp, zlen_one.
    destruct (IH fuel (Counts (ascii c + 1) (utf8 c + 1) (comp c))) as (c'&->&?&?&?); [done|lia|].
    exists c'. cbn in *. split_and!; (done || lia).
  - pose proof (multi_len_complete cp (encode_text cps) Hlo Hs) as Hm.
    destruct (encode_head cp Hlo Hs) as (a&tl&E&Ha).
    assert (1 <= zlen (utf8_encode cp)) by (rewrite E, zlen_cons; pose proof (zlen_nonneg tl); lia).
    destruct fuel as [|fuel]; [unfold zlen in *; lia|]. rewrite E in *. cbn [app text_loop] in *.
    assert (plain_ascii a = false) as ->.
    { apply not_true_iff_false. unfold plain_ascii. ranges. lia. }
    assert (ascii_or_print a = false) as ->.
    { apply not_true_iff_false. unfold ascii_or_print. ranges. lia. }
    rewrite Hm. unfold z2b. rewrite (proj2 (Z.eqb_neq (zlen (a :: tl)) 0)) by lia. cbn [negb].
    replace (Z.to_nat (zlen (a :: tl))) with (length (a :: tl)) by (unfold zlen; lia).
    change (a :: tl ++ encode_text cps) with ((a :: tl) ++ encode_text cps). rewrite drop_app_length.
    destruct (IH fuel (Counts (ascii c) (utf8 c + 1) (comp c - (zlen (a :: tl) - 1))))
      as (c'&->&?&?&?); [done|unfold zlen in *; lia|].
    exists c'. cbn [ascii utf8 comp] in *. split_and!; (done || lia).
Qed.

(** ** Properties *)

Lemma check_if_text_run file q_len :
  exists v, check_if_text file q_len = Some v /\ 0 <= v <= 2 /\
    (q_len < AFL_TXT_MAX_LEN -> v = 0).
Proof.
  unfold check_if_text. case_match eqn:Eg; [exists 0; split_and!; (done || lia)|].
  unfold AFL_TXT_MIN_LEN, AFL_TXT_MAX_LEN in Eg. b2p.
  set (len := if q_len >=? MAX_FILE then MAX_FILE - 1 else q_len).
  assert (65535 <= len) as Hlen.
  { unfold len, MAX_FILE. case_match; b2p; lia. }
  destruct file as [f|]; [|exists 0; split_and!; (done || lia)].
  destruct (zlen (take _ f) =? len) eqn:El; b2p; cbn [negb]; [|exists 0; split_and!; (done || lia)].
  destruct (text_loop_total (Z.to_nat len) (take (Z.to_nat len) f) (Counts 0 0 len))
    as (c&n&->&Hc&Hn&Hne&_&_); [unfold zlen in El; lia|].
  cbn [mbind option_bind comp] in *. rewrite (proj2 (Z.eqb_neq (comp c) 0)).
  - eexists. unfold AFL_TXT_MAX_LEN. split_and!; [done|repeat case_match; lia..|lia].
  - rewrite Hc. assert (1 <= n); [|lia]. apply Hne. intros E0. rewrite E0 in El.
    change (zlen (@nil Z)) with 0 in El. lia.
Qed.

(** [check_if_text] never divides by zero and answers 0, 1 or 2, for every file; it
    refuses every file below [AFL_TXT_MAX_LEN], whatever it holds: the second comparison
    of the guard has [<] where the length limit needs [>]. *)
Theorem check_if_text_total file q_len :
  exists v, check_if_text file q_len = Some v /\ 0 <= v <= 2 /\
    (q_len < AFL_TXT_MAX_LEN -> v = 0).
Proof. apply check_if_text_run. Qed.

(** A file of at least 65535 bytes (and below the file size limit) that is a
    UTF-8 text, printable ASCII and scalar values from U+0080 on, is recognised:
    [check_if_text] answers 2. *)
Theorem check_if_text_utf8 cps :
  let file := encode_text cps in
  Forall text_char cps -> AFL_TXT_MAX_LEN <= zlen file < MAX_FILE ->
  check_if_text (Some file) (zlen file) = Some 2.
Proof.
  intros file Hall Hlen. unfold AFL_TXT_MAX_LEN, MAX_FILE in Hlen. unfold check_if_text.
  unfold AFL_TXT_MIN_LEN, AFL_TXT_MAX_LEN, MAX_FILE. rewrite !(proj2 (Z.ltb_ge (zlen file) _)) by lia.
  cbn [orb]. destruct (zlen file >=? 1024 * 1024) eqn:E; b2p; [lia|].
  replace (Z.to_nat (zlen file)) with (length file) by (unfold zlen; lia).
  rewrite firstn_all, Z.eqb_refl. cbn [negb].
  destruct (text_loop_text (length file) cps (Counts 0 0 (zlen file)) Hall (Nat.le_refl _))
    as (c&Hc&Hu&Hcomp&Ha).
  fold file in Hc, Hcomp. rewrite Hc. cbn [mbind option_bind ascii utf8 comp] in *.
  assert (0 < zlen cps <= zlen file) as Hpos.
  { destruct (text_loop_total (length file) file (Counts 0 0 (zlen file)) (Nat.le_refl _))
      as (c'&n&Hc'&Hcc&Hn&Hne&Hu'&_).
    rewrite Hc in Hc'. injection Hc' as <-. cbn [comp utf8] in *.
    assert (1 <= n); [|lia]. apply Hne. intros ->. change (zlen (@nil Z)) with 0 in Hlen. lia. }
  rewrite (proj2 (Z.eqb_neq (comp c) 0)) by lia.
  replace (comp c) with (zlen cps) by lia. replace (utf8 c) with (zlen cps) by lia.
  rewrite (wrap_small 32 (zlen cps * 100)) by (unfold in_width; lia).
  rewrite (Z.mul_comm (zlen cps)), Z.quot_mul by lia. change (u32 100) with 100.
  rewrite (wrap_small 32) by (unfold in_width; lia).
  assert (ascii c * 100 / zlen file <= 100) by (apply Z.div_le_upper_bound; nia).
  rewrite (proj2 (Z.geb_le 100 _)) by lia. done.
Qed.

Theorem check_if_text_utf8_witness :
  check_if_text (Some (encode_text (replicate (Z.to_nat 40000) 0xE9))) 80000 = Some 2.
Proof.
  assert (zlen (encode_text (replicate (Z.to_nat 40000) 0xE9)) = 80000) as E by (vm_compute; reflexivity).
  rewrite <- E. apply check_if_text_utf8.
  - apply Forall_replicate. right. unfold scalar. lia.
  - rewrite E. unfold AFL_TXT_MAX_LEN, MAX_FILE. lia.
Defined.

(** For a UTF-8 text of characters from U+0080 on or printable ASCII,
    [check_if_text_buf] returns the number of characters modulo 256: the count is
    returned as [u8], so that 256 characters look like none. *)
Theorem check_if_text_buf_count cps :
  let buf := encode_text cps in
  Forall text_char cps -> check_if_text_buf buf (zlen buf) = Some (zlen cps mod 256).
Proof.
  intros buf Hall. unfold check_if_text_buf. rewrite load_Some by (pose proof (zlen_nonneg buf); lia).
  rewrite slice_full by lia. cbn [mbind option_bind].
  replace (Z.to_nat (zlen buf)) with (length buf) by (unfold zlen; lia).
  destruct (text_loop_text (length buf) cps (Counts 0 0 (zlen buf)) Hall (Nat.le_refl _))
    as (c&Hc&Hu&_&Ha).
  fold buf in Hc. rewrite Hc. cbn [mbind option_bind ascii utf8] in *.
  unfold wrap. change (2 ^ 8) with 256. do 2 f_equal. case_match eqn:E; b2p; lia.
Qed.

Theorem check_if_text_buf_witness : check_if_text_buf (replicate 256 65) 256 = Some 0.
Proof.
  assert (encode_text (replicate 256 65) = replicate 256 65) as E by (vm_compute; reflexivity).
  rewrite <- E. apply (check_if_text_buf_count (replicate 256 65)).
  apply Forall_replicate. by left.
Defined.
