(* ===== verification/Queue.v ===== *)
(** * The queue and its favoured entries

    Of [src/afl-fuzz-queue.c]: [add_to_queue], [mark_as_redundant],
    [update_bitmap_score], [update_bitmap_rescore], [recalculate_all_scores] and
    [cull_queue].  A pointer to a queue entry is its index in [queue_buf]; an access
    outside of an array, or through an index that is not in the queue, is [None]. *)

From S2P Require Import Prelude Rng Coverage TextCheck.

(** ** Data *)

Record queue_entry := Entry {
  q_len : Z;
  q_id : Z;
  q_depth : Z;
  q_passed_det : bool;
  q_was_fuzzed : bool;
  q_favored : bool;
  q_fs_redundant : bool;
  q_is_ascii : bool;
  q_disabled : bool;
  q_fuzz_level : Z;
  q_n_fuzz_entry : Z;
  q_exec_us : Z;
  q_mother : option nat;
  q_tc_ref : Z;
  q_trace_mini : option (list Z)
}.

(** The part of [afl_state_t] the routines below read and write.  [cur_time] is what
    the clock answers; the weights of the alias table are not part of it. *)
Record afl := Afl {
  queue_buf : list queue_entry;
  queued_items : Z;
  top_rated : list (option nat);
  trace_bits : list Z;
  map_size : Z;
  schedule : Z;
  fixed_seed : bool;
  n_fuzz : list Z;
  score_changed : bool;
  non_instrumented_mode : bool;
  afl_disable_redundant : bool;
  map_tmp_buf : list Z;
  queued_favored : Z;
  pending_favored : Z;
  smallest_favored : Z;
  reinit_table : bool
}.

(** Power schedules. *)
Definition EXPLORE : Z := 0.
Definition MMOPT : Z := 1.
Definition EXPLOIT : Z := 2.
Definition FAST : Z := 3.
Definition COE : Z := 4.
Definition LIN : Z := 5.
Definition QUAD : Z := 6.
Definition RARE : Z := 7.
Definition SEEK : Z := 8.

(** *** Updates of the records *)

Definition set_ref (r : Z) (t : option (list Z)) (q : queue_entry) : queue_entry :=
  Entry (q_len q) (q_id q) (q_depth q) (q_passed_det q) (q_was_fuzzed q) (q_favored q)
    (q_fs_redundant q) (q_is_ascii q) (q_disabled q) (q_fuzz_level q) (q_n_fuzz_entry q)
    (q_exec_us q) (q_mother q) r t.

Definition set_favored (b : bool) (q : queue_entry) : queue_entry :=
  Entry (q_len q) (q_id q) (q_depth q) (q_passed_det q) (q_was_fuzzed q) b
    (q_fs_redundant q) (q_is_ascii q) (q_disabled q) (q_fuzz_level q) (q_n_fuzz_entry q)
    (q_exec_us q) (q_mother q) (q_tc_ref q) (q_trace_mini q).

Definition set_redundant (red dis : bool) (t : option (list Z)) (q : queue_entry) : queue_entry :=
  Entry (q_len q) (q_id q) (q_depth q) (q_passed_det q) (q_was_fuzzed q) (q_favored q)
    red (q_is_ascii q) dis (q_fuzz_level q) (q_n_fuzz_entry q)
    (q_exec_us q) (q_mother q) (q_tc_ref q) t.

Definition with_queue (l : list queue_entry) (st : afl) : afl :=
  Afl l (queued_items st) (top_rated st) (trace_bits st) (map_size st) (schedule st)
    (fixed_seed st) (n_fuzz st) (score_changed st) (non_instrumented_mode st)
    (afl_disable_redundant st) (map_tmp_buf st) (queued_favored st) (pending_favored st)
    (smallest_favored st) (reinit_table st).

Definition with_top (l : list (option nat)) (st : afl) : afl :=
  Afl (queue_buf st) (queued_items st) l (trace_bits st) (map_size st) (schedule st)
    (fixed_seed st) (n_fuzz st) (score_changed st) (non_instrumented_mode st)
    (afl_disable_redundant st) (map_tmp_buf st) (queued_favored st) (pending_favored st)
    (smallest_favored st) (reinit_table st).

Definition with_score_changed (b : bool) (st : afl) : afl :=
  Afl (queue_buf st) (queued_items st) (top_rated st) (trace_bits st) (map_size st)
    (schedule st) (fixed_seed st) (n_fuzz st) b (non_instrumented_mode st)
    (afl_disable_redundant st) (map_tmp_buf st) (queued_favored st) (pending_favored st)
    (smallest_favored st) (reinit_table st).

Definition with_trace (t : list Z) (st : afl) : afl :=
  Afl (queue_buf st) (queued_items st) (top_rated st) t (map_size st)
    (schedule st) (fixed_seed st) (n_fuzz st) (score_changed st) (non_instrumented_mode st)
    (afl_disable_redundant st) (map_tmp_buf st) (queued_favored st) (pending_favored st)
    (smallest_favored st) (reinit_table st).

Definition with_reinit (b : bool) (st : afl) : afl :=
  Afl (queue_buf st) (queued_items st) (top_rated st) (trace_bits st) (map_size st)
    (schedule st) (fixed_seed st) (n_fuzz st) (score_changed st) (non_instrumented_mode st)
    (afl_disable_redundant st) (map_tmp_buf st) (queued_favored st) (pending_favored st)
    (smallest_favored st) b.

Definition with_entry (w : nat) (e : queue_entry) (st : afl) : afl :=
  with_queue (<[w := e]> (queue_buf st)) st.

(** ** Scores *)

(** [fuzz_p2] of an entry under the current schedule. *)
Definition fuzz_p2 (st : afl) (e : queue_entry) : option Z :=
  if (schedule st >=? FAST) && (schedule st <? RARE) then Some 0
  else if schedule st =? RARE then
    n ← get (n_fuzz st) (q_n_fuzz_entry e); Some (next_pow2 n)
  else Some (q_fuzz_level e).

(** [fav_factor]: [len << 2] is computed in [u32], the product in [u64]. *)
Definition fav_factor (st : afl) (e : queue_entry) : Z :=
  if (schedule st >=? RARE) || fixed_seed st then u32 (Z.shiftl (q_len e) 2)
  else u64 (q_exec_us e * q_len e).

(** The reference count of a beaten winner goes down; at zero its trace is freed. *)
Definition drop_ref (w : nat) (st : afl) : option afl :=
  e ← queue_buf st !! w;
  let r := u32 (q_tc_ref e - 1) in
  Some (with_entry w (if r =? 0 then set_ref r None e else set_ref r (q_trace_mini e) e) st).

(** The winner takes slot [i]; [len] is the size of a new minimised trace. *)
Definition insert_winner (len i : Z) (qi : nat) (st : afl) : option afl :=
  top ← put (top_rated st) i (Some qi);
  let st := with_top top st in
  q ← queue_buf st !! qi;
  mini ← match q_trace_mini q with
         | Some t => Some t
         | None => minimize_bits (map_size st) (replicate (Z.to_nat len) 0) (trace_bits st)
         end;
  Some (with_score_changed true (with_entry qi (set_ref (u32 (q_tc_ref q + 1)) (Some mini) q) st)).

(** An entry of rank [fp], [ff] contends for slot [i]. *)
Definition contend (len fp ff i : Z) (qi : nat) (st : afl) : option afl :=
  slot ← get (top_rated st) i;
  match slot with
  | None => insert_winner len i qi st
  | Some w =>
      e ← queue_buf st !! w;
      tp ← fuzz_p2 st e;
      let tf := fav_factor st e in
      if fp >? tp then Some st
      else if ff >? tf then Some st
      else st ← drop_ref w st; insert_winner len i qi st
  end.

Fixpoint score_loop (todo : nat) (len fp ff i : Z) (qi : nat) (st : afl) : option afl :=
  match todo with
  | O => Some st
  | S todo =>
      b ← get (trace_bits st) i;
      st ← (if z2b b then contend len fp ff i qi st else Some st);
      score_loop todo len fp ff (i + 1) qi st
  end.

Definition update_bitmap_score (st : afl) (qi : nat) (have_trace : bool) : option afl :=
  q ← queue_buf st !! qi;
  fp ← fuzz_p2 st q;
  let ff := fav_factor st q in
  if have_trace then
    score_loop (Z.to_nat (map_size st)) (Z.shiftr (map_size st + 7) 3) fp ff 0 qi st
  else Some st.

Definition update_bitmap_rescore (st : afl) (qi : nat) (index : Z) : option afl :=
  q ← queue_buf st !! qi;
  fp ← fuzz_p2 st q;
  let ff := fav_factor st q in
  contend (Z.shiftr (map_size st) 3) fp ff index qi st.

(** ** Culling *)

Definition mark_as_redundant (st : afl) (w : nat) (state : bool) : option afl :=
  q ← queue_buf st !! w;
  if Bool.eqb state (q_fs_redundant q) then Some st
  else
    let mini := if state then None else q_trace_mini q in
    let dis := if state && afl_disable_redundant st then true else q_disabled q in
    Some (with_entry w (set_redundant state dis mini q) st).

(** [while (j--) if (mini[j]) temp_v[j] &= ~mini[j];] *)
Fixpoint clear_loop (j : nat) (mini temp_v : list Z) : option (list Z) :=
  match j with
  | O => Some temp_v
  | S j =>
      m ← get mini (Z.of_nat j);
      temp_v ← (if z2b m then
                  t ← get temp_v (Z.of_nat j);
                  put temp_v (Z.of_nat j) (Z.ldiff t m)
                else Some temp_v);
      clear_loop j mini temp_v
  end.

(** The counters and the map [cull_queue] works on. *)
Record cull_state := Cull {
  cu_queue : list queue_entry;
  cu_temp_v : list Z;
  cu_favored : Z;
  cu_pending : Z;
  cu_smallest : Z
}.

(** One bit of the bitmap: a winner that is not captured yet becomes favoured. *)
Definition cull_bit (len : Z) (top : list (option nat)) (i : Z) (c : cull_state) : option cull_state :=
  slot ← get top i;
  match slot with
  | None => Some c
  | Some w =>
      b ← get (cu_temp_v c) (Z.shiftr i 3);
      if negb (z2b (Z.land b (Z.shiftl 1 (Z.land i 7)))) then Some c
      else
        q ← cu_queue c !! w;
        match q_trace_mini q with
        | None => Some c
        | Some mini =>
            temp_v ← clear_loop (Z.to_nat len) mini (cu_temp_v c);
            if q_favored q then
              Some (Cull (cu_queue c) temp_v (cu_favored c) (cu_pending c) (cu_smallest c))
            else
              let queue := <[w := set_favored true q]> (cu_queue c) in
              if q_was_fuzzed q then
                Some (Cull queue temp_v (u32 (cu_favored c + 1)) (cu_pending c) (cu_smallest c))
              else
                Some (Cull queue temp_v (u32 (cu_favored c + 1)) (u32 (cu_pending c + 1))
                        (if cu_smallest c <? 0 then q_id q else cu_smallest c))
        end
  end.

Fixpoint cull_loop (todo : nat) (len : Z) (top : list (option nat)) (i : Z) (c : cull_state) :
  option cull_state :=
  match todo with
  | O => Some c
  | S todo => c ← cull_bit len top i c; cull_loop todo len top (i + 1) c
  end.

(** The last loop: entry [w] on, [todo] entries. *)
Fixpoint redundant_loop (todo : nat) (w : nat) (st : afl) : option afl :=
  match todo with
  | O => Some st
  | S todo =>
      q ← queue_buf st !! w;
      st ← (if q_disabled q then Some st else mark_as_redundant st w (negb (q_favored q)));
      redundant_loop todo (S w) st
  end.

Fixpoint unfavor_loop (todo : nat) (l : list queue_entry) : option (list queue_entry) :=
  match todo with
  | O => Some l
  | S todo =>
      match l with
      | [] => None
      | q :: l => l ← unfavor_loop todo l; Some (set_favored false q :: l)
      end
  end.

Definition cull_queue (st : afl) : option afl :=
  if negb (score_changed st) || non_instrumented_mode st then Some st
  else
    let len := Z.shiftr (map_size st) 3 in
    temp_v ← store (map_tmp_buf st) 0 (replicate (Z.to_nat len) 255);
    queue ← unfavor_loop (Z.to_nat (queued_items st)) (queue_buf st);
    c ← cull_loop (Z.to_nat (map_size st)) len (top_rated st) 0 (Cull queue temp_v 0 0 (-1));
    st ← redundant_loop (Z.to_nat (queued_items st)) 0
      (Afl (cu_queue c) (queued_items st) (top_rated st) (trace_bits st) (map_size st)
        (schedule st) (fixed_seed st) (n_fuzz st) false (non_instrumented_mode st)
        (afl_disable_redundant st) (cu_temp_v c) (cu_favored c) (cu_pending c)
        (cu_smallest c) (reinit_table st));
    Some (with_reinit true st).

(** ** Rescoring after a change of the schedule *)

(** [top_rated_candidates] holds, per bit, the array [count, id1, id2, ...]. *)
Record scorer := Scorer {
  sc_afl : afl;
  top_rated_candidates : list (option (list Z));
  last_scored_idx : Z
}.

Definition enroll (id : Z) (cand : option (list Z)) : option (list Z) :=
  match cand with
  | None => Some [1; id]
  | Some ids =>
      count ← get ids 0;
      (* [ck_realloc] to [count + 2] words; the new ones are zero *)
      let ids := take (Z.to_nat (count + 2)) (ids ++ replicate (Z.to_nat (count + 2)) 0) in
      ids ← put ids 0 (u32 (count + 1));
      put ids (count + 1) id
  end.

Fixpoint enroll_loop (todo : nat) (j id : Z) (trace : list Z) (cands : list (option (list Z))) :
  option (list (option (list Z))) :=
  match todo with
  | O => Some cands
  | S todo =>
      b ← get trace j;
      cands ← (if z2b b then
                 c ← get cands j;
                 c ← enroll id c;
                 put cands j (Some c)
               else Some cands);
      enroll_loop todo (j + 1) id trace cands
  end.

(** [exec q] is the trace that running the target on the test case of [q] leaves. *)
Fixpoint collect_loop (exec : queue_entry -> list Z) (todo : nat) (i : Z) (sc : scorer) :
  option scorer :=
  match todo with
  | O => Some sc
  | S todo =>
      q ← get (queue_buf (sc_afl sc)) i;
      sc ← (if q_disabled q then Some sc
            else
              let st := with_trace (exec q) (sc_afl sc) in
              cands ← enroll_loop (Z.to_nat (map_size st)) 0 (q_id q) (trace_bits st)
                        (top_rated_candidates sc);
              Some (Scorer st cands (last_scored_idx sc)));
      collect_loop exec todo (i + 1) (Scorer (sc_afl sc) (top_rated_candidates sc) i)
  end.

Fixpoint rescore_ids (todo : nat) (k i : Z) (ids : list Z) (st : afl) : option afl :=
  match todo with
  | O => Some st
  | S todo =>
      id ← get ids (k + 1);
      st ← update_bitmap_rescore st (Z.to_nat id) i;
      rescore_ids todo (k + 1) i ids st
  end.

Fixpoint rescore_loop (todo : nat) (i : Z) (cands : list (option (list Z))) (st : afl) : option afl :=
  match todo with
  | O => Some st
  | S todo =>
      cand ← get cands i;
      st ← match cand with
           | None => Some st
           | Some ids => count ← get ids 0; rescore_ids (Z.to_nat count) 0 i ids st
           end;
      rescore_loop todo (i + 1) cands st
  end.

Definition recalculate_all_scores (exec : queue_entry -> list Z) (sc : scorer) : option scorer :=
  let first := last_scored_idx sc + 1 in
  sc ← collect_loop exec (Z.to_nat (queued_items (sc_afl sc) - first)) first sc;
  st ← rescore_loop (Z.to_nat (map_size (sc_afl sc))) 0 (top_rated_candidates sc) (sc_afl sc);
  Some (Scorer st (top_rated_candidates sc) (last_scored_idx sc)).

(** ** New entries *)

(** What [add_to_queue] reads and writes besides the queue.  [queue_top] is the last
    entry; [cmplog_text] is what [check_if_text] answers for the new file, if
    [cmplog_mode] is on. *)
Record corpus := Corpus {
  co_afl : afl;
  queue_head : option nat;
  queue_top : option nat;
  queue_cur : option nat;
  cur_depth : Z;
  max_depth : Z;
  ready_for_splicing_count : Z;
  active_items : Z;
  pending_not_fuzzed : Z;
  cycles_wo_finds : Z;
  start_time : Z;
  last_find_time : Z;
  longest_find_time : Z
}.

Definition new_entry (len depth id : Z) (passed_det is_ascii : bool) (mother : option nat) : queue_entry :=
  Entry len id depth passed_det false false false is_ascii false 0 0 0 mother 0 None.

Definition add_to_queue (co : corpus) (len : Z) (passed_det : bool) (cur_time : Z)
  (cmplog_text : option Z) : corpus :=
  let st := co_afl co in
  let depth := u32 (cur_depth co + 1) in
  let items := u32 (queued_items st + 1) in
  let id := u32 (items - 1) in
  let is_ascii := match cmplog_text with Some v => z2b v | None => false end in
  let q := new_entry len depth id passed_det is_ascii (queue_cur co) in
  let me := length (queue_buf st) in
  let gap := u64 (cur_time - last_find_time co) in
  let longest :=
    if z2b (start_time co) && (longest_find_time co <? gap) then
      if last_find_time co =? 0 then u64 (cur_time - start_time co) else gap
    else longest_find_time co in
  Corpus
    (Afl (queue_buf st ++ [q]) items (top_rated st) (trace_bits st) (map_size st) (schedule st)
      (fixed_seed st) (n_fuzz st) (score_changed st) (non_instrumented_mode st)
      (afl_disable_redundant st) (map_tmp_buf st) (queued_favored st) (pending_favored st)
      (smallest_favored st) (reinit_table st))
    (match queue_top co with Some _ => queue_head co | None => Some me end)
    (Some me)
    (queue_cur co)
    (cur_depth co)
    (if depth >? max_depth co then depth else max_depth co)
    (if len >? 4 then u32 (ready_for_splicing_count co + 1) else ready_for_splicing_count co)
    (u32 (active_items co + 1))
    (u32 (pending_not_fuzzed co + 1))
    0
    (start_time co)
    cur_time
    longest.
