(* ===== verification/QueueFacts.v ===== *)
(** * Facts on the favoured entries of the queue

    The reference counts of [top_rated], the outcome of a contest for a slot, and the
    set of entries that [cull_queue] favours. *)

From S2P Require Import Prelude Rng Coverage CoverageFacts CountFacts TextCheck Queue.

(** ** The invariant *)

(** Number of slots entry [w] holds. *)
Definition refs (top : list (option nat)) (w : nat) : Z :=
  zlen (filter (fun s => s = Some w) top).

(** Byte [i] of a trace is set. *)
Definition hits (t : list Z) (i : Z) : Prop := exists b, t !! Z.to_nat i = Some b /\ b <> 0.

(** [mini] is the minimised form of trace [t]. *)
Definition mini_of (ms : Z) (t mini : list Z) : Prop :=
  zlen mini = (ms + 7) / 8 /\ bytes_ok mini /\
  forall j b, 0 <= j < ms -> mini !! Z.to_nat (j / 8) = Some b ->
    Z.testbit b (j mod 8) = true <-> hits t j.

(** [wfR R tr st]: the queue with [R w] as the reference count of entry [w]; [tr w] is
    the trace of that entry. *)
Record wfR (R : nat -> Z) (tr : nat -> list Z) (st : afl) : Prop := {
  wf_items : queued_items st = zlen (queue_buf st);
  wf_ms : 0 <= map_size st < 2 ^ 32 - 1;
  wf_top : zlen (top_rated st) = map_size st;
  wf_trace : map_size st <= zlen (trace_bits st);
  wf_tmp : (map_size st + 7) / 8 <= zlen (map_tmp_buf st) /\ bytes_ok (map_tmp_buf st);
  wf_nfuzz : forall w e, queue_buf st !! w = Some e -> 0 <= q_n_fuzz_entry e < zlen (n_fuzz st);
  wf_ref : forall w e, queue_buf st !! w = Some e -> q_tc_ref e = R w;
  wf_slot : forall i w, 0 <= i -> top_rated st !! Z.to_nat i = Some (Some w) ->
    (w < length (queue_buf st))%nat /\ hits (tr w) i;
  wf_mini : forall w e t, queue_buf st !! w = Some e -> q_trace_mini e = Some t ->
    0 < R w /\ mini_of (map_size st) (tr w) t
}.

Definition wf (tr : nat -> list Z) (st : afl) : Prop := wfR (refs (top_rated st)) tr st.

(** What a contest leaves alone: everything but the slots, the reference counts, the
    minimised traces and the flag. *)
Definition static (q : queue_entry) : queue_entry := set_ref 0 None q.

Record frame (st st' : afl) : Prop := {
  fr_queue : static <$> queue_buf st' = static <$> queue_buf st;
  fr_items : queued_items st' = queued_items st;
  fr_trace : trace_bits st' = trace_bits st;
  fr_ms : map_size st' = map_size st;
  fr_sched : schedule st' = schedule st;
  fr_seed : fixed_seed st' = fixed_seed st;
  fr_nfuzz : n_fuzz st' = n_fuzz st;
  fr_tmp : map_tmp_buf st' = map_tmp_buf st;
  fr_fav : queued_favored st' = queued_favored st /\ pending_favored st' = pending_favored st /\
           smallest_favored st' = smallest_favored st /\ reinit_table st' = reinit_table st;
  fr_mode : non_instrumented_mode st' = non_instrumented_mode st /\
            afl_disable_redundant st' = afl_disable_redundant st
}.

Lemma frame_refl st : frame st st.
Proof. by split. Qed.

Lemma frame_trans st1 st2 st3 : frame st1 st2 -> frame st2 st3 -> frame st1 st3.
Proof. intros [] []. split; destruct_and?; split_and?; congruence. Qed.

(** Rank of an entry: lower is better in both components. *)
Lemma fuzz_p2_frame st st' e e' :
  frame st st' -> static e' = static e -> fuzz_p2 st' e' = fuzz_p2 st e.
Proof.
  intros [] E. unfold fuzz_p2. rewrite fr_sched0, fr_nfuzz0.
  assert (q_n_fuzz_entry e' = q_n_fuzz_entry e) as ->
    by (change (q_n_fuzz_entry (static e') = q_n_fuzz_entry (static e)); by rewrite E).
  assert (q_fuzz_level e' = q_fuzz_level e) as ->
    by (change (q_fuzz_level (static e') = q_fuzz_level (static e)); by rewrite E).
  done.
Qed.

Lemma fav_factor_frame st st' e e' :
  frame st st' -> static e' = static e -> fav_factor st' e' = fav_factor st e.
Proof.
  intros [] E. unfold fav_factor. rewrite fr_sched0, fr_seed0.
  assert (q_len e' = q_len e) as ->
    by (change (q_len (static e') = q_len (static e)); by rewrite E).
  assert (q_exec_us e' = q_exec_us e) as ->
    by (change (q_exec_us (static e') = q_exec_us (static e)); by rewrite E).
  done.
Qed.

Lemma fuzz_p2_total R tr st w e :
  wfR R tr st -> queue_buf st !! w = Some e -> exists v, fuzz_p2 st e = Some v.
Proof.
  intros Hwf Hw. unfold fuzz_p2. repeat case_match; try by eexists.
  destruct (get_Some (n_fuzz st) (q_n_fuzz_entry e)) as [n ->]; [by eapply wf_nfuzz|].
  cbn. by eexists.
Qed.

(** ** Reference counts *)

Lemma filter_cons_if {A} (P : A -> Prop) `{!forall x, Decision (P x)} x l :
  zlen (filter P (x :: l)) = (if decide (P x) then 1 else 0) + zlen (filter P l).
Proof. rewrite filter_cons. destruct (decide (P x)); [by rewrite zlen_cons|done]. Qed.

Lemma count_insert {A} (P : A -> Prop) `{!forall x, Decision (P x)} (l : list A) i old new :
  l !! i = Some old ->
  zlen (filter P (<[i := new]> l)) =
  zlen (filter P l) - (if decide (P old) then 1 else 0) + (if decide (P new) then 1 else 0).
Proof.
  revert i. induction l as [|x l IH]; intros [|i] Hi; try done; cbn in Hi.
  - injection Hi as ->. change (<[0%nat:=new]> (old :: l)) with (new :: l).
    rewrite !filter_cons_if. lia.
  - change (<[S i:=new]> (x :: l)) with (x :: <[i:=new]> l).
    rewrite !filter_cons_if, (IH i) by done. lia.
Qed.

Lemma count_none {A} (P : A -> Prop) `{!forall x, Decision (P x)} l :
  Forall (fun x => ~ P x) l -> zlen (filter P l) = 0.
Proof.
  induction 1 as [|x l Hx _ IH]; [done|]. rewrite filter_cons_if, IH. by rewrite decide_False.
Qed.

Lemma refs_insert top i old new w :
  top !! i = Some old ->
  refs (<[i := new]> top) w =
  refs top w - (if decide (old = Some w) then 1 else 0) + (if decide (new = Some w) then 1 else 0).
Proof.
  intros Hi. unfold refs. rewrite (count_insert (fun s => s = Some w) top i old new Hi).
  repeat case_decide; done.
Qed.

Lemma refs_range top w : 0 <= refs top w <= zlen top.
Proof. unfold refs, zlen. pose proof (length_filter (fun s => s = Some w) top). lia. Qed.

Lemma refs_pos top i w : top !! i = Some (Some w) -> 0 < refs top w.
Proof.
  intros Hi. pose proof (refs_insert top i (Some w) None w Hi) as E.
  rewrite decide_True, decide_False in E by done. pose proof (refs_range (<[i:=None]> top) w). lia.
Qed.

(** ** One contest *)

Definition bump (w : nat) (d : Z) (R : nat -> Z) (x : nat) : Z :=
  if decide (x = w) then R x + d else R x.

Lemma wfR_ext R R' tr st : (forall x, R x = R' x) -> wfR R tr st -> wfR R' tr st.
Proof.
  intros E []. split; try done.
  - intros w e Hw. by rewrite <- E, (wf_ref0 w e Hw).
  - intros w e t Hw Ht. rewrite <- E. by apply (wf_mini0 w e t).
Qed.

Lemma static_insert (l : list queue_entry) (w : nat) (e e' : queue_entry) :
  l !! w = Some e -> static e' = static e -> static <$> <[w := e']> l = static <$> l.
Proof.
  intros Hw E. rewrite list_fmap_insert, E. apply list_insert_id. by rewrite list_lookup_fmap, Hw.
Qed.

Lemma frame_entry st w e e' :
  queue_buf st !! w = Some e -> static e' = static e -> frame st (with_entry w e' st).
Proof. intros Hw E. split; try done. cbn. by apply (static_insert _ _ e). Qed.

(** Replacing an entry by one with another reference count and trace. *)
Lemma wfR_entry R tr st w e d t :
  wfR R tr st -> queue_buf st !! w = Some e ->
  (forall mini, t = Some mini -> 0 < R w + d /\ mini_of (map_size st) (tr w) mini) ->
  wfR (bump w d R) tr (with_entry w (set_ref (R w + d) t e) st).
Proof.
  intros [] Hw Ht. pose proof (lookup_lt_Some _ _ _ Hw) as Hlt.
  assert (forall x e', <[w := set_ref (R w + d) t e]> (queue_buf st) !! x = Some e' ->
    x = w /\ e' = set_ref (R w + d) t e \/ x <> w /\ queue_buf st !! x = Some e') as Hcase.
  { intros x e' Hx. destruct (decide (x = w)) as [->|Hne].
    - rewrite list_lookup_insert_eq in Hx by done. injection Hx as <-. auto.
    - rewrite list_lookup_insert_ne in Hx by done. auto. }
  split; cbn; try done.
  - unfold zlen in *. by rewrite length_insert.
  - intros x e' [[-> ->]|[? Hx]]%Hcase; [by apply (wf_nfuzz0 w e)|by apply (wf_nfuzz0 x e')].
  - intros x e' [[-> ->]|[? Hx]]%Hcase; unfold bump.
    + by rewrite decide_True.
    + rewrite decide_False by done. by apply wf_ref0.
  - intros i x Hi Hx. rewrite length_insert. by apply wf_slot0.
  - intros x e' mini [[-> ->]|[? Hx]]%Hcase Hm; unfold bump.
    + rewrite decide_True by done. by apply Ht.
    + rewrite decide_False by done. by apply (wf_mini0 x e').
Qed.

Lemma drop_ref_ok R tr st w :
  wfR R tr st -> (w < length (queue_buf st))%nat -> 1 <= R w < 2 ^ 32 ->
  exists st', drop_ref w st = Some st' /\ wfR (bump w (-1) R) tr st' /\ frame st st' /\
    top_rated st' = top_rated st /\ score_changed st' = score_changed st.
Proof.
  intros Hwf Hw HR. destruct (lookup_lt_is_Some_2 _ _ Hw) as [e He]. unfold drop_ref. rewrite He.
  cbn [mbind option_bind]. rewrite (wf_ref R tr st Hwf w e He).
  rewrite wrap_small by (unfold in_width; lia). replace (R w - 1) with (R w + -1) by lia.
  eexists. split; [done|]. destruct (R w + -1 =? 0) eqn:E; b2p.
  - split_and!; [|by apply (frame_entry _ _ e)|done..]. by apply wfR_entry.
  - split_and!; [|by apply (frame_entry _ _ e)|done..]. apply wfR_entry; [done..|].
    intros mini Hm. destruct (wf_mini R tr st Hwf w e mini He Hm). split; [lia|done].
Qed.

(** The size of a new minimised trace in the two callers. *)
Definition mini_len (ms len : Z) : Prop := len = (ms + 7) / 8.

Lemma same_hits_mini ms trace t mini len :
  0 <= ms -> ms <= zlen trace -> mini_len ms len ->
  (forall j, 0 <= j < ms -> hits trace j <-> hits t j) ->
  minimize_bits ms (replicate (Z.to_nat len) 0) trace = Some mini -> mini_of ms t mini.
Proof.
  intros Hms Htr Hlen Hsame E. unfold mini_len in Hlen.
  assert (0 <= len) by (subst len; apply Z.div_pos; lia).
  assert (zlen (replicate (Z.to_nat len) 0) = len) as Hz by (by apply zlen_replicate).
  destruct (minimize_loop_spec (Z.to_nat ms) 0 trace (replicate (Z.to_nat len) 0))
    as (mini'&E'&Hl&Hb&Hbits); [lia|lia|rewrite Hz; dlia|by apply Forall_replicate|].
  unfold minimize_bits in E. rewrite E' in E. injection E as ->.
  split_and!; [lia|done|]. intros j b Hj Hjb.
  rewrite (Hbits j 0 b); [|lia| |done].
  - rewrite Z.testbit_0_l. cbn [orb]. unfold src_hit.
    rewrite (proj2 (Z.leb_le 0 j)), (proj2 (Z.ltb_lt j _)) by lia. cbn [andb].
    rewrite <- Hsame by done. unfold hits, z2b. destruct (trace !! Z.to_nat j) as [s|].
    + rewrite negb_true_iff, Z.eqb_neq. split; [by exists s|]. by intros (?&[= <-]&?).
    + split; [done|]. by intros (?&?&_).
  - apply lookup_replicate. split; [done|]. apply lookup_lt_Some in Hjb. unfold zlen in *. lia.
Qed.

Lemma minimize_total ms len trace :
  0 <= ms -> ms <= zlen trace -> mini_len ms len ->
  exists mini, minimize_bits ms (replicate (Z.to_nat len) 0) trace = Some mini.
Proof.
  intros Hms Htr ->.
  destruct (minimize_loop_spec (Z.to_nat ms) 0 trace (replicate (Z.to_nat ((ms + 7) / 8)) 0))
    as (mini'&E'&_); [lia|lia|rewrite zlen_replicate; dlia|by apply Forall_replicate|].
  by exists mini'.
Qed.

Lemma insert_winner_ok R tr st len i qi :
  wfR R tr st -> (qi < length (queue_buf st))%nat -> 0 <= i < map_size st -> hits (tr qi) i ->
  mini_len (map_size st) len ->
  (forall j, 0 <= j < map_size st -> hits (trace_bits st) j <-> hits (tr qi) j) ->
  0 <= R qi < 2 ^ 32 - 1 ->
  exists st', insert_winner len i qi st = Some st' /\ wfR (bump qi 1 R) tr st' /\ frame st st' /\
    top_rated st' = <[Z.to_nat i := Some qi]> (top_rated st) /\ score_changed st' = true.
Proof.
  intros Hwf Hq Hi Hhit Hlen Hsame HR. pose proof Hwf as [].
  destruct (lookup_lt_is_Some_2 _ _ Hq) as [e He]. unfold insert_winner.
  rewrite put_Some by lia. cbn [mbind option_bind with_top queue_buf]. rewrite He.
  cbn [mbind option_bind with_top map_size trace_bits].
  assert (exists mini, match q_trace_mini e with
    | Some t => Some t
    | None => minimize_bits (map_size st) (replicate (Z.to_nat len) 0) (trace_bits st) end = Some mini
    /\ mini_of (map_size st) (tr qi) mini) as (mini&->&Hmini).
  { destruct (q_trace_mini e) as [t|] eqn:Et.
    - exists t. split; [done|]. by apply (wf_mini0 qi e).
    - destruct (minimize_total (map_size st) len (trace_bits st)) as [mini Em]; [lia..|done|].
      exists mini. split; [done|]. eapply same_hits_mini; [lia|done|done|done|done]. }
  cbn [mbind option_bind]. eexists. split; [done|].
  rewrite (wf_ref0 qi e He), (wrap_small 32) by (unfold in_width; lia).
  set (top' := <[Z.to_nat i := Some qi]> (top_rated st)).
  assert (wfR R tr (with_top top' st)) as Hwf'.
  { split; cbn; try done.
    - unfold top', zlen in *. by rewrite length_insert.
    - intros k w Hk Hw. unfold top' in Hw. destruct (decide (k = i)) as [->|Hne].
      + rewrite list_lookup_insert_eq in Hw by (unfold zlen in *; lia). injection Hw as <-. done.
      + rewrite list_lookup_insert_ne in Hw by lia. by apply wf_slot0. }
  pose proof (wfR_entry R tr (with_top top' st) qi e 1 (Some mini) Hwf' He) as Hnew.
  split_and!; [|split; try done; cbn; by apply (static_insert _ _ e)|done|done].
  destruct Hnew; [intros mini' [= <-]; cbn; split; [lia|done]|]. by split.
Qed.

(** [q] loses against the holder [e] of a slot. *)
Definition loses (st : afl) (q e : queue_entry) : bool :=
  match fuzz_p2 st q, fuzz_p2 st e with
  | Some fp, Some tp => (fp >? tp) || (fav_factor st q >? fav_factor st e)
  | _, _ => false
  end.

(** [q] wins a slot held by [old]. *)
Definition wins (st : afl) (q : queue_entry) (old : option nat) : bool :=
  match old with
  | Some w => match queue_buf st !! w with Some e => negb (loses st q e) | None => true end
  | None => true
  end.

(** The holder of a slot after entry [qi], in state [q], has contended for it. *)
Definition new_slot (st : afl) (qi : nat) (q : queue_entry) (old : option nat) : option nat :=
  if wins st q old then Some qi else old.

Lemma contend_ok tr st len fp i qi q old :
  wf tr st -> queue_buf st !! qi = Some q -> fuzz_p2 st q = Some fp ->
  0 <= i < map_size st -> hits (tr qi) i -> mini_len (map_size st) len ->
  (forall j, 0 <= j < map_size st -> hits (trace_bits st) j <-> hits (tr qi) j) ->
  top_rated st !! Z.to_nat i = Some old ->
  exists st', contend len fp (fav_factor st q) i qi st = Some st' /\ wf tr st' /\ frame st st' /\
    top_rated st' = <[Z.to_nat i := new_slot st qi q old]> (top_rated st) /\
    score_changed st' = score_changed st || wins st q old.
Proof.
  intros Hwf Hq Hfp Hi Hhit Hlen Hsame Hold. pose proof Hwf as [].
  pose proof (lookup_lt_Some _ _ _ Hq) as Hqlt.
  assert (forall w, 0 <= refs (top_rated st) w <= map_size st) as Hr
    by (intros w; pose proof (refs_range (top_rated st) w); lia).
  unfold contend, get. rewrite (proj2 (Z.leb_le 0 i)), Hold by lia. cbn [mbind option_bind].
  unfold new_slot, wins. destruct old as [w|].
  - destruct (wf_slot0 i w) as [Hw Hhw]; [lia|done|].
    destruct (lookup_lt_is_Some_2 _ _ Hw) as [e He]. rewrite He. cbn [mbind option_bind].
    destruct (fuzz_p2_total _ _ _ _ _ Hwf He) as [tp Htp]. rewrite Htp. cbn [mbind option_bind].
    unfold loses. rewrite Hfp, Htp.
    assert (frame st st /\ top_rated st = <[Z.to_nat i := Some w]> (top_rated st)) as [Hf Ht]
      by (split; [apply frame_refl|by rewrite list_insert_id]).
    destruct (fp >? tp); cbn [orb negb]; [exists st; split_and!; try done; by rewrite orb_false_r|].
    destruct (fav_factor st q >? fav_factor st e);
      [exists st; split_and!; try done; by rewrite orb_false_r|].
    destruct (drop_ref_ok _ tr st w Hwf Hw) as (st1&->&Hwf1&Hf1&Ht1&Hs1).
    { pose proof (refs_pos (top_rated st) _ w Hold). pose proof (Hr w). lia. }
    cbn [mbind option_bind]. pose proof (fr_ms _ _ Hf1) as Em.
    assert (length (queue_buf st1) = length (queue_buf st)) as El.
    { pose proof (f_equal length (fr_queue _ _ Hf1)) as E. by rewrite !length_fmap in E. }
    destruct (insert_winner_ok _ tr st1 len i qi Hwf1) as (st2&->&Hwf2&Hf2&Ht2&Hs2);
      rewrite ?Em, ?El, ?(fr_trace _ _ Hf1); [done..| |].
    { pose proof (Hr qi). pose proof (refs_pos (top_rated st) _ w Hold).
      unfold bump. case_decide; [subst w|]; lia. }
    exists st2. split_and!; [done| |by eapply frame_trans|by rewrite Ht2, Ht1|].
    + unfold wf. eapply wfR_ext; [|exact Hwf2]. intros x. rewrite Ht2, Ht1.
      rewrite (refs_insert _ _ (Some w)) by done. unfold bump.
      repeat case_decide; simplify_eq; first [lia | congruence].
    + by rewrite Hs2, orb_true_r.
  - destruct (insert_winner_ok _ tr st len i qi Hwf) as (st2&->&Hwf2&Hf2&Ht2&Hs2); [done..| |].
    { pose proof (Hr qi). lia. }
    exists st2. split_and!; [done| |done|done|].
    + unfold wf. eapply wfR_ext; [|exact Hwf2]. intros x. rewrite Ht2.
      rewrite (refs_insert _ _ None) by done. unfold bump.
      repeat case_decide; simplify_eq; first [lia | congruence].
    + by rewrite Hs2, orb_true_r.
Qed.

Lemma static_lookup st st' w e' :
  frame st st' -> queue_buf st' !! w = Some e' ->
  exists e, queue_buf st !! w = Some e /\ static e' = static e.
Proof.
  intros Hf Hw. assert ((static <$> queue_buf st') !! w = Some (static e')) as E
    by (by rewrite list_lookup_fmap, Hw).
  rewrite (fr_queue _ _ Hf), list_lookup_fmap in E.
  destruct (queue_buf st !! w) as [e|]; [|done]. exists e. split; [done|].
  apply (inj Some) in E. by symmetry.
Qed.

Lemma frame_length st st' : frame st st' -> length (queue_buf st') = length (queue_buf st).
Proof. intros Hf. pose proof (f_equal length (fr_queue _ _ Hf)) as E. by rewrite !length_fmap in E. Qed.

Lemma wins_frame st st' q q' old :
  frame st st' -> static q' = static q -> wins st' q' old = wins st q old.
Proof.
  intros Hf Hq. unfold wins. destruct old as [w|]; [|done].
  destruct (queue_buf st' !! w) as [e'|] eqn:E'.
  - destruct (static_lookup _ _ _ _ Hf E') as (e&->&He). f_equal. unfold loses.
    by rewrite (fuzz_p2_frame _ _ _ _ Hf Hq), (fuzz_p2_frame _ _ _ _ Hf He),
      (fav_factor_frame _ _ _ _ Hf Hq), (fav_factor_frame _ _ _ _ Hf He).
  - destruct (queue_buf st !! w) eqn:E; [|done]. apply lookup_ge_None in E'.
    apply lookup_lt_Some in E. rewrite (frame_length _ _ Hf) in E'. lia.
Qed.

(** The slots from [i] on after the loop. *)
Lemma score_loop_ok tr len qi todo : forall i st q fp,
  wf tr st -> queue_buf st !! qi = Some q -> fuzz_p2 st q = Some fp ->
  0 <= i -> i + Z.of_nat todo = map_size st -> mini_len (map_size st) len ->
  (forall j, 0 <= j < map_size st -> hits (trace_bits st) j <-> hits (tr qi) j) ->
  exists st', score_loop todo len fp (fav_factor st q) i qi st = Some st' /\ wf tr st' /\
    frame st st' /\
    (forall k old, 0 <= k < map_size st -> top_rated st !! Z.to_nat k = Some old ->
       (k < i \/ ~ hits (tr qi) k -> top_rated st' !! Z.to_nat k = Some old) /\
       (i <= k -> hits (tr qi) k -> top_rated st' !! Z.to_nat k = Some (new_slot st qi q old))) /\
    (score_changed st' = true <-> score_changed st = true \/
       exists k old, i <= k < map_size st /\ hits (tr qi) k /\
         top_rated st !! Z.to_nat k = Some old /\ wins st q old = true).
Proof.
  induction todo as [|todo IH]; intros i st q fp Hwf Hq Hfp Hi Hms Hlen Hsame.
  { exists st. split_and!; [done|done|apply frame_refl| |].
    - intros k old Hk Hold. split; [done|lia].
    - split; [by left|]. intros [?|(k&old&?&_)]; [done|lia]. }
  cbn [score_loop]. pose proof Hwf as [].
  destruct (zlen_lookup (trace_bits st) i) as [b Hb]; [lia|].
  destruct (zlen_lookup (top_rated st) i) as [oi Hoi]; [lia|].
  unfold get at 1. rewrite (proj2 (Z.leb_le 0 i)), Hb by lia. cbn [mbind option_bind].
  assert (hits (tr qi) i <-> z2b b = true) as Hz.
  { rewrite <- Hsame by lia. unfold hits, z2b. rewrite Hb, negb_true_iff, Z.eqb_neq.
    split; [by intros (?&[= <-]&?)|by exists b]. }
  assert (exists st1, (if z2b b then contend len fp (fav_factor st q) i qi st else Some st) = Some st1 /\
    wf tr st1 /\ frame st st1 /\
    top_rated st1 = <[Z.to_nat i := if z2b b then new_slot st qi q oi else oi]> (top_rated st) /\
    score_changed st1 = score_changed st || (z2b b && wins st q oi)) as (st1&->&Hwf1&Hf1&Ht1&Hs1).
  { destruct (z2b b) eqn:Ez; cbn [andb].
    - apply (contend_ok tr); try done; [lia|by apply Hz].
    - exists st. split_and!; [done|done|apply frame_refl|by rewrite list_insert_id|by rewrite orb_false_r]. }
  cbn [mbind option_bind].
  assert (exists q1, queue_buf st1 !! qi = Some q1 /\ static q1 = static q) as (q1&Hq1&Eq).
  { destruct (lookup_lt_is_Some_2 (queue_buf st1) qi) as [q1 Hq1].
    - rewrite (frame_length _ _ Hf1). by eapply lookup_lt_Some.
    - destruct (static_lookup _ _ _ _ Hf1 Hq1) as (q0&Hq0&E). exists q1. split; [done|]. congruence. }
  destruct (IH (i + 1) st1 q1 fp) as (st'&Hst'&Hwf'&Hf'&Hslots&Hsc); try done.
  { by rewrite (fuzz_p2_frame _ _ _ _ Hf1 Eq). }
  { lia. }
  { rewrite (fr_ms _ _ Hf1). lia. }
  { by rewrite (fr_ms _ _ Hf1). }
  { intros j Hj. rewrite (fr_ms _ _ Hf1) in Hj. rewrite (fr_trace _ _ Hf1). by apply Hsame. }
  rewrite (fav_factor_frame _ _ _ _ Hf1 Eq) in Hst'. rewrite (fr_ms _ _ Hf1) in Hslots, Hsc.
  assert (forall k, k <> i -> 0 <= k -> top_rated st1 !! Z.to_nat k = top_rated st !! Z.to_nat k) as Hne
    by (intros k Hk Hk0; rewrite Ht1, list_lookup_insert_ne by lia; done).
  assert (top_rated st1 !! Z.to_nat i = Some (if z2b b then new_slot st qi q oi else oi)) as Hsi
    by (rewrite Ht1; apply list_lookup_insert_eq; by eapply lookup_lt_Some).
  assert (forall old, new_slot st1 qi q1 old = new_slot st qi q old) as Hns
    by (intros old; unfold new_slot; by rewrite (wins_frame st st1 q q1)).
  exists st'. split_and!; [done|done|by eapply frame_trans| |].
  - intros k old Hk Hold. destruct (decide (k = i)) as [->|Hki].
    + rewrite Hoi in Hold. injection Hold as <-.
      destruct (Hslots i _ Hk Hsi) as [Hkeep _]. split.
      * intros [?|Hn]; [lia|]. rewrite Hkeep by (left; lia).
        destruct (z2b b); [by destruct Hn; apply Hz|done].
      * intros _ Hh. rewrite Hkeep by (left; lia). by rewrite (proj1 Hz Hh).
    + rewrite <- Hne in Hold by lia. destruct (Hslots k old Hk Hold) as [Hkeep Hnew]. split.
      * intros Hor. apply Hkeep. destruct Hor; [left; lia|by right].
      * intros Hik Hh. rewrite <- Hns. apply Hnew; [lia|done].
  - rewrite Hsc, Hs1, orb_true_iff, andb_true_iff. split.
    + intros [[?|[Hb1 Hw]]|(k&old&Hk&Hh&Hold&Hw)]; [by left|right|right].
      * exists i, oi. split_and!; [lia|lia|by apply Hz|done|done].
      * exists k, old. rewrite Hne in Hold by lia. rewrite (wins_frame st st1 q q1) in Hw by done.
        split_and!; [lia|lia|done..].
    + intros [?|(k&old&Hk&Hh&Hold&Hw)]; [by do 2 left|].
      destruct (decide (k = i)) as [->|Hki].
      * left. right. rewrite Hoi in Hold. injection Hold as <-. split; [by apply Hz|done].
      * right. exists k, old. rewrite Hne, (wins_frame st st1 q q1) by (done || lia).
        split_and!; [lia|lia|done..].
Qed.

Lemma update_bitmap_score_run tr st qi q :
  wf tr st -> queue_buf st !! qi = Some q ->
  (forall j, 0 <= j < map_size st -> hits (trace_bits st) j <-> hits (tr qi) j) ->
  exists st', update_bitmap_score st qi true = Some st' /\ wf tr st' /\ frame st st' /\
    (forall k old, 0 <= k < map_size st -> top_rated st !! Z.to_nat k = Some old ->
       (~ hits (tr qi) k -> top_rated st' !! Z.to_nat k = Some old) /\
       (hits (tr qi) k -> top_rated st' !! Z.to_nat k = Some (new_slot st qi q old))) /\
    (score_changed st' = true <-> score_changed st = true \/
       exists k old, 0 <= k < map_size st /\ hits (tr qi) k /\
         top_rated st !! Z.to_nat k = Some old /\ wins st q old = true).
Proof.
  intros Hwf Hq Hsame. pose proof Hwf as []. unfold update_bitmap_score. rewrite Hq.
  cbn [mbind option_bind]. destruct (fuzz_p2_total _ _ _ _ _ Hwf Hq) as [fp Hfp].
  rewrite Hfp. cbn [mbind option_bind].
  destruct (score_loop_ok tr (Z.shiftr (map_size st + 7) 3) qi (Z.to_nat (map_size st)) 0 st q fp)
    as (st'&Hst'&Hwf'&Hf&Hslots&Hsc); try done; [lia| |].
  { unfold mini_len. by rewrite Z.shiftr_div_pow2 by lia. }
  exists st'. split_and!; try done. intros k old Hk Hold.
  destruct (Hslots k old Hk Hold) as [H1 H2]. split; [intros; apply H1; by right|].
  intros. apply H2; [lia|done].
Qed.

(** A queue without winners. *)
Lemma wf_fresh tr st :
  queued_items st = zlen (queue_buf st) -> 0 <= map_size st < 2 ^ 32 - 1 ->
  top_rated st = replicate (Z.to_nat (map_size st)) None ->
  map_size st <= zlen (trace_bits st) ->
  (map_size st + 7) / 8 <= zlen (map_tmp_buf st) -> bytes_ok (map_tmp_buf st) ->
  Forall (fun q => q_tc_ref q = 0 /\ q_trace_mini q = None /\
                   0 <= q_n_fuzz_entry q < zlen (n_fuzz st)) (queue_buf st) ->
  wf tr st.
Proof.
  intros Hi Hm Ht Htr Htmp Hok Hq. rewrite Forall_lookup in Hq.
  assert (forall w, refs (top_rated st) w = 0) as Hr.
  { intros w. rewrite Ht. apply count_none. by apply Forall_replicate. }
  split; try done.
  - rewrite Ht. unfold zlen. rewrite length_replicate. lia.
  - intros w e Hw. by apply (Hq w e).
  - intros w e Hw. rewrite Hr. by apply (Hq w e).
  - intros i w H0 Hw. rewrite Ht in Hw. by apply lookup_replicate in Hw as [? _].
  - intros w e t Hw Hmini. destruct (Hq w e Hw) as (_&?&_). congruence.
Qed.

(** ** Properties of the scores *)

(** C2. [update_bitmap_score] for an entry whose trace is in [trace_bits] keeps the
    invariant of [top_rated]: every reference count is the number of slots the entry
    holds, an entry keeps a minimised trace only while it holds a slot, and that trace
    has exactly the bits of the entry.  The entry takes a slot it hits when the slot
    is free or its rank (fuzz level or rarity, then speed and size) is no worse than
    the holder's, the other slots stay, and [score_changed] is set when a slot was
    won. *)
Theorem update_bitmap_score_correct tr st qi q :
  wf tr st -> queue_buf st !! qi = Some q ->
  (forall j, 0 <= j < map_size st -> hits (trace_bits st) j <-> hits (tr qi) j) ->
  exists st', update_bitmap_score st qi true = Some st' /\ wf tr st' /\ frame st st' /\
    (forall k old, 0 <= k < map_size st -> top_rated st !! Z.to_nat k = Some old ->
       (~ hits (tr qi) k -> top_rated st' !! Z.to_nat k = Some old) /\
       (hits (tr qi) k -> top_rated st' !! Z.to_nat k = Some (new_slot st qi q old))) /\
    (score_changed st' = true <-> score_changed st = true \/
       exists k old, 0 <= k < map_size st /\ hits (tr qi) k /\
         top_rated st !! Z.to_nat k = Some old /\ wins st q old = true).
Proof. apply update_bitmap_score_run. Qed.

(** *** A small queue: bit 1 is hit by entry 0, bits 0 and 1 by entry 1, bit 0 by
    entry 2, with decreasing cost. *)
Definition demo_entry (len id : Z) : queue_entry :=
  Entry len id 1 false false false false false false 0 0 10 None 0 None.

Definition demo_trace_of (w : nat) : list Z :=
  match w with
  | O => [0; 1; 0; 0; 0; 0; 0; 0]
  | S O => [1; 1; 0; 0; 0; 0; 0; 0]
  | _ => [1; 0; 0; 0; 0; 0; 0; 0]
  end.

Definition demo_queue : afl :=
  Afl [demo_entry 10 0; demo_entry 20 1; demo_entry 5 2] 3 (replicate 8 None)
    (demo_trace_of 0) 8 EXPLORE false [0] false false false [0] 0 0 (-1) false.

Lemma demo_queue_wf tr : wf tr demo_queue.
Proof.
  apply wf_fresh; try done; [repeat constructor; done|].
  repeat constructor; done.
Qed.

Theorem update_bitmap_score_witness :
  exists st', update_bitmap_score demo_queue 0 true = Some st' /\ wf demo_trace_of st' /\
    top_rated st' !! 1%nat = Some (Some 0%nat).
Proof.
  destruct (update_bitmap_score_correct demo_trace_of demo_queue 0 (demo_entry 10 0))
    as (st'&Hst&Hwf&_&Hslot&_); [apply demo_queue_wf|done|done|].
  exists st'. split_and!; [done|done|].
  destruct (Hslot 1 None) as [_ H1]; [cbn; lia|done|]. apply H1. by exists 1.
Defined.

Lemma add_to_queue_run tr co len passed_det cur_time txt :
  wf tr (co_afl co) -> zlen (queue_buf (co_afl co)) < 2 ^ 32 - 1 -> 0 < zlen (n_fuzz (co_afl co)) ->
  let co' := add_to_queue co len passed_det cur_time txt in
  let n := length (queue_buf (co_afl co)) in
  exists q, queue_buf (co_afl co') = queue_buf (co_afl co) ++ [q] /\
    q_id q = Z.of_nat n /\ q_len q = len /\ q_depth q = u32 (cur_depth co + 1) /\
    q_mother q = queue_cur co /\ q_favored q = false /\
    wf tr (co_afl co') /\ top_rated (co_afl co') = top_rated (co_afl co) /\
    queued_items (co_afl co') = Z.of_nat n + 1 /\ queue_top co' = Some n /\
    (n = 0%nat -> queue_top co = None -> queue_head co' = Some 0%nat) /\
    max_depth co' = Z.max (max_depth co) (q_depth q) /\ last_find_time co' = cur_time /\
    q_passed_det q = passed_det /\ q_was_fuzzed q = false /\ q_disabled q = false /\ q_fuzz_level q = 0 /\ q_tc_ref q = 0 /\
    q_trace_mini q = None /\
    active_items co' = u32 (active_items co + 1) /\ pending_not_fuzzed co' = u32 (pending_not_fuzzed co + 1) /\
    ready_for_splicing_count co' = (if len >? 4 then u32 (ready_for_splicing_count co + 1) else ready_for_splicing_count co) /\ cycles_wo_finds co' = 0.
Proof.
  intros Hwf Hn Hnf co' n. pose proof (wf_items _ _ _ Hwf) as Hi.
  assert (queued_items (co_afl co) + 1 = Z.of_nat n + 1) as Hn1 by (rewrite Hi; done).
  assert (u32 (queued_items (co_afl co) + 1) = Z.of_nat n + 1) as E1.
  { rewrite Hn1. apply wrap_small. unfold in_width, zlen in *. lia. }
  assert (u32 (Z.of_nat n + 1 - 1) = Z.of_nat n) as E2.
  { rewrite Z.add_simpl_r. apply wrap_small. unfold in_width, zlen in *. lia. }
  unfold co', add_to_queue. rewrite E1, E2.
  cbn [co_afl queue_buf top_rated queued_items queue_top queue_head max_depth last_find_time].
  eexists. split; [done|]. cbn [q_id q_len q_depth q_mother q_favored new_entry].
  split_and!; try done.
  - set (q := new_entry _ _ _ _ _ _).
    assert (forall w e, (queue_buf (co_afl co) ++ [q]) !! w = Some e ->
      queue_buf (co_afl co) !! w = Some e \/ w = n /\ e = q) as Hcase.
    { intros w e Hw. apply lookup_app_Some in Hw as [?|[Hge Hw]]; [by left|right].
      apply list_lookup_singleton_Some in Hw as [? <-]. split; [unfold n; lia|done]. }
    destruct Hwf as [Hit Hm Ht Htr Htmp Hnz Hr Hs Hmi].
    assert (refs (top_rated (co_afl co)) n = 0) as Hr0.
    { apply count_none, Forall_lookup_2. intros i x Hx ->. destruct (Hs (Z.of_nat i) n) as [Hlt _];
        [lia|by rewrite Nat2Z.id|unfold n in Hlt; lia]. }
    split; cbn; try done.
    + rewrite zlen_app, zlen_one. unfold zlen. lia.
    + intros w e [Hw|[-> ->]]%Hcase; [by apply (Hnz w)|cbn; lia].
    + intros w e [Hw|[-> ->]]%Hcase; [by apply Hr|by rewrite Hr0].
    + intros i w H0 Hw. destruct (Hs i w H0 Hw) as [? ?]. rewrite length_app. split; [lia|done].
    + intros w e t [Hw|[-> ->]]%Hcase Hmini; [by apply (Hmi w e)|done].
  - intros Hn0 E. rewrite E. unfold n in Hn0. by rewrite Hn0.
  - destruct (_ >? max_depth co) eqn:E; b2p; lia.
Qed.

(** C27. [add_to_queue] appends one entry, at the position its [id] says, with a depth
    one above the current one, no slot and no trace; the invariant of the scores holds
    on for any trace of the new entry, the earlier entries and all slots stay, the
    counters of queued, enabled and unfuzzed entries grow by one, that of entries to splice
    with grows if the entry is longer than four bytes, and [queue_top] is the new entry. *)
Theorem add_to_queue_correct tr co len passed_det cur_time txt :
  wf tr (co_afl co) -> zlen (queue_buf (co_afl co)) < 2 ^ 32 - 1 -> 0 < zlen (n_fuzz (co_afl co)) ->
  let co' := add_to_queue co len passed_det cur_time txt in
  let n := length (queue_buf (co_afl co)) in
  exists q, queue_buf (co_afl co') = queue_buf (co_afl co) ++ [q] /\
    q_id q = Z.of_nat n /\ q_len q = len /\ q_depth q = u32 (cur_depth co + 1) /\
    q_mother q = queue_cur co /\ q_favored q = false /\
    wf tr (co_afl co') /\ top_rated (co_afl co') = top_rated (co_afl co) /\
    queued_items (co_afl co') = Z.of_nat n + 1 /\ queue_top co' = Some n /\
    (n = 0%nat -> queue_top co = None -> queue_head co' = Some 0%nat) /\
    max_depth co' = Z.max (max_depth co) (q_depth q) /\ last_find_time co' = cur_time /\
    q_passed_det q = passed_det /\ q_was_fuzzed q = false /\ q_disabled q = false /\ q_fuzz_level q = 0 /\ q_tc_ref q = 0 /\
    q_trace_mini q = None /\
    active_items co' = u32 (active_items co + 1) /\ pending_not_fuzzed co' = u32 (pending_not_fuzzed co + 1) /\
    ready_for_splicing_count co' = (if len >? 4 then u32 (ready_for_splicing_count co + 1) else ready_for_splicing_count co) /\ cycles_wo_finds co' = 0.
Proof. apply add_to_queue_run. Qed.

Definition demo_corpus : corpus := Corpus demo_queue (Some 0%nat) (Some 2%nat) None 0 1 3 3 3 7 5 9 2.

Theorem add_to_queue_witness :
  exists q, queue_buf (co_afl (add_to_queue demo_corpus 33 false 12 None)) = queue_buf demo_queue ++ [q] /\
    q_id q = 3.
Proof.
  destruct (add_to_queue_correct demo_trace_of demo_corpus 33 false 12 None) as (q&E&Hid&_);
    [apply demo_queue_wf|done|done|]. by exists q.
Defined.
