(* ===== verification/CullFacts.v ===== *)
(** * Facts on [cull_queue]

    The favoured entries cover every bit whose winner still has its minimised trace;
    the counters agree with the flags; and a run of the queue after which a bit that
    was reached is covered by no favoured entry. *)

From S2P Require Import Prelude Rng Coverage CoverageFacts CountFacts TextCheck Queue QueueFacts.

(** ** The loops over the entries *)

Lemma unfavor_loop_all l : unfavor_loop (length l) l = Some (set_favored false <$> l).
Proof. induction l as [|q l IH]; [done|]. cbn [unfavor_loop length]. by rewrite IH. Qed.

(** What the last loop does to an entry. *)
Definition redden (dis : bool) (q : queue_entry) : queue_entry :=
  if q_disabled q then q
  else if Bool.eqb (negb (q_favored q)) (q_fs_redundant q) then q
  else set_redundant (negb (q_favored q))
         (if negb (q_favored q) && dis then true else q_disabled q)
         (if negb (q_favored q) then None else q_trace_mini q) q.

Lemma with_queue_id st : with_queue (queue_buf st) st = st.
Proof. by destruct st. Qed.

Lemma with_queue_queue a b st : with_queue a (with_queue b st) = with_queue a st.
Proof. done. Qed.

Lemma redundant_loop_all todo : forall w st,
  (w + todo)%nat = length (queue_buf st) ->
  redundant_loop todo w st =
  Some (with_queue (take w (queue_buf st) ++ (redden (afl_disable_redundant st) <$> drop w (queue_buf st))) st).
Proof.
  induction todo as [|todo IH]; intros w st Hw; cbn [redundant_loop].
  { rewrite take_ge, drop_ge, app_nil_r, with_queue_id by lia. done. }
  destruct (lookup_lt_is_Some_2 (queue_buf st) w) as [q Hq]; [lia|]. rewrite Hq. cbn [mbind option_bind].
  set (dis := afl_disable_redundant st).
  assert ((if q_disabled q then Some st else mark_as_redundant st w (negb (q_favored q))) =
          Some (with_queue (<[w := redden dis q]> (queue_buf st)) st)) as ->.
  { unfold redden. destruct (q_disabled q) eqn:Ed; [by rewrite list_insert_id, with_queue_id|].
    unfold mark_as_redundant. rewrite Hq. cbn [mbind option_bind].
    case_match; [by rewrite list_insert_id, with_queue_id|]. unfold with_entry.
    by destruct (q_favored q); cbn; rewrite ?Ed. }
  cbn [mbind option_bind]. rewrite IH by (cbn; rewrite length_insert; lia). cbn [queue_buf with_queue afl_disable_redundant].
  rewrite with_queue_queue. do 2 f_equal. rewrite drop_insert_lt by lia. rewrite (drop_S _ q w Hq). rewrite fmap_cons.
  rewrite (take_S_r _ w (redden dis q)) by (apply list_lookup_insert_eq; lia).
  rewrite take_insert_ge by lia. by rewrite <- app_assoc.
Qed.

Lemma redden_favored dis q : q_favored (redden dis q) = q_favored q.
Proof. unfold redden. repeat case_match; done. Qed.

(** ** Bits of the capture map *)

Definition bit_of (tv : list Z) (j : Z) : bool :=
  match tv !! Z.to_nat (j / 8) with Some b => Z.testbit b (j mod 8) | None => false end.

Lemma land_bit b k : 0 <= k -> z2b (Z.land b (Z.shiftl 1 k)) = Z.testbit b k.
Proof.
  intros Hk. rewrite Z.shiftl_1_l. unfold z2b. destruct (Z.testbit b k) eqn:E.
  - destruct (Z.land b (2 ^ k) =? 0) eqn:Ez; [|done]. b2p.
    assert (Z.testbit (Z.land b (2 ^ k)) k = true) as Ht
      by (by rewrite Z.land_spec, E, Z.pow2_bits_true).
    by rewrite Ez, Z.testbit_0_l in Ht.
  - assert (Z.land b (2 ^ k) = 0) as ->; [|done].
    apply Z.bits_inj'. intros i Hi. rewrite Z.land_spec, Z.testbit_0_l.
    destruct (decide (i = k)) as [->|]; [by rewrite E|].
    rewrite Z.pow2_bits_false by done. apply andb_false_r.
Qed.

Lemma clear_loop_ok n : forall mini tv,
  (n <= length mini)%nat -> (n <= length tv)%nat ->
  exists tv', clear_loop n mini tv = Some tv' /\ length tv' = length tv /\
    (bytes_ok tv -> bytes_ok tv') /\
    forall k t, tv !! k = Some t ->
      exists t', tv' !! k = Some t' /\
        ((k < n)%nat -> forall m, mini !! k = Some m -> t' = Z.ldiff t m) /\
        ((n <= k)%nat -> t' = t).
Proof.
  induction n as [|n IH]; intros mini tv Hm Ht; cbn [clear_loop].
  { exists tv. split_and!; [done..|]. intros k t Hk. exists t. split_and!; [done|lia|done]. }
  destruct (lookup_lt_is_Some_2 mini n) as [m Hn]; [lia|].
  destruct (lookup_lt_is_Some_2 tv n) as [t Htn]; [lia|].
  rewrite (get_nat mini n), Hn. cbn [mbind option_bind].
  assert (exists tv1, (if z2b m then t ← get tv (Z.of_nat n); put tv (Z.of_nat n) (Z.ldiff t m)
    else Some tv) = Some tv1 /\ tv1 = <[n := Z.ldiff t m]> tv) as (tv1&->&->).
  { eexists. split; [|done]. unfold z2b. destruct (m =? 0) eqn:E; b2p; cbn [negb].
    - subst m. by rewrite Z.ldiff_0_r, list_insert_id.
    - rewrite get_nat, Htn. cbn [mbind option_bind]. rewrite put_Some by (unfold zlen; lia). by rewrite Nat2Z.id. }
  cbn [mbind option_bind].
  destruct (IH mini (<[n := Z.ldiff t m]> tv)) as (tv'&->&Hl&Hok&Hpt); [lia|rewrite length_insert; lia|].
  exists tv'. split_and!; [done|by rewrite Hl, length_insert| |].
  - intros Hb. apply Hok. apply Forall_insert; [done|].
    apply ldiff_width; [lia|]. by eapply Forall_lookup_1.
  - intros k t0 Hk. destruct (decide (k = n)) as [->|Hne].
    + destruct (Hpt n (Z.ldiff t m)) as (t'&Ht'&_&Hge); [by apply list_lookup_insert_eq; lia|].
      exists t'. split_and!; [done| |lia]. intros _ m' Hm'. rewrite Hge by lia. congruence.
    + destruct (Hpt k t0) as (t'&Ht'&Hlt&Hge); [by rewrite list_lookup_insert_ne|].
      exists t'. split_and!; [done| |].
      * intros Hk1 m' Hm'. apply Hlt; [lia|done].
      * intros Hk1. apply Hge. lia.
Qed.

(** Clearing a minimised trace removes its bits. *)
Lemma clear_loop_bits ms mini tv tr :
  0 <= ms -> ms mod 8 = 0 -> mini_of ms tr mini -> ms / 8 <= zlen tv ->
  exists tv', clear_loop (Z.to_nat (ms / 8)) mini tv = Some tv' /\ zlen tv' = zlen tv /\
    (bytes_ok tv -> bytes_ok tv') /\
    forall j, 0 <= j < ms -> bit_of tv' j = true <-> bit_of tv j = true /\ ~ hits tr j.
Proof.
  intros Hms H8 (Hl&Hok&Hbits) Htv.
  assert ((ms + 7) / 8 = ms / 8) as E8 by dlia. rewrite E8 in Hl. assert (0 <= ms / 8) by dlia.
  destruct (clear_loop_ok (Z.to_nat (ms / 8)) mini tv) as (tv'&Hc&Hl'&Hok'&Hpt);
    [unfold zlen in *; lia..|].
  exists tv'. split_and!; [done|unfold zlen; lia|done|]. intros j Hj.
  assert (0 <= j / 8 < ms / 8) as Hj8 by dlia.
  destruct (zlen_lookup tv (j / 8)) as [t Ht]; [lia|].
  destruct (zlen_lookup mini (j / 8)) as [m Hm]; [lia|].
  destruct (Hpt _ t Ht) as (t'&Ht'&Hlt&_). rewrite (Hlt ltac:(lia) m Hm) in Ht'.
  unfold bit_of. rewrite Ht, Ht', Z.ldiff_spec, <- (Hbits j m) by done.
  destruct (Z.testbit t (j mod 8)), (Z.testbit m (j mod 8)); cbn; intuition congruence.
Qed.

(** ** The invariant of the main loop *)

Abbreviation is_favored := (fun q => q_favored q = true).
Abbreviation is_pending := (fun q => q_favored q = true /\ q_was_fuzzed q = false).

Definition n_favored (l : list queue_entry) : Z := zlen (filter is_favored l).
Definition n_pending (l : list queue_entry) : Z := zlen (filter is_pending l).

Section Cull.
Context (tr : nat -> list Z) (ms : Z) (top : list (option nat)) (Q : list queue_entry).
Context (Hms : 0 <= ms < 2 ^ 32 - 1) (H8 : ms mod 8 = 0) (Htop : zlen top = ms).
Context (Hslot : forall i w, 0 <= i -> top !! Z.to_nat i = Some (Some w) ->
  (w < length Q)%nat /\ hits (tr w) i).
Context (Hmini : forall w q t, Q !! w = Some q -> q_trace_mini q = Some t -> mini_of ms (tr w) t).
Context (Hids : forall w q, Q !! w = Some q -> q_id q = Z.of_nat w).

Record cull_inv (L i : Z) (c : cull_state) : Prop := {
  ci_queue : set_favored false <$> cu_queue c = set_favored false <$> Q;
  ci_len : zlen (cu_temp_v c) = L /\ ms / 8 <= L /\ bytes_ok (cu_temp_v c);
  ci_cover : forall j, 0 <= j < ms ->
    bit_of (cu_temp_v c) j = false <->
    exists w q, cu_queue c !! w = Some q /\ q_favored q = true /\ hits (tr w) j;
  ci_done : forall k w q t, 0 <= k < i -> top !! Z.to_nat k = Some (Some w) ->
    cu_queue c !! w = Some q -> q_trace_mini q = Some t -> bit_of (cu_temp_v c) k = false;
  ci_just : forall w q, cu_queue c !! w = Some q -> q_favored q = true ->
    exists k t, 0 <= k < i /\ top !! Z.to_nat k = Some (Some w) /\ q_trace_mini q = Some t;
  ci_fav : cu_favored c = n_favored (cu_queue c) /\ cu_favored c <= i;
  ci_pend : cu_pending c = n_pending (cu_queue c) /\ cu_pending c <= i;
  ci_small : cu_smallest c = -1 /\ cu_pending c = 0 \/
    exists w q, cu_queue c !! w = Some q /\ is_pending q /\ cu_smallest c = Z.of_nat w
}.

Lemma cull_entry L i c w q :
  cull_inv L i c -> cu_queue c !! w = Some q ->
  exists q0, Q !! w = Some q0 /\ q_trace_mini q = q_trace_mini q0 /\ q_id q = Z.of_nat w.
Proof.
  intros [] Hw. assert ((set_favored false <$> cu_queue c) !! w = Some (set_favored false q)) as E
    by (by rewrite list_lookup_fmap, Hw).
  rewrite ci_queue0, list_lookup_fmap in E. destruct (Q !! w) as [q0|] eqn:Hq0; [|done].
  apply (inj Some) in E. exists q0. split; [done|].
  assert (q_trace_mini q = q_trace_mini q0) as ->
    by (change (q_trace_mini (set_favored false q) = q_trace_mini (set_favored false q0)); by rewrite E).
  assert (q_id q = q_id q0) as ->
    by (change (q_id (set_favored false q) = q_id (set_favored false q0)); by rewrite E).
  split; [done|by apply Hids].
Qed.

(** A bit that needs no new favoured entry. *)
Lemma cull_inv_skip L i c :
  cull_inv L i c ->
  (forall w q t, top !! Z.to_nat i = Some (Some w) -> cu_queue c !! w = Some q ->
     q_trace_mini q = Some t -> bit_of (cu_temp_v c) i = false) ->
  cull_inv L (i + 1) c.
Proof.
  intros [] Hi. split; try done.
  - intros k w q t Hk Hw Hq Ht. destruct (decide (k = i)) as [->|]; [by apply (Hi w q t)|].
    apply (ci_done0 k w q t); [lia|done..].
  - intros w q Hw Hq. destruct (ci_just0 w q Hw Hq) as (k&t&?&?&?). exists k, t. split; [lia|done].
  - destruct ci_fav0. split; [done|lia].
  - destruct ci_pend0. split; [done|lia].
Qed.

(** The winner of bit [i] becomes favoured. *)
Lemma cull_inv_take L i c w q t tv' :
  cull_inv L i c -> 0 <= i < ms -> top !! Z.to_nat i = Some (Some w) -> cu_queue c !! w = Some q ->
  q_trace_mini q = Some t -> q_favored q = false ->
  zlen tv' = L -> bytes_ok tv' ->
  (forall j, 0 <= j < ms -> bit_of tv' j = true <-> bit_of (cu_temp_v c) j = true /\ ~ hits (tr w) j) ->
  cull_inv L (i + 1)
    (Cull (<[w := set_favored true q]> (cu_queue c)) tv' (u32 (cu_favored c + 1))
       (if q_was_fuzzed q then cu_pending c else u32 (cu_pending c + 1))
       (if q_was_fuzzed q then cu_smallest c
        else if cu_smallest c <? 0 then q_id q else cu_smallest c)).
Proof.
  intros Hinv Hi Hw Hq Ht Hf Hl Hok Hbits. pose proof Hinv as [].
  pose proof (lookup_lt_Some _ _ _ Hq) as Hlt.
  destruct (cull_entry L i c w q Hinv Hq) as (q0&_&_&Hid).
  assert (forall x e, <[w := set_favored true q]> (cu_queue c) !! x = Some e ->
    x = w /\ e = set_favored true q \/ x <> w /\ cu_queue c !! x = Some e) as Hcase.
  { intros x e Hx. destruct (decide (x = w)) as [->|Hne].
    - rewrite list_lookup_insert_eq in Hx by done. injection Hx as <-. auto.
    - rewrite list_lookup_insert_ne in Hx by done. auto. }
  assert (<[w := set_favored true q]> (cu_queue c) !! w = Some (set_favored true q)) as Hself
    by (by apply list_lookup_insert_eq).
  assert (forall x e, x <> w -> cu_queue c !! x = Some e ->
    <[w := set_favored true q]> (cu_queue c) !! x = Some e) as Hother
    by (intros x e Hne Hx; by rewrite list_lookup_insert_ne).
  assert (forall j, 0 <= j < ms -> bit_of tv' j = false <->
    bit_of (cu_temp_v c) j = false \/ hits (tr w) j) as Hbits'.
  { intros j Hj. specialize (Hbits j Hj). unfold hits in *.
    destruct (tr w !! Z.to_nat j) as [b|] eqn:Eb.
    - destruct (decide (b = 0)) as [->|Hb].
      + assert (~ exists b, Some 0 = Some b /\ b <> 0) by (by intros (?&[= <-]&?)).
        destruct (bit_of tv' j), (bit_of (cu_temp_v c) j); intuition congruence.
      + assert (exists b0, Some b = Some b0 /\ b0 <> 0) by (by exists b).
        destruct (bit_of tv' j), (bit_of (cu_temp_v c) j); intuition congruence.
    - assert (~ exists b, None = Some b /\ b <> 0) by (by intros (?&?&_)).
      destruct (bit_of tv' j), (bit_of (cu_temp_v c) j); intuition congruence. }
  destruct ci_len0 as (Hl0&HL&_). destruct ci_fav0 as [Hfav Hfle]. destruct ci_pend0 as [Hpend Hple].
  pose proof (zlen_nonneg (filter is_favored (cu_queue c))).
  pose proof (zlen_nonneg (filter is_pending (cu_queue c))).
  unfold n_favored, n_pending in *.
  rewrite (wrap_small 32 (cu_favored c + 1)), (wrap_small 32 (cu_pending c + 1))
    by (unfold in_width; lia).
  split; cbn [cu_queue cu_temp_v cu_favored cu_pending cu_smallest].
  - rewrite list_fmap_insert. change (set_favored false (set_favored true q)) with (set_favored false q).
    rewrite list_insert_id; [done|]. by rewrite list_lookup_fmap, Hq.
  - done.
  - intros j Hj. rewrite Hbits', ci_cover0 by done. split.
    + intros [(x&e&Hx&Hfx&Hh)|Hh].
      * exists x, e. split_and!; [|done..]. apply Hother; [|done]. intros ->. congruence.
      * by exists w, (set_favored true q).
    + intros (x&e&[[-> ->]|[Hne Hx]]%Hcase&Hfx&Hh); [by right|left; by exists x, e].
  - intros k x e t' Hk Hx [[-> ->]|[Hne He]]%Hcase Ht'.
    + apply Hbits'; [lia|]. right. apply (Hslot k w); [lia|done].
    + apply Hbits'; [lia|]. destruct (decide (k = i)) as [->|].
      * congruence.
      * left. apply (ci_done0 k x e t'); [lia|done..].
  - intros x e [[-> ->]|[Hne He]]%Hcase Hfx.
    + exists i, t. split; [lia|done].
    + destruct (ci_just0 x e He Hfx) as (k&t'&?&?&?). exists k, t'. split; [lia|done].
  - unfold n_favored. rewrite (count_insert is_favored _ _ q) by done.
    rewrite (decide_False (P := q_favored q = true)) by congruence. rewrite decide_True by done. lia.
  - unfold n_pending. rewrite (count_insert is_pending _ _ q) by done.
    rewrite (decide_False (P := is_pending q)) by (intros []; congruence). cbn [q_favored q_was_fuzzed set_favored].
    destruct (q_was_fuzzed q); [rewrite decide_False by (intros []; congruence)|rewrite decide_True by done]; lia.
  - destruct (q_was_fuzzed q) eqn:Efz.
    + destruct ci_small0 as [?|(x&e&Hx&[Hfx Hwx]&Hsm)]; [by left|right]. exists x, e.
      split_and!; [|done..]. apply Hother; [|done]. intros ->. congruence.
    + right. destruct ci_small0 as [[-> _]|(x&e&Hx&[Hfx Hwx]&Hsm)].
      * exists w, (set_favored true q). split_and!; try done.
      * exists x, e. rewrite (proj2 (Z.ltb_ge (cu_smallest c) 0)) by lia.
        split_and!; [|done..]. apply Hother; [|done]. intros ->. congruence.
Qed.

Lemma cull_bit_ok L i c :
  cull_inv L i c -> 0 <= i < ms ->
  exists c', cull_bit (ms / 8) top i c = Some c' /\ cull_inv L (i + 1) c'.
Proof.
  intros Hinv Hi. pose proof Hinv as [].
  destruct (zlen_lookup top i) as [slot Hs]; [lia|].
  unfold cull_bit. rewrite (get_pos top), Hs by lia. cbn [mbind option_bind].
  destruct slot as [w|].
  2:{ exists c. split; [done|]. apply cull_inv_skip; [done|]. intros. congruence. }
  assert (0 <= i / 8 < ms / 8) as Hi8 by dlia.
  destruct (zlen_lookup (cu_temp_v c) (i / 8)) as [b Hb]; [lia|].
  rewrite Z.shiftr_div_pow2 by lia. change (2 ^ 3) with 8.
  rewrite get_pos, Hb by lia. cbn [mbind option_bind].
  change 7 with (Z.ones 3). rewrite Z.land_ones by lia. change (2 ^ 3) with 8.
  rewrite land_bit by dlia.
  assert (bit_of (cu_temp_v c) i = Z.testbit b (i mod 8)) as <- by (unfold bit_of; by rewrite Hb).
  destruct (bit_of (cu_temp_v c) i) eqn:Ebit; cbn [negb].
  2:{ exists c. split; [done|]. by apply cull_inv_skip. }
  destruct (Hslot i w) as [Hw Hh]; [lia|done|].
  assert (length (cu_queue c) = length Q) as El.
  { pose proof (f_equal length ci_queue0) as E. by rewrite !length_fmap in E. }
  destruct (lookup_lt_is_Some_2 (cu_queue c) w) as [q Hq]; [lia|]. rewrite Hq. cbn [mbind option_bind].
  destruct (q_trace_mini q) as [t|] eqn:Et.
  2:{ exists c. split; [done|]. apply cull_inv_skip; [done|]. intros. congruence. }
  destruct (cull_entry L i c w q Hinv Hq) as (q0&Hq0&Eq0&Hid).
  destruct (clear_loop_bits ms t (cu_temp_v c) (tr w)) as (tv'&->&Hl'&Hok'&Hbits);
    [lia|done|apply (Hmini w q0); [done|congruence]|lia|]. cbn [mbind option_bind].
  destruct (q_favored q) eqn:Ef.
  { exfalso. assert (bit_of (cu_temp_v c) i = false); [|congruence]. apply ci_cover0; [done|]. by exists w, q. }
  pose proof (cull_inv_take L i c w q t tv' Hinv Hi Hs Hq Et Ef) as Hnext.
  destruct ci_len0 as (?&?&?). destruct (q_was_fuzzed q); (eexists; split; [done|]; apply Hnext; auto; lia).
Qed.

Lemma cull_loop_ok L todo : forall i c,
  cull_inv L i c -> 0 <= i -> i + Z.of_nat todo = ms ->
  exists c', cull_loop todo (ms / 8) top i c = Some c' /\ cull_inv L ms c'.
Proof.
  induction todo as [|todo IH]; intros i c Hinv Hi Hs; cbn [cull_loop].
  - exists c. split; [done|]. by replace ms with i by lia.
  - destruct (cull_bit_ok L i c Hinv) as (c1&->&Hinv1); [lia|]. cbn [mbind option_bind].
    apply IH; [done|lia..].
Qed.

End Cull.

(** ** The whole routine *)

Lemma count_fmap {A} (P : A -> Prop) `{!forall x, Decision (P x)} (f : A -> A) l :
  (forall x, P (f x) <-> P x) -> zlen (filter P (f <$> l)) = zlen (filter P l).
Proof.
  intros Hf. induction l as [|x l IH]; [done|]. rewrite fmap_cons, !filter_cons_if, IH.
  specialize (Hf x). destruct (decide (P (f x))), (decide (P x)); tauto.
Qed.

Lemma redden_fuzzed dis q : q_was_fuzzed (redden dis q) = q_was_fuzzed q.
Proof. unfold redden. repeat case_match; done. Qed.

Lemma redden_mini dis q t :
  q_trace_mini (redden dis q) = Some t -> q_trace_mini q = Some t.
Proof. unfold redden. repeat case_match; done. Qed.

Lemma redden_flag dis q :
  q_disabled (redden dis q) = false -> q_fs_redundant (redden dis q) = negb (q_favored q).
Proof.
  unfold redden. destruct (q_disabled q) eqn:E; [congruence|].
  case_match eqn:Eq; [by apply eqb_prop in Eq|]. done.
Qed.

Lemma redden_same dis q :
  q_tc_ref (redden dis q) = q_tc_ref q /\ q_n_fuzz_entry (redden dis q) = q_n_fuzz_entry q.
Proof. unfold redden. repeat case_match; done. Qed.

(** Bit map of the start: nothing is captured. *)
Lemma bit_of_full ms buf j :
  0 <= ms -> ms mod 8 = 0 -> ms / 8 <= zlen buf -> 0 <= j < ms ->
  bit_of (splice_at buf 0 (replicate (Z.to_nat (ms / 8)) 255)) j = true.
Proof.
  intros Hms H8 Hl Hj. assert (0 <= j / 8 < ms / 8) by dlia.
  assert (zlen (replicate (Z.to_nat (ms / 8)) 255) = ms / 8) as Hz by (apply zlen_replicate; lia).
  unfold bit_of. rewrite lookup_splice_eq by lia. rewrite Nat.sub_0_r.
  rewrite (proj2 (lookup_replicate _ _ _ _)) by (split; [done|lia]).
  assert (0 <= j mod 8 < 8) by dlia. change 255 with (Z.ones 8). apply Z.ones_spec_low. lia.
Qed.

Lemma cull_inv_start tr st :
  wf tr st -> map_size st mod 8 = 0 ->
  cull_inv tr (map_size st) (top_rated st) (queue_buf st) (zlen (map_tmp_buf st)) 0
    (Cull (set_favored false <$> queue_buf st)
       (splice_at (map_tmp_buf st) 0 (replicate (Z.to_nat (map_size st / 8)) 255)) 0 0 (-1)).
Proof.
  intros Hwf H8. pose proof (wf_ms _ _ _ Hwf). destruct (wf_tmp _ _ _ Hwf) as [Htmp Hok].
  assert ((map_size st + 7) / 8 = map_size st / 8) as E8 by dlia. rewrite E8 in Htmp.
  assert (0 <= map_size st / 8) by dlia.
  assert (forall w q, (set_favored false <$> queue_buf st) !! w = Some q -> q_favored q = false) as Hno.
  { intros w q Hq. rewrite list_lookup_fmap in Hq. destruct (queue_buf st !! w); [|done].
    by injection Hq as <-. }
  assert (zlen (replicate (Z.to_nat (map_size st / 8)) 255) = map_size st / 8) as Hz
    by (apply zlen_replicate; lia).
  split; cbn [cu_queue cu_temp_v cu_favored cu_pending cu_smallest].
  - rewrite <- list_fmap_compose. by apply list_fmap_ext.
  - split_and!; [zlia|done|]. apply Forall_splice_at; [done|]. by apply Forall_replicate.
  - intros j Hj. rewrite bit_of_full by (done || lia). split; [done|].
    intros (w&q&Hq&Hf&_). by rewrite (Hno w q Hq) in Hf.
  - intros. lia.
  - intros w q Hq Hf. by rewrite (Hno w q Hq) in Hf.
  - split; [|lia]. symmetry. apply count_none.
    apply Forall_lookup_2. intros w q Hq. by rewrite (Hno w q Hq).
  - split; [|lia]. symmetry. apply count_none.
    apply Forall_lookup_2. intros w q Hq [Hf _]. by rewrite (Hno w q Hq) in Hf.
  - by left.
Qed.

Lemma cull_queue_run tr st :
  wf tr st -> map_size st mod 8 = 0 ->
  (forall w q, queue_buf st !! w = Some q -> q_id q = Z.of_nat w) ->
  score_changed st = true -> non_instrumented_mode st = false ->
  exists c, cull_inv tr (map_size st) (top_rated st) (queue_buf st) (zlen (map_tmp_buf st)) (map_size st) c /\
    cull_queue st = Some (Afl (redden (afl_disable_redundant st) <$> cu_queue c) (queued_items st)
      (top_rated st) (trace_bits st) (map_size st) (schedule st) (fixed_seed st) (n_fuzz st)
      false (non_instrumented_mode st) (afl_disable_redundant st) (cu_temp_v c) (cu_favored c)
      (cu_pending c) (cu_smallest c) true).
Proof.
  intros Hwf H8 Hids Hs Hn. destruct (wf_tmp _ _ _ Hwf) as [Htmp Hok].
  pose proof (wf_ms _ _ _ Hwf).
  assert ((map_size st + 7) / 8 = map_size st / 8) as E8 by dlia. rewrite E8 in Htmp.
  assert (0 <= map_size st / 8) by dlia.
  destruct (cull_loop_ok tr (map_size st) (top_rated st) (queue_buf st)) with
    (L := zlen (map_tmp_buf st)) (todo := Z.to_nat (map_size st)) (i := 0)
    (c := Cull (set_favored false <$> queue_buf st)
       (splice_at (map_tmp_buf st) 0 (replicate (Z.to_nat (map_size st / 8)) 255)) 0 0 (-1))
    as (c&Hc&Hinv); try done; [by apply (wf_top _ _ _ Hwf)|apply (wf_slot _ _ _ Hwf)| |
      by apply cull_inv_start|lia|].
  { intros w q t Hq Ht. by apply (wf_mini _ _ _ Hwf w q t). }
  exists c. split; [done|]. unfold cull_queue. rewrite Hs, Hn. cbn [negb orb].
  rewrite Z.shiftr_div_pow2 by lia. change (2 ^ 3) with 8.
  rewrite store_Some by (rewrite ?zlen_replicate; lia). cbn [mbind option_bind].
  rewrite (wf_items _ _ _ Hwf). replace (Z.to_nat (zlen (queue_buf st))) with (length (queue_buf st)) by (unfold zlen; lia).
  rewrite unfavor_loop_all. cbn [mbind option_bind]. rewrite Hc. cbn [mbind option_bind].
  assert (length (cu_queue c) = length (queue_buf st)) as El.
  { pose proof (f_equal length (ci_queue _ _ _ _ _ _ _ Hinv)) as E. by rewrite !length_fmap in E. }
  rewrite redundant_loop_all by (cbn; lia). cbn [mbind option_bind]. done.
Qed.

(** The entries after the call still agree with [top_rated]. *)
Lemma wf_redden tr st c dis b1 b2 n1 n2 n3 b3 :
  wf tr st -> set_favored false <$> cu_queue c = set_favored false <$> queue_buf st ->
  zlen (cu_temp_v c) = zlen (map_tmp_buf st) /\ bytes_ok (cu_temp_v c) ->
  wf tr (Afl (redden dis <$> cu_queue c) (queued_items st) (top_rated st) (trace_bits st)
    (map_size st) (schedule st) (fixed_seed st) (n_fuzz st) b1 b2 dis (cu_temp_v c) n1 n2 n3 b3).
Proof.
  intros Hwf Eq [Hl Hok].
  assert (length (cu_queue c) = length (queue_buf st)) as El.
  { pose proof (f_equal length Eq) as E. by rewrite !length_fmap in E. }
  assert (forall w q', (redden dis <$> cu_queue c) !! w = Some q' -> exists q0,
    queue_buf st !! w = Some q0 /\ q_tc_ref q' = q_tc_ref q0 /\
    q_n_fuzz_entry q' = q_n_fuzz_entry q0 /\
    forall t, q_trace_mini q' = Some t -> q_trace_mini q0 = Some t) as Hq.
  { intros w q' Hq'. rewrite list_lookup_fmap in Hq'. destruct (cu_queue c !! w) as [q|] eqn:Hw; [|done].
    injection Hq' as <-. assert ((set_favored false <$> cu_queue c) !! w = Some (set_favored false q)) as E
      by (by rewrite list_lookup_fmap, Hw).
    rewrite Eq, list_lookup_fmap in E. destruct (queue_buf st !! w) as [q0|]; [|done].
    apply (inj Some) in E. exists q0. destruct (redden_same dis q) as [-> ->].
    pose proof (f_equal q_tc_ref E) as E1. pose proof (f_equal q_n_fuzz_entry E) as E2.
    pose proof (f_equal q_trace_mini E) as E3. cbn in E1, E2, E3.
    split_and!; [done..|]. intros t Ht%redden_mini. congruence. }
  unfold wf in *. destruct Hwf as [Hi Hm Ht Htr Htmp Hn Hr Hs Hmi].
  split; cbn [queue_buf queued_items top_rated trace_bits map_size map_tmp_buf n_fuzz]; try done.
  - rewrite Hi. unfold zlen. rewrite length_fmap. lia.
  - rewrite Hl. split; [apply Htmp|done].
  - intros w q' (q0&Hw&_&->&_)%Hq. by apply (Hn w).
  - intros w q' (q0&Hw&->&_)%Hq. by apply Hr.
  - intros i w H0 Hw. rewrite length_fmap, El. by apply Hs.
  - intros w q' t (q0&Hw&_&_&Hsub)%Hq Ht'. apply (Hmi w q0); [done|by apply Hsub].
Qed.

(** C3. [cull_queue] favours winners only, and as many as needed: every bit whose
    winner still has its minimised trace is hit by a favoured entry.  Its counters are
    the numbers of favoured and of favoured unfuzzed entries, [smallest_favored] is -1
    or such an unfuzzed entry, every enabled entry is marked redundant exactly when it
    is not favoured, and the invariant of the scores holds on. *)
Theorem cull_queue_correct tr st :
  wf tr st -> map_size st mod 8 = 0 ->
  (forall w q, queue_buf st !! w = Some q -> q_id q = Z.of_nat w) ->
  score_changed st = true -> non_instrumented_mode st = false ->
  exists st', cull_queue st = Some st' /\ wf tr st' /\
    top_rated st' = top_rated st /\ score_changed st' = false /\ reinit_table st' = true /\
    (forall k w q t, 0 <= k < map_size st -> top_rated st !! Z.to_nat k = Some (Some w) ->
       queue_buf st !! w = Some q -> q_trace_mini q = Some t ->
       exists f qf, queue_buf st' !! f = Some qf /\ q_favored qf = true /\ hits (tr f) k) /\
    (forall f qf, queue_buf st' !! f = Some qf -> q_favored qf = true ->
       exists k, 0 <= k < map_size st /\ top_rated st !! Z.to_nat k = Some (Some f)) /\
    queued_favored st' = n_favored (queue_buf st') /\
    pending_favored st' = n_pending (queue_buf st') /\
    (smallest_favored st' = -1 /\ pending_favored st' = 0 \/
     exists f qf, queue_buf st' !! f = Some qf /\ is_pending qf /\ smallest_favored st' = Z.of_nat f) /\
    (forall w q', queue_buf st' !! w = Some q' -> q_disabled q' = false ->
       q_fs_redundant q' = negb (q_favored q')).
Proof.
  intros Hwf H8 Hids Hs Hn. destruct (cull_queue_run tr st Hwf H8 Hids Hs Hn) as (c&Hinv&->).
  pose proof Hinv as []. set (dis := afl_disable_redundant st).
  assert (length (cu_queue c) = length (queue_buf st)) as El.
  { pose proof (f_equal length ci_queue0) as E. by rewrite !length_fmap in E. }
  assert (forall w q', (redden dis <$> cu_queue c) !! w = Some q' ->
    exists q, cu_queue c !! w = Some q /\ q' = redden dis q) as Hback.
  { intros w q' Hq. rewrite list_lookup_fmap in Hq. destruct (cu_queue c !! w) as [q|]; [|done].
    injection Hq as <-. by exists q. }
  assert (forall w q, cu_queue c !! w = Some q ->
    (redden dis <$> cu_queue c) !! w = Some (redden dis q)) as Hforw
    by (intros w q Hq; by rewrite list_lookup_fmap, Hq).
  assert (forall w q, cu_queue c !! w = Some q -> exists q0, queue_buf st !! w = Some q0 /\
    set_favored false q = set_favored false q0) as Horig.
  { intros w q Hq. assert ((set_favored false <$> cu_queue c) !! w = Some (set_favored false q)) as E
      by (by rewrite list_lookup_fmap, Hq).
    rewrite ci_queue0, list_lookup_fmap in E. destruct (queue_buf st !! w) as [q0|]; [|done].
    apply (inj Some) in E. by exists q0. }
  eexists. split; [done|]. cbn [queue_buf top_rated score_changed reinit_table queued_favored
    pending_favored smallest_favored]. split_and!; try done.
  - apply (wf_redden tr st c dis); [done..|]. by destruct ci_len0 as (->&_&?).
  - intros k w q t Hk Hw Hq Ht.
    destruct (lookup_lt_is_Some_2 (cu_queue c) w) as [q1 Hq1]; [rewrite El; by eapply lookup_lt_Some|].
    destruct (Horig w q1 Hq1) as (q0&Hq0&E0). assert (q0 = q) as -> by congruence.
    assert (bit_of (cu_temp_v c) k = false) as Hb.
    { apply (ci_done0 k w q1 t); [lia|done..|].
      change (q_trace_mini (set_favored false q1) = Some t). by rewrite E0. }
    apply ci_cover0 in Hb as (f&qf&Hf&Hff&Hh); [|done].
    exists f, (redden dis qf). split_and!; [by apply Hforw|by rewrite redden_favored|done].
  - intros f qf (q&Hq&->)%Hback Hf. rewrite redden_favored in Hf.
    destruct (ci_just0 f q Hq Hf) as (k&t&Hk&Hw&_). by exists k.
  - destruct ci_fav0 as [-> _]. symmetry. apply count_fmap. intros q. by rewrite redden_favored.
  - destruct ci_pend0 as [-> _]. symmetry. apply count_fmap. intros q.
    by rewrite redden_favored, redden_fuzzed.
  - destruct ci_small0 as [?|(w&q&Hq&[Hf Hz]&Hsm)]; [by left|right].
    exists w, (redden dis q). split_and!; [by apply Hforw|by rewrite redden_favored|by rewrite redden_fuzzed|done].
  - intros w q' (q&Hq&->)%Hback Hd. rewrite redden_favored. by apply (redden_flag dis).
Qed.

(** ** Concrete runs *)

(** The trace of entry [w] is executed and scored. *)
Definition score (w : nat) (st : afl) : option afl :=
  update_bitmap_score (with_trace (demo_trace_of w) st) w true.

Definition demo_scored : afl := default demo_queue (score 0 demo_queue).

Lemma demo_scored_wf : wf demo_trace_of demo_scored.
Proof.
  destruct (update_bitmap_score_run demo_trace_of demo_queue 0 (demo_entry 10 0))
    as (st'&Hst&Hwf&_); [apply demo_queue_wf|done|done|].
  assert (score 0 demo_queue = Some st') as E by exact Hst.
  unfold demo_scored. by rewrite E.
Qed.

Theorem cull_queue_witness :
  exists st' f qf, cull_queue demo_scored = Some st' /\ queue_buf st' !! f = Some qf /\
    q_favored qf = true /\ hits (demo_trace_of f) 1.
Proof.
  destruct (cull_queue_correct demo_trace_of demo_scored) as (st'&Hst&_&_&_&_&Hcov&_);
    [apply demo_scored_wf|reflexivity| |reflexivity|reflexivity|].
  - intros [|[|[|w]]] q Hq; vm_compute in Hq; try discriminate Hq; by injection Hq as <-.
  - destruct (Hcov 1 0%nat (Entry 10 0 1 false false false false false false 0 0 10 None 1 (Some [2])) [2])
      as (f&qf&?&?&?); [split; [lia|reflexivity]|reflexivity|reflexivity|reflexivity|].
    by exists st', f, qf.
Defined.

(** Entry 0 wins bit 1, entry 1 wins bit 0; culling favours entry 1, which hits both,
    and frees the trace of entry 0; then entry 2 wins bit 0. *)
Definition losing_run : option afl :=
  st ← score 0 demo_queue;
  st ← score 1 st;
  st ← cull_queue st;
  st ← score 2 st;
  cull_queue st.

(** The favoured entries need not hit every bit reached so far: after the run, slot
    1 has its winner, yet no favoured entry hits bit 1, since [mark_as_redundant] has
    freed the winner's minimised trace and [cull_queue] passes over winners without
    one. *)
Theorem cull_queue_loses_bit :
  exists st, losing_run = Some st /\ top_rated st !! 1%nat = Some (Some 0%nat) /\
    (exists f q, queue_buf st !! f = Some q /\ q_favored q = true) /\
    forall f q, queue_buf st !! f = Some q -> q_favored q = true -> ~ hits (demo_trace_of f) 1.
Proof.
  eexists. split; [vm_compute; reflexivity|]. split; [reflexivity|]. split.
  - exists 2%nat. eexists. split; reflexivity.
  - intros [|[|[|f]]] q Hq Hf; cbn in Hq; try discriminate Hq; injection Hq as <-; try discriminate Hf.
    intros (b&Hb&Hne). vm_compute in Hb. injection Hb as <-. done.
Qed.

(** Two entries that hit one bit each, scored after a change of the schedule. *)
Definition pair_trace (q : queue_entry) : list Z :=
  if q_id q =? 0 then [1; 0; 0; 0; 0; 0; 0; 0] else [0; 1; 0; 0; 0; 0; 0; 0].

Definition pair_scorer : scorer :=
  Scorer (Afl [demo_entry 10 0; demo_entry 10 1] 2 (replicate 8 None) (replicate 8 0) 8
            EXPLORE false [0] false false false [0] 0 0 (-1) false)
    (replicate 8 None) (-1).

(** [recalculate_all_scores] gives an entry without minimised trace the trace of
    the entry executed last: entry 0 wins bit 0 but is recorded as hitting bit 1, so
    that culling favours entry 0 alone and no favoured entry hits bit 1. *)
Theorem recalculate_all_scores_stale :
  exists sc st, recalculate_all_scores pair_trace pair_scorer = Some sc /\
    cull_queue (sc_afl sc) = Some st /\
    (forall w, (w < 2)%nat -> top_rated st !! w = Some (Some w)) /\
    forall f q, queue_buf st !! f = Some q -> q_favored q = true ->
      f = 0%nat /\ q_trace_mini q = Some [2] /\ ~ hits (pair_trace q) 1.
Proof.
  eexists _, _. split; [vm_compute; reflexivity|]. split; [vm_compute; reflexivity|]. split.
  - intros [|[|w]] Hw; [done|done|lia].
  - intros [|[|f]] q Hq Hf; cbn in Hq; try discriminate Hq; injection Hq as <-; try discriminate Hf.
    split_and!; [done|done|]. intros (b&Hb&Hne). vm_compute in Hb. injection Hb as <-. done.
Qed.
