(* ===== verification/Score.v ===== *)
(** * Power schedules: the score of a queue entry

    [calculate_score] of [src/afl-fuzz-queue.c].  The floating-point operations of the
    C code come through the class [Arith], so that the definitions fix which
    operations are performed, on which operands and in which order, but not how they
    round; theorems are stated either for every arithmetic or for the exact one. *)

From Stdlib Require Export QArith Qround.
From S2P Require Import Prelude Queue.
#[global] Open Scope Z_scope.

(** ** Floating-point arithmetic *)

(** [double] and [long double].  [lit a b] is the constant written as the decimal
    fraction a/b; [to_u32] the conversion to [u32], undefined outside of its range. *)
Class Arith (num lnum : Type) := {
  of_Z : Z -> num;
  lit : Z -> Z -> num;
  nadd : num -> num -> num;
  nsub : num -> num -> num;
  nmul : num -> num -> num;
  ndiv : num -> num -> num;
  nlt : num -> num -> bool;
  nle : num -> num -> bool;
  to_u32 : num -> option Z;
  nlog : num -> num;
  nlog2 : num -> num;
  nlog10 : num -> num;
  l_zero : lnum;
  l_add : lnum -> num -> lnum;
  l_div : lnum -> Z -> lnum;
  l_lt : lnum -> num -> bool
}.

(** ** Data *)

(** The fields of [struct queue_entry] that the score and the selection use. *)
Record score_entry (num : Type) := ScoreEntry {
  e_len : Z;
  e_bitmap_size : Z;
  e_fuzz_level : Z;
  e_n_fuzz_entry : Z;
  e_exec_us : Z;
  e_handicap : Z;
  e_depth : Z;
  e_tc_ref : Z;
  e_was_fuzzed : bool;
  e_favored : bool;
  e_fs_redundant : bool;
  e_disabled : bool;
  e_perf_score : num;
  e_weight : num
}.
Arguments ScoreEntry {num}.
Arguments e_len {num}.
Arguments e_bitmap_size {num}.
Arguments e_fuzz_level {num}.
Arguments e_n_fuzz_entry {num}.
Arguments e_exec_us {num}.
Arguments e_handicap {num}.
Arguments e_depth {num}.
Arguments e_tc_ref {num}.
Arguments e_was_fuzzed {num}.
Arguments e_favored {num}.
Arguments e_fs_redundant {num}.
Arguments e_disabled {num}.
Arguments e_perf_score {num}.
Arguments e_weight {num}.

(** The fields of [afl_state_t]. *)
Record score_env := ScoreEnv {
  s_total_cal_us : Z;
  s_total_cal_cycles : Z;
  s_total_bitmap_size : Z;
  s_total_bitmap_entries : Z;
  s_schedule : Z;
  s_fixed_seed : bool;
  s_n_fuzz : list Z;
  s_max_depth : Z;
  s_total_execs : Z;
  s_limit_time_sig : Z;
  s_havoc_max_mult : Z;
  s_queued_discovered : Z
}.

Definition POWER_BETA : Z := 1.
Definition MAX_FACTOR : Z := POWER_BETA * 32.

Section Score.
Context {num lnum : Type} `{Arith num lnum}.
Abbreviation entry := (score_entry num).
Implicit Types (a : score_env) (q : entry).

Definition set_handicap q (h : Z) : entry :=
  ScoreEntry (e_len q) (e_bitmap_size q) (e_fuzz_level q) (e_n_fuzz_entry q) (e_exec_us q) h
    (e_depth q) (e_tc_ref q) (e_was_fuzzed q) (e_favored q) (e_fs_redundant q) (e_disabled q)
    (e_perf_score q) (e_weight q).

(** [p *= x] for an unsigned [p] and a floating-point [x]. *)
Definition scale (p : Z) (x : num) : option Z := to_u32 (nmul (of_Z p) x).

(** [x > n] *)
Definition gtZ (x : num) (n : Z) : bool := nlt (of_Z n) x.

(** The factor for the execution speed. *)
Definition speed_score a (exec_us avg_exec_us : Z) : Z :=
  if (s_schedule a <? RARE) && negb (s_fixed_seed a) then
    if gtZ (nmul (of_Z exec_us) (lit 1 10)) avg_exec_us then 10
    else if gtZ (nmul (of_Z exec_us) (lit 25 100)) avg_exec_us then 25
    else if gtZ (nmul (of_Z exec_us) (lit 5 10)) avg_exec_us then 50
    else if gtZ (nmul (of_Z exec_us) (lit 75 100)) avg_exec_us then 75
    else if u64 (exec_us * 4) <? avg_exec_us then 300
    else if u64 (exec_us * 3) <? avg_exec_us then 200
    else if u64 (exec_us * 2) <? avg_exec_us then 150
    else 100
  else 100.

(** The factor for the size of the bitmap. *)
Definition bitmap_score (p bitmap_size avg : Z) : option Z :=
  if gtZ (nmul (of_Z bitmap_size) (lit 3 10)) avg then Some (u32 (p * 3))
  else if gtZ (nmul (of_Z bitmap_size) (lit 5 10)) avg then Some (u32 (p * 2))
  else if gtZ (nmul (of_Z bitmap_size) (lit 75 100)) avg then scale p (lit 15 10)
  else if u32 (bitmap_size * 3) <? avg then scale p (lit 25 100)
  else if u32 (bitmap_size * 2) <? avg then scale p (lit 5 10)
  else if nlt (nmul (of_Z bitmap_size) (lit 15 10)) (of_Z avg) then scale p (lit 75 100)
  else Some p.

(** The handicap. *)
Definition handicap_score (p : Z) q : Z * entry :=
  if 4 <=? e_handicap q then (u32 (p * 4), set_handicap q (e_handicap q - 4))
  else if z2b (e_handicap q) then (u32 (p * 2), set_handicap q (e_handicap q - 1))
  else (p, q).

(** The depth of the input. *)
Definition depth_score (p depth : Z) : Z :=
  if depth <=? 3 then p
  else if depth <=? 7 then u32 (p * 2)
  else if depth <=? 13 then u32 (p * 3)
  else if depth <=? 25 then u32 (p * 4)
  else u32 (p * 5).

(** *** The schedules *)

(** The cases of [FAST]. *)
Definition fast_factor a q : option num :=
  if negb (z2b (e_fuzz_level q)) then Some (lit 1 1)
  else
    n ← get (s_n_fuzz a) (e_n_fuzz_entry q);
    k ← to_u32 (nlog2 (of_Z n));
    let f :=
      if k <=? 1 then of_Z 4
      else if k <=? 3 then of_Z 3
      else if k =? 4 then of_Z 2
      else if k =? 5 then lit 1 1
      else if e_favored q then lit 1 1
      else if k =? 6 then lit 8 10
      else if k =? 7 then lit 6 10
      else lit 4 10 in
    Some (if e_favored q then nmul f (lit 115 100) else f).

(** The loop of [COE] over the queue: sum of the logarithms and number of entries. *)
Fixpoint coe_sum a (queue : list entry) (mu : lnum) (n_items : Z) : option (lnum * Z) :=
  match queue with
  | [] => Some (mu, n_items)
  | e :: queue =>
      if e_disabled e then coe_sum a queue mu n_items
      else
        n ← get (s_n_fuzz a) (e_n_fuzz_entry e);
        coe_sum a queue (l_add mu (nlog2 (of_Z n))) (u32 (n_items + 1))
  end.

Definition coe_factor a (queue : list entry) q : option num :=
  if negb (z2b (e_fuzz_level q)) then Some (lit 1 1)
  else
    '(mu, n_items) ← coe_sum a queue l_zero 0;
    if n_items =? 0 then None
    else
      n ← get (s_n_fuzz a) (e_n_fuzz_entry q);
      if l_lt (l_div mu n_items) (nlog2 (of_Z n)) then
        Some (if e_favored q then lit 1 1 else of_Z 0)
      else fast_factor a q.

(** [LIN] and [QUAD] divide integers; a zero divisor is [None]. *)
Definition level_factor a (level : Z) q : option num :=
  if negb (z2b (e_fuzz_level q)) then Some (lit 1 1)
  else
    n ← get (s_n_fuzz a) (e_n_fuzz_entry q);
    let d := u32 (n + 1) in
    if d =? 0 then None else Some (of_Z (level / d)).

(** The [switch] on the schedule: the new score and the factor. *)
Definition schedule_score a (queue : list entry) q (p : Z) : option (Z * num) :=
  let s := s_schedule a in
  if (s =? EXPLORE) || (s =? SEEK) then Some (p, lit 1 1)
  else if s =? EXPLOIT then Some (p, of_Z MAX_FACTOR)
  else if s =? COE then f ← coe_factor a queue q; Some (p, f)
  else if s =? FAST then f ← fast_factor a q; Some (p, f)
  else if s =? LIN then f ← level_factor a (e_fuzz_level q) q; Some (p, f)
  else if s =? QUAD then
    f ← level_factor a (u32 (e_fuzz_level q * e_fuzz_level q)) q; Some (p, f)
  else if s =? MMOPT then
    Some (if u64 (s_max_depth a - e_depth q) <? 5 then u32 (p * 2) else p, lit 1 1)
  else if s =? RARE then
    let p := u32 (p + u32 (e_tc_ref q * 10)) in
    n ← get (s_n_fuzz a) (e_n_fuzz_entry q);
    p ← scale p (nsub (of_Z 1) (ndiv (of_Z n) (of_Z (s_total_execs a))));
    Some (p, lit 1 1)
  else None.

(** [if (factor > MAX_FACTOR) ...; perf_score *= factor / POWER_BETA] *)
Definition apply_factor a (p : Z) (factor : num) : option Z :=
  if (EXPLOIT <=? s_schedule a) && (s_schedule a <=? QUAD) then
    let factor := if gtZ factor MAX_FACTOR then of_Z MAX_FACTOR else factor in
    scale p (ndiv factor (of_Z POWER_BETA))
  else Some p.

(** From the MOpt mode on: lower and upper bound. *)
Definition bound_score a q (p : Z) : Z :=
  let p :=
    if negb (s_limit_time_sig a =? 0) && (u64 (s_max_depth a - e_depth q) <? 3) then u32 (p * 2)
    else if negb (s_schedule a =? COE) && (p <? 1) then 1
    else p in
  if s_havoc_max_mult a * 100 <? p then s_havoc_max_mult a * 100 else p.

Definition or_one (n : Z) : Z := let n := u32 n in if n =? 0 then 1 else n.

Definition calculate_score a (queue : list entry) q : option (Z * entry) :=
  let avg_exec_us := u32 (s_total_cal_us a / or_one (s_total_cal_cycles a)) in
  let avg_bitmap_size := u32 (s_total_bitmap_size a / or_one (s_total_bitmap_entries a)) in
  let p := speed_score a (e_exec_us q) avg_exec_us in
  p ← bitmap_score p (e_bitmap_size q) avg_bitmap_size;
  let '(p, q) := handicap_score p q in
  let p := depth_score p (e_depth q) in
  '(p, factor) ← schedule_score a queue q p;
  p ← apply_factor a p factor;
  Some (bound_score a q p, q).
End Score.
