(* ===== verification/Alias.v ===== *)
(** * The alias table for the selection of queue entries

    [create_alias_table] and [select_next_queue_entry] of [src/afl-fuzz-queue.c], over
    the arithmetic of [Score].  The arrays are lists of the length of their
    allocation; an access outside of one is [None]. *)

From S2P Require Import Prelude Queue Score.

Section Alias.
Context {num lnum : Type} `{Arith num lnum}.
Abbreviation entry := (score_entry num).
Implicit Types (a : score_env) (q : entry).

(** ** Weights *)

Definition set_score q (w p : num) : entry :=
  ScoreEntry (e_len q) (e_bitmap_size q) (e_fuzz_level q) (e_n_fuzz_entry q) (e_exec_us q)
    (e_handicap q) (e_depth q) (e_tc_ref q) (e_was_fuzzed q) (e_favored q) (e_fs_redundant q)
    (e_disabled q) p w.

(** The three averages, and the number of entries that count. *)
Fixpoint averages (queue : list entry) (us bm ln : num) (active : Z) : num * num * num * Z :=
  match queue with
  | [] => (us, bm, ln, active)
  | q :: queue =>
      if e_disabled q then averages queue us bm ln active
      else averages queue (nadd us (of_Z (e_exec_us q))) (nadd bm (nlog (of_Z (e_bitmap_size q))))
             (nadd ln (of_Z (e_len q))) (u32 (active + 1))
  end.

Definition hits_weight a q : option num :=
  if (FAST <=? s_schedule a) && (s_schedule a <=? RARE) then
    hits ← get (s_n_fuzz a) (e_n_fuzz_entry q);
    Some (if z2b hits then ndiv (of_Z 1) (nadd (nlog10 (of_Z hits)) (of_Z 1)) else of_Z 1)
  else Some (of_Z 1).

Definition time_weight (t : num) (w : num) : num :=
  if nlt t (lit 1 10) then w
  else if nle t (lit 25 100) then nmul w (lit 95 100)
  else if nle t (lit 5 10) then w
  else if nle t (lit 75 100) then nmul w (lit 105 100)
  else if nle t (lit 1 1) then nmul w (lit 11 10)
  else if nlt t (lit 125 100) then nmul w (lit 2 10)
  else if nle t (lit 15 10) then w
  else if nle t (lit 2 1) then nmul w (lit 11 10)
  else if nle t (lit 25 10) then w
  else if nle t (lit 5 1) then nmul w (lit 115 100)
  else if nle t (lit 20 1) then nmul w (lit 11 10)
  else w.

Definition len_weight (l : num) (w : num) : num :=
  if nlt l (lit 1 10) then nmul w (lit 5 10)
  else if nle l (lit 5 10) then w
  else if nle l (lit 125 100) then nmul w (lit 105 100)
  else if nle l (lit 175 100) then w
  else if nle l (lit 2 1) then nmul w (lit 95 100)
  else if nle l (lit 5 1) then w
  else if nle l (lit 10 1) then nmul w (lit 105 100)
  else nmul w (lit 115 100).

Definition bitmap_weight (bms : num) (w : num) : num :=
  if nlt bms (lit 1 10) then nmul w (lit 1 100)
  else if nle bms (lit 25 100) then nmul w (lit 55 100)
  else if nle bms (lit 5 10) then w
  else if nle bms (lit 75 100) then nmul w (lit 12 10)
  else if nle bms (lit 125 100) then nmul w (lit 13 10)
  else if nle bms (lit 175 100) then nmul w (lit 125 100)
  else if nle bms (lit 2 1) then w
  else if nle bms (lit 25 10) then nmul w (lit 13 10)
  else nmul w (lit 75 100).

(** The weight of an entry that is not disabled. *)
Definition entry_weight a (avg_us avg_bm avg_len : num) q : option num :=
  w ← hits_weight a q;
  let w := if s_schedule a <? RARE
           then time_weight (ndiv (of_Z (e_exec_us q)) avg_us) w else w in
  let w := len_weight (ndiv (of_Z (e_len q)) avg_len) w in
  let w := bitmap_weight (ndiv (of_Z (e_bitmap_size q)) avg_bm) w in
  let w := if e_was_fuzzed q then w else nmul w (lit 25 10) in
  Some (if e_fs_redundant q then nmul w (lit 75 100) else w).

(** The loop that sets [weight] and [perf_score]; [calculate_score] reads the whole
    queue, of which [done] has been visited. *)
Fixpoint weight_loop a (avg_us avg_bm avg_len : num) (done todo : list entry) (sum : num) :
  option (list entry * num) :=
  match todo with
  | [] => Some (done, sum)
  | q :: todo' =>
      if e_disabled q then weight_loop a avg_us avg_bm avg_len (done ++ [q]) todo' sum
      else
        w ← entry_weight a avg_us avg_bm avg_len q;
        let q1 := set_score q w (e_perf_score q) in
        '(p, q2) ← calculate_score a (done ++ q1 :: todo') q1;
        weight_loop a avg_us avg_bm avg_len (done ++ [set_score q2 w (of_Z p)]) todo' (nadd sum w)
  end.

(** [MMOPT]: the last [cnt] entries count twice. *)
Definition mmopt_boost a (queue : list entry) : list entry :=
  if (s_schedule a =? MMOPT) && z2b (s_queued_discovered a) then
    let cnt := if 5 <=? s_queued_discovered a then 5 else s_queued_discovered a in
    let k := Z.to_nat (zlen queue - cnt) in
    take k queue ++
      ((fun q => if e_disabled q then q
                 else set_score q (nmul (e_weight q) (lit 2 1)) (e_perf_score q)) <$> drop k queue)
  else queue.

(** The schedules from [RARE] on use the score itself. *)
Fixpoint perf_loop a (done todo : list entry) (sum : num) : option (list entry * num) :=
  match todo with
  | [] => Some (done, sum)
  | q :: todo' =>
      if e_disabled q then perf_loop a (done ++ [q]) todo' sum
      else
        '(p, q2) ← calculate_score a (done ++ todo) q;
        perf_loop a (done ++ [set_score q2 (e_weight q2) (of_Z p)]) todo' (nadd sum (of_Z p))
  end.

(** [P[i]] from the value [v] of each entry. *)
Definition shares (v : entry -> num) (sum : num) (queue : list entry) : list num :=
  (fun q => if e_disabled q then of_Z 0
            else ndiv (nmul (v q) (of_Z (zlen queue))) sum) <$> queue.

(** The first half of the function: the queue with its scores, and [P]. *)
Definition weigh a (queue : list entry) : option (list entry * list num) :=
  if s_schedule a <? RARE then
    let '(us, bm, ln, active) := averages queue (of_Z 0) (of_Z 0) (of_Z 0) 0 in
    let n := of_Z active in
    '(queue, sum) ← weight_loop a (ndiv us n) (ndiv bm n) (ndiv ln n) [] queue (of_Z 0);
    let queue := mmopt_boost a queue in
    Some (queue, shares e_weight sum queue)
  else
    '(queue, sum) ← perf_loop a [] queue (of_Z 0);
    Some (queue, shares e_perf_score sum queue).

(** ** The table *)

Record alias_st := AliasSt {
  P : list num;
  Small : list Z;
  Large : list Z;
  nSmall : Z;
  nLarge : Z;
  alias_probability : list num;
  alias_table : list Z
}.

Definition push_small (st : alias_st) (j : Z) : option alias_st :=
  s ← put (Small st) (nSmall st) j;
  Some (AliasSt (P st) s (Large st) (u32 (nSmall st + 1)) (nLarge st)
          (alias_probability st) (alias_table st)).

Definition push_large (st : alias_st) (j : Z) : option alias_st :=
  l ← put (Large st) (nLarge st) j;
  Some (AliasSt (P st) (Small st) l (nSmall st) (u32 (nLarge st - 1))
          (alias_probability st) (alias_table st)).

(** [if (P[j] < 1) Small[nSmall++] = j; else Large[nLarge--] = j;] *)
Definition classify (st : alias_st) (j : Z) : option alias_st :=
  p ← get (P st) j;
  if nlt p (of_Z 1) then push_small st j else push_large st j.

(** The loop from [n - 1] down to 0. *)
Fixpoint split_loop (j : nat) (st : alias_st) : option alias_st :=
  match j with
  | O => Some st
  | S j => st ← classify st (Z.of_nat j); split_loop j st
  end.

(** [Small[--nSmall]] and [Large[++nLarge]] *)
Definition pop_small (st : alias_st) : option (Z * alias_st) :=
  let k := u32 (nSmall st - 1) in
  x ← get (Small st) k;
  Some (x, AliasSt (P st) (Small st) (Large st) k (nLarge st)
             (alias_probability st) (alias_table st)).

Definition pop_large (st : alias_st) : option (Z * alias_st) :=
  let k := u32 (nLarge st + 1) in
  x ← get (Large st) k;
  Some (x, AliasSt (P st) (Small st) (Large st) (nSmall st) k
             (alias_probability st) (alias_table st)).

Definition set_prob (st : alias_st) (i : Z) (p : num) : option alias_st :=
  ps ← put (alias_probability st) i p;
  Some (AliasSt (P st) (Small st) (Large st) (nSmall st) (nLarge st) ps (alias_table st)).

Definition set_alias (st : alias_st) (i j : Z) : option alias_st :=
  t ← put (alias_table st) i j;
  Some (AliasSt (P st) (Small st) (Large st) (nSmall st) (nLarge st) (alias_probability st) t).

Definition set_P (st : alias_st) (i : Z) (p : num) : option alias_st :=
  ps ← put (P st) i p;
  Some (AliasSt ps (Small st) (Large st) (nSmall st) (nLarge st)
          (alias_probability st) (alias_table st)).

(** One round of the pairing loop. *)
Definition pair_step (st : alias_st) : option alias_st :=
  '(small, st) ← pop_small st;
  '(large, st) ← pop_large st;
  ps ← get (P st) small;
  st ← set_prob st small ps;
  st ← set_alias st small large;
  pl ← get (P st) large;
  st ← set_P st large (nsub pl (nsub (of_Z 1) ps));
  classify st large.

Fixpoint pair_loop (fuel : nat) (n : Z) (st : alias_st) : option alias_st :=
  match fuel with
  | O => None
  | S fuel =>
      if z2b (nSmall st) && negb (nLarge st =? u32 (n - 1)) then
        st ← pair_step st; pair_loop fuel n st
      else Some st
  end.

Fixpoint small_loop (fuel : nat) (st : alias_st) : option alias_st :=
  match fuel with
  | O => None
  | S fuel =>
      if z2b (nSmall st) then
        '(i, st) ← pop_small st; st ← set_prob st i (of_Z 1); small_loop fuel st
      else Some st
  end.

Fixpoint large_loop (fuel : nat) (n : Z) (st : alias_st) : option alias_st :=
  match fuel with
  | O => None
  | S fuel =>
      if negb (nLarge st =? u32 (n - 1)) then
        '(i, st) ← pop_large st; st ← set_prob st i (of_Z 1); large_loop fuel n st
      else Some st
  end.

(** The second half of the function, on [P]. *)
Definition fill_table (fuel : nat) (p : list num) : option alias_st :=
  let n := zlen p in
  let zeros := replicate (Z.to_nat n) 0 in
  let st := AliasSt p zeros zeros 0 (u32 (n - 1)) (replicate (Z.to_nat n) (of_Z 0)) zeros in
  st ← split_loop (Z.to_nat n) st;
  st ← pair_loop fuel n st;
  st ← small_loop fuel st;
  large_loop fuel n st.

Definition create_alias_table (fuel : nat) a (queue : list entry) :
  option (list entry * alias_st) :=
  '(queue, p) ← weigh a queue;
  st ← fill_table fuel p;
  Some (queue, st).

(** [select_next_queue_entry], with the two random numbers it draws: [s] below
    [queued_items], and [p] from [rand_next_percent]. *)
Definition select_next_queue_entry (st : alias_st) (s : Z) (p : num) : option Z :=
  q ← get (alias_probability st) s;
  t ← get (alias_table st) s;
  Some (if nlt p q then s else t).
End Alias.

Arguments alias_st : clear implicits.
