(* ===== verification/AliasFacts.v ===== *)
(** * The alias table: safety for every arithmetic, exactness for the rationals *)

From Stdlib Require Import Lqa.
From S2P Require Import Prelude Queue Score Alias.

(** ** The two stacks *)

Section Stacks.
Context {num lnum : Type} `{Arith num lnum}.
Context (n : Z) (Hn : 0 < n < 2 ^ 31).
Implicit Types st : alias_st num.

(** [Small] grows from the left end of its array, [Large] from the right end of its own. *)
Record rep st (ss ls : list Z) : Prop := Rep {
  rep_P : zlen (P st) = n;
  rep_prob : zlen (alias_probability st) = n;
  rep_alias : zlen (alias_table st) = n;
  rep_S : zlen (Small st) = n;
  rep_L : zlen (Large st) = n;
  rep_ns : nSmall st = zlen ss;
  rep_small : take (length ss) (Small st) = ss;
  rep_nl : nLarge st = u32 (n - zlen ls - 1);
  rep_large : drop (Z.to_nat (n - zlen ls)) (Large st) = ls;
  rep_size : zlen ss + zlen ls <= n
}.

(** What the stack operations leave alone. *)
Definition same_table st st' : Prop :=
  P st' = P st /\ alias_probability st' = alias_probability st /\ alias_table st' = alias_table st.

Lemma u32_small z : 0 <= z < 2 ^ 32 -> u32 z = z.
Proof. apply wrap_small. Qed.

Lemma u32_pred_succ z : 0 <= z < 2 ^ 32 -> u32 (u32 (z - 1) + 1) = z.
Proof.
  intros Hz. unfold wrap. rewrite Z.add_mod_idemp_l by lia.
  rewrite Z.sub_add. by apply Z.mod_small.
Qed.

Lemma push_small_ok st ss ls j :
  rep st ss ls -> zlen ss + zlen ls < n ->
  exists st', push_small st j = Some st' /\ rep st' (ss ++ [j]) ls /\ same_table st st'.
Proof.
  intros [] Hlt. pose proof (zlen_nonneg ss). pose proof (zlen_nonneg ls). unfold push_small.
  rewrite put_Some by lia. cbn. eexists. split; [done|]. split; [|done].
  split; cbn; rewrite ?zlen_app, ?zlen_one; auto.
  - unfold zlen in *. by rewrite length_insert.
  - rewrite rep_ns0. apply u32_small. lia.
  - rewrite rep_ns0. unfold zlen. rewrite Nat2Z.id, length_app. cbn.
    rewrite Nat.add_1_r, (take_S_r _ _ j).
    + rewrite take_insert_ge by lia. by rewrite rep_small0.
    + apply list_lookup_insert_eq. unfold zlen in *. lia.
  - lia.
Qed.

Lemma push_large_ok st ss ls j :
  rep st ss ls -> zlen ss + zlen ls < n ->
  exists st', push_large st j = Some st' /\ rep st' ss (j :: ls) /\ same_table st st'.
Proof.
  intros [] Hlt. pose proof (zlen_nonneg ss). pose proof (zlen_nonneg ls). unfold push_large.
  rewrite rep_nl0, (u32_small (n - zlen ls - 1)) by lia.
  rewrite put_Some by lia. cbn. eexists. split; [done|]. split; [|done].
  split; cbn; rewrite ?zlen_cons; auto.
  - unfold zlen in *. by rewrite length_insert.
  - f_equal. lia.
  - replace (n - (1 + zlen ls)) with (n - zlen ls - 1) by lia.
    rewrite (drop_S _ j).
    + f_equal. rewrite drop_insert_lt by lia. replace (S _) with (Z.to_nat (n - zlen ls)) by lia. done.
    + apply list_lookup_insert_eq. unfold zlen in *. lia.
  - lia.
Qed.

Lemma pop_small_ok st ss x ls :
  rep st (ss ++ [x]) ls ->
  exists st', pop_small st = Some (x, st') /\ rep st' ss ls /\ same_table st st'.
Proof.
  intros []. rewrite zlen_app, zlen_one in *. pose proof (zlen_nonneg ss). pose proof (zlen_nonneg ls).
  unfold pop_small. rewrite rep_ns0, Z.add_simpl_r, u32_small by lia.
  rewrite length_app in rep_small0. cbn in rep_small0.
  assert (Small st !! length ss = Some x) as Hx.
  { rewrite <- (lookup_take_lt _ (length ss + 1)) by lia. rewrite rep_small0.
    by rewrite lookup_app_r, Nat.sub_diag by lia. }
  rewrite get_pos by lia.
  replace (Z.to_nat (zlen ss)) with (length ss) by (unfold zlen; lia). rewrite Hx. cbn.
  eexists. split; [done|]. split; [|done]. split; cbn; auto; [|lia].
  apply (f_equal (take (length ss))) in rep_small0.
  rewrite take_take, Nat.min_l, take_app_length in rep_small0 by lia. done.
Qed.

Lemma pop_large_ok st ss x ls :
  rep st ss (x :: ls) ->
  exists st', pop_large st = Some (x, st') /\ rep st' ss ls /\ same_table st st'.
Proof.
  intros []. rewrite zlen_cons in *. pose proof (zlen_nonneg ss). pose proof (zlen_nonneg ls).
  unfold pop_large. rewrite rep_nl0.
  replace (n - (1 + zlen ls)) with (n - zlen ls - 1) in * by lia.
  rewrite (u32_pred_succ (n - zlen ls - 1)) by lia.
  assert (Large st !! Z.to_nat (n - zlen ls - 1) = Some x) as Hx.
  { pose proof (lookup_drop (Large st) (Z.to_nat (n - zlen ls - 1)) 0) as E.
    rewrite rep_large0, Nat.add_0_r in E. by rewrite <- E. }
  rewrite get_pos, Hx by lia. cbn.
  eexists. split; [done|]. split; [|done]. split; cbn; auto; [by rewrite u32_small by lia| |lia].
  apply (f_equal (drop 1)) in rep_large0. rewrite drop_drop in rep_large0. cbn in rep_large0.
  by replace (Z.to_nat (n - zlen ls)) with (Z.to_nat (n - zlen ls - 1) + 1)%nat by lia.
Qed.

(** ** One step of each loop *)

Definition in_range (i : Z) : Prop := 0 <= i < n.

(** Where an entry goes. *)
Definition route (v : num) (j : Z) (ss ls : list Z) : list Z * list Z :=
  if nlt v (of_Z 1) then (ss ++ [j], ls) else (ss, j :: ls).

Lemma classify_ok st ss ls j v :
  rep st ss ls -> zlen ss + zlen ls < n -> in_range j -> P st !! Z.to_nat j = Some v ->
  exists st', classify st j = Some st' /\ same_table st st' /\
    let '(ss', ls') := route v j ss ls in rep st' ss' ls'.
Proof.
  intros Hr Hlt Hj Hv. unfold classify. rewrite get_pos, Hv by (unfold in_range in Hj; lia). cbn.
  unfold route. destruct (nlt v (of_Z 1)).
  - destruct (push_small_ok st ss ls j Hr Hlt) as (st'&?&?&?). by exists st'.
  - destruct (push_large_ok st ss ls j Hr Hlt) as (st'&?&?&?). by exists st'.
Qed.

(** The contents of the stacks, by the value of [P]. *)
Definition low st (i : Z) : Prop :=
  in_range i /\ exists v, P st !! Z.to_nat i = Some v /\ nlt v (of_Z 1) = true.
Definition high st (i : Z) : Prop :=
  in_range i /\ exists v, P st !! Z.to_nat i = Some v /\ nlt v (of_Z 1) = false.

Lemma low_same st st' i : same_table st st' -> low st i -> low st' i.
Proof. intros (E&_). unfold low. by rewrite E. Qed.
Lemma high_same st st' i : same_table st st' -> high st i -> high st' i.
Proof. intros (E&_). unfold high. by rewrite E. Qed.

Lemma split_loop_ok j st ss ls :
  rep st ss ls -> Forall (low st) ss -> Forall (high st) ls ->
  zlen ss + zlen ls + Z.of_nat j <= n ->
  exists st' ss' ls', split_loop j st = Some st' /\ rep st' ss' ls' /\ same_table st st' /\
    Forall (low st') ss' /\ Forall (high st') ls' /\
    ss' ++ ls' ≡ₚ seqZ 0 (Z.of_nat j) ++ ss ++ ls.
Proof.
  revert st ss ls. induction j as [|j IH]; intros st ss ls Hr Hs Hl Hj.
  { exists st, ss, ls. by split_and!. }
  cbn [split_loop]. pose proof (zlen_nonneg ss). pose proof (zlen_nonneg ls).
  assert (in_range (Z.of_nat j)) as Hi by (unfold in_range; lia).
  destruct (zlen_lookup (P st) (Z.of_nat j)) as [v Hv]; [rewrite (rep_P _ _ _ Hr); exact Hi|].
  destruct (classify_ok st ss ls (Z.of_nat j) v Hr) as (st1&->&Hst&Hr1); [lia|done..|]. cbn.
  assert (Forall (low st1) ss) as Hs1 by (eapply Forall_impl; [|exact Hs]; eauto using low_same).
  assert (Forall (high st1) ls) as Hl1 by (eapply Forall_impl; [|exact Hl]; eauto using high_same).
  destruct Hst as (EP&E1&E2). unfold route in Hr1. destruct (nlt v (of_Z 1)) eqn:Ev.
  - destruct (IH st1 (ss ++ [Z.of_nat j]) ls) as (st2&ss2&ls2&->&Hr2&(?&?&?)&Hs2&Hl2&Hp);
      [done| |done|rewrite zlen_app, zlen_one; lia|].
    { apply Forall_app. split; [done|]. repeat constructor; try apply Hi. exists v. by rewrite EP. }
    exists st2, ss2, ls2. split_and!; try congruence; try done; [split_and!; congruence|].
    rewrite Hp, seqZ_S. rewrite <- !app_assoc. cbn. rewrite Z.add_0_l.
    by rewrite (Permutation_middle ss).
  - destruct (IH st1 ss (Z.of_nat j :: ls)) as (st2&ss2&ls2&->&Hr2&(?&?&?)&Hs2&Hl2&Hp);
      [done|done| |rewrite zlen_cons; lia|].
    { constructor; [|done]. split; [done|]. exists v. by rewrite EP. }
    exists st2, ss2, ls2. split_and!; try congruence; try done; [split_and!; congruence|].
    rewrite Hp, seqZ_S. rewrite <- !app_assoc. cbn. rewrite Z.add_0_l.
    by rewrite (Permutation_middle ss).
Qed.

(** The effect of one pairing on the table. *)
Record paired st st' (x y : Z) (p r : num) : Prop := Paired {
  paired_P : P st' = <[Z.to_nat y := r]> (P st);
  paired_prob : alias_probability st' = <[Z.to_nat x := p]> (alias_probability st);
  paired_alias : alias_table st' = <[Z.to_nat x := y]> (alias_table st)
}.

Lemma pair_step_ok st ss x y ls p q :
  rep st (ss ++ [x]) (y :: ls) -> in_range x -> in_range y ->
  P st !! Z.to_nat x = Some p -> P st !! Z.to_nat y = Some q ->
  let r := nsub q (nsub (of_Z 1) p) in
  exists st', pair_step st = Some st' /\ paired st st' x y p r /\
    let '(ss', ls') := route r y ss ls in rep st' ss' ls'.
Proof.
  intros Hr Hx Hy Hp Hq r. pose proof (rep_P _ _ _ Hr) as HzP. unfold pair_step, in_range in *.
  destruct (pop_small_ok _ _ _ _ Hr) as (s1&->&R1&(EP1&EA1&ET1)). cbn.
  destruct (pop_large_ok _ _ _ _ R1) as (s2&->&R2&(EP2&EA2&ET2)). cbn.
  rewrite EP2, EP1, get_pos, Hp by lia. cbn.
  destruct (R2). unfold set_prob, set_alias, set_P. rewrite put_Some by lia. cbn.
  rewrite put_Some by lia. cbn. rewrite EP2, EP1, get_pos, Hq by lia. cbn.
  rewrite put_Some by (rewrite ?EP2, ?EP1; lia). cbn. fold r.
  set (s3 := AliasSt _ _ _ _ _ _ _).
  assert (zlen ss + zlen ls < n) as Hlt.
  { pose proof (rep_size _ _ _ Hr) as Hz. rewrite zlen_app, zlen_one, zlen_cons in Hz. lia. }
  assert (rep s3 ss ls) as R3.
  { split; cbn; auto; unfold zlen in *; rewrite length_insert; congruence. }
  destruct (classify_ok s3 ss ls y r R3 Hlt Hy) as (s4&->&(F1&F2&F3)&R4).
  { cbn. apply list_lookup_insert_eq. rewrite ?EP2, ?EP1. unfold zlen in *. lia. }
  exists s4. split; [done|]. split; [|done].
  split; [rewrite F1|rewrite F2|rewrite F3]; cbn; congruence.
Qed.

(** ** The loops *)

Lemma large_empty st ss ls :
  rep st ss ls -> (nLarge st =? u32 (n - 1)) = bool_decide (ls = []).
Proof.
  intros []. rewrite rep_nl0, (u32_small (n - 1)) by lia. pose proof (zlen_nonneg ls) as Hpos.
  pose proof (zlen_nonneg ss).
  destruct ls as [|y ls]; [|].
  { change (zlen (@nil Z)) with 0. rewrite Z.sub_0_r, u32_small by lia. by rewrite Z.eqb_refl. }
  rewrite zlen_cons in *. pose proof (zlen_nonneg ls). rewrite bool_decide_eq_false_2 by done.
  apply Z.eqb_neq. intros E. unfold wrap in E.
  destruct (decide (1 + zlen ls = n)) as [E1|].
  - replace (n - (1 + zlen ls) - 1) with (-1) in E by lia. change (-1 mod 2 ^ 32) with (2 ^ 32 - 1) in E.
    lia.
  - rewrite Z.mod_small in E by lia. lia.
Qed.

Lemma small_empty st ss ls : rep st ss ls -> z2b (nSmall st) = negb (bool_decide (ss = [])).
Proof.
  intros []. rewrite rep_ns0. destruct ss as [|x ss]; [done|]. rewrite zlen_cons.
  pose proof (zlen_nonneg ss). unfold z2b. by rewrite (proj2 (Z.eqb_neq _ _)) by lia.
Qed.

Section Pairing.
Context (I : alias_st num -> list Z -> list Z -> Prop).
Context (I_range : forall st ss ls, I st ss ls -> Forall in_range (ss ++ ls)).
Context (I_step : forall st ss x y ls p q st',
  rep st (ss ++ [x]) (y :: ls) -> I st (ss ++ [x]) (y :: ls) ->
  P st !! Z.to_nat x = Some p -> P st !! Z.to_nat y = Some q ->
  let r := nsub q (nsub (of_Z 1) p) in paired st st' x y p r ->
  let '(ss', ls') := route r y ss ls in I st' ss' ls').

Lemma pair_loop_ok fuel st ss ls :
  rep st ss ls -> I st ss ls -> zlen ss + zlen ls < Z.of_nat fuel ->
  exists st' ss' ls', pair_loop fuel n st = Some st' /\ rep st' ss' ls' /\ I st' ss' ls' /\
    (ss' = [] \/ ls' = []).
Proof.
  revert st ss ls. induction fuel as [|fuel IH]; intros st ss ls Hr Hi Hf.
  { pose proof (zlen_nonneg ss). pose proof (zlen_nonneg ls). lia. }
  cbn [pair_loop]. rewrite (small_empty _ _ _ Hr), (large_empty _ _ _ Hr).
  destruct ls as [|y ls]; [rewrite andb_false_r; exists st, ss, []; auto|].
  induction ss as [|x ss _] using rev_ind; [exists st, [], (y :: ls); auto|].
  rewrite !bool_decide_eq_false_2 by (done || by destruct ss). cbn [negb andb].
  pose proof (I_range _ _ _ Hi) as Hrg. apply Forall_app in Hrg as [Hx Hy].
  apply Forall_app in Hx as [_ Hx]. rewrite Forall_singleton in Hx. apply Forall_cons_iff in Hy as [Hy _].
  destruct (zlen_lookup (P st) x) as [p Hp]; [rewrite (rep_P _ _ _ Hr); exact Hx|].
  destruct (zlen_lookup (P st) y) as [q Hq]; [rewrite (rep_P _ _ _ Hr); exact Hy|].
  destruct (pair_step_ok st ss x y ls p q Hr Hx Hy Hp Hq) as (st'&->&Hpr&Hr'). cbn.
  pose proof (I_step _ _ _ _ _ _ _ _ Hr Hi Hp Hq Hpr) as Hi'.
  rewrite zlen_app, zlen_one, zlen_cons in Hf.
  unfold route in *. destruct (nlt _ (of_Z 1)); eapply IH; try done;
    rewrite ?zlen_app, ?zlen_one, ?zlen_cons; lia.
Qed.
End Pairing.

(** Setting the probability of the entries that are left. *)
Definition filled (js : list Z) st st' : Prop :=
  P st' = P st /\ alias_table st' = alias_table st /\
  forall i, alias_probability st' !! i =
    if decide (Z.of_nat i ∈ js) then Some (of_Z 1) else alias_probability st !! i.

Lemma filled_cons st st1 st2 st3 js x :
  in_range x -> zlen (alias_probability st) = n ->
  same_table st st1 -> set_prob st1 x (of_Z 1) = Some st2 -> filled js st2 st3 ->
  filled (x :: js) st st3.
Proof.
  intros Hx Hz (E1&E2&E3) Hs (F1&F2&F3). unfold set_prob, in_range in *.
  rewrite put_Some in Hs by (rewrite E2; lia). cbn in Hs. injection Hs as <-. cbn in *.
  split_and!; try congruence. intros i. rewrite F3, E2.
  destruct (decide (Z.of_nat i = x)) as [<-|Hne].
  - rewrite (decide_True (P := _ ∈ _ :: _)) by (by left). destruct (decide _); [done|].
    rewrite Nat2Z.id. apply list_lookup_insert_eq. unfold zlen in Hz. lia.
  - rewrite list_lookup_insert_ne by lia.
    destruct (decide (Z.of_nat i ∈ js)); [rewrite decide_True by (by right); done|].
    rewrite decide_False; [done|]. rewrite elem_of_cons. tauto.
Qed.

Lemma fill_one st st1 x ss ls :
  in_range x -> rep st1 ss ls -> same_table st st1 ->
  exists st2, set_prob st1 x (of_Z 1) = Some st2 /\ rep st2 ss ls.
Proof.
  intros Hx [] _. unfold set_prob, in_range in *. rewrite put_Some by lia. cbn.
  eexists. split; [done|]. split; cbn; auto. unfold zlen in *. by rewrite length_insert.
Qed.

Lemma small_loop_ok fuel st ss ls :
  rep st ss ls -> Forall in_range ss -> zlen ss < Z.of_nat fuel ->
  exists st', small_loop fuel st = Some st' /\ rep st' [] ls /\ filled (rev ss) st st'.
Proof.
  revert st ss. induction fuel as [|fuel IH]; intros st ss Hr Hs Hf.
  { pose proof (zlen_nonneg ss). lia. }
  cbn [small_loop]. rewrite (small_empty _ _ _ Hr).
  induction ss as [|x ss _] using rev_ind; [exists st; by split_and!|].
  rewrite bool_decide_eq_false_2 by (by destruct ss). cbn [negb].
  apply Forall_app in Hs as [Hs Hx]. rewrite Forall_singleton in Hx.
  destruct (pop_small_ok _ _ _ _ Hr) as (s1&->&R1&Hst). cbn.
  destruct (fill_one st s1 x ss ls Hx R1 Hst) as (s2&E&R2). rewrite E. cbn.
  rewrite zlen_app, zlen_one in Hf. destruct (IH s2 ss R2 Hs) as (s3&->&R3&F3); [lia|].
  exists s3. split_and!; [done..|]. rewrite rev_unit.
  eapply filled_cons; [done|apply Hr|done|done|done].
Qed.

Lemma large_loop_ok fuel st ls :
  rep st [] ls -> Forall in_range ls -> zlen ls < Z.of_nat fuel ->
  exists st', large_loop fuel n st = Some st' /\ rep st' [] [] /\ filled ls st st'.
Proof.
  revert st ls. induction fuel as [|fuel IH]; intros st ls Hr Hs Hf.
  { pose proof (zlen_nonneg ls). lia. }
  cbn [large_loop]. rewrite (large_empty _ _ _ Hr).
  destruct ls as [|x ls]; [exists st; split_and!; [done..|by split_and!]|].
  rewrite bool_decide_eq_false_2 by done. cbn [negb].
  apply Forall_cons_iff in Hs as [Hx Hs].
  destruct (pop_large_ok _ _ _ _ Hr) as (s1&->&R1&Hst). cbn.
  destruct (fill_one st s1 x [] ls Hx R1 Hst) as (s2&E&R2). rewrite E. cbn.
  rewrite zlen_cons in Hf. destruct (IH s2 ls R2 Hs) as (s3&->&R3&F3); [lia|].
  exists s3. split_and!; [done..|]. eapply filled_cons; [done|apply Hr|done|done|done].
Qed.

(** ** The whole table *)

Definition start (p : list num) : alias_st num :=
  let zeros := replicate (Z.to_nat n) 0 in
  AliasSt p zeros zeros 0 (u32 (n - 1)) (replicate (Z.to_nat n) (of_Z 0)) zeros.

Lemma start_rep p : zlen p = n -> rep (start p) [] [].
Proof.
  intros Hp. split; cbn; try done; rewrite ?zlen_replicate by lia; try done; try lia.
  - change (zlen (@nil Z)) with 0. f_equal. lia.
  - change (zlen (@nil Z)) with 0. rewrite Z.sub_0_r. apply drop_ge. rewrite length_replicate. lia.
  - change (0 + 0 <= n). lia.
Qed.

(** The end of the function: whatever the pairing loop left is filled. *)
Lemma fill_rest fuel st ss ls :
  rep st ss ls -> Forall in_range (ss ++ ls) -> n < Z.of_nat fuel ->
  exists st', (st ← small_loop fuel st; large_loop fuel n st) = Some st' /\
    rep st' [] [] /\ filled (ls ++ rev ss) st st'.
Proof.
  intros Hr Hrg Hf. apply Forall_app in Hrg as [Hs Hl]. pose proof (rep_size _ _ _ Hr).
  pose proof (zlen_nonneg ss). pose proof (zlen_nonneg ls).
  destruct (small_loop_ok fuel st ss ls Hr Hs) as (s1&->&R1&(E1&E2&E3)); [lia|]. cbn.
  destruct (large_loop_ok fuel s1 ls R1 Hl) as (s2&->&R2&(F1&F2&F3)); [lia|].
  exists s2. split_and!; [done..|]. split_and!; try congruence.
  intros i. rewrite F3, E3. destruct (decide (Z.of_nat i ∈ ls)) as [Hi|Hi].
  - by rewrite decide_True by (apply elem_of_app; by left).
  - destruct (decide (Z.of_nat i ∈ rev ss)) as [Hj|Hj].
    + by rewrite decide_True by (apply elem_of_app; by right).
    + rewrite decide_False; [done|]. rewrite elem_of_app. tauto.
Qed.

(** The table [p] gives, for an invariant of the pairing loop. *)
Lemma fill_table_ok (I : alias_st num -> list Z -> list Z -> Prop) fuel p :
  zlen p = n -> n < Z.of_nat fuel ->
  (forall st ss ls, I st ss ls -> Forall in_range (ss ++ ls)) ->
  (forall st ss x y ls p q st',
    rep st (ss ++ [x]) (y :: ls) -> I st (ss ++ [x]) (y :: ls) ->
    P st !! Z.to_nat x = Some p -> P st !! Z.to_nat y = Some q ->
    let r := nsub q (nsub (of_Z 1) p) in paired st st' x y p r ->
    let '(ss', ls') := route r y ss ls in I st' ss' ls') ->
  (forall st ss ls, rep st ss ls -> same_table (start p) st -> ss ++ ls ≡ₚ seqZ 0 n ->
    Forall (low st) ss -> Forall (high st) ls -> I st ss ls) ->
  exists st ss ls st', I st ss ls /\ rep st ss ls /\ (ss = [] \/ ls = []) /\
    fill_table fuel p = Some st' /\ rep st' [] [] /\ filled (ls ++ rev ss) st st'.
Proof.
  intros Hp Hf Hrange Hstep Hstart. unfold fill_table. rewrite Hp.
  fold (start p). destruct (split_loop_ok (Z.to_nat n) (start p) [] [])
    as (s1&ss&ls&->&R1&Hst&Hs&Hl&Hperm); [by apply start_rep|done|done| |].
  { change (zlen (@nil Z)) with 0. lia. }
  cbn.
  rewrite app_nil_r, Z2Nat.id in Hperm by lia.
  pose proof (rep_size _ _ _ R1).
  destruct (pair_loop_ok I Hrange Hstep fuel s1 ss ls R1) as (s2&ss2&ls2&->&R2&I2&He);
    [by apply Hstart|lia|]. cbn.
  destruct (fill_rest fuel s2 ss2 ls2 R2) as (s3&E3&R3&F3); [by eapply Hrange|done|].
  exists s2, ss2, ls2, s3. split_and!; done.
Qed.
End Stacks.

(** ** Lengths *)

Section Lengths.
Context {num lnum : Type} `{Arith num lnum}.
Abbreviation entry := (score_entry num).

Lemma weight_loop_length a us bm ln (todo done : list entry) sum queue' sum' :
  weight_loop a us bm ln done todo sum = Some (queue', sum') ->
  length queue' = (length done + length todo)%nat.
Proof.
  revert done sum. induction todo as [|q todo IH]; intros done sum E; cbn in E.
  { simplify_eq. cbn. lia. }
  destruct (e_disabled q).
  - apply IH in E. rewrite length_app in E. cbn in *. lia.
  - destruct (entry_weight _ _ _ _ _) as [w|]; [|done]. cbn in E.
    destruct (calculate_score _ _ _) as [[p q2]|]; [|done]. cbn in E.
    apply IH in E. rewrite length_app in E. cbn in *. lia.
Qed.

Lemma perf_loop_length a (todo done : list entry) sum queue' sum' :
  perf_loop a done todo sum = Some (queue', sum') ->
  length queue' = (length done + length todo)%nat.
Proof.
  revert done sum. induction todo as [|q todo IH]; intros done sum E; cbn in E.
  { simplify_eq. cbn. lia. }
  destruct (e_disabled q).
  - apply IH in E. rewrite length_app in E. cbn in *. lia.
  - destruct (calculate_score _ _ _) as [[p q2]|]; [|done]. cbn in E.
    apply IH in E. rewrite length_app in E. cbn in *. lia.
Qed.

Lemma mmopt_length a (queue : list entry) : length (mmopt_boost a queue) = length queue.
Proof.
  unfold mmopt_boost. destruct (_ && _); [|done].
  by rewrite length_app, length_fmap, <- length_app, take_drop.
Qed.

Lemma weigh_length a (queue queue' : list entry) p :
  weigh a queue = Some (queue', p) -> zlen queue' = zlen queue /\ zlen p = zlen queue.
Proof.
  unfold weigh, shares, zlen. destruct (s_schedule a <? RARE).
  - destruct (averages _ _ _ _ _) as [[[us bm] ln] n].
    destruct (weight_loop _ _ _ _ _ _ _) as [[q s]|] eqn:E; [|done]. cbn. intros [= <- <-].
    apply weight_loop_length in E. rewrite length_fmap, mmopt_length, E. done.
  - destruct (perf_loop _ _ _ _) as [[q s]|] eqn:E; [|done]. cbn. intros [= <- <-].
    apply perf_loop_length in E. rewrite length_fmap, E. done.
Qed.

Lemma fill_table_safe fuel (p : list num) :
  0 < zlen p < 2 ^ 31 -> zlen p < Z.of_nat fuel ->
  exists st, fill_table fuel p = Some st /\ zlen (alias_probability st) = zlen p /\
    zlen (alias_table st) = zlen p /\ Forall (in_range (zlen p)) (alias_table st).
Proof.
  intros Hn Hf.
  destruct (fill_table_ok (zlen p) Hn
    (fun st ss ls => Forall (in_range (zlen p)) (ss ++ ls) /\
       Forall (in_range (zlen p)) (alias_table st)) fuel p)
    as (st&ss&ls&st'&[_ Ha]&_&_&E&R&F); [done|done|tauto| | |].
  - intros st ss x y ls v q st' Hr [Hrg Ha] _ _ r Hpr.
    apply Forall_app in Hrg as [Hss Hls]. apply Forall_app in Hss as [Hss _].
    apply Forall_cons_iff in Hls as [Hy Hls].
    assert (Forall (in_range (zlen p)) (alias_table st')) as Ha'.
    { rewrite (paired_alias _ _ _ _ _ _ Hpr). by apply Forall_insert. }
    unfold route. destruct (nlt r (of_Z 1)); (split; [|done]);
      repeat (apply Forall_app; split); auto.
  - intros st ss ls Hr (_&_&->) Hp _ _. split.
    + rewrite Hp. apply Forall_lookup. intros k i Hk%list_elem_of_lookup_2%elem_of_seqZ.
      unfold in_range. lia.
    + cbn. apply Forall_replicate. unfold in_range. lia.
  - exists st'. destruct F as (_&F2&_). destruct R. split_and!; [done..|]. by rewrite F2.
Qed.
End Lengths.

(** For every arithmetic, rounding or not: once the weights are known,
    [create_alias_table] stays inside its arrays and terminates, and every draw from
    the table yields an entry of the queue. *)
Theorem alias_table_safe {num lnum} `{Arith num lnum} fuel a (queue queue' : list (score_entry num)) p :
  0 < zlen queue < 2 ^ 31 -> zlen queue < Z.of_nat fuel -> weigh a queue = Some (queue', p) ->
  exists st, create_alias_table fuel a queue = Some (queue', st) /\
    forall s v, 0 <= s < zlen queue ->
      exists i, select_next_queue_entry st s v = Some i /\ 0 <= i < zlen queue.
Proof.
  intros Hn Hf Hw. destruct (weigh_length _ _ _ _ Hw) as [_ Hp].
  destruct (fill_table_safe fuel p) as (st&E&H1&H2&H3); [lia|lia|].
  unfold create_alias_table. rewrite Hw. cbn. rewrite E. cbn. exists st. split; [done|].
  intros s v Hs. unfold select_next_queue_entry.
  destruct (get_Some (alias_probability st) s) as [q ->]; [lia|].
  destruct (get_Some (alias_table st) s) as [t Ht]; [lia|]. rewrite Ht. cbn.
  eexists. split; [done|]. apply get_inv in Ht as [_ Ht].
  pose proof (Forall_lookup_1 _ _ _ _ H3 Ht) as Hr. unfold in_range in Hr.
  destruct (nlt v q); lia.
Qed.
