(* ===== verification/AliasExact.v ===== *)
(** * The alias table in exact arithmetic

    With the rationals in place of [double], the table built from [P] makes each entry
    come up exactly in proportion to its weight. *)

From Stdlib Require Import Lqa.
From S2P Require Import Prelude Queue Score Alias AliasFacts.
Local Open Scope Q_scope.

(** ** Sums *)

Fixpoint qsum {A} (f : A -> Q) (l : list A) : Q :=
  match l with
  | [] => 0
  | x :: l => f x + qsum f l
  end.

Lemma qsum_app {A} (f : A -> Q) l k : qsum f (l ++ k) == qsum f l + qsum f k.
Proof. induction l as [|x l IH]; cbn; [lra|]. rewrite IH. lra. Qed.

Lemma qsum_perm {A} (f : A -> Q) l k : l ≡ₚ k -> qsum f l == qsum f k.
Proof. induction 1; cbn; lra. Qed.

Lemma qsum_ext {A} (f g : A -> Q) l : (forall x, x ∈ l -> f x == g x) -> qsum f l == qsum g l.
Proof.
  induction l as [|x l IH]; intros E; cbn; [lra|].
  rewrite (E x) by (by left). rewrite IH; [lra|]. intros. apply E. by right.
Qed.

Lemma qsum_zero {A} (f : A -> Q) l : (forall x, x ∈ l -> f x == 0) -> qsum f l == 0.
Proof.
  induction l as [|x l IH]; intros E; cbn; [lra|].
  rewrite (E x) by (by left). rewrite IH; [lra|]. intros. apply E. by right.
Qed.

Lemma inject_S n : inject_Z (Z.of_nat (S n)) == 1 + inject_Z (Z.of_nat n).
Proof. rewrite Nat2Z.inj_succ. unfold Z.succ. rewrite inject_Z_plus. change (inject_Z 1) with 1. lra. Qed.

(** Values that are all at least 1 and have the average 1 are all 1. *)
Lemma qsum_ge {A} (f : A -> Q) l :
  (forall x, x ∈ l -> 1 <= f x) -> inject_Z (zlen l) <= qsum f l.
Proof.
  unfold zlen. induction l as [|x l IH]; intros Hl; [apply Qle_refl|].
  cbn [length qsum]. rewrite inject_S. specialize (Hl x ltac:(by left)) as Hx.
  assert (inject_Z (Z.of_nat (length l)) <= qsum f l) by (apply IH; intros; apply Hl; by right).
  lra.
Qed.

Lemma qsum_ones {A} (f : A -> Q) l :
  (forall x, x ∈ l -> 1 <= f x) -> qsum f l == inject_Z (zlen l) -> forall x, x ∈ l -> f x == 1.
Proof.
  unfold zlen. induction l as [|y l IH]; intros Hl Hs x Hx; [by apply elem_of_nil in Hx|].
  cbn [length qsum] in Hs. rewrite inject_S in Hs.
  assert (forall x, x ∈ l -> 1 <= f x) as Hl' by (intros; apply Hl; by right).
  pose proof (Hl y ltac:(by left)). pose proof (qsum_ge f l Hl') as Hge. unfold zlen in Hge.
  apply elem_of_cons in Hx as [->|Hx]; [lra|]. apply IH; [done| |done]. lra.
Qed.

Lemma qsum_lt {A} (f : A -> Q) l :
  (forall x, x ∈ l -> f x < 1) -> qsum f l == inject_Z (zlen l) -> l = [].
Proof.
  intros Hl Hs. destruct l as [|y l]; [done|exfalso].
  assert (forall k : list A, (forall x, x ∈ k -> f x < 1) -> qsum f k <= inject_Z (zlen k)) as Hle.
  { unfold zlen. induction k as [|x k IH]; intros Hk; [apply Qle_refl|].
    cbn [length qsum]. rewrite inject_S. pose proof (Hk x ltac:(by left)).
    assert (qsum f k <= inject_Z (Z.of_nat (length k))) by (apply IH; intros; apply Hk; by right).
    lra. }
  pose proof (Hl y ltac:(by left)). pose proof (Hle l ltac:(intros; apply Hl; by right)) as Hle'.
  unfold zlen in *. cbn [length qsum] in Hs. rewrite inject_S in Hs. lra.
Qed.

(** ** Exact arithmetic *)

Section Exact.
Context (lg lg2 lg10 : Q -> Q).

Definition Qlt_bool (x y : Q) : bool := negb (Qle_bool y x).

(** Conversion truncates towards zero. *)
Definition Qto_u32 (x : Q) : option Z :=
  if Qlt_bool (inject_Z (-1)) x && Qlt_bool x (inject_Z (2 ^ 32)) then
    Some (if Qlt_bool x 0 then 0%Z else Qfloor x)
  else None.

#[export] Instance Qarith : Arith Q Q := {|
  of_Z := inject_Z;
  lit := fun a b => inject_Z a / inject_Z b;
  nadd := Qplus;
  nsub := Qminus;
  nmul := Qmult;
  ndiv := Qdiv;
  nlt := Qlt_bool;
  nle := Qle_bool;
  to_u32 := Qto_u32;
  nlog := lg;
  nlog2 := lg2;
  nlog10 := lg10;
  l_zero := 0;
  l_add := Qplus;
  l_div := fun x n => x / inject_Z n;
  l_lt := Qlt_bool
|}.

Lemma Qlt_bool_true x y : Qlt_bool x y = true <-> x < y.
Proof.
  unfold Qlt_bool. rewrite negb_true_iff. split.
  - intros E. apply Qnot_le_lt. intros Hle. apply Qle_bool_iff in Hle. congruence.
  - intros Hlt. destruct (Qle_bool y x) eqn:E; [|done]. apply Qle_bool_iff in E. lra.
Qed.

Lemma Qlt_bool_false x y : Qlt_bool x y = false <-> y <= x.
Proof. unfold Qlt_bool. rewrite negb_false_iff. apply Qle_bool_iff. Qed.

(** ** Invariant of the pairing loop *)

Definition qat (l : list Q) (i : Z) : Q := default 0 (l !! Z.to_nat i).
Definition zat (l : list Z) (i : Z) : Z := default 0%Z (l !! Z.to_nat i).

Lemma qat_insert l x v i :
  (0 <= x < zlen l)%Z -> (0 <= i)%Z ->
  qat (<[Z.to_nat x := v]> l) i = if (i =? x)%Z then v else qat l i.
Proof.
  intros Hx Hi. unfold qat. destruct (i =? x)%Z eqn:E; b2p.
  - subst. rewrite list_lookup_insert_eq by (unfold zlen in Hx; lia). done.
  - by rewrite list_lookup_insert_ne by lia.
Qed.

Lemma zat_insert l x v i :
  (0 <= x < zlen l)%Z -> (0 <= i)%Z ->
  zat (<[Z.to_nat x := v]> l) i = if (i =? x)%Z then v else zat l i.
Proof.
  intros Hx Hi. unfold zat. destruct (i =? x)%Z eqn:E; b2p.
  - subst. rewrite list_lookup_insert_eq by (unfold zlen in Hx; lia). done.
  - by rewrite list_lookup_insert_ne by lia.
Qed.

(** What the entries [d] pass on to entry [i]. *)
Definition given (st : alias_st Q) (d : list Z) (i : Z) : Q :=
  qsum (fun j => if (zat (alias_table st) j =? i)%Z then 1 - qat (alias_probability st) j else 0) d.

(** The chance of entry [i], times the number of entries: its own slot, and what the
    others pass on. *)
Definition share (n : Z) (st : alias_st Q) (i : Z) : Q :=
  qat (alias_probability st) i + given st (seqZ 0 n) i.

Record exact (n : Z) (p : list Q) (d : list Z) (st : alias_st Q) (ss ls : list Z) : Prop := Exact {
  ex_perm : d ++ ss ++ ls ≡ₚ seqZ 0 n;
  ex_open : forall i, i ∈ ss ++ ls -> qat p i == qat (P st) i + given st d i;
  ex_done : forall i, i ∈ d -> qat p i == qat (alias_probability st) i + given st d i /\
    0 <= qat (alias_probability st) i <= 1;
  ex_low : forall i, i ∈ ss -> 0 <= qat (P st) i < 1;
  ex_high : forall i, i ∈ ls -> 1 <= qat (P st) i;
  ex_sum : qsum (qat (P st)) (ss ++ ls) == inject_Z (zlen (ss ++ ls))
}.

Lemma nodup_cons_inv (x : Z) l : NoDup (x :: l) -> (x ∉ l) /\ NoDup l.
Proof. by inversion 1. Qed.

Lemma elem_seqZ_range n l i : l ≡ₚ seqZ 0 n -> i ∈ l -> (0 <= i < n)%Z.
Proof. intros E Hi. rewrite E in Hi. apply elem_of_seqZ in Hi. lia. Qed.

Lemma given_paired n st st' d x y v r ss ls i :
  rep n st ss ls -> paired st st' x y v r -> x ∉ d -> (forall j, j ∈ x :: d -> (0 <= j < n)%Z) ->
  given st' (x :: d) i == (if (y =? i)%Z then 1 - v else 0) + given st d i.
Proof.
  intros Hr [_ E1 E2] Hx Hd. unfold given. cbn [qsum]. rewrite E1, E2.
  pose proof (Hd x ltac:(by left)) as Hxr.
  rewrite zat_insert, qat_insert, Z.eqb_refl;
    [|rewrite (rep_prob _ _ _ _ Hr); lia|lia|rewrite (rep_alias _ _ _ _ Hr); lia|lia].
  apply Qplus_inj_l, qsum_ext. intros j Hj. pose proof (Hd j ltac:(by right)).
  rewrite zat_insert, qat_insert;
    [|rewrite (rep_prob _ _ _ _ Hr); lia|lia|rewrite (rep_alias _ _ _ _ Hr); lia|lia].
  rewrite (proj2 (Z.eqb_neq j x)) by congruence. lra.
Qed.

(** The stacks as a multiset: [x] has left, [y] may have changed sides. *)
Lemma route_elems r y ss ls ss' ls' :
  route r y ss ls = (ss', ls') -> ss' ++ ls' ≡ₚ y :: ss ++ ls.
Proof.
  unfold route. destruct (nlt r (of_Z 1)); intros [= <- <-].
  - rewrite <- app_assoc. cbn. by rewrite <- Permutation_middle.
  - by rewrite <- Permutation_middle.
Qed.

Lemma open_perm (x y : Z) d ss ls :
  d ++ (ss ++ [x]) ++ y :: ls ≡ₚ x :: y :: d ++ ss ++ ls.
Proof.
  rewrite <- (app_assoc ss). cbn. rewrite <- (Permutation_middle ss).
  rewrite <- (Permutation_middle d). constructor.
  rewrite <- (Permutation_middle ss). by rewrite <- (Permutation_middle d).
Qed.

Section Step.
Context (n : Z) (p : list Q) (d : list Z) (st st' : alias_st Q) (ss ls : list Z) (x y : Z) (v q : Q).
Context (Hr : rep n st (ss ++ [x]) (y :: ls)) (Hex : exact n p d st (ss ++ [x]) (y :: ls)).
Context (Hv : P st !! Z.to_nat x = Some v) (Hq : P st !! Z.to_nat y = Some q).
Context (Hpr : paired st st' x y v (q - (1 - v))).

Lemma step_perm : x :: y :: d ++ ss ++ ls ≡ₚ seqZ 0 n.
Proof. rewrite <- open_perm. apply Hex. Qed.

Lemma step_nodup : NoDup (x :: y :: d ++ ss ++ ls).
Proof. rewrite step_perm. apply NoDup_seqZ. Qed.

Lemma step_range i : i ∈ x :: y :: d ++ ss ++ ls -> (0 <= i < n)%Z.
Proof. apply elem_seqZ_range, step_perm. Qed.

Lemma step_v : qat (P st) x = v /\ qat (P st) y = q /\ 0 <= v < 1 /\ 1 <= q.
Proof.
  assert (qat (P st) x = v) as Ex by (unfold qat; by rewrite Hv).
  assert (qat (P st) y = q) as Ey by (unfold qat; by rewrite Hq).
  split_and!; [done..| | |].
  - rewrite <- Ex. apply (ex_low _ _ _ _ _ _ Hex). apply elem_of_app. right. by left.
  - rewrite <- Ex. apply (ex_low _ _ _ _ _ _ Hex). apply elem_of_app. right. by left.
  - rewrite <- Ey. apply (ex_high _ _ _ _ _ _ Hex). by left.
Qed.

(** The new values. *)
Lemma step_P i : (0 <= i)%Z -> qat (P st') i = if (i =? y)%Z then q - (1 - v) else qat (P st) i.
Proof.
  intros Hi. rewrite (paired_P _ _ _ _ _ _ Hpr). apply qat_insert; [|done].
  rewrite (rep_P _ _ _ _ Hr). apply step_range. right. by left.
Qed.

Lemma step_prob i :
  (0 <= i)%Z -> qat (alias_probability st') i = if (i =? x)%Z then v else qat (alias_probability st) i.
Proof.
  intros Hi. rewrite (paired_prob _ _ _ _ _ _ Hpr). apply qat_insert; [|done].
  rewrite (rep_prob _ _ _ _ Hr). apply step_range. by left.
Qed.

Lemma step_given i :
  given st' (x :: d) i == (if (y =? i)%Z then 1 - v else 0) + given st d i.
Proof.
  eapply given_paired; [exact Hr|exact Hpr| |].
  - pose proof step_nodup as Hn. apply nodup_cons_inv in Hn as [Hx _]. intros Hd. apply Hx.
    right. apply elem_of_app. by left.
  - intros j Hj. apply step_range. apply elem_of_cons in Hj as [->|Hj]; [by left|].
    right. right. apply elem_of_app. by left.
Qed.

Lemma step_open i : i ∈ y :: ss ++ ls -> qat p i == qat (P st') i + given st' (x :: d) i.
Proof.
  intros Hi. destruct step_v as (_&Ey&_). pose proof step_range as Hrg.
  rewrite step_given, step_P by (apply Hrg; revert Hi; rewrite !elem_of_cons, !elem_of_app; tauto).
  assert (qat p i == qat (P st) i + given st d i) as E.
  { apply (ex_open _ _ _ _ _ _ Hex). rewrite elem_of_app, elem_of_app, !elem_of_cons.
    rewrite elem_of_cons, elem_of_app in Hi. tauto. }
  rewrite (Z.eqb_sym y). destruct (i =? y)%Z eqn:Eq; b2p; [subst i|]; rewrite E; [rewrite Ey|]; lra.
Qed.

Lemma step_done i : i ∈ x :: d ->
  qat p i == qat (alias_probability st') i + given st' (x :: d) i /\
  0 <= qat (alias_probability st') i <= 1.
Proof.
  intros Hi. destruct step_v as (Ex&_&Hv1&_). pose proof step_range as Hrg.
  pose proof step_nodup as Hn. apply nodup_cons_inv in Hn as [Hx Hn]. apply nodup_cons_inv in Hn as [Hy _].
  rewrite step_given, step_prob by (apply Hrg; revert Hi; rewrite !elem_of_cons, !elem_of_app; tauto).
  rewrite (proj2 (Z.eqb_neq y i)).
  2: { intros <-. apply elem_of_cons in Hi as [->|Hi]; [by apply Hx; left|].
       apply Hy, elem_of_app. by left. }
  destruct (i =? x)%Z eqn:E; b2p.
  - subst i. split; [|lra]. rewrite Qplus_0_l, <- Ex. apply (ex_open _ _ _ _ _ _ Hex).
    apply elem_of_app. left. apply elem_of_app. right. by left.
  - apply elem_of_cons in Hi as [|Hi]; [done|]. rewrite Qplus_0_l. by apply (ex_done _ _ _ _ _ _ Hex).
Qed.

Lemma step_sum : qsum (qat (P st')) (y :: ss ++ ls) == inject_Z (zlen (y :: ss ++ ls)).
Proof.
  destruct step_v as (Ex&Ey&_). pose proof (ex_sum _ _ _ _ _ _ Hex) as Hs.
  pose proof step_nodup as Hn. apply nodup_cons_inv in Hn as [_ Hn]. apply nodup_cons_inv in Hn as [Hy _].
  assert ((ss ++ [x]) ++ y :: ls ≡ₚ x :: y :: ss ++ ls) as Hp by apply (open_perm x y []).
  rewrite (qsum_perm _ _ _ Hp) in Hs. unfold zlen in *. rewrite (Permutation_length Hp) in Hs.
  cbn [qsum length] in *. rewrite !inject_S in *. rewrite Ex, Ey in Hs.
  rewrite step_P, Z.eqb_refl by (apply step_range; right; by left).
  rewrite (qsum_ext _ (qat (P st)) (ss ++ ls)); [lra|].
  intros j Hj. rewrite step_P by (apply step_range; right; right; apply elem_of_app; by right).
  rewrite (proj2 (Z.eqb_neq j y)); [lra|]. intros ->. apply Hy, elem_of_app. by right.
Qed.

Lemma exact_step ss' ls' :
  route (num := Q) (q - (1 - v)) y ss ls = (ss', ls') -> exact n p (x :: d) st' ss' ls'.
Proof.
  intros Er. pose proof (route_elems _ _ _ _ _ _ Er) as Hp. destruct step_v as (_&_&Hv1&Hq1).
  pose proof step_nodup as Hn. apply nodup_cons_inv in Hn as [_ Hn]. apply nodup_cons_inv in Hn as [Hy _].
  assert (forall i, i ∈ ss ++ ls -> qat (P st') i = qat (P st) i) as Hsame.
  { intros i Hi. rewrite step_P by (apply step_range; right; right; apply elem_of_app; by right).
    rewrite (proj2 (Z.eqb_neq i y)); [done|]. intros ->. apply Hy, elem_of_app. by right. }
  assert (qat (P st') y = q - (1 - v)) as Hy'.
  { rewrite step_P, Z.eqb_refl by (apply step_range; right; by left). done. }
  assert (forall i, i ∈ ss -> 0 <= qat (P st') i < 1) as Hlow.
  { intros i Hi. rewrite Hsame by (apply elem_of_app; by left).
    apply (ex_low _ _ _ _ _ _ Hex), elem_of_app. by left. }
  assert (forall i, i ∈ ls -> 1 <= qat (P st') i) as Hhigh.
  { intros i Hi. rewrite Hsame by (apply elem_of_app; by right).
    apply (ex_high _ _ _ _ _ _ Hex). by right. }
  split.
  - rewrite Hp. rewrite <- step_perm. cbn. constructor. by rewrite <- Permutation_middle.
  - intros i Hi. apply step_open. by rewrite <- Hp.
  - apply step_done.
  - unfold route in Er. destruct (nlt _ _) eqn:Eb; injection Er as <- <-; [|done].
    apply Qlt_bool_true in Eb. cbn in Eb. intros i Hi. apply elem_of_app in Hi as [Hi|Hi]; [auto|].
    apply list_elem_of_singleton in Hi as ->. rewrite Hy'. split; [lra|exact Eb].
  - unfold route in Er. destruct (nlt _ _) eqn:Eb; injection Er as <- <-; [done|].
    apply Qlt_bool_false in Eb. cbn in Eb. intros i Hi. apply elem_of_cons in Hi as [->|Hi]; [|auto].
    rewrite Hy'. exact Eb.
  - rewrite (qsum_perm _ _ _ Hp), step_sum. unfold zlen. by rewrite (Permutation_length Hp).
Qed.
End Step.

(** ** The finished table *)

Lemma qsum_indices p : qsum (qat p) (seqZ 0 (zlen p)) == qsum (fun v => v) p.
Proof.
  induction p as [|v p IH] using rev_ind; [apply Qeq_refl|].
  unfold zlen in *. rewrite length_app. cbn [length]. rewrite Nat.add_1_r, seqZ_S, !qsum_app.
  cbn [qsum]. rewrite Z.add_0_l. unfold qat at 2.
  rewrite Nat2Z.id, lookup_app_r, Nat.sub_diag by lia. cbn.
  rewrite <- IH. rewrite (qsum_ext _ (qat p)); [lra|].
  intros i Hi%elem_of_seqZ. unfold qat. rewrite lookup_app_l by lia. lra.
Qed.

Lemma exact_start n p st ss ls :
  (0 < n)%Z -> zlen p = n -> Forall (Qle 0) p -> qsum (fun v => v) p == inject_Z n ->
  same_table (start n p) st -> ss ++ ls ≡ₚ seqZ 0 n ->
  Forall (low n st) ss -> Forall (high n st) ls -> exact n p [] st ss ls.
Proof.
  intros Hn Hl Hp Hs (EP&_&_) Hperm Hlow Hhigh. cbn in EP. split.
  - done.
  - intros i _. rewrite EP. cbn. lra.
  - intros i Hi. by apply elem_of_nil in Hi.
  - intros i (k&Hk)%list_elem_of_lookup_1. destruct (Forall_lookup_1 _ _ _ _ Hlow Hk) as [_ (v&Hv&Hlt)].
    unfold qat. rewrite Hv. apply Qlt_bool_true in Hlt. split; [|exact Hlt].
    rewrite EP in Hv. exact (Forall_lookup_1 _ _ _ _ Hp Hv).
  - intros i (k&Hk)%list_elem_of_lookup_1. destruct (Forall_lookup_1 _ _ _ _ Hhigh Hk) as [_ (v&Hv&Hlt)].
    unfold qat. rewrite Hv. apply Qlt_bool_false in Hlt. exact Hlt.
  - rewrite (qsum_perm _ _ _ Hperm), EP. rewrite <- Hl at 1. rewrite qsum_indices, Hs.
    unfold zlen. rewrite (Permutation_length Hperm), length_seqZ. rewrite Z2Nat.id by lia. lra.
Qed.

(** With the whole probability spent, only full entries are left. *)
Lemma exact_end n p d st ss ls :
  exact n p d st ss ls -> ss = [] \/ ls = [] -> ss = [] /\ forall i, i ∈ ls -> qat (P st) i == 1.
Proof.
  intros [_ _ _ Hlow Hhigh Hsum] He. assert (ss = []) as ->.
  { destruct He as [He|He]; [done|]. subst ls. rewrite app_nil_r in Hsum.
    apply (qsum_lt (qat (P st))); [|done]. intros x Hx. by apply Hlow. }
  split; [done|]. by apply qsum_ones.
Qed.

Lemma filled_at n st st' ls i :
  rep n st [] ls -> filled ls st st' -> (0 <= i)%Z ->
  qat (alias_probability st') i = if decide (i ∈ ls) then 1 else qat (alias_probability st) i.
Proof.
  intros _ (_&_&F) Hi. unfold qat. rewrite F, Z2Nat.id by done. by destruct (decide _).
Qed.

Lemma exact_share n p d st st' ls :
  rep n st [] ls -> exact n p d st [] ls -> (forall i, i ∈ ls -> qat (P st) i == 1) ->
  filled ls st st' -> forall i, (0 <= i < n)%Z ->
  share n st' i == qat p i /\ 0 <= qat (alias_probability st') i <= 1.
Proof.
  intros Hr Hex Hone Hf i Hi. pose proof (ex_perm _ _ _ _ _ _ Hex) as Hperm. cbn in Hperm.
  assert (NoDup (d ++ ls)) as Hnd by (rewrite Hperm; apply NoDup_seqZ).
  apply list.NoDup_app in Hnd as (_&Hdis&_).
  assert (forall j, j ∈ d ++ ls -> (0 <= j)%Z) as Hrg.
  { intros j Hj. apply (elem_seqZ_range n) in Hj; [lia|done]. }
  assert (given st' (seqZ 0 n) i == given st d i) as Hg.
  { unfold given. rewrite <- (qsum_perm _ _ _ Hperm), qsum_app.
    rewrite (qsum_zero _ ls), Qplus_0_r.
    - apply qsum_ext. intros j Hj. destruct (Hf) as (_&->&_).
      rewrite (filled_at n st st' ls) by (done || apply Hrg, elem_of_app; by left).
      rewrite decide_False by (by apply Hdis). lra.
    - intros j Hj. rewrite (filled_at n st st' ls) by (done || apply Hrg, elem_of_app; by right).
      rewrite decide_True by done. destruct (_ =? _)%Z; lra. }
  unfold share. rewrite Hg. rewrite (filled_at n st st' ls) by (done || lia).
  assert (i ∈ d ++ ls) as [Hd|Hl]%elem_of_app by (rewrite Hperm; apply elem_of_seqZ; lia).
  - rewrite decide_False by (by apply Hdis).
    destruct (ex_done _ _ _ _ _ _ Hex i Hd) as [E ?]. split; [|done]. by rewrite E.
  - rewrite decide_True by done. split; [|lra].
    rewrite (ex_open _ _ _ _ _ _ Hex i Hl), (Hone i Hl). lra.
Qed.

Lemma fill_table_exact fuel p :
  (0 < zlen p < 2 ^ 31)%Z -> (zlen p < Z.of_nat fuel)%Z ->
  Forall (Qle 0) p -> qsum (fun v => v) p == inject_Z (zlen p) ->
  exists st, fill_table fuel p = Some st /\ zlen (alias_probability st) = zlen p /\ zlen (alias_table st) = zlen p /\
    forall i, (0 <= i < zlen p)%Z ->
      share (zlen p) st i == qat p i /\ 0 <= qat (alias_probability st) i <= 1.
Proof.
  intros Hn Hf Hp Hs.
  destruct (fill_table_ok (zlen p) Hn (fun st ss ls => exists d, exact (zlen p) p d st ss ls) fuel p)
    as (st&ss&ls&st'&[d Hex]&R&He&E&R'&F); [done|done| | | |].
  - intros st ss ls [d Hex]. apply Forall_lookup. intros k i Hk%list_elem_of_lookup_2.
    apply (elem_seqZ_range (zlen p) (d ++ ss ++ ls)); [apply Hex|]. apply elem_of_app. by right.
  - intros st ss x y ls v q st' Hr [d Hex] Hv Hq r Hpr.
    destruct (route r y ss ls) as [ss' ls'] eqn:Er. exists (x :: d).
    exact (exact_step (zlen p) p d st st' ss ls x y v q Hr Hex Hv Hq Hpr ss' ls' Er).
  - intros st ss ls Hr Hst Hperm Hlow Hhigh. exists []. apply exact_start; done || lia.
  - destruct (exact_end _ _ _ _ _ _ Hex He) as [-> Hone]. exists st'. split_and!; [done|apply R'|apply R'|].
    cbn in F. rewrite app_nil_r in F. exact (exact_share (zlen p) p d st st' ls R Hex Hone F).
Qed.

(** ** The weights *)

Abbreviation entry := (score_entry Q).
Implicit Types (a : score_env) (q : entry).

(** What an entry counts, and all of them together. *)
Definition value a q : Q :=
  if e_disabled q then 0
  else if (s_schedule a <? RARE)%Z then e_weight q else e_perf_score q.

Definition total a (queue : list entry) : Q := qsum (value a) queue.

(** ** Draws

    [select_next_queue_entry] draws a slot [s] and a number [p].  [frequency N] is the part of
    the pairs with [p] one of [0/N], [1/N], .. [(N-1)/N] for which it returns [i]. *)
Definition percents (N : positive) : list Q := (fun k => k # N) <$> seqZ 0 (Zpos N).

Definition frequency (N : positive) (n : Z) (st : alias_st Q) (i : Z) : Q :=
  qsum (fun s => qsum (fun p => if bool_decide (select_next_queue_entry st s p = Some i) then 1 else 0) (percents N)) (seqZ 0 n)
  / (inject_Z n * inject_Z (Zpos N)).

(** A number of points that fits every probability of the table. *)
Definition fits (N : positive) (x : Q) : Prop := exists z, x * inject_Z (Zpos N) == inject_Z z.

Lemma fits_den (l : list Q) : exists N, forall m x, x ∈ l -> fits (N * m) x.
Proof.
  induction l as [|x l [N IH]]; [exists 1%positive; intros m y Hy; by apply elem_of_nil in Hy|].
  exists (Qden x * N)%positive. intros m y Hy. apply elem_of_cons in Hy as [->|Hy].
  - exists (Qnum x * Zpos (N * m))%Z. destruct x as [a b]. unfold Qeq. cbn. lia.
  - destruct (IH (Qden x * m)%positive y Hy) as [z Hz]. exists z. rewrite <- Hz.
    replace (N * (Qden x * m))%positive with (Qden x * N * m)%positive by lia. reflexivity.
Qed.

Lemma qsum_below (z : Z) n : (0 <= z <= Z.of_nat n)%Z ->
  qsum (fun k => if (k <? z)%Z then 1 else 0) (seqZ 0 (Z.of_nat n)) == inject_Z z.
Proof.
  revert z. induction n as [|n IH]; intros z Hz; [replace z with 0%Z by lia; reflexivity|].
  rewrite seqZ_S, qsum_app. cbn [qsum]. rewrite Z.add_0_l. destruct (decide (z = Z.of_nat (S n))) as [->|Hne].
  - rewrite (qsum_ext _ (fun k => if (k <? Z.of_nat n)%Z then 1 else 0)).
    + rewrite IH by lia. rewrite (proj2 (Z.ltb_lt _ _)) by lia. rewrite inject_S. lra.
    + intros k Hk%elem_of_seqZ. rewrite !(proj2 (Z.ltb_lt _ _)) by lia. lra.
  - rewrite IH by lia. rewrite (proj2 (Z.ltb_ge _ _)) by lia. lra.
Qed.

Lemma qsum_fmap {A B} (f : B -> Q) (g : A -> B) l : qsum f (g <$> l) = qsum (fun x => f (g x)) l.
Proof. induction l as [|x l IH]; [done|]. cbn. by rewrite <- IH. Qed.
Lemma qsum_plus {A} (f g : A -> Q) l : qsum (fun x => f x + g x) l == qsum f l + qsum g l.
Proof. induction l as [|x l IH]; cbn; [lra|]. rewrite IH. lra. Qed.
Lemma qsum_scale {A} c (f : A -> Q) l : qsum (fun x => c * f x) l == c * qsum f l.
Proof. induction l as [|x l IH]; cbn; [lra|]. rewrite IH. lra. Qed.
Lemma qsum_one {A} (l : list A) : qsum (fun _ => 1) l == inject_Z (zlen l).
Proof. unfold zlen. induction l as [|x l IH]; [reflexivity|]. cbn [qsum length]. rewrite IH, inject_S. lra. Qed.

(** The points below a probability. *)
Lemma count_points N x : 0 <= x <= 1 -> fits N x ->
  qsum (fun p => if Qlt_bool p x then 1 else 0) (percents N) == x * inject_Z (Zpos N).
Proof.
  intros Hx [z Hz]. unfold percents. rewrite qsum_fmap, Hz. assert (0 < inject_Z (Zpos N)) as HN by done.
  assert (0 <= z <= Zpos N)%Z as Hr.
  { rewrite !Zle_Qle, <- Hz. change (inject_Z 0) with 0. split; [apply Qmult_le_0_compat; lra|].
    rewrite <- (Qmult_1_l (inject_Z (Zpos N))) at 2. apply Qmult_le_compat_r; lra. }
  rewrite <- (qsum_below z (Pos.to_nat N)) by lia. rewrite positive_nat_Z. apply qsum_ext. intros k _.
  assert (k # N < x <-> (k < z)%Z) as Hk.
  { assert (inject_Z k == (k # N) * inject_Z (Zpos N)) as Ek by (unfold Qeq; cbn; lia). rewrite Zlt_Qlt, <- Hz, Ek.
    split; intros Hlt; [by apply Qmult_lt_compat_r|by apply Qmult_lt_r in Hlt]. }
  destruct (Qlt_bool _ _) eqn:E.
  - apply Qlt_bool_true, Hk in E. rewrite (proj2 (Z.ltb_lt _ _)) by done. lra.
  - destruct (k <? z)%Z eqn:E2; [|lra]. b2p. apply Hk in E2. apply Qlt_bool_true in E2. congruence.
Qed.

(** What a slot adds to the entry [i]. *)
Lemma slot_draws N st s i x t :
  get (alias_probability st) s = Some x -> get (alias_table st) s = Some t -> 0 <= x <= 1 -> fits N x ->
  qsum (fun p => if bool_decide (select_next_queue_entry st s p = Some i) then 1 else 0) (percents N) ==
  inject_Z (Zpos N) * ((if (s =? i)%Z then x else 0) + (if (t =? i)%Z then 1 - x else 0)).
Proof.
  intros Hp Ht Hx HN. pose proof (count_points N x Hx HN) as Hc.
  assert (zlen (percents N) = Zpos N) as Hl by (unfold percents, zlen; rewrite length_fmap, length_seqZ; lia).
  pose proof (qsum_one (percents N)) as H1. rewrite Hl in H1.
  rewrite (qsum_ext _ (fun p => (if (s =? i)%Z then 1 else 0) * (if Qlt_bool p x then 1 else 0) +
    (if (t =? i)%Z then 1 else 0) * (1 + -(1) * (if Qlt_bool p x then 1 else 0)))).
  - rewrite qsum_plus, !qsum_scale, qsum_plus, qsum_scale, Hc, H1. destruct (s =? i)%Z, (t =? i)%Z; lra.
  - intros p _. unfold select_next_queue_entry. rewrite Hp, Ht. cbn [mbind option_bind nlt Qarith].
    destruct (Qlt_bool p x); case_bool_decide as E; destruct (s =? i)%Z eqn:Es, (t =? i)%Z eqn:Et; b2p; try lra; congruence.
Qed.

Lemma qsum_single (f : Z -> Q) i l : NoDup l -> i ∈ l -> qsum (fun s => if (s =? i)%Z then f s else 0) l == f i.
Proof.
  induction 1 as [|x l Hx _ IH]; intros Hi; [by apply elem_of_nil in Hi|]. cbn [qsum]. apply elem_of_cons in Hi as [->|Hi].
  - rewrite Z.eqb_refl, qsum_zero; [lra|]. intros s Hs. rewrite (proj2 (Z.eqb_neq s x)); [lra|]. by intros ->.
  - rewrite IH by done. rewrite (proj2 (Z.eqb_neq x i)); [lra|]. by intros ->.
Qed.

(** The frequencies are the shares of the table. *)
Lemma frequency_share N n st i : (0 <= i < n)%Z ->
  zlen (alias_probability st) = n -> zlen (alias_table st) = n ->
  (forall s, (0 <= s < n)%Z -> 0 <= qat (alias_probability st) s <= 1) ->
  (forall x, x ∈ alias_probability st -> fits N x) ->
  frequency N n st i == share n st i / inject_Z n.
Proof.
  intros Hi Hp Ht Hx HN. unfold frequency. rewrite (qsum_ext _ (fun s => inject_Z (Zpos N) *
    ((if (s =? i)%Z then qat (alias_probability st) s else 0) + (if (zat (alias_table st) s =? i)%Z then 1 - qat (alias_probability st) s else 0)))).
  - rewrite qsum_scale, qsum_plus, qsum_single; [|apply NoDup_seqZ|apply elem_of_seqZ; lia]. unfold share, given.
    field. split; [intros E; apply (proj1 (inject_Z_injective _ 0)) in E; lia|done].
  - intros s Hs%elem_of_seqZ. destruct (get_Some (alias_probability st) s) as [x Ex]; [lia|].
    destruct (get_Some (alias_table st) s) as [t Et]; [lia|]. specialize (Hx s ltac:(lia)).
    pose proof (get_inv _ _ _ Ex) as [_ Lx]. pose proof (get_inv _ _ _ Et) as [_ Lt].
    unfold qat, zat in *. rewrite Lx in *. rewrite Lt. cbn [default] in *. apply slot_draws; try done.
    apply HN. by eapply list_elem_of_lookup_2.
Qed.

Context (lg10_nonneg : forall x, 1 <= x -> 0 <= lg10 x).

Lemma mul_pos x y : 0 < x -> 0 < y -> 0 < x * y.
Proof. intros. apply Qmult_lt_0_compat; done. Qed.

Lemma weight_steps_pos x w :
  0 < w -> 0 < time_weight x w /\ 0 < len_weight x w /\ 0 < bitmap_weight x w.
Proof.
  intros Hw. unfold time_weight, len_weight, bitmap_weight. split_and!;
    repeat cond_step; try done; apply mul_pos; done.
Qed.

Lemma entry_weight_pos a us bm ln q w :
  Forall is_u32 (s_n_fuzz a) -> entry_weight a us bm ln q = Some w -> 0 < w.
Proof.
  intros Hn. unfold entry_weight.
  destruct (hits_weight a q) as [w0|] eqn:E; [|done]. cbn. intros [= <-].
  assert (0 < w0) as H0.
  { unfold hits_weight in E. destruct (_ && _); [|by simplify_eq].
    destruct (get _ _) as [h|] eqn:Eh; [|done]. cbn in E. unfold z2b in E.
    destruct (h =? 0)%Z eqn:Ez; b2p; simplify_eq; [done|].
    apply get_inv in Eh as [_ Eh]. destruct (Forall_lookup_1 _ _ _ _ Hn Eh).
    pose proof (lg10_nonneg (inject_Z h)) as Hl. cbn. unfold Qdiv. rewrite Qmult_1_l.
    apply Qinv_lt_0_compat. change (inject_Z 1) with 1 in *.
    assert (1 <= inject_Z h) by (change 1 with (inject_Z 1); rewrite <- Zle_Qle; lia).
    specialize (Hl ltac:(done)). lra. }
  set (w1 := if (s_schedule a <? RARE)%Z then _ else _).
  assert (0 < w1) as H1 by (unfold w1; destruct (_ <? _)%Z; [by apply weight_steps_pos|done]).
  clearbody w1. destruct (weight_steps_pos (inject_Z (e_len q) / ln) w1 H1) as (_&H2&_).
  destruct (weight_steps_pos (inject_Z (e_bitmap_size q) / bm) _ H2) as (_&_&H3).
  cbn in H2, H3 |- *. destruct (e_was_fuzzed q), (e_fs_redundant q); repeat apply mul_pos; done.
Qed.

(** *** What the loops establish *)

Lemma calculate_score_disabled a queue q z q2 :
  calculate_score a queue q = Some (z, q2) -> e_disabled q2 = e_disabled q.
Proof.
  unfold calculate_score. destruct (bitmap_score _ _ _) as [z0|]; [|done]. cbn.
  destruct (handicap_score z0 q) as [z1 q1] eqn:Eh.
  assert (e_disabled q1 = e_disabled q) as Hq.
  { unfold handicap_score in Eh. repeat case_match; by simplify_eq. }
  destruct (schedule_score _ _ _ _) as [[z2 f]|]; [|done]. cbn.
  destruct (apply_factor _ _ _) as [z3|]; [|done]. cbn. by intros [= <- <-].
Qed.

(** The part of the queue that has been visited. *)
Definition visited (v : entry -> Q) (done : list entry) (sum : Q) : Prop :=
  sum == qsum (fun q => if e_disabled q then 0 else v q) done /\
  Forall (fun q => e_disabled q = false -> 0 <= v q) done.

Lemma visited_skip v done sum q :
  e_disabled q = true -> visited v done sum -> visited v (done ++ [q]) sum.
Proof.
  intros Hd [Hs Hf]. split.
  - rewrite qsum_app. cbn. rewrite Hd, <- Hs. lra.
  - apply Forall_app. split; [done|]. constructor; [|done]. congruence.
Qed.

Lemma visited_take v done sum q w :
  e_disabled q = false -> v q = w -> 0 <= w -> visited v done sum ->
  visited v (done ++ [q]) (sum + w).
Proof.
  intros Hd Hv Hw [Hs Hf]. split.
  - rewrite qsum_app. cbn. rewrite Hd, <- Hs, Hv. lra.
  - apply Forall_app. split; [done|]. constructor; [|done]. by rewrite Hv.
Qed.

Lemma weight_loop_exact a us bm ln todo done sum queue' sum' :
  Forall is_u32 (s_n_fuzz a) ->
  weight_loop a us bm ln done todo sum = Some (queue', sum') ->
  visited e_weight done sum -> visited e_weight queue' sum'.
Proof.
  intros Hn. revert done sum. induction todo as [|q todo IH]; intros done sum E Hv; cbn in E.
  { by simplify_eq. }
  destruct (e_disabled q) eqn:Hd; [eapply IH; [done|by apply visited_skip]|].
  destruct (entry_weight _ _ _ _ _) as [w|] eqn:Ew; [|done]. cbn in E.
  destruct (calculate_score _ _ _) as [[z q2]|] eqn:Ec; [|done]. cbn in E.
  apply calculate_score_disabled in Ec. eapply IH; [done|].
  apply visited_take; [cbn in *; congruence|done| |done].
  apply entry_weight_pos in Ew; [lra|done].
Qed.

Context (a : score_env) (Hmult : (0 <= s_havoc_max_mult a)%Z).

Lemma Qto_u32_nonneg x z : Qto_u32 x = Some z -> (0 <= z)%Z.
Proof.
  unfold Qto_u32. destruct (_ && _); [|done]. intros [= <-].
  destruct (Qlt_bool x 0) eqn:E; [done|]. apply Qlt_bool_false in E.
  apply (Qfloor_resp_le 0 x) in E. exact E.
Qed.

Lemma u32_nonneg z : (0 <= u32 z)%Z.
Proof. by apply wrap_range. Qed.

Lemma calculate_score_nonneg queue q z q2 :
  calculate_score a queue q = Some (z, q2) -> (0 <= z)%Z.
Proof.
  unfold calculate_score.
  assert (0 <= speed_score a (e_exec_us q) (u32 (s_total_cal_us a / or_one (s_total_cal_cycles a))))%Z
    as H0 by (unfold speed_score; repeat case_match; lia).
  destruct (bitmap_score _ _ _) as [z0|] eqn:E0; [|done]. cbn.
  assert (0 <= z0)%Z as H1.
  { unfold bitmap_score, scale in E0. repeat case_match; simplify_eq;
      auto using u32_nonneg; by eapply Qto_u32_nonneg. }
  destruct (handicap_score z0 q) as [z1 q1] eqn:E1.
  assert (0 <= z1)%Z as H2.
  { unfold handicap_score in E1. repeat case_match; simplify_eq; auto using u32_nonneg. }
  assert (0 <= depth_score z1 (e_depth q1))%Z as H3.
  { unfold depth_score. repeat case_match; auto using u32_nonneg. }
  destruct (schedule_score _ _ _ _) as [[z2 f]|] eqn:E2; [|done]. cbn.
  assert (0 <= z2)%Z as H4.
  { unfold schedule_score in E2. repeat case_match; simplify_eq; auto using u32_nonneg.
    all: apply bind_Some in E2 as (x&_&E2); simplify_eq; try done.
    apply bind_Some in E2 as (y&Hy&E2). simplify_eq. exact (Qto_u32_nonneg _ _ Hy). }
  destruct (apply_factor _ _ _) as [z3|] eqn:E3; [|done]. cbn. intros [= <- <-].
  assert (0 <= z3)%Z as H5.
  { unfold apply_factor in E3. case_match; [exact (Qto_u32_nonneg _ _ E3)|by simplify_eq]. }
  pose proof (u32_nonneg (z3 * 2)). unfold bound_score. repeat case_match; lia.
Qed.

Lemma perf_loop_exact todo done sum queue' sum' :
  perf_loop a done todo sum = Some (queue', sum') ->
  visited e_perf_score done sum -> visited e_perf_score queue' sum'.
Proof.
  revert done sum. induction todo as [|q todo IH]; intros done sum E Hv; cbn in E.
  { by simplify_eq. }
  destruct (e_disabled q) eqn:Hd; [eapply IH; [done|by apply visited_skip]|].
  destruct (calculate_score _ _ _) as [[z q2]|] eqn:Ec; [|done]. cbn in E.
  pose proof (calculate_score_nonneg _ _ _ _ Ec) as Hz.
  apply calculate_score_disabled in Ec. eapply IH; [done|].
  apply visited_take; [cbn in *; congruence|done| |done].
  change 0 with (inject_Z 0). by rewrite <- Zle_Qle.
Qed.

(** The shares are not negative and add up to the number of entries. *)
Lemma shares_exact v sum queue :
  visited v queue sum -> 0 < sum ->
  Forall (Qle 0) (shares v sum queue) /\
  qsum (fun x => x) (shares v sum queue) == inject_Z (zlen queue).
Proof.
  intros [Hs Hf] Hpos. unfold shares. set (n := inject_Z (zlen queue)).
  assert (0 <= n) as Hn.
  { unfold n. change 0 with (inject_Z 0). rewrite <- Zle_Qle. apply zlen_nonneg. }
  assert (0 <= / sum) as Hinv by (apply Qlt_le_weak, Qinv_lt_0_compat; done).
  split.
  - apply Forall_fmap. eapply Forall_impl; [|exact Hf]. intros q Hq. cbn.
    destruct (e_disabled q) eqn:Ed; [apply Qle_refl|]. unfold Qdiv.
    apply Qmult_le_0_compat; [apply Qmult_le_0_compat; [by apply Hq|exact Hn]|exact Hinv].
  - assert (forall l, qsum (fun x => x) ((fun q => if e_disabled q then of_Z 0 else
        ndiv (nmul (v q) (of_Z (zlen queue))) sum) <$> l) ==
      n / sum * qsum (fun q => if e_disabled q then 0 else v q) l) as Hl.
    { induction l as [|q l IH]; cbn; [ring|]. cbn in IH. rewrite IH. fold n.
      destruct (e_disabled q); unfold Qdiv; [change (inject_Z 0) with 0|]; ring. }
    rewrite Hl, <- Hs. field. intros E. rewrite E in Hpos. by apply Qlt_irrefl in Hpos.
Qed.

(** [P] holds the fair shares. *)
Definition fair (queue : list entry) (p : list Q) : Prop :=
  Forall (Qle 0) p /\ qsum (fun x => x) p == inject_Z (zlen p) /\
  forall i q, queue !! i = Some q ->
    qat p (Z.of_nat i) == value a q * inject_Z (zlen queue) / total a queue.

Lemma shares_fair v sum queue :
  visited v queue sum -> 0 < total a queue ->
  (forall q, value a q = if e_disabled q then 0 else v q) -> fair queue (shares v sum queue).
Proof.
  intros Hv Ht Hval. assert (sum == total a queue) as Hs.
  { destruct Hv as [-> _]. apply qsum_ext. intros q _. by rewrite Hval. }
  destruct (shares_exact v sum queue Hv) as [Hpos Hsum]; [by rewrite Hs|].
  assert (zlen (shares v sum queue) = zlen queue) as Hl.
  { unfold shares, zlen. by rewrite length_fmap. }
  split_and!; [done|by rewrite Hl|]. intros i q Hq. unfold qat, shares.
  rewrite Nat2Z.id, list_lookup_fmap, Hq. cbn. rewrite Hval.
  destruct (e_disabled q); [|by rewrite Hs]. change (inject_Z 0) with 0. unfold Qdiv. ring.
Qed.

Lemma weigh_fair queue queue' p :
  Forall is_u32 (s_n_fuzz a) -> (s_schedule a <> MMOPT \/ s_queued_discovered a = 0)%Z ->
  weigh a queue = Some (queue', p) -> 0 < total a queue' -> fair queue' p.
Proof.
  intros Hn Hm Hw Ht. unfold weigh in Hw. destruct (s_schedule a <? RARE)%Z eqn:Es.
  - destruct (averages _ _ _ _ _) as [[[us bm] ln] n].
    destruct (weight_loop _ _ _ _ _ _ _) as [[q' sum]|] eqn:Ew; [|done]. cbn in Hw.
    assert (mmopt_boost a q' = q') as Hb.
    { unfold mmopt_boost, z2b. destruct (_ && _) eqn:E; [|done]. b2p. lia. }
    rewrite Hb in Hw. injection Hw as <- <-. apply shares_fair; [|done|].
    + apply (weight_loop_exact _ _ _ _ _ _ _ _ _ Hn Ew). by split.
    + intros q. unfold value. by rewrite Es.
  - destruct (perf_loop _ _ _ _) as [[q' sum]|] eqn:Ew; [|done]. cbn in Hw.
    injection Hw as <- <-. apply shares_fair; [|done|].
    + apply (perf_loop_exact _ _ _ _ _ Ew). by split.
    + intros q. unfold value. by rewrite Es.
Qed.

(** C11. In exact arithmetic, unless the [MMOPT] boost applies and as long as the weights are not all
    zero, [create_alias_table] succeeds, and over all draws of [select_next_queue_entry] from the
    table, with the slot [s] below the number of entries and [p] one of the [N] points [k/N]
    below 1, each entry comes up with the frequency of its weight (or, from [RARE] on, of its
    score) over the sum of all; a disabled entry never.  This holds for every multiple [N] of some
    number that depends on the table. *)
Theorem alias_table_exact fuel queue queue' p :
  Forall is_u32 (s_n_fuzz a) -> (s_schedule a <> MMOPT \/ s_queued_discovered a = 0)%Z ->
  (0 < zlen queue < 2 ^ 31)%Z -> (zlen queue < Z.of_nat fuel)%Z ->
  weigh a queue = Some (queue', p) -> 0 < total a queue' ->
  exists st N, create_alias_table fuel a queue = Some (queue', st) /\
    forall m i q, queue' !! i = Some q ->
      frequency (N * m) (zlen queue) st (Z.of_nat i) == value a q / total a queue'.
Proof.
  intros Hn Hm Hq Hf Hw Ht. destruct (weigh_fair _ _ _ Hn Hm Hw Ht) as (Hp&Hs&Hv).
  destruct (weigh_length _ _ _ _ Hw) as [Hl1 Hl2].
  destruct (fill_table_exact fuel p) as (st&E&Lp&Lt&Hst); [lia|lia|done|done|].
  destruct (fits_den (alias_probability st)) as [N HN].
  unfold create_alias_table. rewrite Hw. cbn. rewrite E. cbn. exists st, N. split; [done|].
  intros m i q Hi. pose proof (lookup_lt_Some _ _ _ Hi) as Hlt.
  assert (0 <= Z.of_nat i < zlen p)%Z as Hr by (unfold zlen in *; lia).
  destruct (Hst (Z.of_nat i) Hr) as [Hsh _].
  rewrite <- Hl2, frequency_share; [|done|lia|lia|intros; by apply Hst|by apply HN].
  rewrite Hsh, (Hv i q Hi), Hl2, Hl1. field. split.
  - intros E0. rewrite E0 in Ht. by apply Qlt_irrefl in Ht.
  - intros E0. apply (proj1 (inject_Z_injective _ 0)) in E0. lia.
Qed.
End Exact.

(** ** Examples *)

Definition demo_env (sched disc : Z) : score_env :=
  ScoreEnv 200 2 20 2 sched false [1; 1]%Z 1 10 0 64 disc.
Definition demo_entry (len : Z) (dis : bool) : score_entry Q :=
  ScoreEntry len 10 0 0 100 0 1 1 true false false dis 0 0.
Definition demo_one : Q -> Q := fun _ => 1.

Definition demo_queue : list (score_entry Q) :=
  [demo_entry 10 false; demo_entry 10 true; demo_entry 100 false].

Lemma alias_table_exact_witness :
  exists queue' st N, create_alias_table (H := Qarith demo_one demo_one demo_one) 5
      (demo_env EXPLORE 1) demo_queue = Some (queue', st) /\ frequency demo_one demo_one demo_one (N * 1) 3 st 1 == 0.
Proof.
  destruct (alias_table_exact demo_one demo_one demo_one ltac:(done) (demo_env EXPLORE 1) ltac:(done)
    5 demo_queue _ _ ltac:(by repeat constructor) ltac:(by left) ltac:(done) ltac:(done)
    ltac:(vm_compute; reflexivity) ltac:(vm_compute; reflexivity)) as (st&N&Est&Hc).
  eexists _, st, N. split; [exact Est|].
  eapply Qeq_trans; [exact (Hc 1%positive 1%nat _ eq_refl)|]. vm_compute. reflexivity.
Defined.

Lemma alias_table_safe_witness :
  exists queue' st, create_alias_table (H := Qarith demo_one demo_one demo_one) 5
      (demo_env EXPLORE 1) demo_queue = Some (queue', st) /\
    exists i, select_next_queue_entry (H := Qarith demo_one demo_one demo_one) st 1 (1 # 2) = Some i.
Proof.
  destruct (alias_table_safe (H := Qarith demo_one demo_one demo_one) 5 (demo_env EXPLORE 1)
    demo_queue _ _ ltac:(done) ltac:(done) ltac:(vm_compute; reflexivity)) as (st&Est&Hs).
  eexists _, st. split; [exact Est|].
  destruct (Hs 1%Z (1 # 2)) as (i&Hi&_); [change (0 <= 1 < 3)%Z; lia|]. exists i. exact Hi.
Defined.

(** The [MMOPT] boost has no effect here: after one discovery the weight of the last
    of two equal entries is doubled, but [sum] still has the old weights, both shares are
    at least 1, and the table gives both entries the same chance instead of 1/3 and 2/3. *)
Theorem alias_table_mmopt :
  exists q0 q1 st,
    create_alias_table (H := Qarith demo_one demo_one demo_one) 5 (demo_env MMOPT 1)
      [demo_entry 10 false; demo_entry 10 false] = Some ([q0; q1], st) /\
    e_weight q1 == 2 * e_weight q0 /\ frequency demo_one demo_one demo_one 1 2 st 0 == 1 # 2 /\
    frequency demo_one demo_one demo_one 1 2 st 1 == 1 # 2.
Proof. vm_compute. eexists _, _, _. split; [reflexivity|]. split_and!; reflexivity. Qed.
