(* ===== verification/ScoreFacts.v ===== *)
(** * The score of a queue entry: bounds

    [calculate_score] in exact arithmetic: it always gives a score between the bounds of
    the havoc stage, and works the handicap off.  *)

From Stdlib Require Import Lqa.
From S2P Require Import Prelude Queue Score Alias AliasFacts AliasExact.

Section Bounds.
Context (lg lg2 lg10 : Q -> Q).
#[local] Instance exact_arith : Arith Q Q := Qarith lg lg2 lg10.
Implicit Types (a : score_env) (q : score_entry Q).

(** Multiplication by a small factor stays in range. *)
Lemma scale_ok p x m :
  (0 <= p)%Z -> (0 <= x)%Q -> (inject_Z p * x <= inject_Z m)%Q -> m < 2 ^ 32 ->
  exists z, scale p x = Some z /\ 0 <= z <= m.
Proof.
  intros Hp Hx Hm Hm2. unfold scale. cbn. unfold Qto_u32.
  assert (0 <= inject_Z p)%Q as Hp' by (change 0%Q with (inject_Z 0); by rewrite <- Zle_Qle).
  assert (0 <= inject_Z p * x)%Q as H0 by (by apply Qmult_le_0_compat).
  assert (inject_Z m < inject_Z (2 ^ 32))%Q as H1 by (by rewrite <- Zlt_Qlt).
  set (y := (inject_Z p * x)%Q) in *.
  rewrite (proj2 (Qlt_bool_true (inject_Z (-1)) y)) by (unfold inject_Z in *; lra).
  rewrite (proj2 (Qlt_bool_true y _)) by lra. cbn.
  rewrite (proj2 (Qlt_bool_false y 0)) by done. exists (Qfloor y). split; [done|].
  split; [apply (Qfloor_resp_le 0 y) in H0; exact H0|].
  rewrite <- (Qfloor_Z m). by apply Qfloor_resp_le.
Qed.

Lemma speed_score_range a x y : 10 <= speed_score a x y <= 300.
Proof. unfold speed_score. repeat case_match; lia. Qed.

Lemma inject_le x y : x <= y -> (inject_Z x <= inject_Z y)%Q.
Proof. by rewrite <- Zle_Qle. Qed.

Lemma bitmap_score_range p bs avg :
  0 <= p <= 300 -> exists z, bitmap_score p bs avg = Some z /\ 0 <= z <= 900.
Proof.
  intros Hp. pose proof (inject_le _ _ (proj2 Hp)) as Hq.
  assert (forall n d, (0 <= inject_Z n / inject_Z d <= 3)%Q ->
    exists z, scale p (lit n d) = Some z /\ 0 <= z <= 900) as Hs.
  { intros n d Hnd. apply scale_ok; [lia|apply Hnd| |lia]. cbn.
    pose proof (inject_le _ _ (proj1 Hp)) as Hq0. set (x := (_ / _)%Q) in *.
    unfold inject_Z in *. nra. }
  unfold bitmap_score. repeat case_match; try (eexists; split; [done|]; rewrite ?wrap_small; try split; lia);
    apply Hs; unfold Qle; cbn; lia.
Qed.

Lemma handicap_score_range p q :
  0 <= p <= 900 -> 0 <= e_handicap q ->
  exists z, handicap_score p q =
    (z, if e_handicap q =? 0 then q
        else set_handicap q (e_handicap q - (if 4 <=? e_handicap q then 4 else 1))) /\
  0 <= z <= 3600.
Proof.
  intros Hp Hh. unfold handicap_score, z2b. destruct (4 <=? e_handicap q) eqn:E; b2p.
  - rewrite (proj2 (Z.eqb_neq _ _)) by lia. rewrite wrap_small by (split; lia). eexists. split; [done|lia].
  - destruct (e_handicap q =? 0) eqn:E2; cbn; [eexists; split; [done|lia]|].
    rewrite wrap_small by (split; lia). eexists. split; [done|lia].
Qed.

Lemma depth_score_range p d : 0 <= p <= 3600 -> 0 <= depth_score p d <= 18000.
Proof. intros Hp. unfold depth_score. repeat case_match; rewrite ?wrap_small; try split; lia. Qed.

(** What the state gives the function. *)
Record score_ok a (queue : list (score_entry Q)) q : Prop := ScoreOk {
  so_schedule : 0 <= s_schedule a <= SEEK;
  so_mult : 1 <= s_havoc_max_mult a /\ s_havoc_max_mult a * 100 < 2 ^ 32;
  so_handicap : 0 <= e_handicap q;
  so_level : 0 <= e_fuzz_level q;
  so_ref : 0 <= e_tc_ref q < 2 ^ 28;
  so_fuzz : forall e, e = q \/ e ∈ queue ->
    exists n, get (s_n_fuzz a) (e_n_fuzz_entry e) = Some n /\ 1 <= n < 2 ^ 32 - 1 /\
      n <= s_total_execs a;
  so_log : forall n, 1 <= n < 2 ^ 32 -> (0 <= lg2 (inject_Z n) <= 32)%Q;
  so_queue : zlen queue < 2 ^ 32 /\ exists e, e ∈ queue /\ e_disabled e = false
}.

Lemma coe_sum_ok a queue mu n :
  (forall e, e ∈ queue -> exists k, get (s_n_fuzz a) (e_n_fuzz_entry e) = Some k) ->
  0 <= n -> n + zlen queue < 2 ^ 32 ->
  exists mu' n', coe_sum a queue mu n = Some (mu', n') /\ n <= n' /\
    ((exists e, e ∈ queue /\ e_disabled e = false) -> n < n').
Proof.
  revert mu n. induction queue as [|e queue IH]; intros mu n Hk Hn Hl; cbn.
  { exists mu, n. split; [done|]. split; [lia|]. intros (e&He&_). by apply elem_of_nil in He. }
  rewrite zlen_cons in Hl.
  assert (forall x, x ∈ queue -> exists k, get (s_n_fuzz a) (e_n_fuzz_entry x) = Some k) as Hk'
    by (intros; apply Hk; by right).
  destruct (e_disabled e) eqn:Hd.
  - destruct (IH mu n Hk') as (mu'&n'&E&?&Hx); [lia|lia|]. exists mu', n'. split; [done|].
    split; [done|]. intros (x&[->|Hin]%elem_of_cons&Hxd); [congruence|]. apply Hx. by exists x.
  - destruct (Hk e) as [k ->]; [by left|]. cbn. pose proof (zlen_nonneg queue).
    rewrite wrap_small by (split; lia).
    destruct (IH (mu + lg2 (inject_Z k))%Q (n + 1) Hk') as (mu'&n'&E&?&Hx); [lia|lia|].
    exists mu', n'. split; [exact E|]. lia.
Qed.

(** The factor of [FAST] is between 0.4 and 4.6. *)
Lemma fast_factor_ok a queue q :
  score_ok a queue q -> exists f, fast_factor a q = Some f /\ (0 <= f)%Q.
Proof.
  intros Hok. destruct (so_fuzz a queue q Hok q) as (n&Hn&Hr&_); [by left|].
  unfold fast_factor. destruct (negb _); [by exists (lit 1 1)|]. rewrite Hn. cbn [mbind option_bind].
  pose proof (so_log a queue q Hok n ltac:(lia)) as Hlog.
  destruct (scale_ok 1 (lg2 (inject_Z n)) 32) as (k&Hk&_); [lia|apply Hlog| |lia|].
  { change (inject_Z 1) with 1%Q. change (inject_Z 32) with 32%Q. lra. }
  assert (exists k, to_u32 (nlog2 (of_Z n)) = Some k) as (k'&->).
  { cbn. unfold scale in Hk. cbn in Hk. unfold Qto_u32 in *.
    destruct (Qlt_bool _ _ && Qlt_bool _ _) eqn:E; [|done].
    apply andb_true_iff in E as [E1%Qlt_bool_true E2%Qlt_bool_true].
    change (inject_Z 1) with 1%Q in *.
    rewrite (proj2 (Qlt_bool_true (inject_Z (-1)) _)) by lra.
    rewrite (proj2 (Qlt_bool_true _ (inject_Z (2 ^ 32)))) by lra. cbn. eauto. }
  cbn [mbind option_bind]. eexists. split; [done|].
  repeat case_match; unfold Qle; cbn; lia.
Qed.

Lemma coe_factor_ok a queue q :
  score_ok a queue q -> exists f, coe_factor a queue q = Some f /\ (0 <= f)%Q.
Proof.
  intros Hok. unfold coe_factor. destruct (negb _); [by exists (lit 1 1)|].
  destruct (so_queue a queue q Hok) as [Hl Hex].
  destruct (coe_sum_ok a queue l_zero 0) as (mu&n&->&_&Hn); [|lia|lia|].
  { intros e He. destruct (so_fuzz a queue q Hok e) as (k&?&_); [by right|]. by exists k. }
  cbn [mbind option_bind]. rewrite (proj2 (Z.eqb_neq _ _)) by (specialize (Hn Hex); lia).
  destruct (so_fuzz a queue q Hok q) as (k&->&_); [by left|]. cbn [mbind option_bind].
  destruct (l_lt _ _); [|by eapply fast_factor_ok].
  destruct (e_favored q); eexists; (split; [done|]); unfold Qle; cbn; lia.
Qed.

Lemma level_factor_ok a queue q level :
  score_ok a queue q -> 0 <= level ->
  exists f, level_factor a level q = Some f /\ (0 <= f)%Q.
Proof.
  intros Hok Hl. unfold level_factor. destruct (negb _); [by exists (lit 1 1)|].
  destruct (so_fuzz a queue q Hok q) as (n&->&Hr&_); [by left|]. cbn [mbind option_bind].
  rewrite wrap_small by (split; lia). rewrite (proj2 (Z.eqb_neq _ _)) by lia.
  eexists. split; [done|]. apply (inject_le 0), Z.div_pos; lia.
Qed.

Lemma share_range n t :
  1 <= n <= t -> (0 <= inject_Z 1 - inject_Z n / inject_Z t <= 1)%Q.
Proof.
  intros Hn. assert (0 < inject_Z t)%Q by (change 0%Q with (inject_Z 0); rewrite <- Zlt_Qlt; lia).
  assert (inject_Z n / inject_Z t <= 1)%Q.
  { apply Qle_shift_div_r; [done|]. rewrite Qmult_1_l. apply inject_le. lia. }
  assert (0 <= inject_Z n / inject_Z t)%Q.
  { apply Qle_shift_div_l; [done|]. rewrite Qmult_0_l. apply (inject_le 0). lia. }
  change (inject_Z 1) with 1%Q. lra.
Qed.

Lemma schedule_score_ok a queue q p :
  score_ok a queue q -> 0 <= p <= 18000 ->
  exists z f, schedule_score a queue q p = Some (z, f) /\ 0 <= z < 2 ^ 32 /\ (0 <= f)%Q /\
    (s_schedule a <> RARE -> s_schedule a <> MMOPT -> z = p).
Proof.
  intros Hok Hp. pose proof (so_schedule a queue q Hok) as Hs. unfold SEEK in Hs.
  assert ((0 <= lit 1 1)%Q) as H1 by (unfold Qle; cbn; lia).
  unfold schedule_score. destruct (_ || _) eqn:E0; [exists p, (lit 1 1); split_and!; try done; lia|].
  destruct (_ =? EXPLOIT) eqn:E1.
  { exists p, (of_Z MAX_FACTOR). split_and!; try done; lia. }
  destruct (_ =? COE) eqn:E2.
  { destruct (coe_factor_ok a queue q Hok) as (f&->&Hf). exists p, f. split_and!; try done; lia. }
  destruct (_ =? FAST) eqn:E3.
  { destruct (fast_factor_ok a queue q Hok) as (f&->&Hf). exists p, f. split_and!; try done; lia. }
  destruct (_ =? LIN) eqn:E4.
  { destruct (level_factor_ok a queue q (e_fuzz_level q) Hok) as (f&->&Hf); [apply Hok|].
    exists p, f. split_and!; try done; lia. }
  destruct (_ =? QUAD) eqn:E5.
  { destruct (level_factor_ok a queue q (u32 (e_fuzz_level q * e_fuzz_level q)) Hok) as (f&->&Hf);
      [apply u32_nonneg|]. exists p, f. split_and!; try done; lia. }
  destruct (_ =? MMOPT) eqn:Em; b2p.
  { exists (if u64 (s_max_depth a - e_depth q) <? 5 then u32 (p * 2) else p), (lit 1 1).
    rewrite (wrap_small 32) by (split; lia). split_and!; try done; first [intros; congruence | case_match; lia]. }
  destruct (_ =? RARE) eqn:Er; b2p.
  - pose proof (so_ref a queue q Hok). destruct (so_fuzz a queue q Hok q) as (n&->&Hn&Ht); [by left|].
    cbn [mbind option_bind]. rewrite (wrap_small 32 (e_tc_ref q * 10)) by (split; lia).
    rewrite wrap_small by (split; lia).
    destruct (scale_ok (p + e_tc_ref q * 10)
      (nsub (of_Z 1) (ndiv (of_Z n) (of_Z (s_total_execs a)))) (p + e_tc_ref q * 10))
      as (z&->&Hz); [lia| | |lia|].
    + cbn. apply share_range; lia.
    + cbn. pose proof (inject_le 0 (p + e_tc_ref q * 10) ltac:(lia)) as Hp0.
      destruct (share_range n (s_total_execs a)) as [_ Hs1]; [lia|].
      set (x := (_ - _)%Q) in *. set (y := inject_Z (_ + _)) in *.
      change (inject_Z 0) with 0%Q in Hp0. nra.
    + cbn. exists z, (lit 1 1). split_and!; try done; lia.
  - exfalso. unfold EXPLORE, EXPLOIT, COE, FAST, LIN, QUAD, MMOPT, RARE, SEEK in *. b2p. lia.
Qed.

Lemma apply_factor_ok a p f :
  0 <= p < 2 ^ 32 -> (0 <= f)%Q -> (EXPLOIT <= s_schedule a <= QUAD -> p <= 18000) ->
  exists z, apply_factor a p f = Some z /\ 0 <= z < 2 ^ 32.
Proof.
  intros Hp Hf Hs. unfold apply_factor. destruct (_ && _) eqn:E; [|by exists p].
  apply andb_true_iff in E as [E1%Z.leb_le E2%Z.leb_le]. specialize (Hs (conj E1 E2)).
  assert (forall g, (0 <= g <= 32)%Q ->
    exists z, scale p (ndiv g (of_Z POWER_BETA)) = Some z /\ 0 <= z < 2 ^ 32) as Hg.
  { intros g Hg. assert (ndiv g (of_Z POWER_BETA) == g)%Q as Hd.
    { cbn. change (inject_Z POWER_BETA) with 1%Q. field. }
    destruct (scale_ok p (ndiv g (of_Z POWER_BETA)) (18000 * 32)) as (z&->&Hz); [lia| | |lia|].
    - rewrite Hd. apply Hg.
    - rewrite Hd. pose proof (inject_le p 18000 ltac:(lia)). pose proof (inject_le 0 p ltac:(lia)).
      change (inject_Z (18000 * 32)) with 576000%Q. change (inject_Z 18000) with 18000%Q in *.
      change (inject_Z 0) with 0%Q in *. set (y := inject_Z p) in *. nra.
    - exists z. split; [done|lia]. }
  apply Hg. unfold gtZ. cbn. destruct (Qlt_bool _ f) eqn:E.
  - by vm_compute.
  - apply Qlt_bool_false in E. split; [done|]. exact E.
Qed.

Lemma bound_score_range a q p :
  1 <= s_havoc_max_mult a -> 0 <= p ->
  0 <= bound_score a q p <= s_havoc_max_mult a * 100 /\
  (s_schedule a <> COE -> s_limit_time_sig a = 0 -> 1 <= bound_score a q p).
Proof.
  intros Hm Hp. unfold bound_score. pose proof (u32_nonneg (p * 2)).
  split; [repeat case_match; b2p; lia|]. intros Hc ->. cbn.
  rewrite (proj2 (Z.eqb_neq _ _)) by done. cbn. repeat case_match; b2p; lia.
Qed.
(** C32. In exact arithmetic and for every power schedule, when the counters [n_fuzz] of
    the entries lie between 1 and [2^32 - 2] and are at most the number of executions,
    and the other conditions of [score_ok] hold (a positive [havoc_max_mult], fewer than
    [2^28] references, an enabled entry in the queue), [calculate_score] returns a
    score, without dividing by zero or leaving the range of a conversion, that is at
    most [havoc_max_mult * 100] and, outside of the schedule [COE] and of the MOpt mode,
    at least 1; and the only change to the entry is that a handicap of at least four is
    lowered by four and a smaller one by one. The base-2 logarithm need only map the
    32-bit counters to 0 .. 32. A counter of [2^32 - 1], for which LIN and QUAD divide
    by zero, and one of 0, whose logarithm cannot be converted, are excluded. *)
Theorem calculate_score_bounds a queue (q : score_entry Q) :
  score_ok a queue q ->
  exists p, calculate_score a queue q =
    Some (p, if e_handicap q =? 0 then q
             else set_handicap q (e_handicap q - (if 4 <=? e_handicap q then 4 else 1))) /\
    0 <= p <= s_havoc_max_mult a * 100 /\
    (s_schedule a <> COE -> s_limit_time_sig a = 0 -> 1 <= p).
Proof.
  intros Hok. unfold calculate_score.
  destruct (bitmap_score_range
    (speed_score a (e_exec_us q)
       (u32 (s_total_cal_us a / or_one (s_total_cal_cycles a)))) (e_bitmap_size q)
    (u32 (s_total_bitmap_size a / or_one (s_total_bitmap_entries a)))) as (z&->&Hz).
  { pose proof (speed_score_range a (e_exec_us q)
      (u32 (s_total_cal_us a / or_one (s_total_cal_cycles a)))). lia. }
  cbn [mbind option_bind].
  destruct (handicap_score_range z q Hz (so_handicap _ _ _ Hok)) as (z1&->&Hz1).
  set (q1 := if e_handicap q =? 0 then q else _).
  assert (score_ok a queue q1) as Hok1.
  { destruct Hok. unfold q1. case_match; [by constructor|]. constructor; try done.
    - cbn. case_match; b2p; lia.
    - intros e [->|He]; cbn; [by apply (so_fuzz0 q); left|by apply so_fuzz0; right]. }
  pose proof (depth_score_range z1 (e_depth q1) Hz1) as Hd.
  destruct (schedule_score_ok a queue q1 _ Hok1 Hd) as (z2&f&E&Hz2&Hf&Hsame).
  rewrite E. cbn [mbind option_bind].
  destruct (apply_factor_ok a z2 f) as (z3&E3&Hz3); [done|done| |].
  { unfold EXPLOIT, QUAD, RARE, MMOPT in *. intros Hs. rewrite Hsame by lia. lia. }
  rewrite E3. cbn [mbind option_bind].
  eexists. split; [done|]. apply bound_score_range; [apply Hok|lia].
Qed.
End Bounds.

(** An entry found late, under [FAST], in a queue of two. *)
Example calculate_score_witness :
  let lg2 (x : Q) := inject_Z (Z.log2 (Qfloor x)) in
  let e := ScoreEntry 10 20 3 1 100 6 5 2 true true false false 0%Q 0%Q in
  let a := ScoreEnv 1000 10 100 5 FAST false [9; 70] 6 5000 0 64 7 in
  exists p, calculate_score (H := exact_arith (fun x => x) lg2 (fun x => x)) a [e; e] e =
    Some (p, set_handicap e 2) /\ 1 <= p <= 6400.
Proof.
  intros lg2 e a.
  destruct (calculate_score_bounds (fun x => x) lg2 (fun x => x) a [e; e] e) as (p&Hp&Hr&H1).
  - constructor; try (cbn; unfold SEEK, FAST; lia).
    + intros x Hx. assert (x = e) as ->.
      { destruct Hx as [|Hx]; [done|]. rewrite !elem_of_cons, elem_of_nil in Hx. tauto. }
      exists 70. split; [reflexivity|]. cbn. lia.
    + intros n Hn. unfold lg2. rewrite Qfloor_Z. pose proof (Z.log2_nonneg n).
      assert (Z.log2 n < 32) by (apply Z.log2_lt_pow2; lia).
      split; [apply (inject_le 0)|apply (inject_le _ 32)]; lia.
    + split; [unfold zlen; cbn; lia|]. exists e. split; [left|reflexivity].
  - exists p. split; [exact Hp|]. split; [apply H1; [discriminate|reflexivity]|apply Hr].
Defined.
