(* ===== verification/HashMap.v ===== *)
(** * The hash table of the input-to-state stage

    [src/hashmap.c]: a chained table of 64-bit keys.  The table is the list of its
    buckets, a bucket the list of the keys of its chain from the head on; [None]
    stands for the null pointer [_hashmap] before the first [hashmap_reset], and for
    a write through a null pointer.  The abstract value of a table is the multiset of
    its keys. *)

From stdpp Require Import gmultiset.
From S2P Require Import Prelude.

(** ** The code *)

Definition TABLE_SIZE : Z := 10007.

Abbreviation HashMap := (list (list Z)).

Definition hashmap_reset (m : option HashMap) : HashMap :=
  match m with
  | None => replicate (Z.to_nat TABLE_SIZE) []
  | Some table => (fun _ => []) <$> table
  end.

Definition hash (key : Z) : Z := key mod TABLE_SIZE.

(** The key under which [type] and [key] are stored. *)
Definition typed_key (type key : Z) : Z :=
  u64 (Z.land key 0xf8ffffffffffffff + Z.shiftl type 56).

(** The walk along a chain. *)
Fixpoint chain_search (node : list Z) (key : Z) : bool :=
  match node with
  | [] => false
  | k :: next => if k =? key then true else chain_search next key
  end.

Definition hashmap_insert (key : Z) (m : option HashMap) : option HashMap :=
  table ← m;
  node ← get table (hash key);
  put table (hash key) (key :: node).

Definition hashmap_search (key : Z) (m : option HashMap) : option bool :=
  table ← m;
  node ← get table (hash key);
  Some (chain_search node key).

Definition hashmap_search_and_add (type key : Z) (m : option HashMap) :
  option (bool * option HashMap) :=
  if 8 <=? type then Some (false, m)
  else
    let val := typed_key type key in
    table ← m;
    node ← get table (hash val);
    if chain_search node val then Some (true, m)
    else
      table ← put table (hash val) (val :: node);
      Some (false, Some table).

(** The destination of the [memcpy] is the integer [key_t], which is 0, taken as an
    address: the store goes through a null pointer. *)
Definition hashmap_search_and_add_ptr (type : Z) (key : list Z) (m : option HashMap) :
  option (bool * option HashMap) :=
  if 8 <=? type then Some (false, m)
  else
    let key_t := 0 in
    _ ← load key 0 (type + 1);
    _ ← (if key_t =? 0 then None else Some tt);
    hashmap_search_and_add type key_t m.

(** Unlinking the first node with the key. *)
Fixpoint chain_delete (node : list Z) (key : Z) : list Z :=
  match node with
  | [] => []
  | k :: next => if k =? key then next else k :: chain_delete next key
  end.

Definition delete (key : Z) (m : option HashMap) : option HashMap :=
  table ← m;
  node ← get table (hash key);
  put table (hash key) (chain_delete node key).

(** ** Well-formed tables and their abstract value *)

(** Every key is in the bucket of its hash. *)
Record wf (t : HashMap) : Prop := Wf {
  wf_size : zlen t = TABLE_SIZE;
  wf_hash : forall i node k, t !! i = Some node -> k ∈ node -> Z.of_nat i = hash k
}.

Definition keys (t : HashMap) : gmultiset Z := list_to_set_disj (mjoin t).

Lemma hash_range k : 0 <= hash k < TABLE_SIZE.
Proof. apply Z.mod_pos_bound. done. Qed.

Lemma chain_search_spec node k : chain_search node k = true <-> k ∈ node.
Proof.
  induction node as [|x node IH]; cbn; [split; [done|by intros ?%not_elem_of_nil]|].
  rewrite elem_of_cons. destruct (x =? k) eqn:E; b2p; [by subst; tauto|].
  rewrite IH. split; [tauto|]. by intros [->|].
Qed.

Lemma chain_delete_spec node k :
  list_to_set_disj (chain_delete node k) = list_to_set_disj node ∖ {[+ k +]} :> gmultiset Z.
Proof.
  induction node as [|x node IH]; cbn [chain_delete].
  { rewrite list_to_set_disj_nil. multiset_solver. }
  rewrite list_to_set_disj_cons.
  destruct (x =? k) eqn:E; b2p; [subst; multiset_solver|]. rewrite list_to_set_disj_cons, IH.
  apply gmultiset_eq. intros y. repeat rewrite ?multiplicity_disj_union, ?multiplicity_difference.
  destruct (decide (y = k)) as [->|].
  - rewrite (multiplicity_singleton_ne k x) by done. lia.
  - rewrite (multiplicity_singleton_ne y k) by done. lia.
Qed.

Lemma chain_delete_sub node k x : x ∈ chain_delete node k -> x ∈ node.
Proof.
  induction node as [|y node IH]; cbn; [done|].
  rewrite elem_of_cons. destruct (y =? k); [by right|]. rewrite elem_of_cons. tauto.
Qed.

(** A bucket and the rest of the table. *)
Lemma keys_bucket t i node :
  t !! i = Some node ->
  exists rest, keys t = list_to_set_disj node ⊎ rest /\
    forall node', keys (<[i := node']> t) = list_to_set_disj node' ⊎ rest.
Proof.
  intros Hi. exists (list_to_set_disj (mjoin (take i t ++ drop (S i) t))).
  assert (forall n, keys (take i t ++ n :: drop (S i) t) =
    list_to_set_disj n ⊎ list_to_set_disj (mjoin (take i t ++ drop (S i) t))) as Hk.
  { intros n. unfold keys. rewrite !join_app.
    change (mjoin (n :: drop (S i) t)) with (n ++ mjoin (drop (S i) t)).
    rewrite !list_to_set_disj_app. multiset_solver. }
  split.
  - rewrite <- Hk. by rewrite take_drop_middle.
  - intros node'. rewrite <- Hk, insert_take_drop; [done|]. by eapply lookup_lt_Some.
Qed.

Lemma wf_get t k : wf t -> exists node, get t (hash k) = Some node /\ t !! Z.to_nat (hash k) = Some node.
Proof.
  intros [Hs _]. pose proof (hash_range k). destruct (get_Some t (hash k)) as [node Hn]; [lia|].
  exists node. split; [done|]. by apply get_inv in Hn as [_ ?].
Qed.

Lemma elem_of_keys t k node :
  wf t -> t !! Z.to_nat (hash k) = Some node -> k ∈ keys t <-> k ∈ node.
Proof.
  intros [_ Hh] Hn. unfold keys. rewrite elem_of_list_to_set_disj, list_elem_of_join. split.
  - intros (n&Hk&(i&Hi)%list_elem_of_lookup_1). pose proof (Hh i n k Hi Hk).
    replace i with (Z.to_nat (hash k)) in Hi by lia. congruence.
  - intros Hk. exists node. split; [done|]. by eapply list_elem_of_lookup_2.
Qed.

Lemma wf_put t k node node' :
  wf t -> t !! Z.to_nat (hash k) = Some node ->
  (forall x, x ∈ node' -> x = k \/ x ∈ node) ->
  put t (hash k) node' = Some (<[Z.to_nat (hash k) := node']> t) /\
  wf (<[Z.to_nat (hash k) := node']> t).
Proof.
  intros Ht Hn Hin. pose proof (hash_range k). destruct (Ht) as [Hs Hh].
  split; [apply put_Some; lia|]. split; [unfold zlen in *; by rewrite length_insert|].
  intros i n x Hi Hx. destruct (decide (i = Z.to_nat (hash k))) as [->|].
  - rewrite list_lookup_insert_eq in Hi by (by eapply lookup_lt_Some). simplify_eq.
    destruct (Hin x Hx) as [->|]; [lia|by eapply Hh].
  - rewrite list_lookup_insert_ne in Hi by done. by eapply Hh.
Qed.

(** ** Refinement of the multiset *)

Lemma wf_empty n : Z.of_nat n = TABLE_SIZE -> wf (replicate n []) /\ keys (replicate n []) = ∅.
Proof.
  intros Hn. split; [split|].
  - unfold zlen. by rewrite length_replicate.
  - intros i node k [-> _]%lookup_replicate Hk. by apply elem_of_nil in Hk.
  - unfold keys. clear Hn. induction n as [|n IH]; [done|]. exact IH.
Qed.

Lemma hashmap_reset_ok t :
  wf t -> wf (hashmap_reset (Some t)) /\ keys (hashmap_reset (Some t)) = ∅.
Proof.
  intros [Hs _]. cbn. rewrite (const_fmap (fun _ => []) t []) by done. by apply wf_empty.
Qed.

Lemma chain_search_keys t k node :
  wf t -> t !! Z.to_nat (hash k) = Some node -> chain_search node k = bool_decide (k ∈ keys t).
Proof.
  intros Ht Hn. apply eq_true_iff_eq.
  by rewrite chain_search_spec, bool_decide_eq_true, (elem_of_keys t k node).
Qed.

Lemma chain_insert_ok t k node :
  wf t -> t !! Z.to_nat (hash k) = Some node ->
  exists t', put t (hash k) (k :: node) = Some t' /\ wf t' /\ keys t' = {[+ k +]} ⊎ keys t.
Proof.
  intros Ht Hn. destruct (wf_put t k node (k :: node) Ht Hn) as [Hp Hw].
  { intros x. by rewrite elem_of_cons. }
  eexists. split_and!; [done..|]. destruct (keys_bucket t _ node Hn) as (rest&->&->).
  rewrite list_to_set_disj_cons. multiset_solver.
Qed.

Lemma delete_ok t k :
  wf t -> exists t', delete k (Some t) = Some t' /\ wf t' /\ keys t' = keys t ∖ {[+ k +]}.
Proof.
  intros Ht. destruct (wf_get t k Ht) as (node&Hg&Hn). cbn. rewrite Hg. cbn.
  destruct (wf_put t k node (chain_delete node k) Ht Hn) as [Hp Hw].
  { intros x Hx. right. by eapply chain_delete_sub. }
  eexists. split_and!; [done..|].
  pose proof (elem_of_keys t k node Ht Hn) as Hk.
  destruct (keys_bucket t _ node Hn) as (rest&Ek&->). rewrite Ek in *.
  rewrite chain_delete_spec. destruct (decide (k ∈ node)) as [Hin|Hni].
  - clear Hk. apply elem_of_list_to_set_disj in Hin. multiset_solver.
  - assert (k ∉ rest) by (intros Hr; apply Hni, Hk, gmultiset_elem_of_disj_union; by right).
    clear Hk.
    assert (k ∉ (list_to_set_disj node : gmultiset Z)) by (by rewrite elem_of_list_to_set_disj).
    multiset_solver.
Qed.

Lemma search_and_add_ok t type k :
  wf t -> type < 8 -> let v := typed_key type k in
  exists t', hashmap_search_and_add type k (Some t) = Some (bool_decide (v ∈ keys t), Some t') /\
    wf t' /\ keys t' = (if bool_decide (v ∈ keys t) then keys t else {[+ v +]} ⊎ keys t).
Proof.
  intros Ht Hty v. unfold hashmap_search_and_add. rewrite (proj2 (Z.leb_gt _ _)) by done. fold v.
  cbn. destruct (wf_get t v Ht) as (node&Hg&Hn). rewrite Hg. cbn.
  rewrite (chain_search_keys t) by done. case_bool_decide; [by exists t|].
  destruct (chain_insert_ok t v node Ht Hn) as (t'&->&?&?). by exists t'.
Qed.

(** C23. The hash table implements a multiset of keys: every operation succeeds on a
    well-formed table and keeps it so; [hashmap_reset] empties it, a search answers
    membership, an insertion adds one occurrence, [delete] removes one (if any), and
    [hashmap_search_and_add] answers whether the typed key is there and adds it if it
    is not. *)
Theorem hashmap_refines t :
  wf t ->
  (wf (hashmap_reset (Some t)) /\ keys (hashmap_reset (Some t)) = ∅) /\
  (wf (hashmap_reset None) /\ keys (hashmap_reset None) = ∅) /\
  (forall k, hashmap_search k (Some t) = Some (bool_decide (k ∈ keys t))) /\
  (forall k, exists t', hashmap_insert k (Some t) = Some t' /\ wf t' /\ keys t' = {[+ k +]} ⊎ keys t) /\
  (forall k, exists t', delete k (Some t) = Some t' /\ wf t' /\ keys t' = keys t ∖ {[+ k +]}) /\
  (forall type k, type < 8 -> let v := typed_key type k in
    exists t', hashmap_search_and_add type k (Some t) = Some (bool_decide (v ∈ keys t), Some t') /\
      wf t' /\ keys t' = (if bool_decide (v ∈ keys t) then keys t else {[+ v +]} ⊎ keys t)) /\
  (forall type k, 8 <= type -> hashmap_search_and_add type k (Some t) = Some (false, Some t)).
Proof.
  intros Ht. split; [by apply hashmap_reset_ok|]. split; [by apply wf_empty|]. split_and!.
  - intros k. destruct (wf_get t k Ht) as (node&Hg&Hn). cbn. rewrite Hg. cbn.
    by rewrite (chain_search_keys t).
  - intros k. destruct (wf_get t k Ht) as (node&Hg&Hn). cbn. rewrite Hg. by apply chain_insert_ok.
  - intros k. by apply delete_ok.
  - intros type k. by apply search_and_add_ok.
  - intros type k Hty. unfold hashmap_search_and_add. by rewrite (proj2 (Z.leb_le _ _)).
Qed.

Lemma hashmap_refines_witness :
  exists t1 t2, hashmap_insert 5 (Some (hashmap_reset None)) = Some t1 /\
    delete 5 (Some t1) = Some t2 /\ keys t2 = keys t1 ∖ {[+ 5 +]}.
Proof.
  assert (wf (hashmap_reset None)) as H0 by (by apply wf_empty).
  destruct (hashmap_refines _ H0) as (_&_&_&Hi&_&_&_).
  destruct (Hi 5) as (t1&E1&H1&_). exists t1.
  destruct (hashmap_refines t1 H1) as (_&_&_&_&Hd&_&_).
  destruct (Hd 5) as (t2&E2&_&E). by exists t2.
Defined.

(** ** Typed keys *)

Lemma typed_key_small type key :
  0 <= type < 8 -> 0 <= key < 2 ^ 56 -> typed_key type key = key + type * 2 ^ 56.
Proof.
  intros Ht Hk. unfold typed_key. rewrite Z.shiftl_mul_pow2 by lia.
  assert (Z.land key 0xf8ffffffffffffff = key) as ->.
  { apply Z.bits_inj'. intros i Hi. rewrite Z.land_spec.
    destruct (decide (i < 56)) as [Hlt|].
    - replace (Z.testbit 0xf8ffffffffffffff i) with (Z.testbit (Z.ones 56) i).
      + rewrite Z.ones_spec_low by lia. apply andb_true_r.
      + change 0xf8ffffffffffffff with (0xf8 * 2 ^ 56 + Z.ones 56).
        rewrite <- (Z.mod_pow2_bits_low (_ * _ + _) 56) by done.
        rewrite Z.add_comm, Z.mod_add by done. by rewrite Z.mod_pow2_bits_low.
    - rewrite (testbit_high 56 key) by (done || lia). done. }
  apply wrap_small. unfold in_width. lia.
Qed.

(** Keys of up to seven bytes are told apart, with their types; keys of eight bytes
    (type 7) are not: bits 56 to 58 are overwritten by the type, so that two of them can
    be taken for one another, and the first search of the second reports it as seen.
    The variant that takes a pointer stores through a null pointer and never answers. *)
Theorem typed_keys :
  (forall t1 k1 t2 k2, 0 <= t1 < 8 -> 0 <= t2 < 8 -> 0 <= k1 < 2 ^ 56 -> 0 <= k2 < 2 ^ 56 ->
    typed_key t1 k1 = typed_key t2 k2 <-> t1 = t2 /\ k1 = k2) /\
  (forall t, wf t -> exists t1,
    hashmap_search_and_add 7 (2 ^ 56) (Some t) = Some (bool_decide (7 * 2 ^ 56 ∈ keys t), Some t1) /\
    hashmap_search_and_add 7 (2 ^ 57) (Some t1) = Some (true, Some t1)) /\
  (forall type key m, type < 8 -> hashmap_search_and_add_ptr type key m = None).
Proof.
  split_and!.
  - intros. rewrite !typed_key_small by done. lia.
  - intros t Ht. destruct (search_and_add_ok t 7 (2 ^ 56) Ht ltac:(done)) as (t1&E&H1&K1).
    change (typed_key 7 (2 ^ 56)) with (7 * 2 ^ 56) in E, K1. exists t1. split; [done|].
    unfold hashmap_search_and_add. cbn -[typed_key put get].
    change (typed_key 7 (2 ^ 57)) with (7 * 2 ^ 56).
    destruct (wf_get t1 (7 * 2 ^ 56) H1) as (node&->&Hn). cbn -[Z.pow].
    rewrite (chain_search_keys t1), bool_decide_eq_true_2; [done| |done|done].
    rewrite K1. case_bool_decide; [done|]. multiset_solver.
  - intros type key m Hty. unfold hashmap_search_and_add_ptr.
    rewrite (proj2 (Z.leb_gt _ _)) by done. by destruct (load _ _ _).
Qed.

Lemma typed_keys_witness :
  typed_key 3 10 <> typed_key 3 11 /\
  hashmap_search_and_add_ptr 3 [1; 2; 3; 4] (Some (hashmap_reset None)) = None.
Proof.
  destruct typed_keys as (Hinj&_&Hptr). split; [|by apply Hptr].
  intros [_ ?]%Hinj; done.
Defined.
