(* ===== verification/Cache.v ===== *)
(** * The test case cache

    [queue_testcase_get], [queue_testcase_store_mem], [queue_testcase_retake] and
    [queue_testcase_retake_mem] of [src/afl-fuzz-queue.c].  A pointer to a queue entry is
    its index; the file behind an entry is the field [c_file], and a file shorter than
    the length asked for ends the process, as [ck_read] does. *)

From S2P Require Import Prelude Res Rng.

(** ** State *)

(** [c_low]: the weight of the entry is below 1.0; [c_buf] is [testcase_buf]. *)
Record centry := CEntry {
  c_len : Z;
  c_file : list Z;
  c_low : bool;
  c_buf : option (list Z)
}.

Record cache_st := CacheSt {
  c_queue : list centry;
  c_slots : list (option nat);
  c_max_size : Z;
  c_max_entries : Z;
  c_size : Z;
  c_max_count : Z;
  c_count : Z;
  c_smallest_free : Z;
  c_evictions : Z;
  c_queue_cur : nat;
  c_do_once : bool;
  c_testcase_buf : list Z;
  c_splicecase_buf : list Z
}.

(** The buffer a pointer returned by [queue_testcase_get] points to. *)
Inductive bufptr :=
| InEntry (q : nat)
| InTestcase
| InSplicecase.

#[export] Instance bufptr_eq_dec : EqDecision bufptr.
Proof. solve_decision. Defined.

Definition deref (s : cache_st) (p : bufptr) : option (list Z) :=
  match p with
  | InEntry q => e ← c_queue s !! q; c_buf e
  | InTestcase => Some (c_testcase_buf s)
  | InSplicecase => Some (c_splicecase_buf s)
  end.

Definition set_buf (e : centry) (b : option (list Z)) : centry :=
  CEntry (c_len e) (c_file e) (c_low e) b.

Definition with_buf (s : cache_st) (q : nat) (b : option (list Z)) : cache_st :=
  CacheSt (alter (fun e => set_buf e b) q (c_queue s)) (c_slots s) (c_max_size s)
    (c_max_entries s) (c_size s) (c_max_count s) (c_count s) (c_smallest_free s)
    (c_evictions s) (c_queue_cur s) (c_do_once s) (c_testcase_buf s) (c_splicecase_buf s).

Definition with_size (s : cache_st) (n : Z) : cache_st :=
  CacheSt (c_queue s) (c_slots s) (c_max_size s) (c_max_entries s) n (c_max_count s)
    (c_count s) (c_smallest_free s) (c_evictions s) (c_queue_cur s) (c_do_once s)
    (c_testcase_buf s) (c_splicecase_buf s).

(** [ck_read(fd, buf, len, fname)] *)
Definition read_file (e : centry) (len : Z) : res (list Z) :=
  match load (c_file e) 0 len with Some b => Ret b | None => Exit end.

Definition entry_of (s : cache_st) (q : nat) : res centry := of_option (c_queue s !! q).

(** ** Eviction *)

(** The condition of the outer loop. *)
Definition cache_full (s : cache_st) (len : Z) : bool :=
  ((c_max_size s <=? u64 (c_size s + len)) && (1 <? c_count s))
  || (u32 (c_max_entries s - 1) <=? c_count s).

(** The limit on the entries that is learned once; the array is cut or, by one element
    of unspecified content [junk], extended. *)
Definition learn_limit (junk : option nat) (s : cache_st) (len : Z) : cache_st :=
  if (c_max_size s <=? u64 (c_size s + len))
     && ((c_count s <? c_max_entries s) && (c_max_count s <? c_max_entries s))
     && negb (c_do_once s)
  then
    let m := if c_count s <? c_max_count s then u32 (c_max_count s + 1)
             else u32 (c_count s + 1) in
    let slots := take (Z.to_nat (m + 1)) (c_slots s) in
    CacheSt (c_queue s)
      (slots ++ replicate (Z.to_nat (m + 1) - length slots) junk) (c_max_size s) m (c_size s)
      (c_max_count s) (c_count s) (c_smallest_free s) (c_evictions s) (c_queue_cur s) true
      (c_testcase_buf s) (c_splicecase_buf s)
  else s.

Section Random.
Context {R : Type} `{RandSource R}.

(** The inner loop: a random slot that is in use, not by the current entry. *)
Fixpoint pick (fuel : nat) (s : cache_st) (r : R) : res (Z * nat * R) :=
  match fuel with
  | O => NoFuel
  | S fuel =>
      match rs_below (c_max_count s) r with
      | None => NoFuel
      | Some (tid, r) =>
          slot ← of_option (get (c_slots s) tid);
          match slot with
          | None => pick fuel s r
          | Some q => if (q =? c_queue_cur s)%nat then pick fuel s r else Ret (tid, q, r)
          end
      end
  end.

(** The entry [q] in slot [tid] leaves the cache. *)
Definition evict (s : cache_st) (tid : Z) (q : nat) : res cache_st :=
  e ← entry_of s q;
  let s := with_buf s q None in
  slots ← of_option (put (c_slots s) tid None);
  Ret (CacheSt (c_queue s) slots (c_max_size s) (c_max_entries s)
         (u64 (c_size s - c_len e)) (c_max_count s) (u32 (c_count s - 1))
         (if tid <? c_smallest_free s then tid else c_smallest_free s)
         (u32 (c_evictions s + 1)) (c_queue_cur s) (c_do_once s)
         (c_testcase_buf s) (c_splicecase_buf s)).

Fixpoint evict_loop (n fuel : nat) (junk : option nat) (len tid : Z) (s : cache_st) (r : R) :
  res (Z * cache_st * R) :=
  match n with
  | O => NoFuel
  | S n =>
      if cache_full s len then
        let s := learn_limit junk s len in
        '(tid, q, r) ← pick fuel s r;
        s ← evict s tid q;
        evict_loop n fuel junk len tid s r
      else Ret (tid, s, r)
  end.
End Random.

(** ** Registration *)

(** [while (afl->q_testcase_cache[tid] != NULL) ++tid;] *)
Fixpoint find_free (fuel : nat) (slots : list (option nat)) (tid : Z) : res Z :=
  match fuel with
  | O => NoFuel
  | S fuel =>
      slot ← of_option (get slots tid);
      match slot with
      | None => Ret tid
      | Some _ => find_free fuel slots (u32 (tid + 1))
      end
  end.

(** The buffer [b] of [len] bytes of entry [q] enters the cache at [tid]. *)
Definition register (s : cache_st) (q : nat) (b : list Z) (len tid : Z) : res cache_st :=
  let s := with_buf s q (Some b) in
  slots ← of_option (put (c_slots s) tid (Some q));
  Ret (CacheSt (c_queue s) slots (c_max_size s) (c_max_entries s) (u64 (c_size s + len))
         (if c_max_count s <=? tid then u32 (tid + 1) else c_max_count s)
         (u32 (c_count s + 1))
         (if negb (c_max_count s <=? tid) && (tid =? c_smallest_free s)
          then u32 (tid + 1) else c_smallest_free s)
         (c_evictions s) (c_queue_cur s) (c_do_once s) (c_testcase_buf s) (c_splicecase_buf s)).

(** ** The operations *)

Definition with_scratch (s : cache_st) (tc sp : list Z) : cache_st :=
  CacheSt (c_queue s) (c_slots s) (c_max_size s) (c_max_entries s) (c_size s) (c_max_count s)
    (c_count s) (c_smallest_free s) (c_evictions s) (c_queue_cur s) (c_do_once s) tc sp.

Definition queue_testcase_get {R} `{RandSource R} (n fuel : nat) (junk : option nat)
  (s : cache_st) (q : nat) (r : R) : res (bufptr * cache_st * R) :=
  e ← entry_of s q;
  match c_buf e with
  | Some _ => Ret (InEntry q, s, r)
  | None =>
      let len := c_len e in
      if c_low e || (c_max_size s =? 0) then
        b ← read_file e len;
        if (q =? c_queue_cur s)%nat
        then Ret (InTestcase, with_scratch s b (c_splicecase_buf s), r)
        else Ret (InSplicecase, with_scratch s (c_testcase_buf s) b, r)
      else
        '(tid, s, r) ← evict_loop n fuel junk len (c_max_count s) s r;
        let tid := if c_max_entries s <=? tid then c_smallest_free s else tid in
        tid ← find_free (S (length (c_slots s))) (c_slots s) tid;
        b ← read_file e len;
        s ← register s q b len tid;
        Ret (InEntry q, s, r)
  end.

Definition queue_testcase_store_mem (s : cache_st) (q : nat) (mem : list Z) : res cache_st :=
  e ← entry_of s q;
  let len := c_len e in
  if c_low e || (c_max_size s <=? u64 (c_size s + len))
     || (u32 (c_max_entries s - 1) <=? c_count s)
  then Ret s
  else
    let tid := if c_max_entries s <=? c_max_count s then c_smallest_free s
               else c_max_count s in
    tid ← find_free (S (length (c_slots s))) (c_slots s) tid;
    b ← of_option (load mem 0 len);
    register s q b len tid.

(** [realloc] to [n] bytes: a prefix is kept, new bytes are [junk]. *)
Definition resize (junk : Z) (b : list Z) (n : Z) : list Z :=
  take (Z.to_nat n) b ++ replicate (Z.to_nat n - length b) junk.

(** The file has changed to [len q] bytes; [old_len] was its length before.  The
    difference of the two lengths is taken in [u32] and added in [u64]. *)
Definition queue_testcase_retake (junk : Z) (s : cache_st) (q : nat) (old_len : Z) :
  res cache_st :=
  e ← entry_of s q;
  match c_buf e with
  | None => Ret s
  | Some b =>
      let len := c_len e in
      let '(s, b) :=
        if (old_len <? len) || (u32 (len + 1024) <? old_len)
        then (with_size s (u64 (c_size s + u32 (len - old_len))), resize junk b len)
        else (s, b) in
      f ← read_file e len;
      b ← of_option (store b 0 f);
      Ret (with_buf s q (Some b))
  end.

(** [inb] is the new data, or [None] when it already is in [testcase_buf]. *)
Definition queue_testcase_retake_mem (junk : Z) (s : cache_st) (q : nat)
  (inb : option (list Z)) (len old_len : Z) : res cache_st :=
  e ← entry_of s q;
  match c_buf e, inb with
  | None, _ => Ret s
  | Some _, None => Ret s
  | Some b, Some m =>
      let '(s, b) :=
        if u32 (len + 1024) <? old_len
        then (with_size s (u64 (c_size s + u32 (len - old_len))), resize junk b len)
        else (s, b) in
      f ← of_option (load m 0 len);
      b ← of_option (store b 0 f);
      Ret (with_buf s q (Some b))
  end.
