(* ===== verification/CacheFacts.v ===== *)
(** * The test case cache: invariant, round trip, accounting *)

From S2P Require Import Prelude Res Rng Cache.

(** ** The invariant *)

(** The entries in the slots that count. *)
Definition occ_of (m : Z) (slots : list (option nat)) : list nat :=
  omap id (take (Z.to_nat m) slots).
Definition occ (s : cache_st) : list nat := occ_of (c_max_entries s) (c_slots s).

Definition cached (s : cache_st) (q : nat) : Prop :=
  exists e b, c_queue s !! q = Some e /\ c_buf e = Some b.

(** A buffer holds the file. *)
Definition holds (e : centry) (b : list Z) : Prop :=
  c_len e <= zlen b /\ slice b 0 (c_len e) = slice (c_file e) 0 (c_len e).

Definition entry_ok (e : centry) : Prop :=
  0 <= c_len e < 2 ^ 31 /\ c_len e <= zlen (c_file e) /\
  forall b, c_buf e = Some b -> holds e b.

Record cache_wf (s : cache_st) : Prop := CacheWf {
  cw_room : c_max_entries s <= zlen (c_slots s);
  cw_entries : 3 <= c_max_entries s < 2 ^ 31;
  cw_max : 0 <= c_max_count s <= c_max_entries s;
  cw_tail : forall i, c_max_count s <= Z.of_nat i < c_max_entries s ->
    c_slots s !! i = Some None;
  cw_count : c_count s = zlen (occ s);
  cw_nodup : NoDup (occ s);
  cw_occ : forall q, q ∈ occ s <-> cached s q;
  cw_free : 0 <= c_smallest_free s <= c_max_count s;
  cw_used : forall i, Z.of_nat i < c_smallest_free s -> exists q, c_slots s !! i = Some (Some q);
  cw_queue : Forall entry_ok (c_queue s)
}.

(** [q_testcase_cache_size] is the sum of the lengths of the cached entries. *)
Definition len_of (s : cache_st) (q : nat) : Z :=
  match c_queue s !! q with Some e => c_len e | None => 0 end.
Definition sum_len (s : cache_st) (l : list nat) : Z := foldr (fun q n => len_of s q + n) 0 l.
Definition accounted (s : cache_st) : Prop := c_size s = sum_len s (occ s).

(** What an operation may do to the entries: buffers come and go, but not that of the
    current entry. *)
Definition keeps (s s' : cache_st) : Prop :=
  c_queue_cur s' = c_queue_cur s /\
  (forall q e', c_queue s' !! q = Some e' -> exists e, c_queue s !! q = Some e) /\
  forall q e, c_queue s !! q = Some e -> exists b, c_queue s' !! q = Some (set_buf e b) /\
    (q = c_queue_cur s -> c_buf e <> None -> b = c_buf e).

(** Entries without a buffer stay as they are. *)
Definition absent (s s' : cache_st) : Prop :=
  forall q e, c_queue s !! q = Some e -> c_buf e = None -> c_queue s' !! q = Some e.

(** *** Lists of slots *)

Lemma occ_split m slots i x :
  slots !! i = Some x -> Z.of_nat i < m ->
  exists l, occ_of m slots ≡ₚ (match x with Some q => [q] | None => [] end) ++ l /\
    forall y, occ_of m (<[i := y]> slots) ≡ₚ (match y with Some q => [q] | None => [] end) ++ l.
Proof.
  intros Hi Hm. set (t := take (Z.to_nat m) slots).
  assert (t !! i = Some x) as Ht by (unfold t; by rewrite lookup_take_lt by lia).
  exists (omap id (take i t) ++ omap id (drop (S i) t)).
  assert (forall y, omap id (take i t ++ y :: drop (S i) t) ≡ₚ
    (match y with Some q => [q] | None => [] end) ++ omap id (take i t) ++ omap id (drop (S i) t)) as Hy.
  { intros y. rewrite omap_app. cbn. destruct y as [q|]; cbn; [|done].
    by rewrite <- Permutation_middle. }
  split.
  - unfold occ_of. fold t. rewrite <- (take_drop_middle t i x Ht) at 1. apply Hy.
  - intros y. unfold occ_of. rewrite take_insert_lt by lia. fold t.
    rewrite insert_take_drop by (by eapply lookup_lt_Some). apply Hy.
Qed.

Lemma elem_occ m slots q :
  q ∈ occ_of m slots <-> exists i, Z.of_nat i < m /\ slots !! i = Some (Some q).
Proof.
  unfold occ_of. rewrite list_elem_of_omap. split.
  - intros (o&(i&Hi)%list_elem_of_lookup_1&Ho). cbn in Ho. subst o. exists i.
    apply lookup_take_Some in Hi as [Hi Hlt]. split; [lia|done].
  - intros (i&Hlt&Hi). exists (Some q). split; [|done].
    apply (list_elem_of_lookup_2 _ i). rewrite lookup_take_lt by lia. done.
Qed.

Lemma occ_le m slots : zlen (occ_of m slots) <= Z.max 0 m.
Proof.
  unfold occ_of, zlen. assert (forall l : list (option nat), (length (omap id l) <= length l)%nat) as Hl.
  { induction l as [|[]]; cbn; lia. }
  specialize (Hl (take (Z.to_nat m) slots)). rewrite length_take in Hl. lia.
Qed.

(** If all slots from [lo] on, up to [m], were in use, the count would say so. *)
Lemma occ_full m slots :
  0 <= m <= zlen slots -> (forall i, Z.of_nat i < m -> exists q, slots !! i = Some (Some q)) ->
  zlen (occ_of m slots) = m.
Proof.
  intros Hm Hall. unfold occ_of, zlen.
  assert (forall l : list (option nat), (forall i, (i < length l)%nat -> exists q, l !! i = Some (Some q)) ->
    length (omap id l) = length l) as Hl.
  { induction l as [|x l IH]; intros H; [done|]. destruct (H 0%nat) as [q Hq]; [cbn; lia|].
    cbn in Hq. simplify_eq. cbn. f_equal. apply IH. intros i Hi. apply (H (S i)). cbn. lia. }
  rewrite Hl, length_take; [unfold zlen in Hm; lia|].
  rewrite length_take. unfold zlen in Hm. intros i Hi. rewrite lookup_take_lt by lia.
  apply Hall. lia.
Qed.

Lemma sum_len_perm s l k : l ≡ₚ k -> sum_len s l = sum_len s k.
Proof. unfold sum_len. induction 1; cbn; lia. Qed.

Lemma sum_len_ext s s' l : (forall q, q ∈ l -> len_of s' q = len_of s q) -> sum_len s' l = sum_len s l.
Proof.
  induction l as [|q l IH]; intros E; [done|]. cbn.
  rewrite (E q) by (by left). f_equal. apply IH. intros. apply E. by right.
Qed.

Lemma sum_len_bound s l :
  (forall q, 0 <= len_of s q < 2 ^ 31) -> 0 <= sum_len s l <= 2 ^ 31 * zlen l.
Proof.
  unfold sum_len. intros Hq. induction l as [|q l IH]; [done|]. cbn. rewrite zlen_cons. specialize (Hq q). lia.
Qed.

Lemma wf_len_of s : cache_wf s -> forall q, 0 <= len_of s q < 2 ^ 31.
Proof.
  intros Hw q. unfold len_of. destruct (c_queue s !! q) as [e|] eqn:E; [|lia].
  apply (Forall_lookup_1 _ _ _ _ (cw_queue s Hw) E).
Qed.

(** *** Entries under a change of one buffer *)

Lemma with_buf_lookup s q b p :
  c_queue (with_buf s q b) !! p =
  if (p =? q)%nat then (fun e => set_buf e b) <$> c_queue s !! p else c_queue s !! p.
Proof.
  cbn. destruct (Nat.eqb_spec p q) as [->|Hp].
  - apply list_lookup_alter_eq.
  - by apply list_lookup_alter_ne.
Qed.

Lemma with_buf_len_of s q b p : len_of (with_buf s q b) p = len_of s p.
Proof.
  unfold len_of. rewrite with_buf_lookup. destruct (p =? q)%nat; [|done].
  by destruct (c_queue s !! p).
Qed.

Lemma with_buf_ok s q b e :
  Forall entry_ok (c_queue s) -> c_queue s !! q = Some e ->
  (forall x, b = Some x -> holds e x) -> Forall entry_ok (c_queue (with_buf s q b)).
Proof.
  intros Hq He Hb. apply Forall_lookup. intros p e' Hp. rewrite with_buf_lookup in Hp.
  destruct (Nat.eqb_spec p q) as [->|]; [|by eapply Forall_lookup_1].
  rewrite He in Hp. cbn in Hp. simplify_eq.
  destruct (Forall_lookup_1 _ _ _ _ Hq He) as (?&?&_). done.
Qed.

Lemma with_buf_keeps s q b e :
  c_queue s !! q = Some e -> q <> c_queue_cur s \/ c_buf e = None -> keeps s (with_buf s q b).
Proof.
  intros He Hq. split; [done|]. split.
  - intros p e' Hp. rewrite with_buf_lookup in Hp.
    destruct (p =? q)%nat; [|by exists e']. destruct (c_queue s !! p) as [x|]; [by exists x|done].
  - intros p x Hp. setoid_rewrite with_buf_lookup. destruct (Nat.eqb_spec p q) as [->|Hn].
    + rewrite He in *. simplify_eq. exists b. split; [done|]. intros -> Hb. by destruct Hq.
    + exists (c_buf x). rewrite Hp. by destruct x.
Qed.

Lemma keeps_queue s s' :
  c_queue s' = c_queue s -> c_queue_cur s' = c_queue_cur s -> keeps s s'.
Proof.
  intros Hq Hc. split; [done|]. rewrite Hq. split; [eauto|]. intros q e He.
  exists (c_buf e). rewrite He. by destruct e.
Qed.

Lemma keeps_trans s1 s2 s3 : keeps s1 s2 -> keeps s2 s3 -> keeps s1 s3.
Proof.
  intros (C1&B1&F1) (C2&B2&F2). split; [congruence|]. split.
  - intros q e (e2&H2)%B2. by apply B1 in H2.
  - intros q e He. destruct (F1 q e He) as (b&H2&K1). destruct (F2 _ _ H2) as (c&H3&K2).
    exists c. split; [by rewrite H3; destruct e|]. intros Hq Hb.
    specialize (K1 Hq Hb). rewrite <- K1. apply K2; [congruence|]. cbn. congruence.
Qed.

(** The buffer of a cached entry, as the entries that remain see it. *)
Lemma with_buf_cached s q b p :
  (exists e, c_queue s !! q = Some e) ->
  cached (with_buf s q b) p <-> if (p =? q)%nat then b <> None else cached s p.
Proof.
  intros [e He]. unfold cached. setoid_rewrite with_buf_lookup.
  destruct (Nat.eqb_spec p q) as [->|]; [|done]. rewrite He. cbn. split.
  - intros (?&?&?&?). simplify_eq. cbn in *. congruence.
  - intros. destruct b as [b|]; [|done]. by exists (set_buf e (Some b)), b.
Qed.

(** ** The steps of the operations *)

(** Slots that are free at the end do not matter. *)
Lemma occ_tail m m' slots :
  0 <= m <= m' -> (forall i, m <= Z.of_nat i < m' -> slots !! i = Some None) ->
  occ_of m' slots = occ_of m slots.
Proof.
  intros Hm Hnone. unfold occ_of.
  rewrite <- (take_drop (Z.to_nat m) (take (Z.to_nat m') slots)).
  rewrite take_take, Nat.min_l, omap_app by lia.
  rewrite <- (app_nil_r (omap id (take (Z.to_nat m) slots))) at 2. f_equal.
  assert (forall l : list (option nat), Forall (eq None) l -> omap id l = []) as Hn.
  { induction 1 as [|x l <- _ IH]; [done|]. exact IH. }
  apply Hn, Forall_lookup. intros i x Hi. rewrite lookup_drop in Hi.
  apply lookup_take_Some in Hi as [Hi Hl]. rewrite Hnone in Hi by lia. congruence.
Qed.

Lemma wf_count_le s : cache_wf s -> c_count s <= c_max_count s.
Proof.
  intros Hw. pose proof (cw_max s Hw). rewrite (cw_count s Hw). unfold occ.
  rewrite (occ_tail (c_max_count s)) by (apply Hw || lia).
  pose proof (occ_le (c_max_count s) (c_slots s)). lia.
Qed.

Lemma wf_count_nonneg s : cache_wf s -> 0 <= c_count s.
Proof. intros Hw. rewrite (cw_count s Hw). apply zlen_nonneg. Qed.

(** A full cache holds at least two entries. *)
Lemma full_count s len : cache_wf s -> cache_full s len = true -> 2 <= c_count s.
Proof.
  intros Hw. unfold cache_full. pose proof (cw_entries s Hw). rewrite (wrap_small 32) by (split; lia).
  intros Hf. destruct (1 <? c_count s) eqn:E; b2p; [lia|].
  rewrite andb_false_r in Hf. cbn in Hf. b2p. lia.
Qed.

Lemma full_room s len : cache_wf s -> cache_full s len = false -> c_count s < c_max_entries s - 1.
Proof.
  intros Hw. unfold cache_full. pose proof (cw_entries s Hw). rewrite (wrap_small 32) by (split; lia).
  intros [_ Hf%Z.leb_gt]%orb_false_iff. done.
Qed.

(** The limit that is learned keeps exactly one slot behind those in use. *)
Lemma learn_limit_ok junk s len :
  cache_wf s -> 2 <= c_count s ->
  let s' := learn_limit junk s len in
  cache_wf s' /\ keeps s s' /\ (accounted s -> accounted s') /\
  c_count s' = c_count s /\ c_max_count s' = c_max_count s /\ c_queue_cur s' = c_queue_cur s /\
  c_queue s' = c_queue s.
Proof.
  intros Hw Hc. cbv zeta. unfold learn_limit. destruct (_ && _ && _) eqn:E.
  2:{ split_and!; auto using keeps_queue. }
  apply andb_true_iff in E as [[_ [_ E%Z.ltb_lt]%andb_true_iff]%andb_true_iff _].
  pose proof (wf_count_le s Hw). pose proof (cw_entries s Hw). pose proof (cw_room s Hw) as Hroom.
  assert ((if c_count s <? c_max_count s then u32 (c_max_count s + 1) else u32 (c_count s + 1))
          = c_max_count s + 1) as ->.
  { destruct (c_count s <? c_max_count s) eqn:E'; b2p; rewrite wrap_small by (split; lia); lia. }
  set (m := c_max_count s + 1). set (t := take (Z.to_nat (m + 1)) (c_slots s)).
  set (slots := t ++ _).
  assert (forall i, Z.of_nat i < m -> slots !! i = c_slots s !! i) as Hs.
  { intros i Hi. unfold slots, t, m in *. unfold zlen in Hroom.
    rewrite lookup_app_l by (rewrite length_take; lia). rewrite lookup_take_lt by lia. done. }
  assert (occ_of m slots = occ s) as Ho.
  { unfold occ. rewrite (occ_tail m (c_max_entries s)) by
      first [unfold m; lia | intros; apply (cw_tail s Hw); unfold m in *; lia].
    unfold occ_of. f_equal. apply list_eq. intros i. destruct (decide (i < Z.to_nat m)%nat).
    - rewrite !lookup_take_lt by lia. apply Hs. lia.
    - rewrite !lookup_take_ge by lia. done. }
  split; [|split; [by apply keeps_queue|split; [|done]]].
  2:{ unfold accounted, occ. cbn. by rewrite Ho. }
  destruct Hw. constructor; cbn; unfold occ; cbn; rewrite ?Ho; auto; try (unfold m; lia).
  - unfold slots, zlen. rewrite length_app, length_replicate. unfold t. rewrite length_take.
    unfold zlen in Hroom. unfold m. lia.
  - intros i Hi. rewrite Hs by lia. apply cw_tail0. unfold m in Hi. lia.
  - intros i Hi. rewrite Hs by (unfold m; lia). by apply cw_used0.
Qed.

Lemma slot_entry s tid q :
  cache_wf s -> 0 <= tid < c_max_entries s -> get (c_slots s) tid = Some (Some q) ->
  exists e, c_queue s !! q = Some e /\ c_buf e <> None.
Proof.
  intros Hw Ht [_ Hg]%get_inv.
  destruct (proj1 (cw_occ s Hw q)) as (e&b&He&Hb).
  { apply elem_occ. exists (Z.to_nat tid). split; [lia|done]. }
  exists e. split; [done|congruence].
Qed.

Lemma evict_ok s tid q :
  cache_wf s -> 0 <= tid < c_max_count s -> get (c_slots s) tid = Some (Some q) ->
  q <> c_queue_cur s ->
  exists s', evict s tid q = Ret s' /\ cache_wf s' /\ keeps s s' /\
    (accounted s -> accounted s') /\ c_count s' = c_count s - 1 /\
    c_max_count s' = c_max_count s /\ absent s s' /\ get (c_slots s') tid = Some None.
Proof.
  intros Hw Ht Hg Hq. pose proof (cw_max s Hw). pose proof (cw_entries s Hw).
  pose proof (cw_room s Hw). destruct (slot_entry s tid q Hw) as (e&He&Hb); [lia|done|].
  pose proof Hg as [_ Hg']%get_inv.
  unfold evict, entry_of. rewrite He. cbn. rewrite put_Some by lia. cbn.
  eexists. split; [done|].
  destruct (occ_split (c_max_entries s) (c_slots s) (Z.to_nat tid) (Some q) Hg') as (l&Hl&Hl'); [lia|].
  specialize (Hl' None). cbn in Hl, Hl'. fold (occ s) in Hl.
  pose proof (cw_nodup s Hw) as Hnd. rewrite Hl in Hnd. apply list.NoDup_cons in Hnd as [Hn Hnd].
  assert (zlen (occ s) = 1 + zlen l) as Hlen by (unfold zlen; rewrite Hl; cbn; lia).
  pose proof (cw_count s Hw) as Hcnt. pose proof (wf_count_le s Hw). pose proof (zlen_nonneg l).
  split; [|split; [|split; [|split; [|split; [|split]]]]]; try done.
  - constructor; unfold occ; cbn.
    + rewrite zlen_insert. lia.
    + lia.
    + lia.
    + intros i Hi. rewrite list_lookup_insert_ne by lia. by apply Hw.
    + rewrite wrap_small by (split; lia). unfold zlen in *. rewrite Hl'. lia.
    + by rewrite Hl'.
    + intros p. rewrite Hl'.
      pose proof (with_buf_cached s q None p (ex_intro _ e He)) as Hp. cbn in Hp.
      assert (cached (with_buf s q None) p <-> p ∈ l) as <-; [|done].
      rewrite Hp. pose proof (cw_occ s Hw p) as Ho. rewrite Hl, elem_of_cons in Ho.
      destruct (Nat.eqb_spec p q) as [Epq|]; [subst p|]; tauto.
    + pose proof (cw_free s Hw). destruct (_ <? _) eqn:E; b2p; lia.
    + intros i Hi. destruct (_ <? _) eqn:E; b2p; rewrite list_lookup_insert_ne by lia;
        apply (cw_used s Hw); lia.
    + apply (with_buf_ok s q None e); [by apply Hw|done|done].
  - destruct (with_buf_keeps s q None e He) as (?&?&?); [by left|]. by split.
  - unfold accounted, occ. cbn. intros Ha. pose proof (sum_len_bound s l (wf_len_of s Hw)) as Hs.
    rewrite (sum_len_perm _ _ _ Hl) in Ha. unfold sum_len at 1 in Ha. cbn in Ha.
    fold (sum_len s l) in Ha. rewrite (sum_len_perm _ _ _ Hl').
    rewrite (sum_len_ext s) by (intros; apply with_buf_len_of).
    pose proof (wf_len_of s Hw q) as Hql. unfold len_of in Ha, Hql. rewrite He in Ha, Hql.
    rewrite wrap_small; [lia|]. split; [lia|]. change (2 ^ 64) with (2 ^ 31 * 2 ^ 33). nia.
  - cbn. rewrite wrap_small; [lia|]. split; lia.
  - intros p x Hx Hxb. change (c_queue (with_buf s q None) !! p = Some x).
    rewrite with_buf_lookup, Hx. destruct (p =? q)%nat; [|done]. destruct x. cbn in *. by subst.
  - rewrite get_pos by lia. apply list_lookup_insert_eq. unfold zlen in *. lia.
Qed.

Lemma register_ok s q e b tid :
  cache_wf s -> c_queue s !! q = Some e -> c_buf e = None -> holds e b ->
  c_smallest_free s <= tid \/ c_max_count s <= tid -> 0 <= tid < c_max_entries s ->
  get (c_slots s) tid = Some None ->
  exists s', register s q b (c_len e) tid = Ret s' /\ cache_wf s' /\ keeps s s' /\
    (accounted s -> accounted s') /\ deref s' (InEntry q) = Some b /\ c_count s' = c_count s + 1.
Proof.
  intros Hw He Hb Hh Hfree Ht Hg. pose proof (cw_max s Hw). pose proof (cw_entries s Hw).
  pose proof (cw_room s Hw) as Hroom. pose proof Hg as [_ Hg']%get_inv.
  unfold register. cbn. rewrite put_Some by lia. cbn. eexists. split; [done|].
  destruct (occ_split (c_max_entries s) (c_slots s) (Z.to_nat tid) None Hg') as (l&Hl&Hl'); [lia|].
  specialize (Hl' (Some q)). cbn in Hl, Hl'. fold (occ s) in Hl.
  pose proof (cw_nodup s Hw) as Hnd. rewrite Hl in Hnd.
  assert (zlen (occ s) = zlen l) as Hlen by (unfold zlen; by rewrite Hl).
  pose proof (cw_count s Hw) as Hcnt. pose proof (wf_count_le s Hw). pose proof (zlen_nonneg l).
  assert (q ∉ l) as Hql.
  { intros Hin. rewrite <- Hl in Hin. apply (cw_occ s Hw) in Hin as (e'&b'&?&?). congruence. }
  pose proof (cw_free s Hw) as Hf.
  split; [|split; [|split; [|split]]]; try done.
  - constructor; unfold occ; cbn.
    + rewrite zlen_insert. lia.
    + lia.
    + destruct (_ <=? tid) eqn:E; b2p; [rewrite wrap_small by (split; lia)|]; lia.
    + intros i Hi. destruct (_ <=? tid) eqn:E; b2p;
        [rewrite wrap_small in Hi by (split; lia)|]; rewrite list_lookup_insert_ne by lia;
        apply (cw_tail s Hw); lia.
    + rewrite wrap_small by (split; lia). unfold zlen in *. rewrite Hl'. cbn. lia.
    + rewrite Hl'. by apply list.NoDup_cons.
    + intros p. rewrite Hl', elem_of_cons.
      pose proof (with_buf_cached s q (Some b) p (ex_intro _ e He)) as Hp. cbn in Hp.
      assert (cached (with_buf s q (Some b)) p <-> p = q \/ p ∈ l) as <-; [|done].
      rewrite Hp. pose proof (cw_occ s Hw p) as Ho. rewrite Hl in Ho.
      destruct (Nat.eqb_spec p q) as [Epq|]; [subst p; split; [by left|done]|tauto].
    + destruct (_ <=? tid) eqn:E; cbn; b2p; [rewrite wrap_small by (split; lia); lia|].
      destruct (tid =? _) eqn:E2; b2p; [rewrite wrap_small by (split; lia)|]; lia.
    + intros i Hi. destruct (decide (i = Z.to_nat tid)) as [->|Hn].
      { exists q. apply list_lookup_insert_eq. unfold zlen in Hroom. lia. }
      rewrite list_lookup_insert_ne by lia. apply (cw_used s Hw).
      destruct (_ && _) eqn:E; [|done]. b2p. rewrite wrap_small in Hi by (split; lia). lia.
    + apply (with_buf_ok s q (Some b) e); [by apply Hw|done|]. by intros ? [= ->].
  - destruct (with_buf_keeps s q (Some b) e He) as (?&?&?); [by right|]. by split.
  - unfold accounted, occ. cbn. intros Ha. pose proof (sum_len_bound s l (wf_len_of s Hw)) as Hs.
    rewrite (sum_len_perm _ _ _ Hl) in Ha. rewrite (sum_len_perm _ _ _ Hl').
    rewrite (sum_len_ext s) by (intros; apply with_buf_len_of).
    unfold sum_len at 1. cbn. fold (sum_len s l).
    pose proof (wf_len_of s Hw q) as Hq. unfold len_of at 1. unfold len_of in Hq. rewrite He in *.
    rewrite wrap_small; [lia|]. split; [lia|]. change (2 ^ 64) with (2 ^ 31 * 2 ^ 33). nia.
  - cbn. rewrite list_lookup_alter_eq, He. done.
  - cbn. rewrite wrap_small; [lia|]. split; lia.
Qed.

(** The search from [tid] stops at a free slot when there is one. *)
Lemma find_free_ok slots j n tid :
  get slots j = Some None -> 0 <= tid <= j -> j < 2 ^ 31 -> (Z.to_nat (j - tid) < n)%nat ->
  exists t, find_free n slots tid = Ret t /\ tid <= t <= j /\ get slots t = Some None.
Proof.
  intros Hj. pose proof Hj as [Hlt _]%get_inv. revert tid.
  induction n as [|n IH]; intros tid Ht Hb Hn; [lia|]. cbn.
  destruct (get_Some slots tid) as [x Hx]; [lia|]. rewrite Hx. cbn. destruct x as [q|].
  - assert (tid <> j) by congruence. rewrite wrap_small by (split; lia).
    destruct (IH (tid + 1)) as (t&?&?&?); [lia|lia|lia|]. exists t. split; [done|]. split; [lia|done].
  - exists tid. split; [done|]. split; [lia|done].
Qed.

(** While the cache is not full there is a free slot above [smallest_free]. *)
Lemma free_slot s :
  cache_wf s -> c_count s < c_max_entries s ->
  exists j, c_smallest_free s <= j < c_max_entries s /\ get (c_slots s) j = Some None.
Proof.
  intros Hw Hc. pose proof (cw_max s Hw). pose proof (cw_entries s Hw). pose proof (cw_room s Hw).
  set (l := seq (Z.to_nat (c_smallest_free s)) (Z.to_nat (c_max_entries s - c_smallest_free s))).
  destruct (decide (Exists (fun j => get (c_slots s) (Z.of_nat j) = Some None) l)) as [Hx|Hx].
  { apply list.Exists_exists in Hx as (j&Hin&Hj). unfold l in Hin.
    rewrite elem_of_seq in Hin. pose proof (cw_free s Hw). exists (Z.of_nat j). split; [lia|done]. }
  exfalso. apply (not_Exists_Forall _ _) in Hx. pose proof (cw_count s Hw) as Hcnt.
  unfold occ in Hcnt. rewrite (occ_full (c_max_entries s)) in Hcnt; [lia|lia|].
  intros i Hi. destruct (decide (Z.of_nat i < c_smallest_free s)); [by apply Hw|].
  destruct (zlen_lookup (c_slots s) (Z.of_nat i)) as [x Hxi]; [lia|]. rewrite Nat2Z.id in Hxi.
  destruct x as [q|]; [by exists q|]. exfalso.
  eapply (list.Forall_forall _ l) in Hx; [apply Hx|].
  - rewrite get_nat. done.
  - unfold l. rewrite elem_of_seq. pose proof (cw_free s Hw). lia.
Qed.

(** A full cache has a slot that can be evicted. *)
Lemma victim s :
  cache_wf s -> 2 <= c_count s ->
  exists tid q, 0 <= tid < c_max_count s /\ get (c_slots s) tid = Some (Some q) /\
    q <> c_queue_cur s.
Proof.
  intros Hw Hc. pose proof (cw_count s Hw) as Hcnt. pose proof (cw_nodup s Hw) as Hnd.
  assert (exists q, q ∈ occ s /\ q <> c_queue_cur s) as (q&Hin&Hq).
  { destruct (occ s) as [|x [|y l]]; [unfold zlen in Hcnt; cbn in Hcnt; lia..|].
    destruct (decide (x = c_queue_cur s)) as [->|]; [|exists x; split; [by left|done]].
    exists y. split; [by right; left|]. intros ->.
    apply list.NoDup_cons in Hnd as [Hn _]. apply Hn. by left. }
  apply elem_occ in Hin as (i&Hi&Hs). exists (Z.of_nat i), q. rewrite get_nat.
  split; [|done]. destruct (decide (c_max_count s <= Z.of_nat i)); [|lia].
  rewrite (cw_tail s Hw) in Hs by lia. done.
Qed.

Section AnySource.
Context {R : Type} `{RandSource R}.

Lemma pick_ok fuel s (r : R) :
  cache_wf s -> 2 <= c_count s ->
  yields False True (pick fuel s r) (fun x =>
    let '(tid, q, _) := x in
    0 <= tid < c_max_count s /\ get (c_slots s) tid = Some (Some q) /\ q <> c_queue_cur s).
Proof.
  intros Hw Hc. pose proof (wf_count_le s Hw). pose proof (cw_max s Hw). pose proof (cw_room s Hw).
  revert r. induction fuel as [|fuel IH]; intros r; [done|]. cbn.
  destruct (rs_below (c_max_count s) r) as [[tid r']|] eqn:Er; [|done].
  apply rs_range in Er; [|lia]. destruct (get_Some (c_slots s) tid) as [x Hx]; [lia|].
  rewrite Hx. cbn. destruct x as [q|]; [|apply IH].
  destruct (Nat.eqb_spec q (c_queue_cur s)); [apply IH|]. done.
Qed.

(** The eviction loop makes room in at most [c_count s] rounds, and gives the slot of the
    last eviction, or the slot it was given when nothing had to go. *)
Lemma evict_loop_ok n fuel junk len tid s (r : R) :
  cache_wf s -> c_count s < Z.of_nat n -> (tid = c_max_count s \/
    0 <= tid < c_max_count s /\ get (c_slots s) tid = Some None) ->
  yields False True (evict_loop n fuel junk len tid s r) (fun x =>
    let '(t, s', _) := x in
    cache_wf s' /\ keeps s s' /\ (accounted s -> accounted s') /\ absent s s' /\
    cache_full s' len = false /\
    (t = c_max_count s' \/ 0 <= t < c_max_count s' /\ get (c_slots s') t = Some None)).
Proof.
  revert tid s r. induction n as [|n IH]; intros tid s r Hw Hn Ht;
    [pose proof (wf_count_nonneg s Hw); lia|]. cbn.
  destruct (cache_full s len) eqn:Hf; [|by split_and!; unfold absent; auto using keeps_queue].
  pose proof (full_count s len Hw Hf) as Hc.
  destruct (learn_limit_ok junk s len Hw Hc) as (Hw1&K1&A1&C1&M1&Q1&QQ1).
  set (s1 := learn_limit junk s len) in *. apply yields_bind.
  eapply yields_mono; [apply (pick_ok fuel s1 r Hw1); lia|]. intros [[t q] r'] (Ht1&Hg&Hq).
  destruct (evict_ok s1 t q Hw1 Ht1 Hg Hq) as (s2&E2&Hw2&K2&A2&C2&MC2&B2&G2).
  rewrite E2. cbn. eapply yields_mono; [apply IH; [done|lia|]|].
  - right. split; [lia|done].
  - intros [[t' s'] r''] (?&K3&?&B3&?&?). split_and!; eauto using keeps_trans.
    intros p e He Hb. apply B3, Hb. apply B2, Hb. by rewrite QQ1.
Qed.
End AnySource.

(** ** The entry finds its place *)

Lemma place_ok s t :
  cache_wf s -> c_count s < c_max_entries s - 1 ->
  (t = c_max_count s \/ 0 <= t < c_max_count s /\ get (c_slots s) t = Some None) ->
  exists tid,
    find_free (S (length (c_slots s))) (c_slots s)
      (if c_max_entries s <=? t then c_smallest_free s else t) = Ret tid /\
    0 <= tid < c_max_entries s /\ get (c_slots s) tid = Some None /\
    (c_smallest_free s <= tid \/ c_max_count s <= tid).
Proof.
  intros Hw Hc Ht. pose proof (cw_max s Hw). pose proof (cw_entries s Hw).
  pose proof (cw_room s Hw) as Hr. pose proof (cw_free s Hw). unfold zlen in Hr.
  destruct (c_max_entries s <=? t) eqn:E; b2p.
  - destruct (free_slot s Hw) as (j&Hj&Hg); [lia|].
    destruct (find_free_ok (c_slots s) j (S (length (c_slots s))) (c_smallest_free s) Hg)
      as (tid&Hf&?&?); [lia|lia|lia|]. exists tid. split; [done|]. split; [lia|]. split; [done|lia].
  - assert (get (c_slots s) t = Some None) as Hg.
    { destruct Ht as [->|[_ ?]]; [|done]. rewrite get_pos by lia. apply (cw_tail s Hw). lia. }
    destruct (find_free_ok (c_slots s) t (S (length (c_slots s))) t Hg) as (tid&Hf&?&?);
      [lia|lia|lia|]. exists tid. replace tid with t in * by lia.
    split; [done|]. split; [lia|]. split; [done|]. destruct Ht as [->|[Ht _]]; [lia|].
    left. destruct (decide (t < c_smallest_free s)) as [Hlt|]; [|lia].
    destruct (cw_used s Hw (Z.to_nat t)) as [q Hq]; [lia|].
    apply get_inv in Hg as [_ Hg]. congruence.
Qed.

(** What an operation that leaves entry [q] in the cache promises. *)
Definition filled (s s' : cache_st) (q : nat) (b : list Z) : Prop :=
  cache_wf s' /\ keeps s s' /\ (accounted s -> accounted s') /\
  deref s' (InEntry q) = Some b.

Lemma fill_ok s q e t b :
  cache_wf s -> c_count s < c_max_entries s - 1 ->
  (t = c_max_count s \/ 0 <= t < c_max_count s /\ get (c_slots s) t = Some None) ->
  c_queue s !! q = Some e -> c_buf e = None -> holds e b ->
  exists tid s',
    find_free (S (length (c_slots s))) (c_slots s)
      (if c_max_entries s <=? t then c_smallest_free s else t) = Ret tid /\
    register s q b (c_len e) tid = Ret s' /\ filled s s' q b.
Proof.
  intros Hw Hc Ht He Hb Hh. destruct (place_ok s t Hw Hc Ht) as (tid&Hf&?&?&?).
  destruct (register_ok s q e b tid) as (s'&Hr&?&?&?&?&_); try done.
  exists tid, s'. done.
Qed.

Lemma scratch_wf s tc sp : cache_wf s -> cache_wf (with_scratch s tc sp).
Proof. intros []. constructor; auto. Qed.

(** A file that is long enough is read in full. *)
Lemma read_file_ok e :
  entry_ok e -> exists b, read_file e (c_len e) = Ret b /\ holds e b /\ zlen b = c_len e.
Proof.
  intros (Hl&Hf&_). unfold read_file. rewrite load_Some by lia.
  exists (slice (c_file e) 0 (c_len e)). split; [done|].
  assert (zlen (slice (c_file e) 0 (c_len e)) = c_len e) as Hz by (apply zlen_slice; lia).
  split; [|done]. split; [lia|]. apply slice_full. lia.
Qed.

Lemma keeps_entry s s' q e :
  keeps s s' -> c_queue s !! q = Some e -> exists b, c_queue s' !! q = Some (set_buf e b).
Proof. intros (_&_&Hk) He. destruct (Hk q e He) as (b&?&_). by exists b. Qed.
