(* ===== verification/CacheMain.v ===== *)
(** * The test case cache: the operations

    [queue_testcase_get] gives the contents of the file whatever the cache does,
    keeps the invariant and the accounting, and can always complete;
    [queue_testcase_store_mem] puts what the next [queue_testcase_get] finds; how the
    trimming of an entry takes the accounting away from the truth. *)

From S2P Require Import Prelude Res Rng Cache CacheFacts.

(** ** Lookup *)

(** What [queue_testcase_get] promises about its result. *)
Definition got (s : cache_st) (e : centry) (p : bufptr) (s' : cache_st) : Prop :=
  cache_wf s' /\ keeps s s' /\ (accounted s -> accounted s') /\
  exists b, deref s' p = Some b /\ holds e b.

Lemma got_filled s0 s s' q e b :
  keeps s0 s -> (accounted s0 -> accounted s) -> filled s s' q b -> holds e b ->
  got s0 e (InEntry q) s'.
Proof.
  intros K A (Hw&K'&A'&Hd) Hh. split; [done|]. split; [by eapply keeps_trans|].
  split; [auto|]. by exists b.
Qed.

Section Get.
Context {R : Type} `{RandSource R}.

(** The part of [queue_testcase_get] that follows the evictions. *)
Lemma get_after (s0 s : cache_st) q e t len (r : R) :
  cache_wf s0 -> c_queue s0 !! q = Some e -> c_buf e = None -> len = c_len e ->
  cache_wf s -> keeps s0 s -> (accounted s0 -> accounted s) -> absent s0 s ->
  cache_full s len = false ->
  (t = c_max_count s \/ 0 <= t < c_max_count s /\ get (c_slots s) t = Some None) ->
  exists s', (tid ← find_free (S (length (c_slots s))) (c_slots s)
                (if c_max_entries s <=? t then c_smallest_free s else t);
              b ← read_file e len; s' ← register s q b len tid;
              Ret (InEntry q, s', r)) = Ret (InEntry q, s', r) /\ got s0 e (InEntry q) s'.
Proof.
  intros Hw0 He Hb -> Hw K A Ab Hf Ht.
  destruct (read_file_ok e) as (b&Hr&Hh&_); [by eapply Forall_lookup_1, He; apply Hw0|].
  destruct (fill_ok s q e t b) as (tid&s'&Hff&Hreg&Hfl);
    [done|by eapply full_room|done|by apply Ab|done|done|].
  exists s'. rewrite Hff. cbn. rewrite Hr. cbn. rewrite Hreg. cbn.
  split; [done|]. by eapply got_filled.
Qed.

Lemma get_ok n fuel junk s q e (r : R) :
  cache_wf s -> c_queue s !! q = Some e -> c_count s < Z.of_nat n ->
  yields False True (queue_testcase_get n fuel junk s q r)
    (fun x => let '(p, s', _) := x in got s e p s').
Proof.
  intros Hw He Hn. pose proof (Forall_lookup_1 _ _ _ _ (cw_queue s Hw) He) as Hok.
  unfold queue_testcase_get, entry_of. rewrite He. cbn.
  destruct (c_buf e) as [b|] eqn:Hb.
  { split; [done|]. split; [by apply keeps_queue|]. split; [done|]. exists b. cbn. rewrite He.
    split; [done|]. by apply Hok. }
  destruct (c_low e || _).
  { destruct (read_file_ok e Hok) as (b&->&Hh&_). cbn.
    destruct (q =? c_queue_cur s)%nat; cbn;
      (split; [by apply scratch_wf|]; split; [by apply keeps_queue|]; split; [done|]; by exists b). }
  apply yields_bind. eapply yields_mono; [apply evict_loop_ok; auto|].
  intros [[t s1] r1] (Hw1&K1&A1&B1&F1&T1).
  destruct (get_after s s1 q e t (c_len e) r1) as (s'&E&Hg); [done..|].
  cbn in E |- *. rewrite E. exact Hg.
Qed.
End Get.

(** ** Progress *)

Lemma script_below_one m tid l : 1 < m -> 0 <= tid < m -> script_below m (tid :: l) = Some (tid, l).
Proof.
  intros Hm Ht. unfold script_below. rewrite (proj2 (Z.leb_gt _ _)) by lia.
  by rewrite Z.mod_small.
Qed.

Lemma script_below_cons m x l : 1 < m -> script_below m (x :: l) = Some (x mod m, l).
Proof. intros Hm. unfold script_below. by rewrite (proj2 (Z.leb_gt _ _)) by lia. Qed.

(** Whatever has been drawn, some further draws find an entry to evict. *)
Lemma pick_live s l :
  cache_wf s -> 2 <= c_count s ->
  exists k n0 l2 tid q, forall rest fuel, (n0 <= fuel)%nat ->
    pick fuel s (l ++ k ++ rest) = Ret (tid, q, l2 ++ rest).
Proof.
  intros Hw Hc. pose proof (wf_count_le s Hw). pose proof (cw_max s Hw). pose proof (cw_room s Hw).
  induction l as [|x l IH].
  - destruct (victim s Hw Hc) as (tid&q&Ht&Hg&Hq). exists [tid], 1%nat, [], tid, q.
    intros rest [|fuel] Hf; [lia|]. cbn [pick app rs_below script_source].
    rewrite script_below_one by lia. rewrite Hg. cbn. by rewrite (proj2 (Nat.eqb_neq _ _)).
  - assert (0 <= x mod c_max_count s < c_max_count s) by (apply Z.mod_pos_bound; lia).
    destruct (get_Some (c_slots s) (x mod c_max_count s)) as [y Hy]; [lia|].
    assert (forall k rest fuel, pick (S fuel) s ((x :: l) ++ k ++ rest) =
      match y with
      | None => pick fuel s (l ++ k ++ rest)
      | Some q => if (q =? c_queue_cur s)%nat then pick fuel s (l ++ k ++ rest)
                  else Ret (x mod c_max_count s, q, l ++ k ++ rest)
      end) as Hstep.
    { intros. cbn [pick app rs_below script_source]. rewrite script_below_cons by lia.
      by rewrite Hy. }
    destruct IH as (k&n0&l2&tid&q&IH).
    destruct y as [q'|]; [destruct (Nat.eqb_spec q' (c_queue_cur s))|];
      [|exists [], 1%nat, l, (x mod c_max_count s), q'; intros rest [|fuel] Hf; [lia|]; apply Hstep|];
      (exists k, (S n0), l2, tid, q; intros rest [|fuel] Hf; [lia|]; rewrite Hstep; apply IH; lia).
Qed.

Lemma evict_loop_live m junk len : forall s l tid,
  cache_wf s -> c_count s < Z.of_nat m ->
  exists k n0 l2 t s', forall rest n fuel, (n0 <= n)%nat -> (n0 <= fuel)%nat ->
    evict_loop n fuel junk len tid s (l ++ k ++ rest) = Ret (t, s', l2 ++ rest).
Proof.
  induction m as [|m IH]; intros s l tid Hw Hm; [pose proof (wf_count_nonneg s Hw); lia|].
  destruct (cache_full s len) eqn:Hf.
  2:{ exists [], 1%nat, l, tid, s. intros rest [|n] fuel Hn _; [lia|]. cbn. by rewrite Hf. }
  pose proof (full_count s len Hw Hf) as Hc.
  destruct (learn_limit_ok junk s len Hw Hc) as (Hw1&_&_&C1&_&_&_).
  set (s1 := learn_limit junk s len) in *.
  destruct (pick_live s1 l Hw1) as (k1&n1&l1&t1&q1&Hp); [lia|].
  pose proof (pick_ok (S n1) s1 (l ++ k1 ++ []) Hw1) as Hgood. rewrite Hp in Hgood by lia.
  destruct Hgood as (Ht&Hg&Hq); [lia|].
  destruct (evict_ok s1 t1 q1 Hw1 Ht Hg Hq) as (s2&E2&Hw2&_&_&C2&_).
  destruct (IH s2 l1 t1 Hw2) as (k2&n2&l2&t&s'&Hl); [lia|].
  exists (k1 ++ k2), (S (Nat.max n1 n2)), l2, t, s'.
  intros rest [|n] fuel Hn Hfu; [lia|]. cbn. rewrite Hf. fold s1.
  rewrite <- !app_assoc, Hp by lia. cbn. rewrite E2. cbn. apply Hl; lia.
Qed.

(** ** The theorems *)

(** C24. For any source of random numbers and any content of unused memory,
    [queue_testcase_get] on an entry of a well-formed cache gives a pointer to a buffer
    that holds the contents of the entry's file, whether it was cached, is read into a
    scratch buffer, or enters the cache after evictions.  It keeps the cache well formed
    (the slots in use are exactly the entries with a buffer, no entry twice, the count is
    their number), keeps [q_testcase_cache_size] equal to the sum of the lengths of the
    cached entries, never evicts the current entry and never leaves its arrays; only the
    random choice of what to evict can go on. *)
Theorem cache_get_correct {R} `{RandSource R} n fuel junk s q e (r : R) :
  cache_wf s -> c_queue s !! q = Some e -> c_count s < Z.of_nat n ->
  match queue_testcase_get n fuel junk s q r with
  | Ret (p, s', _) =>
      cache_wf s' /\ keeps s s' /\ (accounted s -> accounted s') /\
      exists b, deref s' p = Some b /\ c_len e <= zlen b /\
        slice b 0 (c_len e) = slice (c_file e) 0 (c_len e)
  | Exit => False
  | Fault => False
  | NoFuel => True
  end.
Proof.
  intros Hw He Hn. pose proof (get_ok n fuel junk s q e r Hw He Hn) as Hg.
  destruct (queue_testcase_get n fuel junk s q r) as [[[p s'] r']| | |]; exact Hg.
Qed.

(** From every well-formed cache, and whatever the generator has answered so far
    (the answers [l]), there are further answers with which [queue_testcase_get] returns:
    a full cache always holds an entry that may be evicted, and each eviction makes
    progress. *)
Theorem cache_get_live junk s q e l :
  cache_wf s -> c_queue s !! q = Some e ->
  exists k n0, forall n fuel, (n0 <= n)%nat -> (n0 <= fuel)%nat ->
    exists p s' l', queue_testcase_get n fuel junk s q (l ++ k) = Ret (p, s', l').
Proof.
  intros Hw He.
  destruct (evict_loop_live (S (Z.to_nat (c_count s))) junk (c_len e) s l (c_max_count s) Hw)
    as (k&n0&l2&t&s1&Hl); [pose proof (wf_count_nonneg s Hw); lia|].
  exists k, (Nat.max n0 (S (Z.to_nat (c_count s)))). intros n fuel Hn Hf.
  pose proof (get_ok n fuel junk s q e (l ++ k) Hw He) as Hg.
  specialize (Hl [] n fuel). rewrite app_nil_r in Hl.
  destruct (queue_testcase_get n fuel junk s q (l ++ k)) as [[[p s'] l']| | |] eqn:E.
  { by exists p, s', l'. }
  1,2: exfalso; apply Hg; lia.
  exfalso. revert E. unfold queue_testcase_get, entry_of. rewrite He. cbn.
  destruct (c_buf e) eqn:Hb; [done|].
  destruct (read_file_ok e) as (b&Hr&_&_); [by eapply Forall_lookup_1, He; apply Hw|].
  destruct (c_low e || _); [rewrite Hr; cbn; by destruct (q =? c_queue_cur s)%nat|].
  pose proof (evict_loop_ok n fuel junk (c_len e) (c_max_count s) s (l ++ k) Hw) as Ho.
  rewrite Hl in Ho |- * by lia. cbn in Ho. destruct Ho as (Hw1&K1&A1&B1&F1&T1); [lia|by left|].
  destruct (get_after s s1 q e t (c_len e) (l2 ++ [])) as (s'&E&_); [done..|].
  cbn in E |- *. by rewrite E.
Qed.

Lemma store_mem_run s q e mem :
  cache_wf s -> c_queue s !! q = Some e -> c_buf e = None ->
  c_len e <= zlen mem -> slice mem 0 (c_len e) = slice (c_file e) 0 (c_len e) ->
  exists s', queue_testcase_store_mem s q mem = Ret s' /\
    cache_wf s' /\ keeps s s' /\ (accounted s -> accounted s') /\
    (if c_low e || (c_max_size s <=? u64 (c_size s + c_len e)) ||
        (c_max_entries s - 1 <=? c_count s)
     then s' = s
     else deref s' (InEntry q) = Some (slice mem 0 (c_len e)) /\
       forall R (HR : RandSource R) n fuel junk (r : R),
         queue_testcase_get n fuel junk s' q r = Ret (InEntry q, s', r)).
Proof.
  intros Hw He Hb Hl Hm. pose proof (cw_entries s Hw). pose proof (cw_max s Hw).
  destruct (Forall_lookup_1 _ _ _ _ (cw_queue s Hw) He) as (Hlen&_&_).
  unfold queue_testcase_store_mem, entry_of. rewrite He. cbn [of_option mbind res_bind].
  rewrite (wrap_small 32) by (split; lia).
  destruct (c_low e || _ || _) eqn:E.
  { exists s. split; [done|]. split; [done|]. split; [by apply keeps_queue|done]. }
  apply orb_false_iff in E as [_ Hroom%Z.leb_gt].
  assert (zlen (slice mem 0 (c_len e)) = c_len e) as Hz by (apply zlen_slice; lia).
  destruct (fill_ok s q e (c_max_count s) (slice mem 0 (c_len e)))
    as (tid&s'&Hff&Hreg&Hw'&K&A&Hd); auto.
  { split; [lia|]. rewrite slice_full by lia. done. }
  rewrite Hff. cbn [of_option mbind res_bind]. rewrite load_Some by lia.
  cbn [of_option mbind res_bind]. exists s'. split; [done|].
  split_and!; auto. intros R HR n fuel junk r. cbn in Hd.
  unfold queue_testcase_get, entry_of. destruct (c_queue s' !! q) as [e'|]; [|done].
  cbn in Hd |- *. by rewrite Hd.
Qed.

(** [queue_testcase_store_mem] for a new entry whose file has just been written from
    [mem]: unless the entry is uninteresting or there is no room, in which case nothing
    changes, the entry is in the cache afterwards, the invariant and the accounting
    hold, and the next [queue_testcase_get] of it, for any source of random numbers,
    gives back the bytes of [mem] without touching the file or the cache. *)
Theorem cache_store_get s q e mem :
  cache_wf s -> c_queue s !! q = Some e -> c_buf e = None ->
  c_len e <= zlen mem -> slice mem 0 (c_len e) = slice (c_file e) 0 (c_len e) ->
  exists s', queue_testcase_store_mem s q mem = Ret s' /\
    cache_wf s' /\ keeps s s' /\ (accounted s -> accounted s') /\
    (if c_low e || (c_max_size s <=? u64 (c_size s + c_len e)) ||
        (c_max_entries s - 1 <=? c_count s)
     then s' = s
     else deref s' (InEntry q) = Some (slice mem 0 (c_len e)) /\
       forall R (HR : RandSource R) n fuel junk (r : R),
         queue_testcase_get n fuel junk s' q r = Ret (InEntry q, s', r)).
Proof. apply store_mem_run. Qed.

(** [queue_testcase_retake] loads the new contents of the file of a cached entry, but
    takes the difference of the lengths in 32 bits and adds it in 64: an entry that a
    custom trimmer has shortened by more than 1024 bytes makes
    [q_testcase_cache_size] grow by [2^32] less the bytes gained, so that with a cache
    of at most [2^31] bytes every later lookup finds it full and evicts all but one
    entry. *)
Theorem retake_drift junk s q e b old_len :
  c_queue s !! q = Some e -> c_buf e = Some b -> 0 <= c_len e <= zlen (c_file e) ->
  0 <= old_len < 2 ^ 31 -> c_len e < 2 ^ 31 -> old_len <= zlen b ->
  0 <= c_size s < 2 ^ 63 ->
  exists s' b', queue_testcase_retake junk s q old_len = Ret s' /\
    deref s' (InEntry q) = Some b' /\ slice b' 0 (c_len e) = slice (c_file e) 0 (c_len e) /\
    c_size s' =
      (if old_len <? c_len e then c_size s + (c_len e - old_len)
       else if c_len e + 1024 <? old_len then c_size s + 2 ^ 32 - (old_len - c_len e)
       else c_size s) /\
    (c_len e + 1024 < old_len -> 1 < c_count s -> c_max_size s <= 2 ^ 31 ->
     forall len, 0 <= len < 2 ^ 31 -> cache_full s' len = true).
Proof.
  intros He Hb Hl Ho Hl31 Hob Hs. unfold queue_testcase_retake, entry_of, read_file.
  rewrite He. cbn [of_option mbind res_bind]. rewrite Hb. rewrite load_Some by lia.
  assert (zlen (slice (c_file e) 0 (c_len e)) = c_len e) as Hz by (apply zlen_slice; lia).
  assert (exists s1 b1, (if (old_len <? c_len e) || (u32 (c_len e + 1024) <? old_len)
      then (with_size s (u64 (c_size s + u32 (c_len e - old_len))), resize junk b (c_len e))
      else (s, b)) = (s1, b1) /\ c_len e <= zlen b1 /\
     c_queue s1 = c_queue s /\ c_count s1 = c_count s /\ c_max_size s1 = c_max_size s /\
     c_size s1 = (if old_len <? c_len e then c_size s + (c_len e - old_len)
       else if c_len e + 1024 <? old_len then c_size s + 2 ^ 32 - (old_len - c_len e)
       else c_size s)) as (s1&b1&->&Hb1&Hq1&Hc1&Hm1&Hs1).
  { rewrite (wrap_small 32 (c_len e + 1024)) by (split; lia).
    assert (c_len e <= zlen (resize junk b (c_len e))) as Hr.
    { unfold resize, zlen. rewrite length_app, length_take, length_replicate. lia. }
    destruct (old_len <? c_len e) eqn:E1; [|destruct (_ <? old_len) eqn:E2]; cbn; b2p;
      eexists _, _; (split; [done|]); cbn; split_and!; try done; try lia.
    - rewrite (wrap_small 32) by (split; lia). apply wrap_small. split; lia.
    - rewrite <- (wrap_small 64 (c_size s + 2 ^ 32 - (old_len - c_len e))) by (split; lia).
      replace (u32 (c_len e - old_len)) with (c_len e - old_len + 2 ^ 32); [f_equal; lia|].
      unfold wrap. rewrite <- (Z.mod_add _ 1) by lia. symmetry. apply Z.mod_small. lia. }
  cbn [of_option mbind res_bind]. rewrite store_Some by lia.
  exists (with_buf s1 q (Some (splice_at b1 0 (slice (c_file e) 0 (c_len e))))).
  exists (splice_at b1 0 (slice (c_file e) 0 (c_len e))). split; [done|]. split.
  { unfold deref. rewrite with_buf_lookup, Nat.eqb_refl, Hq1, He. done. }
  split; [rewrite <- Hz at 2; apply slice_splice_same; lia|]. split; [done|].
  intros Hshort Hc Hmax len Hlen. unfold cache_full. cbn. rewrite Hs1, Hc1, Hm1.
  rewrite (proj2 (Z.ltb_ge old_len _)), (proj2 (Z.ltb_lt _ old_len)) by lia.
  rewrite wrap_small by (split; lia).
  rewrite (proj2 (Z.leb_le _ _)), (proj2 (Z.ltb_lt 1 _)) by lia. done.
Qed.

(** ** Witnesses *)

(** Three entries of which the first two are cached, in a cache of six bytes and four
    slots; the first entry is the current one. *)
Definition cache_ex : cache_st :=
  CacheSt [CEntry 3 [1; 2; 3] false (Some [1; 2; 3]); CEntry 2 [4; 5] false (Some [4; 5]);
           CEntry 2 [6; 7] false None]
    [Some 0%nat; Some 1%nat; None; None] 6 4 5 2 2 0 0 0 false [] [].

Lemma cache_ex_wf : cache_wf cache_ex.
Proof.
  constructor; try (cbn; lia); try done.
  - intros i Hi. cbn in Hi. assert (i = 2 \/ i = 3)%nat as [->| ->] by lia; done.
  - change (occ cache_ex) with [0%nat; 1%nat].
    repeat constructor; rewrite ?elem_of_cons, ?elem_of_nil; lia.
  - intros q. change (occ cache_ex) with [0%nat; 1%nat]. rewrite !elem_of_cons, elem_of_nil. unfold cached. cbn.
    destruct q as [|[|[|q]]]; cbn; split; intros Hq;
      first [lia | by eauto | by destruct Hq as (e&b&?&?); simplify_eq].
  - cbn. rewrite !Forall_cons_iff. split_and!; [..|apply Forall_nil_2];
      (split; [cbn; lia|]; split; [unfold zlen; cbn; lia|]; intros b Hb; cbn in Hb; by simplify_eq).
Qed.

(** The third entry is read; the second one has to go (the draw of the slot of the
    current entry is repeated). *)
Example cache_get_witness :
  queue_testcase_get 4 4 None cache_ex 2 [0; 1] =
    Ret (InEntry 2,
      CacheSt [CEntry 3 [1; 2; 3] false (Some [1; 2; 3]); CEntry 2 [4; 5] false None;
               CEntry 2 [6; 7] false (Some [6; 7])]
        [Some 0%nat; Some 2%nat; None; None] 6 3 5 2 2 0 1 0 true [] [], []) /\
  match queue_testcase_get 4 4 None cache_ex 2 [0; 1] with
  | Ret (p, s', _) =>
      cache_wf s' /\ keeps cache_ex s' /\ (accounted cache_ex -> accounted s') /\
      exists b, deref s' p = Some b /\ 2 <= zlen b /\ slice b 0 2 = slice [6; 7] 0 2
  | Exit => False
  | Fault => False
  | NoFuel => True
  end.
Proof.
  split; [vm_compute; reflexivity|].
  apply (cache_get_correct 4 4 None cache_ex 2 (CEntry 2 [6; 7] false None) [0; 1] cache_ex_wf);
    [reflexivity|cbn; lia].
Defined.

Example cache_live_witness :
  exists k n0, forall n fuel, (n0 <= n)%nat -> (n0 <= fuel)%nat ->
    exists p s' l', queue_testcase_get n fuel None cache_ex 2 ([0; 0] ++ k) = Ret (p, s', l').
Proof.
  apply (cache_get_live None cache_ex 2 (CEntry 2 [6; 7] false None) [0; 0] cache_ex_wf).
  reflexivity.
Defined.

(** With a cache of a hundred bytes there is room. *)
Definition cache_ex_big : cache_st :=
  CacheSt (c_queue cache_ex) (c_slots cache_ex) 100 4 5 2 2 0 0 0 false [] [].

Example cache_store_witness :
  exists s', queue_testcase_store_mem cache_ex_big 2 [6; 7] = Ret s' /\
    deref s' (InEntry 2) = Some [6; 7].
Proof.
  destruct (cache_store_get cache_ex_big 2 (CEntry 2 [6; 7] false None) [6; 7])
    as (s'&Hs&_&_&_&Hd&_); try reflexivity.
  - destruct cache_ex_wf. constructor; assumption.
  - exists s'. split; assumption.
Defined.

(** An entry of 1030 bytes is trimmed to two: the size grows from 1032 to more than four
    billion. *)
Example retake_witness :
  let s := CacheSt [CEntry 2 [7; 7] false (Some (replicate 1030 1)); CEntry 2 [4; 5] false (Some [4; 5])]
             [Some 0%nat; Some 1%nat; None; None] (50 * 1048576) 4 1032 2 2 0 0 0 false [] [] in
  exists s', queue_testcase_retake 0 s 0 1030 = Ret s' /\ c_size s' = 4294967300 /\
    cache_full s' 1 = true.
Proof.
  intros s.
  destruct (retake_drift 0 s 0 (CEntry 2 [7; 7] false (Some (replicate 1030 1)))
    (replicate 1030 1) 1030) as (s'&b'&Hr&_&_&Hs&Hf).
  - reflexivity.
  - reflexivity.
  - unfold zlen. cbn. lia.
  - lia.
  - cbn. lia.
  - vm_compute. congruence.
  - cbn. lia.
  - exists s'. split; [exact Hr|]. split; [exact Hs|]. apply Hf; cbn; lia.
Defined.
