(* ===== verification/Extras.v ===== *)
(** * Dictionaries

    [src/afl-fuzz-extras.c]: the parser of dictionary files, the table [extras] of the
    tokens the user gives and the table [a_extras] of those found on the way, their
    files; and [__tokencap_dump] of [utils/libtokencap/libtokencap.so.c], which writes
    dictionary files.  A token is the list of its [len] bytes: what follows them in
    their allocation is never read. *)

From Stdlib Require Export Sorted.
From S2P Require Import Prelude Res Rng MutTables Mutations.

Definition MAX_DICT_FILE : Z := 128.
Definition MIN_AUTO_EXTRA : Z := 3.
Definition MAX_AUTO_EXTRA : Z := 32.
Definition USE_AUTO_EXTRAS : Z := 4096.
Definition MAX_AUTO_EXTRAS : Z := USE_AUTO_EXTRAS * 8.
Definition MAX_LINE : Z := 8192.

(** ** The C library *)

(** [qsort]: the elements in another order, ascending when the comparison function
    compares some key; the order of elements that compare equal is not specified. *)
Class Qsort := {
  qsort : forall {A}, (A -> A -> Z) -> list A -> list A;
  qsort_perm : forall A (cmp : A -> A -> Z) l, qsort cmp l ≡ₚ l;
  qsort_sorted : forall A (cmp : A -> A -> Z) (key : A -> Z) l,
    (forall a b, a ∈ l -> b ∈ l -> (cmp a b <=? 0) = (key a <=? key b)) ->
    StronglySorted (fun a b => key a <= key b) (qsort cmp l)
}.

Definition isspace (c : Z) : bool := (c =? 32) || ((9 <=? c) && (c <=? 13)).
Definition isdigit (c : Z) : bool := (48 <=? c) && (c <=? 57).
Definition isupper (c : Z) : bool := (65 <=? c) && (c <=? 90).
Definition islower (c : Z) : bool := (97 <=? c) && (c <=? 122).
Definition isalnum (c : Z) : bool := isdigit c || isupper c || islower c.
Definition tolower (c : Z) : Z := if isupper c then c + 32 else c.
Definition isxdigit (c : Z) : bool :=
  isdigit c || ((97 <=? tolower c) && (tolower c <=? 102)).

(** A pointer into a string is the rest of it, without the terminating 0; [*p]. *)
Definition at0 (p : list Z) : Z := default 0 (head p).

Fixpoint skip (f : Z -> bool) (p : list Z) : list Z :=
  match p with
  | [] => []
  | c :: r => if f c then skip f r else p
  end.

Fixpoint cstr (l : list Z) : list Z :=
  match l with
  | [] => []
  | c :: l => if c =? 0 then [] else c :: cstr l
  end.

Fixpoint digits (p : list Z) (acc : Z) : Z :=
  match p with
  | [] => acc
  | c :: p => if isdigit c then digits p (10 * acc + (c - 48)) else acc
  end.

(** [atoi]: [strtol], which saturates, converted to [int]. *)
Definition atoi (p : list Z) : Z :=
  let p := skip isspace p in
  let neg := at0 p =? 45 in
  let p := if neg || (at0 p =? 43) then tail p else p in
  let v := digits p 0 in
  s32 (if neg then Z.max (- 2 ^ 63) (- v) else Z.min (2 ^ 63 - 1) v).

(** The successive results of [fgets(buf, MAX_LINE, f)]; [n] bytes are in [cur], in
    reverse. *)
Fixpoint fgets_all (f cur : list Z) (n : Z) : list (list Z) :=
  match f with
  | [] => match cur with [] => [] | _ => [rev cur] end
  | c :: f =>
      if (c =? 10) || (n + 1 =? MAX_LINE - 1) then rev (c :: cur) :: fgets_all f [] 0
      else fgets_all f (c :: cur) (n + 1)
  end.

(** ** The parser *)

(** [strchr(hexdigits, tolower(c)) - hexdigits] *)
Definition hexval (c : Z) : Z := if isdigit c then c - 48 else tolower c - 97 + 10.

(** The loop that copies the data between the quotes. *)
Fixpoint unescape (p : list Z) : list Z :=
  match p with
  | [] => []
  | c :: p1 =>
      if ((1 <=? c) && (c <=? 31)) || ((128 <=? c) && (c <=? 255)) then unescape p1
      else if c =? 92 then
        match p1 with
        | [] => []
        | e :: p2 =>
            if (e =? 92) || (e =? 34) then e :: unescape p2
            else
              match p2 with
              | h :: l :: p4 =>
                  if (e =? 120) && isxdigit h && isxdigit l
                  then u8 (Z.lor (Z.shiftl (hexval h) 4) (hexval l)) :: unescape p4
                  else unescape p1
              | _ => unescape p1
              end
        end
      else c :: unescape p1
  end.

(** One line, as [fgets] gives it; [None] where the code continues with the next line. *)
Definition parse_line (dict_level : Z) (line : list Z) : option (list Z) :=
  let p := skip isspace (cstr line) in
  let p := rev (skip isspace (rev p)) in
  if (at0 p =? 0) || (at0 p =? 35) then None
  else
    match rev p with
    | [] => None
    | r :: p' =>
        if negb (r =? 34) then None
        else
          let p := skip (fun c => isalnum c || (c =? 95)) (rev p') in
          p ← (if at0 p =? 64 then
                 let p := tail p in
                 if atoi p >? s32 dict_level then None else Some (skip isdigit p)
               else Some p);
          let p := if at0 p =? 91 then
                     let p := skip isdigit (tail p) in
                     if at0 p =? 93 then tail p else p
                   else p in
          let p := skip (fun c => isspace c || (c =? 61)) p in
          if negb (at0 p =? 34) then None
          else
            let p := tail p in
            match p with
            | [] => None
            | _ => Some (unescape p)
            end
    end.

(** The loop over the lines; the state is the table and the two lengths. *)
Definition dict := (list (list Z) * Z * Z)%type.

Definition load_line (dict_level : Z) (s : dict) (line : list Z) : dict :=
  let '(extras, min_len, max_len) := s in
  match parse_line dict_level line with
  | None => s
  | Some tok =>
      let klen := zlen tok in
      if klen >? MAX_DICT_FILE then s
      else (extras ++ [tok], (if min_len >? klen then klen else min_len),
            (if max_len <? klen then klen else max_len))
  end.

Definition load_extras_file (file : list Z) (s : dict) (dict_level : Z) : dict :=
  fold_left (load_line dict_level) (fgets_all file [] 0) s.

(** ** The table of the user's tokens *)

(** The comparison functions: differences of unsigned lengths and counts. *)
Definition compare_extras_len (e1 e2 : list Z) : Z := s32 (zlen e1 - zlen e2).

Definition add_extra_nocheck (extras : list (list Z)) (mem : list Z) : list (list Z) :=
  extras ++ [mem].

(** [memcmp_nocase] for buffers of the same length. *)
Fixpoint memcmp_nocase (m1 m2 : list Z) : bool :=
  match m1, m2 with
  | a :: m1, b :: m2 =>
      if negb (Z.lxor (tolower a) (tolower b) =? 0) then true else memcmp_nocase m1 m2
  | _, _ => false
  end.

(** The bytes of a token at positions [j] with [f j]; [j] is the position of the first
    byte. *)
Fixpoint pick_bytes (f : Z -> bool) (j : Z) (t : list Z) : list Z :=
  match t with
  | [] => []
  | b :: t => if f j then b :: pick_bytes f (j + 1) t else pick_bytes f (j + 1) t
  end.

Definition zeros (f : Z -> bool) (t : list Z) : Z :=
  zlen (filter (fun b => b = 0) (pick_bytes f 0 t)).

(** One iteration of [deunicode_extras]: the tokens that are added for [t]. *)
Definition deunicode (t : list Z) : list (list Z) :=
  let len := zlen t in
  if (len <? 6) || (len >? 64) || z2b (len mod 2) then []
  else
    let half := Z.shiftr len 1 in
    let quarter := Z.shiftr half 1 in
    let z1 := zeros (fun j => (j mod 4 =? 2) || (j mod 4 =? 0)) t in
    let z2 := zeros (fun j => (j mod 4 =? 3) || (j mod 4 =? 1)) t in
    let z3 := zeros (fun j => j mod 4 =? 2) t in
    let z4 := zeros (fun j => j mod 4 =? 3) t in
    if ((z1 <? half) && (z2 <? half)) || (z1 + z2 =? len) then []
    else
      (if (len mod 4 =? 0) && (len >=? 12) && ((z3 =? quarter) || (z4 =? quarter))
          && (z1 + z2 =? quarter * 3)
       then [pick_bytes (fun j =>
               if z4 <? quarter then j mod 4 =? 3
               else if z3 <? quarter then j mod 4 =? 2
               else if z2 <? half then j mod 4 =? 1
               else j mod 4 =? 0) 0 t]
       else []) ++
      [pick_bytes (fun j => if z1 <? half then j mod 2 =? 0 else j mod 2 =? 1) 0 t].

(** The inner loop of [dedup_extras], with its [goto]. *)
Fixpoint dedup_inner (fuel : nat) (extras : list (list Z)) (i j : nat) : option (list (list Z)) :=
  match fuel with
  | O => None
  | S fuel =>
      if (length extras <=? j)%nat then Some extras
      else
        ei ← extras !! i;
        ej ← extras !! j;
        if negb (zlen ei =? zlen ej) then Some extras
        else if bool_decide (ei = ej) then dedup_inner fuel (delete j extras) i j
        else dedup_inner fuel extras i (S j)
  end.

Fixpoint dedup_outer (fuel : nat) (extras : list (list Z)) (i : nat) : option (list (list Z)) :=
  match fuel with
  | O => None
  | S fuel =>
      if (i <? length extras - 1)%nat then
        extras ← dedup_inner (S (length extras)) extras i (S i);
        dedup_outer fuel extras (S i)
      else Some extras
  end.

Definition dedup_extras (extras : list (list Z)) : option (list (list Z)) :=
  if (length extras <? 2)%nat then Some extras
  else dedup_outer (S (length extras)) extras 0.

(** The search of [add_extra]: [true] when the token is there. *)
Fixpoint add_extra_scan (extras : list (list Z)) (mem : list Z) (found : bool) : bool :=
  match extras with
  | [] => false
  | e :: extras =>
      if zlen e =? zlen mem then
        if bool_decide (e = mem) then true else add_extra_scan extras mem true
      else if found then false
      else add_extra_scan extras mem found
  end.

Section Sort.
Context `{Qsort}.

Definition extras_check_and_sort (extras : list (list Z)) : list (list Z) :=
  match extras with
  | [] => extras
  | _ => qsort compare_extras_len extras
  end.

Definition deunicode_extras (extras : list (list Z)) : list (list Z) :=
  match extras with
  | [] => extras
  | _ => qsort compare_extras_len
           (fold_left (fun ex t => fold_left add_extra_nocheck (deunicode t) ex) extras extras)
  end.

Definition add_extra (extras : list (list Z)) (mem : list Z) : list (list Z) :=
  if add_extra_scan extras mem false then extras
  else if zlen mem >? MAX_DICT_FILE then extras
  else qsort compare_extras_len (add_extra_nocheck extras mem).
End Sort.

(** *** Loading *)

(** What the path of a dictionary names: a file, or a directory with its entries, for
    each of which it is told whether it is a regular file. *)
Inductive node :=
| NFile (content : list Z)
| NDir (entries : list (bool * list Z)).

Definition load_entry (s : dict) (e : bool * list Z) : dict :=
  let '(extras, min_len, max_len) := s in
  let '(regular, content) := e in
  let size := zlen content in
  if negb regular || (size =? 0) then s
  else if size >? MAX_DICT_FILE then s
  else (extras ++ [content], (if min_len >? size then size else min_len),
        (if max_len <? size then size else max_len)).

(** [strchr(dir, '@')]: the path before it and what follows. *)
Fixpoint split_at (p : list Z) : list Z * option (list Z) :=
  match p with
  | [] => ([], None)
  | c :: p =>
      if c =? 64 then ([], Some p)
      else let '(a, b) := split_at p in (c :: a, b)
  end.

Definition load_extras `{Qsort} (fs : list Z -> option node) (extras : list (list Z))
  (dir : list Z) : res (list (list Z)) :=
  let '(path, level) := split_at dir in
  let dict_level := match level with Some l => u32 (atoi l) | None => 0 end in
  match fs path with
  | None => Exit
  | Some (NFile content) =>
      let '(extras, _, _) := load_extras_file content (extras, MAX_DICT_FILE, 0) dict_level in
      Ret (extras_check_and_sort extras)
  | Some (NDir entries) =>
      match level with
      | Some _ => Exit
      | None =>
          let '(extras, _, _) := fold_left load_entry entries (extras, MAX_DICT_FILE, 0) in
          Ret (extras_check_and_sort extras)
      end
  end.

(** *** Capture by [libtokencap] *)

Definition hexdigit (n : Z) : Z := if n <? 10 then 48 + n else 97 + (n - 10).

(** ["\\x%02x"] *)
Definition escape (b : Z) : list Z :=
  if ((0 <=? b) && (b <=? 31)) || ((127 <=? b) && (b <=? 255)) || (b =? 34) || (b =? 92)
  then [92; 120; hexdigit (b / 16); hexdigit (b mod 16)]
  else [b].

Fixpoint dump_loop (ptr : list Z) (is_text : bool) : list Z :=
  match ptr with
  | [] => []
  | b :: ptr => if is_text && (b =? 0) then [] else escape b ++ dump_loop ptr is_text
  end.

(** What [__tokencap_dump] appends to the token file. *)
Definition tokencap_dump (ptr : list Z) (is_text : bool) : list Z :=
  let len := zlen ptr in
  if (len <? MIN_AUTO_EXTRA) || (len >? MAX_AUTO_EXTRA) then []
  else [34] ++ dump_loop ptr is_text ++ [34; 10].

(** ** The table of the automatic tokens *)

Record auto_extra := AutoExtra {
  a_data : list Z;
  a_hit_cnt : Z
}.

Record extras_st := ExtrasSt {
  x_extras : list (list Z);
  x_a_extras : list auto_extra;
  x_auto_changed : bool
}.

Definition compare_auto_extras_len (a b : auto_extra) : Z :=
  s32 (zlen (a_data a) - zlen (a_data b)).
Definition compare_auto_extras_use_d (a b : auto_extra) : Z :=
  s32 (a_hit_cnt b - a_hit_cnt a).

(** The value of [i] after the first loop of [maybe_add_auto]. *)
Fixpoint run_end (m0 : Z) (rest : list Z) (i : Z) : Z :=
  match rest with
  | [] => i
  | b :: rest => if negb (Z.lxor m0 b =? 0) then i else run_end m0 rest (i + 1)
  end.

Definition same_bytes (mem : list Z) : bool := run_end (at0 mem) (tail mem) 1 =? zlen mem.

(** The built-in values; the elements of [interesting_16] are [s16] and are compared,
    unconverted, with a [u16]. *)
Definition builtin_value (mem : list Z) : bool :=
  ((zlen mem =? 2) &&
     existsb (fun v => (le_word mem =? v) || (le_word mem =? SWAP16 v)) interesting_16)
  || ((zlen mem =? 4) &&
     existsb (fun v => (le_word mem =? u32 v) || (le_word mem =? SWAP32 v)) interesting_32).

(** The two loops over [extras], which is sorted by length. *)
Fixpoint known_same_len (extras : list (list Z)) (mem : list Z) : bool :=
  match extras with
  | [] => false
  | e :: extras =>
      if negb (zlen e =? zlen mem) then false
      else if negb (memcmp_nocase e mem) then true
      else known_same_len extras mem
  end.

Fixpoint known_extra (extras : list (list Z)) (mem : list Z) : bool :=
  match extras with
  | [] => false
  | e :: extras' =>
      if zlen e <? zlen mem then known_extra extras' mem else known_same_len extras mem
  end.

(** The loop over [a_extras]: the entry that matches has its counter raised. *)
Fixpoint hit_auto (l : list auto_extra) (mem : list Z) : option (list auto_extra) :=
  match l with
  | [] => None
  | a :: l =>
      if (zlen (a_data a) =? zlen mem) && negb (memcmp_nocase (a_data a) mem)
      then Some (AutoExtra (a_data a) (u32 (a_hit_cnt a + 1)) :: l)
      else l' ← hit_auto l mem; Some (a :: l')
  end.

Section Auto.
Context `{Qsort} {R : Type} `{RandSource R}.

Definition sort_a_extras (l : list auto_extra) : list auto_extra :=
  let l := qsort compare_auto_extras_use_d l in
  let n := Z.to_nat (Z.min USE_AUTO_EXTRAS (zlen l)) in
  qsort compare_auto_extras_len (take n l) ++ drop n l.

(** The whole of [maybe_add_auto]; [None] when the generator does not answer, or on a
    copy that does not fit the 32 bytes of [a_extras[i].data]. *)
Definition maybe_add_auto (s : extras_st) (mem : list Z) (r : R) : option (extras_st * R) :=
  if same_bytes mem || (zlen mem >? MAX_AUTO_EXTRA) then Some (s, r)
  else if builtin_value mem then Some (s, r)
  else if known_extra (x_extras s) mem then Some (s, r)
  else
    let a := x_a_extras s in
    match hit_auto a mem with
    | Some a => Some (ExtrasSt (x_extras s) (sort_a_extras a) true, r)
    | None =>
        if zlen mem >? MAX_AUTO_EXTRA then None
        else if zlen a <? MAX_AUTO_EXTRAS then
          Some (ExtrasSt (x_extras s) (sort_a_extras (a ++ [AutoExtra mem 0])) true, r)
        else
          '(k, r) ← rs_below ((MAX_AUTO_EXTRAS + 1) / 2) r;
          a ← put a (MAX_AUTO_EXTRAS / 2 + k) (AutoExtra mem 0);
          Some (ExtrasSt (x_extras s) (sort_a_extras a) true, r)
    end.

(** *** Their files

    The files [auto_000000], [auto_000001], ... of the state directory, in order. *)

Definition save_auto (s : extras_st) (files : list (list Z)) : extras_st * list (list Z) :=
  if negb (x_auto_changed s) then (s, files)
  else
    let n := Z.to_nat (Z.min USE_AUTO_EXTRAS (zlen (x_a_extras s))) in
    (ExtrasSt (x_extras s) (x_a_extras s) false,
     (a_data <$> take n (x_a_extras s)) ++ drop n files).

(** The loop of [load_auto] over at most [n] files. *)
Fixpoint load_auto_loop (n : nat) (files : list (list Z)) (s : extras_st) (r : R) :
  option (extras_st * R) :=
  match n, files with
  | O, _ => Some (s, r)
  | S _, [] => Some (s, r)
  | S n, f :: files =>
      let len := Z.min (zlen f) (MAX_AUTO_EXTRA + 1) in
      '(s, r) ← (if (MIN_AUTO_EXTRA <=? len) && (len <=? MAX_AUTO_EXTRA)
                 then maybe_add_auto s (slice f 0 len) r else Some (s, r));
      load_auto_loop n files s r
  end.

Definition load_auto (files : list (list Z)) (s : extras_st) (r : R) : option (extras_st * R) :=
  load_auto_loop (Z.to_nat USE_AUTO_EXTRAS) files s r.
End Auto.
