(* ===== verification/ExtrasFacts.v ===== *)
(** * Dictionaries: parser, tables, files *)

From S2P Require Import Prelude Res Rng MutTables Mutations Extras.

(** ** Sorting *)

(** Insertion sort is a [qsort]. *)
Fixpoint ins {A} (cmp : A -> A -> Z) (x : A) (l : list A) : list A :=
  match l with
  | [] => [x]
  | y :: l => if cmp x y <=? 0 then x :: y :: l else y :: ins cmp x l
  end.
Definition isort {A} (cmp : A -> A -> Z) (l : list A) : list A := foldr (ins cmp) [] l.

Lemma ins_perm {A} (cmp : A -> A -> Z) x l : ins cmp x l ≡ₚ x :: l.
Proof.
  induction l as [|y l IH]; [done|]. cbn. destruct (_ <=? _); [done|]. rewrite IH.
  apply Permutation_swap.
Qed.

Lemma isort_perm {A} (cmp : A -> A -> Z) l : isort cmp l ≡ₚ l.
Proof. induction l as [|x l IH]; [done|]. cbn. by rewrite ins_perm, IH. Qed.

Lemma ins_sorted {A} (cmp : A -> A -> Z) (key : A -> Z) x l :
  (forall a b, a ∈ x :: l -> b ∈ x :: l -> (cmp a b <=? 0) = (key a <=? key b)) ->
  StronglySorted (fun a b => key a <= key b) l ->
  StronglySorted (fun a b => key a <= key b) (ins cmp x l).
Proof.
  induction l as [|y l IH]; intros Hk Hs; cbn; [by repeat constructor|].
  rewrite Hk by (rewrite ?elem_of_cons; tauto). apply StronglySorted_inv in Hs as [Hs Hy].
  destruct (key x <=? key y) eqn:E; b2p.
  - constructor; [by constructor|]. constructor; [done|].
    eapply Forall_impl; [|exact Hy]. intros z; cbn; lia.
  - constructor.
    + apply IH; [|done]. intros a b Ha Hb. rewrite elem_of_cons in Ha, Hb.
      apply Hk; rewrite !elem_of_cons; tauto.
    + rewrite ins_perm. constructor; [lia|done].
Qed.

#[export] Instance isort_qsort : Qsort.
Proof.
  refine {| qsort := @isort |}; intros A cmp; [apply isort_perm|].
  intros key l. induction l as [|x l IH]; intros Hk; [constructor|].
  change (isort cmp (x :: l)) with (ins cmp x (isort cmp l)). apply ins_sorted.
  - intros a b. rewrite !elem_of_cons, isort_perm. intros Ha Hb.
    apply Hk; rewrite elem_of_cons; tauto.
  - apply IH. intros a b Ha Hb. apply Hk; by right.
Defined.

(** The tables are sorted by length. *)
Definition by_len : list (list Z) -> Prop := StronglySorted (fun a b => zlen a <= zlen b).

Lemma sort_len_ok `{Qsort} l :
  Forall (fun t => zlen t < 2 ^ 31) l -> by_len (qsort compare_extras_len l).
Proof.
  intros Hl. apply qsort_sorted. intros a b Ha Hb. unfold compare_extras_len.
  pose proof (proj1 (list.Forall_forall _ _) Hl a Ha). pose proof (proj1 (list.Forall_forall _ _) Hl b Hb).
  cbn in *. pose proof (zlen_nonneg a). pose proof (zlen_nonneg b).
  rewrite swrap_small by (cbn; lia). destruct (zlen a <=? zlen b) eqn:E; b2p;
    [apply Z.leb_le|apply Z.leb_gt]; lia.
Qed.

(** ** Captured tokens come back *)

Section Roundtrip.

Lemma range_check (p : Z -> bool) n b :
  0 <= b < n -> forallb p (seqZ 0 n) = true -> p b = true.
Proof.
  intros Hb Hf. apply (proj1 (forallb_forall _ _) Hf). apply list_elem_of_In. rewrite elem_of_seqZ. lia.
Qed.

Lemma hexdigit_val n : 0 <= n < 16 -> isxdigit (hexdigit n) = true /\ hexval (hexdigit n) = n.
Proof.
  intros Hn. apply (range_check (fun n => isxdigit (hexdigit n) && (hexval (hexdigit n) =? n)) 16 n) in Hn;
    [|vm_compute; reflexivity].
  by apply andb_true_iff in Hn as [? ?%Z.eqb_eq].
Qed.

(** The characters a dumped token consists of. *)
Definition printable (c : Z) : bool := (32 <=? c) && (c <=? 126).

Lemma escape_printable b : is_u8 b -> Forall (fun c => printable c = true) (escape b).
Proof.
  intros Hb. apply List.Forall_forall, forallb_forall.
  apply (range_check (fun b => forallb printable (escape b)) 256 b Hb). vm_compute. reflexivity.
Qed.

Lemma unescape_escape b p : is_u8 b -> unescape (escape b ++ p) = b :: unescape p.
Proof.
  intros Hb. unfold in_width in Hb. unfold escape.
  destruct (_ || (b =? 92)) eqn:E.
  - assert (0 <= b / 16 < 16) as Hh by (split; [apply Z.div_pos|apply Z.div_lt_upper_bound]; lia).
    assert (0 <= b mod 16 < 16) as Hl by (apply Z.mod_pos_bound; lia).
    destruct (hexdigit_val _ Hh) as [X1 V1]. destruct (hexdigit_val _ Hl) as [X2 V2].
    change ([92; 120; hexdigit (b / 16); hexdigit (b mod 16)] ++ p)
      with (92 :: 120 :: hexdigit (b / 16) :: hexdigit (b mod 16) :: p).
    cbn -[isxdigit hexval hexdigit Z.shiftl Z.lor]. rewrite X1, X2, V1, V2.
    cbn -[Z.shiftl Z.lor]. f_equal.
    apply Z.eqb_eq, (range_check (fun b => u8 (Z.lor (Z.shiftl (b / 16) 4) (b mod 16)) =? b) 256 b Hb).
    vm_compute. reflexivity.
  - apply orb_false_iff in E as [[[E1 E2]%orb_false_iff E3]%orb_false_iff E4]. b2p.
    cbn. rewrite (proj2 (Z.eqb_neq b 92)) by done.
    destruct (_ || _) eqn:F; [exfalso|done]. apply orb_true_iff in F as [F|F]; b2p; lia.
Qed.

Lemma dump_loop_printable ptr is_text :
  bytes_ok ptr -> Forall (fun c => printable c = true) (dump_loop ptr is_text).
Proof.
  induction 1 as [|b ptr Hb _ IH]; cbn; [constructor|]. destruct (_ && _); [constructor|].
  apply Forall_app_2; [by apply escape_printable|done].
Qed.

(** The token that is captured: a text ends at its first 0. *)
Definition captured (ptr : list Z) (is_text : bool) : list Z := if is_text then cstr ptr else ptr.

Lemma unescape_dump ptr is_text :
  bytes_ok ptr -> unescape (dump_loop ptr is_text) = captured ptr is_text.
Proof.
  unfold captured. induction 1 as [|b ptr Hb _ IH]; cbn; [by destruct is_text|].
  destruct is_text; cbn [andb].
  - destruct (b =? 0); [done|]. by rewrite unescape_escape, IH.
  - by rewrite unescape_escape, IH.
Qed.

Lemma dump_loop_nil ptr is_text : dump_loop ptr is_text = [] <-> captured ptr is_text = [].
Proof.
  unfold captured. destruct ptr as [|b ptr]; cbn; [by destruct is_text|].
  destruct is_text; cbn [andb]; [destruct (b =? 0); [done|]|]; unfold escape; by case_match.
Qed.

Lemma cstr_id l : Forall (fun c => c <> 0) l -> cstr l = l.
Proof.
  induction 1 as [|c l Hc _ IH]; [done|]. cbn. by rewrite (proj2 (Z.eqb_neq _ _)), IH.
Qed.

(** A quoted line without a label is the token. *)
Lemma parse_quoted lvl body :
  Forall (fun c => printable c = true) body ->
  parse_line lvl ([34] ++ body ++ [34; 10]) = match body with [] => None | _ => Some (unescape body) end.
Proof.
  intros Hb. unfold parse_line. rewrite cstr_id.
  2:{ constructor; [done|]. apply Forall_app_2; [|by repeat constructor].
      eapply Forall_impl; [|exact Hb]. intros c Hc. unfold printable in Hc. b2p. lia. }
  change (skip isspace ([34] ++ body ++ [34; 10])) with ([34] ++ body ++ [34; 10]).
  assert (rev ([34] ++ body ++ [34; 10]) = 10 :: 34 :: rev body ++ [34]) as ->.
  { by rewrite !rev_app_distr. }
  change (skip isspace (10 :: 34 :: rev body ++ [34])) with (34 :: rev body ++ [34]).
  assert (rev (34 :: rev body ++ [34]) = 34 :: body ++ [34]) as Hr.
  { cbn. by rewrite rev_app_distr, rev_involutive. }
  rewrite Hr, <- Hr, rev_involutive. rewrite Hr. cbn -[unescape rev].
  rewrite rev_app_distr, rev_involutive. cbn. by destruct body.
Qed.

Lemma fgets_line l f cur n :
  Forall (fun c => c <> 10) l -> n + zlen l + 1 <= MAX_LINE - 1 -> 0 <= n ->
  fgets_all (l ++ 10 :: f) cur n = (rev cur ++ l ++ [10]) :: fgets_all f [] 0.
Proof.
  intros Hl. revert cur n. induction Hl as [|c l Hc Hl IH]; intros cur n Hn H0; [done|].
  rewrite zlen_cons in Hn. pose proof (zlen_nonneg l). cbn.
  rewrite (proj2 (Z.eqb_neq c 10)), (proj2 (Z.eqb_neq (n + 1) _)) by (done || unfold MAX_LINE in *; lia).
  cbn. rewrite IH by lia. cbn. by rewrite <- app_assoc.
Qed.

Definition kept (cap : list Z * bool) : Prop :=
  MIN_AUTO_EXTRA <= zlen (cap.1) <= MAX_AUTO_EXTRA /\ captured cap.1 cap.2 <> [].
#[local] Instance kept_dec cap : Decision (kept cap).
Proof. unfold kept. apply _. Defined.

Lemma zlen_dump_loop ptr is_text : zlen (dump_loop ptr is_text) <= 4 * zlen ptr.
Proof.
  induction ptr as [|b ptr IH]; [done|]. rewrite zlen_cons. cbn. destruct (_ && _);
    [change (zlen (@nil Z)) with 0; pose proof (zlen_nonneg ptr); lia|].
  rewrite zlen_app. unfold escape. case_match; unfold zlen at 1; cbn; lia.
Qed.

Lemma zlen_captured ptr is_text : zlen (captured ptr is_text) <= zlen ptr.
Proof.
  unfold captured. destruct is_text; [|done].
  induction ptr as [|b ptr IH]; [done|]. cbn. rewrite zlen_cons. destruct (b =? 0);
    [change (zlen (@nil Z)) with 0; pose proof (zlen_nonneg ptr)|rewrite zlen_cons]; lia.
Qed.

Lemma load_dump lvl ptr is_text f s :
  bytes_ok ptr ->
  fold_left (load_line lvl) (fgets_all (tokencap_dump ptr is_text ++ f) [] 0) s =
  fold_left (load_line lvl) (fgets_all f [] 0)
    (let '(ex, mn, mx) := s in
     if decide (kept (ptr, is_text)) then
       let t := captured ptr is_text in
       (ex ++ [t], (if mn >? zlen t then zlen t else mn), (if mx <? zlen t then zlen t else mx))
     else s).
Proof.
  intros Hb. destruct s as [[ex mn] mx]. unfold tokencap_dump.
  destruct ((zlen ptr <? _) || _) eqn:E.
  { rewrite decide_False; [done|]. unfold kept. cbn. apply orb_true_iff in E as [E|E]; b2p; lia. }
  apply orb_false_iff in E as [E1 E2]. b2p.
  pose proof (dump_loop_printable ptr is_text Hb) as Hp. pose proof (zlen_dump_loop ptr is_text).
  replace (([34] ++ dump_loop ptr is_text ++ [34; 10]) ++ f)
    with (([34] ++ dump_loop ptr is_text ++ [34]) ++ 10 :: f) by (by rewrite <- !app_assoc).
  rewrite fgets_line; [| |rewrite !zlen_app, !zlen_one; unfold MAX_AUTO_EXTRA, MAX_LINE in *; lia|lia].
  2:{ constructor; [done|]. apply Forall_app_2; [|by repeat constructor].
      eapply Forall_impl; [|exact Hp]. intros c Hc. unfold printable in Hc. b2p. lia. }
  cbn [fold_left rev app]. f_equal. unfold load_line.
  replace (34 :: (dump_loop ptr is_text ++ [34]) ++ [10])
    with ([34] ++ dump_loop ptr is_text ++ [34; 10]) by (cbn; by rewrite <- app_assoc).
  rewrite parse_quoted by done.
  destruct (dump_loop ptr is_text) as [|c d] eqn:Ed.
  { rewrite decide_False; [done|]. apply dump_loop_nil in Ed. by intros [_ Hk]. }
  rewrite <- Ed, unescape_dump by done.
  pose proof (zlen_captured ptr is_text). rewrite decide_True.
  - destruct (zlen (captured ptr is_text) >? MAX_DICT_FILE) eqn:G; [|done].
    b2p. unfold MAX_AUTO_EXTRA, MAX_DICT_FILE in *. lia.
  - split; [cbn; lia|]. cbn. intros Hn. apply dump_loop_nil in Hn. congruence.
Qed.

(** C26. Round trip: the dictionary file that [libtokencap] writes for a sequence of
    captured byte strings is read back by [load_extras_file], for any dictionary level, as
    exactly these tokens in order: those of 3 to 32 bytes, a text up to its first 0, and
    not the empty ones. *)
Theorem tokencap_roundtrip lvl caps extras min_len max_len :
  Forall (fun cap => bytes_ok cap.1) caps ->
  exists mn mx,
    load_extras_file (mjoin ((fun cap => tokencap_dump cap.1 cap.2) <$> caps))
      (extras, min_len, max_len) lvl =
    (extras ++ ((fun cap => captured cap.1 cap.2) <$> filter kept caps), mn, mx).
Proof.
  intros Hc. unfold load_extras_file. revert extras min_len max_len.
  induction Hc as [|[ptr is_text] caps Hb _ IH]; intros ex mn mx.
  { exists mn, mx. cbn. by rewrite app_nil_r. }
  cbn [fmap list_fmap mjoin list_join fst snd]. rewrite load_dump by done.
  rewrite filter_cons. destruct (decide (kept (ptr, is_text))).
  - edestruct (IH (ex ++ [captured ptr is_text])) as (mn'&mx'&E). exists mn', mx'.
    cbn zeta. rewrite E. by rewrite <- app_assoc.
  - apply IH.
Qed.
End Roundtrip.

Example tokencap_roundtrip_witness :
  exists mn mx,
    load_extras_file (mjoin ((fun cap => tokencap_dump cap.1 cap.2) <$>
        [([71; 69; 84; 0; 9], true); ([34; 0; 255; 92], false); ([1; 2], false); ([0; 1; 2], true)]))
      ([], 128, 0) 0 = ([[71; 69; 84]; [34; 0; 255; 92]], mn, mx).
Proof.
  apply (tokencap_roundtrip 0
    [([71; 69; 84; 0; 9], true); ([34; 0; 255; 92], false); ([1; 2], false); ([0; 1; 2], true)] [] 128 0).
  repeat constructor; vm_compute; congruence.
Defined.

(** ** Duplicates *)

(** The reference: the first occurrences, in order. *)
Fixpoint nub (l : list (list Z)) : list (list Z) :=
  match l with
  | [] => []
  | x :: l => x :: filter (fun y => y <> x) (nub l)
  end.

Lemma filter_swap {A} (P Q : A -> Prop) `{forall x, Decision (P x)} `{forall x, Decision (Q x)} (l : list A) :
  filter P (filter Q l) = filter Q (filter P l).
Proof.
  induction l as [|x l IH]; [done|]. rewrite !(filter_cons _ x l).
  repeat case_decide; rewrite ?filter_cons_True, ?filter_cons_False by done; by rewrite ?IH.
Qed.

Lemma filter_all {A} (P : A -> Prop) `{forall x, Decision (P x)} (l : list A) :
  Forall P l -> filter P l = l.
Proof. induction 1 as [|x l Hx _ IH]; [done|]. by rewrite filter_cons_True, IH. Qed.

Lemma Forall_filter {A} (P Q : A -> Prop) `{forall x, Decision (Q x)} (l : list A) :
  Forall P l -> Forall P (filter Q l).
Proof.
  induction 1 as [|x l Hx _ IH]; [constructor|]. rewrite filter_cons. case_decide; [by constructor|done].
Qed.

Lemma nub_filter x l : nub (filter (fun y => y <> x) l) = filter (fun y => y <> x) (nub l).
Proof.
  induction l as [|y l IH]; [done|]. rewrite filter_cons. destruct (decide (y <> x)) as [Hy|Hy].
  - cbn [nub]. rewrite filter_cons_True by done. rewrite IH. f_equal. apply filter_swap.
  - cbn [nub]. rewrite filter_cons_False by done. rewrite IH. assert (y = x) as -> by (by destruct (decide (y = x))).
    rewrite list_filter_filter. apply list_filter_iff. tauto.
Qed.

Lemma elem_of_nub x l : x ∈ nub l <-> x ∈ l.
Proof.
  induction l as [|y l IH]; [done|]. cbn. rewrite !elem_of_cons, list_elem_of_filter, IH.
  destruct (decide (x = y)); tauto.
Qed.

Lemma NoDup_nub l : NoDup (nub l).
Proof.
  induction l as [|y l IH]; [constructor|]. cbn. apply list.NoDup_cons. split.
  - rewrite list_elem_of_filter. tauto.
  - by apply list.NoDup_filter.
Qed.

Lemma by_len_filter (P : list Z -> Prop) `{forall x, Decision (P x)} l :
  by_len l -> by_len (filter P l).
Proof.
  induction 1 as [|x l _ IH Hx]; [constructor|]. rewrite filter_cons. case_decide; [|done].
  constructor; [done|]. by apply Forall_filter.
Qed.

Lemma by_len_nub l : by_len l -> by_len (nub l).
Proof.
  induction 1 as [|x l _ IH Hx]; [constructor|]. constructor; [by apply by_len_filter|].
  apply Forall_filter. apply list.Forall_forall. intros y Hy. rewrite elem_of_nub in Hy.
  exact (proj1 (list.Forall_forall _ _) Hx y Hy).
Qed.

Lemma by_len_app l k : by_len (l ++ k) -> by_len k.
Proof. induction l as [|x l IH]; [done|]. intros [Hs _]%StronglySorted_inv. auto. Qed.

Lemma dedup_inner_ok pre e mid rest fuel :
  (length rest < fuel)%nat -> Forall (fun y => y <> e) mid -> by_len (e :: rest) ->
  dedup_inner fuel (pre ++ e :: mid ++ rest) (length pre) (S (length pre + length mid)) =
  Some (pre ++ e :: mid ++ filter (fun y => y <> e) rest).
Proof.
  revert mid rest. induction fuel as [|fuel IH]; intros mid rest Hf Hm Hs; [lia|].
  cbn [dedup_inner].
  rewrite (list_lookup_middle pre (mid ++ rest) e (length pre)) by done.
  cbn [mbind option_bind].
  destruct rest as [|y rest].
  { change (filter (fun y => y <> e) []) with (@nil (list Z)). rewrite app_nil_r.
    rewrite (proj2 (Nat.leb_le _ _)); [done|]. rewrite length_app. cbn. lia. }
  rewrite (proj2 (Nat.leb_gt _ _)) by (rewrite !length_app; cbn; rewrite length_app; cbn; lia).
  replace (pre ++ e :: mid ++ y :: rest) with ((pre ++ e :: mid) ++ y :: rest)
    by (by rewrite <- app_assoc).
  rewrite (list_lookup_middle (pre ++ e :: mid) rest y (S (length pre + length mid)))
    by (rewrite length_app; cbn; lia). cbn [mbind option_bind].
  apply StronglySorted_inv in Hs as [Hs He]. apply StronglySorted_inv in Hs as [Hs Hy].
  apply Forall_cons_iff in He as [Hey He].
  destruct (zlen e =? zlen y) eqn:E; cbn [negb]; b2p.
  - destruct (bool_decide_reflect (e = y)) as [<-|Hne].
    + replace (delete (S (length pre + length mid)) ((pre ++ e :: mid) ++ e :: rest))
        with (pre ++ e :: mid ++ rest).
      2:{ replace (S (length pre + length mid)) with (length (pre ++ e :: mid))
            by (rewrite length_app; cbn; lia). by rewrite delete_middle, <- app_assoc. }
      rewrite filter_cons_False by tauto. apply IH; [cbn in Hf; lia|done|by constructor].
    + rewrite filter_cons_True by done.
      specialize (IH (mid ++ [y]) rest). rewrite length_app in IH. cbn in IH.
      replace (S (length pre + length mid)) with (length pre + (length mid + 1))%nat by lia.
      rewrite <- !app_assoc in IH |- *. cbn [app] in IH |- *.
      rewrite <- (app_assoc mid [y]) in IH. apply IH; [cbn in Hf; lia| |by constructor].
      apply Forall_app_2; [done|]. by repeat constructor.
  - rewrite filter_all; [by rewrite <- app_assoc|].
    constructor; [congruence|]. eapply Forall_impl; [|exact Hy]. intros z Hz ->. cbn in Hz. lia.
Qed.

Lemma dedup_outer_ok fuel pre rest :
  (length rest < fuel)%nat -> by_len rest ->
  dedup_outer fuel (pre ++ rest) (length pre) = Some (pre ++ nub rest).
Proof.
  revert pre rest. induction fuel as [|fuel IH]; intros pre rest Hf Hs; [lia|]. cbn [dedup_outer].
  destruct rest as [|e rest].
  { rewrite (proj2 (Nat.ltb_ge _ _)); [done|]. rewrite length_app. cbn. lia. }
  destruct (_ <? _)%nat eqn:E.
  - pose proof (dedup_inner_ok pre e [] rest (S (length (pre ++ e :: rest)))) as Hi. cbn [app] in Hi.
    cbn [length] in Hi. rewrite Nat.add_0_r in Hi. rewrite Hi; [|rewrite length_app; cbn; lia|done|done].
    cbn [mbind option_bind]. apply StronglySorted_inv in Hs as [Hs He].
    specialize (IH (pre ++ [e]) (filter (fun y => y <> e) rest)).
    rewrite length_app, Nat.add_comm, <- !app_assoc in IH. cbn in Hf |- *.
    rewrite <- nub_filter. apply IH; [|by apply by_len_filter].
    pose proof (length_filter (fun y => y <> e) rest). lia.
  - apply Nat.ltb_ge in E. rewrite length_app in E. cbn in E.
    destruct rest; [done|cbn in E; lia].
Qed.

Lemma dedup_extras_nub l : by_len l -> dedup_extras l = Some (nub l).
Proof.
  intros Hs. unfold dedup_extras. destruct (_ <? _)%nat eqn:E.
  - apply Nat.ltb_lt in E. destruct l as [|x [|y l]]; [done|done|cbn in E; lia].
  - apply (dedup_outer_ok _ []); [lia|done].
Qed.

(** ** Adding a token *)

Lemma scan_spec l mem found :
  by_len l -> (found = true -> Forall (fun e => zlen mem <= zlen e) l) ->
  add_extra_scan l mem found = true <-> mem ∈ l.
Proof.
  revert found. induction l as [|e l IH]; intros found Hs Hf; cbn;
    [split; [done|by intros ?%elem_of_nil]|].
  apply StronglySorted_inv in Hs as [Hs He]. rewrite elem_of_cons.
  destruct (zlen e =? zlen mem) eqn:E; b2p.
  - destruct (bool_decide_reflect (e = mem)) as [->|Hn]; [tauto|].
    rewrite IH; [|done|intros _; eapply Forall_impl; [|exact He]; cbn; intros; lia].
    split; [tauto|]. intros [->|]; [done|done].
  - assert (mem <> e) by congruence. destruct found.
    + specialize (Hf eq_refl). apply Forall_cons_iff in Hf as [Hle Hf]. split; [done|].
      intros [?|Hin]; [done|]. exfalso.
      pose proof (proj1 (list.Forall_forall _ _) He mem Hin) as Hm. cbn in Hm. lia.
    + rewrite IH by done. tauto.
Qed.

(** The invariant of the table. *)
Definition extras_wf (l : list (list Z)) : Prop :=
  by_len l /\ NoDup l /\ Forall (fun t => zlen t <= MAX_DICT_FILE) l.

Lemma add_extra_ok `{Qsort} l mem :
  extras_wf l ->
  extras_wf (add_extra l mem) /\
  forall t, t ∈ add_extra l mem <-> t ∈ l \/ (t = mem /\ zlen mem <= MAX_DICT_FILE).
Proof.
  intros (Hs&Hn&Hl). unfold add_extra.
  destruct (add_extra_scan l mem false) eqn:E.
  { apply scan_spec in E; [|done|done]. split; [done|]. intros t. split; [tauto|].
    intros [?|[-> _]]; done. }
  assert (mem ∉ l) as Hm.
  { intros Hin. apply (scan_spec l mem false) in Hin; [congruence|done|done]. }
  destruct (zlen mem >? MAX_DICT_FILE) eqn:G; b2p.
  { split; [done|]. intros t. split; [tauto|]. intros [?|[-> ?]]; [done|lia]. }
  unfold add_extra_nocheck.
  assert (Forall (fun t => zlen t <= MAX_DICT_FILE) (l ++ [mem])) as Hl2
    by (apply Forall_app_2; [done|by repeat constructor]).
  split; [split; [|split]|].
  - apply sort_len_ok. eapply Forall_impl; [|exact Hl2]. unfold MAX_DICT_FILE. cbn. intros; lia.
  - rewrite qsort_perm. rewrite (Permutation_app_comm l [mem]). by apply list.NoDup_cons.
  - by rewrite qsort_perm.
  - intros t. rewrite qsort_perm, elem_of_app, list_elem_of_singleton. tauto.
Qed.

(** ** The life of the table *)

Lemma load_line_ok lvl s line :
  Forall (fun t => zlen t <= MAX_DICT_FILE) s.1.1 ->
  Forall (fun t => zlen t <= MAX_DICT_FILE) (load_line lvl s line).1.1 /\
  exists l, (load_line lvl s line).1.1 = s.1.1 ++ l.
Proof.
  destruct s as [[ex mn] mx]. cbn. intros Hf.
  destruct (parse_line lvl line) as [t|]; [destruct (_ >? _) eqn:E|]; b2p; cbn;
    try (split; [done|exists []; by rewrite app_nil_r]).
  split; [apply Forall_app_2; [done|by repeat constructor]|by exists [t]].
Qed.

Lemma load_entry_ok s e :
  Forall (fun t => zlen t <= MAX_DICT_FILE) s.1.1 ->
  Forall (fun t => zlen t <= MAX_DICT_FILE) (load_entry s e).1.1 /\
  exists l, (load_entry s e).1.1 = s.1.1 ++ l.
Proof.
  destruct s as [[ex mn] mx], e as [reg c]. cbn. intros Hf.
  destruct (negb reg || _); [|destruct (_ >? _) eqn:E]; b2p; cbn;
    try (split; [done|exists []; by rewrite app_nil_r]).
  split; [apply Forall_app_2; [done|by repeat constructor]|by exists [c]].
Qed.

Lemma fold_load_ok {A} (f : dict -> A -> dict) xs s :
  (forall s x, Forall (fun t => zlen t <= MAX_DICT_FILE) s.1.1 ->
     Forall (fun t => zlen t <= MAX_DICT_FILE) (f s x).1.1 /\ exists l, (f s x).1.1 = s.1.1 ++ l) ->
  Forall (fun t => zlen t <= MAX_DICT_FILE) s.1.1 ->
  Forall (fun t => zlen t <= MAX_DICT_FILE) (fold_left f xs s).1.1 /\
  exists l, (fold_left f xs s).1.1 = s.1.1 ++ l.
Proof.
  intros Hf. revert s. induction xs as [|x xs IH]; intros s Hs; cbn.
  { split; [done|]. exists []. by rewrite app_nil_r. }
  destruct (Hf s x Hs) as [H1 [l1 E1]]. destruct (IH _ H1) as [H2 [l2 E2]].
  split; [done|]. exists (l1 ++ l2). by rewrite E2, E1, app_assoc.
Qed.

Lemma check_and_sort_ok `{Qsort} l :
  Forall (fun t => zlen t <= MAX_DICT_FILE) l ->
  by_len (extras_check_and_sort l) /\ extras_check_and_sort l ≡ₚ l.
Proof.
  intros Hl. unfold extras_check_and_sort. destruct l as [|x l]; [split; [constructor|done]|].
  split; [|apply qsort_perm]. apply sort_len_ok. eapply Forall_impl; [|exact Hl].
  unfold MAX_DICT_FILE. cbn. intros; lia.
Qed.

Lemma load_extras_ok `{Qsort} fs ex dir l :
  load_extras fs ex dir = Ret l -> Forall (fun t => zlen t <= MAX_DICT_FILE) ex ->
  by_len l /\ Forall (fun t => zlen t <= MAX_DICT_FILE) l /\ forall t, t ∈ ex -> t ∈ l.
Proof.
  intros El Hex. unfold load_extras in El. destruct (split_at dir) as [path level].
  assert (forall s : dict, Forall (fun t => zlen t <= MAX_DICT_FILE) s.1.1 ->
    (exists k, s.1.1 = ex ++ k) -> l = extras_check_and_sort s.1.1 ->
    by_len l /\ Forall (fun t => zlen t <= MAX_DICT_FILE) l /\ forall t, t ∈ ex -> t ∈ l) as Hfin.
  { intros s Hs [k Hk] ->. destruct (check_and_sort_ok s.1.1 Hs) as [Hb Hp]. split; [done|].
    split; [by rewrite Hp|]. intros t Ht. rewrite Hp, Hk, elem_of_app. by left. }
  destruct (fs path) as [[content|entries]|]; [| |done].
  - unfold load_extras_file in El.
    destruct (fold_load_ok _ (fgets_all content [] 0) (ex, MAX_DICT_FILE, 0)
      (load_line_ok (match level with Some l => u32 (atoi l) | None => 0 end)) Hex) as [H1 H2].
    destruct (fold_left _ _ _) as [[ex' mn] mx]. injection El as El.
    apply (Hfin (ex', mn, mx)); [done|done|by symmetry].
  - destruct level; [done|].
    destruct (fold_load_ok _ entries (ex, MAX_DICT_FILE, 0) load_entry_ok Hex) as [H1 H2].
    destruct (fold_left _ _ _) as [[ex' mn] mx]. injection El as El.
    apply (Hfin (ex', mn, mx)); [done|done|by symmetry].
Qed.

(** C38. The table of the user's tokens.  For every way to sort: [dedup_extras] on a table
    sorted by length, which is what [load_extras] leaves, keeps exactly the first
    occurrence of each token (the reference [nub]), so that loading and
    deduplicating gives a table sorted by length, without duplicates, without tokens
    above 128 bytes, and with all the tokens loaded before; and [add_extra] keeps such a
    table so and adds exactly the given token, if it is not too long. *)
Theorem extras_table_correct `{Qsort} fs ex dir l mem :
  (load_extras fs ex dir = Ret l -> Forall (fun t => zlen t <= MAX_DICT_FILE) ex ->
     dedup_extras l = Some (nub l) /\ extras_wf (nub l) /\
     (forall t, t ∈ nub l <-> t ∈ l) /\ (forall t, t ∈ ex -> t ∈ nub l)) /\
  (extras_wf ex ->
     extras_wf (add_extra ex mem) /\
     forall t, t ∈ add_extra ex mem <-> t ∈ ex \/ (t = mem /\ zlen mem <= MAX_DICT_FILE)).
Proof.
  split; [|apply add_extra_ok]. intros El Hex.
  destruct (load_extras_ok fs ex dir l El Hex) as (Hb&Hf&Hin).
  split; [by apply dedup_extras_nub|]. split; [split; [|split]|split].
  - by apply by_len_nub.
  - apply NoDup_nub.
  - apply list.Forall_forall. intros t Ht. rewrite elem_of_nub in Ht.
    exact (proj1 (list.Forall_forall _ _) Hf t Ht).
  - intros t. apply elem_of_nub.
  - intros t Ht. apply elem_of_nub, Hin, Ht.
Qed.

(** A dictionary with a level, a comment, an escape and a duplicate. *)
Example extras_table_witness :
  let file := [34; 97; 98; 34; 10; 35; 10;
               107; 64; 50; 61; 34; 120; 34; 10;
               34; 92; 120; 52; 49; 34; 10;
               34; 97; 98; 34; 10] in
  load_extras (fun _ => Some (NFile file)) [] [100; 64; 49] = Ret [[65]; [97; 98]; [97; 98]] /\
  dedup_extras [[65]; [97; 98]; [97; 98]] = Some [[65]; [97; 98]] /\
  extras_wf [[65]; [97; 98]].
Proof.
  cbv zeta. split; [vm_compute; reflexivity|]. split; [vm_compute; reflexivity|].
  assert (load_extras (fun _ => Some (NFile [34; 97; 98; 34; 10; 35; 10;
               107; 64; 50; 61; 34; 120; 34; 10; 34; 92; 120; 52; 49; 34; 10;
               34; 97; 98; 34; 10])) [] [100; 64; 49] = Ret [[65]; [97; 98]; [97; 98]]) as E
    by (vm_compute; reflexivity).
  destruct (proj1 (extras_table_correct _ [] [100; 64; 49] [[65]; [97; 98]; [97; 98]] []) E)
    as (_&Hw&_); [constructor|]. exact Hw.
Defined.

(** ** Wide characters *)

Lemma pick_app f j a b : pick_bytes f j (a ++ b) = pick_bytes f j a ++ pick_bytes f (j + zlen a) b.
Proof.
  revert j. induction a as [|x a IH]; intros j; cbn.
  - change (zlen (@nil Z)) with 0. by rewrite Z.add_0_r.
  - rewrite IH, zlen_cons, Z.add_assoc. by destruct (f j).
Qed.

Lemma pick_ext f g j j' l :
  (forall i, 0 <= i -> f (j + i) = g (j' + i)) -> pick_bytes f j l = pick_bytes g j' l.
Proof.
  revert j j'. induction l as [|x l IH]; intros j j' Hf; [done|]. cbn.
  rewrite <- (Z.add_0_r j), <- (Z.add_0_r j'), Hf by lia. rewrite !Z.add_0_r.
  rewrite (IH (j + 1) (j' + 1)); [done|]. intros i Hi. rewrite <- !Z.add_assoc. apply Hf. lia.
Qed.

(** A token made of blocks, picked from with a period. *)
Definition blocks (g : Z -> list Z) (w : list Z) : list Z := mjoin (g <$> w).

Lemma pick_blocks m g f w :
  (forall c, zlen (g c) = m) -> (forall j, f (j + m) = f j) ->
  pick_bytes f 0 (blocks g w) = blocks (fun c => pick_bytes f 0 (g c)) w.
Proof.
  intros Hg Hf. unfold blocks. induction w as [|c w IH]; [done|].
  cbn [fmap list_fmap mjoin list_join]. rewrite pick_app, Hg. f_equal.
  etransitivity; [|exact IH]. apply pick_ext. intros i _. rewrite <- (Hf (0 + i)). f_equal. lia.
Qed.

Lemma zlen_blocks m g w : (forall c, zlen (g c) = m) -> zlen (blocks g w) = m * zlen w.
Proof.
  intros Hg. unfold blocks. induction w as [|c w IH]; [unfold zlen; cbn; lia|].
  cbn [fmap list_fmap mjoin list_join]. rewrite zlen_app, Hg, zlen_cons.
  transitivity (m + m * zlen w); [f_equal; exact IH|lia].
Qed.

Lemma blocks_one w : blocks (fun c => [c]) w = w.
Proof. unfold blocks. induction w as [|c w IH]; [done|]. exact (f_equal (cons c) IH). Qed.

Lemma zlen_filter_one w : Forall (fun c => c <> 0) w ->
  zlen (filter (fun b => b = 0) (blocks (fun c => [c]) w)) = 0.
Proof.
  intros Hw. rewrite blocks_one. induction Hw as [|c w Hc _ IH]; [done|].
  by rewrite filter_cons_False.
Qed.

Lemma zlen_filter_zeros k w :
  zlen (filter (fun b => b = 0) (blocks (fun _ => replicate k 0) w)) = Z.of_nat k * zlen w.
Proof.
  rewrite filter_all; [apply zlen_blocks; intros; unfold zlen; by rewrite length_replicate|].
  unfold blocks. induction w as [|c w IH]; [constructor|]. cbn. apply Forall_app_2; [|done].
  apply Forall_replicate. done.
Qed.

Definition utf16 (le : bool) : list Z -> list Z := blocks (fun c => if le then [c; 0] else [0; c]).

Lemma parity4 j : ((j mod 4 =? 2) || (j mod 4 =? 0)) = (j mod 2 =? 0).
Proof. destruct (j mod 2 =? 0) eqn:E; b2p; [apply orb_true_iff|apply orb_false_iff]; rewrite ?Z.eqb_eq, ?Z.eqb_neq; dlia. Qed.

Lemma parity4' j : ((j mod 4 =? 3) || (j mod 4 =? 1)) = (j mod 2 =? 1).
Proof. destruct (j mod 2 =? 1) eqn:E; b2p; [apply orb_true_iff|apply orb_false_iff]; rewrite ?Z.eqb_eq, ?Z.eqb_neq; dlia. Qed.

Lemma zeros_ext f g t : (forall j, f j = g j) -> zeros f t = zeros g t.
Proof. intros E. unfold zeros. rewrite (pick_ext f g 0 0); [done|]. intros. apply E. Qed.

Lemma deunicode_utf16 le w :
  3 <= zlen w <= 32 -> Forall (fun c => c <> 0) w -> deunicode (utf16 le w) = [w].
Proof.
  intros Hn Hw. unfold deunicode.
  assert (zlen (utf16 le w) = 2 * zlen w) as -> by (apply zlen_blocks; by destruct le).
  replace (2 * zlen w <? 6) with false by (symmetry; apply Z.ltb_ge; lia).
  replace (2 * zlen w >? 64) with false by (symmetry; rewrite Z.gtb_ltb; apply Z.ltb_ge; lia).
  replace ((2 * zlen w) mod 2) with 0 by (rewrite Z.mul_comm, Z.mod_mul; lia).
  cbn [orb z2b Z.eqb negb]. replace (Z.shiftr (2 * zlen w) 1) with (zlen w)
    by (rewrite Z.shiftr_div_pow2 by lia; change (2 ^ 1) with 2; rewrite Z.mul_comm, Z.div_mul; lia).
  rewrite (zeros_ext _ _ _ parity4), (zeros_ext _ _ _ parity4').
  assert (forall b, pick_bytes (fun j => j mod 2 =? b) 0 (utf16 le w) =
    blocks (fun c => pick_bytes (fun j => j mod 2 =? b) 0 (if le then [c; 0] else [0; c])) w) as Hp.
  { intros b. apply (pick_blocks 2); [by destruct le|]. intros j. f_equal. dlia. }
  assert (zeros (fun j => j mod 2 =? 0) (utf16 le w) = if le then 0 else zlen w) as ->.
  { unfold zeros. rewrite Hp. destruct le; cbn; [by apply zlen_filter_one|].
    rewrite (zlen_filter_zeros 1). lia. }
  assert (zeros (fun j => j mod 2 =? 1) (utf16 le w) = if le then zlen w else 0) as ->.
  { unfold zeros. rewrite Hp. destruct le; cbn; [|by apply zlen_filter_one].
    rewrite (zlen_filter_zeros 1). lia. }
  replace ((if le then 0 else zlen w) + (if le then zlen w else 0)) with (zlen w) by (destruct le; lia).
  replace (zlen w =? 2 * zlen w) with false by (symmetry; apply Z.eqb_neq; lia).
  assert (((if le then 0 else zlen w) <? zlen w) && ((if le then zlen w else 0) <? zlen w) = false) as ->.
  { destruct le; rewrite (Z.ltb_irrefl (zlen w)); [apply andb_false_r|done]. }
  cbn [orb].
  assert (((2 * zlen w) mod 4 =? 0) && (2 * zlen w >=? 12) &&
     ((zeros (fun j => j mod 4 =? 2) (utf16 le w) =? Z.shiftr (zlen w) 1) ||
      (zeros (fun j => j mod 4 =? 3) (utf16 le w) =? Z.shiftr (zlen w) 1)) &&
     (zlen w =? Z.shiftr (zlen w) 1 * 3) = false) as ->.
  { destruct ((2 * zlen w) mod 4 =? 0) eqn:E; [|done]. b2p.
    replace (zlen w =? _) with false; [by rewrite andb_false_r|]. symmetry. apply Z.eqb_neq.
    rewrite Z.shiftr_div_pow2 by lia. change (2 ^ 1) with 2. dlia. }
  cbn [app]. f_equal. destruct le.
  - rewrite (proj2 (Z.ltb_lt 0 _)) by lia. rewrite Hp. apply blocks_one.
  - rewrite Z.ltb_irrefl. rewrite Hp. apply blocks_one.
Qed.

Lemma pick_short f j t : zlen (pick_bytes f j t) <= zlen t.
Proof.
  revert j. induction t as [|b t IH]; intros j; cbn; [lia|].
  specialize (IH (j + 1)). rewrite zlen_cons. destruct (f j); rewrite ?zlen_cons; lia.
Qed.

Lemma deunicode_short t x : x ∈ deunicode t -> zlen x <= zlen t.
Proof.
  unfold deunicode. cbv zeta. repeat case_match; cbn; rewrite ?elem_of_cons, elem_of_nil;
    intros Hx; destruct_or?; subst; try done; apply pick_short.
Qed.

Lemma fold_nocheck ts ex : fold_left add_extra_nocheck ts ex = ex ++ ts.
Proof.
  revert ex. induction ts as [|t ts IH]; intros ex; cbn; [by rewrite app_nil_r|].
  rewrite IH. unfold add_extra_nocheck. by rewrite <- app_assoc.
Qed.

Lemma fold_deunicode ts ex :
  fold_left (fun ex t => fold_left add_extra_nocheck (deunicode t) ex) ts ex =
  ex ++ mjoin (deunicode <$> ts).
Proof.
  revert ex. induction ts as [|t ts IH]; intros ex; cbn; [by rewrite app_nil_r|].
  rewrite IH, fold_nocheck. by rewrite <- app_assoc.
Qed.

(** [deunicode_extras] keeps all tokens, adds only bytes picked from them, leaves the
    table sorted by length, and for a token that is 3 to 32 characters in 16-bit
    encoding, little or big endian, adds the plain characters. *)
Theorem deunicode_extras_correct `{Qsort} extras :
  Forall (fun t => zlen t <= MAX_DICT_FILE) extras ->
  by_len (deunicode_extras extras) /\
  Forall (fun t => zlen t <= MAX_DICT_FILE) (deunicode_extras extras) /\
  (forall t, t ∈ deunicode_extras extras <->
     t ∈ extras \/ exists u, u ∈ extras /\ t ∈ deunicode u) /\
  (forall le w, 3 <= zlen w <= 32 -> Forall (fun c => c <> 0) w ->
     utf16 le w ∈ extras -> w ∈ deunicode_extras extras).
Proof.
  intros Hl.
  assert (deunicode_extras extras ≡ₚ extras ++ mjoin (deunicode <$> extras)) as Hp.
  { unfold deunicode_extras. destruct extras as [|t l]; [done|]. by rewrite qsort_perm, fold_deunicode. }
  assert (forall t, t ∈ deunicode_extras extras <->
     t ∈ extras \/ exists u, u ∈ extras /\ t ∈ deunicode u) as Hin.
  { intros t. rewrite Hp, elem_of_app, list_elem_of_join. setoid_rewrite list_elem_of_fmap.
    naive_solver. }
  assert (Forall (fun t => zlen t <= MAX_DICT_FILE) (deunicode_extras extras)) as Hf.
  { apply list.Forall_forall. intros t Ht. apply Hin in Ht as [Ht|(u&Hu&Ht)].
    - exact (proj1 (list.Forall_forall _ _) Hl t Ht).
    - apply deunicode_short in Ht. pose proof (proj1 (list.Forall_forall _ _) Hl u Hu) as Hz.
      cbn in Hz. lia. }
  split; [|split; [done|split; [done|]]].
  - unfold deunicode_extras in *. destruct extras as [|t l]; [constructor|].
    apply sort_len_ok. rewrite qsort_perm in Hf. eapply Forall_impl; [|exact Hf].
    unfold MAX_DICT_FILE. cbn. intros; lia.
  - intros le w Hw Hc Hu. apply Hin. right. exists (utf16 le w). split; [done|].
    rewrite deunicode_utf16 by done. by left.
Qed.

Example deunicode_witness :
  deunicode_extras [[65; 0; 66; 0; 67; 0]] = [[65; 66; 67]; [65; 0; 66; 0; 67; 0]] /\
  [65; 66; 67] ∈ deunicode_extras [[65; 0; 66; 0; 67; 0]].
Proof.
  split; [vm_compute; reflexivity|].
  destruct (deunicode_extras_correct [[65; 0; 66; 0; 67; 0]]) as (_&_&_&Hu).
  - repeat constructor. vm_compute. congruence.
  - apply (Hu true [65; 66; 67]); [vm_compute; split; congruence|repeat constructor; congruence|].
    left.
Defined.
