(* ===== verification/ExtrasAuto.v ===== *)
(** * Dictionaries: the automatic tokens *)

From S2P Require Import Prelude Res Rng MutTables Mutations MutationsFacts Extras ExtrasFacts.

(** ** Comparison without case *)

Definition lower (t : list Z) : list Z := tolower <$> t.

Lemma zlen_lower t : zlen (lower t) = zlen t.
Proof. unfold zlen, lower. by rewrite length_fmap. Qed.

Lemma memcmp_nocase_false m1 m2 :
  zlen m1 = zlen m2 -> memcmp_nocase m1 m2 = false <-> lower m1 = lower m2.
Proof.
  revert m2. induction m1 as [|a m1 IH]; intros [|b m2] Hl; [done|unfold zlen in Hl; cbn in Hl; lia..|].
  rewrite !zlen_cons in Hl.
  cbn. destruct (Z.lxor (tolower a) (tolower b) =? 0) eqn:E; cbn; b2p.
  - apply Z.lxor_eq in E. rewrite IH by lia. unfold lower. cbn. rewrite E. split; congruence.
  - split; [done|]. intros [= Ht _]. rewrite Ht, Z.lxor_nilpotent in E. done.
Qed.

Lemma nocase_test a mem :
  (zlen a =? zlen mem) && negb (memcmp_nocase a mem) = true <-> lower a = lower mem.
Proof.
  rewrite andb_true_iff, Z.eqb_eq, negb_true_iff. split.
  - intros [Hl Hm]. by apply memcmp_nocase_false.
  - intros Hl. assert (zlen a = zlen mem) as Hz by (by rewrite <- zlen_lower, Hl, zlen_lower).
    split; [done|]. by apply memcmp_nocase_false.
Qed.

(** The search that exploits the order finds every token of the table. *)
Definition known (extras : list (list Z)) (mem : list Z) : Prop :=
  exists e, e ∈ extras /\ lower e = lower mem.

Lemma known_same_len_spec l mem :
  by_len l -> Forall (fun x => zlen mem <= zlen x) l -> known_same_len l mem = true <-> known l mem.
Proof.
  unfold known. induction l as [|e l IH]; intros Hs Hge; [split; [done|by intros (x&[]%elem_of_nil&_)]|].
  apply StronglySorted_inv in Hs as [Hs He]. apply Forall_cons_iff in Hge as [Hm Hge].
  cbn [known_same_len]. destruct (zlen e =? zlen mem) eqn:E; b2p; cbn [negb].
  - destruct (memcmp_nocase e mem) eqn:C; cbn [negb].
    + rewrite IH by done. split.
      { intros (x&?&?). exists x. split; [by right|done]. }
      intros (x&[->|?]%elem_of_cons&Hx); [|by exists x].
      apply memcmp_nocase_false in Hx; [congruence|done].
    + split; [|done]. intros _. exists e. split; [by left|]. by apply memcmp_nocase_false.
  - split; [done|]. intros (x&Hx&Hl). exfalso.
    assert (zlen x = zlen mem) by (by rewrite <- zlen_lower, Hl, zlen_lower).
    apply elem_of_cons in Hx as [->|Hx]; [lia|].
    pose proof (proj1 (list.Forall_forall _ _) He x Hx) as Hy. cbn in Hy. lia.
Qed.

Lemma known_extra_spec extras mem :
  by_len extras -> known_extra extras mem = true <-> known extras mem.
Proof.
  induction extras as [|e l IH]; intros Hs.
  { split; [done|]. by intros (x&[]%elem_of_nil&_). }
  cbn [known_extra]. destruct (zlen e <? zlen mem) eqn:E; b2p.
  - apply StronglySorted_inv in Hs as [Hs _]. rewrite IH by done. unfold known. split.
    + intros (x&?&?). exists x. split; [by right|done].
    + intros (x&[->|?]%elem_of_cons&Hx); [|by exists x]. exfalso.
      assert (zlen e = zlen mem) by (by rewrite <- zlen_lower, Hx, zlen_lower). lia.
  - apply known_same_len_spec; [done|].
    apply StronglySorted_inv in Hs as [_ He]. constructor; [done|].
    eapply Forall_impl; [|exact He]. cbn. intros; lia.
Qed.

(** ** The invariant *)

Definition tokens (s : extras_st) : list (list Z) := a_data <$> x_a_extras s.

(** A run of one byte; a built-in value as the mutators write it, in either byte order. *)
Definition one_byte (t : list Z) : Prop := exists n x, t = replicate (S n) x.
Definition builtin (t : list Z) : Prop :=
  (exists v, v ∈ interesting_16 /\ (t = le_bytes 2 (u16 v) \/ t = rev (le_bytes 2 (u16 v)))) \/
  (exists v, v ∈ interesting_32 /\ (t = le_bytes 4 (u32 v) \/ t = rev (le_bytes 4 (u32 v)))).

(** The built-in value that the test lets through: -128 of 16 bits, little-endian. *)
Definition let_through : list Z := [128; 255].

(** What is neither a run of one byte, too long, built in nor in the dictionary. *)
Definition token_ok (extras : list (list Z)) (t : list Z) : Prop :=
  zlen t <= MAX_AUTO_EXTRA /\ ~ one_byte t /\ (builtin t -> t = let_through) /\ ~ known extras t.

(** The tests of the code against these. *)
Lemma run_end_spec m0 rest : forall i, run_end m0 rest i <= i + zlen rest /\
  (run_end m0 rest i = i + zlen rest <-> rest = replicate (length rest) m0).
Proof.
  induction rest as [|b rest IH]; intros i; [cbn; split; [unfold zlen; cbn; lia|split; [done|unfold zlen; cbn; lia]]|].
  cbn [run_end length]. rewrite zlen_cons. destruct (Z.lxor m0 b =? 0) eqn:E; b2p; cbn [negb].
  - apply Z.lxor_eq in E as <-. destruct (IH (i + 1)) as [H1 H2]. split; [lia|].
    replace (i + (1 + zlen rest)) with (i + 1 + zlen rest) by lia. rewrite H2. cbn. split; [by intros <-|by intros [=]].
  - pose proof (zlen_nonneg rest). split; [lia|]. split; [lia|]. cbn. intros [= -> _]. by rewrite Z.lxor_nilpotent in E.
Qed.

Lemma same_bytes_spec t : same_bytes t = true <-> one_byte t.
Proof.
  unfold same_bytes, one_byte. rewrite Z.eqb_eq. destruct t as [|x t].
  - split; [done|]. intros (n&y&[=]).
  - cbn [at0 tail]. rewrite zlen_cons. rewrite (proj2 (run_end_spec _ t 1)). cbn. split.
    + intros E. exists (length t), x. cbn. by rewrite <- E.
    + intros (n&y&[= -> ->]). by rewrite length_replicate.
Qed.

(** The built-in values are rejected in both byte orders, with one exception: a negative
    element of [interesting_16] is compared as an [s16] with a [u16], which never holds,
    and -128 in little-endian form (80 ff) is not the reverse of another built-in
    value either. *)
Lemma builtin_values :
  (forall v, v ∈ interesting_16 ->
     builtin_value (le_bytes 2 (u16 v)) = negb (v =? -128) /\
     builtin_value (rev (le_bytes 2 (u16 v))) = true) /\
  (forall v, v ∈ interesting_32 ->
     builtin_value (le_bytes 4 (u32 v)) = true /\ builtin_value (rev (le_bytes 4 (u32 v))) = true).
Proof.
  split; intros v Hv; unfold interesting_16, interesting_32, INTERESTING_8, INTERESTING_16,
    INTERESTING_32 in Hv; cbn [app] in Hv;
    repeat (apply elem_of_cons in Hv as [->|Hv]; [by vm_compute|]); by apply elem_of_nil in Hv.
Qed.

Lemma builtin_rejected t : builtin t -> builtin_value t = false -> t = let_through.
Proof.
  destruct builtin_values as [B16 B32]. intros [(v&Hv&[->| ->])|(v&Hv&[->| ->])] E.
  - destruct (B16 v Hv) as [H1 _]. rewrite H1 in E. apply negb_false_iff, Z.eqb_eq in E as ->. done.
  - destruct (B16 v Hv) as [_ H1]. congruence.
  - destruct (B32 v Hv) as [H1 _]. congruence.
  - destruct (B32 v Hv) as [_ H1]. congruence.
Qed.

Lemma rejected_builtin t : bytes_ok t -> builtin_value t = true -> builtin t /\ t <> let_through.
Proof.
  intros Hb E. split; [|by intros ->]. unfold builtin_value in E. apply orb_true_iff in E as [E|E]; apply andb_true_iff in E as [El E];
    apply Z.eqb_eq in El; apply existsb_exists in E as (v&Hv%list_elem_of_In&E); apply orb_true_iff in E as [E|E]; apply Z.eqb_eq in E;
    [left; exists v; split; [done|]; left|left; exists v; split; [done|]; right|right; exists v; split; [done|]; left|right; exists v; split; [done|]; right].
  1,2: replace t with (le_bytes 2 (le_word t)) by (rewrite <- (le_bytes_le_word t Hb) at 2; f_equal; unfold zlen in El; lia); rewrite E.
  3,4: replace t with (le_bytes 4 (le_word t)) by (rewrite <- (le_bytes_le_word t Hb) at 2; f_equal; unfold zlen in El; lia); rewrite E.
  - by rewrite (le_bytes_wrap 2 16).
  - by rewrite SWAP16_bytes, (le_bytes_wrap 2 16).
  - by rewrite (le_bytes_wrap 4 32).
  - by rewrite SWAP32_bytes, (le_bytes_wrap 4 32).
Qed.

(** There is room, no two tokens agree up to case, and each is worth having. *)
Definition auto_ok (s : extras_st) : Prop :=
  zlen (x_a_extras s) <= MAX_AUTO_EXTRAS /\ NoDup (lower <$> tokens s) /\
  Forall (token_ok (x_extras s)) (tokens s).

Lemma sort_a_extras_perm `{Qsort} l : sort_a_extras l ≡ₚ l.
Proof.
  unfold sort_a_extras. rewrite qsort_perm, take_drop. apply qsort_perm.
Qed.

Lemma hit_auto_spec l mem :
  match hit_auto l mem with
  | Some l' => a_data <$> l' = a_data <$> l /\ lower mem ∈ lower <$> (a_data <$> l)
  | None => lower mem ∉ lower <$> (a_data <$> l)
  end.
Proof.
  induction l as [|a l IH]; cbn [hit_auto]; [by intros ?%elem_of_nil|].
  destruct (_ && _) eqn:E.
  - apply nocase_test in E. split; [done|]. cbn. rewrite E. by left.
  - destruct (hit_auto l mem) as [l'|]; cbn.
    + destruct IH as [IH1 IH2]. split; [by f_equal|]. by right.
    + rewrite elem_of_cons. intros [Hl|Hl]; [|done]. symmetry in Hl. apply nocase_test in Hl. congruence.
Qed.

(** The tests of [maybe_add_auto] before it looks at its table. *)
Definition wanted (extras : list (list Z)) (mem : list Z) : bool :=
  negb (same_bytes mem) && (zlen mem <=? MAX_AUTO_EXTRA) && negb (builtin_value mem)
  && negb (known_extra extras mem).

Lemma wanted_ok extras mem :
  by_len extras -> wanted extras mem = true -> token_ok extras mem.
Proof.
  intros Hs. unfold wanted. rewrite !andb_true_iff, !negb_true_iff, Z.leb_le.
  intros [[[Hr ?] ?] Hk]. split_and!; [done| | |].
  - intros Ho. apply same_bytes_spec in Ho. congruence.
  - intros Hb. by apply builtin_rejected.
  - intros Hn. apply known_extra_spec in Hn; [congruence|done].
Qed.

Lemma ok_wanted extras mem :
  by_len extras -> bytes_ok mem -> token_ok extras mem -> wanted extras mem = true.
Proof.
  intros Hs Hb (Hl&Hr&Hv&Hk). unfold wanted. rewrite !andb_true_iff, !negb_true_iff, Z.leb_le. split_and!; [|done| |].
  - apply not_true_iff_false. intros E. by apply Hr, same_bytes_spec.
  - apply not_true_iff_false. intros E. destruct (rejected_builtin mem Hb E) as [H1 H2]. auto.
  - apply not_true_iff_false. intros E. apply Hk. by apply known_extra_spec.
Qed.

Section Invariant.
Context `{Qsort} {R : Type} `{RandSource R}.

(** A new token takes a place of its own or that of another. *)
Lemma auto_ok_new s a' t rest mem :
  auto_ok s -> token_ok (x_extras s) mem -> lower mem ∉ lower <$> rest ->
  a_data <$> a' ≡ₚ mem :: rest -> zlen a' <= MAX_AUTO_EXTRAS ->
  tokens s ≡ₚ t ++ rest ->
  auto_ok (ExtrasSt (x_extras s) (sort_a_extras a') true).
Proof.
  intros (Hl&Hn&Hf) Hok Hm Hp Hz Ht. unfold auto_ok, tokens. cbn.
  assert (NoDup (lower <$> rest)) as Hn'.
  { rewrite Ht, fmap_app in Hn. by apply list.NoDup_app in Hn as (_&_&?). }
  assert (Forall (token_ok (x_extras s)) rest) as Hf'.
  { rewrite Ht in Hf. by apply Forall_app in Hf as [_ ?]. }
  split; [unfold zlen in *; by rewrite sort_a_extras_perm|].
  rewrite sort_a_extras_perm, Hp. cbn. split; [by apply list.NoDup_cons|by constructor].
Qed.

Lemma add_auto_unwanted s mem (r : R) :
  wanted (x_extras s) mem = false -> maybe_add_auto s mem r = Some (s, r).
Proof.
  unfold wanted, maybe_add_auto. intros W. destruct (same_bytes mem); [done|].
  destruct (zlen mem >? MAX_AUTO_EXTRA) eqn:E; [done|].
  replace (zlen mem <=? MAX_AUTO_EXTRA) with true in W by (symmetry; apply Z.leb_le; b2p; lia).
  destruct (builtin_value mem); [done|]. by destruct (known_extra _ _).
Qed.

Lemma add_auto_wanted s mem (r : R) :
  wanted (x_extras s) mem = true ->
  maybe_add_auto s mem r =
    match hit_auto (x_a_extras s) mem with
    | Some a => Some (ExtrasSt (x_extras s) (sort_a_extras a) true, r)
    | None =>
        if zlen (x_a_extras s) <? MAX_AUTO_EXTRAS then
          Some (ExtrasSt (x_extras s)
                  (sort_a_extras (x_a_extras s ++ [AutoExtra mem 0])) true, r)
        else
          '(k, r) ← rs_below ((MAX_AUTO_EXTRAS + 1) / 2) r;
          a ← put (x_a_extras s) (MAX_AUTO_EXTRAS / 2 + k) (AutoExtra mem 0);
          Some (ExtrasSt (x_extras s) (sort_a_extras a) true, r)
    end.
Proof.
  unfold wanted, maybe_add_auto. rewrite !andb_true_iff, !negb_true_iff, Z.leb_le.
  intros [[[-> W] ->] ->]. replace (zlen mem >? MAX_AUTO_EXTRA) with false
    by (symmetry; rewrite Z.gtb_ltb; apply Z.ltb_ge; lia). done.
Qed.

(** Another token at position [i]. *)
Lemma replace_perm (a : list auto_extra) i mem :
  (i < length a)%nat -> exists old rest,
    a_data <$> a ≡ₚ old :: rest /\ a_data <$> <[i := AutoExtra mem 0]> a ≡ₚ mem :: rest.
Proof.
  intros Hi. destruct (lookup_lt_is_Some_2 a i Hi) as [old Hold].
  exists (a_data old), (a_data <$> (take i a ++ drop (S i) a)). split.
  - rewrite <- (take_drop_middle a i old Hold) at 1. rewrite !fmap_app. cbn.
    by rewrite Permutation_middle.
  - rewrite insert_take_drop by done. rewrite !fmap_app. cbn. by rewrite Permutation_middle.
Qed.

(** What a call does to the table. *)
Definition added (s s' : extras_st) (mem : list Z) : Prop :=
      auto_ok s' /\ x_extras s' = x_extras s /\
      (if wanted (x_extras s) mem then
         x_auto_changed s' = true /\
         ((lower mem ∈ (lower <$> tokens s) /\ tokens s' ≡ₚ tokens s) \/
          (~ (lower mem ∈ lower <$> tokens s) /\ zlen (x_a_extras s) < MAX_AUTO_EXTRAS /\
           tokens s' ≡ₚ mem :: tokens s) \/
          (~ (lower mem ∈ lower <$> tokens s) /\ zlen (x_a_extras s) = MAX_AUTO_EXTRAS /\
           exists t rest, tokens s ≡ₚ t :: rest /\ tokens s' ≡ₚ mem :: rest))
       else s' = s).

Lemma maybe_add_auto_step s mem (r : R) :
  by_len (x_extras s) -> auto_ok s ->
  match maybe_add_auto s mem r with
  | Some (s', r') => added s s' mem
  | None =>
      zlen (x_a_extras s) = MAX_AUTO_EXTRAS /\ rs_below ((MAX_AUTO_EXTRAS + 1) / 2) r = None
  end.
Proof.
  intros Hs Hok. pose proof Hok as (Hl&Hn&Hf).
  unfold added. destruct (wanted (x_extras s) mem) eqn:W; [|by rewrite add_auto_unwanted].
  pose proof (wanted_ok _ _ Hs W) as Ht. rewrite add_auto_wanted by done.
  pose proof (hit_auto_spec (x_a_extras s) mem) as Hh.
  destruct (hit_auto (x_a_extras s) mem) as [a'|].
  { destruct Hh as [Ha Hin].
    assert (tokens (ExtrasSt (x_extras s) (sort_a_extras a') true) ≡ₚ tokens s) as Hp.
    { unfold tokens. cbn. by rewrite sort_a_extras_perm, Ha. }
    split; [|split; [done|split; [done|by left]]]. unfold auto_ok. rewrite Hp. split; [|done].
    cbn. unfold zlen in *. rewrite sort_a_extras_perm.
    by rewrite <- (length_fmap a_data a'), Ha, length_fmap. }
  destruct (zlen (x_a_extras s) <? MAX_AUTO_EXTRAS) eqn:Hr; b2p.
  { assert (a_data <$> x_a_extras s ++ [AutoExtra mem 0] ≡ₚ mem :: tokens s) as Hp.
    { rewrite fmap_app. cbn. by rewrite Permutation_app_comm. }
    split; [|split; [done|split; [done|right; left; split; [done|split; [done|]]]]].
    - apply (auto_ok_new s _ [] (tokens s) mem); auto. rewrite zlen_app, zlen_one. lia.
    - unfold tokens at 1. cbn. by rewrite sort_a_extras_perm. }
  assert (zlen (x_a_extras s) = MAX_AUTO_EXTRAS) as Hfull by lia.
  destruct (rs_below _ r) as [[k r']|] eqn:Er; cbn [mbind option_bind]; [|done].
  apply rs_range in Er; [|done]. change ((MAX_AUTO_EXTRAS + 1) / 2) with 16384 in Er.
  change (MAX_AUTO_EXTRAS / 2) with 16384.
  assert (0 <= 16384 + k < zlen (x_a_extras s)) as Hk.
  { rewrite Hfull. change MAX_AUTO_EXTRAS with 32768. lia. }
  rewrite put_Some by done. cbn [mbind option_bind].
  destruct (replace_perm (x_a_extras s) (Z.to_nat (16384 + k)) mem) as (old&rest&Hts&Hp);
    [unfold zlen in Hk; lia|].
  split; [|split; [done|split; [done|right; right; split; [done|split; [done|]]]]].
  - apply (auto_ok_new s _ [old] rest mem); auto.
    + intros Hin. apply Hh. rewrite Hts. cbn. by right.
    + rewrite zlen_insert. lia.
  - exists old, rest. split; [done|]. unfold tokens. cbn. by rewrite sort_a_extras_perm.
Qed.

(** *** Counts and order *)

Lemma hit_auto_raised l mem l' : hit_auto l mem = Some l' ->
  exists l1 a l2, l = l1 ++ a :: l2 /\ lower (a_data a) = lower mem /\ l' = l1 ++ AutoExtra (a_data a) (u32 (a_hit_cnt a + 1)) :: l2.
Proof.
  revert l'. induction l as [|b l IH]; intros l'; [done|]. cbn [hit_auto]. destruct (_ && _) eqn:E.
  - intros [= <-]. apply nocase_test in E. by exists [], b, l.
  - destruct (hit_auto l mem) as [k|]; [|done]. intros [= <-]. destruct (IH k eq_refl) as (l1&a&l2&->&Ha&->). by exists (b :: l1), a, l2.
Qed.

(** How the token [mem] enters the table [l], in some order. *)
Definition entered (l : list auto_extra) (mem : list Z) (l' : list auto_extra) : Prop :=
  (exists l1 a l2, l = l1 ++ a :: l2 /\ lower (a_data a) = lower mem /\
     l' ≡ₚ l1 ++ AutoExtra (a_data a) (u32 (a_hit_cnt a + 1)) :: l2) \/
  (lower mem ∉ lower <$> (a_data <$> l)) /\
    (zlen l < MAX_AUTO_EXTRAS /\ l' ≡ₚ AutoExtra mem 0 :: l \/
     zlen l = MAX_AUTO_EXTRAS /\ exists i, MAX_AUTO_EXTRAS / 2 <= i < MAX_AUTO_EXTRAS /\ l' ≡ₚ <[Z.to_nat i := AutoExtra mem 0]> l).

(** The tokens used most come first, by length; the others by use. *)
Definition in_order (l : list auto_extra) : Prop :=
  exists top rest, l = top ++ rest /\ zlen top = Z.min USE_AUTO_EXTRAS (zlen l) /\
    StronglySorted (fun a b => zlen (a_data a) <= zlen (a_data b)) top /\
    StronglySorted (fun a b => a_hit_cnt b <= a_hit_cnt a) rest /\
    forall a b, a ∈ top -> b ∈ rest -> a_hit_cnt b <= a_hit_cnt a.

(** Counts that the difference of two of them, an [int], can compare. *)
Definition small_counts (l : list auto_extra) : Prop := Forall (fun a => 0 <= a_hit_cnt a < 2 ^ 31 - 1) l.

Lemma sorted_app {A} (P : A -> A -> Prop) (l k : list A) : StronglySorted P (l ++ k) ->
  StronglySorted P k /\ forall x y, x ∈ l -> y ∈ k -> P x y.
Proof.
  induction l as [|a l IH]; intros Hs; [split; [done|]; intros x y Hx; by apply elem_of_nil in Hx|].
  apply StronglySorted_inv in Hs as [Hs Ha]. destruct (IH Hs) as [H1 H2]. split; [done|]. intros x y Hx Hy.
  apply elem_of_cons in Hx as [->|Hx]; [|by apply H2]. apply (proj1 (list.Forall_forall _ _) Ha). apply elem_of_app. by right.
Qed.

Lemma sort_in_order l : Forall (fun a => 0 <= a_hit_cnt a < 2 ^ 31) l -> Forall (fun a => zlen (a_data a) <= MAX_AUTO_EXTRA) l ->
  in_order (sort_a_extras l).
Proof.
  intros Hc Hl. unfold sort_a_extras. set (l1 := qsort compare_auto_extras_use_d l). set (n := Z.to_nat _).
  assert (l1 ≡ₚ l) as Hp by apply qsort_perm.
  assert (StronglySorted (fun a b => - a_hit_cnt a <= - a_hit_cnt b) l1) as Hs.
  { apply (qsort_sorted _ _ (fun a => - a_hit_cnt a)). intros a b Ha Hb. pose proof (proj1 (list.Forall_forall _ _) Hc a Ha) as H1.
    pose proof (proj1 (list.Forall_forall _ _) Hc b Hb) as H2. cbn in H1, H2. unfold compare_auto_extras_use_d. rewrite (swrap_small 32) by lia.
    apply eq_true_iff_eq. rewrite !Z.leb_le. lia. }
  exists (qsort compare_auto_extras_len (take n l1)), (drop n l1). split; [done|].
  assert (forall a, a ∈ qsort compare_auto_extras_len (take n l1) -> a ∈ take n l1) as Ht.
  { intros a. by rewrite (qsort_perm _ compare_auto_extras_len (take n l1)). }
  rewrite <- (take_drop n l1) in Hs. apply sorted_app in Hs as [Hd Hx]. split_and!.
  - pose proof (Permutation_length (qsort_perm _ compare_auto_extras_len (take n l1))) as Hlen.
    unfold zlen in *. rewrite length_app, Hlen, length_take, length_drop. unfold n, zlen, USE_AUTO_EXTRAS. lia.
  - apply (qsort_sorted _ _ (fun a => zlen (a_data a))). intros a b Ha Hb.
    assert (forall a, a ∈ take n l1 -> 0 <= zlen (a_data a) <= 32) as Hr.
    { intros y Hy. split; [apply zlen_nonneg|]. apply (proj1 (list.Forall_forall _ _) Hl). rewrite <- Hp. rewrite <- (take_drop n l1).
      apply elem_of_app. by left. }
    pose proof (Hr a Ha). pose proof (Hr b Hb). unfold compare_auto_extras_len. rewrite (swrap_small 32) by lia.
    apply eq_true_iff_eq. rewrite !Z.leb_le. lia.
  - clear Hx. induction Hd as [|a k _ IH Ha]; constructor; [done|]. eapply Forall_impl; [|exact Ha]. cbn. intros; lia.
  - intros a b Ha Hb. specialize (Hx a b (Ht a Ha) Hb). cbn in Hx. lia.
Qed.

Lemma entered_step s mem (r : R) s' r' :
  auto_ok s -> wanted (x_extras s) mem = true -> maybe_add_auto s mem r = Some (s', r') ->
  exists a', s' = ExtrasSt (x_extras s) (sort_a_extras a') true /\ entered (x_a_extras s) mem a' /\
    (small_counts (x_a_extras s) -> Forall (fun a => 0 <= a_hit_cnt a < 2 ^ 31) a').
Proof.
  intros (Hl&_) W. rewrite add_auto_wanted by done. pose proof (hit_auto_spec (x_a_extras s) mem) as Hh.
  assert (small_counts (x_a_extras s) -> Forall (fun a => 0 <= a_hit_cnt a < 2 ^ 31) (x_a_extras s)) as Hsm.
  { intros Hc. eapply Forall_impl; [|exact Hc]. cbn. intros; lia. }
  destruct (hit_auto (x_a_extras s) mem) as [a'|] eqn:Eh.
  - intros [= <- <-]. exists a'. split; [done|]. destruct (hit_auto_raised _ _ _ Eh) as (l1&a&l2&E&Ha&->).
    split; [left; by exists l1, a, l2|]. intros Hc. pose proof (Hsm Hc) as Hs. rewrite E in Hs. unfold small_counts in Hc. rewrite E in Hc.
    apply Forall_app in Hc as [_ Hc]. apply Forall_cons_iff in Hc as [Hc _]. apply Forall_app in Hs as [H1 H2].
    apply Forall_cons_iff in H2 as [_ H2]. apply Forall_app. split; [done|]. constructor; [|done]. cbn.
    rewrite wrap_small by (unfold in_width; lia). lia.
  - destruct (_ <? _) eqn:Ez; b2p.
    + intros [= <- <-]. eexists. split; [done|]. split.
      * right. split; [done|]. left. split; [done|]. by rewrite Permutation_app_comm.
      * intros Hc. apply Forall_app. split; [by apply Hsm|]. by repeat constructor.
    + destruct (rs_below _ r) as [[k r1]|] eqn:Er; [|done]. cbn [mbind option_bind]. apply rs_range in Er; [|done].
      change ((MAX_AUTO_EXTRAS + 1) / 2) with 16384 in Er. change (MAX_AUTO_EXTRAS / 2) with 16384.
      assert (zlen (x_a_extras s) = MAX_AUTO_EXTRAS) as Hf by lia. change MAX_AUTO_EXTRAS with 32768 in Hf.
      rewrite put_Some by lia. cbn [mbind option_bind]. intros [= <- <-]. eexists. split; [done|]. split.
      * right. split; [done|]. right. split; [done|]. exists (16384 + k). split; [|done].
        change (MAX_AUTO_EXTRAS / 2) with 16384. change MAX_AUTO_EXTRAS with 32768. lia.
      * intros Hc. apply Forall_insert; [by apply Hsm|done].
Qed.

Lemma entered_perm l mem l' l'' : entered l mem l' -> l'' ≡ₚ l' -> entered l mem l''.
Proof.
  intros [(l1&a&l2&?&?&E)|(?&[[? E]|(?&i&?&E)])] Hp; [left; exists l1, a, l2; by rewrite Hp|right; split; [done|]..].
  - left. by rewrite Hp.
  - right. split; [done|]. exists i. by rewrite Hp.
Qed.

(** C25. For every way to sort and every source of random numbers, [maybe_add_auto] keeps
    the table of automatic tokens in order: at most [MAX_AUTO_EXTRAS] tokens, no two
    equal up to case, none a run of one byte, longer than 32 bytes, a built-in value in either byte
    order (but -128 of 16 bits in little-endian order, which is let through), or in the user's
    dictionary up to case.  A token that is one of these changes nothing.  Of any other, one that
    is known up to case gets one more hit; a new one joins without hits, in a full table in place of
    exactly one in its second half.  As long as no count reaches [2^31 - 1], the
    [USE_AUTO_EXTRAS] tokens with most hits are first, by length, and the others by hits.  It never
    writes outside of the table, and has no answer only if the table is full and the generator
    has none. *)
Theorem maybe_add_auto_correct s mem (r : R) :
  by_len (x_extras s) -> auto_ok s -> bytes_ok mem ->
  match maybe_add_auto s mem r with
  | Some (s', r') =>
      auto_ok s' /\ x_extras s' = x_extras s /\
      (~ token_ok (x_extras s) mem -> s' = s /\ r' = r) /\
      (token_ok (x_extras s) mem -> x_auto_changed s' = true /\ entered (x_a_extras s) mem (x_a_extras s') /\
         (small_counts (x_a_extras s) -> in_order (x_a_extras s')))
  | None =>
      zlen (x_a_extras s) = MAX_AUTO_EXTRAS /\ rs_below ((MAX_AUTO_EXTRAS + 1) / 2) r = None
  end.
Proof.
  intros Hs Hok Hb. pose proof (maybe_add_auto_step s mem r Hs Hok) as Hstep. pose proof (entered_step s mem r) as Hen.
  destruct (maybe_add_auto s mem r) as [[s' r']|] eqn:E; [|done]. destruct Hstep as (Hok'&Hx&_). split; [done|]. split; [done|]. split.
  - intros Hn. destruct (wanted (x_extras s) mem) eqn:W; [by destruct Hn; apply wanted_ok|]. rewrite add_auto_unwanted in E by done. by simplify_eq.
  - intros Ht. destruct (Hen s' r' Hok (ok_wanted _ _ Hs Hb Ht) eq_refl) as (a'&->&Ha&Hc). split; [done|]. split.
    + cbn. apply (entered_perm _ _ a'); [done|apply sort_a_extras_perm].
    + intros Hsm. apply sort_in_order; [by apply Hc|]. destruct Hok' as (_&_&Hf). unfold tokens in Hf. cbn in Hf. rewrite Forall_fmap in Hf.
      rewrite sort_a_extras_perm in Hf. eapply Forall_impl; [|exact Hf]. by intros a [? _].
Qed.

(** ** Files *)

(** Wanted tokens that differ up to case are appended one after the other. *)
Lemma load_auto_fresh ts n s (r : R) :
  by_len (x_extras s) -> auto_ok s -> Forall (token_ok (x_extras s)) ts -> Forall bytes_ok ts ->
  Forall (fun t => MIN_AUTO_EXTRA <= zlen t) ts ->
  NoDup (lower <$> (tokens s ++ ts)) -> (length ts <= n)%nat ->
  zlen (x_a_extras s) + zlen ts <= MAX_AUTO_EXTRAS ->
  exists s', load_auto_loop n ts s r = Some (s', r) /\ tokens s' ≡ₚ tokens s ++ ts.
Proof.
  revert n s. induction ts as [|t ts IH]; intros n s Hs Hok Hf Hb Hm Hn Hl Hz.
  { exists s. rewrite app_nil_r. by destruct n. }
  destruct n as [|n]; [cbn in Hl; lia|]. cbn [load_auto_loop].
  apply Forall_cons_iff in Hf as [Ht Hf]. apply Forall_cons_iff in Hm as [Hm1 Hm].
  apply Forall_cons_iff in Hb as [Hb1 Hb]. pose proof Ht as (Ht1&Ht2&Ht3&Ht4). rewrite Z.min_l by lia.
  rewrite (proj2 (Z.leb_le _ _)), (proj2 (Z.leb_le _ _)) by done. cbn [andb].
  rewrite slice_full by lia.
  pose proof (ok_wanted _ _ Hs Hb1 Ht) as W.
  pose proof (maybe_add_auto_step s t r Hs Hok) as Hstep.
  assert (lower t ∉ lower <$> tokens s) as Hnt.
  { rewrite fmap_app in Hn. apply list.NoDup_app in Hn as (_&Hd&_). intros Hin.
    apply (Hd _ Hin). cbn. by left. }
  rewrite zlen_cons in Hz. pose proof (zlen_nonneg ts).
  destruct (maybe_add_auto s t r) as [[s1 r1]|] eqn:E; [|destruct Hstep; lia].
  destruct Hstep as (Hok1&Hx&Hc). rewrite W in Hc. destruct Hc as (_&[[? _]|[(_&_&Hp)|(_&?&_)]]);
    [done| |lia].
  rewrite add_auto_wanted in E by done. pose proof (hit_auto_spec (x_a_extras s) t) as Hh.
  destruct (hit_auto _ _); [by destruct Hh|]. rewrite (proj2 (Z.ltb_lt _ _)) in E by lia.
  injection E as E <-. cbn [mbind option_bind].
  assert (zlen (x_a_extras s1) = zlen (x_a_extras s) + 1) as Hz1.
  { apply Permutation_length in Hp. unfold tokens in Hp. cbn in Hp. rewrite !length_fmap in Hp.
    unfold zlen. lia. }
  destruct (IH n s1) as (s'&Hs'&Hp'); rewrite ?Hx; auto.
  - by rewrite Hp, (Permutation_middle (tokens s) ts t).
  - cbn in Hl. lia.
  - lia.
  - exists s'. split; [done|]. rewrite Hp', Hp. by rewrite <- Permutation_middle.
Qed.

End Invariant.

(** ** Witnesses *)

Definition auto_ex : extras_st :=
  ExtrasSt [[71; 69; 84]] [AutoExtra [80; 79; 83; 84] 2; AutoExtra [65; 66; 67] 0] true.

Lemma auto_ex_ok : by_len (x_extras auto_ex) /\ auto_ok auto_ex.
Proof.
  split; [by repeat constructor|]. split; [by vm_compute|]. split.
  - change (lower <$> tokens auto_ex) with [[112; 111; 115; 116]; [97; 98; 99]].
    repeat constructor; rewrite ?list_elem_of_singleton, ?elem_of_nil; congruence.
  - assert (by_len (x_extras auto_ex)) as Hs by (by repeat constructor).
    constructor; [by apply wanted_ok|]. constructor; [by apply wanted_ok|constructor].
Qed.

(** [post] is a hit on [POST]; a new token of two bytes joins. *)
Example maybe_add_auto_witness :
  (exists s', maybe_add_auto auto_ex [112; 111; 115; 116] [] = Some (s', []) /\
     tokens s' ≡ₚ tokens auto_ex /\ auto_ok s') /\
  (exists s', maybe_add_auto auto_ex [1; 2] [] = Some (s', []) /\ auto_ok s' /\
     tokens s' = [[1; 2]; [65; 66; 67]; [80; 79; 83; 84]]).
Proof.
  destruct auto_ex_ok as [Hs Hok].
  pose proof (maybe_add_auto_correct auto_ex [112; 111; 115; 116] [] Hs Hok ltac:(by repeat constructor)) as H1.
  pose proof (maybe_add_auto_correct auto_ex [1; 2] [] Hs Hok ltac:(by repeat constructor)) as H2.
  split.
  - exists (ExtrasSt [[71; 69; 84]] [AutoExtra [65; 66; 67] 0; AutoExtra [80; 79; 83; 84] 3] true).
    assert (maybe_add_auto auto_ex [112; 111; 115; 116] [] = Some
      (ExtrasSt [[71; 69; 84]] [AutoExtra [65; 66; 67] 0; AutoExtra [80; 79; 83; 84] 3] true, []))
      as E by (vm_compute; reflexivity).
    rewrite E in H1. split; [exact E|]. destruct H1 as [H1 _].
    split; [exact (perm_swap [80; 79; 83; 84] [65; 66; 67] [])|exact H1].
  - exists (ExtrasSt [[71; 69; 84]]
      [AutoExtra [1; 2] 0; AutoExtra [65; 66; 67] 0; AutoExtra [80; 79; 83; 84] 2] true).
    assert (maybe_add_auto auto_ex [1; 2] [] = Some (ExtrasSt [[71; 69; 84]]
      [AutoExtra [1; 2] 0; AutoExtra [65; 66; 67] 0; AutoExtra [80; 79; 83; 84] 2] true, []))
      as E by (vm_compute; reflexivity).
    rewrite E in H2. split; [exact E|]. destruct H2 as [H2 _]. split; [exact H2|reflexivity].
Defined.

