(* ===== verification/Tmin.v ===== *)
(** * afl-tmin: the test case minimizer

    [tmin_run_target] (with [classify_counts], [apply_mask] and [anything_set]),
    [minimize] and the dry run of [main] in [src/afl-tmin.c], without custom mutators.
    The buffers [in_data] and [tmp_buf] are whole allocations and [in_len] the number
    of live bytes of the first; an access outside of an allocation is [Fault].  The
    counters that only feed the final report ([alpha_del0] and the like) are left
    out; those of [tmin_run_target] are kept. *)

From S2P Require Import Prelude Res Rng.

(** ** One execution of the target *)

Inductive fsrv_run_result :=
| FSRV_RUN_OK
| FSRV_RUN_TMOUT
| FSRV_RUN_CRASH
| FSRV_RUN_ERROR
| FSRV_RUN_NOINST
| FSRV_RUN_NOBITS.

#[export] Instance fsrv_run_result_eq_dec : EqDecision fsrv_run_result.
Proof. solve_decision. Defined.

(** What [afl_fsrv_run_target] leaves behind: its value, [last_run_timed_out], the
    trace in shared memory, and whether the user has asked to stop. *)
Record exec_result := ExecResult {
  ret : fsrv_run_result;
  last_run_timed_out : bool;
  trace : list Z;
  stop_soon : bool
}.

(** The command line. *)
Record tmin_cfg := TminCfg {
  hang_mode : bool;
  exact_mode : bool;
  edges_only : bool;
  mask_bitmap : option (list Z);
  map_size : Z;
  del_len_limit : Z
}.

(** The globals [tmin_run_target] writes, and the state [world] of the target. *)
Record tmin_st (W : Type) := TminSt {
  world : W;
  timed_out : bool;
  trace_bits : list Z;
  crash_mode : bool;
  orig_cksum : Z;
  missed_hangs : Z;
  missed_crashes : Z;
  missed_paths : Z
}.
Arguments TminSt {W}.
Arguments world {W}.
Arguments timed_out {W}.
Arguments trace_bits {W}.
Arguments crash_mode {W}.
Arguments orig_cksum {W}.
Arguments missed_hangs {W}.
Arguments missed_crashes {W}.
Arguments missed_paths {W}.

Definition count_class_lookup (i : Z) : Z :=
  if i =? 0 then 0
  else if i =? 1 then 1
  else if i =? 2 then 2
  else if i =? 3 then 4
  else if i <=? 7 then 8
  else if i <=? 15 then 16
  else if i <=? 31 then 32
  else if i <=? 127 then 64
  else 128.

Definition classify_byte (edges_only : bool) (b : Z) : Z :=
  if edges_only then (if z2b b then 1 else b) else count_class_lookup b.

(** [classify_counts]: [i] bytes are left, [mem] points at the next one. *)
Fixpoint classify_counts (edges_only : bool) (i : nat) (mem : list Z) : res (list Z) :=
  match i with
  | O => Ret mem
  | S i =>
      match mem with
      | [] => Fault
      | b :: mem =>
          rest ← classify_counts edges_only i mem;
          Ret (classify_byte edges_only b :: rest)
      end
  end.

(** [apply_mask]: [i] 32-bit words are left. *)
Fixpoint apply_mask_loop (i : nat) (mem mask : list Z) : res (list Z) :=
  match i with
  | O => Ret mem
  | S i =>
      m ← of_option (load mem 0 4);
      k ← of_option (load mask 0 4);
      rest ← apply_mask_loop i (drop 4 mem) (drop 4 mask);
      Ret (le_bytes 4 (Z.land (le_word m) (u32 (Z.lnot (le_word k)))) ++ rest)
  end.

Definition apply_mask (map_size : Z) (mem : list Z) (mask : option (list Z)) : res (list Z) :=
  match mask with
  | None => Ret mem
  | Some mask => apply_mask_loop (Z.to_nat (Z.shiftr map_size 2)) mem mask
  end.

(** [anything_set] *)
Fixpoint anything_set_loop (i : nat) (ptr : list Z) : res bool :=
  match i with
  | O => Ret false
  | S i =>
      w ← of_option (load ptr 0 4);
      if z2b (le_word w) then Ret true else anything_set_loop i (drop 4 ptr)
  end.

Definition anything_set (map_size : Z) (trace : list Z) : res bool :=
  anything_set_loop (Z.to_nat (Z.shiftr map_size 2)) trace.

Section Run.
Context {W : Type}.
(** The target, and [hash64] of [src/afl-performance.c] with the seed [HASH_CONST]. *)
Context (exec : W -> list Z -> exec_result * W) (hash64 : list Z -> Z) (c : tmin_cfg).

Definition miss_hang (s : tmin_st W) : tmin_st W :=
  TminSt (world s) (timed_out s) (trace_bits s) (crash_mode s) (orig_cksum s)
    (u32 (missed_hangs s + 1)) (missed_crashes s) (missed_paths s).
Definition miss_crash (s : tmin_st W) : tmin_st W :=
  TminSt (world s) (timed_out s) (trace_bits s) (crash_mode s) (orig_cksum s)
    (missed_hangs s) (u32 (missed_crashes s + 1)) (missed_paths s).
Definition miss_path (s : tmin_st W) : tmin_st W :=
  TminSt (world s) (timed_out s) (trace_bits s) (crash_mode s) (orig_cksum s)
    (missed_hangs s) (missed_crashes s) (u32 (missed_paths s + 1)).
Definition set_trace (s : tmin_st W) (w : W) (r : exec_result) (t : list Z) : tmin_st W :=
  TminSt w (last_run_timed_out r) t (crash_mode s) (orig_cksum s)
    (missed_hangs s) (missed_crashes s) (missed_paths s).
Definition set_crash_mode (s : tmin_st W) : tmin_st W :=
  TminSt (world s) (timed_out s) (trace_bits s) true (orig_cksum s)
    (missed_hangs s) (missed_crashes s) (missed_paths s).
Definition set_cksum (s : tmin_st W) (k : Z) : tmin_st W :=
  TminSt (world s) (timed_out s) (trace_bits s) (crash_mode s) k
    (missed_hangs s) (missed_crashes s) (missed_paths s).

(** The end of [tmin_run_target], from the check for [FSRV_RUN_NOINST] on. *)
Definition compare_path (r : fsrv_run_result) (first_run : bool) (s : tmin_st W) :
  res (bool * tmin_st W) :=
  if decide (r = FSRV_RUN_NOINST) then Exit
  else
    let cksum := hash64 (trace_bits s) in
    let s := if first_run then set_cksum s cksum else s in
    if orig_cksum s =? cksum then Ret (true, s) else Ret (false, miss_path s).

Definition tmin_run_target (s : tmin_st W) (mem : list Z) (first_run : bool) :
  res (bool * tmin_st W) :=
  let '(r, w) := exec (world s) mem in
  if decide (ret r = FSRV_RUN_ERROR) then Exit
  else if stop_soon r then Exit
  else if hang_mode c then
    let s := set_trace s w r (trace r) in
    match ret r with
    | FSRV_RUN_TMOUT => Ret (true, s)
    | FSRV_RUN_CRASH => Ret (false, miss_crash s)
    | _ => Ret (false, miss_hang s)
    end
  else
    t ← classify_counts (edges_only c) (Z.to_nat (map_size c)) (trace r);
    t ← apply_mask (map_size c) t (mask_bitmap c);
    let s := set_trace s w r t in
    match ret r with
    | FSRV_RUN_TMOUT => Ret (false, miss_hang s)
    | FSRV_RUN_CRASH =>
        let s := if first_run then set_crash_mode s else s in
        if crash_mode s then
          if negb (exact_mode c) then Ret (true, s)
          else compare_path (ret r) first_run s
        else Ret (false, miss_crash s)
    | _ =>
        if crash_mode s then Ret (false, miss_path s)
        else compare_path (ret r) first_run s
    end.
End Run.

(** ** The minimizer *)

(** What [minimize] calls: run the target on an input, and say whether the input is
    to be kept. *)
Class Runner (T : Type) := run : T -> list Z -> res (bool * T).

(** What it relies on.  [verdict t mem v]: the answer [v] to [mem] is known in state
    [t]; [may_exit]: the process may be terminated from within a run. *)
Class Target (T : Type) `{Runner T} := {
  tinv : T -> Prop;
  verdict : T -> list Z -> bool -> Prop;
  may_exit : Prop;
  run_spec : forall t mem, tinv t ->
    match run t mem with
    | Ret (v, t') =>
        tinv t' /\ verdict t' mem v /\ forall m b, verdict t m b -> verdict t' m b
    | Exit => may_exit
    | Fault | NoFuel => False
    end
}.

Definition TMIN_SET_MIN_SIZE : Z := 4.
Definition TMIN_SET_STEPS : Z := 128.
Definition TRIM_START_STEPS : Z := 16.
Definition TMIN_MAX_FILE : Z := 10 * 1024 * 1024.

(** The character '0'. *)
Definition zero_char : Z := 48.

Record mini_st (T : Type) := Mini {
  in_data : list Z;
  in_len : Z;
  tmp_buf : list Z;
  changed_any : bool;
  tgt : T
}.
Arguments Mini {T}.
Arguments in_data {T}.
Arguments in_len {T}.
Arguments tmp_buf {T}.
Arguments changed_any {T}.
Arguments tgt {T}.

Section Minimize.
Context {T : Type} `{Runner T}.
Implicit Types s : mini_st T.

Definition set_tmp s (t : list Z) : mini_st T :=
  Mini (in_data s) (in_len s) t (changed_any s) (tgt s).
Definition set_tgt s (t : T) : mini_st T :=
  Mini (in_data s) (in_len s) (tmp_buf s) (changed_any s) t.
(** New live bytes, with [changed_any = ch]. *)
Definition set_data s (d : list Z) (n : Z) (ch : bool) : mini_st T :=
  Mini d n (tmp_buf s) ch (tgt s).

(** [tmin_run_target(fsrv, tmp_buf, n, 0)] *)
Definition try_tmp s (n : Z) : res (bool * mini_st T) :=
  mem ← of_option (load (tmp_buf s) 0 n);
  '(v, t) ← run (tgt s) mem;
  Ret (v, set_tgt s t).

(** Stage 0, one iteration of the loop at [set_pos]. *)
Definition set_step (set_len set_pos : Z) s : res (mini_st T) :=
  let use_len := Z.min set_len (in_len s - set_pos) in
  blk ← of_option (load (in_data s) set_pos use_len);
  if forallb (Z.eqb zero_char) blk then Ret s
  else
    t ← memcpy (tmp_buf s) 0 (in_data s) 0 (in_len s);
    t ← memset t set_pos zero_char use_len;
    '(v, s) ← try_tmp (set_tmp s t) (in_len s);
    if v : bool then
      d ← memset (in_data s) set_pos zero_char use_len;
      Ret (set_data s d (in_len s) (changed_any s))
    else Ret s.

Fixpoint set_loop (fuel : nat) (set_len set_pos : Z) s : res (mini_st T) :=
  match fuel with
  | O => NoFuel
  | S fuel =>
      if set_pos <? in_len s then
        s ← set_step set_len set_pos s;
        set_loop fuel set_len (u32 (set_pos + set_len)) s
      else Ret s
  end.

Definition block_normalization (fuel : nat) s : res (mini_st T) :=
  let set_len := u32 (next_pow2 (in_len s / TMIN_SET_STEPS)) in
  let set_len := if set_len <? TMIN_SET_MIN_SIZE then TMIN_SET_MIN_SIZE else set_len in
  set_loop fuel set_len 0 s.

(** Stage 1, for one block length. *)
Fixpoint del_loop (fuel : nat) (del_len del_pos : Z) (prev_del : bool) s : res (mini_st T) :=
  match fuel with
  | O => NoFuel
  | S fuel =>
      if del_pos <? in_len s then
        let tail_len := s32 (in_len s - del_pos - del_len) in
        let tail_len := if tail_len <? 0 then 0 else tail_len in
        same ← (if negb prev_del && z2b tail_len then
                  a ← of_option (load (in_data s) (del_pos - del_len) del_len);
                  b ← of_option (load (in_data s) del_pos del_len);
                  Ret (bool_decide (a = b))
                else Ret false);
        if same : bool then del_loop fuel del_len (u32 (del_pos + del_len)) prev_del s
        else
          t ← memcpy (tmp_buf s) 0 (in_data s) 0 del_pos;
          t ← memcpy t del_pos (in_data s) (del_pos + del_len) tail_len;
          '(v, s) ← try_tmp (set_tmp s t) (del_pos + tail_len);
          if v : bool then
            d ← memcpy (in_data s) 0 (tmp_buf s) 0 (del_pos + tail_len);
            del_loop fuel del_len del_pos true (set_data s d (del_pos + tail_len) true)
          else del_loop fuel del_len (u32 (del_pos + del_len)) false s
      else Ret s
  end.

(** The label [next_del_blksize]; [n] bounds the number of block lengths. *)
Fixpoint del_sizes (n fuel : nat) (limit del_len : Z) s : res (mini_st T) :=
  match n with
  | O => NoFuel
  | S n =>
      let del_len := if z2b del_len then del_len else 1 in
      s ← del_loop fuel del_len 0 true s;
      if (limit <? del_len) && (1 <=? in_len s) then del_sizes n fuel limit (del_len / 2) s
      else Ret s
  end.

Definition block_deletion (fuel : nat) (limit : Z) s : res (mini_st T) :=
  del_sizes fuel fuel limit (u32 (next_pow2 (in_len s / TRIM_START_STEPS))) s.

(** [alpha_map[b]++] over the live bytes. *)
Definition alpha_incr (m : list Z) (b : Z) : list Z := alter (fun n => u32 (n + 1)) (Z.to_nat b) m.
Definition alpha_count (l : list Z) : list Z := foldl alpha_incr (replicate 256 0) l.

(** [if (tmp_buf[r] == i) { tmp_buf[r] = '0'; }] over the live bytes. *)
Definition subst_sym (i : Z) (l : list Z) : list Z :=
  (fun b => if b =? i then zero_char else b) <$> l.

(** Stage 2, one symbol. *)
Definition alpha_step (alpha_map : list Z) (i : Z) s : res (mini_st T) :=
  n ← of_option (get alpha_map i);
  if (i =? zero_char) || negb (z2b n) then Ret s
  else
    t ← memcpy (tmp_buf s) 0 (in_data s) 0 (in_len s);
    live ← of_option (load t 0 (in_len s));
    t ← of_option (store t 0 (subst_sym i live));
    '(v, s) ← try_tmp (set_tmp s t) (in_len s);
    if v : bool then
      d ← memcpy (in_data s) 0 (tmp_buf s) 0 (in_len s);
      Ret (set_data s d (in_len s) true)
    else Ret s.

Fixpoint alpha_loop (alpha_map : list Z) (js : list Z) s : res (mini_st T) :=
  match js with
  | [] => Ret s
  | i :: js => s ← alpha_step alpha_map i s; alpha_loop alpha_map js s
  end.

Definition alphabet_minimization s : res (mini_st T) :=
  live ← of_option (load (in_data s) 0 (in_len s));
  alpha_loop (alpha_count live) (seqZ 0 256) s.

(** Stage 3, one position; [tmp_buf] keeps its contents from one to the next. *)
Definition char_step (i : Z) s : res (mini_st T) :=
  orig ← of_option (get (tmp_buf s) i);
  if orig =? zero_char then Ret s
  else
    t ← of_option (put (tmp_buf s) i zero_char);
    '(v, s) ← try_tmp (set_tmp s t) (in_len s);
    if v : bool then
      d ← of_option (put (in_data s) i zero_char);
      Ret (set_data s d (in_len s) true)
    else
      t ← of_option (put (tmp_buf s) i orig);
      Ret (set_tmp s t).

Fixpoint char_loop (js : list Z) s : res (mini_st T) :=
  match js with
  | [] => Ret s
  | i :: js => s ← char_step i s; char_loop js s
  end.

Definition character_minimization s : res (mini_st T) :=
  t ← memcpy (tmp_buf s) 0 (in_data s) 0 (in_len s);
  char_loop (seqZ 0 (in_len s)) (set_tmp s t).

(** The label [next_pass]. *)
Fixpoint passes (n fuel : nat) (limit cur_pass : Z) s : res (mini_st T) :=
  match n with
  | O => NoFuel
  | S n =>
      let cur_pass := u32 (cur_pass + 1) in
      s ← block_deletion fuel limit (set_data s (in_data s) (in_len s) false);
      if (1 <? cur_pass) && negb (changed_any s) then Ret s
      else
        s ← alphabet_minimization s;
        s ← character_minimization s;
        if changed_any s then passes n fuel limit cur_pass s else Ret s
  end.

(** [minimize] on the globals [in_data], [in_len]; [scratch] is the uninitialised
    block of [in_len] bytes that [ck_alloc_nozero] returns. *)
Definition minimize (fuel : nat) (limit : Z) (data scratch : list Z) (t : T) :
  res (mini_st T) :=
  let s := Mini data (zlen data) scratch false t in
  if in_len s <=? 1 then Ret s
  else
    s ← block_normalization fuel s;
    passes fuel fuel limit 0 s.
End Minimize.

(** ** The program *)

Section Main.
Context {W : Type}.
Context (exec : W -> list Z -> exec_result * W) (hash64 : list Z -> Z) (c : tmin_cfg).

#[local] Instance tmin_runner : Runner (tmin_st W) :=
  fun s mem => tmin_run_target exec hash64 c s mem false.

(** The dry run in [main], up to the call of [minimize]. *)
Definition dry_run (s : tmin_st W) (data : list Z) : res (tmin_st W) :=
  '(_, s) ← tmin_run_target exec hash64 c s data true;
  if hang_mode c && negb (timed_out s) then Exit
  else if timed_out s && negb (hang_mode c) then Exit
  else if negb (hang_mode c) && negb (crash_mode s) then
    b ← anything_set (map_size c) (trace_bits s);
    if b : bool then Ret s else Exit
  else Ret s.

(** [read_initial_file] (the checks on the size), the dry run, [minimize]; the result
    is what is written to the output file. *)
Definition tmin_main (fuel : nat) (w : W) (file scratch : list Z) : res (list Z) :=
  if (zlen file =? 0) || (TMIN_MAX_FILE <=? zlen file) then Exit
  else
    s ← dry_run (TminSt w false [] false 0 0 0 0) file;
    m ← minimize fuel (del_len_limit c) file scratch s;
    of_option (load (in_data m) 0 (in_len m)).
End Main.
