(* ===== verification/TminFacts.v ===== *)
(** * afl-tmin: correctness of the minimizer

    [minimize] against the interface [Target] (which [TminMain] discharges for
    [tmin_run_target]): it stays inside its buffers, terminates, only deletes bytes
    or replaces them by '0', ends on an input the target has accepted, and with
    [del_len_limit = 1] no single byte of the result can be deleted. *)

From S2P Require Import Prelude Res Rng Tmin.

(** ** What the stages may do to the live bytes *)

Inductive shrinks : list Z -> list Z -> Prop :=
| shrinks_nil : shrinks [] []
| shrinks_keep x l l' : shrinks l l' -> shrinks (x :: l) (x :: l')
| shrinks_zero x l l' : shrinks l l' -> shrinks (x :: l) (zero_char :: l')
| shrinks_drop x l l' : shrinks l l' -> shrinks (x :: l) l'.

#[export] Hint Constructors shrinks : afl.

Fixpoint weight (l : list Z) : Z :=
  match l with
  | [] => 0
  | x :: l => 1 + (if x =? zero_char then 0 else 1) + weight l
  end.

Lemma shrinks_refl l : shrinks l l.
Proof. induction l; auto with afl. Qed.

Lemma shrinks_trans l1 l2 l3 : shrinks l1 l2 -> shrinks l2 l3 -> shrinks l1 l3.
Proof.
  intros H. revert l3. induction H; intros l3 H3; auto with afl;
    inversion H3; subst; auto with afl.
Qed.

#[export] Instance shrinks_preorder : PreOrder shrinks.
Proof. split; [exact shrinks_refl|exact shrinks_trans]. Qed.

Lemma shrinks_app a a' b b' : shrinks a a' -> shrinks b b' -> shrinks (a ++ b) (a' ++ b').
Proof. induction 1; intros; simpl; auto with afl. Qed.

Lemma shrinks_nil_r l : shrinks l [].
Proof. induction l; auto with afl. Qed.

Lemma shrinks_zeros l : shrinks l (replicate (length l) zero_char).
Proof. induction l; simpl; auto with afl. Qed.

Lemma shrinks_subst i l : shrinks l (subst_sym i l).
Proof. induction l as [|x l]; cbn; [constructor|]. cond_step; auto with afl. Qed.

Lemma shrinks_length l l' : shrinks l l' -> (length l' <= length l)%nat.
Proof. induction 1; simpl; lia. Qed.

Lemma shrinks_bytes l l' : shrinks l l' -> bytes_ok l -> bytes_ok l'.
Proof.
  induction 1; intros Hl; auto; apply Forall_cons_iff in Hl as [? ?]; auto.
  constructor; [by split|auto].
Qed.

Lemma shrinks_weight l l' : shrinks l l' -> l' = l \/ weight l' < weight l.
Proof.
  induction 1 as [| x l l' _ [->|] | x l l' _ [->|] | x l l' _ [->|]]; cbn [weight]; auto;
    try (right; repeat cond_step; b2p; lia).
  destruct (x =? zero_char) eqn:E; b2p; [by left; subst|].
  right. cbn. lia.
Qed.

Lemma weight_bound l : 0 <= weight l <= 2 * zlen l.
Proof.
  induction l as [|x l IH]; [done|]. rewrite zlen_cons. cbn [weight]. cond_step; lia.
Qed.

Lemma slice_whole {A} (m : list A) : slice m 0 (zlen m) = m.
Proof. by apply slice_full. Qed.

(** The three ways to change a range. *)
Lemma shrinks_set l p n :
  0 <= p -> 0 <= n -> p + n <= zlen l ->
  shrinks l (splice_at l p (replicate (Z.to_nat n) zero_char)).
Proof.
  intros Hp Hn Hl. unfold splice_at. rewrite length_replicate.
  rewrite <- (take_drop (Z.to_nat p) l) at 1. apply shrinks_app; [done|].
  rewrite <- (take_drop (Z.to_nat n) (drop (Z.to_nat p) l)) at 1.
  rewrite drop_drop. apply shrinks_app; [|done].
  pose proof (shrinks_zeros (take (Z.to_nat n) (drop (Z.to_nat p) l))) as Hz.
  rewrite length_take, length_drop, Nat.min_l in Hz by (unfold zlen in Hl; lia). done.
Qed.

Definition cut (l : list Z) (p d : Z) : list Z :=
  take (Z.to_nat p) l ++ drop (Z.to_nat (p + d)) l.

Lemma shrinks_cut l p d : 0 <= p -> 0 <= d -> shrinks l (cut l p d).
Proof.
  intros Hp Hd. unfold cut. rewrite Z2Nat.inj_add, <- drop_drop by done.
  rewrite <- (take_drop (Z.to_nat p) l) at 1. apply shrinks_app; [done|].
  rewrite <- (take_drop (Z.to_nat d) (drop (Z.to_nat p) l)) at 1.
  apply (shrinks_app _ []); [apply shrinks_nil_r|done].
Qed.

Lemma zlen_cut l p d :
  0 <= p < zlen l -> 0 < d -> zlen (cut l p d) < zlen l.
Proof.
  unfold zlen, cut. intros. rewrite length_app, length_take, length_drop. lia.
Qed.

(** Deleting either of two equal neighbours gives the same string. *)
Lemma cut_neighbour l p :
  0 < p -> slice l (p - 1) 1 = slice l p 1 -> p < zlen l -> cut l p 1 = cut l (p - 1) 1.
Proof.
  intros Hp E Hl. destruct (slice_one l (p - 1)) as (a&Ea&Ha); [lia|].
  destruct (slice_one l p) as (b&Eb&Hb); [lia|]. rewrite Ea, Eb in E. simplify_eq.
  unfold cut. replace (p - 1 + 1) with p by lia.
  replace (Z.to_nat p) with (S (Z.to_nat (p - 1))) in * by lia.
  rewrite (take_S_r _ _ _ Ha), <- app_assoc. f_equal.
  rewrite (drop_S _ _ _ Hb). simpl. f_equal. f_equal. lia.
Qed.

(** ** Buffer operations *)

Lemma memcpy_spec d p s q n :
  0 <= n -> 0 <= p -> p + n <= zlen d -> 0 <= q -> (n <> 0 -> q + n <= zlen s) ->
  exists d', memcpy d p s q n = Ret d' /\ zlen d' = zlen d /\
    slice d' 0 (p + n) = slice d 0 p ++ slice s q n.
Proof.
  intros Hn Hp Hd Hq Hs. unfold memcpy. destruct (n =? 0) eqn:E; b2p.
  { exists d. subst n. rewrite Z.add_0_r. unfold slice at 3. rewrite take_0, app_nil_r. done. }
  rewrite load_Some by auto. cbn.
  pose proof (zlen_slice s q n Hq Hn (Hs E)) as Hl.
  revert Hl. generalize (slice s q n) as bs. intros bs Hl.
  rewrite store_Some by (rewrite ?Hl; lia). cbn. eexists. split; [done|].
  split; [apply zlen_splice_at; lia|].
  rewrite <- (slice_app _ 0 p n) by lia. f_equal.
  - apply list_eq. intros i. unfold slice. rewrite !drop_0. destruct (decide (i < Z.to_nat p)%nat).
    + rewrite !lookup_take_lt by lia. apply lookup_splice_ne; lia.
    + by rewrite !lookup_take_ge by lia.
  - rewrite <- Hl at 1. apply slice_splice_same; lia.
Qed.

Lemma slice_splice_prefix {A} (d : list A) off bs n :
  0 <= off -> off + zlen bs <= n -> n <= zlen d ->
  slice (splice_at d off bs) 0 n = splice_at (slice d 0 n) off bs.
Proof.
  unfold zlen. intros Ho Hb Hn. unfold slice, splice_at. rewrite !drop_0.
  rewrite take_app, take_take, Nat.min_r by lia.
  rewrite take_take, Nat.min_l by lia. f_equal.
  rewrite length_take, Nat.min_l by lia. rewrite take_app, take_ge by lia. f_equal.
  rewrite skipn_firstn_comm. f_equal. lia.
Qed.

Lemma memset_spec d off c n L :
  0 <= off -> 0 <= n -> off + n <= L -> L <= zlen d ->
  exists d', memset d off c n = Ret d' /\ zlen d' = zlen d /\
    slice d' 0 L = splice_at (slice d 0 L) off (replicate (Z.to_nat n) c).
Proof.
  intros. unfold memset. rewrite store_Some by (rewrite ?zlen_replicate; lia). eexists.
  split; [done|]. rewrite slice_splice_prefix by (rewrite ?zlen_replicate; lia).
  split; [|done]. apply zlen_splice_at; rewrite ?zlen_replicate; lia.
Qed.

Lemma put_prefix (d : list Z) i b L :
  0 <= i < L -> L <= zlen d ->
  exists d', put d i b = Some d' /\ zlen d' = zlen d /\
    slice d' 0 L = <[Z.to_nat i := b]> (slice d 0 L).
Proof.
  intros Hi HL. rewrite put_Some by lia. eexists. split; [done|].
  unfold zlen, slice in *. rewrite length_insert, !drop_0. split; [done|].
  apply take_insert_lt. lia.
Qed.

(** ** Invariants of the run *)

Section Minimizer.
Context {T : Type} `{Target T}.
Context (N : Z) (HN : 0 <= N < 2 ^ 31).
Implicit Types s : mini_st T.

(** The code returns with [Q], unless the target ends the process. *)
Abbreviation yields := (Res.yields may_exit False).

Definition live s : list Z := slice (in_data s) 0 (in_len s).

(** [t'] is a later state of the target than [t]. *)
Definition tle (t t' : T) : Prop :=
  tinv t' /\ forall m b, verdict t m b -> verdict t' m b.

Record good s : Prop := Good {
  good_data : zlen (in_data s) = N;
  good_tmp : zlen (tmp_buf s) = N;
  good_len : 0 <= in_len s <= N;
  good_inv : tinv (tgt s);
  good_kept : verdict (tgt s) (live s) true;
  good_bytes : bytes_ok (live s)
}.

Record adv0 s s' : Prop := Adv0 {
  adv_good : good s';
  adv_shrinks : shrinks (live s) (live s');
  adv_verdict : forall m b, verdict (tgt s) m b -> verdict (tgt s') m b
}.

(** A step from [s] to [s'] in a pass: [changed_any] tells whether the live bytes
    are still the same. *)
Record adv s s' : Prop := Adv {
  adv_adv0 : adv0 s s';
  adv_changed : changed_any s' = true ->
    changed_any s = true \/ weight (live s') < weight (live s);
  adv_same : changed_any s' = false -> changed_any s = false /\ live s' = live s
}.

Lemma adv0_refl s : good s -> adv0 s s.
Proof. by split. Qed.

Lemma adv0_trans s1 s2 s3 : adv0 s1 s2 -> adv0 s2 s3 -> adv0 s1 s3.
Proof. intros [] []. split; [done|by etrans|auto]. Qed.

Lemma adv_refl s : good s -> adv s s.
Proof. split; [by apply adv0_refl| |]; auto. Qed.

Lemma adv_trans s1 s2 s3 : adv s1 s2 -> adv s2 s3 -> adv s1 s3.
Proof.
  intros [A1 C1 S1] [A2 C2 S2]. split; [by eapply adv0_trans| |].
  - intros [Hc|Hw]%C2.
    + apply C1 in Hc as [|]; [by left|right].
      destruct (shrinks_weight _ _ (adv_shrinks _ _ A2)) as [->|]; lia.
    + right. destruct (shrinks_weight _ _ (adv_shrinks _ _ A1)) as [<-|]; lia.
  - intros [Hc ->]%S2. by apply S1 in Hc as [? ->].
Qed.

Lemma zlen_live s : good s -> zlen (live s) = in_len s.
Proof. intros [? ? ? _ _ _]. apply zlen_slice; lia. Qed.

(** The target accepts new live bytes [l']. *)
Lemma good_accept s t' d n tmp ch l' :
  good s -> tle (tgt s) t' -> zlen d = N -> 0 <= n <= N -> zlen tmp = N ->
  slice d 0 n = l' -> shrinks (live s) l' -> verdict t' l' true ->
  adv0 s (Mini d n tmp ch t').
Proof.
  intros Hg [Hi Hv] Hd Hn Ht <- Hs Hk. split; [|done|done].
  split; [done..|]. exact (shrinks_bytes _ _ Hs (good_bytes _ Hg)).
Qed.

Lemma adv_accept s t' d n tmp l' :
  good s -> tle (tgt s) t' -> zlen d = N -> 0 <= n <= N -> zlen tmp = N ->
  slice d 0 n = l' -> shrinks (live s) l' -> l' <> live s -> verdict t' l' true ->
  adv s (Mini d n tmp true t').
Proof.
  intros Hg Ht Hd Hn Htmp Hl Hs Hne Hk.
  split; [by eapply good_accept| |done].
  intros _. right. destruct (shrinks_weight _ _ Hs) as [|]; [done|].
  unfold live at 1. cbn. by rewrite Hl.
Qed.

(** It rejects them. *)
Lemma adv_reject s t' tmp :
  good s -> tle (tgt s) t' -> zlen tmp = N ->
  adv s (Mini (in_data s) (in_len s) tmp (changed_any s) t').
Proof.
  intros Hg [Hi Hv] Ht. split; [split| |]; [|done|done|by left|done].
  destruct Hg. split; auto.
Qed.

Lemma yields_try s n Q :
  tinv (tgt s) -> 0 <= n <= zlen (tmp_buf s) ->
  (forall v t', tle (tgt s) t' -> verdict t' (slice (tmp_buf s) 0 n) v ->
    Q (v, set_tgt s t')) ->
  yields (try_tmp s n) Q.
Proof.
  intros Hi Hn HQ. unfold try_tmp. rewrite load_Some by lia. cbn.
  pose proof (run_spec (tgt s) (slice (tmp_buf s) 0 n) Hi) as Hr.
  destruct (run _ _) as [[v t']| | |]; cbn in *; [|done..].
  destruct Hr as (?&?&?). apply HQ; [by split|done].
Qed.

(** [tmp_buf] receives a copy of the live bytes. *)
Lemma copy_live s :
  good s -> exists t, memcpy (tmp_buf s) 0 (in_data s) 0 (in_len s) = Ret t /\
    zlen t = N /\ slice t 0 (in_len s) = live s.
Proof.
  intros [Hd Ht Hl _ _ _].
  destruct (memcpy_spec (tmp_buf s) 0 (in_data s) 0 (in_len s)) as (t&Et&Hz&Hs); try lia.
  exists t. split_and!; [done|lia|exact Hs].
Qed.

(** ** Stage 0 *)

Lemma set_step_ok set_len set_pos s :
  good s -> 0 < set_len -> 0 <= set_pos < in_len s ->
  yields (set_step set_len set_pos s) (fun s' => adv0 s s' /\ in_len s' = in_len s).
Proof.
  intros Hg Hs Hp. pose proof (zlen_live s Hg) as HL.
  unfold set_step. set (u := Z.min _ _). assert (0 < u /\ set_pos + u <= in_len s) as [Hu Hu'] by lia.
  clearbody u. destruct (Hg) as [Hd Ht Hl Hi _ _]. rewrite load_Some by lia. cbn.
  cond_step; [cbn; auto using adv0_refl|].
  destruct (copy_live s Hg) as (t&->&Hz&Hc). cbn.
  destruct (memset_spec t set_pos zero_char u (in_len s)) as (t2&->&Hz2&Hc2); try lia. cbn.
  apply yields_bind, yields_try; [done|cbn; lia|]. intros v t' Htle Hv. cbn in Htle, Hv.
  rewrite Hc2, Hc in Hv. cbn.
  destruct v; cbn; [|split; [|done]; exact (adv_adv0 _ _ (adv_reject s t' t2 Hg Htle (eq_trans Hz2 Hz)))].
  destruct (memset_spec (in_data s) set_pos zero_char u (in_len s)) as (d&->&Hz3&Hc3); try lia.
  cbn. split; [|done].
  eapply good_accept; [done..|lia|cbn; lia|cbn; lia|exact Hc3| |done]. unfold live in *. apply shrinks_set; lia.
Qed.

Lemma set_loop_ok fuel set_len set_pos s :
  good s -> 0 < set_len < 2 ^ 31 -> 0 <= set_pos ->
  Z.max 0 (in_len s - set_pos) < Z.of_nat fuel ->
  yields (set_loop fuel set_len set_pos s) (fun s' => adv0 s s' /\ in_len s' = in_len s).
Proof.
  revert set_pos s. induction fuel as [|fuel IH]; intros set_pos s Hg Hs Hp Hf; [lia|].
  cbn [set_loop]. pose proof (good_len _ Hg).
  destruct (set_pos <? in_len s) eqn:E; b2p; [|cbn; auto using adv0_refl].
  apply yields_bind. eapply yields_mono; [apply set_step_ok; [done|lia|lia]|].
  intros s' [Ha Hl]. rewrite (wrap_small 32) by (unfold in_width; lia).
  eapply yields_mono; [apply IH; [apply Ha|lia..]|].
  intros s'' [Ha' Hl']. split; [by eapply adv0_trans|congruence].
Qed.

(** Block lengths derived from the size of the input. *)
Lemma pow2_block n k :
  0 <= n < 2 ^ 31 -> 2 <= k -> 0 <= u32 (next_pow2 (n / k)) <= n.
Proof.
  intros Hn Hk. set (q := n / k).
  assert (0 <= q /\ 2 * q <= n) as [Hq Hqn].
  { pose proof (Z.mul_div_le n k ltac:(lia)). assert (0 <= n / k) by (apply Z.div_pos; lia).
    unfold q. nia. }
  clearbody q. destruct (decide (q = 0)) as [->|]; [change (0 <= 0 <= n); lia|].
  destruct (decide (q = 1)) as [->|]; [change (0 <= 1 <= n); lia|].
  rewrite next_pow2_value by lia.
  assert (2 ^ (Z.log2 (q - 1) + 1) <= 2 * (q - 1)) as Hle.
  { rewrite Z.pow_add_r by (try apply Z.log2_nonneg; lia).
    pose proof (proj1 (Z.log2_spec (q - 1) ltac:(lia))). lia. }
  pose proof (Z.pow_nonneg 2 (Z.log2 (q - 1) + 1)).
  rewrite wrap_small by (unfold in_width; lia). lia.
Qed.

Lemma block_normalization_ok fuel s :
  good s -> in_len s < Z.of_nat fuel ->
  yields (block_normalization fuel s) (fun s' => adv0 s s' /\ in_len s' = in_len s).
Proof.
  intros Hg Hf. unfold block_normalization. pose proof (good_len _ Hg).
  pose proof (pow2_block (in_len s) TMIN_SET_STEPS ltac:(lia) ltac:(done)).
  apply set_loop_ok; [done| |lia..]. unfold TMIN_SET_MIN_SIZE. cond_step; b2p; lia.
Qed.

(** ** Stage 1 *)

(** Every deletion of one of the first [p] bytes has been rejected. *)
Definition tried s (p : Z) : Prop :=
  forall i, 0 <= i < p -> verdict (tgt s) (cut (live s) i 1) false.

Lemma tried_adv s s' p :
  adv s s' -> changed_any s' = false -> tried s p -> tried s' p.
Proof.
  intros [A0 _ S0] Hc Ht i Hi. apply S0 in Hc as [_ ->]. by apply (adv_verdict _ _ A0), Ht.
Qed.

Lemma tail_len_value n p d :
  0 <= p < n -> n < 2 ^ 31 -> 0 < d < 2 ^ 31 ->
  (if s32 (n - p - d) <? 0 then 0 else s32 (n - p - d)) = Z.max 0 (n - p - d).
Proof.
  intros. rewrite swrap_small by lia. destruct (_ <? 0) eqn:E; b2p; lia.
Qed.

(** The candidate of stage 1, assembled in [tmp_buf]. *)
Lemma cut_candidate s p d :
  good s -> 0 <= p < in_len s -> 0 < d ->
  exists t1 t2, let tail := Z.max 0 (in_len s - p - d) in
    memcpy (tmp_buf s) 0 (in_data s) 0 p = Ret t1 /\
    memcpy t1 p (in_data s) (p + d) tail = Ret t2 /\
    zlen t2 = N /\ slice t2 0 (p + tail) = cut (live s) p d.
Proof.
  intros Hg Hp Hd. destruct (Hg) as [Hz Ht Hl _ _ _]. cbv zeta.
  destruct (memcpy_spec (tmp_buf s) 0 (in_data s) 0 p) as (t1&E1&Z1&S1); try lia.
  destruct (memcpy_spec t1 p (in_data s) (p + d) (Z.max 0 (in_len s - p - d)))
    as (t2&E2&Z2&S2); try lia.
  exists t1, t2. split_and!; [done..|lia|]. rewrite S2.
  rewrite Z.add_0_l in S1. rewrite S1.
  unfold cut, live, slice. cbn [Z.to_nat]. rewrite !drop_0, take_take, Nat.min_l by lia.
  f_equal. rewrite skipn_firstn_comm. f_equal. lia.
Qed.

Lemma slice_live s off n :
  0 <= off -> 0 <= n -> off + n <= in_len s -> slice (in_data s) off n = slice (live s) off n.
Proof.
  intros. unfold live, slice. rewrite drop_0, skipn_firstn_comm, take_take. f_equal. lia.
Qed.

(** The comparison of a block with the previous one: equal blocks of one byte give
    the same candidate. *)
Lemma same_block_ok s d p prev tail :
  good s -> 0 < d -> (prev = false -> d <= p) -> 0 <= p < in_len s ->
  tail = Z.max 0 (in_len s - p - d) ->
  yields (if negb prev && z2b tail then
        a ← of_option (load (in_data s) (p - d) d);
        b ← of_option (load (in_data s) p d);
        Ret (bool_decide (a = b))
      else Ret false)
    (fun same => same = true -> d = 1 -> tried s p -> tried s (p + 1)).
Proof.
  intros Hg Hd Hprev Hp ->. pose proof (good_len _ Hg). pose proof (good_data _ Hg).
  destruct (negb prev && _) eqn:E; [|done]. unfold z2b in E. b2p.
  specialize (Hprev ltac:(done)). rewrite !load_Some by lia. cbn.
  intros Hs%bool_decide_eq_true_1 -> Ht i Hi.
  destruct (decide (i = p)) as [->|]; [|apply Ht; lia].
  rewrite !slice_live in Hs by lia.
  rewrite cut_neighbour; [apply Ht; lia|lia|done|rewrite zlen_live by done; lia].
Qed.

(** One tried deletion. *)
Lemma del_reject s t2 t' p d :
  good s -> tle (tgt s) t' -> zlen t2 = N -> verdict t' (cut (live s) p d) false ->
  let s' := Mini (in_data s) (in_len s) t2 (changed_any s) t' in
  adv s s' /\ (d = 1 -> tried s p -> tried s' (p + d)).
Proof.
  intros Hg Ht Hz Hv s'. split; [by apply adv_reject|].
  intros -> Hp i Hi. destruct (decide (i = p)) as [->|]; [exact Hv|].
  apply (proj2 Ht), Hp. lia.
Qed.

Lemma del_accept s t2 t' p d n :
  good s -> tle (tgt s) t' -> zlen t2 = N -> 0 <= p < in_len s -> 0 < d -> 0 <= n <= N ->
  slice t2 0 n = cut (live s) p d -> verdict t' (cut (live s) p d) true ->
  yields (memcpy (in_data s) 0 t2 0 n) (fun d' => adv s (Mini d' n t2 true t')).
Proof.
  intros Hg Ht Hz Hp Hd Hn Hs Hv. pose proof (good_data _ Hg).
  destruct (memcpy_spec (in_data s) 0 t2 0 n) as (d'&->&Hz'&Hs'); try lia. cbn.
  rewrite Z.add_0_l in Hs'. eapply (adv_accept _ _ _ _ _ (cut (live s) p d)); try done; try lia.
  - by rewrite Hs', Hs.
  - apply shrinks_cut; lia.
  - intros E. pose proof (zlen_cut (live s) p d). rewrite E, zlen_live in * by done. lia.
Qed.

Lemma del_loop_ok fuel d p prev s :
  good s -> 0 < d < 2 ^ 31 -> 0 <= p -> (prev = false -> d <= p) ->
  Z.max 0 (in_len s - p) < Z.of_nat fuel ->
  (d = 1 -> changed_any s = false -> tried s p) ->
  yields (del_loop fuel d p prev s)
    (fun s' => adv s s' /\ (d = 1 -> changed_any s' = false -> tried s' (in_len s'))).
Proof.
  revert p prev s. induction fuel as [|fuel IH]; intros p prev s Hg Hd Hp Hprev Hf Htr; [lia|].
  cbn [del_loop]. pose proof (good_len _ Hg).
  destruct (p <? in_len s) eqn:E; b2p.
  2: { cbn. split; [by apply adv_refl|]. intros Hd1 Hc i Hi. apply Htr; [done..|lia]. }
  rewrite tail_len_value by lia. apply yields_bind.
  eapply yields_mono; [apply same_block_ok; [done|lia|done|lia|done]|].
  intros [] Hsame.
  { rewrite (wrap_small 32) by (unfold in_width; lia).
    apply IH; [done|done|lia|lia|lia|]. intros -> Hc. by apply Hsame, Htr. }
  destruct (cut_candidate s p d Hg ltac:(lia) ltac:(lia)) as (t1&t2&->&E2&Hz&Hs). cbn.
  rewrite E2. cbn. apply yields_bind, yields_try; [apply Hg|cbn; lia|].
  intros v t' Ht Hv. cbn in Ht, Hv. rewrite Hs in Hv. cbn. destruct v; cbn.
  - apply yields_bind. eapply yields_mono; [by eapply del_accept; try done; try lia|].
    intros d' Ha. eapply yields_mono; [apply IH; try done; [apply Ha|cbn; lia]|].
    intros s' [Ha' Htr']. split; [exact (adv_trans _ _ _ Ha Ha')|done].
  - destruct (del_reject s t2 t' p d Hg Ht Hz Hv) as [Ha Htr1].
    rewrite (wrap_small 32) by (unfold in_width; lia).
    eapply yields_mono; [apply IH; [apply Ha|lia|lia|lia|cbn; lia|]|].
    + intros Hd1 Hc. by apply Htr1, Htr.
    + intros s' [Ha' Htr']. split; [by eapply adv_trans|done].
Qed.

Lemma del_sizes_ok n fuel limit d s :
  good s -> 0 <= d < 2 ^ 31 -> d < Z.of_nat n -> (0 < n)%nat -> 1 <= limit ->
  in_len s < Z.of_nat fuel ->
  yields (del_sizes n fuel limit d s)
    (fun s' => adv s s' /\ (limit = 1 -> changed_any s' = false -> tried s' (in_len s'))).
Proof.
  revert d s. induction n as [|n IH]; intros d s Hg Hd Hn Hpos Hlim Hf; [lia|].
  cbn [del_sizes]. pose proof (good_len _ Hg).
  set (d1 := if z2b d then d else 1).
  assert (0 < d1 < 2 ^ 31 /\ (d <> 0 -> d1 = d) /\ (d = 0 -> d1 = 1)) as (Hd1&Hd2&Hd3).
  { unfold d1, z2b. destruct (d =? 0) eqn:E; b2p; cbn; lia. }
  clearbody d1. apply yields_bind. eapply yields_mono.
  { apply (del_loop_ok _ d1 0); [done|done|lia|done|lia|]. intros _ _ i Hi. lia. }
  intros s' [Ha Htr]. pose proof (shrinks_length _ _ (adv_shrinks _ _ (adv_adv0 _ _ Ha))) as Hsl.
  pose proof (zlen_live _ Hg) as L1. pose proof (zlen_live _ (adv_good _ _ (adv_adv0 _ _ Ha))) as L2.
  unfold zlen in L1, L2. cond_step; b2p.
  - eapply yields_mono; [apply IH; [apply Ha|dlia|dlia|dlia|done|lia]|].
    intros s'' [Ha' Htr']. split; [by eapply adv_trans|done].
  - cbn. split; [done|]. intros -> Hc. destruct E as [E|E]; b2p.
    + apply Htr; [lia|done].
    + intros i Hi. lia.
Qed.

Lemma block_deletion_ok fuel limit s :
  good s -> 1 <= limit -> in_len s < Z.of_nat fuel ->
  yields (block_deletion fuel limit s)
    (fun s' => adv s s' /\ (limit = 1 -> changed_any s' = false -> tried s' (in_len s'))).
Proof.
  intros Hg Hl Hf. unfold block_deletion. pose proof (good_len _ Hg).
  pose proof (pow2_block (in_len s) TRIM_START_STEPS ltac:(lia) ltac:(done)).
  apply del_sizes_ok; [done|lia..].
Qed.

(** ** Stage 2 *)

Lemma alpha_count_length l m : length (foldl alpha_incr m l) = length m.
Proof.
  revert m. induction l as [|b l IH]; intros m; [done|]. cbn. rewrite IH.
  apply length_alter.
Qed.

Lemma alpha_count_none l m j :
  (forall b, b ∈ l -> Z.to_nat b <> j) -> foldl alpha_incr m l !! j = m !! j.
Proof.
  revert m. induction l as [|b l IH]; intros m Hl; [done|]. cbn.
  rewrite IH by (intros; apply Hl; by right).
  apply list_lookup_alter_ne, Hl. by left.
Qed.

Lemma alpha_count_get l i :
  bytes_ok l -> 0 <= i < 256 ->
  exists n, get (alpha_count l) i = Some n /\ (n <> 0 -> i ∈ l).
Proof.
  intros Hl Hi. destruct (get_Some (alpha_count l) i) as [n Hn].
  { unfold zlen, alpha_count. rewrite alpha_count_length. done. }
  exists n. split; [done|]. intros Hne. destruct (decide (i ∈ l)) as [|Hni]; [done|].
  apply get_inv in Hn as [_ Hn]. unfold alpha_count in Hn.
  rewrite alpha_count_none in Hn.
  - apply lookup_replicate in Hn as [-> _]. done.
  - intros b Hb E. apply list_elem_of_lookup_1 in Hb as Hk. destruct Hk as [k Hk].
    destruct (Forall_lookup_1 _ _ _ _ Hl Hk).
    assert (b = i) as -> by lia. done.
Qed.

Lemma subst_sym_ne i l : i ∈ l -> i <> zero_char -> subst_sym i l <> l.
Proof.
  intros (k&Hk)%list_elem_of_lookup_1 Hne E. apply (f_equal (.!! k)) in E.
  unfold subst_sym in E. rewrite list_lookup_fmap, Hk in E. cbn in E.
  rewrite Z.eqb_refl in E. congruence.
Qed.

Lemma subst_sym_in i j l : j <> i -> j ∈ l -> j ∈ subst_sym i l.
Proof.
  intros Hne Hj. apply list_elem_of_fmap. exists j. split; [|done].
  by rewrite (proj2 (Z.eqb_neq _ _)).
Qed.

Lemma zlen_subst i l : zlen (subst_sym i l) = zlen l.
Proof. unfold zlen, subst_sym. by rewrite length_fmap. Qed.

Lemma alpha_step_ok am i n s :
  good s -> get am i = Some n -> (n <> 0 -> i <> zero_char -> i ∈ live s) ->
  yields (alpha_step am i s)
    (fun s' => adv s s' /\ in_len s' = in_len s /\
       forall j, j <> i -> j ∈ live s -> j ∈ live s').
Proof.
  intros Hg Hn Hin. unfold alpha_step. rewrite Hn. cbn. pose proof (zlen_live s Hg) as HL.
  destruct (_ || _) eqn:E; [cbn; auto using adv_refl|]. unfold z2b in E. b2p.
  destruct (Hg) as [Hd Ht Hl Hi _ _].
  destruct (copy_live s Hg) as (t&->&Hz&Hc). cbn.
  rewrite load_Some, Hc by lia. cbn.
  rewrite store_Some by (rewrite ?zlen_subst, ?HL; lia). cbn.
  set (t2 := splice_at t 0 _). assert (zlen t2 = N) as Hz2.
  { unfold t2. rewrite zlen_splice_at; rewrite ?zlen_subst; lia. }
  assert (slice t2 0 (in_len s) = subst_sym i (live s)) as Hs.
  { unfold t2. rewrite <- HL, <- (zlen_subst i). apply slice_splice_same; rewrite ?zlen_subst; lia. }
  clearbody t2. apply yields_bind, yields_try; [done|cbn; lia|].
  intros v t' Htle Hv. cbn in Htle, Hv. rewrite Hs in Hv. cbn.
  destruct v; cbn; [|split_and!; [by apply (adv_reject s t' t2)|done|done]].
  destruct (memcpy_spec (in_data s) 0 t2 0 (in_len s)) as (d&->&Hz3&Hs3); try lia. cbn.
  rewrite Z.add_0_l in Hs3. cbn in Hs3. rewrite Hs in Hs3. split_and!; [|done|].
  - eapply (adv_accept s t' d _ t2); [done..|lia|done|done|exact Hs3| | |done].
    + apply shrinks_subst.
    + apply subst_sym_ne; [by apply Hin|done].
  - intros j Hj Hjl. unfold live at 1. cbn. rewrite Hs3. by apply subst_sym_in.
Qed.

Lemma alpha_loop_ok am js s :
  good s -> NoDup js -> (forall i, i ∈ js -> exists n, get am i = Some n /\ (n <> 0 -> i ∈ live s)) ->
  yields (alpha_loop am js s) (fun s' => adv s s' /\ in_len s' = in_len s).
Proof.
  intros Hg Hd. revert s Hg. induction Hd as [|i js Hi Hd IH]; intros s Hg Hin; cbn.
  { auto using adv_refl. }
  destruct (Hin i) as (n&Hn&Hni); [by left|].
  apply yields_bind. eapply yields_mono; [by eapply alpha_step_ok; eauto|].
  intros s' (Ha&Hl&Hj). eapply yields_mono; [apply IH; [apply Ha|]|].
  - intros j Hjs. destruct (Hin j) as (n'&Hn'&Hnj); [by right|]. exists n'. split; [done|].
    intros Hne. apply Hj; [by intros ->|auto].
  - intros s'' [Ha' Hl']. split; [by eapply adv_trans|congruence].
Qed.

Lemma alphabet_minimization_ok s :
  good s -> yields (alphabet_minimization s) (fun s' => adv s s' /\ in_len s' = in_len s).
Proof.
  intros Hg. unfold alphabet_minimization. pose proof (good_len _ Hg).
  rewrite load_Some by (rewrite ?(good_data _ Hg); lia). cbn. fold (live s).
  apply alpha_loop_ok; [done|apply NoDup_seqZ|].
  intros i Hi%elem_of_seqZ. apply alpha_count_get; [apply Hg|lia].
Qed.

(** ** Stage 3 *)

Definition mirror s : Prop := slice (tmp_buf s) 0 (in_len s) = live s.

Lemma shrinks_insert l i : shrinks l (<[i := zero_char]> l).
Proof.
  revert i. induction l as [|x l IH]; intros [|i]; cbn; auto with afl.
  constructor. apply shrinks_refl.
Qed.

Lemma char_step_ok i s :
  good s -> mirror s -> 0 <= i < in_len s ->
  yields (char_step i s) (fun s' => adv s s' /\ in_len s' = in_len s /\ mirror s').
Proof.
  intros Hg Hm Hi. destruct (Hg) as [Hd Ht Hl Hinv _ _]. unfold char_step.
  destruct (get_Some (tmp_buf s) i) as [o Ho]; [lia|]. rewrite Ho. cbn.
  apply get_inv in Ho as [_ Ho].
  assert (live s !! Z.to_nat i = Some o) as Hlo.
  { rewrite <- Hm. unfold slice. rewrite drop_0, lookup_take_lt by lia. done. }
  destruct (o =? zero_char) eqn:E; [cbn; auto using adv_refl|]. b2p.
  destruct (put_prefix (tmp_buf s) i zero_char (in_len s)) as (t&->&Hz&Hs); try lia. cbn.
  rewrite Hm in Hs. apply yields_bind, yields_try; [done|cbn; lia|].
  intros v t' Htle Hv. cbn in Htle, Hv. rewrite Hs in Hv. cbn. destruct v; cbn.
  - destruct (put_prefix (in_data s) i zero_char (in_len s)) as (d&->&Hz2&Hs2); try lia. cbn.
    split_and!; [|done|unfold mirror, live; cbn; by rewrite Hs, Hs2].
    eapply (adv_accept s t' d _ t); [done..|lia|done|lia|exact Hs2|apply shrinks_insert| |done].
    intros Heq. apply (f_equal (.!! Z.to_nat i)) in Heq.
    rewrite list_lookup_insert_eq in Heq by (by eapply lookup_lt_Some).
    fold (live s) in Heq. rewrite Hlo in Heq. congruence.
  - destruct (put_prefix t i o (in_len s)) as (t3&->&Hz3&Hs3); try lia. cbn.
    split_and!; [apply (adv_reject s t' t3); [done..|lia]|done|].
    unfold mirror. cbn. rewrite Hs3, Hs, list_insert_insert_eq.
    rewrite list_insert_id by done. done.
Qed.

Lemma char_loop_ok js s :
  good s -> mirror s -> (forall i, i ∈ js -> 0 <= i < in_len s) ->
  yields (char_loop js s) (fun s' => adv s s' /\ in_len s' = in_len s).
Proof.
  revert s. induction js as [|i js IH]; intros s Hg Hm Hj; cbn; [auto using adv_refl|].
  apply yields_bind. eapply yields_mono; [apply char_step_ok; [done..|apply Hj; by left]|].
  intros s' (Ha&Hl&Hm'). eapply yields_mono; [apply IH; [apply Ha|done|]|].
  - intros k Hk. rewrite Hl. apply Hj. by right.
  - intros s'' [Ha' Hl']. split; [by eapply adv_trans|congruence].
Qed.

Lemma character_minimization_ok s :
  good s -> yields (character_minimization s) (fun s' => adv s s' /\ in_len s' = in_len s).
Proof.
  intros Hg. unfold character_minimization. destruct (copy_live s Hg) as (t&->&Hz&Hc). cbn.
  apply (yields_mono _ _ _ (fun s' => adv (set_tmp s t) s' /\ in_len s' = in_len (set_tmp s t))).
  - apply char_loop_ok; [by destruct Hg; split|done|].
    intros i Hi%elem_of_seqZ. cbn. lia.
  - intros s' [Ha Hl]. split; [|done]. destruct Ha as [[] ? ?]. split; [by split|done|done].
Qed.

(** ** The passes *)

(** What [minimize] promises of its final state. *)
Definition minimized (limit : Z) s s' : Prop :=
  adv0 s s' /\ (limit = 1 -> tried s' (in_len s')).

Lemma start_pass s : good s -> adv0 s (set_data s (in_data s) (in_len s) false).
Proof. intros []. by split; [split|..]. Qed.

Lemma adv0_len s s' : good s -> adv0 s s' -> in_len s' <= in_len s.
Proof.
  intros Hg [Hg' Hs _]. apply shrinks_length in Hs.
  pose proof (zlen_live _ Hg) as L. pose proof (zlen_live _ Hg') as L'. unfold zlen in *. lia.
Qed.

(** Stages 2 and 3. *)
Lemma symbols_ok s :
  good s ->
  yields (s ← alphabet_minimization s; character_minimization s)
    (fun s' => adv s s' /\ in_len s' = in_len s).
Proof.
  intros Hg. apply yields_bind. eapply yields_mono; [by apply alphabet_minimization_ok|].
  intros s1 [A1 L1]. eapply yields_mono; [apply character_minimization_ok, A1|].
  intros s2 [A2 L2]. split; [by eapply adv_trans|congruence].
Qed.

Lemma passes_ok n fuel limit cur s :
  good s -> 1 <= limit -> in_len s < Z.of_nat fuel -> weight (live s) < Z.of_nat n ->
  yields (passes n fuel limit cur s) (minimized limit s).
Proof.
  revert cur s. induction n as [|n IH]; intros cur s Hg Hlim Hf Hw.
  { pose proof (weight_bound (live s)). lia. }
  cbn [passes]. pose proof (start_pass s Hg) as H0'. apply yields_bind.
  eapply yields_mono; [apply block_deletion_ok; [apply H0'|done|done]|].
  intros s1 [A1 T1]. pose proof (adv0_trans _ _ _ H0' (adv_adv0 _ _ A1)) as A01.
  destruct (_ && _) eqn:E; b2p; [by split; auto|].
  pose proof (symbols_ok s1 (adv_good _ _ (adv_adv0 _ _ A1))) as Hsym.
  destruct (alphabet_minimization s1) as [s2| | |]; cbn in Hsym |- *; try done.
  apply yields_bind. eapply yields_mono; [exact Hsym|]. intros s3 [A3 L3].
  pose proof (adv_trans _ _ _ A1 A3) as A13.
  pose proof (adv0_trans _ _ _ A01 (adv_adv0 _ _ A3)) as A03.
  destruct (changed_any s3) eqn:Ec.
  - pose proof (adv0_len _ _ Hg A03). destruct (adv_changed _ _ A13 Ec) as [|Hlt]; [done|].
    unfold live in Hlt at 2. cbn in Hlt. fold (live s) in Hlt.
    eapply yields_mono; [apply IH; [apply A03|done|lia|lia]|].
    intros s4 [A4 T4]. split; [by eapply adv0_trans|done].
  - split; [done|]. intros ->. rewrite L3. apply (tried_adv s1); [done..|].
    apply T1; [done|]. by apply (adv_same _ _ A3) in Ec as [? _].
Qed.
End Minimizer.

Lemma minimize_ok {T} `{Target T} fuel limit data scratch t :
  zlen scratch = zlen data -> bytes_ok data -> zlen data < TMIN_MAX_FILE -> 1 <= limit ->
  tinv t -> verdict t data true -> 2 * zlen data < Z.of_nat fuel ->
  match minimize fuel limit data scratch t with
  | Ret s =>
      let out := slice (in_data s) 0 (in_len s) in
      0 <= in_len s <= zlen (in_data s) /\
      shrinks data out /\ verdict (tgt s) out true /\
      (limit = 1 -> 1 < zlen data ->
        forall i, 0 <= i < zlen out -> verdict (tgt s) (cut out i 1) false)
  | Exit => may_exit
  | Fault | NoFuel => False
  end.
Proof.
  intros Hz Hb Hmax Hlim Hi Hv Hf. unfold TMIN_MAX_FILE in Hmax.
  pose proof (zlen_nonneg data) as Hpos. set (s0 := Mini data (zlen data) scratch false t).
  assert (live s0 = data) as Hl0 by apply slice_whole.
  assert (good (zlen data) s0) as Hg by (split; rewrite ?Hl0; cbn; done || lia).
  pose proof (weight_bound data) as Hwb. unfold minimize. fold s0. cbn [in_len s0].
  destruct (zlen data <=? 1) eqn:E; b2p.
  { cbn. rewrite slice_whole. split_and!; [lia|lia|apply shrinks_refl|done|]. lia. }
  change (Res.yields may_exit False (s ← block_normalization fuel s0; passes fuel fuel limit 0 s)
    (fun s => let out := live s in 0 <= in_len s <= zlen (in_data s) /\ shrinks data out /\ verdict (tgt s) out true /\
      (limit = 1 -> 1 < zlen data ->
        forall i, 0 <= i < zlen out -> verdict (tgt s) (cut out i 1) false))).
  apply yields_bind. eapply yields_mono; [apply (block_normalization_ok (zlen data)); [lia|done|cbn; lia]|].
  intros s1 [A1 L1]. pose proof (shrinks_weight _ _ (adv_shrinks _ _ _ A1)) as Hw. rewrite Hl0 in Hw.
  eapply yields_mono; [apply (passes_ok (zlen data)); [lia|apply A1|done|rewrite L1; cbn; lia|]|].
  - destruct Hw as [->|]; lia.
  - intros s2 [A2 T2]. pose proof (adv0_trans _ _ _ _ A1 A2) as [Hg2 Hs2 _]. cbv zeta.
    rewrite Hl0 in Hs2. rewrite (good_data _ _ Hg2).
    split; [apply Hg2|]. split_and!; [done|apply Hg2|]. intros Hl _ i Hi'.
    apply (T2 Hl). rewrite (zlen_live (zlen data)) in Hi' by done. done.
Qed.

(** C8. [minimize], called on an input the target has accepted, stays inside [in_data]
    and [tmp_buf] and terminates; whatever the target answers, the result is the input
    with bytes deleted or replaced by '0', and the target has accepted it. With
    [del_len_limit = 1] and an input of more than one byte the target has rejected every
    deletion of one byte of the result; for a larger limit, or an input of one byte,
    nothing is said of that. *)
Theorem minimize_correct {T} `{Target T} fuel limit data scratch t :
  zlen scratch = zlen data -> bytes_ok data -> zlen data < TMIN_MAX_FILE -> 1 <= limit ->
  tinv t -> verdict t data true -> 2 * zlen data < Z.of_nat fuel ->
  match minimize fuel limit data scratch t with
  | Ret s =>
      let out := slice (in_data s) 0 (in_len s) in
      0 <= in_len s <= zlen (in_data s) /\
      shrinks data out /\ verdict (tgt s) out true /\
      (limit = 1 -> 1 < zlen data ->
        forall i, 0 <= i < zlen out -> verdict (tgt s) (cut out i 1) false)
  | Exit => may_exit
  | Fault | NoFuel => False
  end.
Proof. apply minimize_ok. Qed.
