(* ===== verification/TminMain.v ===== *)
(** * afl-tmin: correctness of a run, and of the program

    [tmin_run_target] against a specification on the result of the execution;
    [tmin_main] (size checks, dry run, [minimize]) for a target whose behaviour is a
    function of its input. *)

From S2P Require Import Prelude Res Rng Tmin TminFacts.

(** ** The normalised trace *)

Section Spec.
Context (hash64 : list Z -> Z) (c : tmin_cfg).

(** Classified, with the bits of the mask cleared; the mask works on whole 32-bit
    words. *)
Definition norm_trace (tr : list Z) : list Z :=
  let t := classify_byte (edges_only c) <$> tr in
  match mask_bitmap c with
  | None => t
  | Some k =>
      let n := (4 * Z.to_nat (map_size c / 4))%nat in
      zip_with Z.ldiff (take n t) (take n k) ++ drop n t
  end.

(** Is a run with result [r] kept, in crash mode [cm] with checksum [k]? *)
Definition keeps (cm : bool) (k : Z) (r : exec_result) : bool :=
  let same := k =? hash64 (norm_trace (trace r)) in
  if hang_mode c then bool_decide (ret r = FSRV_RUN_TMOUT)
  else match ret r with
       | FSRV_RUN_TMOUT => false
       | FSRV_RUN_CRASH => cm && (negb (exact_mode c) || same)
       | _ => negb cm && same
       end.

(** Does it end the process? *)
Definition fatal (cm : bool) (r : exec_result) : bool :=
  bool_decide (ret r = FSRV_RUN_ERROR) || stop_soon r
  || (negb (hang_mode c) && negb cm && bool_decide (ret r = FSRV_RUN_NOINST)).

(** Why a run is not kept. *)
Inductive reason := Missed_hang | Missed_crash | Missed_path.

Definition why (cm : bool) (r : exec_result) : reason :=
  if hang_mode c then
    match ret r with FSRV_RUN_CRASH => Missed_crash | _ => Missed_hang end
  else match ret r with
       | FSRV_RUN_TMOUT => Missed_hang
       | FSRV_RUN_CRASH => if cm then Missed_path else Missed_crash
       | _ => Missed_path
       end.

Definition count_miss {W} (o : option reason) (s s' : tmin_st W) : Prop :=
  let '(h, cr, p) :=
    match o with
    | None => (0, 0, 0)
    | Some Missed_hang => (1, 0, 0)
    | Some Missed_crash => (0, 1, 0)
    | Some Missed_path => (0, 0, 1)
    end in
  u32 (missed_hangs s') = u32 (missed_hangs s + h) /\
  u32 (missed_crashes s') = u32 (missed_crashes s + cr) /\
  u32 (missed_paths s') = u32 (missed_paths s + p).

(** Does the run [r] show the behaviour of the run [r0] of the original input? *)
Definition same_behaviour (r0 r : exec_result) : bool :=
  keeps (bool_decide (ret r0 = FSRV_RUN_CRASH)) (hash64 (norm_trace (trace r0))) r.
End Spec.

(** ** Classification and mask *)

Lemma classify_counts_ok e n mem :
  length mem = n -> classify_counts e n mem = Ret (classify_byte e <$> mem).
Proof.
  intros <-. induction mem as [|b mem IH]; [done|]. cbn. by rewrite IH.
Qed.

Lemma classify_byte_ok e b : is_u8 b -> is_u8 (classify_byte e b).
Proof.
  unfold classify_byte, count_class_lookup, in_width. intros Hb.
  destruct e; repeat cond_step; lia.
Qed.

Lemma land_lnot_width w x y :
  0 <= w -> in_width w x -> Z.land x (wrap w (Z.lnot y)) = Z.ldiff x y.
Proof.
  intros Hw Hx. apply Z.bits_inj'. intros i Hi. rewrite Z.land_spec, Z.ldiff_spec.
  destruct (decide (i < w)).
  - unfold wrap. rewrite Z.mod_pow2_bits_low, Z.lnot_spec by lia. done.
  - rewrite (testbit_high w x) by (done || lia). done.
Qed.

Lemma mask_word m k :
  bytes_ok m -> bytes_ok k -> length m = 4%nat -> length k = 4%nat ->
  le_bytes 4 (Z.land (le_word m) (u32 (Z.lnot (le_word k)))) = zip_with Z.ldiff m k.
Proof.
  intros Hm Hk Lm Lk.
  rewrite land_lnot_width; [|lia|].
  2: { pose proof (le_word_range m Hm) as R. unfold zlen in R. by rewrite Lm in R. }
  rewrite le_word_ldiff by (done || lia).
  replace 4%nat with (length (zip_with Z.ldiff m k)) by (rewrite length_zip_with; lia).
  apply le_bytes_le_word, zip_with_bytes_ok; [|done|done].
  intros. by apply ldiff_width.
Qed.

Lemma take_4_load {A} (m : list A) : (4 <= length m)%nat -> load m 0 4 = Some (take 4 m).
Proof. intros. by apply (load_head m 4). Qed.

Lemma apply_mask_loop_ok i mem mask :
  bytes_ok mem -> bytes_ok mask -> (4 * i <= length mem)%nat -> (4 * i <= length mask)%nat ->
  apply_mask_loop i mem mask =
    Ret (zip_with Z.ldiff (take (4 * i) mem) (take (4 * i) mask) ++ drop (4 * i) mem).
Proof.
  revert mem mask. induction i as [|i IH]; intros mem mask Hm Hk Lm Lk; [done|].
  cbn [apply_mask_loop]. rewrite !take_4_load by lia. cbn [of_option mbind res_bind].
  rewrite IH by (rewrite ?length_drop; auto using Forall_drop; lia). cbn [mbind res_bind].
  f_equal. rewrite mask_word by (auto using Forall_take; rewrite length_take; lia).
  replace (4 * S i)%nat with (4 + 4 * i)%nat by lia.
  rewrite <- !take_take_drop, zip_with_app by (rewrite !length_take; lia).
  rewrite <- app_assoc, drop_drop. done.
Qed.

(** ** A run *)

(** What the environment of [tmin_run_target] provides: shared memory of [map_size]
    bytes, and a mask of the same size. *)
Record env_ok (c : tmin_cfg) : Prop := EnvOk {
  env_size : 0 <= map_size c;
  env_mask : forall k, mask_bitmap c = Some k -> zlen k = map_size c /\ bytes_ok k
}.

Definition exec_ok (c : tmin_cfg) (r : exec_result) : Prop :=
  zlen (trace r) = map_size c /\ bytes_ok (trace r).

Lemma normalise_ok c tr :
  env_ok c -> zlen tr = map_size c -> bytes_ok tr ->
  (t ← classify_counts (edges_only c) (Z.to_nat (map_size c)) tr;
   apply_mask (map_size c) t (mask_bitmap c)) = Ret (norm_trace c tr).
Proof.
  intros [Hs Hm] Hl Hb. rewrite classify_counts_ok by (unfold zlen in Hl; lia). cbn.
  unfold apply_mask, norm_trace. destruct (mask_bitmap c) as [k|]; [|done].
  destruct (Hm k eq_refl) as [Hk Hkb]. rewrite Z.shiftr_div_pow2 by lia. change (2 ^ 2) with 4.
  unfold zlen in *. apply apply_mask_loop_ok; [|done|rewrite ?length_fmap; dlia..].
  apply Forall_fmap. eapply Forall_impl; [|exact Hb].
  intros. by apply classify_byte_ok.
Qed.

Section Target.
Context {W : Type}.
Context (exec : W -> list Z -> exec_result * W) (hash64 : list Z -> Z) (c : tmin_cfg).
Context (Henv : env_ok c).

(** The code after the trace has been normalised. *)
Lemma run_target_unfold s mem first_run r w :
  exec (world s) mem = (r, w) -> exec_ok c r ->
  ret r <> FSRV_RUN_ERROR -> stop_soon r = false -> hang_mode c = false ->
  tmin_run_target exec hash64 c s mem first_run =
    let s := set_trace s w r (norm_trace c (trace r)) in
    match ret r with
    | FSRV_RUN_TMOUT => Ret (false, miss_hang s)
    | FSRV_RUN_CRASH =>
        let s := if first_run then set_crash_mode s else s in
        if crash_mode s then
          if negb (exact_mode c) then Ret (true, s)
          else compare_path hash64 (ret r) first_run s
        else Ret (false, miss_crash s)
    | _ =>
        if crash_mode s then Ret (false, miss_path s)
        else compare_path hash64 (ret r) first_run s
    end.
Proof.
  intros E [Hl Hb] He Hs Hh. unfold tmin_run_target. rewrite E, Hs, Hh, decide_False by done.
  pose proof (normalise_ok c (trace r) Henv Hl Hb) as Hn.
  destruct (classify_counts _ _ _) as [t| | |]; cbn in Hn |- *; [|done..].
  by rewrite Hn.
Qed.

Lemma u32_add_0 z : u32 z = u32 (z + 0).
Proof. by rewrite Z.add_0_r. Qed.

Lemma u32_idem z : u32 (u32 z) = u32 z.
Proof. by apply wrap_wrap. Qed.

#[local] Hint Resolve u32_add_0 u32_idem : afl.

Lemma compare_path_ok (s : tmin_st W) r :
  match compare_path hash64 (ret r) false s with
  | Ret (v, s') =>
      ret r <> FSRV_RUN_NOINST /\ v = (orig_cksum s =? hash64 (trace_bits s)) /\
      crash_mode s' = crash_mode s /\ orig_cksum s' = orig_cksum s /\ world s' = world s /\
      count_miss (if v then None else Some Missed_path) s s'
  | Exit => ret r = FSRV_RUN_NOINST
  | Fault | NoFuel => False
  end.
Proof.
  unfold compare_path. destruct (decide _) as [|Hn]; [done|]. destruct (_ =? _) eqn:E;
    unfold count_miss; cbn; split_and!; auto with afl.
Qed.

Lemma tmin_run_target_ok s mem r w :
  exec (world s) mem = (r, w) -> exec_ok c r ->
  match tmin_run_target exec hash64 c s mem false with
  | Ret (v, s') =>
      fatal c (crash_mode s) r = false /\
      v = keeps hash64 c (crash_mode s) (orig_cksum s) r /\
      crash_mode s' = crash_mode s /\ orig_cksum s' = orig_cksum s /\ world s' = w /\
      count_miss (if v then None else Some (why c (crash_mode s) r)) s s'
  | Exit => fatal c (crash_mode s) r = true
  | Fault | NoFuel => False
  end.
Proof.
  intros E Hr. destruct (decide (ret r = FSRV_RUN_ERROR)) as [He|He].
  { unfold tmin_run_target, fatal. by rewrite E, He. }
  destruct (stop_soon r) eqn:Hs.
  { unfold tmin_run_target, fatal. by rewrite E, decide_False, Hs, orb_true_r by done. }
  destruct (hang_mode c) eqn:Hh.
  - unfold tmin_run_target, fatal, keeps, why, count_miss.
    rewrite E, decide_False, Hs, Hh by done.
    destruct (ret r); cbn; split_and!; auto with afl; done.
  - rewrite (run_target_unfold s mem false r w E Hr He Hs Hh). cbv zeta.
    set (s1 := set_trace s w r _). pose proof (compare_path_ok s1 r) as Hc.
    unfold fatal, keeps, why. rewrite Hs, Hh.
    assert (forall o s', count_miss o s1 s' -> count_miss o s s') as Hm by done.
    change (crash_mode s) with (crash_mode s1).
    destruct (ret r) eqn:Er, (crash_mode s1) eqn:Em; rewrite ?Em; try done;
      try (destruct (exact_mode c)); cbn [negb];
      try (unfold count_miss; cbn; split_and!; auto with afl; done);
      destruct (compare_path _ _ _ _) as [[v s']| | |]; try done;
      destruct Hc as (_&->&?&?&?&?); split_and!; auto.
Qed.

(** C9. [tmin_run_target] (not the first run): it ends the process exactly on the
    results the code calls fatal, otherwise keeps the input exactly when the run times
    out (hang mode), crashes with, in exact mode, the original path (crash mode), or
    follows the original path (else); mode and checksum stay, and a rejection is
    counted once, under its reason. *)
Theorem tmin_run_target_correct s mem r w :
  exec (world s) mem = (r, w) -> exec_ok c r ->
  match tmin_run_target exec hash64 c s mem false with
  | Ret (v, s') =>
      fatal c (crash_mode s) r = false /\
      v = keeps hash64 c (crash_mode s) (orig_cksum s) r /\
      crash_mode s' = crash_mode s /\ orig_cksum s' = orig_cksum s /\ world s' = w /\
      count_miss (if v then None else Some (why c (crash_mode s) r)) s s'
  | Exit => fatal c (crash_mode s) r = true
  | Fault | NoFuel => False
  end.
Proof. apply tmin_run_target_ok. Qed.

(** ** The dry run *)

Lemma compare_path_first (s : tmin_st W) r :
  r <> FSRV_RUN_NOINST ->
  compare_path hash64 r true s = Ret (true, set_cksum s (hash64 (trace_bits s))).
Proof. intros Hr. unfold compare_path. rewrite decide_False by done. cbn. by rewrite Z.eqb_refl. Qed.

(** The checks of [main] leave the state alone. *)
Lemma dry_checks (s s' : tmin_st W) :
  (if negb (crash_mode s) then
     b ← anything_set (map_size c) (trace_bits s); if b : bool then Ret s else Exit
   else Ret s) = Ret s' -> s' = s.
Proof.
  destruct (crash_mode s); cbn; [by intros [= <-]|].
  destruct (anything_set _ _) as [[]| | |]; cbn; congruence.
Qed.

Lemma dry_run_keeps s mem s' r w :
  exec (world s) mem = (r, w) -> exec_ok c r ->
  last_run_timed_out r = bool_decide (ret r = FSRV_RUN_TMOUT) ->
  crash_mode s = false -> dry_run exec hash64 c s mem = Ret s' ->
  (forall x, keeps hash64 c (crash_mode s') (orig_cksum s') x = same_behaviour hash64 c r x) /\
  same_behaviour hash64 c r r = true.
Proof.
  intros E Hr Ht Hcm. unfold dry_run.
  destruct (decide (ret r = FSRV_RUN_ERROR)) as [He|He].
  { unfold tmin_run_target. by rewrite E, He. }
  destruct (stop_soon r) eqn:Hs.
  { unfold tmin_run_target. by rewrite E, decide_False, Hs by done. }
  unfold same_behaviour, keeps. destruct (hang_mode c) eqn:Hh.
  - unfold tmin_run_target. rewrite E, decide_False, Hs, Hh by done.
    destruct (ret r) eqn:Er; cbn; rewrite ?Ht; cbn; intros [= <-]; done.
  - rewrite (run_target_unfold s mem true r w E Hr He Hs Hh). cbv zeta.
    assert (forall d, d <> ret r -> bool_decide (ret r = d) = false) as Hbd.
    { intros d Hd. apply bool_decide_eq_false_2. congruence. }
    destruct (ret r) eqn:Er; try done; rewrite ?Hbd in * by done; cbn;
      rewrite ?Hcm; try (rewrite compare_path_first by done); cbn; rewrite ?Ht; cbn; try done.
    all: try (intros Hd; apply (dry_checks (set_cksum (set_trace s w r (norm_trace c (trace r)))
            (hash64 (norm_trace c (trace r))))) in Hd; subst s'; cbn;
         rewrite Hcm, Z.eqb_refl; done).
    destruct (exact_mode c); cbn;
      try (rewrite compare_path_first by done); cbn; rewrite ?Ht; cbn;
      intros [= <-]; cbn; rewrite ?Z.eqb_refl; split; try done; intros x; by destruct (ret x).
Qed.

Lemma length_norm_trace tr :
  zlen tr = map_size c -> zlen (norm_trace c tr) = map_size c.
Proof.
  intros Hl. unfold norm_trace. destruct (mask_bitmap c) as [k|] eqn:Ek; unfold zlen in *.
  - destruct (env_mask _ Henv k Ek) as [Hk _]. unfold zlen in Hk.
    rewrite length_app, length_zip_with, !length_take, length_drop, length_fmap. dlia.
  - by rewrite length_fmap.
Qed.

Lemma anything_set_safe i ptr :
  (4 * i <= length ptr)%nat -> exists b, anything_set_loop i ptr = Ret b.
Proof.
  revert ptr. induction i as [|i IH]; intros ptr Hl; [by eexists|].
  cbn [anything_set_loop]. rewrite take_4_load by lia. cbn [of_option mbind res_bind].
  destruct (z2b _); [by eexists|]. apply IH. rewrite length_drop. lia.
Qed.

(** The dry run neither leaves its buffers nor loops. *)
Lemma dry_run_safe s mem r w :
  exec (world s) mem = (r, w) -> exec_ok c r ->
  match dry_run exec hash64 c s mem with Ret _ | Exit => True | Fault | NoFuel => False end.
Proof.
  intros E Hr. unfold dry_run.
  assert (match tmin_run_target exec hash64 c s mem true with
          | Ret (_, s') => hang_mode c = false -> zlen (trace_bits s') = map_size c
          | Exit => True
          | Fault | NoFuel => False
          end) as Hrun.
  { destruct (decide (ret r = FSRV_RUN_ERROR)) as [He|He];
      [unfold tmin_run_target; by rewrite E, He|].
    destruct (stop_soon r) eqn:Hs; [unfold tmin_run_target; by rewrite E, decide_False, Hs by done|].
    destruct (hang_mode c) eqn:Hh.
    - unfold tmin_run_target. rewrite E, decide_False, Hs, Hh by done. by destruct (ret r).
    - rewrite (run_target_unfold s mem true r w E Hr He Hs Hh). cbv zeta.
      pose proof (length_norm_trace _ (proj1 Hr)) as Hl. unfold compare_path.
      destruct (ret r); cbn; rewrite ?Z.eqb_refl; repeat case_match; simplify_eq; done. }
  destruct (tmin_run_target _ _ _ _ _ _) as [[v s']| | |]; cbn; try done.
  destruct (hang_mode c) eqn:Hh; cbn; [by repeat case_match|].
  destruct (timed_out s' && true); [done|]. destruct (negb (crash_mode s')); [|done].
  destruct (anything_set_safe (Z.to_nat (Z.shiftr (map_size c) 2)) (trace_bits s')) as [b Hb].
  - specialize (Hrun eq_refl). rewrite Z.shiftr_div_pow2 by lia. pose proof (env_size _ Henv).
    unfold zlen in Hrun. change (2 ^ 2) with 4. dlia.
  - unfold anything_set. rewrite Hb. cbn. by destruct b.
Qed.

(** ** A target whose behaviour is a function of its input *)

Section Deterministic.
Context (beh : list Z -> exec_result).
Context (Hdet : forall w mem, (exec w mem).1 = beh mem) (Hok : forall mem, exec_ok c (beh mem)).

#[local] Existing Instance tmin_runner.

Definition some_run_fatal : Prop := exists mem cm, fatal c cm (beh mem) = true.

Program Definition tmin_target (cm : bool) (k : Z) :
  @Target (tmin_st W) (tmin_runner exec hash64 c) := {|
  tinv := fun t => crash_mode t = cm /\ orig_cksum t = k;
  verdict := fun _ mem v => keeps hash64 c cm k (beh mem) = v;
  may_exit := some_run_fatal
|}.
Next Obligation.
  intros cm k t mem [Hcm Hk]. destruct (exec (world t) mem) as [r w] eqn:E.
  assert (r = beh mem) as -> by (rewrite <- (Hdet (world t)), E; done).
  pose proof (tmin_run_target_ok t mem _ w E (Hok mem)) as Hr. unfold run, tmin_runner.
  destruct (tmin_run_target _ _ _ _ _ _) as [[v s']| | |]; [|by eexists _, _|done..].
  destruct Hr as (_&->&Hc&Ho&_). split_and!; congruence.
Qed.

(** C6. [afl-tmin] on a deterministic target: the program never leaves its buffers and
    terminates; it fails only on an empty or oversized file, a failed dry run, or a run
    that is fatal. Otherwise the file it writes is the input with bytes deleted or
    replaced by '0', shows the behaviour of the input (hang, crash, or path, by mode),
    and, with the default [del_len_limit] of 1 and an input file of more than one byte,
    loses that behaviour when any one of its bytes is deleted. (A file of one byte is
    written as it is: [minimize] returns at once.) *)
Theorem tmin_main_correct fuel w file scratch :
  zlen scratch = zlen file -> bytes_ok file -> 1 <= del_len_limit c ->
  last_run_timed_out (beh file) = bool_decide (ret (beh file) = FSRV_RUN_TMOUT) ->
  2 * zlen file < Z.of_nat fuel ->
  match tmin_main exec hash64 c fuel w file scratch with
  | Ret out =>
      shrinks file out /\ same_behaviour hash64 c (beh file) (beh out) = true /\
      (del_len_limit c = 1 -> 1 < zlen file -> forall i, 0 <= i < zlen out ->
        same_behaviour hash64 c (beh file) (beh (cut out i 1)) = false)
  | Exit =>
      zlen file = 0 \/ TMIN_MAX_FILE <= zlen file \/ some_run_fatal \/
      dry_run exec hash64 c (TminSt w false [] false 0 0 0 0) file = Exit
  | Fault | NoFuel => False
  end.
Proof.
  intros Hz Hb Hlim Ht Hf. unfold tmin_main.
  destruct (_ || _) eqn:E; b2p; [destruct E; b2p; auto|].
  set (s0 := TminSt w false [] false 0 0 0 0).
  destruct (exec (world s0) file) as [r w'] eqn:Ex.
  assert (r = beh file) as -> by (rewrite <- (Hdet (world s0)), Ex; done).
  pose proof (dry_run_safe s0 file _ w' Ex (Hok file)) as Hsafe.
  destruct (dry_run exec hash64 c s0 file) as [s1| | |] eqn:Ed; cbn; auto.
  destruct (dry_run_keeps s0 file s1 _ w' Ex (Hok file) Ht eq_refl Ed) as [Hk Hself].
  pose proof (@minimize_ok _ _ (tmin_target (crash_mode s1) (orig_cksum s1)) fuel
    (del_len_limit c) file scratch s1 Hz Hb ltac:(lia) Hlim (conj eq_refl eq_refl)) as Hm.
  cbn [verdict tmin_target] in Hm. rewrite Hk in Hm. specialize (Hm Hself Hf).
  destruct (minimize _ _ _ _ _) as [s2| | |]; cbn; auto.
  destruct Hm as (Hlen&Hshr&Hsame&Hmin). rewrite load_Some by lia. cbn.
  rewrite Hk in Hsame. split_and!; [done..|]. intros H1 H2 i Hi. rewrite <- Hk. by apply Hmin.
Qed.
End Deterministic.
End Target.

(** ** A concrete target

    It crashes on the inputs that contain the byte 65. *)

Definition demo_beh (mem : list Z) : exec_result :=
  ExecResult (if existsb (Z.eqb 65) mem then FSRV_RUN_CRASH else FSRV_RUN_OK)
    false [1; 3; 0; 0] false.
Definition demo_exec (w : unit) (mem : list Z) : exec_result * unit := (demo_beh mem, w).
Definition demo_cfg : tmin_cfg := TminCfg false false false (Some [0; 255; 0; 0]) 4 1.

Lemma demo_env : env_ok demo_cfg.
Proof. split; [done|]. intros k [= <-]. split; [done|]. by repeat constructor. Qed.

Lemma demo_exec_ok mem : exec_ok demo_cfg (demo_beh mem).
Proof. split; [done|]. by repeat constructor. Qed.

Lemma tmin_run_target_witness :
  exists v s', tmin_run_target demo_exec le_word demo_cfg
    (TminSt tt false [] true 0 0 0 0) [66; 67] false = Ret (v, s') /\
    v = false /\ u32 (missed_paths s') = 1.
Proof.
  pose proof (tmin_run_target_correct demo_exec le_word demo_cfg demo_env
    (TminSt tt false [] true 0 0 0 0) [66; 67] (demo_beh [66; 67]) tt eq_refl
    (demo_exec_ok [66; 67])) as H.
  destruct (tmin_run_target _ _ _ _ _ _) as [[v s']| | |]; [|done..].
  destruct H as (_&->&_&_&_&_&_&Hp). exists false, s'. split_and!; [done..|exact Hp].
Defined.

Lemma tmin_main_witness :
  exists out, tmin_main demo_exec le_word demo_cfg 20 tt [66; 65; 67; 65; 68] [0; 0; 0; 0; 0]
    = Ret out /\ same_behaviour le_word demo_cfg (demo_beh [66; 65; 67; 65; 68]) (demo_beh out) = true.
Proof.
  pose proof (tmin_main_correct demo_exec le_word demo_cfg demo_env demo_beh
    (fun _ _ => eq_refl) demo_exec_ok 20 tt [66; 65; 67; 65; 68] [0; 0; 0; 0; 0]
    eq_refl ltac:(by repeat constructor) ltac:(done) eq_refl ltac:(done)) as H.
  exists [65]. destruct (tmin_main _ _ _ _ _ _ _) as [out| | |] eqn:E; vm_compute in E; [|done..].
  injection E as <-. split; [done|apply H].
Defined.

Lemma minimize_witness :
  exists s : mini_st (tmin_st unit),
    @minimize _ (tmin_runner demo_exec le_word demo_cfg) 20 1 [66; 65; 67] [0; 0; 0]
      (TminSt tt false [] true 0 0 0 0) = Ret s /\
    shrinks [66; 65; 67] (slice (in_data s) 0 (in_len s)).
Proof.
  pose proof (@minimize_correct _ _
    (tmin_target demo_exec le_word demo_cfg demo_env demo_beh (fun _ _ => eq_refl) demo_exec_ok true 0)
    20 1 [66; 65; 67] [0; 0; 0] (TminSt tt false [] true 0 0 0 0) eq_refl
    ltac:(by repeat constructor) ltac:(done) ltac:(done) (conj eq_refl eq_refl) eq_refl
    ltac:(done)) as H.
  destruct (minimize _ _ _ _ _) as [s| | |] eqn:E; vm_compute in E; [|done..].
  exists s. split; [done|apply H].
Defined.
