(* ===== verification/Trim.v ===== *)
(** * Trimming of queue entries

    [trim_case] and [write_with_gap] of [src/afl-fuzz-run.c], without custom mutators,
    over the test case cache of [Cache], the queue of [Queue] and a target.  [exec]
    runs the target on the bytes it is given, in a state of the outside world. *)

From S2P Require Import Prelude Res Coverage Rng Queue Cache Tmin.

Definition TRIM_MIN_BYTES : Z := 4.
Definition TRIM_END_STEPS : Z := 1024.

Section Trim.
Context {W : Type}.
Context (exec : W -> list Z -> exec_result * W) (hash64 : list Z -> Z) (tbl : table16).

(** The variables of [trim_case]: the buffer [in_buf], the length [q->len], [len_p2],
    [needs_write], [afl->clean_trace], [afl->fsrv.trace_bits], [afl->trim_execs]. *)
Record trim_st := TrimSt {
  t_world : W;
  t_buf : list Z;
  t_len : Z;
  t_len_p2 : Z;
  t_needs_write : bool;
  t_clean : list Z;
  t_trace : list Z;
  t_execs : Z
}.

(** [write_with_gap]: what the target is given. *)
Definition write_with_gap (mem : list Z) (len skip_at skip_len : Z) : res (list Z) :=
  let tail_len := u32 (len - skip_at - skip_len) in
  a ← of_option (load mem 0 skip_at);
  b ← of_option (load mem (skip_at + skip_len) tail_len);
  Ret (a ++ b).

(** One execution of the inner loop; [Some] fault when trimming is abandoned. *)
Definition trim_step (map_size exec_cksum remove_len remove_pos : Z) (s : trim_st) :
  res (option fsrv_run_result * fsrv_run_result * Z * trim_st) :=
  let trim_avail := Z.min remove_len (u32 (t_len s - remove_pos)) in
  data ← write_with_gap (t_buf s) (t_len s) remove_pos trim_avail;
  let '(r, w) := exec (t_world s) data in
  let s := TrimSt w (t_buf s) (t_len s) (t_len_p2 s) (t_needs_write s) (t_clean s) (trace r)
             (t_execs s) in
  if stop_soon r || bool_decide (ret r = FSRV_RUN_ERROR) then
    Ret (Some (ret r), ret r, remove_pos, s)
  else
    tr ← of_option (Coverage.classify_counts 3 tbl map_size (trace r));
    let execs := u64 (t_execs s + 1) in
    let cksum := hash64 tr in
    if cksum =? exec_cksum then
      let move_tail := u32 (t_len s - remove_pos - trim_avail) in
      let len := u32 (t_len s - trim_avail) in
      bs ← of_option (load (t_buf s) (remove_pos + trim_avail) move_tail);
      buf ← of_option (store (t_buf s) remove_pos bs);
      Ret (None, ret r, remove_pos,
           TrimSt w buf len (u32 (next_pow2 len)) true
             (if t_needs_write s then t_clean s else tr) tr execs)
    else
      Ret (None, ret r, u32 (remove_pos + remove_len),
           TrimSt w (t_buf s) (t_len s) (t_len_p2 s) (t_needs_write s) (t_clean s) tr execs).

(** The loop over the positions; [fault] is the result of the last run. *)
Fixpoint trim_loop (fuel : nat) (map_size exec_cksum remove_len remove_pos : Z)
  (fault : fsrv_run_result) (s : trim_st) : res (bool * fsrv_run_result * trim_st) :=
  match fuel with
  | O => NoFuel
  | S fuel =>
      if remove_pos <? t_len s then
        '(ab, f, pos, s) ← trim_step map_size exec_cksum remove_len remove_pos s;
        match ab with
        | Some f => Ret (true, f, s)
        | None => trim_loop fuel map_size exec_cksum remove_len pos f s
        end
      else Ret (false, fault, s)
  end.

(** The loop over the lengths. *)
Fixpoint trim_sizes (n fuel : nat) (map_size exec_cksum remove_len : Z)
  (fault : fsrv_run_result) (s : trim_st) : res (bool * fsrv_run_result * trim_st) :=
  match n with
  | O => NoFuel
  | S n =>
      if Z.max (t_len_p2 s / TRIM_END_STEPS) TRIM_MIN_BYTES <=? remove_len then
        '(ab, f, s) ← trim_loop fuel map_size exec_cksum remove_len remove_len fault s;
        if (ab : bool) then Ret (true, f, s)
        else trim_sizes n fuel map_size exec_cksum (Z.shiftr remove_len 1) f s
      else Ret (false, fault, s)
  end.

(** ** The whole of [trim_case] *)

Record fuzz_st := FuzzSt {
  z_cache : cache_st;
  z_afl : afl;
  z_world : W;
  z_clean_trace : list Z;
  z_trim_execs : Z;
  z_bytes_trim_in : Z;
  z_bytes_trim_out : Z;
  z_no_unlink : bool
}.

Definition set_len_entry (n : Z) (q : queue_entry) : queue_entry :=
  Entry n (q_id q) (q_depth q) (q_passed_det q) (q_was_fuzzed q) (q_favored q)
    (q_fs_redundant q) (q_is_ascii q) (q_disabled q) (q_fuzz_level q) (q_n_fuzz_entry q)
    (q_exec_us q) (q_mother q) (q_tc_ref q) (q_trace_mini q).

(** [q->len = n] and the contents of the file. *)
Definition set_centry (n : Z) (file : list Z) (e : centry) : centry :=
  CEntry n file (c_low e) (c_buf e).

Definition with_centry (s : cache_st) (q : nat) (f : centry -> centry) : cache_st :=
  CacheSt (alter f q (c_queue s)) (c_slots s) (c_max_size s) (c_max_entries s) (c_size s)
    (c_max_count s) (c_count s) (c_smallest_free s) (c_evictions s) (c_queue_cur s)
    (c_do_once s) (c_testcase_buf s) (c_splicecase_buf s).

(** The bytes behind a pointer change. *)
Definition write_back (s : cache_st) (p : bufptr) (b : list Z) : cache_st :=
  match p with
  | InEntry q => with_buf s q (Some b)
  | InTestcase => with_scratch s b (c_splicecase_buf s)
  | InSplicecase => with_scratch s (c_testcase_buf s) b
  end.

(** The two ways to write the file.  With [no_unlink] the results of the successive calls
    of [write] are [results]; each call starts at the first byte of [in_buf]. *)
Fixpoint retry_write (results : list Z) (buf : list Z) (len written : Z) (file : list Z) :
  res (list Z) :=
  if written <? len then
    match results with
    | [] => NoFuel
    | r :: results =>
        if 0 <? r then
          bs ← of_option (load buf 0 r);
          retry_write results buf len (written + r) (file ++ bs)
        else retry_write results buf len written file
    end
  else Ret file.

Definition write_file (no_unlink : bool) (results buf : list Z) (len : Z) : res (list Z) :=
  if no_unlink then retry_write results buf len 0 []
  else of_option (load buf 0 len).

Definition trim_case (n fuel : nat) (junk : Z) (results : list Z) (exec_cksum : Z)
  (z : fuzz_st) (q : nat) (p : bufptr) : res (fsrv_run_result * fuzz_st) :=
  let a := z_afl z in
  e ← entry_of (z_cache z) q;
  qe ← of_option (queue_buf a !! q);
  buf ← of_option (deref (z_cache z) p);
  let orig_len := c_len e in
  let finish z fault :=
    qe ← of_option (queue_buf (z_afl z) !! q);
    Ret (fault, FuzzSt (z_cache z) (z_afl z) (z_world z) (z_clean_trace z) (z_trim_execs z)
      (z_bytes_trim_in z) (u64 (z_bytes_trim_out z + q_len qe)) (z_no_unlink z)) in
  if orig_len <? 5 then finish z FSRV_RUN_OK
  else
    let len_p2 := u32 (next_pow2 orig_len) in
    '(ab, fault, t) ← trim_sizes n fuel (Queue.map_size a) exec_cksum
      (Z.max (len_p2 / TRIM_START_STEPS) TRIM_MIN_BYTES) FSRV_RUN_OK
      (TrimSt (z_world z) buf orig_len len_p2 false (z_clean_trace z) (Queue.trace_bits a)
         (z_trim_execs z));
    let len := t_len t in
    let cache := with_centry (write_back (z_cache z) p (t_buf t)) q
                   (fun e => set_centry len (c_file e) e) in
    let a := with_trace (t_trace t) (with_entry q (set_len_entry len qe) a) in
    let z' c a := FuzzSt c a (t_world t) (t_clean t) (t_execs t)
                    (u64 (z_bytes_trim_in z + orig_len)) (z_bytes_trim_out z) (z_no_unlink z) in
    if (ab : bool) || negb (t_needs_write t) then finish (z' cache a) fault
    else
      file ← write_file (z_no_unlink z) results (t_buf t) len;
      let cache := with_centry cache q (set_centry len file) in
      cache ← queue_testcase_retake_mem junk cache q
        (if bool_decide (p = InEntry q) then None else Some (t_buf t)) len orig_len;
      a ← of_option (update_bitmap_score (with_trace (t_clean t) a) q true);
      finish (z' cache a) fault.
End Trim.
