(* ===== verification/TrimFacts.v ===== *)
(** * Trimming: safety, termination, result *)

From S2P Require Import Prelude Res Coverage CoverageFacts Rng Queue QueueFacts Cache CacheFacts Tmin Trim.

(** ** Removing a block *)

Definition cut {A} (pos n : Z) (d : list A) : list A :=
  take (Z.to_nat pos) d ++ drop (Z.to_nat (pos + n)) d.

Lemma cut_sublist {A} pos n (d : list A) : 0 <= pos -> 0 <= n -> cut pos n d `sublist_of` d.
Proof.
  intros Hp Hn. unfold cut. rewrite <- (take_drop (Z.to_nat pos) d) at 3.
  apply sublist_app; [done|].
  replace (Z.to_nat (pos + n)) with (Z.to_nat pos + Z.to_nat n)%nat by lia.
  rewrite <- drop_drop. apply sublist_drop.
Qed.

Lemma zlen_cut_block {A} pos n (d : list A) :
  0 <= pos -> 0 <= n -> pos + n <= zlen d -> zlen (cut pos n d) = zlen d - n.
Proof. unfold cut, zlen. intros. rewrite length_app, length_take, length_drop. lia. Qed.

Lemma cut_prefix {A} k pos n (d : list A) :
  Z.of_nat k <= pos -> pos <= zlen d -> take k (cut pos n d) = take k d.
Proof.
  unfold cut, zlen. intros. rewrite take_app_le by (rewrite length_take; lia).
  by rewrite take_take, Nat.min_l by lia.
Qed.

(** What the gap leaves, seen in the buffer. *)
Lemma slice_gap {A} (buf : list A) len pos n :
  0 <= pos -> 0 <= n -> pos + n <= len -> len <= zlen buf ->
  slice buf 0 pos ++ slice buf (pos + n) (len - pos - n) = cut pos n (slice buf 0 len).
Proof.
  intros. unfold cut. rewrite !slice_0, take_take, Nat.min_l by lia. f_equal.
  unfold slice. rewrite <- (Nat2Z.id (Z.to_nat (pos + n))) at 2.
  rewrite take_drop_commute, Nat2Z.id. do 2 f_equal. lia.
Qed.

Lemma slice_after_store {A} (buf bs : list A) pos :
  0 <= pos -> pos + zlen bs <= zlen buf ->
  slice (splice_at buf pos bs) 0 (pos + zlen bs) = slice buf 0 pos ++ bs.
Proof.
  unfold splice_at, zlen. intros. rewrite !slice_0, app_assoc.
  apply take_app_length'. rewrite length_app, length_take. lia.
Qed.

(** ** The runs of a call

    A target that keeps a log: its world is that of [exec] with the runs so far, each with
    what it was given and its result. *)

Definition run_log : Type := list (list Z * exec_result).

Definition logged {W} (exec : W -> list Z -> exec_result * W) (w : W * run_log) (x : list Z) :
  exec_result * (W * run_log) :=
  let '(r, w') := exec w.1 x in (r, (w', w.2 ++ [(x, r)])).

(** A run ended by the user or by an error of the fork server. *)
Definition stops (r : exec_result) : Prop := stop_soon r = true \/ ret r = FSRV_RUN_ERROR.

Definition calm (l : run_log) : Prop := Forall (fun n => ~ stops n.2) l.

(** The last run, and no other, was stopped; its result is [f]. *)
Definition halted (f : fsrv_run_result) (l : run_log) : Prop :=
  exists l' x r, l = l' ++ [(x, r)] /\ calm l' /\ stops r /\ ret r = f.

(** A run of [x] in the log had the checksum [k] after classification. *)
Definition verified (hash64 : list Z -> Z) (k : Z) (l : run_log) (x : list Z) : Prop :=
  exists r, (x, r) ∈ l /\ hash64 (map count_class_lookup8 (trace r)) = k.

Lemma verified_snoc hash64 k l x n : verified hash64 k l x -> verified hash64 k (l ++ [n]) x.
Proof. intros (r&Hr&?). exists r. split; [|done]. apply elem_of_app. by left. Qed.

Section Trim.
Context {W : Type} (exec : W -> list Z -> exec_result * W) (hash64 : list Z -> Z) (t0 : table16).
Context (map_size exec_cksum : Z) (d0 : list Z).
Context (Hms : 0 <= map_size) (Hmod : map_size mod 64 = 0).
Context (Htrace : forall w x, bytes_ok (trace (exec w x).1) /\ zlen (trace (exec w x).1) = map_size).
Abbreviation tbl := (init_count_class16 t0).

Definition data (s : @trim_st (W * run_log)) : list Z := slice (t_buf s) 0 (t_len s).

Record trim_inv (s : @trim_st (W * run_log)) : Prop := TrimInv {
  ti_len : 4 <= t_len s <= zlen d0;
  ti_buf : t_len s <= zlen (t_buf s) < 2 ^ 31;
  ti_sub : data s `sublist_of` d0;
  ti_head : take 4 (data s) = take 4 d0;
  ti_p2 : t_len_p2 s = u32 (next_pow2 (t_len s));
  ti_same : t_needs_write s = false -> data s = d0;
  ti_new : t_needs_write s = true ->
    verified hash64 exec_cksum (t_world s).2 (data s) /\ hash64 (t_clean s) = exec_cksum /\ zlen (t_clean s) = map_size;
  ti_trace : zlen (t_trace s) = map_size
}.

(** The parts of the state that do not matter to it. *)
Lemma trim_inv_run s w x tr n :
  trim_inv s -> zlen tr = map_size ->
  trim_inv (TrimSt (w, (t_world s).2 ++ [x]) (t_buf s) (t_len s) (t_len_p2 s) (t_needs_write s) (t_clean s) tr n).
Proof.
  intros [] Htr. constructor; try done. cbn. intros Hn. destruct (ti_new0 Hn) as (?&?&?).
  split; [by apply verified_snoc|done].
Qed.

Lemma trim_step_ok remove_len pos s :
  trim_inv s -> calm (t_world s).2 ->
  4 <= remove_len -> remove_len <= pos < t_len s -> remove_len < 2 ^ 31 ->
  yields False False (trim_step (logged exec) hash64 tbl map_size exec_cksum remove_len pos s) (fun x =>
    let '(ab, _, pos', s') := x in
    trim_inv s' /\ zlen (t_buf s') = zlen (t_buf s) /\
    match ab with
    | Some f => halted f (t_world s').2
    | None => calm (t_world s').2 /\ t_len s' - pos' < t_len s - pos /\ remove_len <= pos'
    end).
Proof.
  intros Hi Hcalm Hr Hp Hr31. pose proof (ti_len s Hi). pose proof (ti_buf s Hi).
  unfold trim_step, write_with_gap. rewrite (wrap_small 32 (t_len s - pos)) by (split; lia).
  set (avail := Z.min remove_len (t_len s - pos)). assert (1 <= avail <= t_len s - pos) by lia.
  rewrite (wrap_small 32 (t_len s - pos - avail)) by (split; lia).
  rewrite !load_Some by lia. cbn [of_option mbind res_bind].
  rewrite slice_gap by lia. fold (data s).
  unfold logged at 1. destruct (exec (t_world s).1 (cut pos avail (data s))) as [r w] eqn:Ex.
  pose proof (Htrace (t_world s).1 (cut pos avail (data s))) as [Hb Hl]. rewrite Ex in Hb, Hl. cbn in Hb, Hl.
  destruct (stop_soon r || _) eqn:Es.
  { cbn. split; [by apply trim_inv_run|]. split; [done|].
    eexists _, _, r. split_and!; [done|done| |done].
    apply orb_true_iff in Es as [?|?%bool_decide_eq_true]; [by left|by right]. }
  assert (calm ((t_world s).2 ++ [(cut pos avail (data s), r)])) as Hcalm'.
  { apply Forall_app. split; [done|]. constructor; [|done]. cbn. intros Hs.
    apply orb_false_iff in Es as [? ?%bool_decide_eq_false]. destruct Hs; congruence. }
  rewrite (classify_counts_run 3 t0 map_size (trace r)) by (done || by right).
  cbn [of_option mbind res_bind t_len t_buf].
  assert (zlen (map count_class_lookup8 (trace r)) = map_size) as Hzm
    by (unfold zlen in *; by rewrite length_map).
  destruct (hash64 _ =? exec_cksum) eqn:Eh; b2p.
  2:{ cbn. rewrite (wrap_small 32) by (split; lia). split; [by apply trim_inv_run|].
      split; [done|]. split; [done|lia]. }
  rewrite (wrap_small 32 (t_len s - pos - avail)), (wrap_small 32 (t_len s - avail)) by (split; lia).
  rewrite load_Some by lia. cbn [of_option mbind res_bind].
  set (bs := slice (t_buf s) (pos + avail) (t_len s - pos - avail)).
  assert (zlen bs = t_len s - pos - avail) as Hbs by (apply zlen_slice; lia).
  rewrite store_Some by lia. cbn [of_option mbind res_bind yields t_buf t_len].
  assert (slice (splice_at (t_buf s) pos bs) 0 (t_len s - avail) = cut pos avail (data s)) as Hd.
  { replace (t_len s - avail) with (pos + zlen bs) by lia. rewrite slice_after_store by lia.
    apply slice_gap; lia. }
  assert (zlen (data s) = t_len s) as Hds by (apply zlen_slice; lia).
  split; [|split; [apply zlen_splice_at; lia|split; [done|lia]]].
  constructor; unfold data; cbn; rewrite ?Hd.
  - lia.
  - rewrite zlen_splice_at by lia. lia.
  - etransitivity; [apply cut_sublist; lia|]. apply Hi.
  - rewrite (cut_prefix 4) by lia. apply Hi.
  - done.
  - done.
  - intros _. split.
    { exists r. split; [apply elem_of_app; right; by apply list_elem_of_singleton|done]. }
    destruct (t_needs_write s) eqn:En; [|done].
    by destruct (ti_new s Hi En) as (_&?&?).
  - done.
Qed.

Lemma trim_loop_ok fuel remove_len pos f s :
  trim_inv s -> calm (t_world s).2 -> 4 <= remove_len < 2 ^ 31 -> remove_len <= pos ->
  t_len s - pos < Z.of_nat fuel -> (0 < fuel)%nat ->
  yields False False (trim_loop (logged exec) hash64 tbl fuel map_size exec_cksum remove_len pos f s) (fun x =>
    let '(ab, f', s') := x in
    trim_inv s' /\ zlen (t_buf s') = zlen (t_buf s) /\
    if (ab : bool) then halted f' (t_world s').2 else calm (t_world s').2).
Proof.
  revert pos f s. induction fuel as [|fuel IH]; intros pos f s Hi Hcalm Hr Hp Hf H0; [lia|].
  cbn [trim_loop]. destruct (pos <? t_len s) eqn:E; b2p; [|by split].
  apply yields_bind. eapply yields_mono; [apply trim_step_ok; [done|done|lia|lia|lia]|].
  intros [[[ab f'] pos'] s'] (Hi'&Hz&Hab). destruct ab as [f''|]; [by split_and!|].
  destruct Hab as [Hcalm' Hab].
  eapply yields_mono; [apply IH; [done|done|lia|lia|lia|lia]|].
  intros [[ab' f2] s2] (?&?&?). split_and!; [done|congruence|done].
Qed.

(** The lengths are halved down to four; [n] bounds the number of bits of the first. *)
Lemma trim_sizes_ok n fuel remove_len f s :
  trim_inv s -> calm (t_world s).2 -> 0 <= remove_len < 2 ^ Z.of_nat n -> remove_len < 2 ^ 31 ->
  zlen d0 < Z.of_nat fuel ->
  yields False False (trim_sizes (logged exec) hash64 tbl (S n) fuel map_size exec_cksum remove_len f s) (fun x =>
    let '(ab, f', s') := x in
    trim_inv s' /\ zlen (t_buf s') = zlen (t_buf s) /\
    if (ab : bool) then halted f' (t_world s').2 else calm (t_world s').2).
Proof.
  revert remove_len f s. induction n as [|n IH]; intros remove_len f s Hi Hcalm Hn Hr Hf; cbn [trim_sizes].
  - change (2 ^ Z.of_nat 0) with 1 in Hn. rewrite (proj2 (Z.leb_gt _ _)); [by split_and!|].
    unfold TRIM_MIN_BYTES. lia.
  - destruct (_ <=? remove_len) eqn:E; b2p; [|by split_and!].
    assert (4 <= remove_len) by (unfold TRIM_MIN_BYTES in E; lia). pose proof (ti_len s Hi).
    apply yields_bind. eapply yields_mono; [apply trim_loop_ok; [done|done|lia|lia|lia|lia]|].
    intros [[ab f'] s'] (Hi'&Hz&Hab). destruct ab; [by split_and!|].
    assert (0 <= Z.shiftr remove_len 1 < 2 ^ Z.of_nat n) as Hs.
    { rewrite Z.shiftr_div_pow2 by lia. change (2 ^ 1) with 2.
      rewrite Nat2Z.inj_succ, Z.pow_succ_r in Hn by lia.
      split; [apply Z.div_pos; lia|apply Z.div_lt_upper_bound; lia]. }
    eapply yields_mono; [apply IH; [done|done|done| |done]|].
    + rewrite Z.shiftr_div_pow2 by lia. change (2 ^ 1) with 2.
      apply Z.div_lt_upper_bound; lia.
    + intros [[ab2 f2] s2] (?&?&?). split_and!; [done|congruence|done].
Qed.
End Trim.

(** ** The entry in the cache and in the queue *)

(** Another entry of the same standing takes the place of [q]. *)
Lemma wf_change_entry s s' q e e' :
  cache_wf s -> c_queue s !! q = Some e -> entry_ok e' -> (c_buf e' = None <-> c_buf e = None) ->
  c_queue s' = <[q := e']> (c_queue s) -> c_slots s' = c_slots s ->
  c_max_entries s' = c_max_entries s -> c_max_count s' = c_max_count s ->
  c_count s' = c_count s -> c_smallest_free s' = c_smallest_free s -> cache_wf s'.
Proof.
  intros [] He Hok Hb Hq Hs Hm Hc Hn Hf. pose proof (lookup_lt_Some _ _ _ He).
  assert (forall p, cached s' p <-> cached s p) as Hcached.
  { intros p. unfold cached. rewrite Hq. destruct (decide (p = q)) as [->|Hp].
    - rewrite list_lookup_insert_eq by done. split; intros (x&b&Hx&Hxb); simplify_eq.
      + destruct (c_buf e) as [b'|] eqn:E; [by exists e, b'|]. pose proof (proj2 Hb eq_refl). congruence.
      + destruct (c_buf e') as [b'|] eqn:E; [by exists e', b'|]. pose proof (proj1 Hb eq_refl). congruence.
    - by rewrite list_lookup_insert_ne. }
  constructor; unfold occ in *; rewrite ?Hs, ?Hm, ?Hc, ?Hn, ?Hf, ?Hq; auto.
  - intros p. rewrite Hcached. apply cw_occ.
  - by apply Forall_insert.
Qed.

Lemma queue_wf_len tr st q qe n :
  wf tr st -> queue_buf st !! q = Some qe -> wf tr (with_entry q (set_len_entry n qe) st).
Proof.
  intros Hw Hq. pose proof (lookup_lt_Some _ _ _ Hq).
  assert (forall w e, <[q := set_len_entry n qe]> (queue_buf st) !! w = Some e ->
    exists e0, queue_buf st !! w = Some e0 /\ q_n_fuzz_entry e = q_n_fuzz_entry e0 /\
      q_tc_ref e = q_tc_ref e0 /\ q_trace_mini e = q_trace_mini e0) as Hl.
  { intros w e. destruct (decide (w = q)) as [->|Hne].
    - rewrite list_lookup_insert_eq by done. intros [= <-]. by exists qe.
    - rewrite list_lookup_insert_ne by done. intros. by exists e. }
  constructor; cbn; try apply Hw.
  - unfold zlen. rewrite length_insert. apply Hw.
  - intros w e (e0&H0&->&_&_)%Hl. by apply (wf_nfuzz _ _ _ Hw w).
  - intros w e (e0&H0&_&->&_)%Hl. by apply (wf_ref _ _ _ Hw).
  - intros i w Hi Hi2. rewrite length_insert. by apply (wf_slot _ _ _ Hw).
  - intros w e t (e0&H0&_&_&->)%Hl. by apply (wf_mini _ _ _ Hw w).
Qed.

Lemma queue_wf_trace tr st t :
  wf tr st -> zlen t = Queue.map_size st -> wf tr (with_trace t st).
Proof. intros Hw Ht. constructor; cbn; try apply Hw. lia. Qed.

(** ** The whole of [trim_case] *)

Section Case.
Context {W : Type} (exec : W -> list Z -> exec_result * W) (hash64 : list Z -> Z) (t0 : table16).
Context (exec_cksum : Z) (tr : nat -> list Z).

(** The entry [q] is about to be trimmed: [p] is what [queue_testcase_get] gave for it,
    [buf] the buffer there.  The log is empty.  Two conditions are not of the code's making:
    traces with the checksum of the entry hit what the trace of [q] hits, and
    [AFL_NO_UNLINK] is off. *)
Record trim_pre (z : @fuzz_st (W * run_log)) (q : nat) (p : bufptr) (e : centry) (qe : queue_entry)
  (buf : list Z) : Prop := TrimPre {
  tp_cache : cache_wf (z_cache z);
  tp_entry : c_queue (z_cache z) !! q = Some e;
  tp_queue : wf tr (z_afl z);
  tp_qentry : queue_buf (z_afl z) !! q = Some qe;
  tp_len : q_len qe = c_len e;
  tp_buf : deref (z_cache z) p = Some buf;
  tp_holds : holds e buf;
  tp_size : zlen buf < 2 ^ 31;
  tp_ptr : p = InEntry q \/ (p = InTestcase \/ p = InSplicecase) /\ c_buf e = None;
  tp_trace : zlen (Queue.trace_bits (z_afl z)) = Queue.map_size (z_afl z);
  tp_map : Queue.map_size (z_afl z) mod 64 = 0;
  tp_exec : forall w x, bytes_ok (trace (exec w x).1) /\
    zlen (trace (exec w x).1) = Queue.map_size (z_afl z);
  tp_log : (z_world z).2 = [];
  tp_hash : forall t, zlen t = Queue.map_size (z_afl z) -> hash64 t = exec_cksum ->
    forall j, 0 <= j < Queue.map_size (z_afl z) -> hits t j <-> hits (tr q) j;
  tp_unlink : z_no_unlink z = false
}.

(** The state of the cache when [q] has [len] bytes in [file] and [b] in its buffer. *)
Lemma trimmed_cache z q p e qe buf b len file :
  trim_pre z q p e qe buf ->
  let s := with_centry (write_back (z_cache z) p b) q (fun e => set_centry len (c_file e) e) in
  let s' := with_centry s q (set_centry len file) in
  let e' := CEntry len file (c_low e) (if bool_decide (p = InEntry q) then Some b else None) in
  c_queue s = <[q := set_centry len (c_file e) e']> (c_queue (z_cache z)) /\
  c_queue s' = <[q := e']> (c_queue (z_cache z)) /\
  deref s p = Some b /\ deref s' p = Some b /\
  (c_buf e' = None <-> c_buf e = None).
Proof.
  intros Hp. pose proof (tp_entry _ _ _ _ _ _ Hp) as He.
  pose proof (lookup_lt_Some _ _ _ He) as Hlt.
  destruct (tp_ptr _ _ _ _ _ _ Hp) as [->|[Hsc Hb]].
  - rewrite bool_decide_true by done. cbn.
    assert (c_buf e <> None) as Hne.
    { pose proof (tp_buf _ _ _ _ _ _ Hp) as Hd. cbn in Hd. rewrite He in Hd. cbn in Hd. congruence. }
    rewrite !(alter_is_insert _ q _ _ He).
    rewrite !(alter_is_insert _ q (<[q:=set_buf e (Some b)]> _) (set_buf e (Some b)))
      by (by rewrite list_lookup_insert_eq).
    rewrite list_insert_insert_eq.
    rewrite (alter_is_insert _ q (<[q:=set_centry len _ _]> _) (set_centry len (c_file (set_buf e (Some b))) (set_buf e (Some b))))
      by (by rewrite list_lookup_insert_eq).
    rewrite list_insert_insert_eq. rewrite !list_lookup_insert_eq by done. done.
  - rewrite bool_decide_false by (by destruct Hsc as [->| ->]).
    assert (c_queue (write_back (z_cache z) p b) = c_queue (z_cache z)) as Hq by (by destruct Hsc as [->| ->]).
    cbn. rewrite Hq, !(alter_is_insert _ q _ _ He).
    rewrite (alter_is_insert _ q (<[q:=set_centry len (c_file e) e]> _) (set_centry len (c_file e) e))
      by (by rewrite list_lookup_insert_eq).
    rewrite list_insert_insert_eq. unfold set_centry. cbn. rewrite Hb.
    by destruct Hsc as [->| ->].
Qed.

Lemma entry_ok_new len file low b :
  0 <= len < 2 ^ 31 -> len <= zlen file ->
  (forall x, b = Some x -> len <= zlen x /\ slice x 0 len = slice file 0 len) ->
  entry_ok (CEntry len file low b).
Proof. intros Hl Hf Hb. split; [done|]. split; [done|]. intros x Hx. by apply Hb. Qed.

(** What [trim_case] leaves: [d'] is the new test case, [l] are the runs of the call. *)
Definition trimmed (fault : fsrv_run_result) (z : @fuzz_st (W * run_log)) (q : nat) (p : bufptr) (e : centry) (d : list Z)
  (z' : @fuzz_st (W * run_log)) : Prop :=
  let l := (z_world z').2 in
  exists e' qe' b' d',
    c_queue (z_cache z') !! q = Some e' /\ queue_buf (z_afl z') !! q = Some qe' /\
    c_len e' = zlen d' /\ q_len qe' = zlen d' /\
    deref (z_cache z') p = Some b' /\ slice b' 0 (zlen d') = d' /\
    d' `sublist_of` d /\ take 4 d' = take 4 d /\ c_size (z_cache z') = c_size (z_cache z) /\
    ((halted fault l /\ c_file e' = c_file e) \/
     (calm l /\ cache_wf (z_cache z') /\ wf tr (z_afl z') /\ slice (c_file e') 0 (zlen d') = d' /\
      (d' = d \/ verified hash64 exec_cksum l d'))).

(** The state of the loops when they are done. *)
Lemma trim_core_ok z q p e qe buf fuel :
  trim_pre z q p e qe buf -> 5 <= c_len e -> c_len e < Z.of_nat fuel ->
  let ms := Queue.map_size (z_afl z) in
  yields False False
    (trim_sizes (logged exec) hash64 (init_count_class16 t0) 33 fuel ms exec_cksum
       (Z.max (u32 (next_pow2 (c_len e)) / TRIM_START_STEPS) TRIM_MIN_BYTES) FSRV_RUN_OK
       (TrimSt (z_world z) buf (c_len e) (u32 (next_pow2 (c_len e))) false (z_clean_trace z)
          (Queue.trace_bits (z_afl z)) (z_trim_execs z)))
    (fun x => let '(ab, f, t) := x in
       trim_inv hash64 ms exec_cksum (slice buf 0 (c_len e)) t /\
       if (ab : bool) then halted f (t_world t).2 else calm (t_world t).2).
Proof.
  intros Hp H5 Hf ms. destruct (tp_holds _ _ _ _ _ _ Hp) as [Hbl _].
  pose proof (tp_size _ _ _ _ _ _ Hp) as Hbs.
  assert (zlen (slice buf 0 (c_len e)) = c_len e) as Hz by (apply zlen_slice; lia).
  assert (0 <= u32 (next_pow2 (c_len e)) < 2 ^ 32) as Hu by (by apply wrap_range).
  assert (0 <= u32 (next_pow2 (c_len e)) / TRIM_START_STEPS < 2 ^ 28) as Hd.
  { unfold TRIM_START_STEPS. split; [apply Z.div_pos; lia|apply Z.div_lt_upper_bound; lia]. }
  eapply yields_mono; [apply (trim_sizes_ok exec hash64 t0 ms exec_cksum (slice buf 0 (c_len e)))|].
  - apply (wf_ms _ _ _ (tp_queue _ _ _ _ _ _ Hp)).
  - apply Hp.
  - apply Hp.
  - constructor; cbn; try done; try lia. apply Hp.
  - cbn. rewrite (tp_log _ _ _ _ _ _ Hp). constructor.
  - change (2 ^ Z.of_nat 32) with (2 ^ 32). unfold TRIM_MIN_BYTES. lia.
  - unfold TRIM_MIN_BYTES. lia.
  - lia.
  - intros [[ab f] t] (?&_&?). done.
Qed.

(** Nothing was removed, or trimming was interrupted. *)
Lemma trimmed_unwritten z q p e qe buf (t : @trim_st (W * run_log)) f c a cl n bi bo :
  trim_pre z q p e qe buf ->
  trim_inv hash64 (Queue.map_size (z_afl z)) exec_cksum (slice buf 0 (c_len e)) t ->
  halted f (t_world t).2 \/ calm (t_world t).2 /\ t_needs_write t = false ->
  c = with_centry (write_back (z_cache z) p (t_buf t)) q (fun e => set_centry (t_len t) (c_file e) e) ->
  a = with_trace (t_trace t) (with_entry q (set_len_entry (t_len t) qe) (z_afl z)) ->
  trimmed f z q p e (slice buf 0 (c_len e)) (FuzzSt c a (t_world t) cl n bi bo (z_no_unlink z)).
Proof.
  intros Hp Hi Hcase -> ->. pose proof (tp_entry _ _ _ _ _ _ Hp) as He.
  pose proof (ti_len _ _ _ _ _ Hi). pose proof (ti_buf _ _ _ _ _ Hi).
  destruct (trimmed_cache z q p e qe buf (t_buf t) (t_len t) (c_file e) Hp) as (Q&_&D&_&B).
  pose proof (lookup_lt_Some _ _ _ He). pose proof (lookup_lt_Some _ _ _ (tp_qentry _ _ _ _ _ _ Hp)).
  assert (zlen (data t) = t_len t) as Hz by (apply zlen_slice; lia).
  eexists _, _, (t_buf t), (data t). cbn [z_cache z_afl]. rewrite Q.
  cbn [queue_buf with_trace with_entry with_queue]. rewrite !list_lookup_insert_eq by done.
  split; [done|]. split; [done|]. split; [done|]. split; [done|]. split; [exact D|].
  split; [by rewrite Hz|]. split; [apply Hi|]. split; [apply Hi|].
  split; [by destruct p|].
  destruct Hcase as [Hint|[Hcalm Hnw]]; [by left|]. right. split; [done|]. pose proof (ti_same _ _ _ _ _ Hi Hnw) as Hsame.
  destruct (tp_holds _ _ _ _ _ _ Hp) as [Hbl Hbd].
  destruct (Forall_lookup_1 _ _ _ _ (cw_queue _ (tp_cache _ _ _ _ _ _ Hp)) He) as (Hl31&Hfl&_).
  assert (c_len e = t_len t) as Hlen.
  { rewrite <- Hz, Hsame. symmetry. apply zlen_slice; lia. }
  assert (slice (c_file e) 0 (t_len t) = data t) as Hfile by (rewrite Hsame, Hbd, Hlen; done).
  split; [|split; [|split; [by rewrite Hz|by left]]].
  - eapply wf_change_entry; [apply (tp_cache _ _ _ _ _ _ Hp)|exact He| |exact B|exact Q|..];
      try (by destruct p). apply entry_ok_new; [lia|lia|].
    intros x Hx. cbn in Hx. case_bool_decide; [|done]. simplify_eq. split; [lia|]. by rewrite Hfile.
  - apply queue_wf_trace; [|apply Hi]. apply queue_wf_len; apply Hp.
Qed.

(** The buffer that was trimmed is the cached one, or there is none: there is nothing
    to retake. *)
Lemma retake_mem_idle junk s q e m len old :
  c_queue s !! q = Some e -> m = None \/ c_buf e = None ->
  queue_testcase_retake_mem junk s q m len old = Ret s.
Proof.
  intros He Hm. unfold queue_testcase_retake_mem, entry_of. rewrite He. cbn.
  destruct Hm as [->| ->]; [by destruct (c_buf e)|done].
Qed.

(** The entry was trimmed: the file is written and the score updated. *)
Lemma trimmed_written z q p e qe buf (t : @trim_st (W * run_log)) junk :
  trim_pre z q p e qe buf ->
  trim_inv hash64 (Queue.map_size (z_afl z)) exec_cksum (slice buf 0 (c_len e)) t ->
  t_needs_write t = true -> calm (t_world t).2 ->
  let c := with_centry (with_centry (write_back (z_cache z) p (t_buf t)) q
             (fun e => set_centry (t_len t) (c_file e) e)) q (set_centry (t_len t) (data t)) in
  let a := with_trace (t_clean t) (with_trace (t_trace t)
             (with_entry q (set_len_entry (t_len t) qe) (z_afl z))) in
  queue_testcase_retake_mem junk c q
    (if bool_decide (p = InEntry q) then None else Some (t_buf t)) (t_len t) (c_len e) = Ret c /\
  exists a', update_bitmap_score a q true = Some a' /\
    forall f cl n bi bo,
      trimmed f z q p e (slice buf 0 (c_len e)) (FuzzSt c a' (t_world t) cl n bi bo (z_no_unlink z)).
Proof.
  intros Hp Hi Hnw Hcalm c a. pose proof (tp_entry _ _ _ _ _ _ Hp) as He.
  pose proof (ti_len _ _ _ _ _ Hi). pose proof (ti_buf _ _ _ _ _ Hi).
  destruct (trimmed_cache z q p e qe buf (t_buf t) (t_len t) (data t) Hp) as (_&Q&_&D&B).
  fold c in Q, D. pose proof (lookup_lt_Some _ _ _ He).
  pose proof (lookup_lt_Some _ _ _ (tp_qentry _ _ _ _ _ _ Hp)).
  destruct (ti_new _ _ _ _ _ Hi Hnw) as (Hv&Hck&Hcz).
  assert (zlen (data t) = t_len t) as Hz by (apply zlen_slice; lia).
  split.
  { eapply retake_mem_idle; [rewrite Q; by apply list_lookup_insert_eq|].
    cbn. case_bool_decide; [by left|by right]. }
  assert (wf tr a) as Hwa.
  { apply queue_wf_trace; [|exact Hcz]. apply queue_wf_trace; [|apply Hi]. apply queue_wf_len; apply Hp. }
  assert (queue_buf a !! q = Some (set_len_entry (t_len t) qe)) as Hqa
    by (by apply list_lookup_insert_eq).
  destruct (update_bitmap_score_run tr a q _ Hwa Hqa) as (a'&Ha'&Hwf'&Hfr&_).
  { intros j Hj. by apply (tp_hash _ _ _ _ _ _ Hp). }
  exists a'. split; [done|]. intros f cl n bi bo.
  assert (exists qe', queue_buf a' !! q = Some qe' /\ q_len qe' = t_len t) as (qe'&Hqe&Hql).
  { pose proof (f_equal (fun l => l !! q) (fr_queue _ _ Hfr)) as Hs. cbn beta in Hs.
    rewrite !list_lookup_fmap, Hqa in Hs. destruct (queue_buf a' !! q) as [qe'|]; [|done].
    exists qe'. split; [done|]. by injection Hs. }
  eexists _, qe', (t_buf t), (data t). cbn [z_cache z_afl]. rewrite Q, list_lookup_insert_eq by done.
  split; [done|]. split; [done|]. split; [done|]. split; [lia|]. split; [exact D|].
  split; [by rewrite Hz|]. split; [apply Hi|]. split; [apply Hi|]. split; [by destruct p|].
  right. destruct (Forall_lookup_1 _ _ _ _ (cw_queue _ (tp_cache _ _ _ _ _ _ Hp)) He) as (Hl31&_&_).
  assert (zlen (slice buf 0 (c_len e)) = c_len e) as Hbz.
  { apply zlen_slice; [lia|lia|]. apply (tp_holds _ _ _ _ _ _ Hp). }
  split; [done|]. split; [|split; [done|split; [by apply slice_full|by right]]].
  eapply wf_change_entry; [apply (tp_cache _ _ _ _ _ _ Hp)|exact He| |exact B|exact Q|..];
    try (by destruct p). apply entry_ok_new; [lia|lia|].
  intros x Hx. cbn in Hx. case_bool_decide; [|done]. simplify_eq. split; [lia|].
  by rewrite (slice_full (data t)) by lia.
Qed.

(** C33. [trim_case], without custom trimmers, on an entry of a well-formed fuzzer state,
    for every target, deterministic or not, that keeps a log of its runs: it ends within
    the given fuel without leaving a buffer.  The new test case is the old one with blocks
    removed, its first four bytes kept, and is what [in_buf], the length in the queue and
    the length in the cache say.  Either the last run of the call, and only that, was
    stopped by the user or by an error of the fork server: then its result is returned and
    the file is as before.  Or no run was stopped: then the file on disk holds the new test
    case, cache and queue keep their invariants, and the new test case is the old one or
    was run in this call with the checksum of the entry.  [q_testcase_cache_size] is not
    adjusted.  Assumed ([trim_pre]): [AFL_NO_UNLINK] is off (with it a short write restarts
    at the first byte, [retry_write_restarts]), and a trace with the checksum of the entry
    hits the edges that the trace of the entry hits, so that the trace of the first
    removal, which [update_bitmap_score] is given, stands for the others. *)
Theorem trim_case_correct z q p e qe buf fuel junk results :
  trim_pre z q p e qe buf -> c_len e < Z.of_nat fuel ->
  exists fault z',
    trim_case (logged exec) hash64 (init_count_class16 t0) 33 fuel junk results exec_cksum z q p
      = Ret (fault, z') /\
    trimmed fault z q p e (slice buf 0 (c_len e)) z'.
Proof.
  intros Hp Hf. unfold trim_case, entry_of.
  rewrite (tp_entry _ _ _ _ _ _ Hp), (tp_qentry _ _ _ _ _ _ Hp), (tp_buf _ _ _ _ _ _ Hp).
  cbn [of_option mbind res_bind].
  destruct (c_len e <? 5) eqn:H5; b2p.
  - eexists _, _. split; [done|]. destruct (tp_holds _ _ _ _ _ _ Hp) as [Hbl Hbd].
    destruct (Forall_lookup_1 _ _ _ _ (cw_queue _ (tp_cache _ _ _ _ _ _ Hp)) (tp_entry _ _ _ _ _ _ Hp))
      as (Hl31&Hfl&_).
    assert (zlen (slice buf 0 (c_len e)) = c_len e) as Hz by (apply zlen_slice; lia).
    exists e, qe, buf, (slice buf 0 (c_len e)). cbn. rewrite Hz.
    split_and!; try (by apply Hp); try done. right. rewrite (tp_log _ _ _ _ _ _ Hp).
    split_and!; try (by apply Hp); [constructor|done|by left].
  - pose proof (trim_core_ok z q p e qe buf fuel Hp H5 Hf) as Hc. cbv zeta in Hc.
    destruct (trim_sizes _ _ _ _ _ _ _ _ _ _) as [[[ab fault] t]| | |]; [|done..].
    cbn [mbind res_bind]. destruct Hc as [Hi Hab].
    pose proof (lookup_lt_Some _ _ _ (tp_qentry _ _ _ _ _ _ Hp)) as Hlt.
    destruct (ab || negb (t_needs_write t)) eqn:Eab.
    + cbn [z_afl queue_buf with_trace with_entry with_queue].
      rewrite list_lookup_insert_eq by done. cbn [of_option mbind res_bind].
      eexists _, _. split; [done|].
      eapply (trimmed_unwritten z q p e qe buf t); [done|done| |done|done].
      destruct ab; [by left|right]. split; [done|]. by apply negb_true_iff.
    + apply orb_false_iff in Eab as [-> Hnw%negb_false_iff].
      unfold write_file. rewrite (tp_unlink _ _ _ _ _ _ Hp). pose proof (ti_len _ _ _ _ _ Hi).
      pose proof (ti_buf _ _ _ _ _ Hi). rewrite load_Some by lia. fold (data t).
      cbn [of_option mbind res_bind].
      destruct (trimmed_written z q p e qe buf t junk Hp Hi Hnw Hab) as (Hret&a'&Ha'&Htr).
      rewrite Hret. cbn [of_option mbind res_bind]. rewrite Ha'. cbn [of_option mbind res_bind z_afl].
      pose proof (Htr fault (t_clean t) (t_execs t) 0 0) as (e'&qe'&b'&d'&_&Hqe&_).
      cbn [z_afl] in Hqe. rewrite Hqe. cbn [of_option mbind res_bind].
      eexists _, _. split; [done|]. rewrite <- (tp_unlink _ _ _ _ _ _ Hp). apply Htr.
Qed.
End Case.

(** ** Witnesses *)

Definition trim_ex_trace : list Z := 1 :: replicate 63 0.
Definition trim_ex_exec (_ : unit) (_ : list Z) : exec_result * unit :=
  (ExecResult FSRV_RUN_OK false trim_ex_trace false, tt).
Definition trim_ex_hash (t : list Z) : Z := if bool_decide (t = trim_ex_trace) then 7 else 0.

(** One entry of eleven bytes, below average weight and so not cached. *)
Definition trim_ex_data : list Z := [10; 11; 12; 13; 14; 15; 16; 17; 18; 19; 20].
Definition trim_ex : fuzz_st :=
  FuzzSt
    (CacheSt [CEntry 11 trim_ex_data true None] [None; None; None] 100 3 0 0 0 0 0 0 false
       trim_ex_data [])
    (Afl [Entry 11 0 1 false false false false false false 0 0 10 None 0 None] 1
       (replicate 64 None) trim_ex_trace 64 EXPLORE false [0] false false false
       (replicate 8 0) 0 0 (-1) false)
    (tt, [] : run_log) (replicate 64 0) 0 0 0 false.

Lemma trim_ex_pre :
  trim_pre trim_ex_exec trim_ex_hash 7 (fun _ => trim_ex_trace) trim_ex 0 InTestcase
    (CEntry 11 trim_ex_data true None) (Entry 11 0 1 false false false false false false 0 0 10 None 0 None)
    trim_ex_data.
Proof.
  constructor; try done.
  - constructor; try (cbn; lia); try done.
    + intros i Hi. cbn in Hi. assert (i = 0 \/ i = 1 \/ i = 2)%nat as [->|[->| ->]] by lia; done.
    + change (NoDup (@nil nat)). constructor.
    + intros q. change (q ∈ @nil nat <-> cached (z_cache trim_ex) q).
      split; [by intros ?%elem_of_nil|]. intros (e&b&He&Hb).
      destruct q as [|q]; cbn in He; by simplify_eq.
    + constructor; [|constructor]. split; [cbn; lia|]. split; [unfold zlen; cbn; lia|done].
  - apply wf_fresh; try done; [repeat constructor; done|]. repeat constructor; done.
  - right. split; [by left|done].
  - intros w x. split; [|done]. repeat constructor; done.
  - intros t _ Ht. unfold trim_ex_hash in Ht. case_bool_decide; [by subst|done].
Qed.

(** The target does not care: the first four bytes remain. *)
Example trim_case_witness :
  exists fault z',
    trim_case (logged trim_ex_exec) trim_ex_hash (init_count_class16 (fun _ => 0)) 33 12 0 [] 7 trim_ex 0 InTestcase
      = Ret (fault, z') /\
    trimmed trim_ex_hash 7 (fun _ => trim_ex_trace) fault trim_ex 0 InTestcase
      (CEntry 11 trim_ex_data true None) trim_ex_data z'.
Proof.
  apply (trim_case_correct trim_ex_exec trim_ex_hash (fun _ => 0) 7 (fun _ => trim_ex_trace)
    trim_ex 0 InTestcase _ _ trim_ex_data 12 0 [] trim_ex_pre).
  cbn. lia.
Defined.

(** With [no_unlink], a short write is followed by a write from the start of the
    buffer: the file is not the test case. *)
Example retry_write_restarts :
  write_file true [2; 1] [1; 2; 3] 3 = Ret [1; 2; 1] /\ write_file true [3] [1; 2; 3] 3 = Ret [1; 2; 3].
Proof. done. Qed.
