(* ===== verification/Stage.v ===== *)
(** * Fuzzing stages: control, buffers and runs

    What the stages of [fuzz_one_original] ([src/afl-fuzz-one.c]) and
    [skip_deterministic_stage] ([src/afl-fuzz-skipdet.c]) share: the two ways out of
    them, the growing buffers of [include/alloc-inl.h], the bit maps of
    [include/afl-fuzz.h], [is_det_timeout], and [write_to_testcase] and
    [common_fuzz_stuff] of [src/afl-fuzz-run.c] without custom mutators.  The class
    [Fuzzer] is what they need of the rest: the fork server, the clock, the signals and
    [save_if_interesting]. *)

From S2P Require Import Prelude Res Rng Extras Tmin.

(** ** Control

    A stage goes on, jumps to [abandon_entry], jumps to [custom_mutator_stage], or ends
    the process; it leaves an allocation, the random source does not answer, or the fuel
    of a loop is used up. *)

Inductive flow (S A : Type) :=
| Next (a : A) (s : S)
| Abandon (s : S)
| Leave (s : S)
| Fatal
| OutOfBounds
| NoRandom
| Unfinished.
Arguments Next {S A} a s.
Arguments Abandon {S A} s.
Arguments Leave {S A} s.
Arguments Fatal {S A}.
Arguments OutOfBounds {S A}.
Arguments NoRandom {S A}.
Arguments Unfinished {S A}.

Definition stage (S A : Type) : Type := S -> flow S A.

#[export] Instance stage_ret S : MRet (stage S) := fun A a s => Next a s.
#[export] Instance stage_bind S : MBind (stage S) := fun A B k m s =>
  match m s with
  | Next a s => k a s
  | Abandon s => Abandon s
  | Leave s => Leave s
  | Fatal => Fatal
  | OutOfBounds => OutOfBounds
  | NoRandom => NoRandom
  | Unfinished => Unfinished
  end.

(** [goto abandon_entry], [goto custom_mutator_stage] *)
Definition abandon_entry {S A} : stage S A := fun s => Abandon s.
Definition custom_mutator_stage {S A} : stage S A := fun s => Leave s.

(** A memory access that may fall outside. *)
Definition within {S A} (o : option A) : stage S A := fun s =>
  match o with Some a => Next a s | None => OutOfBounds end.

(** [for (x in l) f(x);], and with a variable that the body updates. *)
Fixpoint each {S A} (l : list A) (f : A -> stage S unit) : stage S unit :=
  match l with
  | [] => mret tt
  | x :: l => f x;; each l f
  end.

Fixpoint each_with {S A B} (l : list A) (f : A -> B -> stage S B) (b : B) : stage S B :=
  match l with
  | [] => mret b
  | x :: l => b ← f x b; each_with l f b
  end.

Lemma bind_assoc {S A B C} (m : stage S A) (f : A -> stage S B) (g : B -> stage S C) s :
  ((m ≫= f) ≫= g) s = (m ≫= (fun a => f a ≫= g)) s.
Proof. unfold mbind, stage_bind. by destruct (m s). Qed.

Lemma bind_ext {S A B} (m : stage S A) (k k' : A -> stage S B) s :
  (forall a s, k a s = k' a s) -> (m ≫= k) s = (m ≫= k') s.
Proof. intros Hk. unfold mbind, stage_bind. destruct (m s); try done. Qed.

Lemma each_app {S A} (l k : list A) (f : A -> stage S unit) s :
  each (l ++ k) f s = (each l f;; each k f) s.
Proof.
  revert s. induction l as [|a l IH]; intros s; [done|]. cbn [each app]. unfold mbind, stage_bind at 1 3.
  destruct (f a s) eqn:E; cbn; try (unfold stage_bind; by rewrite E).
Qed.

(** ** Growing buffers *)

Definition INITIAL_GROWTH_SIZE : Z := 64.
Definition AFL_ALLOC_SIZE_OFFSET : Z := 8.

(** The usable bytes of a buffer after [afl_realloc(&buf, size_needed)]; a buffer that
    was never allocated is the empty list.  [realloc] succeeds. *)
Definition afl_realloc (buf : list Z) (size_needed : Z) : list Z :=
  let current_size := if zlen buf =? 0 then 0 else zlen buf + AFL_ALLOC_SIZE_OFFSET in
  let size_needed := u64 (size_needed + AFL_ALLOC_SIZE_OFFSET) in
  if size_needed <=? current_size then buf
  else
    let next_size :=
      if size_needed <? INITIAL_GROWTH_SIZE then INITIAL_GROWTH_SIZE
      else let p := next_pow2 size_needed in if p =? 0 then size_needed else p in
    buf ++ replicate (Z.to_nat (next_size - AFL_ALLOC_SIZE_OFFSET - zlen buf)) 0.

(** ** Bit maps *)

Definition bitmap_set (map : list Z) (index : Z) : option (list Z) :=
  v ← get map (index / 8);
  put map (index / 8) (u8 (Z.lor v (Z.shiftl 1 (index mod 8)))).

Definition bitmap_read (map : list Z) (index : Z) : option bool :=
  v ← get map (index / 8);
  Some (z2b (Z.land (Z.shiftr v (index mod 8)) 1)).

(** ** The rest of the fuzzer *)

Class Fuzzer (W : Type) := {
  fuzz_run_target : W -> list Z -> fsrv_run_result * W;
  stop_requested : W -> bool;
  skip_requested : W -> bool;
  clear_skip_request : W -> W;
  trace_cksum : W -> Z;
  queued_items : W -> Z;
  save_if_interesting : W -> list Z -> fsrv_run_result -> option (Z * W);
  get_cur_time : W -> Z * W
}.

Section Run.
Context {W R : Type} `{Fuzzer W}.

(** The part of the fuzzer that a run changes. *)
Record env := Env {
  e_fuzzer : W;
  e_rng : R;
  e_extras : extras_st;
  e_subseq_tmouts : Z;
  e_cur_skipped_items : Z;
  e_queued_discovered : Z
}.

Definition with_fuzzer (w : W) (e : env) : env :=
  Env w (e_rng e) (e_extras e) (e_subseq_tmouts e) (e_cur_skipped_items e)
    (e_queued_discovered e).
Definition with_tokens (x : extras_st) (r : R) (e : env) : env :=
  Env (e_fuzzer e) r x (e_subseq_tmouts e) (e_cur_skipped_items e)
    (e_queued_discovered e).
Definition with_tmouts (n : Z) (e : env) : env :=
  Env (e_fuzzer e) (e_rng e) (e_extras e) n (e_cur_skipped_items e)
    (e_queued_discovered e).
Definition skip_item (e : env) : env :=
  Env (e_fuzzer e) (e_rng e) (e_extras e) (e_subseq_tmouts e)
    (u32 (e_cur_skipped_items e + 1)) (e_queued_discovered e).
Definition discover (n : Z) (e : env) : env :=
  Env (e_fuzzer e) (e_rng e) (e_extras e) (e_subseq_tmouts e)
    (e_cur_skipped_items e) (u32 (e_queued_discovered e + n)).

Definition MAX_EFF_TIMEOUT : Z := 10 * 60 * 1000.
Definition MAX_DET_TIMEOUT : Z := 15 * 60 * 1000.

Definition is_det_timeout (cur_ms : Z) (is_flip : bool) : stage env bool := fun e =>
  let '(t, w) := get_cur_time (e_fuzzer e) in
  Next (u64 (t - cur_ms) >? if is_flip then MAX_EFF_TIMEOUT else MAX_DET_TIMEOUT)
    (with_fuzzer w e).

(** ** Running an input *)

(** [write_to_testcase]: what the target is given, which is what is kept. *)
Definition write_to_testcase (min_length max_length : Z) (mem : list Z) (len : Z)
  (fix_ : bool) : option (list Z) :=
  let len := if (len <? min_length) && negb fix_ then min_length
             else if len >? max_length then max_length else len in
  load mem 0 len.

Definition TMOUT_LIMIT : Z := 250.

(** [common_fuzz_stuff] after [write_to_testcase]. *)
Definition run_written (x : list Z) : stage env bool := fun e =>
  if zlen x =? 0 then Next false e
  else
    let '(fault, w) := fuzz_run_target (e_fuzzer e) x in
    let e := with_fuzzer w e in
    if stop_requested w then Next true e
    else
      let tmout := bool_decide (fault = FSRV_RUN_TMOUT) in
      let n := e_subseq_tmouts e in
      let e := with_tmouts (if tmout then u32 (n + 1) else 0) e in
      if tmout && (n >? TMOUT_LIMIT) then Next true (skip_item e)
      else if skip_requested w then
        Next true (skip_item (with_fuzzer (clear_skip_request w) e))
      else
        match save_if_interesting w x fault with
        | Some (n, w) => Next false (discover n (with_fuzzer w e))
        | None => Fatal
        end.

Definition common_fuzz_stuff (min_length max_length : Z) (out_buf : list Z) (len : Z) :
  stage env bool :=
  x ← within (write_to_testcase min_length max_length out_buf len false);
  run_written x.

Definition rand_below_env `{RandSource R} (limit : Z) : stage env Z := fun e =>
  match rs_below limit (e_rng e) with
  | Some (v, r) => Next v (with_tokens (e_extras e) r e)
  | None => NoRandom
  end.

Definition maybe_add_auto_env `{RandSource R} `{Qsort} (mem : list Z) : stage env unit := fun e =>
  match maybe_add_auto (e_extras e) mem (e_rng e) with
  | Some (x, r) => Next tt (with_tokens x r e)
  | None => NoRandom
  end.

Definition cksum_env : stage env Z := fun e => Next (trace_cksum (e_fuzzer e)) e.
End Run.
Arguments env : clear implicits.
