(* ===== verification/StageFacts.v ===== *)
(** * Reasoning about stages: postconditions, and the bit maps *)

From S2P Require Import Prelude Res Rng MutationsFacts Stage.

(** ** Postconditions of stages

    [goes m s Q]: no access outside, no jump to [custom_mutator_stage] and no loop that runs
    out of fuel; if [m] goes on then with [Q]. *)

Definition goes {S A} (m : stage S A) (s : S) (Q : A -> S -> Prop) : Prop :=
  match m s with
  | Next a s => Q a s
  | Abandon _ | Fatal | NoRandom => True
  | Leave _ | OutOfBounds | Unfinished => False
  end.

Lemma goes_ret {S A} (a : A) (s : S) (Q : A -> S -> Prop) : Q a s -> goes (mret a) s Q.
Proof. done. Qed.

Lemma goes_bind {S A B} (m : stage S A) (k : A -> stage S B) s Q :
  goes m s (fun a s => goes (k a) s Q) -> goes (m ≫= k) s Q.
Proof. unfold goes, mbind, stage_bind. by destruct (m s). Qed.

Lemma goes_mono {S A} (m : stage S A) s (P Q : A -> S -> Prop) :
  goes m s P -> (forall a s, P a s -> Q a s) -> goes m s Q.
Proof. unfold goes. destruct (m s); auto. Qed.

Lemma goes_and {S A} (m : stage S A) s (P Q : A -> S -> Prop) :
  goes m s P -> goes m s Q -> goes m s (fun a s' => P a s' /\ Q a s').
Proof. unfold goes. destruct (m s); auto. Qed.

Lemma goes_within {S A} (v : A) (s : S) (Q : A -> S -> Prop) : Q v s -> goes (within (Some v)) s Q.
Proof. done. Qed.

Lemma goes_each_with {S A B} (l : list A) (f : A -> B -> stage S B) v s (J : B -> S -> Prop) :
  J v s -> (forall i v s, i ∈ l -> J v s -> goes (f i v) s J) -> goes (each_with l f v) s J.
Proof.
  revert v s. induction l as [|i l IH]; intros v s HJ Hf; [done|]. cbn [each_with].
  apply goes_bind. eapply goes_mono; [apply Hf; [left|done]|]. intros v' s' HJ'.
  apply IH; [done|]. intros. apply Hf; [by right|done].
Qed.

(** [good m s Q A]: the same, and if the entry is abandoned then with [A]. *)
Definition good {S X} (m : stage S X) (s : S) (Q : X -> S -> Prop) (A : S -> Prop) : Prop :=
  match m s with
  | Next a s => Q a s
  | Abandon s => A s
  | Fatal | NoRandom => True
  | Leave _ | OutOfBounds | Unfinished => False
  end.

Section Rules.
Context {S : Type} (A : S -> Prop).

Lemma good_ret {X} (x : X) s Q : Q x s -> good (mret x) s Q A.
Proof. done. Qed.
Lemma good_bind {X Y} (m : stage S X) (k : X -> stage S Y) s Q :
  good m s (fun x s => good (k x) s Q A) A -> good (m ≫= k) s Q A.
Proof. unfold good, mbind, stage_bind. by destruct (m s). Qed.
Lemma good_mono {X} (m : stage S X) s (P Q : X -> S -> Prop) :
  good m s P A -> (forall x s, P x s -> Q x s) -> good m s Q A.
Proof. unfold good. destruct (m s); auto. Qed.
Lemma good_weaken {X} (m : stage S X) s (P Q : X -> S -> Prop) (B : S -> Prop) :
  good m s P B -> (forall x s, P x s -> Q x s) -> (forall s, B s -> A s) -> good m s Q A.
Proof. unfold good. destruct (m s); auto. Qed.
Lemma good_within {X} (v : X) s (Q : X -> S -> Prop) : Q v s -> good (within (Some v)) s Q A.
Proof. done. Qed.
Lemma good_each {X} (l : list X) (f : X -> stage S unit) (J : nat -> S -> Prop) s :
  J (length l) s -> (forall x n s, x ∈ l -> J (Datatypes.S n) s -> good (f x) s (fun _ => J n) A) ->
  good (each l f) s (fun _ => J 0%nat) A.
Proof.
  revert s. induction l as [|x l IH]; intros s HJ Hf; [done|]. cbn [each]. apply good_bind.
  eapply good_mono; [apply Hf; [left|exact HJ]|]. intros ? s' HJ'. apply IH; [done|].
  intros. apply Hf; [by right|done].
Qed.
End Rules.

(** ** Growing buffers *)

Lemma afl_realloc_room buf n : 1 <= n < 2 ^ 31 -> n <= zlen (afl_realloc buf n).
Proof.
  intros Hn. unfold afl_realloc, AFL_ALLOC_SIZE_OFFSET, INITIAL_GROWTH_SIZE.
  pose proof (zlen_nonneg buf). rewrite (wrap_small 64) by (split; lia).
  destruct (_ <=? _) eqn:E; b2p; [destruct (zlen buf =? 0) eqn:E0; b2p; lia|].
  rewrite zlen_app.
  assert (zlen buf < n) by (destruct (zlen buf =? 0) eqn:E0; b2p; lia).
  destruct (n + 8 <? 64) eqn:E1; b2p; [rewrite zlen_replicate by lia; lia|].
  destruct (next_pow2_least (n + 8)) as (k&Hk&->&Hle&_); [lia|].
  rewrite (proj2 (Z.eqb_neq _ _)) by lia. rewrite zlen_replicate by lia. lia.
Qed.

Lemma afl_realloc_enough buf n : 1 <= n < 2 ^ 31 -> n <= zlen buf -> afl_realloc buf n = buf.
Proof.
  intros Hn Hb. unfold afl_realloc, AFL_ALLOC_SIZE_OFFSET. rewrite (wrap_small 64) by (split; lia).
  rewrite (proj2 (Z.eqb_neq _ _)) by lia. by rewrite (proj2 (Z.leb_le _ _)) by lia.
Qed.

Lemma zlen_replicate_max {A} n (x : A) : zlen (replicate (Z.to_nat n) x) = Z.max 0 n.
Proof. unfold zlen. rewrite length_replicate. lia. Qed.

(** A buffer grows to less than twice what is asked for, and keeps its contents. *)
Lemma afl_realloc_max buf n k :
  0 <= n -> 6 <= k <= 31 -> n + 8 <= 2 ^ k -> zlen buf <= 2 ^ k -> zlen (afl_realloc buf n) <= 2 ^ k.
Proof.
  intros Hn Hk Hnk Hb. assert (2 ^ k <= 2 ^ 31) by (apply Z.pow_le_mono_r; lia).
  assert (2 ^ 6 <= 2 ^ k) by (apply Z.pow_le_mono_r; lia).
  unfold afl_realloc, AFL_ALLOC_SIZE_OFFSET, INITIAL_GROWTH_SIZE.
  pose proof (zlen_nonneg buf). rewrite (wrap_small 64) by (split; lia).
  destruct (_ <=? _) eqn:E; b2p; [done|]. rewrite zlen_app.
  assert (zlen buf < n + 8) by (destruct (zlen buf =? 0) eqn:E0; b2p; lia).
  destruct (n + 8 <? 64) eqn:E1; b2p.
  { rewrite zlen_replicate_max. lia. }
  destruct (next_pow2_least (n + 8)) as (j&Hj&->&Hle&Hmin); [lia|].
  assert (2 ^ j <= 2 ^ k) by (apply Z.pow_le_mono_r; [lia|]; apply Hmin; lia).
  rewrite (proj2 (Z.eqb_neq _ _)) by lia. rewrite zlen_replicate_max. lia.
Qed.

Lemma afl_realloc_prefix buf n : exists t, afl_realloc buf n = buf ++ t.
Proof. unfold afl_realloc. destruct (_ <=? _); [exists []; by rewrite app_nil_r|by eexists]. Qed.

Lemma slice_realloc buf n off k : 0 <= off -> 0 <= k -> off + k <= zlen buf ->
  slice (afl_realloc buf n) off k = slice buf off k.
Proof. intros. destruct (afl_realloc_prefix buf n) as [t ->]. by apply slice_app_l. Qed.

Lemma zlen_realloc buf n : zlen buf <= zlen (afl_realloc buf n).
Proof. destruct (afl_realloc_prefix buf n) as [t ->]. rewrite zlen_app. pose proof (zlen_nonneg t). lia. Qed.

(** ** Bit maps *)

Definition bit (m : list Z) (i : Z) : Prop := bitmap_read m i = Some true.

Lemma bitmap_read_Some m i : 0 <= i < 8 * zlen m -> exists v, bitmap_read m i = Some v.
Proof.
  intros Hi. unfold bitmap_read. destruct (get_Some m (i / 8)) as [v ->]; [dlia|]. by eexists.
Qed.

Lemma bitmap_test v k : 0 <= k -> z2b (Z.land (Z.shiftr v k) 1) = Z.testbit v k.
Proof.
  intros Hk. change 1 with (Z.ones 1). rewrite Z.land_ones by lia. change (2 ^ 1) with 2.
  rewrite <- Z.bit0_mod, Z.shiftr_spec by lia. rewrite Z.add_0_l.
  by destruct (Z.testbit v k).
Qed.

Lemma bit_get m i : bit m i <-> exists v, get m (i / 8) = Some v /\ Z.testbit v (i mod 8) = true.
Proof.
  unfold bit, bitmap_read. pose proof (Z.mod_pos_bound i 8). split.
  - destruct (get m (i / 8)) as [v|]; [|done]. cbn [mbind option_bind]. rewrite bitmap_test by lia.
    intros [= Hv]. by exists v.
  - intros (v&->&Hv). cbn [mbind option_bind]. by rewrite bitmap_test, Hv by lia.
Qed.

Lemma bitmap_set_spec m i :
  0 <= i < 8 * zlen m -> bytes_ok m ->
  exists m', bitmap_set m i = Some m' /\ zlen m' = zlen m /\ bytes_ok m' /\
    forall j, 0 <= j -> bit m' j <-> j = i \/ bit m j.
Proof.
  intros Hi Hb. unfold bitmap_set. assert (0 <= i / 8 < zlen m) as H8 by dlia.
  pose proof (Z.mod_pos_bound i 8). destruct (get_Some m (i / 8)) as [v Hv]; [done|].
  rewrite Hv. cbn [mbind option_bind]. rewrite put_Some by done.
  pose proof (get_inv _ _ _ Hv) as [_ Hl]. pose proof (Forall_lookup_1 _ _ _ _ Hb Hl) as Hv8.
  set (w := u8 (Z.lor v (Z.shiftl 1 (i mod 8)))).
  assert (forall k, 0 <= k < 8 -> Z.testbit w k = Z.testbit v k || (i mod 8 =? k)) as Hw.
  { intros k Hk. unfold w, wrap. rewrite Z.mod_pow2_bits_low, Z.lor_spec by lia. f_equal.
    rewrite Z.shiftl_1_l, Z.pow2_bits_eqb by lia. done. }
  eexists. split; [done|]. split; [by rewrite zlen_insert|].
  split; [apply Forall_insert; [done|apply wrap_range; lia]|].
  intros j Hj. rewrite !bit_get. pose proof (Z.mod_pos_bound j 8).
  assert (0 <= j / 8) by (apply Z.div_pos; lia).
  rewrite !get_pos by lia. destruct (decide (j / 8 = i / 8)) as [E|E].
  - rewrite E, list_lookup_insert_eq by (by eapply lookup_lt_Some).
    rewrite get_pos in Hv by lia. split.
    + intros (x&[= <-]&Hx). rewrite Hw in Hx by lia. apply orb_true_iff in Hx as [Hx|Hx].
      * right. by exists v.
      * b2p. left. rewrite (Z.div_mod j 8), (Z.div_mod i 8) by lia. lia.
    + intros [->|(x&Hx&Ht)]; (eexists; split; [done|]); rewrite Hw by lia.
      * rewrite Z.eqb_refl. apply orb_true_r.
      * rewrite Hv in Hx. injection Hx as ->. by rewrite Ht.
  - rewrite list_lookup_insert_ne by (intros E2; apply E; lia). split; [by right|].
    intros [->|Hx]; [done|done].
Qed.

Lemma bit_zeros n j : ~ bit (replicate n 0) j.
Proof.
  intros (v&Hv&Ht)%bit_get. apply get_inv in Hv as [_ Hv]. apply lookup_replicate in Hv as [-> _].
  by rewrite Z.testbit_0_l in Ht.
Qed.
