(* ===== verification/Det.v ===== *)
(** * Deterministic stages

    The deterministic part of [fuzz_one_original] ([src/afl-fuzz-one.c]): walking bit and
    byte flips with the collection of tokens, arithmetic, interesting values, and the
    dictionary stages.  The stages change [out_buf] in place, run it and restore it.  The
    counters for the screen ([stage_cur], [stage_max], [stage_finds], ...) are left out. *)

From S2P Require Import Prelude Res Rng MutTables Mutations Diffs TextCheck Extras Tmin Stage.

Section Det.
Context {W R : Type} `{Fuzzer W} `{RandSource R} `{Qsort}.

(** What the stages read of the fuzzer: [in_buf], [len], [skip_eff_map],
    [before_det_time], the bounds on the length, [no_arith], [non_instrumented_mode] and
    [max_det_extras]. *)
Record det_cfg := DetCfg {
  in_buf : list Z;
  len : Z;
  skip_eff_map : list Z;
  before_det_time : Z;
  min_length : Z;
  max_length : Z;
  no_arith : bool;
  non_instrumented_mode : bool;
  max_det_extras : Z
}.

(** [out_buf] and [ex_buf], the buffer behind [ex_tmp], are the whole allocations. *)
Record det_st := DetSt {
  out_buf : list Z;
  ex_buf : list Z;
  det_env : env W R
}.

Context (c : det_cfg).

(** ** Accesses *)

Definition lift {A} (m : stage (env W R) A) : stage det_st A := fun s =>
  match m (det_env s) with
  | Next a e => Next a (DetSt (out_buf s) (ex_buf s) e)
  | Abandon e => Abandon (DetSt (out_buf s) (ex_buf s) e)
  | Leave e => Leave (DetSt (out_buf s) (ex_buf s) e)
  | Fatal => Fatal
  | OutOfBounds => OutOfBounds
  | NoRandom => NoRandom
  | Unfinished => Unfinished
  end.

Definition load_out (off n : Z) : stage det_st (list Z) := fun s =>
  within (load (out_buf s) off n) s.

Definition store_out (off : Z) (bs : list Z) : stage det_st unit := fun s =>
  match store (out_buf s) off bs with
  | Some b => Next tt (DetSt b (ex_buf s) (det_env s))
  | None => OutOfBounds
  end.

(** [out_buf[i]] and [*(u16 * )(out_buf + i)], [*(u32 * )(out_buf + i)], of [n] bytes on a
    little-endian machine. *)
Definition load_word (n : nat) (i : Z) : stage det_st Z :=
  bs ← load_out i (Z.of_nat n); mret (le_word bs).

Definition store_word (n : nat) (i v : Z) : stage det_st unit :=
  store_out i (le_bytes n v).

(** [if (common_fuzz_stuff(afl, buf, len)) { goto abandon_entry; }] *)
Definition fuzz (buf : list Z) (len : Z) : stage (env W R) unit :=
  b ← common_fuzz_stuff (min_length c) (max_length c) buf len;
  if (b : bool) then abandon_entry else mret tt.

Definition fuzz_out : stage det_st unit := fun s => lift (fuzz (out_buf s) (len c)) s.

(** The head of the loops: [bitmap_read(skip_eff_map, i)] and [is_det_timeout]. *)
Definition guarded {S} (up : forall A, stage (env W R) A -> stage S A) (i : Z)
  (body : stage S unit) : stage S unit :=
  b ← within (bitmap_read (skip_eff_map c) i);
  if (b : bool) then
    t ← up _ (is_det_timeout (before_det_time c) false);
    if (t : bool) then custom_mutator_stage else body
  else mret tt.

Definition at_byte (i : Z) (body : stage det_st unit) : stage det_st unit :=
  guarded (@lift) i body.

(** ** Bit flips *)

Definition FLIP_BIT (b : Z) : stage det_st unit :=
  v ← load_word 1 (Z.shiftr b 3);
  store_word 1 (Z.shiftr b 3) (u8 (Z.lxor v (Z.shiftr 128 (Z.land b 7)))).

(** [a_collect], [a_len] and [prev_cksum]. *)
Record collect := Collect {
  a_collect : list Z;
  a_len : Z;
  prev_cksum : Z
}.

Definition collect_byte (v : Z) (k : collect) : option collect :=
  b ← (if a_len k <? MAX_AUTO_EXTRA then put (a_collect k) (a_len k) v else Some (a_collect k));
  Some (Collect b (u32 (a_len k + 1)) (prev_cksum k)).

(** [if (a_len >= MIN_AUTO_EXTRA && ...) maybe_add_auto(afl, a_collect, a_len);] *)
Definition flush_token (k : collect) : stage (env W R) unit :=
  if (MIN_AUTO_EXTRA <=? a_len k) && (a_len k <=? MAX_AUTO_EXTRA) then
    mem ← within (load (a_collect k) 0 (a_len k));
    maybe_add_auto_env mem
  else mret tt.

(** The detection of tokens after the last bit of a byte, whose value is [v]. *)
Definition detect_token (last : bool) (clean_cksum v : Z) (k : collect) :
  stage (env W R) collect :=
  cksum ← cksum_env;
  k ← (if last && (cksum =? prev_cksum k) then
         k ← within (collect_byte v k);
         flush_token k;;
         mret k
       else if negb (cksum =? prev_cksum k) then
         flush_token k;;
         mret (Collect (a_collect k) 0 cksum)
       else mret k);
  if negb (cksum =? clean_cksum) then within (collect_byte v k) else mret k.

(** [bitflip 1/1]: one position. *)
Definition flip1_step (stage_max clean_cksum : Z) (stage_cur : Z) (k : collect) :
  stage det_st collect :=
  b ← within (bitmap_read (skip_eff_map c) (Z.shiftr stage_cur 3));
  if negb b then mret k
  else
    t ← lift (is_det_timeout (before_det_time c) false);
    if (t : bool) then custom_mutator_stage
    else
      FLIP_BIT stage_cur;;
      fuzz_out;;
      FLIP_BIT stage_cur;;
      if negb (non_instrumented_mode c) && (Z.land stage_cur 7 =? 7) then
        v ← load_word 1 (Z.shiftr stage_cur 3);
        lift (detect_token (stage_cur =? u32 (stage_max - 1)) clean_cksum v k)
      else mret k.

(** The array [a_collect] is not initialised. *)
Definition flip1 (junk : list Z) : stage det_st unit :=
  let stage_max := u32 (Z.shiftl (len c) 3) in
  fuzz_out;;
  cksum ← lift cksum_env;
  each_with (seqZ 0 stage_max) (flip1_step stage_max cksum) (Collect junk 0 cksum);;
  mret tt.

(** [bitflip 2/1] and [bitflip 4/1]: [n] bits from each bit on. *)
Definition flip_bits (n : Z) (stage_cur : Z) : stage det_st unit :=
  each (seqZ 0 n) (fun k => FLIP_BIT (stage_cur + k)).

Definition walking_bits (n : Z) : stage det_st unit :=
  each (seqZ 0 (u32 (Z.shiftl (len c) 3 - (n - 1)))) (fun stage_cur =>
    at_byte (Z.shiftr stage_cur 3) (
      flip_bits n stage_cur;;
      fuzz_out;;
      flip_bits n stage_cur)).

(** [bitflip 8/8], [bitflip 16/8] and [bitflip 32/8]: words of [n] bytes. *)
Definition flip_word (n : nat) (i : Z) : stage det_st unit :=
  v ← load_word n i;
  store_word n i (Z.lxor v (Z.ones (8 * Z.of_nat n))).

Definition walking_bytes (n : nat) : stage det_st unit :=
  each (seqZ 0 (u32 (len c - (Z.of_nat n - 1)))) (fun i =>
    at_byte i (
      flip_word n i;;
      fuzz_out;;
      flip_word n i)).

Definition bitflips (junk : list Z) : stage det_st unit :=
  flip1 junk;;
  walking_bits 2;;
  walking_bits 4;;
  walking_bytes 1;;
  if len c <? 2 then mret tt
  else
    walking_bytes 2;;
    if len c <? 4 then mret tt else walking_bytes 4.

(** ** Arithmetic *)

(** [if (cond && !could_be_bitflip(r)) { write v; run }] *)
Definition try_word (n : nat) (i : Z) (cond : bool) (r v : Z) : stage det_st unit :=
  if (cond : bool) then
    b ← within (could_be_bitflip r);
    if (b : bool) then mret tt
    else store_word n i v;; fuzz_out
  else mret tt.

Definition arith8 : stage det_st unit :=
  each (seqZ 0 (len c)) (fun i =>
    orig ← load_word 1 i;
    at_byte i (
      each (seqZ 1 ARITH_MAX) (fun j =>
        try_word 1 i true (u8 (Z.lxor orig (orig + j))) (u8 (orig + j));;
        try_word 1 i true (u8 (Z.lxor orig (u32 (orig - j)))) (u8 (orig - j));;
        store_word 1 i orig))).

Definition arith16 : stage det_st unit :=
  each (seqZ 0 (u32 (len c - 1))) (fun i =>
    orig ← load_word 2 i;
    at_byte i (
      each (seqZ 1 ARITH_MAX) (fun j =>
        let r1 := u16 (Z.lxor orig (orig + j)) in
        let r2 := u16 (Z.lxor orig (u32 (orig - j))) in
        let r3 := u16 (Z.lxor orig (SWAP16 (SWAP16 orig + j))) in
        let r4 := u16 (Z.lxor orig (SWAP16 (SWAP16 orig - j))) in
        try_word 2 i (Z.land orig 0xff + j >? 0xff) r1 (u16 (orig + j));;
        try_word 2 i (Z.land orig 0xff <? j) r2 (u16 (orig - j));;
        try_word 2 i (Z.shiftr orig 8 + j >? 0xff) r3 (SWAP16 (SWAP16 orig + j));;
        try_word 2 i (Z.shiftr orig 8 <? j) r4 (SWAP16 (SWAP16 orig - j));;
        store_word 2 i orig))).

Definition arith32 : stage det_st unit :=
  each (seqZ 0 (u32 (len c - 3))) (fun i =>
    orig ← load_word 4 i;
    at_byte i (
      each (seqZ 1 ARITH_MAX) (fun j =>
        let r1 := Z.lxor orig (u32 (orig + j)) in
        let r2 := Z.lxor orig (u32 (orig - j)) in
        let r3 := Z.lxor orig (SWAP32 (u32 (SWAP32 orig + j))) in
        let r4 := Z.lxor orig (SWAP32 (u32 (SWAP32 orig - j))) in
        try_word 4 i (Z.land orig 0xffff + j >? 0xffff) r1 (u32 (orig + j));;
        try_word 4 i (Z.land orig 0xffff <? j) r2 (u32 (orig - j));;
        try_word 4 i (Z.land (SWAP32 orig) 0xffff + j >? 0xffff) r3
          (SWAP32 (u32 (SWAP32 orig + j)));;
        try_word 4 i (Z.land (SWAP32 orig) 0xffff <? j) r4
          (SWAP32 (u32 (SWAP32 orig - j)));;
        store_word 4 i orig))).

Definition ariths : stage det_st unit :=
  if no_arith c then mret tt
  else
    arith8;;
    if len c <? 2 then mret tt
    else
      arith16;;
      if len c <? 4 then mret tt else arith32.

(** ** Interesting values *)

Definition interest8 : stage det_st unit :=
  each (seqZ 0 (len c)) (fun i =>
    orig ← load_word 1 i;
    at_byte i (
      each interesting_8 (fun x =>
        b ← within (could_be_bitflip (Z.lxor orig (u8 x)));
        if (b : bool) || could_be_arith orig (u8 x) 1 then mret tt
        else
          store_word 1 i (u8 x);;
          fuzz_out;;
          store_word 1 i orig))).

(** One endianness: [v] unless an earlier stage has made it. *)
Definition try_interest (n : nat) (i orig v : Z) (check_le : bool) : stage det_st unit :=
  b ← within (could_be_bitflip (Z.lxor orig v));
  if negb b && negb (could_be_arith orig v (Z.of_nat n)) &&
     negb (could_be_interest orig v (Z.of_nat n) check_le)
  then store_word n i v;; fuzz_out
  else mret tt.

Definition interest16 : stage det_st unit :=
  each (seqZ 0 (u32 (len c - 1))) (fun i =>
    orig ← load_word 2 i;
    at_byte i (
      each interesting_16 (fun x =>
        try_interest 2 i orig (u16 x) false;;
        if negb (u16 x =? SWAP16 x) then try_interest 2 i orig (SWAP16 x) true else mret tt);;
      store_word 2 i orig)).

Definition interest32 : stage det_st unit :=
  each (seqZ 0 (u32 (len c - 3))) (fun i =>
    orig ← load_word 4 i;
    at_byte i (
      each interesting_32 (fun x =>
        try_interest 4 i orig (u32 x) false;;
        if negb (u32 x =? SWAP32 x) then try_interest 4 i orig (SWAP32 x) true else mret tt);;
      store_word 4 i orig)).

Definition interests : stage det_st unit :=
  interest8;;
  if no_arith c || (len c <? 2) then mret tt
  else
    interest16;;
    if len c <? 4 then mret tt else interest32.

(** ** Dictionaries *)

(** The probabilistic test: [extras_cnt > max_det_extras && rand_below(...) >= ...]. *)
Definition skip_extra (extras_cnt : Z) : stage (env W R) bool :=
  if extras_cnt >? max_det_extras c then
    r ← rand_below_env extras_cnt;
    mret (max_det_extras c <=? r)
  else mret false.

(** The loop over the tokens at [i]; the variable is [last_len]. *)
Definition overwrite_token (skips : stage (env W R) bool) (i : Z) (tok : list Z) (last_len : Z) :
  stage det_st Z :=
  r ← lift skips;
  if (r : bool) || (zlen tok >? u32 (len c - i)) then mret last_len
  else
    cur ← load_out i (zlen tok);
    if bool_decide (tok = cur) then mret last_len
    else
      store_out i tok;;
      fuzz_out;;
      mret (zlen tok).

Definition overwrite_stage (skips : stage (env W R) bool) (toks : list (list Z)) : stage det_st unit :=
  each (seqZ 0 (len c)) (fun i =>
    at_byte i (
      last_len ← each_with toks (overwrite_token skips i) 0;
      bs ← within (load (in_buf c) i last_len);
      store_out i bs)).

Definition store_ex (off : Z) (bs : list Z) : stage det_st unit := fun s =>
  match store (ex_buf s) off bs with
  | Some b => Next tt (DetSt (out_buf s) b (det_env s))
  | None => OutOfBounds
  end.

Definition fuzz_ex (n : Z) : stage det_st unit := fun s => lift (fuzz (ex_buf s) n) s.

Definition insert_token (i : Z) (tok : list Z) : stage det_st unit :=
  if len c + zlen tok >? MAX_FILE then mret tt
  else
    store_ex i tok;;
    tail ← load_out i (u32 (len c - i));
    store_ex (i + zlen tok) tail;;
    fuzz_ex (u32 (len c + zlen tok)).

Definition realloc_ex : stage det_st unit := fun s =>
  Next tt (DetSt (out_buf s) (afl_realloc (ex_buf s) (len c + MAX_DICT_FILE)) (det_env s)).

Definition insert_stage (toks : list (list Z)) : stage det_st unit :=
  realloc_ex;;
  each (seqZ 0 (len c + 1)) (fun i =>
    at_byte (i mod len c) (
      each toks (insert_token i);;
      v ← load_out i 1;
      store_ex i v)).

Definition user_extras : stage det_st unit := fun s =>
  let toks := x_extras (e_extras (det_env s)) in
  match toks with
  | [] => Next tt s
  | _ => (overwrite_stage (skip_extra (zlen toks)) toks;; insert_stage toks) s
  end.

Definition auto_extras : stage det_st unit := fun s =>
  let toks := map a_data (x_a_extras (e_extras (det_env s))) in
  match toks with
  | [] => Next tt s
  | _ =>
      (overwrite_stage (mret false) (take (Z.to_nat (Z.min (zlen toks) USE_AUTO_EXTRAS)) toks);;
       insert_stage toks) s
  end.

(** The deterministic stages in their order; when they return, the caller marks the entry
    as passed. *)
Definition det_stages (junk : list Z) : stage det_st unit :=
  bitflips junk;;
  ariths;;
  interests;;
  user_extras;;
  auto_extras.
End Det.
Arguments det_st : clear implicits.
