(* ===== verification/DetSpec.v ===== *)
(** * What the deterministic stages are meant to do

    The stages without buffers: for each byte that counts, in order, the inputs that are
    made of the test case [d] there, each run once.  An input is a list of bytes, and no
    stage sees what another has done. *)

From S2P Require Import Prelude Res Rng MutTables Mutations Diffs TextCheck Extras Tmin Stage Det.

(** ** Inputs *)

(** [d] with bit [k] flipped, counted from the most significant one of the first byte;
    with [n] bits flipped from [k] on. *)
Definition flip_bit (d : list Z) (k : Z) : list Z :=
  alter (fun v => Z.lxor v (Z.shiftr 128 (Z.land k 7))) (Z.to_nat (Z.shiftr k 3)) d.

Definition flip_run (n k : Z) (d : list Z) : list Z :=
  foldl (fun d m => flip_bit d (k + m)) d (seqZ 0 n).

(** [n] bytes inverted at [i]; the word of [n] bytes at [i]; another word there. *)
Definition invert (n i : Z) (d : list Z) : list Z :=
  splice_at d i (map (fun v => Z.lxor v 255) (slice d i n)).

Definition word_at (n : nat) (i : Z) (d : list Z) : Z := le_word (slice d i (Z.of_nat n)).

Definition set_word (n : nat) (i v : Z) (d : list Z) : list Z := splice_at d i (le_bytes n v).

(** A bit flip makes [v] of [o]. *)
Definition flippable (o v : Z) : bool := bool_decide (could_be_bitflip (Z.lxor o v) = Some true).

(** The sums and differences with [j]: in the order of the bytes of the machine and in the
    other; the first component is whether more than the low half changes. *)
Definition sums (n : nat) (o j : Z) : list (bool * Z) :=
  match n with
  | 1%nat => [(true, u8 (o + j)); (true, u8 (o - j))]
  | 2%nat =>
      [(Z.land o 0xff + j >? 0xff, u16 (o + j)); (Z.land o 0xff <? j, u16 (o - j));
       (Z.shiftr o 8 + j >? 0xff, SWAP16 (SWAP16 o + j));
       (Z.shiftr o 8 <? j, SWAP16 (SWAP16 o - j))]
  | _ =>
      [(Z.land o 0xffff + j >? 0xffff, u32 (o + j)); (Z.land o 0xffff <? j, u32 (o - j));
       (Z.land (SWAP32 o) 0xffff + j >? 0xffff, SWAP32 (u32 (SWAP32 o + j)));
       (Z.land (SWAP32 o) 0xffff <? j, SWAP32 (u32 (SWAP32 o - j)))]
  end.

Definition chosen (o : Z) (l : list (bool * Z)) : list Z :=
  map snd (filter (fun p => (p.1 && negb (flippable o p.2)) = true) l).

Definition arith_values (n : nat) (o : Z) : list Z :=
  mjoin (map (fun j => chosen o (sums n o j)) (seqZ 1 ARITH_MAX)).

(** The values of a table, in both orders, that no earlier stage makes. *)
Definition fresh (n : nat) (check_le : bool) (o v : Z) : bool :=
  negb (flippable o v) && negb (could_be_arith o v (Z.of_nat n)) &&
  negb (could_be_interest o v (Z.of_nat n) check_le).

Definition interest_values (n : nat) (o : Z) : list Z :=
  match n with
  | 1%nat =>
      filter (fun v => (negb (flippable o v) && negb (could_be_arith o v 1)) = true)
        (map u8 interesting_8)
  | 2%nat =>
      mjoin (map (fun x => filter (fun v => fresh 2 false o v = true) [u16 x] ++
                           filter (fun v => (negb (u16 x =? v) && fresh 2 true o v) = true) [SWAP16 x])
        interesting_16)
  | _ =>
      mjoin (map (fun x => filter (fun v => fresh 4 false o v = true) [u32 x] ++
                           filter (fun v => (negb (u32 x =? v) && fresh 4 true o v) = true) [SWAP32 x])
        interesting_32)
  end.

Section Spec.
Context {W R : Type} `{Fuzzer W} `{RandSource R} `{Qsort}.
Context (c : det_cfg) (d : list Z).

(** ** Stages *)

Definition run (x : list Z) : stage (env W R) unit := fuzz c x (zlen x).

Definition spec_at (i : Z) (body : stage (env W R) unit) : stage (env W R) unit :=
  guarded c (fun _ m => m) i body.

(** The inputs [f i] for the positions below [n], guarded by the byte [pos i]. *)
Definition spec_stage (n : Z) (pos : Z -> Z) (f : Z -> list (list Z)) : stage (env W R) unit :=
  each (seqZ 0 n) (fun i => spec_at (pos i) (each (f i) run)).

Definition spec_words (n : nat) (values : Z -> list Z) : stage (env W R) unit :=
  spec_stage (zlen d - (Z.of_nat n - 1)) (fun i => i) (fun i =>
    map (fun v => set_word n i v d) (values (word_at n i d))).

Definition spec_flip1 (junk : list Z) : stage (env W R) unit :=
  run d;;
  cksum ← cksum_env;
  each_with (seqZ 0 (8 * zlen d)) (fun i k =>
    b ← within (bitmap_read (skip_eff_map c) (i / 8));
    if negb b then mret k
    else
      t ← is_det_timeout (before_det_time c) false;
      if (t : bool) then custom_mutator_stage
      else
        run (flip_bit d i);;
        if negb (non_instrumented_mode c) && (i mod 8 =? 7) then
          detect_token (i =? 8 * zlen d - 1) cksum (default 0 (d !! Z.to_nat (i / 8))) k
        else mret k) (Collect junk 0 cksum);;
  mret tt.

Definition spec_bits (n : Z) : stage (env W R) unit :=
  spec_stage (8 * zlen d - (n - 1)) (fun i => i / 8) (fun i => [flip_run n i d]).

Definition spec_bytes (n : Z) : stage (env W R) unit :=
  spec_stage (zlen d - (n - 1)) (fun i => i) (fun i => [invert n i d]).

Definition spec_bitflips (junk : list Z) : stage (env W R) unit :=
  spec_flip1 junk;; spec_bits 2;; spec_bits 4;; spec_bytes 1;; spec_bytes 2;; spec_bytes 4.

Definition spec_ariths : stage (env W R) unit :=
  if no_arith c then mret tt
  else spec_words 1 (arith_values 1);; spec_words 2 (arith_values 2);; spec_words 4 (arith_values 4).

Definition spec_interests : stage (env W R) unit :=
  spec_words 1 (interest_values 1);;
  if no_arith c then mret tt
  else spec_words 2 (interest_values 2);; spec_words 4 (interest_values 4).

(** Tokens in place of what is at [i], one after the other, but not the same input twice
    in a row. *)
Definition spec_overwrite (skips : stage (env W R) bool) (toks : list (list Z)) :
  stage (env W R) unit :=
  each (seqZ 0 (zlen d)) (fun i => spec_at i (
    each_with toks (fun tok last =>
      r ← skips;
      if (r : bool) || (zlen tok >? zlen d - i) || bool_decide (splice_at d i tok = last)
      then mret last
      else run (splice_at d i tok);; mret (splice_at d i tok)) d;;
    mret tt)).

(** Tokens inserted at [i]. *)
Definition insertion (i : Z) (tok : list Z) : list Z :=
  take (Z.to_nat i) d ++ tok ++ drop (Z.to_nat i) d.

Definition fitting (toks : list (list Z)) : list (list Z) :=
  filter (fun tok => zlen d + zlen tok <= MAX_FILE) toks.

Definition spec_insert (toks : list (list Z)) : stage (env W R) unit :=
  spec_stage (zlen d + 1) (fun i => i mod zlen d) (fun i => map (insertion i) (fitting toks)).

(** What the code does: the bytes before the token come from [head], the first bytes of
    the scratch buffer, and byte [i] of it is only set when the stage has been at [i]. *)
Definition insertion_from (head : list Z) (i : Z) (tok : list Z) : list Z :=
  take (Z.to_nat i) head ++ tok ++ drop (Z.to_nat i) d.

Definition actual_insert (toks : list (list Z)) (head : list Z) : stage (env W R) (list Z) :=
  each_with (seqZ 0 (zlen d + 1)) (fun i head =>
    b ← within (bitmap_read (skip_eff_map c) (i mod zlen d));
    if negb b then mret head
    else
      t ← is_det_timeout (before_det_time c) false;
      if (t : bool) then custom_mutator_stage
      else
        head ← each_with (fitting toks) (fun tok head =>
          run (insertion_from head i tok);;
          mret (take (length d) (insertion_from head i tok))) head;
        mret (splice_at head i (slice d i 1))) head.

(** Both dictionary stages return what they leave in the scratch buffer. *)
Definition spec_user_extras (head : list Z) : stage (env W R) (list Z) := fun e =>
  let toks := x_extras (e_extras e) in
  match toks with
  | [] => Next head e
  | _ => (spec_overwrite (skip_extra c (zlen toks)) toks;; actual_insert toks head) e
  end.

Definition spec_auto_extras (head : list Z) : stage (env W R) (list Z) := fun e =>
  let toks := map a_data (x_a_extras (e_extras e)) in
  match toks with
  | [] => Next head e
  | _ =>
      (spec_overwrite (mret false) (take (Z.to_nat USE_AUTO_EXTRAS) toks);;
       actual_insert toks head) e
  end.

Definition spec_stages (junk head : list Z) : stage (env W R) unit :=
  spec_bitflips junk;;
  spec_ariths;;
  spec_interests;;
  head ← spec_user_extras head;
  spec_auto_extras head;;
  mret tt.
End Spec.
