(* ===== verification/DetSim.v ===== *)
(** * Relating stages that work in place with their specification

    [sim]: from a given [out_buf] and scratch buffer, a stage and its specification take
    the same way out in the same environment; the buffers afterwards satisfy the
    postcondition.  A jump to [custom_mutator_stage] finds [out_buf] as it was at first. *)

From S2P Require Import Prelude Res Rng MutTables Mutations Diffs TextCheck Extras ExtrasFacts Tmin Stage Det DetSpec.

Section Sim.
Context {W R : Type} `{Fuzzer W} `{RandSource R} `{Qsort}.
Context (c : det_cfg) (b : list Z).

(** The tokens are in the order of their lengths, the automatic ones as far as they are
    used. *)
Record tokens_ok (e : env W R) : Prop := TokensOk {
  to_user : by_len (x_extras (e_extras e));
  to_auto : by_len (take (Z.to_nat USE_AUTO_EXTRAS) (map a_data (x_a_extras (e_extras e))));
  to_user_len : Forall (fun t => zlen t <= MAX_DICT_FILE) (x_extras (e_extras e));
  to_auto_len : Forall (fun t => zlen t <= MAX_DICT_FILE) (map a_data (x_a_extras (e_extras e)))
}.

Definition sim {A B} (o x : list Z) (m : stage (det_st W R) A) (p : stage (env W R) B)
  (Q : A -> B -> list Z -> list Z -> Prop) : Prop :=
  forall e, tokens_ok e ->
  match m (DetSt o x e), p e with
  | Next a s, Next a' e' => Q a a' (out_buf s) (ex_buf s) /\ det_env s = e' /\ tokens_ok e'
  | Abandon s, Abandon e' => det_env s = e'
  | Leave s, Leave e' => det_env s = e' /\ out_buf s = b
  | Fatal, Fatal => True
  | NoRandom, NoRandom => True
  | _, _ => False
  end.

(** ** Rules *)

Lemma sim_ret {A B} o x (a : A) (a' : B) (Q : _ -> _ -> _ -> _ -> Prop) :
  Q a a' o x -> sim o x (mret a) (mret a') Q.
Proof. intros HQ e He. by split. Qed.

Lemma sim_bind {A B A' B'} o x (m : stage (det_st W R) A) (p : stage (env W R) B)
  (k : A -> stage (det_st W R) A') (k' : B -> stage (env W R) B') P Q :
  sim o x m p P ->
  (forall a a' o' x', P a a' o' x' -> sim o' x' (k a) (k' a') Q) ->
  sim o x (m ≫= k) (p ≫= k') Q.
Proof.
  intros Hm Hk e He. specialize (Hm e He). unfold mbind, stage_bind.
  destruct (m (DetSt o x e)) as [a [o' x' e1]| | | | | |], (p e) as [a' e'| | | | | |]; try done.
  destruct Hm as (HP&Henv&He'). cbn in *. subst e1. by apply Hk.
Qed.

(** A step that has no counterpart. *)
Lemma sim_left {A A' B} o x o' x' (m : stage (det_st W R) A) a (k : A -> stage (det_st W R) A')
  (p : stage (env W R) B) Q :
  (forall e, m (DetSt o x e) = Next a (DetSt o' x' e)) ->
  sim o' x' (k a) p Q -> sim o x (m ≫= k) p Q.
Proof. intros Hm Hk e He. unfold mbind, stage_bind. rewrite Hm. by apply Hk. Qed.

Lemma sim_last {B} o x o' x' (m : stage (det_st W R) unit) (a' : B) (Q : _ -> _ -> _ -> _ -> Prop) :
  (forall e, m (DetSt o x e) = Next tt (DetSt o' x' e)) -> Q tt a' o' x' ->
  sim o x m (mret a') Q.
Proof. intros Hm HQ e He. rewrite Hm. by split. Qed.

Lemma sim_mono {A B} o x (m : stage (det_st W R) A) (p : stage (env W R) B) (P Q : _ -> _ -> _ -> _ -> Prop) :
  sim o x m p P -> (forall a a' o' x', P a a' o' x' -> Q a a' o' x') -> sim o x m p Q.
Proof.
  intros Hm Hk e He. specialize (Hm e He).
  destruct (m (DetSt o x e)), (p e); try done. destruct Hm as (?&?&?). auto.
Qed.

(** The specification may be exchanged for one that behaves alike. *)
Lemma sim_spec {A B} o x (m : stage (det_st W R) A) (p p' : stage (env W R) B) Q :
  (forall e, p e = p' e) -> sim o x m p Q -> sim o x m p' Q.
Proof. intros Hp Hm e He. rewrite <- Hp. by apply Hm. Qed.

Lemma sim_code_assoc {A} o x (m k : stage (det_st W R) unit) (l : stage (det_st W R) A) (p : stage (env W R) unit) Q :
  sim o x ((m;; k);; l) p Q -> sim o x (m;; k;; l) p Q.
Proof. intros Hm e He. specialize (Hm e He). by rewrite bind_assoc in Hm. Qed.

(** ** Steps of the environment *)

(** No access outside, no jump, the tokens keep their order, and the value satisfies [Q]. *)
Definition env_ok {A} (m : stage (env W R) A) (Q : A -> Prop) : Prop :=
  forall e, tokens_ok e ->
  match m e with
  | Next a e' => tokens_ok e' /\ Q a
  | Leave _ | OutOfBounds | Unfinished => False
  | _ => True
  end.

Abbreviation env_safe m := (env_ok m (fun _ => True)).

Lemma sim_lift {A} o x (m : stage (env W R) A) Q :
  env_ok m Q -> sim o x (lift m) m (fun a a' o' x' => a = a' /\ o' = o /\ x' = x /\ Q a).
Proof. intros Hm e He. specialize (Hm e He). unfold lift. cbn. destruct (m e); try done. by destruct Hm. Qed.

Lemma env_ok_bind {A B} (m : stage (env W R) A) (k : A -> stage (env W R) B) P Q :
  env_ok m P -> (forall a, P a -> env_ok (k a) Q) -> env_ok (m ≫= k) Q.
Proof.
  intros Hm Hk e He. specialize (Hm e He). unfold mbind, stage_bind.
  destruct (m e); try done. apply Hk; tauto.
Qed.

Lemma env_ok_ret {A} (a : A) (Q : A -> Prop) : Q a -> env_ok (mret a) Q.
Proof. by intros HQ e He. Qed.

Lemma env_ok_within {A} (v : A) (Q : A -> Prop) : Q v -> env_ok (within (Some v)) Q.
Proof. by intros HQ e He. Qed.

Lemma env_ok_cksum : env_safe cksum_env.
Proof. by intros e He. Qed.

(** What keeps the tokens keeps their order. *)
Lemma tokens_ok_same e e' : e_extras e' = e_extras e -> tokens_ok e -> tokens_ok e'.
Proof. intros E []. by constructor; rewrite E. Qed.

Lemma env_ok_timeout t f : env_safe (is_det_timeout t f).
Proof. intros e He. unfold is_det_timeout. destruct (get_cur_time _). split; [|done]. by apply (tokens_ok_same e). Qed.

Lemma env_ok_rand l : env_safe (rand_below_env l).
Proof. intros e He. unfold rand_below_env. destruct (rs_below _ _) as [[]|]; [|done]. split; [|done]. by apply (tokens_ok_same e). Qed.

Lemma env_ok_run_written v : env_safe (run_written v).
Proof.
  intros e He. unfold run_written. repeat (case_match; simplify_eq; try done); (split; [by apply (tokens_ok_same e)|done]).
Qed.

Lemma env_ok_fuzz buf n :
  0 <= n <= zlen buf -> min_length c <= n -> 0 <= max_length c -> env_safe (fuzz c buf n).
Proof.
  intros Hn Hmin Hmax. unfold fuzz, common_fuzz_stuff. eapply env_ok_bind.
  - eapply env_ok_bind; [|intros; apply env_ok_run_written].
    unfold write_to_testcase. rewrite (proj2 (Z.ltb_ge _ _)) by done. cbn [andb].
    destruct (n >? max_length c) eqn:E; rewrite load_Some by lia; by apply (env_ok_within _ (fun _ => True)).
  - intros [] _; [by intros e He|by apply env_ok_ret].
Qed.

(** Only the bytes that are run count. *)
Lemma fuzz_slice buf n (e : env W R) :
  0 <= n <= zlen buf -> min_length c <= n -> 0 <= max_length c ->
  fuzz c buf n e = run c (slice buf 0 n) e.
Proof.
  intros Hn Hmin Hmax. unfold run, fuzz, common_fuzz_stuff, write_to_testcase.
  rewrite zlen_slice by lia. rewrite (proj2 (Z.ltb_ge _ _)) by done. cbn [andb].
  assert (forall l, 0 <= l <= n -> load buf 0 l = load (slice buf 0 n) 0 l) as Hl.
  { intros l Hl. rewrite !load_Some by (rewrite ?zlen_slice; lia). f_equal.
    rewrite !slice_0, take_take. f_equal. lia. }
  destruct (n >? max_length c) eqn:E; rewrite Hl by lia; done.
Qed.

(** ** Loops *)

Lemma sim_each {A} (l : list A) (f : A -> stage (det_st W R) unit) (g : A -> stage (env W R) unit)
  (J : list Z -> list Z -> Prop) o x :
  J o x ->
  (forall i o x, i ∈ l -> J o x -> sim o x (f i) (g i) (fun _ _ => J)) ->
  sim o x (each l f) (each l g) (fun _ _ => J).
Proof.
  revert o x. induction l as [|i l IH]; intros o x HJ Hf; [by apply sim_ret|].
  cbn [each]. eapply sim_bind; [apply Hf; [left|done]|].
  intros ? ? o' x' HJ'. apply IH; [done|]. intros. apply Hf; [by right|done].
Qed.

Lemma sim_each_with {A B C} (l : list A) (f : A -> B -> stage (det_st W R) B)
  (g : A -> C -> stage (env W R) C) (J : B -> C -> list Z -> list Z -> Prop) o x v v' :
  J v v' o x ->
  (forall i v v' o x, i ∈ l -> J v v' o x -> sim o x (f i v) (g i v') J) ->
  sim o x (each_with l f v) (each_with l g v') J.
Proof.
  revert o x v v'. induction l as [|i l IH]; intros o x v v' HJ Hf; [by apply sim_ret|].
  cbn [each_with]. eapply sim_bind; [apply Hf; [left|done]|].
  intros v1 v1' o' x' HJ'. apply IH; [done|]. intros. apply Hf; [by right|done].
Qed.

(** The code changes a buffer, the specification a value; [J] at the number of turns. *)
Lemma sim_each_value {A C} (l : list A) (f : A -> stage (det_st W R) unit)
  (g : A -> C -> stage (env W R) C) (J : C -> list Z -> list Z -> Prop) o x v :
  J v o x ->
  (forall i v o x, i ∈ l -> J v o x -> sim o x (f i) (g i v) (fun _ v' => J v')) ->
  sim o x (each l f) (each_with l g v) (fun _ v' => J v').
Proof.
  revert o x v. induction l as [|i l IH]; intros o x v HJ Hf; [by apply sim_ret|].
  cbn [each each_with]. eapply sim_bind; [apply Hf; [left|done]|].
  intros ? v1 o' x' HJ'. apply IH; [done|]. intros. apply Hf; [by right|done].
Qed.

Lemma sim_single {A C} o x (m : stage (det_st W R) A) (y : C) (f : C -> stage (env W R) unit)
  (Q : list Z -> list Z -> Prop) :
  sim o x m (f y) (fun _ _ => Q) -> sim o x m (each [y] f) (fun _ _ => Q).
Proof.
  intros Hm e He. specialize (Hm e He). cbn [each]. unfold mbind, stage_bind.
  by destruct (m (DetSt o x e)), (f y e).
Qed.

Lemma sim_value {B C} o x (m : stage (det_st W R) unit) (p : stage (env W R) B) (v : C)
  P (Q : unit -> C -> list Z -> list Z -> Prop) :
  sim o x m p P -> (forall a o' x', P tt a o' x' -> Q tt v o' x') -> sim o x m (p;; mret v) Q.
Proof.
  intros Hm HQ e He. specialize (Hm e He). unfold mbind, stage_bind.
  destruct (m (DetSt o x e)) as [[] s| | | | | |], (p e) as [a e'| | | | | |]; try done.
  destruct Hm as (?&?&?). split; [by eapply HQ|done].
Qed.

(** A part of the body runs a part of the inputs. *)
Lemma sim_app {A A' C} o x (m : stage (det_st W R) A) (k : A -> stage (det_st W R) A') (l l' : list C)
  (f : C -> stage (env W R) unit) P Q :
  sim o x m (each l f) P ->
  (forall a o' x', P a tt o' x' -> sim o' x' (k a) (each l' f) Q) ->
  sim o x (m ≫= k) (each (l ++ l') f) Q.
Proof.
  intros Hm Hk. eapply sim_spec; [intros e; symmetry; apply each_app|].
  eapply sim_bind; [exact Hm|]. intros a [] o' x' HP. by apply Hk.
Qed.

(** The code loops, the inputs of the turns follow one another. *)
Lemma sim_each_join {A C} (l : list A) (f : A -> stage (det_st W R) unit) (g : A -> list C)
  (run1 : C -> stage (env W R) unit) (J : list Z -> list Z -> Prop) o x :
  J o x ->
  (forall i o x, i ∈ l -> J o x -> sim o x (f i) (each (g i) run1) (fun _ _ => J)) ->
  sim o x (each l f) (each (mjoin (map g l)) run1) (fun _ _ => J).
Proof.
  revert o x. induction l as [|i l IH]; intros o x HJ Hf; [by apply sim_ret|].
  cbn [each map]. change (mjoin (g i :: map g l)) with (g i ++ mjoin (map g l)).
  eapply sim_app; [apply Hf; [left|done]|].
  intros ? o' x' HJ'. apply IH; [done|]. intros. apply Hf; [by right|done].
Qed.
End Sim.

Abbreviation env_safe m := (env_ok m (fun _ => True)).
