(* ===== verification/DetFlips.v ===== *)
(** * Deterministic stages: buffers and bit flips *)

From S2P Require Import Prelude Res Rng MutTables Mutations MutationsFacts Diffs TextCheck Extras ExtrasFacts Tmin Stage Det DetSpec DetSim.

(** ** Overwriting *)

Lemma splice_splice {A} (m : list A) off bs bs' :
  0 <= off -> zlen bs <= zlen bs' -> off + zlen bs <= zlen m ->
  splice_at (splice_at m off bs) off bs' = splice_at m off bs'.
Proof.
  unfold splice_at, zlen. intros. f_equal; [|f_equal].
  - rewrite take_app_le by (rewrite length_take; lia). rewrite take_take. f_equal. lia.
  - rewrite app_assoc, drop_app_ge by (rewrite length_app, length_take; lia).
    rewrite drop_drop, length_app, length_take. f_equal. lia.
Qed.

Lemma slice_splice_within {A} (m : list A) off bs n :
  0 <= off -> off + zlen bs <= n -> n <= zlen m ->
  slice (splice_at m off bs) 0 n = splice_at (slice m 0 n) off bs.
Proof.
  unfold zlen. intros. rewrite !slice_0. unfold splice_at. rewrite take_take.
  rewrite app_assoc, take_app_ge by (rewrite length_app, length_take; lia).
  rewrite <- app_assoc. repeat f_equal; [lia|].
  rewrite length_app, length_take.
  rewrite <- (Nat2Z.id (Z.to_nat n)) at 2. rewrite !skipn_firstn_comm. f_equal. lia.
Qed.

(** Inverting a word inverts its bytes. *)
Lemma lxor_cons a b x y :
  is_u8 a -> is_u8 b -> Z.lxor (a + 256 * x) (b + 256 * y) = Z.lxor a b + 256 * Z.lxor x y.
Proof.
  intros Ha Hb. apply Z.bits_inj'. intros i Hi.
  rewrite Z.lxor_spec, !testbit_cons by first [done | apply lxor_width; [lia|done|done]].
  destruct (i <? 8); by rewrite Z.lxor_spec.
Qed.

Lemma ones_cons n : Z.ones (8 * Z.of_nat (S n)) = 255 + 256 * Z.ones (8 * Z.of_nat n).
Proof.
  replace (8 * Z.of_nat (S n)) with (8 + 8 * Z.of_nat n) by lia.
  rewrite Z.ones_add by lia. change (2 ^ 8) with 256. change (Z.ones 8) with 255. lia.
Qed.

Lemma invert_word bs :
  bytes_ok bs ->
  le_bytes (length bs) (Z.lxor (le_word bs) (Z.ones (8 * zlen bs))) = map (fun v => Z.lxor v 255) bs.
Proof.
  intros Hb. unfold zlen. induction Hb as [|v bs Hv Hbs IH]; [done|]. cbn [length le_word].
  rewrite ones_cons, lxor_cons by done. cbn [le_bytes map].
  assert (is_u8 (Z.lxor v 255)) as Hx by (apply lxor_width; [lia|done|done]).
  unfold in_width in Hx. change (2 ^ 8) with 256 in Hx. f_equal.
  - rewrite Z.mul_comm, Z.mod_add by lia. by apply Z.mod_small.
  - rewrite Z.mul_comm, Z.div_add, Z.div_small by lia. by rewrite Z.add_0_l.
Qed.

Lemma invert_invert (bs : list Z) : map (fun v => Z.lxor v 255) (map (fun v => Z.lxor v 255) bs) = bs.
Proof.
  induction bs as [|v bs IH]; [done|]. cbn. f_equal; [|done].
  by rewrite Z.lxor_assoc, Z.lxor_nilpotent, Z.lxor_0_r.
Qed.

(** ** Flipping bits *)

Lemma length_flip_bit d k : length (flip_bit d k) = length d.
Proof. apply length_alter. Qed.

Lemma flip_bit_twice d k : flip_bit (flip_bit d k) k = d.
Proof.
  unfold flip_bit. rewrite list_alter_alter_eq. apply list_alter_id.
  intros v. cbn. by rewrite Z.lxor_assoc, Z.lxor_nilpotent, Z.lxor_0_r.
Qed.

Lemma flip_bit_comm d k l : flip_bit (flip_bit d k) l = flip_bit (flip_bit d l) k.
Proof.
  unfold flip_bit. destruct (decide (Z.to_nat (Z.shiftr k 3) = Z.to_nat (Z.shiftr l 3))) as [E|E].
  - rewrite E, !list_alter_alter_eq. apply list_alter_ext; [|done].
    intros v _. cbn. rewrite !Z.lxor_assoc. f_equal. apply Z.lxor_comm.
  - rewrite list_alter_alter. by rewrite decide_False.
Qed.

Lemma flips_comm l d k : foldl flip_bit (flip_bit d k) l = flip_bit (foldl flip_bit d l) k.
Proof.
  revert d. induction l as [|m l IH]; intros d; [done|]. cbn. by rewrite flip_bit_comm, IH.
Qed.

Lemma flips_twice l d : foldl flip_bit (foldl flip_bit d l) l = d.
Proof.
  revert d. induction l as [|m l IH]; intros d; [done|]. cbn.
  by rewrite <- flips_comm, flip_bit_twice, IH.
Qed.

Lemma flip_run_bits n k d : flip_run n k d = foldl flip_bit d (map (Z.add k) (seqZ 0 n)).
Proof. unfold flip_run. by rewrite foldl_fmap. Qed.

Lemma length_flips l d : length (foldl flip_bit d l) = length d.
Proof. revert d. induction l as [|m l IH]; intros d; [done|]. cbn. by rewrite IH, length_flip_bit. Qed.

Lemma flip_mask k : is_u8 (Z.shiftr 128 (Z.land k 7)).
Proof.
  change 7 with (Z.ones 3). rewrite Z.land_ones by lia.
  pose proof (Z.mod_pos_bound k (2 ^ 3)). change (2 ^ 3) with 8 in *. split.
  - apply Z.shiftr_nonneg. lia.
  - rewrite Z.shiftr_div_pow2 by lia. pose proof (pow2_pos (k mod 8)).
    apply Z.div_lt_upper_bound; [lia|]. change (2 ^ 8) with 256. nia.
Qed.

Lemma bytes_flip_bit d k : bytes_ok d -> bytes_ok (flip_bit d k).
Proof.
  intros Hd. unfold flip_bit. apply Forall_alter; [done|].
  intros v _ Hv. apply lxor_width; [lia|exact Hv|apply flip_mask].
Qed.

Lemma bytes_flips l d : bytes_ok d -> bytes_ok (foldl flip_bit d l).
Proof. revert d. induction l as [|m l IH]; intros d Hd; [done|]. cbn. by apply IH, bytes_flip_bit. Qed.

Lemma take_flip_bit n d k : take n (flip_bit d k) = flip_bit (take n d) k.
Proof.
  unfold flip_bit. apply list_eq. intros i. destruct (decide (i < n)%nat).
  - rewrite lookup_take_lt by done. destruct (decide (i = Z.to_nat (Z.shiftr k 3))) as [->|].
    + rewrite !list_lookup_alter_eq. by rewrite lookup_take_lt.
    + rewrite !list_lookup_alter_ne by done. by rewrite lookup_take_lt.
  - rewrite lookup_take_ge by lia. symmetry. apply lookup_ge_None. rewrite length_alter, length_take. lia.
Qed.

Lemma take_flips n l d : take n (foldl flip_bit d l) = foldl flip_bit (take n d) l.
Proof. revert d. induction l as [|m l IH]; intros d; [done|]. cbn. by rewrite IH, take_flip_bit. Qed.

(** ** The stages start like this *)

(** [b] is the allocation of [out_buf]: it holds the test case and at least one byte more. *)
Record det_pre (c : det_cfg) (b : list Z) : Prop := DetPre {
  dp_len : 1 <= len c <= MAX_FILE;
  dp_room : len c < zlen b;
  dp_bytes : bytes_ok b;
  dp_in : len c <= zlen (in_buf c) /\ slice (in_buf c) 0 (len c) = slice b 0 (len c);
  dp_map : len c <= 8 * zlen (skip_eff_map c);
  dp_min : min_length c <= len c;
  dp_max : 0 <= max_length c
}.

Section Flips.
Context {W R : Type} `{Fuzzer W} `{RandSource R} `{Qsort}.
Context (c : det_cfg) (b : list Z) (Hpre : det_pre c b).

Definition data : list Z := slice b 0 (len c).

Lemma zlen_data : zlen data = len c.
Proof. destruct Hpre. apply zlen_slice; lia. Qed.

Lemma bytes_data : bytes_ok data.
Proof. apply Forall_slice, Hpre. Qed.

Lemma max_file : MAX_FILE = 1048576.
Proof. done. Qed.

Lemma len31 : 1 <= len c <= 1048576.
Proof. pose proof (dp_len _ _ Hpre). by rewrite max_file in *. Qed.

(** The postcondition of a stage: the buffers are as before. *)
Definition kept {A B} (o0 x0 : list Z) : A -> B -> list Z -> list Z -> Prop :=
  fun _ _ o x => o = o0 /\ x = x0.

Lemma sim_fuzz_out o x :
  zlen o = zlen b -> sim (W:=W) (R:=R) b o x (fuzz_out c) (run c (slice o 0 (len c))) (kept o x).
Proof.
  intros Ho e He. pose proof len31. destruct Hpre. rewrite <- fuzz_slice by lia.
  refine (sim_mono b o x _ _ _ _ (sim_lift b o x (fuzz c o (len c)) (fun _ => True) _) _ e He).
  - apply env_ok_fuzz; lia.
  - by intros a a' o' x' (_&?&?&_).
Qed.

Lemma effective i : 0 <= i < len c -> exists v, bitmap_read (skip_eff_map c) i = Some v.
Proof.
  intros Hi. unfold bitmap_read. pose proof (dp_map _ _ Hpre).
  destruct (get_Some (skip_eff_map c) (i / 8)) as [v ->]; [|by eexists]. dlia.
Qed.

Lemma sim_within {A A' B} o x (v : A) (k : A -> stage (det_st W R) A') (k' : A -> stage (env W R) B) Q :
  sim b o x (k v) (k' v) Q -> sim b o x (within (Some v) ≫= k) (within (Some v) ≫= k') Q.
Proof. intros Hk e He. by apply Hk. Qed.

Lemma sim_leave {A B} x (Q : A -> B -> _ -> _ -> Prop) :
  sim (W:=W) (R:=R) b b x custom_mutator_stage custom_mutator_stage Q.
Proof. by intros e He. Qed.

(** The check of the clock. *)
Lemma sim_clock {A B} x (m : stage (det_st W R) A) (p : stage (env W R) B) Q :
  sim b b x m p Q ->
  sim b b x (t ← lift (is_det_timeout (before_det_time c) false);
             if (t : bool) then custom_mutator_stage else m)
            (t ← is_det_timeout (before_det_time c) false;
             if (t : bool) then custom_mutator_stage else p) Q.
Proof.
  intros Hm. eapply sim_bind; [apply sim_lift, env_ok_timeout|].
  intros t t' o' x' (<-&->&->&_). destruct t; [apply sim_leave|done].
Qed.

Lemma sim_at i x body body' (Q : _ -> _ -> _ -> _ -> Prop) :
  0 <= i < len c -> Q tt tt b x -> sim b b x body body' Q ->
  sim b b x (at_byte c i body) (spec_at (W:=W) (R:=R) c i body') Q.
Proof.
  intros Hi HQ Hb. unfold at_byte, spec_at, guarded.
  destruct (effective i Hi) as [v ->]. apply sim_within.
  destruct v; [by apply sim_clock|by apply sim_ret].
Qed.

(** A stage over positions whose body restores the buffer. *)
Lemma sim_stage n pos pos' (body : Z -> stage (det_st W R) unit) (f : Z -> list (list Z)) x :
  (forall i, 0 <= i < n -> pos i = pos' i /\ 0 <= pos' i < len c) ->
  (forall i, 0 <= i < n -> sim b b x (body i) (each (f i) (run c)) (kept b x)) ->
  sim b b x (each (seqZ 0 n) (fun i => at_byte c (pos i) (body i))) (spec_stage c n pos' f) (kept b x).
Proof.
  intros Hpos Hbody. unfold spec_stage. apply (sim_each b _ _ _ (fun o x' => o = b /\ x' = x)); [done|].
  intros i o x' Hi [-> ->]. apply elem_of_seqZ in Hi. destruct (Hpos i) as [-> ?]; [lia|].
  apply sim_at; [done|done|]. apply Hbody. lia.
Qed.

(** ** Memory steps *)

Lemma load_word_run n i o x (e : env W R) :
  0 <= i -> i + Z.of_nat n <= zlen o ->
  load_word n i (DetSt o x e) = Next (word_at n i o) (DetSt o x e).
Proof.
  intros. unfold load_word, load_out, mbind, stage_bind. cbn [out_buf]. by rewrite load_Some by lia.
Qed.

Lemma store_out_run i bs o x (e : env W R) :
  0 <= i -> i + zlen bs <= zlen o ->
  store_out i bs (DetSt o x e) = Next tt (DetSt (splice_at o i bs) x e).
Proof. intros. unfold store_out. cbn [out_buf]. by rewrite store_Some. Qed.

Lemma store_word_run n i v o x (e : env W R) :
  0 <= i -> i + Z.of_nat n <= zlen o ->
  store_word n i v (DetSt o x e) = Next tt (DetSt (set_word n i v o) x e).
Proof. intros. apply store_out_run; [done|]. by rewrite zlen_le_bytes. Qed.

Lemma FLIP_BIT_run k o x (e : env W R) :
  0 <= k -> k / 8 < zlen o -> bytes_ok o ->
  FLIP_BIT k (DetSt o x e) = Next tt (DetSt (flip_bit o k) x e).
Proof.
  intros Hk Hl Hb. unfold FLIP_BIT, mbind, stage_bind.
  assert (Z.shiftr k 3 = k / 8) as E by (by rewrite Z.shiftr_div_pow2 by lia).
  assert (0 <= k / 8) by (apply Z.div_pos; lia).
  rewrite load_word_run by (rewrite E; lia). rewrite store_word_run by (rewrite E; lia). do 2 f_equal.
  unfold set_word, flip_bit, word_at. rewrite E.
  destruct (slice_one o (k / 8)) as (v&Hs&Hv); [lia|]. change (Z.of_nat 1) with 1. rewrite Hs.
  pose proof (Forall_lookup_1 _ _ _ _ Hb Hv) as Hv8.
  assert (is_u8 (Z.lxor v (Z.shiftr 128 (Z.land k 7)))) as Hx
    by (apply lxor_width; [lia|exact Hv8|apply flip_mask]).
  rewrite (alter_is_insert _ _ _ _ Hv). cbn [le_word le_bytes]. rewrite Z.mul_0_r, Z.add_0_r.
  rewrite (wrap_small 8), Z.mod_small by exact Hx. apply splice_one. lia.
Qed.

Lemma flip_bits_run n k o x (e : env W R) :
  0 <= k -> (k + n - 1) / 8 < zlen o -> bytes_ok o ->
  flip_bits n k (DetSt o x e) = Next tt (DetSt (flip_run n k o) x e).
Proof.
  intros Hk Hn Hb. unfold flip_bits, flip_run.
  assert (Forall (fun m => 0 <= m < n) (seqZ 0 n)) as Hall
    by (apply list.Forall_forall; intros m Hm%elem_of_seqZ; lia).
  revert o Hb Hn. induction Hall as [|m l Hm Hl IH]; intros o Hb Hn; [done|].
  cbn [each foldl]. unfold mbind, stage_bind. rewrite FLIP_BIT_run; [|lia| |done].
  - apply IH; [by apply bytes_flip_bit|]. unfold zlen. by rewrite length_flip_bit.
  - eapply Z.le_lt_trans; [|exact Hn]. apply Z.div_le_mono; lia.
Qed.

Lemma flip_word_run n i o x (e : env W R) :
  0 <= i -> i + Z.of_nat n <= zlen o -> bytes_ok o ->
  flip_word n i (DetSt o x e) = Next tt (DetSt (invert (Z.of_nat n) i o) x e).
Proof.
  intros Hi Hn Hb. unfold flip_word, mbind, stage_bind.
  rewrite load_word_run by lia. rewrite store_word_run by lia. do 2 f_equal.
  unfold set_word, invert, word_at. f_equal.
  assert (zlen (slice o i (Z.of_nat n)) = Z.of_nat n) as Hz by (apply zlen_slice; lia).
  rewrite <- Hz at 2. rewrite <- invert_word by (by apply Forall_slice). f_equal.
  unfold zlen in Hz. lia.
Qed.

(** ** The stages *)

(** Change, run, change back. *)
Lemma sim_there_and_back (m : stage (det_st W R) unit) o x y :
  (forall e, m (DetSt b x e) = Next tt (DetSt o x e)) ->
  (forall e, m (DetSt o x e) = Next tt (DetSt b x e)) ->
  zlen o = zlen b -> slice o 0 (len c) = y ->
  sim b b x (m;; fuzz_out c;; m) (each [y] (run c)) (kept b x).
Proof.
  intros Hto Hback Ho <-. eapply sim_left; [exact Hto|]. cbn [each].
  eapply sim_bind; [by apply sim_fuzz_out|]. intros ? ? o' x' [-> ->].
  eapply sim_last; [exact Hback|done].
Qed.

Lemma sim_walking_bits n x :
  1 <= n <= 8 -> sim b b x (walking_bits c n) (spec_bits (W:=W) (R:=R) c data n) (kept b x).
Proof.
  intros Hn. unfold walking_bits, spec_bits. rewrite zlen_data. pose proof len31.
  pose proof (dp_room _ _ Hpre). pose proof (dp_bytes _ _ Hpre).
  rewrite Z.shiftl_mul_pow2 by lia. change (2 ^ 3) with 8. rewrite wrap_small by (split; lia).
  replace (len c * 8 - (n - 1)) with (8 * len c - (n - 1)) by lia.
  apply sim_stage.
  - intros i Hi. rewrite Z.shiftr_div_pow2 by lia. change (2 ^ 3) with 8. split; [done|dlia].
  - intros i Hi. assert ((i + n - 1) / 8 < zlen b) by dlia.
    apply (sim_there_and_back _ (flip_run n i b)).
    + intros e. by apply flip_bits_run; [lia|..].
    + intros e. rewrite flip_bits_run, !flip_run_bits, flips_twice; [done|lia| |].
      * rewrite flip_run_bits. unfold zlen in *. by rewrite length_flips.
      * rewrite flip_run_bits. by apply bytes_flips.
    + rewrite flip_run_bits. unfold zlen. by rewrite length_flips.
    + unfold data. by rewrite !slice_0, !flip_run_bits, take_flips.
Qed.

Lemma invert_twice n i o :
  0 <= i -> 0 <= n -> i + n <= zlen o -> invert n i (invert n i o) = o.
Proof.
  intros. unfold invert. set (bs := map _ (slice o i n)).
  assert (zlen bs = n) as Hz by (subst bs; unfold zlen; rewrite length_map; by apply zlen_slice).
  rewrite <- Hz at 1. rewrite slice_splice_same by lia. subst bs.
  rewrite invert_invert, splice_splice; [by apply splice_at_id|lia| |lia].
  unfold zlen. by rewrite length_map.
Qed.

Lemma bytes_invert n i o : bytes_ok o -> bytes_ok (invert n i o).
Proof.
  intros Ho. apply Forall_splice_at; [done|]. apply Forall_fmap.
  eapply Forall_impl; [|apply (Forall_slice _ _ i n Ho)]. intros v Hv. by apply lxor_width.
Qed.

Lemma sim_walking_bytes (n : nat) x :
  (1 <= n)%nat -> Z.of_nat n <= len c ->
  sim b b x (walking_bytes c n) (spec_bytes (W:=W) (R:=R) c data (Z.of_nat n)) (kept b x).
Proof.
  intros Hn Hl. unfold walking_bytes, spec_bytes. rewrite zlen_data. pose proof len31.
  pose proof (dp_room _ _ Hpre). pose proof (dp_bytes _ _ Hpre).
  rewrite wrap_small by (split; lia). apply sim_stage; [intros; lia|]. intros i Hi.
  assert (zlen (map (fun v => Z.lxor v 255) (slice b i (Z.of_nat n))) = Z.of_nat n) as Hz
    by (unfold zlen; rewrite length_map; apply zlen_slice; lia).
  assert (zlen (invert (Z.of_nat n) i b) = zlen b) as Hi' by (apply zlen_splice_at; lia).
  apply (sim_there_and_back _ (invert (Z.of_nat n) i b)); [| |done|].
  - intros e. apply flip_word_run; [lia|lia|done].
  - intros e. rewrite flip_word_run, invert_twice; [done|lia|lia|lia|lia|lia|by apply bytes_invert].
  - unfold invert, data. rewrite slice_splice_within by lia. by rewrite slice_slice by lia.
Qed.
End Flips.
