(* ===== verification/DetTokens.v ===== *)
(** * Deterministic stages: token collection and single bit flips *)

From S2P Require Import Prelude Res Rng MutTables Mutations MutationsFacts Diffs TextCheck Extras ExtrasFacts ExtrasAuto Tmin Stage Det DetSpec DetSim DetFlips.

(** ** Automatic tokens stay sorted by length where they are used *)

Definition short (t : list Z) : Prop := zlen t <= MAX_DICT_FILE.

Lemma sort_a_extras_by_len `{Qsort} l :
  Forall short (map a_data l) ->
  by_len (take (Z.to_nat USE_AUTO_EXTRAS) (map a_data (sort_a_extras l))).
Proof.
  intros Hl. unfold sort_a_extras. set (l' := qsort compare_auto_extras_use_d l).
  assert (l' ≡ₚ l) as Hp by apply qsort_perm.
  set (n := Z.to_nat (Z.min USE_AUTO_EXTRAS (zlen l'))).
  assert (length (qsort compare_auto_extras_len (take n l')) = n) as Hn
    by (rewrite qsort_perm, length_take; subst n; unfold zlen; lia).
  replace (take (Z.to_nat USE_AUTO_EXTRAS) _) with (map a_data (qsort compare_auto_extras_len (take n l'))).
  - assert (StronglySorted (fun a b => zlen (a_data a) <= zlen (a_data b))
      (qsort compare_auto_extras_len (take n l'))) as Hs.
    { apply (qsort_sorted _ _ (fun a => zlen (a_data a))). intros a a' Ha Ha'.
      assert (forall a, a ∈ take n l' -> 0 <= zlen (a_data a) <= 128) as Hr.
      { intros y Hy. split; [apply zlen_nonneg|]. apply (proj1 (list.Forall_forall short _) Hl).
        apply list_elem_of_fmap. exists y. split; [done|]. rewrite <- Hp.
        rewrite <- (take_drop n l'). apply elem_of_app. by left. }
      pose proof (Hr a Ha). pose proof (Hr a' Ha'). unfold compare_auto_extras_len.
      rewrite (swrap_small 32) by lia. apply eq_true_iff_eq. rewrite !Z.leb_le. lia. }
    clear Hn. induction Hs as [|a k Hk IH Ha]; cbn; constructor; [done|]. apply Forall_fmap. exact Ha.
  - change (@map auto_extra (list Z) a_data) with (fmap (M:=list) a_data).
    rewrite <- fmap_take. f_equal. subst n. destruct (decide (USE_AUTO_EXTRAS <= zlen l')).
    + rewrite take_app_length'; [done|]. rewrite Hn. lia.
    + rewrite take_app_ge by (rewrite Hn; lia). rewrite drop_ge by (unfold zlen in *; lia).
      by rewrite take_nil, app_nil_r.
Qed.

Lemma sort_a_extras_short `{Qsort} l :
  Forall short (map a_data l) -> Forall short (map a_data (sort_a_extras l)).
Proof.
  intros Hl. change (Forall short (a_data <$> sort_a_extras l)). by rewrite sort_a_extras_perm.
Qed.

Section Tokens.
Context {W R : Type} `{Fuzzer W} `{RandSource R} `{Qsort}.

Lemma tokens_ok_sorted (e : env W R) a r :
  tokens_ok e -> Forall short (map a_data a) ->
  tokens_ok (with_tokens (ExtrasSt (x_extras (e_extras e)) (sort_a_extras a) true) r e).
Proof.
  intros [] Ha. constructor; cbn; [done|by apply sort_a_extras_by_len|done|by apply sort_a_extras_short].
Qed.

Lemma env_ok_add_auto mem : zlen mem <= MAX_AUTO_EXTRA -> env_safe (maybe_add_auto_env (W:=W) (R:=R) mem).
Proof.
  intros Hm e He. unfold maybe_add_auto_env, maybe_add_auto.
  assert (short mem) as Hs by (unfold short, MAX_DICT_FILE, MAX_AUTO_EXTRA in *; lia).
  destruct (same_bytes mem || _); [split; [by apply (tokens_ok_same e)|done]|].
  destruct (builtin_value mem); [split; [by apply (tokens_ok_same e)|done]|].
  destruct (known_extra _ mem); [split; [by apply (tokens_ok_same e)|done]|].
  pose proof (hit_auto_spec (x_a_extras (e_extras e)) mem) as Hhit.
  pose proof (to_auto_len e He) as Hlen. destruct (hit_auto _ mem) as [a|].
  - split; [|done]. apply tokens_ok_sorted; [done|]. destruct Hhit as [Ha _].
    change (map a_data a) with (a_data <$> a). by rewrite Ha.
  - destruct (zlen mem >? _) eqn:E; b2p; [done|]. destruct (_ <? MAX_AUTO_EXTRAS).
    + split; [|done]. apply tokens_ok_sorted; [done|]. rewrite map_app. apply Forall_app. by repeat constructor.
    + destruct (rs_below _ _) as [[k r]|]; [|done]. cbn [mbind option_bind].
      destruct (put _ _ _) as [a|] eqn:Ep; [|done]. cbn [mbind option_bind]. split; [|done].
      apply tokens_ok_sorted; [done|]. apply store_inv in Ep as (?&?&->).
      apply Forall_fmap. apply Forall_splice_at; [exact (proj1 (Forall_fmap a_data _ _) Hlen)|]. by repeat constructor.
Qed.

(** ** Collecting *)

Definition collect_ok (k : collect) : Prop := zlen (a_collect k) = MAX_AUTO_EXTRA /\ 0 <= a_len k.

Lemma collect_byte_ok v k : collect_ok k -> exists k', collect_byte v k = Some k' /\ collect_ok k'.
Proof.
  intros [Hc Hl]. unfold collect_byte.
  assert (0 <= u32 (a_len k + 1)) by (apply wrap_range; lia).
  destruct (a_len k <? MAX_AUTO_EXTRA) eqn:E; b2p.
  - rewrite put_Some by lia. cbn [mbind option_bind]. eexists. split; [done|]. split; [|done].
    cbn. by rewrite zlen_insert.
  - cbn [mbind option_bind]. eexists. split; [done|]. by split.
Qed.

Lemma flush_token_ok k : collect_ok k -> env_safe (flush_token (W:=W) (R:=R) k).
Proof.
  intros [Hc Hl]. unfold flush_token. destruct (_ && _) eqn:E; [|by apply env_ok_ret].
  apply andb_true_iff in E as [E1 E2]. b2p. rewrite load_Some by lia.
  eapply env_ok_bind; [by apply (env_ok_within _ (fun m => zlen m <= MAX_AUTO_EXTRA)); rewrite zlen_slice; lia|].
  intros mem Hm. by apply env_ok_add_auto.
Qed.

Lemma detect_token_ok last clean v k :
  collect_ok k -> env_ok (detect_token (W:=W) (R:=R) last clean v k) collect_ok.
Proof.
  intros Hk. unfold detect_token. eapply env_ok_bind; [apply env_ok_cksum|]. intros cksum _.
  eapply (env_ok_bind _ _ collect_ok).
  - destruct (last && _).
    + destruct (collect_byte_ok v k Hk) as (k'&->&Hk').
      eapply env_ok_bind; [by apply (env_ok_within _ collect_ok)|]. intros k1 Hk1.
      eapply env_ok_bind; [by apply flush_token_ok|]. intros _ _. by apply env_ok_ret.
    + destruct (negb _); [|by apply env_ok_ret].
      eapply env_ok_bind; [by apply flush_token_ok|]. intros _ _. apply env_ok_ret. split; [apply Hk|done].
  - intros k1 Hk1. destruct (negb _); [|by apply env_ok_ret].
    destruct (collect_byte_ok v k1 Hk1) as (k'&->&Hk'). by apply env_ok_within.
Qed.

(** ** The stage *)

Context (c : det_cfg) (b : list Z) (Hpre : det_pre c b).
Abbreviation data := (data c b).

Lemma sim_flip1_step i x k :
  0 <= i < 8 * len c -> collect_ok k ->
  forall clean, sim b b x
    (flip1_step (W:=W) (R:=R) c (8 * len c) clean i k)
    (e ← within (bitmap_read (skip_eff_map c) (i / 8));
     if negb e then mret k
     else
       t ← is_det_timeout (before_det_time c) false;
       if (t : bool) then custom_mutator_stage
       else
         run c (flip_bit data i);;
         if negb (non_instrumented_mode c) && (i mod 8 =? 7) then
           detect_token (i =? 8 * len c - 1) clean (default 0 (data !! Z.to_nat (i / 8))) k
         else mret k)
    (fun k k' o x' => k = k' /\ o = b /\ x' = x /\ collect_ok k).
Proof.
  intros Hi Hk clean. unfold flip1_step. pose proof (len31 c b Hpre).
  pose proof (dp_room _ _ Hpre) as Hroom. pose proof (dp_bytes _ _ Hpre) as Hb.
  rewrite Z.shiftr_div_pow2 by lia. change (2 ^ 3) with 8.
  assert (0 <= i / 8 < len c) as Hi8 by dlia.
  destruct (effective c b Hpre (i / 8) Hi8) as [v ->].
  apply sim_within. destruct v; cbn [negb]; [|by apply sim_ret].
  apply sim_clock. eapply sim_left; [intros; apply FLIP_BIT_run; [lia|lia|done]|].
  assert (zlen (flip_bit b i) = zlen b) as Hz by (unfold zlen; by rewrite length_flip_bit).
  assert (flip_bit data i = slice (flip_bit b i) 0 (len c)) as ->
    by (unfold DetFlips.data; by rewrite !slice_0, take_flip_bit).
  eapply sim_bind; [by apply sim_fuzz_out|]. intros ? ? o' x' [-> ->].
  eapply sim_left; [intros; apply FLIP_BIT_run; [lia|by rewrite Hz; lia|by apply bytes_flip_bit]|].
  rewrite flip_bit_twice. change 7 with (Z.ones 3) at 1. rewrite Z.land_ones by lia. change (2 ^ 3) with 8.
  destruct (negb _ && _); [|by apply sim_ret].
  eapply sim_left; [intros; apply load_word_run; lia|].
  rewrite (wrap_small 32) by (split; lia).
  destruct (slice_one b (i / 8)) as (v&Hs&Hv); [lia|]. unfold word_at. change (Z.of_nat 1) with 1.
  rewrite Hs. unfold DetFlips.data. rewrite slice_0, lookup_take_lt, Hv by lia.
  cbn [le_word default]. rewrite Z.mul_0_r, Z.add_0_r.
  eapply sim_mono; [apply sim_lift, detect_token_ok, Hk|]. intros k1 k2 o x1 (?&?&?&?). done.
Qed.

Lemma sim_flip1 junk x :
  zlen junk = MAX_AUTO_EXTRA ->
  sim b b x (flip1 c junk) (spec_flip1 (W:=W) (R:=R) c data junk) (kept b x).
Proof.
  intros Hj. unfold flip1, spec_flip1. rewrite (zlen_data c b Hpre). pose proof (len31 c b Hpre).
  rewrite Z.shiftl_mul_pow2 by lia. change (2 ^ 3) with 8. rewrite wrap_small by (split; lia).
  rewrite Z.mul_comm.
  eapply sim_bind; [by apply (sim_fuzz_out c b Hpre)|]. intros ? ? o' x' [-> ->].
  eapply sim_bind; [apply sim_lift, env_ok_cksum|]. intros cksum ? o' x' (<-&->&->&_).
  eapply sim_bind.
  - eapply (sim_each_with b _ _ _ (fun k k' o x' => k = k' /\ o = b /\ x' = x /\ collect_ok k)).
    + split_and!; [done..|]. by split.
    + intros i k k' o x' Hi (<-&->&->&Hk). apply elem_of_seqZ in Hi.
      apply sim_flip1_step; [lia|done].
  - intros k ? o x' (<-&->&->&_). by apply sim_ret.
Qed.
End Tokens.
