(* ===== verification/DetWords.v ===== *)
(** * Deterministic stages: arithmetic and interesting values *)

From S2P Require Import Prelude Res Rng MutTables Mutations MutationsFacts Diffs TextCheck Extras ExtrasFacts Tmin Stage Det DetSpec DetSim DetFlips.

(** ** Lists of values *)

Lemma map_join {A B C} (f : B -> C) (g : A -> list B) l :
  map f (mjoin (map g l)) = mjoin (map (fun x => map f (g x)) l).
Proof.
  induction l as [|x l IH]; [done|]. cbn [map].
  change (mjoin (?h :: ?t)) with (h ++ mjoin t). by rewrite map_app, IH.
Qed.

Lemma filter_join {A} (P : A -> Prop) `{forall x, Decision (P x)} (l : list A) :
  filter P l = mjoin (map (fun v => filter P [v]) l).
Proof.
  induction l as [|x l IH]; [done|]. cbn [map]. change (mjoin (?h :: ?t)) with (h ++ mjoin t).
  rewrite <- IH. by rewrite <- (list.filter_app P [x] l).
Qed.

Lemma chosen_cons o p l : chosen o (p :: l) = chosen o [p] ++ chosen o l.
Proof. unfold chosen. rewrite <- map_app, <- list.filter_app. done. Qed.

Lemma chosen_one o cond v :
  chosen o [(cond, v)] = if cond && negb (flippable o v) then [v] else [].
Proof. unfold chosen. rewrite filter_cons, filter_nil. cbn. by destruct (_ && _). Qed.

Lemma filter_one (f : Z -> bool) v : filter (fun v => f v = true) [v] = if f v then [v] else [].
Proof. rewrite filter_cons, filter_nil. by destruct (f v). Qed.

(** ** Exclusive or and widths *)

Lemma wrap_lxor w o v : 0 <= w -> in_width w o -> wrap w (Z.lxor o v) = Z.lxor o (wrap w v).
Proof.
  intros Hw Ho. rewrite <- (wrap_small w o Ho) at 2. rewrite !wrap_land by done.
  apply Z.bits_inj'. intros i Hi. rewrite !Z.land_spec, !Z.lxor_spec, !Z.land_spec.
  by destruct (Z.testbit o i), (Z.testbit v i), (Z.testbit (Z.ones w) i).
Qed.

Lemma wrap_wrap_le w w' z : 0 <= w <= w' -> wrap w (wrap w' z) = wrap w z.
Proof.
  intros Hw. rewrite !wrap_land, <- Z.land_assoc by lia. f_equal. rewrite Z.land_comm.
  rewrite Z.land_ones by lia. apply Z.mod_small. rewrite Z.ones_equiv.
  pose proof (pow2_pos w). pose proof (Z.pow_le_mono_r 2 w w'). lia.
Qed.

Section Words.
Context {W R : Type} `{Fuzzer W} `{RandSource R} `{Qsort}.
Context (c : det_cfg) (b : list Z) (Hpre : det_pre c b).
Abbreviation data := (data c b).

(** ** The word at [i] is changed *)

Definition patched (n : nat) (i : Z) (x0 : list Z) : list Z -> list Z -> Prop :=
  fun o x => x = x0 /\ exists bs, zlen bs = Z.of_nat n /\ o = splice_at b i bs.

Context (n : nat) (i : Z) (Hn : (1 <= n <= 4)%nat) (Hi : 0 <= i) (Hin : i + Z.of_nat n <= len c).
Context (orig : Z) (Horig : orig = word_at n i data).

Abbreviation inputs vs := (map (fun v => set_word n i v data) vs).

Lemma word_at_data : word_at n i b = orig.
Proof. rewrite Horig. unfold word_at, DetFlips.data. by rewrite slice_slice by lia. Qed.

Lemma orig_width : in_width (8 * Z.of_nat n) orig.
Proof.
  rewrite Horig. unfold word_at. pose proof (zlen_data c b Hpre) as Hz.
  pose proof (le_word_range (slice data i (Z.of_nat n))) as Hw. rewrite zlen_slice in Hw by lia.
  apply Hw, Forall_slice, bytes_data, Hpre.
Qed.

Lemma patched_unchanged x : patched n i x b x.
Proof.
  pose proof (dp_room _ _ Hpre). split; [done|]. exists (slice b i (Z.of_nat n)).
  split; [apply zlen_slice; lia|]. by rewrite splice_at_id by lia.
Qed.

Lemma patched_zlen o x0 x : patched n i x0 o x -> zlen o = zlen b.
Proof. pose proof (dp_room _ _ Hpre). intros (_&bs&Hz&->). apply zlen_splice_at; lia. Qed.

Lemma set_word_patched v o x0 x :
  patched n i x0 o x -> set_word n i v o = set_word n i v b.
Proof.
  pose proof (dp_room _ _ Hpre). intros (_&bs&Hz&->). unfold set_word.
  apply splice_splice; rewrite ?zlen_le_bytes; lia.
Qed.

Lemma patched_word v x : patched n i x (set_word n i v b) x.
Proof. split; [done|]. exists (le_bytes n v). by rewrite zlen_le_bytes. Qed.

(** Another value is written and run. *)
Lemma sim_write v o x0 x :
  patched n i x0 o x ->
  sim b o x (store_word n i v;; fuzz_out c) (each (inputs [v]) (run (W:=W) (R:=R) c))
    (fun _ _ => patched n i x0).
Proof.
  intros Ho. pose proof (dp_room _ _ Hpre). pose proof (patched_zlen o x0 x Ho) as Hz.
  eapply sim_left; [intros; apply store_word_run; lia|].
  rewrite (set_word_patched v o x0 x Ho). cbn [map each].
  assert (set_word n i v data = slice (set_word n i v b) 0 (len c)) as ->.
  { unfold set_word, DetFlips.data. rewrite slice_splice_within; rewrite ?zlen_le_bytes; done || lia. }
  apply sim_single. eapply sim_mono; [apply sim_fuzz_out, (patched_zlen _ x x), patched_word; done|].
  intros ? ? o' x' [-> ->]. destruct Ho as [-> _]. apply patched_word.
Qed.

(** Nothing is written. *)
Lemma sim_skip o x0 x :
  patched n i x0 o x ->
  sim (W:=W) (R:=R) b o x (mret tt) (each (inputs []) (run c)) (fun _ _ => patched n i x0).
Proof. intros Ho. by apply sim_ret. Qed.

Lemma flippable_spec v :
  in_width (8 * Z.of_nat n) v -> could_be_bitflip (Z.lxor orig v) = Some (flippable orig v).
Proof.
  intros Hv. assert (in_width (8 * Z.of_nat n) (Z.lxor orig v)) as Hx
    by (apply lxor_width; [lia|apply orig_width|done]).
  apply (in_width_mono _ 32) in Hx; [|lia].
  destruct (could_be_bitflip_ok _ Hx) as (f&Hf&_). unfold flippable. rewrite Hf. by destruct f.
Qed.

Lemma sim_try_word cond r v o x0 x :
  patched n i x0 o x -> r = Z.lxor orig v -> in_width (8 * Z.of_nat n) v ->
  sim (W:=W) (R:=R) b o x (try_word c n i cond r v) (each (inputs (chosen orig [(cond, v)])) (run c))
    (fun _ _ => patched n i x0).
Proof.
  intros Ho -> Hv. rewrite chosen_one. unfold try_word. destruct cond; cbn [andb]; [|by apply sim_skip].
  rewrite flippable_spec by done. eapply sim_left; [by intros|].
  destruct (flippable orig v); cbn [negb]; [by apply sim_skip|by apply sim_write].
Qed.

Lemma sim_try_interest v check_le o x0 x :
  patched n i x0 o x -> in_width (8 * Z.of_nat n) v ->
  sim (W:=W) (R:=R) b o x (try_interest c n i orig v check_le)
    (each (inputs (if fresh n check_le orig v then [v] else [])) (run c)) (fun _ _ => patched n i x0).
Proof.
  intros Ho Hv. unfold try_interest, fresh. rewrite flippable_spec by done.
  eapply sim_left; [by intros|].
  destruct (_ && _ && _); [by apply sim_write|by apply sim_skip].
Qed.

(** The old word again. *)
Lemma sim_restore o x0 x :
  patched n i x0 o x ->
  sim (W:=W) (R:=R) b o x (store_word n i orig) (each (inputs []) (run c)) (kept b x0).
Proof.
  intros Ho. pose proof (dp_room _ _ Hpre). pose proof (patched_zlen o x0 x Ho) as Hz.
  eapply sim_last; [intros; apply store_word_run; lia|].
  rewrite (set_word_patched _ o x0 x Ho). destruct Ho as [-> _]. split; [|done].
  unfold set_word. rewrite <- word_at_data. unfold word_at.
  assert (zlen (slice b i (Z.of_nat n)) = Z.of_nat n) as Hl by (apply zlen_slice; lia).
  replace n with (length (slice b i (Z.of_nat n))) at 1 by (unfold zlen in Hl; lia).
  rewrite le_bytes_le_word by (apply Forall_slice, Hpre). apply splice_at_id; lia.
Qed.

(** A part of the code for a part of the values. *)
Lemma sim_part {A'} o x (m : stage (det_st W R) unit) (k : unit -> stage (det_st W R) A') vs vs' P Q :
  sim b o x m (each (inputs vs) (run c)) (fun _ _ => P) ->
  (forall o' x', P o' x' -> sim b o' x' (k tt) (each (inputs vs') (run c)) Q) ->
  sim b o x (m ≫= k) (each (inputs (vs ++ vs')) (run c)) Q.
Proof.
  intros Hm Hk. rewrite map_app. eapply sim_app; [exact Hm|]. intros [] o' x'. apply Hk.
Qed.

(** A sequence of tries, of conditions, differences and values; then the old word. *)
Lemma sim_tries (l : list (bool * Z * Z)) o x0 x :
  patched n i x0 o x ->
  Forall (fun t => t.1.2 = Z.lxor orig t.2 /\ in_width (8 * Z.of_nat n) t.2) l ->
  sim (W:=W) (R:=R) b o x
    (foldr (fun t k => try_word c n i t.1.1 t.1.2 t.2;; k) (store_word n i orig) l)
    (each (inputs (chosen orig (map (fun t => (t.1.1, t.2)) l))) (run c)) (kept b x0).
Proof.
  intros Ho Hl. revert o x Ho. induction Hl as [|[[cond r] v] l [Hr Hv] Hl IH]; intros o x Ho.
  - by apply sim_restore.
  - cbn [foldr map fst snd] in *. rewrite chosen_cons.
    eapply sim_part; [by apply sim_try_word|]. intros o' x' Ho'. by apply IH.
Qed.

(** The tries with one number, as the code has them. *)
Abbreviation proper r v := (r = Z.lxor orig v /\ in_width (8 * Z.of_nat n) v).

Lemma sim_two_tries c1 r1 v1 c2 r2 v2 x :
  proper r1 v1 -> proper r2 v2 ->
  sim (W:=W) (R:=R) b b x
    (try_word c n i c1 r1 v1;; try_word c n i c2 r2 v2;; store_word n i orig)
    (each (inputs (chosen orig [(c1, v1); (c2, v2)])) (run c)) (kept b x).
Proof.
  intros. apply (sim_tries [(c1, r1, v1); (c2, r2, v2)]); [apply patched_unchanged|].
  by repeat (apply list.Forall_cons; split).
Qed.

Lemma sim_four_tries c1 r1 v1 c2 r2 v2 c3 r3 v3 c4 r4 v4 x :
  proper r1 v1 -> proper r2 v2 -> proper r3 v3 -> proper r4 v4 ->
  sim (W:=W) (R:=R) b b x
    (try_word c n i c1 r1 v1;; try_word c n i c2 r2 v2;; try_word c n i c3 r3 v3;;
     try_word c n i c4 r4 v4;; store_word n i orig)
    (each (inputs (chosen orig [(c1, v1); (c2, v2); (c3, v3); (c4, v4)])) (run c)) (kept b x).
Proof.
  intros. apply (sim_tries [(c1, r1, v1); (c2, r2, v2); (c3, r3, v3); (c4, r4, v4)]);
    [apply patched_unchanged|].
  by repeat (apply list.Forall_cons; split).
Qed.
End Words.

Section Stages.
Context {W R : Type} `{Fuzzer W} `{RandSource R} `{Qsort}.
Context (c : det_cfg) (b : list Z) (Hpre : det_pre c b).
Abbreviation data := (data c b).

(** ** A stage over words *)

Lemma sim_words (n : nat) values (body : Z -> Z -> stage (det_st W R) unit) x :
  (1 <= n <= 4)%nat ->
  (forall i, 0 <= i -> i + Z.of_nat n <= len c ->
    sim b b x (body i (word_at n i data))
      (each (map (fun v => set_word n i v data) (values (word_at n i data))) (run c)) (kept b x)) ->
  sim b b x (each (seqZ 0 (len c - (Z.of_nat n - 1))) (fun i => orig ← load_word n i; at_byte c i (body i orig)))
    (spec_words c data n values) (kept b x).
Proof.
  intros Hn Hbody. unfold spec_words, spec_stage. rewrite (zlen_data c b Hpre).
  pose proof (dp_room _ _ Hpre).
  apply (sim_each b _ _ _ (fun o x' => o = b /\ x' = x)); [done|].
  intros i o x' Hi [-> ->]. apply elem_of_seqZ in Hi.
  eapply sim_left; [intros; apply load_word_run; lia|].
  assert (word_at n i b = word_at n i data) as ->.
  { unfold word_at, DetFlips.data. by rewrite slice_slice by lia. }
  apply sim_at; [done|lia|done|]. apply Hbody; lia.
Qed.

(** ** Arithmetic *)

(** The loop over the numbers. *)
Lemma sim_sums (n : nat) i (body : Z -> stage (det_st W R) unit) x :
  let o := word_at n i data in
  (forall j, sim b b x (body j)
    (each (map (fun v => set_word n i v data) (chosen o (sums n o j))) (run c)) (kept b x)) ->
  sim b b x (each (seqZ 1 ARITH_MAX) body)
    (each (map (fun v => set_word n i v data) (arith_values n o)) (run c)) (kept b x).
Proof.
  intros o Hb. unfold arith_values. rewrite map_join.
  apply (sim_each_join b _ _ _ _ (fun o x' => o = b /\ x' = x)); [done|].
  intros j ? ? _ [-> ->]. apply Hb.
Qed.

Lemma sim_arith8 x : sim b b x (arith8 c) (spec_words (W:=W) (R:=R) c data 1 (arith_values 1)) (kept b x).
Proof.
  unfold arith8. replace (len c) with (len c - (Z.of_nat 1 - 1)) by lia.
  apply (sim_words 1 _ (fun i orig => each (seqZ 1 ARITH_MAX) (fun j =>
        try_word c 1 i true (u8 (Z.lxor orig (orig + j))) (u8 (orig + j));;
        try_word c 1 i true (u8 (Z.lxor orig (u32 (orig - j)))) (u8 (orig - j));;
        store_word 1 i orig))); [lia|].
  intros i Hi Hin. apply sim_sums. intros j.
  pose proof (orig_width c b Hpre 1 i ltac:(lia) Hi Hin _ eq_refl) as Ho.
  eapply sim_two_tries; [done|lia|done|done|done|..]; (split; [|apply wrap_range; lia]).
  - by apply wrap_lxor.
  - rewrite wrap_lxor by done. by rewrite wrap_wrap_le by lia.
Qed.

(** The bound of the loops over wider words. *)
Lemma word_bound (n : nat) :
  (1 <= n)%nat -> Z.of_nat n <= len c -> u32 (len c - (Z.of_nat n - 1)) = len c - (Z.of_nat n - 1).
Proof. intros. pose proof (len31 c b Hpre). apply wrap_small. split; lia. Qed.

Lemma sim_arith16 x :
  2 <= len c -> sim b b x (arith16 c) (spec_words (W:=W) (R:=R) c data 2 (arith_values 2)) (kept b x).
Proof.
  intros Hl. unfold arith16. change (len c - 1) with (len c - (Z.of_nat 2 - 1)). rewrite (word_bound 2) by lia.
  apply (sim_words 2 _ (fun i orig => each (seqZ 1 ARITH_MAX) (fun j =>
        try_word c 2 i (Z.land orig 0xff + j >? 0xff) (u16 (Z.lxor orig (orig + j))) (u16 (orig + j));;
        try_word c 2 i (Z.land orig 0xff <? j) (u16 (Z.lxor orig (u32 (orig - j)))) (u16 (orig - j));;
        try_word c 2 i (Z.shiftr orig 8 + j >? 0xff) (u16 (Z.lxor orig (SWAP16 (SWAP16 orig + j))))
          (SWAP16 (SWAP16 orig + j));;
        try_word c 2 i (Z.shiftr orig 8 <? j) (u16 (Z.lxor orig (SWAP16 (SWAP16 orig - j))))
          (SWAP16 (SWAP16 orig - j));;
        store_word 2 i orig))); [lia|].
  intros i Hi Hin. apply sim_sums. intros j.
  pose proof (orig_width c b Hpre 2 i ltac:(lia) Hi Hin _ eq_refl) as Ho.
  eapply sim_four_tries; [done|lia|done|done|done|..]; (split; [|apply wrap_range; lia]).
  - by apply wrap_lxor.
  - rewrite wrap_lxor by done. by rewrite wrap_wrap_le by lia.
  - rewrite wrap_lxor by done. f_equal. apply wrap_small, SWAP16_width.
  - rewrite wrap_lxor by done. f_equal. apply wrap_small, SWAP16_width.
Qed.

Lemma sim_arith32 x :
  4 <= len c -> sim b b x (arith32 c) (spec_words (W:=W) (R:=R) c data 4 (arith_values 4)) (kept b x).
Proof.
  intros Hl. unfold arith32. change (len c - 3) with (len c - (Z.of_nat 4 - 1)). rewrite (word_bound 4) by lia.
  apply (sim_words 4 _ (fun i orig => each (seqZ 1 ARITH_MAX) (fun j =>
        try_word c 4 i (Z.land orig 0xffff + j >? 0xffff) (Z.lxor orig (u32 (orig + j))) (u32 (orig + j));;
        try_word c 4 i (Z.land orig 0xffff <? j) (Z.lxor orig (u32 (orig - j))) (u32 (orig - j));;
        try_word c 4 i (Z.land (SWAP32 orig) 0xffff + j >? 0xffff)
          (Z.lxor orig (SWAP32 (u32 (SWAP32 orig + j)))) (SWAP32 (u32 (SWAP32 orig + j)));;
        try_word c 4 i (Z.land (SWAP32 orig) 0xffff <? j)
          (Z.lxor orig (SWAP32 (u32 (SWAP32 orig - j)))) (SWAP32 (u32 (SWAP32 orig - j)));;
        store_word 4 i orig))); [lia|].
  intros i Hi Hin. apply sim_sums. intros j.
  eapply sim_four_tries; [done|lia|done|done|done|..]; (split; [reflexivity|apply wrap_range; lia]).
Qed.

(** ** Interesting values *)

Lemma sim_interest8 x :
  sim b b x (interest8 c) (spec_words (W:=W) (R:=R) c data 1 (interest_values 1)) (kept b x).
Proof.
  unfold interest8. replace (len c) with (len c - (Z.of_nat 1 - 1)) by lia.
  apply (sim_words 1 _ (fun i orig => each interesting_8 (fun v =>
        f ← within (could_be_bitflip (Z.lxor orig (u8 v)));
        if (f : bool) || could_be_arith orig (u8 v) 1 then mret tt
        else store_word 1 i (u8 v);; fuzz_out c;; store_word 1 i orig))); [lia|].
  intros i Hi Hin. set (o := word_at 1 i data). unfold interest_values.
  rewrite filter_join, map_map, map_join.
  apply (sim_each_join b _ _ _ _ (fun o x' => o = b /\ x' = x)); [done|].
  intros v ? ? _ [-> ->]. rewrite filter_one.
  rewrite (flippable_spec c b Hpre 1 i ltac:(lia) Hi Hin o eq_refl) by (apply wrap_range; lia).
  eapply sim_left; [by intros|]. rewrite <- negb_orb.
  destruct (_ || _); cbn [negb]; [by apply sim_ret|]. apply sim_code_assoc.
  rewrite <- (app_nil_r [u8 v]).
  eapply sim_part.
  { eapply (sim_write c b Hpre 1 i ltac:(lia) Hi Hin). by apply (patched_unchanged c b Hpre 1 i ltac:(lia) Hi Hin). }
  intros o' x' Ho. by eapply (sim_restore c b Hpre 1 i ltac:(lia) Hi Hin).
Qed.

(** Both orders of the bytes of the values of a table. *)
Lemma sim_both (n : nat) i (tbl : list Z) (le be : Z -> Z) x :
  (1 <= n <= 4)%nat -> 0 <= i -> i + Z.of_nat n <= len c ->
  (forall v, in_width (8 * Z.of_nat n) (le v) /\ in_width (8 * Z.of_nat n) (be v)) ->
  let o := word_at n i data in
  sim (W:=W) (R:=R) b b x
    (each tbl (fun v =>
        try_interest c n i o (le v) false;;
        if negb (le v =? be v) then try_interest c n i o (be v) true else mret tt);;
      store_word n i o)
    (each (map (fun v => set_word n i v data)
      (mjoin (map (fun v => filter (fun w => fresh n false o w = true) [le v] ++
                            filter (fun w => (negb (le v =? w) && fresh n true o w) = true) [be v]) tbl)))
      (run c)) (kept b x).
Proof.
  intros Hn Hi Hin Hw o. rewrite <- (app_nil_r (mjoin _)). eapply sim_part.
  - rewrite map_join. apply (sim_each_join b _ _ _ _ (patched b n i x)); [by eapply patched_unchanged|].
    intros v o1 x1 _ Ho1. destruct (Hw v). rewrite filter_one, (filter_one (fun w => negb (le v =? w) && fresh n true o w)).
    eapply sim_part; [by eapply sim_try_interest|]. intros o2 x2 Ho2.
    destruct (negb (le v =? be v)); cbn [andb]; [by eapply sim_try_interest|by apply sim_skip].
  - intros o1 x1 Ho1. by eapply sim_restore.
Qed.

Lemma sim_interest16 x :
  2 <= len c -> sim b b x (interest16 c) (spec_words (W:=W) (R:=R) c data 2 (interest_values 2)) (kept b x).
Proof.
  intros Hl. unfold interest16. change (len c - 1) with (len c - (Z.of_nat 2 - 1)). rewrite (word_bound 2) by lia.
  apply (sim_words 2 _ (fun i orig =>
      each interesting_16 (fun v =>
        try_interest c 2 i orig (u16 v) false;;
        if negb (u16 v =? SWAP16 v) then try_interest c 2 i orig (SWAP16 v) true else mret tt);;
      store_word 2 i orig)); [lia|].
  intros i Hi Hin. apply sim_both; [lia..|]. intros v. split; apply wrap_range; lia.
Qed.

Lemma sim_interest32 x :
  4 <= len c -> sim b b x (interest32 c) (spec_words (W:=W) (R:=R) c data 4 (interest_values 4)) (kept b x).
Proof.
  intros Hl. unfold interest32. change (len c - 3) with (len c - (Z.of_nat 4 - 1)). rewrite (word_bound 4) by lia.
  apply (sim_words 4 _ (fun i orig =>
      each interesting_32 (fun v =>
        try_interest c 4 i orig (u32 v) false;;
        if negb (u32 v =? SWAP32 v) then try_interest c 4 i orig (SWAP32 v) true else mret tt);;
      store_word 4 i orig)); [lia|].
  intros i Hi Hin. apply sim_both; [lia..|]. intros v. split; apply wrap_range; lia.
Qed.
End Stages.
