(* ===== verification/DetExtras.v ===== *)
(** * Deterministic stages: dictionaries *)

From S2P Require Import Prelude Res Rng MutTables Mutations MutationsFacts Diffs TextCheck Extras ExtrasFacts Tmin Stage StageFacts Det DetSpec DetSim DetFlips.

(** ** Overwriting *)

Lemma splice_fix {A} (m bs : list A) off :
  0 <= off -> off + zlen bs <= zlen m -> splice_at m off bs = m <-> slice m off (zlen bs) = bs.
Proof.
  intros. split; intros E.
  - rewrite <- E at 1. by apply slice_splice_same.
  - rewrite <- E at 1. by apply splice_at_id; [|apply zlen_nonneg|].
Qed.

Section Extras.
Context {W R : Type} `{Fuzzer W} `{RandSource R} `{Qsort}.
Context (c : det_cfg) (b : list Z) (Hpre : det_pre c b).
Abbreviation data := (data c b).

Lemma slice_patch i bs :
  0 <= i -> i + zlen bs <= len c -> slice (splice_at b i bs) 0 (len c) = splice_at data i bs.
Proof. intros. pose proof (dp_room _ _ Hpre). apply slice_splice_within; lia. Qed.

(** One token: [bs] is the one that is there. *)
Lemma sim_overwrite_token skips i tok bs x :
  env_safe skips -> 0 <= i < len c -> i + zlen bs <= len c -> zlen bs <= zlen tok ->
  sim (W:=W) (R:=R) b (splice_at b i bs) x (overwrite_token c skips i tok (zlen bs))
    (r ← skips;
     if (r : bool) || (zlen tok >? zlen data - i) || bool_decide (splice_at data i tok = splice_at data i bs)
     then mret (splice_at data i bs)
     else run c (splice_at data i tok);; mret (splice_at data i tok))
    (fun n last o x' => exists bs', (bs' = bs \/ bs' = tok) /\ n = zlen bs' /\ last = splice_at data i bs' /\
      o = splice_at b i bs' /\ x' = x /\ i + zlen bs' <= len c).
Proof.
  intros Hs Hi Hbs Hle. pose proof (len31 c b Hpre). pose proof (dp_room _ _ Hpre).
  unfold overwrite_token. eapply sim_bind; [by apply sim_lift|]. intros r ? o' x' (<-&->&->&_).
  rewrite (zlen_data c b Hpre), (wrap_small 32) by (split; lia).
  destruct r; cbn [orb]; [apply sim_ret; exists bs; tauto|].
  destruct (zlen tok >? len c - i) eqn:Ef; b2p; cbn [orb]; [apply sim_ret; exists bs; tauto|].
  set (o := splice_at b i bs). assert (zlen o = zlen b) as Ho by (apply zlen_splice_at; lia).
  assert (splice_at o i tok = splice_at b i tok) as Ht by (apply splice_splice; lia).
  assert (splice_at data i tok = splice_at (splice_at data i bs) i tok) as Htd
    by (symmetry; apply splice_splice; rewrite ?(zlen_data c b Hpre); lia).
  assert (bool_decide (tok = slice o i (zlen tok)) =
    bool_decide (splice_at data i tok = splice_at data i bs)) as Eq.
  { apply bool_decide_ext. rewrite Htd.
    rewrite splice_fix by (rewrite ?zlen_splice_at; rewrite ?(zlen_data c b Hpre); lia).
    rewrite <- slice_patch by lia. fold o. pose proof (zlen_nonneg tok).
    rewrite slice_slice by lia. split; congruence. }
  eapply sim_left.
  { intros e. unfold load_out. cbn [out_buf]. pose proof (zlen_nonneg tok). by rewrite load_Some by lia. }
  cbv beta. rewrite Eq. destruct (bool_decide (splice_at data i tok = _)).
  { apply sim_ret. exists bs. tauto. }
  eapply sim_left; [intros; apply store_out_run; lia|]. rewrite Ht.
  rewrite <- (slice_patch i tok) at 1 by lia.
  eapply sim_bind; [apply sim_fuzz_out; [done|]; apply zlen_splice_at; lia|].
  intros ? ? o1 x1 [-> ->]. apply sim_ret. exists tok.
  split_and!; [by right|done|done|done|done|lia].
Qed.

Lemma sim_overwrite_tokens skips i toks bs x :
  env_safe skips -> 0 <= i < len c -> i + zlen bs <= len c ->
  by_len toks -> Forall (fun tok => zlen bs <= zlen tok) toks ->
  sim (W:=W) (R:=R) b (splice_at b i bs) x (each_with toks (overwrite_token c skips i) (zlen bs))
    (each_with toks (fun tok last =>
      r ← skips;
      if (r : bool) || (zlen tok >? zlen data - i) || bool_decide (splice_at data i tok = last)
      then mret last
      else run c (splice_at data i tok);; mret (splice_at data i tok)) (splice_at data i bs))
    (fun n last o x' => exists bs', n = zlen bs' /\ o = splice_at b i bs' /\ x' = x /\ i + zlen bs' <= len c).
Proof.
  intros Hs Hi. revert bs. induction toks as [|tok toks IH]; intros bs Hbs Hlen Hle; cbn [each_with].
  { apply sim_ret. by exists bs. }
  apply list.Forall_cons in Hle as [Hle1 Hle]. apply StronglySorted_inv in Hlen as [Hlen Htok].
  eapply sim_bind; [by apply sim_overwrite_token|].
  intros n last o x' (bs'&Hor&->&->&->&->&Hb'). apply IH; [done|done|].
  destruct Hor as [->| ->]; [done|]. exact Htok.
Qed.

Lemma sim_overwrite skips toks x :
  env_safe skips -> by_len toks ->
  sim (W:=W) (R:=R) b b x (overwrite_stage c skips toks) (spec_overwrite c data skips toks) (kept b x).
Proof.
  intros Hs Hlen. unfold overwrite_stage, spec_overwrite. rewrite (zlen_data c b Hpre).
  pose proof (dp_room _ _ Hpre). destruct (dp_in _ _ Hpre) as [Hin Heq].
  apply (sim_each b _ _ _ (fun o x' => o = b /\ x' = x)); [done|].
  intros i o x' Hi [-> ->]. apply elem_of_seqZ in Hi. apply sim_at; [done|lia|done|].
  assert (forall (m : list Z), 0 <= i <= zlen m -> splice_at m i [] = m) as Hnil.
  { intros m Hm. unfold splice_at. cbn [app length]. by rewrite Nat.add_0_r, take_drop. }
  pose proof (sim_overwrite_tokens skips i toks [] x Hs) as Hl.
  rewrite !Hnil in Hl by (rewrite ?(zlen_data c b Hpre); lia). rewrite (zlen_data c b Hpre) in Hl.
  eapply sim_bind; [apply Hl|].
  - lia.
  - change (zlen (@nil Z)) with 0. lia.
  - done.
  - apply list.Forall_forall. intros tok _. change (zlen (@nil Z)) with 0. apply zlen_nonneg.
  - intros n last o1 x1 (bs'&->&->&->&Hb'). pose proof (zlen_nonneg bs') as H0'.
    rewrite load_Some by lia. eapply sim_left; [by intros|].
    assert (slice (in_buf c) i (zlen bs') = slice b i (zlen bs')) as ->.
    { rewrite <- (slice_slice (in_buf c) (len c)), <- (slice_slice b (len c)) by lia. by rewrite Heq. }
    assert (zlen (slice b i (zlen bs')) = zlen bs') as Hz by (apply zlen_slice; lia).
    eapply sim_last; [intros; apply store_out_run; [lia|rewrite zlen_splice_at; lia]|].
    split; [|done]. rewrite splice_splice by lia. apply splice_at_id; lia.
Qed.

(** ** Insertion *)

(** [x] is the scratch buffer, [head] its first bytes. *)
Definition scratch (head x : list Z) : Prop :=
  len c + MAX_DICT_FILE <= zlen x /\ slice x 0 (len c) = head.

Lemma zlen_scratch head x : scratch head x -> zlen head = len c.
Proof. pose proof (len31 c b Hpre). intros [Hx <-]. apply zlen_slice; unfold MAX_DICT_FILE in *; lia. Qed.

(** Token and tail are copied one behind the other. *)
Lemma slice_insert (x tok tail : list Z) i :
  0 <= i -> i + zlen tok + zlen tail <= zlen x ->
  slice (splice_at (splice_at x i tok) (i + zlen tok) tail) 0 (i + zlen tok + zlen tail) =
    slice x 0 i ++ tok ++ tail.
Proof.
  unfold zlen. intros. rewrite !slice_0. unfold splice_at. rewrite !app_assoc.
  rewrite take_app_length'.
  - f_equal. rewrite take_app_length'; [done|]. rewrite length_app, length_take. lia.
  - rewrite !length_app, !length_take, !length_app, length_take, length_drop. lia.
Qed.

Lemma store_ex_run i bs o x (e : env W R) :
  0 <= i -> i + zlen bs <= zlen x ->
  store_ex i bs (DetSt o x e) = Next tt (DetSt o (splice_at x i bs) e).
Proof. intros. unfold store_ex. cbn [ex_buf]. by rewrite store_Some. Qed.

Lemma sim_fuzz_ex n x :
  len c <= n <= zlen x ->
  sim (W:=W) (R:=R) b b x (fuzz_ex c n) (run c (slice x 0 n)) (kept b x).
Proof.
  intros Hn e He. pose proof len31 c b Hpre. destruct Hpre. rewrite <- fuzz_slice by lia.
  refine (sim_mono b b x _ _ _ _ (sim_lift b b x (fuzz c x n) (fun _ => True) _) _ e He).
  - apply env_ok_fuzz; lia.
  - by intros a a' o' x' (_&?&?&_).
Qed.

Lemma sim_insert_token i tok head x :
  0 <= i <= len c -> zlen tok <= MAX_DICT_FILE -> len c + zlen tok <= MAX_FILE -> scratch head x ->
  sim (W:=W) (R:=R) b b x (insert_token c i tok)
    (run c (insertion_from data head i tok);; mret (take (length data) (insertion_from data head i tok)))
    (fun _ head' o x' => o = b /\ scratch head' x').
Proof.
  intros Hi Htok Hfit Hsc. pose proof (len31 c b Hpre). pose proof (dp_room _ _ Hpre).
  pose proof (zlen_nonneg tok). pose proof (zlen_scratch _ _ Hsc) as Hhead. destruct Hsc as [Hx Hh].
  pose proof max_file. unfold insert_token. rewrite Z.gtb_ltb, (proj2 (Z.ltb_ge _ _)) by lia.
  eapply sim_left; [intros; apply store_ex_run; lia|].
  rewrite (wrap_small 32 (len c - i)) by (split; lia).
  eapply sim_left; [intros; unfold load_out; cbn [out_buf]; by rewrite load_Some by lia|].
  set (tail := slice b i (len c - i)). assert (zlen tail = len c - i) as Ht by (apply zlen_slice; lia).
  assert (zlen (splice_at x i tok) = zlen x) as Hz1 by (apply zlen_splice_at; lia).
  eapply sim_left; [intros; apply store_ex_run; lia|].
  set (x2 := splice_at _ _ tail). assert (zlen x2 = zlen x) as Hz2 by (unfold x2; rewrite zlen_splice_at; lia).
  rewrite (wrap_small 32) by (split; lia).
  assert (slice x2 0 (len c + zlen tok) = insertion_from data head i tok) as Hins.
  { replace (len c + zlen tok) with (i + zlen tok + zlen tail) by lia. unfold x2.
    rewrite slice_insert by lia. unfold insertion_from. rewrite <- Hh, !slice_0, take_take, Nat.min_l by lia.
    do 2 f_equal. unfold tail, DetFlips.data, slice. rewrite drop_0, skipn_firstn_comm. f_equal. lia. }
  rewrite <- Hins. eapply sim_value; [apply sim_fuzz_ex; unfold MAX_DICT_FILE in *; lia|].
  intros [] o' x' [-> ->]. split; [done|]. split; [lia|].
  rewrite !slice_0, take_take. f_equal. pose proof (zlen_data c b Hpre) as Hzd. unfold zlen in Hzd. lia.
Qed.

Lemma sim_insert_tokens i toks head x :
  0 <= i <= len c -> Forall (fun tok => zlen tok <= MAX_DICT_FILE) toks -> scratch head x ->
  sim (W:=W) (R:=R) b b x (each toks (insert_token c i))
    (each_with (fitting data toks) (fun tok head =>
      run c (insertion_from data head i tok);;
      mret (take (length data) (insertion_from data head i tok))) head)
    (fun _ head' o x' => o = b /\ scratch head' x').
Proof.
  intros Hi Hl. unfold fitting. rewrite (zlen_data c b Hpre). revert head x.
  induction Hl as [|tok toks Htok Hl IH]; intros head x Hsc; [by apply sim_ret|].
  rewrite filter_cons. cbn [each]. destruct (decide _) as [Hfit|Hfit].
  - cbn [each_with]. eapply sim_bind; [by apply sim_insert_token|].
    intros [] head' o x' [-> Hsc']. by apply IH.
  - eapply sim_left; [intros e; unfold insert_token; rewrite Z.gtb_ltb, (proj2 (Z.ltb_lt _ _)) by lia; done|].
    by apply IH.
Qed.

(** The byte at the position, or the one behind the test case at its end. *)
Lemma sim_copy_head i head x :
  0 <= i <= len c -> scratch head x ->
  sim (W:=W) (R:=R) b b x (v ← load_out i 1; store_ex i v) (mret (splice_at head i (slice data i 1)))
    (fun _ head' o x' => o = b /\ scratch head' x').
Proof.
  intros Hi Hsc. pose proof (len31 c b Hpre). pose proof (dp_room _ _ Hpre).
  pose proof (zlen_scratch _ _ Hsc) as Hhead. destruct Hsc as [Hx Hh]. unfold MAX_DICT_FILE in *.
  eapply sim_left; [intros; unfold load_out; cbn [out_buf]; by rewrite load_Some by lia|].
  destruct (slice_one b i) as (v&Hv&_); [lia|]. rewrite Hv.
  eapply sim_last; [intros; apply store_ex_run; rewrite ?zlen_one; lia|]. split; [done|].
  split; [rewrite zlen_splice_at; rewrite ?zlen_one; unfold MAX_DICT_FILE; lia|].
  destruct (decide (i < len c)).
  - rewrite slice_splice_within by (rewrite ?zlen_one; lia). rewrite Hh. f_equal.
    unfold DetFlips.data. by rewrite slice_slice by lia.
  - replace i with (len c) by lia. assert (slice data (len c) 1 = []) as ->.
    { apply nil_length_inv. unfold slice. rewrite length_take, length_drop.
      pose proof (zlen_data c b Hpre) as Hzd. unfold zlen in Hzd. lia. }
    rewrite <- Hh. unfold splice_at. cbn [app length]. rewrite Nat.add_0_r, take_drop, !slice_0.
    rewrite take_app_le by (rewrite length_take; unfold zlen in *; lia). rewrite take_take. f_equal. lia.
Qed.

(** The first bytes of the scratch buffer when an insertion stage starts. *)
Definition head_of (x : list Z) : list Z := slice (afl_realloc x (len c + MAX_DICT_FILE)) 0 (len c).

Lemma scratch_realloc x : scratch (head_of x) (afl_realloc x (len c + MAX_DICT_FILE)).
Proof.
  pose proof (len31 c b Hpre). split; [|done]. apply afl_realloc_room. unfold MAX_DICT_FILE. lia.
Qed.

Lemma head_of_scratch head x : scratch head x -> head_of x = head.
Proof.
  pose proof (len31 c b Hpre). intros [Hx Hh]. unfold head_of.
  rewrite afl_realloc_enough by (unfold MAX_DICT_FILE in *; lia). done.
Qed.

Lemma sim_insert toks x :
  Forall (fun tok => zlen tok <= MAX_DICT_FILE) toks ->
  sim (W:=W) (R:=R) b b x (insert_stage c toks) (actual_insert c data toks (head_of x))
    (fun _ head o x' => o = b /\ head_of x' = head).
Proof.
  intros Hl. pose proof (len31 c b Hpre). unfold insert_stage, actual_insert. rewrite (zlen_data c b Hpre).
  eapply (sim_left b b x b (afl_realloc x (len c + MAX_DICT_FILE)) _ tt); [done|].
  eapply sim_mono; [|intros ? head o x' HJ; exact (conj (proj1 HJ) (head_of_scratch _ _ (proj2 HJ)))].
  apply (sim_each_value b _ _ _ (fun head o x' => o = b /\ scratch head x')).
  { split; [done|apply scratch_realloc]. }
  intros i head o x' Hi [-> Hsc]. apply elem_of_seqZ in Hi.
  unfold at_byte, guarded. destruct (effective c b Hpre (i mod len c)) as [v ->].
  { apply Z.mod_pos_bound. lia. }
  apply sim_within. destruct v; cbn [negb]; [|by apply sim_ret]. apply sim_clock.
  eapply sim_bind; [apply sim_insert_tokens; [lia|done|done]|].
  intros [] head' o1 x1 [-> Hsc']. apply sim_copy_head; [lia|done].
Qed.

(** ** Both dictionaries *)

Lemma skip_extra_ok n : env_safe (skip_extra (W:=W) (R:=R) c n).
Proof.
  unfold skip_extra. destruct (_ >? _); [|by apply env_ok_ret].
  eapply env_ok_bind; [apply env_ok_rand|]. intros r _. by apply env_ok_ret.
Qed.

Lemma sim_dictionary skips toks toks' x :
  env_safe skips -> by_len toks -> Forall (fun tok => zlen tok <= MAX_DICT_FILE) toks' ->
  sim (W:=W) (R:=R) b b x (overwrite_stage c skips toks;; insert_stage c toks')
    (spec_overwrite c data skips toks;; actual_insert c data toks' (head_of x))
    (fun _ head o x' => o = b /\ head_of x' = head).
Proof.
  intros. eapply sim_bind; [by apply sim_overwrite|]. intros [] [] o x' [-> ->]. by apply sim_insert.
Qed.

Lemma sim_user_extras x :
  sim (W:=W) (R:=R) b b x (user_extras c) (spec_user_extras c data (head_of x))
    (fun _ head o x' => o = b /\ head_of x' = head).
Proof.
  intros e He. unfold user_extras, spec_user_extras. cbn [det_env].
  pose proof (sim_dictionary (skip_extra c (zlen (x_extras (e_extras e)))) (x_extras (e_extras e))
    (x_extras (e_extras e)) x (skip_extra_ok _) (to_user e He) (to_user_len e He) e He) as Hs.
  by destruct (x_extras (e_extras e)).
Qed.

Lemma sim_auto_extras x :
  sim (W:=W) (R:=R) b b x (auto_extras c) (spec_auto_extras c data (head_of x))
    (fun _ head o x' => o = b /\ head_of x' = head).
Proof.
  intros e He. unfold auto_extras, spec_auto_extras. cbn [det_env].
  set (toks := map a_data (x_a_extras (e_extras e))).
  pose proof (sim_dictionary (mret false) (take (Z.to_nat USE_AUTO_EXTRAS) toks) toks x
    (env_ok_ret false _ I) (to_auto e He) (to_auto_len e He) e He) as Hs.
  replace (take (Z.to_nat (Z.min (zlen toks) USE_AUTO_EXTRAS)) toks)
    with (take (Z.to_nat USE_AUTO_EXTRAS) toks).
  - by destruct toks.
  - destruct (decide (zlen toks <= USE_AUTO_EXTRAS)).
    + rewrite Z.min_l by lia. rewrite !take_ge by (unfold zlen in *; lia). done.
    + rewrite Z.min_r by lia. done.
Qed.
End Extras.
