(* ===== verification/DetFacts.v ===== *)
(** * The deterministic stages do what they are meant to

    The stages of [Det] refine the specification of [DetSpec]; with every byte effective
    the insertion stages are the intended ones, and how they are not otherwise. *)

From S2P Require Import Prelude Res Rng MutTables Mutations MutationsFacts Diffs TextCheck Extras ExtrasFacts Tmin Stage Det DetSpec DetSim DetFlips DetTokens DetWords DetExtras.

Section Refine.
Context {W R : Type} `{Fuzzer W} `{RandSource R} `{Qsort}.
Context (c : det_cfg) (b : list Z) (Hpre : det_pre c b).
Abbreviation data := (data c b).

(** ** Composition *)

Lemma spec_stage_empty n pos f (e : env W R) : n <= 0 -> spec_stage c n pos f e = Next tt e.
Proof. intros Hn. unfold spec_stage. by rewrite seqZ_nil. Qed.

(** The stages over wider words are left out when the test case is too short. *)
Lemma sim_wider skip (m2 m4 : stage (det_st W R) unit) (p2 p4 : stage (env W R) unit) x :
  (len c < 2 -> skip = true) ->
  (skip = false -> sim b b x m2 p2 (kept b x)) -> (4 <= len c -> sim b b x m4 p4 (kept b x)) ->
  (forall e, len c < 4 -> p4 e = Next tt e) ->
  sim b b x (if skip then mret tt else m2;; if len c <? 4 then mret tt else m4)
    (if skip then mret tt else p2;; p4) (kept b x).
Proof.
  intros H2 Hm2 Hm4 Hp4. destruct skip; [by apply sim_ret|].
  eapply sim_bind; [by apply Hm2|]. intros [] [] o x' [-> ->].
  destruct (len c <? 4) eqn:E; b2p; [|by apply Hm4].
  eapply sim_spec; [intros e; symmetry; by apply Hp4|]. by apply sim_ret.
Qed.

(** Two stages with nothing to do. *)
Lemma both_empty n pos f n' pos' f' (e : env W R) :
  n <= 0 -> n' <= 0 -> (spec_stage c n pos f;; spec_stage c n' pos' f') e = Next tt e.
Proof. intros. unfold mbind, stage_bind. rewrite spec_stage_empty by done. by apply spec_stage_empty. Qed.

Lemma sim_bitflips junk x :
  zlen junk = MAX_AUTO_EXTRA ->
  sim b b x (bitflips c junk) (spec_bitflips (W:=W) (R:=R) c data junk) (kept b x).
Proof.
  intros Hj. pose proof (zlen_data c b Hpre) as Hz. unfold bitflips, spec_bitflips.
  eapply sim_bind; [by apply sim_flip1|]. intros [] [] o x' [-> ->].
  eapply sim_bind; [apply sim_walking_bits; [done|lia]|]. intros [] [] o x' [-> ->].
  eapply sim_bind; [apply sim_walking_bits; [done|lia]|]. intros [] [] o x' [-> ->].
  eapply sim_bind; [apply (sim_walking_bytes c b Hpre 1); [lia|pose proof (len31 c b Hpre); lia]|].
  intros [] [] o x' [-> ->].
  eapply sim_spec; [|apply (sim_wider (len c <? 2) _ _ (spec_bytes c data 2) (spec_bytes c data 4))].
  - intros e. destruct (len c <? 2) eqn:E; b2p; [|done]. symmetry. apply both_empty; lia.
  - intros. by apply Z.ltb_lt.
  - intros E. b2p. apply (sim_walking_bytes c b Hpre 2); lia.
  - intros. apply (sim_walking_bytes c b Hpre 4); lia.
  - intros. apply spec_stage_empty. lia.
Qed.

Lemma sim_ariths x : sim b b x (ariths c) (spec_ariths (W:=W) (R:=R) c data) (kept b x).
Proof.
  pose proof (zlen_data c b Hpre) as Hz. unfold ariths, spec_ariths.
  destruct (no_arith c); [by apply sim_ret|].
  eapply sim_bind; [by apply sim_arith8|]. intros [] [] o x' [-> ->].
  eapply sim_spec; [|apply (sim_wider (len c <? 2) _ _ (spec_words c data 2 (arith_values 2))
    (spec_words c data 4 (arith_values 4)))].
  - intros e. destruct (len c <? 2) eqn:E; b2p; [|done]. symmetry. apply both_empty; lia.
  - intros. by apply Z.ltb_lt.
  - intros E. b2p. by apply sim_arith16.
  - intros. by apply sim_arith32.
  - intros. apply spec_stage_empty. lia.
Qed.

Lemma sim_interests x : sim b b x (interests c) (spec_interests (W:=W) (R:=R) c data) (kept b x).
Proof.
  pose proof (zlen_data c b Hpre) as Hz. unfold interests, spec_interests.
  eapply sim_bind; [by apply sim_interest8|]. intros [] [] o x' [-> ->].
  eapply sim_spec; [|apply (sim_wider (no_arith c || (len c <? 2)) _ _
    (spec_words c data 2 (interest_values 2)) (spec_words c data 4 (interest_values 4)))].
  - intros e. destruct (no_arith c); [done|]. cbn [orb]. destruct (len c <? 2) eqn:E; b2p; [|done].
    symmetry. apply both_empty; lia.
  - intros. rewrite (proj2 (Z.ltb_lt _ _)) by done. apply orb_true_r.
  - intros [_ E]%orb_false_iff. b2p. by apply sim_interest16.
  - intros. by apply sim_interest32.
  - intros. apply spec_stage_empty. lia.
Qed.

(** C12. For every target, clock and random source, the deterministic stages from a
    buffer [b] that holds the test case, in an allocation at least one byte longer than
    it ([dp_room]), take the same way out, in the same state of the fuzzer, as the
    specification that makes each input from the unchanged test case: the same inputs
    are run in the same order, and the tokens found are the same. (The specification
    keeps one buffer, the head of the scratch buffer of the insertions, which carries
    over from one token to the next.) No access falls outside of a buffer; when the
    stages end, and when they are left for [custom_mutator_stage], [out_buf] is as it
    was. *)
Theorem det_stages_refine junk x :
  zlen junk = MAX_AUTO_EXTRA ->
  sim (W:=W) (R:=R) b b x (det_stages c junk) (spec_stages c data junk (head_of c x))
    (fun _ _ o _ => o = b).
Proof.
  intros Hj. unfold det_stages, spec_stages.
  eapply sim_bind; [by apply sim_bitflips|]. intros [] [] o x1 [-> ->].
  eapply sim_bind; [by apply sim_ariths|]. intros [] [] o x1 [-> ->].
  eapply sim_bind; [by apply sim_interests|]. intros [] [] o x1 [-> ->].
  eapply sim_bind; [by apply sim_user_extras|]. intros [] head o x1 [-> <-].
  eapply sim_value; [by apply sim_auto_extras|]. by intros head o x2 [-> _].
Qed.

(** ** Insertion with every byte effective *)

Context (Hall : forall i, 0 <= i < len c -> bitmap_read (skip_eff_map c) i = Some true).

(** The heads that the inner loop goes through agree with the test case. *)
Lemma insert_inner {B} i toks head (k : list Z -> stage (env W R) B) k' e :
  0 <= i <= len c -> zlen head = len c -> take (Z.to_nat i) head = take (Z.to_nat i) data ->
  (forall head e, zlen head = len c -> take (Z.to_nat i) head = take (Z.to_nat i) data ->
    k head e = k' e) ->
  (each_with toks (fun tok head =>
      run c (insertion_from data head i tok);;
      mret (take (length data) (insertion_from data head i tok))) head ≫= k) e =
  (each (map (insertion data i) toks) (run c);; k') e.
Proof.
  intros Hi. pose proof (zlen_data c b Hpre) as Hz.
  revert head e. induction toks as [|tok toks IH]; intros head e Hl Hh Hk.
  { cbn. by apply Hk. }
  cbn [each_with map each]. rewrite !bind_assoc.
  assert (insertion_from data head i tok = insertion data i tok) as -> by (unfold insertion_from; by rewrite Hh).
  apply bind_ext. intros [] e1.
  apply IH; [| |exact Hk].
  - unfold insertion, zlen in *. rewrite length_take, !length_app, length_take, length_drop. lia.
  - unfold insertion. rewrite take_take, Nat.min_l by (unfold zlen in *; lia).
    rewrite take_app_length'; [done|]. rewrite length_take. unfold zlen in *. lia.
Qed.

(** One more byte of the head is right. *)
Lemma head_step i head :
  0 <= i -> i <= len c -> zlen head = len c -> take (Z.to_nat i) head = take (Z.to_nat i) data ->
  zlen (splice_at head i (slice data i 1)) = len c /\
  take (S (Z.to_nat i)) (splice_at head i (slice data i 1)) = take (S (Z.to_nat i)) data.
Proof.
  intros Hi Hic Hl Hh. pose proof (zlen_data c b Hpre) as Hz. destruct (decide (i < len c)).
  - destruct (slice_one data i) as (v&->&Hv); [lia|]. rewrite splice_one by lia.
    split; [by rewrite zlen_insert|].
    rewrite (take_S_r _ _ v) by (rewrite list_lookup_insert_eq; [done|unfold zlen in *; lia]).
    rewrite (take_S_r data _ v) by done. by rewrite take_insert_ge, Hh by lia.
  - assert (slice data i 1 = []) as ->.
    { apply nil_length_inv. unfold slice. rewrite length_take, length_drop. unfold zlen in *. lia. }
    unfold splice_at. cbn [app length]. rewrite Nat.add_0_r, take_drop. split; [done|].
    rewrite (take_ge head), (take_ge data) in * by (unfold zlen in *; lia). done.
Qed.

Lemma insert_outer toks n i head e :
  0 <= i -> i + Z.of_nat n = len c + 1 -> zlen head = len c ->
  take (Z.to_nat i) head = take (Z.to_nat i) data ->
  (each_with (seqZ i (Z.of_nat n)) (fun i head =>
    v ← within (bitmap_read (skip_eff_map c) (i mod len c));
    if negb v then mret head
    else
      t ← is_det_timeout (before_det_time c) false;
      if (t : bool) then custom_mutator_stage
      else
        head ← each_with toks (fun tok head =>
          run c (insertion_from data head i tok);;
          mret (take (length data) (insertion_from data head i tok))) head;
        mret (splice_at head i (slice data i 1))) head;; mret tt) e =
  each (seqZ i (Z.of_nat n)) (fun i => spec_at c (i mod len c) (each (map (insertion data i) toks) (run (W:=W) (R:=R) c))) e.
Proof.
  pose proof (zlen_data c b Hpre) as Hz. pose proof (len31 c b Hpre).
  revert i head e. induction n as [|n IH]; intros i head e Hi Hn Hl Hh.
  { rewrite seqZ_nil by lia. done. }
  rewrite (seqZ_cons i) by lia. replace (Z.pred (Z.of_nat (S n))) with (Z.of_nat n) by lia.
  cbn [each_with each]. unfold spec_at, guarded.
  rewrite Hall by (apply Z.mod_pos_bound; lia). rewrite !bind_assoc.
  change (within (Some true) ≫= ?k) with (fun e : env W R => k true e). cbn beta. cbn [negb].
  rewrite !bind_assoc. apply bind_ext. intros [] e1; [done|]. rewrite !bind_assoc.
  apply insert_inner; [lia|done|done|]. intros head' e2 Hl' Hh'.
  destruct (head_step i head' Hi ltac:(lia) Hl' Hh'). apply IH; [lia|lia|done|].
  by replace (Z.to_nat (Z.succ i)) with (S (Z.to_nat i)) by lia.
Qed.

(** When the effector map counts every byte, the insertion stages run exactly the test
    case with each token that fits inserted at each position, from any contents of the
    scratch buffer. *)
Theorem insert_exact toks x :
  Forall (fun tok => zlen tok <= MAX_DICT_FILE) toks ->
  sim (W:=W) (R:=R) b b x (insert_stage c toks) (spec_insert c data toks) (fun _ _ o _ => o = b).
Proof.
  intros Hl. pose proof (zlen_data c b Hpre) as Hz. pose proof (len31 c b Hpre).
  eapply sim_spec; [|eapply sim_value; [by apply sim_insert|by intros ? ? ? [-> _]]].
  intros e. unfold actual_insert, spec_insert, spec_stage. rewrite Hz.
  replace (len c + 1) with (Z.of_nat (Z.to_nat (len c + 1))) by lia.
  apply insert_outer; [lia|lia| |done]. apply (zlen_scratch c b Hpre _ _ (scratch_realloc c b Hpre x)).
Qed.
End Refine.

(** ** Examples *)

(** A target that takes everything and keeps what it was given; the checksum tells
    whether the last input was [det_ex_data]. *)
Definition det_ex_data : list Z := [73; 0; 72; 0; 68].

#[local] Instance recorder : Fuzzer (list (list Z)) := {
  fuzz_run_target w x := (FSRV_RUN_OK, w ++ [x]);
  stop_requested _ := false;
  skip_requested _ := false;
  clear_skip_request w := w;
  trace_cksum w := if bool_decide (head (rev w) = Some det_ex_data) then 0 else 1;
  queued_items _ := 0;
  save_if_interesting w _ _ := Some (0, w);
  get_cur_time w := (0, w)
}.

Definition det_ex_env (toks : list (list Z)) : env (list (list Z)) (list Z) :=
  Env [] [] (ExtrasSt toks [] false) 0 0 0.

(** [d] in an allocation with room, [map] its effector map. *)
Definition det_ex_cfg (d map : list Z) : det_cfg := DetCfg d (zlen d) map 0 1 MAX_FILE false false 256.
Definition det_ex_buf (d : list Z) : list Z := splice_at (afl_realloc [] (zlen d)) 0 d.

Definition ran {A} (f : flow (det_st (list (list Z)) (list Z)) A) : list (list Z) :=
  match f with Next _ s => e_fuzzer (det_env s) | _ => [] end.

(** Three ways in which the stages differ from what their comments say.  With only the
    last byte of [1 2 3] effective, the insertion of a token before it runs an input whose
    first two bytes are 0, the contents of a fresh scratch buffer, and not 1 2.  When the
    allocation of [out_buf] is full, which it is for 56 bytes, the copy of the head at the
    end reads behind it.  Bytes that are skipped do not end a token: from
    [I 0 H 0 D] with the zeros not effective, [IHD] becomes an automatic token. *)
Theorem det_stages_defects :
  ran (insert_stage (det_ex_cfg [1; 2; 3] [4]) [[9; 9; 9]] (DetSt (det_ex_buf [1; 2; 3]) [] (det_ex_env [])))
    = [[0; 0; 9; 9; 9; 3]] /\
  insertion [1; 2; 3] 2 [9; 9; 9] = [1; 2; 9; 9; 9; 3] /\
  insert_stage (det_ex_cfg (replicate 56 7) (replicate 7 255)) [[9]]
    (DetSt (det_ex_buf (replicate 56 7)) [] (det_ex_env [])) = OutOfBounds /\
  match flip1 (det_ex_cfg det_ex_data [21]) (replicate 32 0)
    (DetSt (det_ex_buf det_ex_data) [] (det_ex_env [])) with
  | Next _ s => map a_data (x_a_extras (e_extras (det_env s))) = [[73; 72; 68]]
  | _ => False
  end.
Proof. vm_compute. done. Qed.

(** ** Witnesses *)

Lemma det_ex_pre d map :
  1 <= zlen d <= 48 -> bytes_ok d -> zlen d <= 8 * zlen map -> det_pre (det_ex_cfg d map) (det_ex_buf d).
Proof.
  intros Hl Hd Hm.
  assert (afl_realloc [] (zlen d) = replicate 56 0) as E.
  { unfold afl_realloc, AFL_ALLOC_SIZE_OFFSET, INITIAL_GROWTH_SIZE. change (zlen (@nil Z)) with 0.
    rewrite (wrap_small 64) by (split; lia). cbn [Z.eqb].
    rewrite (proj2 (Z.leb_gt _ _)), (proj2 (Z.ltb_lt _ _)) by lia. done. }
  assert (zlen (det_ex_buf d) = 56) as Hz.
  { unfold det_ex_buf. rewrite E. rewrite zlen_splice_at; [done|lia|]. change (zlen (replicate 56 0)) with 56. lia. }
  assert (slice (det_ex_buf d) 0 (zlen d) = d) as Hs.
  { unfold det_ex_buf, splice_at. change (Z.to_nat 0) with 0%nat. rewrite take_0, slice_0. cbn [app]. apply take_app_length'. unfold zlen. lia. }
  constructor; cbn [len in_buf skip_eff_map min_length max_length det_ex_cfg]; try done; rewrite ?max_file; try lia.
  - unfold det_ex_buf. rewrite E. apply Forall_splice_at; [by apply Forall_replicate|done].
  - split; [lia|]. rewrite Hs. by apply slice_full.
Qed.

Lemma det_ex_tokens : tokens_ok (det_ex_env [[9]; [9; 9]]).
Proof. constructor; repeat constructor; done. Qed.

(** Four bytes, all effective, and two tokens. *)
Example det_stages_refine_witness :
  let c := det_ex_cfg [1; 2; 3; 4] [15] in
  let b := det_ex_buf [1; 2; 3; 4] in
  tokens_ok (det_ex_env [[9]; [9; 9]]) /\
  sim (W:=list (list Z)) (R:=list Z) b b [] (det_stages c (replicate 32 0)) (spec_stages c (data c b) (replicate 32 0) (head_of c []))
    (fun _ _ o _ => o = b) /\
  ran (det_stages c (replicate 32 0) (DetSt b [] (det_ex_env [[9]; [9; 9]]))) !! 40%nat
    = Some [0; 130; 3; 4].
Proof.
  split; [exact det_ex_tokens|]. split; [|vm_compute; reflexivity].
  apply (det_stages_refine (det_ex_cfg [1; 2; 3; 4] [15]) (det_ex_buf [1; 2; 3; 4])); [|done].
  apply det_ex_pre; [done|repeat constructor; done|done].
Defined.

Example insert_exact_witness :
  let c := det_ex_cfg [1; 2] [3] in
  let b := det_ex_buf [1; 2] in
  sim (W:=list (list Z)) (R:=list Z) b b [] (insert_stage c [[9]; [8; 8]]) (spec_insert c (data c b) [[9]; [8; 8]]) (fun _ _ o _ => o = b) /\
  ran (insert_stage c [[9]; [8; 8]] (DetSt b [] (det_ex_env [])))
    = [[9; 1; 2]; [8; 8; 1; 2]; [1; 9; 2]; [1; 8; 8; 2]; [1; 2; 9]; [1; 2; 8; 8]].
Proof.
  split; [|vm_compute; reflexivity].
  apply (insert_exact (det_ex_cfg [1; 2] [3]) (det_ex_buf [1; 2])).
  - apply det_ex_pre; [done|repeat constructor; done|done].
  - intros i Hi. cbn in Hi. assert (i = 0 \/ i = 1) as [->| ->] by (unfold zlen in Hi; cbn in Hi; lia); done.
  - repeat constructor; done.
Defined.
