(* ===== verification/Havoc.v ===== *)
(** * The havoc and splicing stages

    The part of [fuzz_one_original] ([src/afl-fuzz-one.c]) from the label [havoc_stage] to the
    end of the splicing stage, without custom mutators.  The cases of the switch that are those
    of [include/afl-mutations.h] are taken from [Mutations]; here data is inserted by building
    the new contents in [out_scratch] and swapping the two buffers, which [afl_realloc] grows as
    needed.  [in_buf] points into the test case cache or, when splicing, to [afl->in_buf].  The
    counters for the screen and the description of the mutation are left out.

    The file as it stands is not a C program: the block opened after the label
    [retry_havoc_step] (line 2199) is closed at line 2205, before the switch, and once more
    after it (line 3287), so that from there on every closing brace ends one construct
    more than it is indented for and the end of the round, the splicing stage and the label
    [abandon_entry] are left outside.  The definitions from [one_round] on read the file
    without the brace of line 2205, as its indentation has it. *)

From S2P Require Import Prelude Res Rng Diffs TextCheck Cache Extras Tmin Stage MutTables Mutations.

Definition HAVOC_CYCLES : Z := 256.
Definition HAVOC_CYCLES_INIT : Z := 1024.
Definition HAVOC_MIN : Z := 12.
Definition SPLICE_CYCLES : Z := 15.
Definition SPLICE_HAVOC : Z := 32.

(** ** Operators on the two buffers

    [buf] is [out_buf], [tmp_buf] is [out_scratch_buf], [len] is [temp_len]. *)

Section Operators.
Context {R : Type} `{RandSource R}.

Definition realloc_out (n : Z) : M R unit := fun s =>
  Ok (tt, Mst (afl_realloc (buf s) n) (len s) (tmp_buf s) (src s)).
Definition realloc_scratch (n : Z) : M R unit := fun s =>
  Ok (tt, Mst (buf s) (len s) (afl_realloc (tmp_buf s) n) (src s)).

(** [out_buf = new_buf; afl_swap_bufs(AFL_BUF_PARAM(out), AFL_BUF_PARAM(out_scratch));] *)
Definition swap_bufs : M R unit := fun s => Ok (tt, Mst (tmp_buf s) (len s) (buf s) (src s)).

(** Head, inserted part and tail; [blk] takes the place of the bytes from [off] to [off2], and
    [spare] more bytes are asked for. *)
Definition via_scratch (spare : Z) (off : Z) (blk : list Z) (off2 : Z) : M R unit :=
  l ← gets len;
  realloc_scratch (u32 (l + zlen blk - (off2 - off) + spare));;
  hd ← buf_load 0 off;
  tmp_store 0 hd;;
  tmp_store off blk;;
  tl ← buf_load off2 (u32 (l - off2));
  tmp_store (off + zlen blk) tl;;
  swap_bufs;;
  set_len (u32 (l + u32 (zlen blk - (off2 - off)))).

(** [do { copy_from = ...; copy_to = ...; } while (copy_from == copy_to);] *)
Fixpoint draw_pair (fuel : nat) (limit : Z) : M R (Z * Z) :=
  match fuel with
  | O => fun _ => Mutations.NoFuel
  | S fuel =>
      a ← rand limit;
      b ← rand limit;
      if a =? b then draw_pair fuel limit else mret (a, b)
  end.

Definition one_overwrite_copy (fuel : nat) (e : Mutations.env) : M R ctl :=
  l ← gets len;
  if l <? 2 then mret Break
  else
    copy_len ← choose_block_len e (l - 1);
    '(copy_from, copy_to) ← draw_pair fuel (l - copy_len + 1);
    buf_memmove copy_to copy_from copy_len;;
    mret Break.

Definition one_switch (fuel : nat) (e : Mutations.env) : M R ctl :=
  l ← gets len;
  if l <? 4 then mret Break
  else
    switch_from ← rand l;
    switch_to ← draw_other fuel l switch_from;
    let '(switch_len, to_end) :=
      if switch_from <? switch_to then (switch_to - switch_from, l - switch_to)
      else (switch_from - switch_to, l - switch_from) in
    switch_len ← choose_block_len e (Z.min switch_len to_end);
    realloc_scratch switch_len;;
    backup ← buf_load switch_from switch_len;
    tmp_store 0 backup;;
    buf_memcpy switch_from switch_to switch_len;;
    saved ← tmp_load 0 switch_len;
    buf_store switch_to saved;;
    mret Break.

(** [char buf[20]] after [snprintf(buf, sizeof(buf), "%llu", val)]; the bytes behind the
    terminator are those [junk] that were on the stack. *)
Definition printed (junk : list Z) (val : Z) : list Z := take 20 (snprintf_dec 20 val ++ 0 :: junk).

Definition one_insertasciinum (junk : list Z) : M R ctl :=
  r ← rand 8;
  let n := 1 + r in
  l ← gets len;
  pos ← rand l;
  if l <? u32 (pos + n) then mret (if l <? 8 then Break else Retry)
  else
    val ← rand_u64;
    bs ← fault_opt (load (printed junk val) 0 n);
    buf_store pos bs;;
    mret Break.

Definition one_extra_insert (e : Mutations.env) (toks : list extra_data) (cnt : Z) : M R ctl :=
  if negb (z2b cnt) then mret Retry
  else
    use_extra ← rand cnt;
    x ← fault_opt (get toks use_extra);
    l ← gets len;
    if u32 (l + extra_len x) >=? max_len e then mret Retry
    else
      insert_at ← rand (l + 1);
      realloc_out (u32 (l + extra_len x));;
      buf_memmove (insert_at + extra_len x) insert_at (u32 (l - insert_at));;
      bs ← fault_opt (load (data x) 0 (extra_len x));
      buf_store insert_at bs;;
      set_len (u32 (l + extra_len x));;
      mret Break.

(** The cases that work on [out_buf] and [out_scratch_buf] alone. *)
Definition one_mut (fuel : nat) (junk : list Z) (e : Mutations.env) (m : mut) : M R ctl :=
  match m with
  | MUT_FLIPBIT => mut_flipbit
  | MUT_INTERESTING8 => mut_interesting8
  | MUT_INTERESTING16 => mut_interesting16
  | MUT_INTERESTING16BE => mut_interesting16be
  | MUT_INTERESTING32 => mut_interesting32
  | MUT_INTERESTING32BE => mut_interesting32be
  | MUT_ARITH8_ => mut_arith8_sub
  | MUT_ARITH8 => mut_arith8
  | MUT_ARITH16_ => mut_arith16_sub
  | MUT_ARITH16BE_ => mut_arith16be_sub
  | MUT_ARITH16 => mut_arith16
  | MUT_ARITH16BE => mut_arith16be
  | MUT_ARITH32_ => mut_arith32_sub
  | MUT_ARITH32BE_ => mut_arith32be_sub
  | MUT_ARITH32 => mut_arith32
  | MUT_ARITH32BE => mut_arith32be
  | MUT_RAND8 => mut_rand8
  | MUT_CLONE_COPY => clone_copy (via_scratch 0) e
  | MUT_CLONE_FIXED => clone_fixed (via_scratch 0) e
  | MUT_OVERWRITE_COPY => one_overwrite_copy fuel e
  | MUT_OVERWRITE_FIXED => mut_overwrite_fixed e
  | MUT_BYTEADD => mut_byteadd
  | MUT_BYTESUB => mut_bytesub
  | MUT_FLIP8 => mut_flip8
  | MUT_SWITCH => one_switch fuel e
  | MUT_DEL => mut_del e
  | MUT_SHUFFLE => mut_shuffle fuel e
  | MUT_DELONE => mut_delone
  | MUT_INSERTONE => insertone (via_scratch 0)
  | MUT_ASCIINUM => asciinum 20 (via_scratch 0)
  | MUT_INSERTASCIINUM => one_insertasciinum junk
  | MUT_EXTRA_OVERWRITE => extra_overwrite (extras e) (extras_cnt e)
  | MUT_EXTRA_INSERT => one_extra_insert e (extras e) (extras_cnt e)
  | MUT_AUTO_EXTRA_OVERWRITE => extra_overwrite (a_extras e) (a_extras_cnt e)
  | MUT_AUTO_EXTRA_INSERT => one_extra_insert e (a_extras e) (a_extras_cnt e)
  | MUT_SPLICE_OVERWRITE | MUT_SPLICE_INSERT => mret Retry
  end.
End Operators.

(** ** What splicing needs of the queue and its cache *)

Class Splicing (W R : Type) := {
  ready_for_splicing : W -> Z;
  current_entry : W -> Z;
  entry_len : W -> Z -> option Z;
  testcase_get : W -> R -> Z -> res (bufptr * W * R);
  testcase_deref : W -> bufptr -> option (list Z);
  in_exploration : W -> bool
}.

Section Havoc.
Context {W R : Type} `{Fuzzer W} `{RandSource R} `{Splicing W R}.

(** The settings; [perf_score] and [doing_det] are local variables of [fuzz_one_original]. *)
Record hv_cfg := HvCfg {
  hc_min_length : Z;
  hc_max_length : Z;
  hc_havoc_div : Z;
  hc_max_mult : Z;
  hc_stack_pow2 : Z;
  hc_input_mode : Z;
  hc_use_splicing : bool;
  hc_custom_only : bool;
  hc_queue_cycle : Z;
  hc_run_over10m : bool;
  hc_junk : list Z
}.

(** What [in_buf] points to. *)
Inductive in_ptr := Cached (p : bufptr) | Spliced.

(** [out_buf], [out_scratch_buf], [temp_len], [in_buf] and its length [len],
    [afl->in_buf], [in_scratch_buf]. *)
Record hv_st := HvSt {
  h_out : list Z;
  h_scratch : list Z;
  h_temp_len : Z;
  h_in : in_ptr;
  h_len : Z;
  h_in_buf : list Z;
  h_in_scratch : list Z;
  h_env : Stage.env W R
}.

Context (c : hv_cfg) (fuel : nat) (orig_in : bufptr).

(** ** Accesses *)

Definition with_env (e : Stage.env W R) (s : hv_st) : hv_st :=
  HvSt (h_out s) (h_scratch s) (h_temp_len s) (h_in s) (h_len s) (h_in_buf s) (h_in_scratch s) e.

Definition lift {A} (m : stage (Stage.env W R) A) : stage hv_st A := fun s =>
  match m (h_env s) with
  | Next a e => Next a (with_env e s)
  | Abandon e => Abandon (with_env e s)
  | Leave e => Leave (with_env e s)
  | Fatal => Fatal
  | OutOfBounds => OutOfBounds
  | NoRandom => NoRandom
  | Unfinished => Unfinished
  end.

(** An operator on the buffers, with the generator of the fuzzer. *)
Definition operate {A} (m : M R A) : stage hv_st A := fun s =>
  match m (Mst (h_out s) (h_temp_len s) (h_scratch s) (e_rng (h_env s))) with
  | Ok (a, t) =>
      Next a (HvSt (buf t) (tmp_buf t) (len t) (h_in s) (h_len s) (h_in_buf s) (h_in_scratch s)
                (with_tokens (e_extras (h_env s)) (src t) (h_env s)))
  | Mutations.Fault => OutOfBounds
  | Mutations.NoRand => NoRandom
  | Mutations.NoFuel => Unfinished
  end.

Definition asks {A} (f : W -> A) : stage hv_st A := fun s => Next (f (e_fuzzer (h_env s))) s.

Definition update (f : hv_st -> option hv_st) : stage hv_st unit := fun s =>
  match f s with Some s => Next tt s | None => OutOfBounds end.

Definition tokens (l : list (list Z)) : list extra_data := map (fun d => Extra d (zlen d)) l.

(** What the operators read. *)
Definition mut_env (x : extras_st) : Mutations.env :=
  Mutations.Env MAX_FILE None 0 (tokens (x_extras x)) (zlen (x_extras x))
    (tokens (map a_data (x_a_extras x))) (zlen (x_a_extras x)) (hc_queue_cycle c) (hc_run_over10m c).

Definition the_env : stage hv_st Mutations.env := fun s => Next (mut_env (e_extras (h_env s))) s.

Definition in_deref : stage hv_st (list Z) := fun s =>
  match h_in s with
  | Cached p => within (testcase_deref (e_fuzzer (h_env s)) p) s
  | Spliced => Next (h_in_buf s) s
  end.

Definition in_len : stage hv_st Z := fun s => Next (h_len s) s.

(** [do { tid = rand_below(...); } while (tid == current_entry || queue_buf[tid]->len < 4);] *)
Fixpoint pick_target (n : nat) : stage hv_st Z :=
  match n with
  | O => fun _ => Unfinished
  | S n =>
      items ← asks queued_items;
      tid ← lift (rand_below_env items);
      cur ← asks current_entry;
      if tid =? cur then pick_target n
      else
        l ← asks (fun w => entry_len w tid);
        l ← within l;
        if l <? 4 then pick_target n else mret tid
  end.

(** [new_buf = queue_testcase_get(afl, target)], with [target->len]. *)
Definition get_target (tid : Z) : stage hv_st (list Z * Z) := fun s =>
  let e := h_env s in
  match entry_len (e_fuzzer e) tid, testcase_get (e_fuzzer e) (e_rng e) tid with
  | Some n, Ret (p, w, r) =>
      match testcase_deref w p with
      | Some b => Next (b, n) (with_env (with_tokens (e_extras e) r (with_fuzzer w e)) s)
      | None => OutOfBounds
      end
  | _, Res.Exit => Fatal
  | _, Res.Fault => OutOfBounds
  | _, Res.NoFuel => NoRandom
  | None, _ => OutOfBounds
  end.

(** ** A step *)

Definition one_splice_overwrite : stage hv_st ctl :=
  ready ← asks ready_for_splicing;
  if ready <=? 1 then mret Retry
  else
    tid ← pick_target fuel;
    '(new_buf, new_len) ← get_target tid;
    e ← the_env;
    operate (splice_overwrite e new_buf new_len).

Definition one_splice_insert : stage hv_st ctl :=
  ready ← asks ready_for_splicing;
  if ready <=? 1 then mret Retry
  else
    l ← operate (gets len);
    if u32 (l + HAVOC_BLK_XL) >=? MAX_FILE then mret Retry
    else
      tid ← pick_target fuel;
      '(new_buf, new_len) ← get_target tid;
      e ← the_env;
      operate (splice_insert (via_scratch 1) e new_buf new_len).

(** The switch. *)
Definition one_case (m : mut) : stage hv_st ctl :=
  match m with
  | MUT_SPLICE_OVERWRITE => one_splice_overwrite
  | MUT_SPLICE_INSERT => one_splice_insert
  | _ => e ← the_env; operate (one_mut fuel (hc_junk c) e m)
  end.

(** From the label [retry_havoc_step] on. *)
Fixpoint one_step (n : nat) (table : list mut) (rand_max : Z) : stage hv_st unit :=
  match n with
  | O => fun _ => Unfinished
  | S n =>
      r ← lift (rand_below_env rand_max);
      m ← within (get table r);
      k ← one_case m;
      match k with
      | Break => mret tt
      | Retry => one_step n table rand_max
      end
  end.

(** ** The stage *)

(** [if (common_fuzz_stuff(afl, out_buf, temp_len)) { goto abandon_entry; }] *)
Definition fuzz_out : stage hv_st unit := fun s =>
  (b ← lift (common_fuzz_stuff (hc_min_length c) (hc_max_length c) (h_out s) (h_temp_len s));
   if (b : bool) then abandon_entry else mret tt) s.

(** [out_buf] gets the original size and contents again. *)
Definition restore_out : stage hv_st unit :=
  b ← in_deref;
  update (fun s =>
    x ← load b 0 (h_len s);
    o ← store (afl_realloc (h_out s) (h_len s)) 0 x;
    Some (HvSt o (h_scratch s) (h_len s) (h_in s) (h_len s) (h_in_buf s) (h_in_scratch s) (h_env s))).

(** The variables of the loop: [stage_max], [perf_score], [havoc_queued]. *)
Record hv_vars := HvVars {
  hv_max : Z;
  hv_perf : Z;
  hv_queued : Z
}.

(** If new things were found, run for a bit longer. *)
Definition prolong (items : Z) (v : hv_vars) : hv_vars :=
  if items =? hv_queued v then v
  else if hv_perf v <=? hc_max_mult c * 100 then
    HvVars (u32 (hv_max v * 2)) (u32 (hv_perf v * 2)) items
  else HvVars (hv_max v) (hv_perf v) items.

Definition one_round (table : list mut) (rand_max stack_max : Z) : stage hv_st unit :=
  k ← lift (rand_below_env stack_max);
  each (seqZ 0 (1 + k)) (fun _ => one_step fuel table rand_max);;
  fuzz_out;;
  restore_out.

Fixpoint havoc_loop (n : nat) (table : list mut) (rand_max stack_max cur : Z) (v : hv_vars) :
  stage hv_st unit :=
  if cur <? hv_max v then
    match n with
    | O => fun _ => Unfinished
    | S n =>
        one_round table rand_max stack_max;;
        items ← asks queued_items;
        havoc_loop n table rand_max stack_max (cur + 1) (prolong items v)
    end
  else mret tt.

(** The number of runs: [cycles * perf_score / havoc_div / 256], but not less than
    [HAVOC_MIN]. *)
Definition stage_max (cycles perf_score : Z) : option Z :=
  if hc_havoc_div c =? 0 then None
  else
    let n := Z.shiftr (u32 (cycles * perf_score) / hc_havoc_div c) 8 in
    Some (if n <? HAVOC_MIN then HAVOC_MIN else n).

(** From the label [havoc_stage] to the statistics of the stage; [splice_cycle] is not 0 when
    splicing. *)
Definition havoc_stage (n : nat) (doing_det : bool) (perf_score splice_cycle : Z) : stage hv_st unit :=
  if hc_custom_only c then abandon_entry
  else
    sm ← within (stage_max (if splice_cycle =? 0 then if doing_det then HAVOC_CYCLES_INIT else HAVOC_CYCLES
                            else SPLICE_HAVOC) perf_score);
    update (fun s => Some (HvSt (h_out s) (h_scratch s) (h_len s) (h_in s) (h_len s) (h_in_buf s)
                             (h_in_scratch s) (h_env s)));;
    items ← asks queued_items;
    expl ← asks in_exploration;
    let '(table, rand_max) := havoc_array (hc_input_mode c) (b2z (negb expl)) in
    k ← lift (rand_below_env (hc_stack_pow2 c));
    havoc_loop n table rand_max (u32 (Z.shiftl 1 (1 + k))) 0 (HvVars sm perf_score items).

(** ** Splicing *)

(** The new [in_buf] is [in_buf] up to [split_at] and [new_buf] from there on. *)
Definition splice_at_diff (new_buf : list Z) (new_len split_at : Z) : stage hv_st unit :=
  b ← in_deref;
  update (fun s =>
    let scratch := afl_realloc (h_in_scratch s) new_len in
    hd ← load b 0 split_at;
    scratch ← store scratch 0 hd;
    tl ← load new_buf 0 (u32 (new_len - split_at));
    scratch ← store scratch split_at tl;
    x ← load scratch 0 new_len;
    o ← store (afl_realloc (h_out s) new_len) 0 x;
    Some (HvSt o (h_scratch s) (h_temp_len s) Spliced new_len scratch (h_in_buf s) (h_env s))).

(** From the label [retry_splicing] on; [Some cycle]: back to the havoc stage with that
    [splice_cycle]. *)
Fixpoint splicing (n : nat) (cycle : Z) : stage hv_st (option Z) :=
  match n with
  | O => fun _ => Unfinished
  | S n =>
      ready ← asks ready_for_splicing;
      cur ← asks current_entry;
      cur_len ← asks (fun w => entry_len w cur);
      cur_len ← within cur_len;
      if hc_use_splicing c && (cycle <? SPLICE_CYCLES) && (1 <? ready) && (4 <=? cur_len) then
        update (fun s => Some
          match h_in s with
          | Cached _ => s
          | Spliced => HvSt (h_out s) (h_scratch s) (h_temp_len s) (Cached orig_in) cur_len
                         (h_in_buf s) (h_in_scratch s) (h_env s)
          end);;
        tid ← pick_target fuel;
        '(new_buf, new_len) ← get_target tid;
        b ← in_deref;
        l ← in_len;
        '(f_diff, l_diff) ← within (locate_diffs b new_buf (Z.min l new_len));
        if (f_diff <? 0) || (l_diff <? 2) || (f_diff =? l_diff) then splicing n (cycle + 1)
        else
          k ← lift (rand_below_env (l_diff - f_diff));
          splice_at_diff new_buf new_len (f_diff + k);;
          mret (Some (cycle + 1))
      else mret None
  end.

(** The havoc stage, and again after each splice. *)
Fixpoint havoc_and_splice (n rounds : nat) (doing_det : bool) (orig_perf splice_cycle : Z) :
  stage hv_st unit :=
  match n with
  | O => fun _ => Unfinished
  | S n =>
      havoc_stage rounds doing_det orig_perf splice_cycle;;
      next ← splicing 16 splice_cycle;
      match next with
      | None => mret tt
      | Some cycle => havoc_and_splice n rounds doing_det orig_perf cycle
      end
  end.
End Havoc.
Arguments hv_st : clear implicits.
