(* ===== verification/HavocOps.v ===== *)
(** * The operators of the havoc stage on growing buffers

    Each case of the switch in [fuzz_one_original] that works on [out_buf] and [out_scratch_buf]
    stays inside them, whatever their size, since it grows them before it needs more; the effect
    is that of the same operator of [afl_mutate] but for the two on decimal numbers. *)

From S2P Require Import Prelude Res Rng Stage StageFacts MutTables Mutations MutationsFacts MutationsOps Havoc.

(** ** Effects *)

(** The environment with [sp] as the other test case. *)
Definition splice_env (e : Mutations.env) (sp : list Z) : Mutations.env :=
  Mutations.Env (max_len e) (Some sp) (zlen sp) (extras e) (extras_cnt e) (a_extras e)
    (a_extras_cnt e) (queue_cycle e) (run_over10m e).

(** [files] are the test cases that may be spliced in. *)
Definition one_effect (e : Mutations.env) (junk : list Z) (files : list Z -> Prop) (m : mut)
  (d d' : list Z) : Prop :=
  match m with
  | MUT_ASCIINUM => too_short 8 d d' \/
      exists off off2 v, digit_run d off off2 /\ d' = replaced d off (snprintf_dec 20 v) off2
  | MUT_INSERTASCIINUM => too_short 8 d d' \/ over d d' (fun _ blk =>
      exists v n, is_u64 v /\ 1 <= n <= 8 /\ blk = slice (printed junk v) 0 n)
  | MUT_SPLICE_OVERWRITE | MUT_SPLICE_INSERT => exists sp, files sp /\ effect (splice_env e sp) m d d'
  | _ => effect e m d d'
  end.

(** ** States *)

Definition BUF_BITS : Z := 30.

(** The largest step in length that does not look at [MAX_FILE]: a digit that becomes a number
    of 19 characters. *)
Definition LEN_STEP : Z := 18.

Record hv_buf {S} (s : mst S) : Prop := HvBuf {
  hb_data : wf_data s;
  hb_out : zlen (buf s) <= 2 ^ BUF_BITS;
  hb_scratch : zlen (tmp_buf s) <= 2 ^ BUF_BITS;
  hb_len : len s <= 2 ^ 28
}.

Record hv_post {S} (e : Mutations.env) (eff : list Z -> list Z -> Prop) (s : mst S) (c : ctl) (s' : mst S) : Prop := HvPost {
  hp_data : wf_data s';
  hp_out : zlen (buf s') <= 2 ^ BUF_BITS;
  hp_scratch : zlen (tmp_buf s') <= 2 ^ BUF_BITS;
  hp_len : len s' <= Z.max (len s) (max_len e) + LEN_STEP;
  hp_effect : match c with
              | Break => eff (dat s) (dat s')
              | Retry => len s' = len s /\ dat s' = dat s
              end
}.

Section Operators.
Context {S : Type} `{RandSource S}.
Context (e : Mutations.env) (He : wf_env e) (Hmax_len : max_len e <= 2 ^ 28).
Context (junk : list Z) (Hjunk : bytes_ok junk /\ 8 <= zlen junk) (files : list Z -> Prop).
Implicit Types (s : mst S).

(** An operator that keeps its allocations. *)
Lemma hv_post_of_post m (eff : list Z -> list Z -> Prop) s c s' :
  hv_buf s -> (forall d d', effect e m d d' -> eff d d') ->
  growth m <= LEN_STEP -> post e m s c s' -> hv_post e eff s c s'.
Proof.
  intros [[] ? ? ?] Heff Hg []. unfold LEN_STEP in *. split.
  - split; [lia|lia|lia|done].
  - lia.
  - lia.
  - unfold LEN_STEP. lia.
  - destruct c; auto.
Qed.

Lemma hv_post_same (eff : list Z -> list Z -> Prop) s c s' :
  hv_buf s -> buf s' = buf s -> len s' = len s -> tmp_buf s' = tmp_buf s ->
  (c = Break -> eff (dat s) (dat s)) -> hv_post e eff s c s'.
Proof.
  intros [[] ? ? ?] Hb Hl Ht Heff. assert (dat s' = dat s) as Ed by (unfold dat; by rewrite Hb, Hl).
  split; [split|..]; rewrite ?Hb, ?Hl, ?Ht, ?Ed; try done; [unfold LEN_STEP; lia|]. destruct c; auto.
Qed.

(** Head, block and tail in the scratch buffer, which then is the data. *)
Lemma wp_via_scratch spare off blk off2 Q s :
  let l' := len s + zlen blk - (off2 - off) in
  hv_buf s -> 0 <= off <= off2 -> off2 <= len s -> bytes_ok blk -> 1 <= l' <= 2 ^ 29 -> 0 <= spare <= 1 ->
  (forall s', wf_data s' -> zlen (buf s') <= 2 ^ BUF_BITS -> zlen (tmp_buf s') <= 2 ^ BUF_BITS -> len s' = l' ->
     dat s' = replaced (dat s) off blk off2 -> Q tt s') ->
  wp (via_scratch spare off blk off2) Q s.
Proof.
  intros l' [[] Hout Hscr Hlen] Ho H2 Hblk Hl Hsp HQ. unfold BUF_BITS in *. pose proof (zlen_nonneg blk) as Hn.
  assert (u32 (len s + u32 (zlen blk - (off2 - off))) = l') as El.
  { unfold wrap. rewrite Z.add_mod_idemp_r by done. rewrite Z.mod_small; unfold l' in *; lia. }
  unfold via_scratch. apply wp_bind, wp_gets, wp_bind. unfold wp at 1, realloc_scratch.
  fold l'. rewrite (wrap_small 32 (l' + spare)) by (unfold in_width; lia).
  set (t0 := afl_realloc (tmp_buf s) (l' + spare)).
  assert (l' + spare <= zlen t0) as Ht by (apply afl_realloc_room; lia).
  assert (zlen t0 <= 2 ^ 30) as Ht30 by (apply afl_realloc_max; lia).
  set (hd := slice (buf s) 0 off). assert (zlen hd = off) as Eh by (apply zlen_slice; lia).
  apply wp_bind, wp_buf_load; cbn [buf]; [lia..|]. fold hd.
  apply wp_bind, wp_tmp_store; cbn [tmp_buf]; [lia|unfold l' in *; lia|].
  apply wp_bind, wp_tmp_store; st_simpl; [lia|rewrite zlen_splice_at; unfold l' in *; lia|].
  rewrite (wrap_small 32 (len s - off2)) by (unfold in_width; lia).
  apply wp_bind, wp_buf_load; st_simpl; [lia..|].
  set (tl := slice (buf s) off2 _). assert (zlen tl = len s - off2) as Etl by (apply zlen_slice; lia).
  set (t1 := splice_at (splice_at t0 0 hd) off blk).
  assert (zlen t1 = zlen t0) as E1 by (unfold t1; rewrite !zlen_splice_at; rewrite ?zlen_splice_at; unfold l' in *; lia).
  apply wp_bind, wp_tmp_store; st_simpl; [lia|unfold l' in *; lia|].
  apply wp_bind. unfold wp at 1, swap_bufs. st_simpl. rewrite El. apply wp_set_len. st_simpl.
  set (t := splice_at t1 (off + zlen blk) tl).
  assert (zlen t = zlen t0) as Et by (unfold t; rewrite zlen_splice_at; unfold l' in *; lia).
  assert (slice t 0 l' = replaced (dat s) off blk off2) as Ec.
  { unfold t. replace l' with (off + zlen blk + zlen tl) by (unfold l'; lia).
    rewrite slice_splice_upto by (unfold l' in *; lia). unfold t1.
    rewrite slice_splice_upto by (rewrite ?zlen_splice_at; unfold l' in *; lia).
    unfold replaced. rewrite <- app_assoc, zlen_dat by lia. rewrite !slice_dat by lia. f_equal.
    pose proof (slice_splice_same t0 0 hd) as Hh. rewrite Eh in Hh. apply Hh; unfold l' in *; lia. }
  apply HQ; st_simpl; [|lia|lia|done|by unfold dat at 1].
  split; st_simpl; [lia|lia|lia|]. unfold dat. st_simpl. rewrite Ec.
  apply Forall_replaced; [done|done].
Qed.

(** Inserting operators: [replace] is [via_scratch]. *)
Lemma wp_scratch_insert eff spare s r off blk off2 :
  let l' := len s + zlen blk - (off2 - off) in
  hv_buf s -> 0 <= off <= off2 -> off2 <= len s -> bytes_ok blk -> 1 <= l' ->
  l' <= Z.max (len s) (max_len e) + LEN_STEP -> 0 <= spare <= 1 ->
  eff (dat s) (replaced (dat s) off blk off2) ->
  wp (via_scratch spare off blk off2) (fun _ => hv_post e eff s Break) (with_src r s).
Proof.
  intros l' Hs Ho H2 Hblk Hl Hmax Hsp Heff. pose proof (we_max e He). pose proof Hs as [Hd ? ? ?]. pose proof Hd as [].
  apply wp_via_scratch; unfold LEN_STEP in *; st_simpl; [|lia|lia|done|unfold l' in *; lia|done|].
  { split; [by destruct Hd; split|done|done|done]. }
  intros s' Hd' Ho' Hs' Hl' E'. split; [done|done|done|unfold LEN_STEP; unfold l' in *; lia|]. by rewrite E'.
Qed.

Abbreviation hv_ok m := (hv_post e (one_effect e junk files m)).

Lemma one_clone_copy_ok s : hv_buf s -> wp (clone_copy (via_scratch 0) e) (hv_ok MUT_CLONE_COPY s) s.
Proof.
  intros Hs. pose proof Hs as [Hd ? ? ?]. pose proof Hd as [].
  apply (wp_clone_copy e He); [done|intros; apply hv_post_same; [done..|by left]|by apply hv_post_same|].
  intros to from n r Hroom Hto Hf Hfn Hn Hz.
  apply wp_scratch_insert; rewrite ?Hz; unfold LEN_STEP, HAVOC_BLK_XL in *; [done|lia|lia|auto with afl|lia|lia|lia|].
  right. apply ins_intro; [wside|]. exists from, n. rewrite zlen_dat by lia. split_and!; [wside..|done].
Qed.

Lemma one_clone_fixed_ok s : hv_buf s -> wp (clone_fixed (via_scratch 0) e) (hv_ok MUT_CLONE_FIXED s) s.
Proof.
  intros Hs. pose proof Hs as [Hd ? ? ?]. pose proof Hd as [].
  apply (wp_clone_fixed e He); [done|intros; apply hv_post_same; [done..|by left]|by apply hv_post_same|].
  intros to blk r Hroom Hto Hz Hfix Hok.
  apply wp_scratch_insert; unfold LEN_STEP, HAVOC_BLK_XL in *; [done|lia|lia|done|lia|lia|lia|].
  right. apply ins_intro; [wside|done].
Qed.

Lemma one_insertone_ok s : hv_buf s -> wp (insertone (via_scratch 0)) (hv_ok MUT_INSERTONE s) s.
Proof.
  intros Hs. pose proof Hs as [Hd ? ? ?]. pose proof Hd as [].
  apply wp_insertone; [done|intros; apply hv_post_same; [done..|by left]|].
  intros to b r Hto Hb.
  apply wp_scratch_insert; rewrite ?zlen_one; unfold LEN_STEP; [done|lia|lia|apply byte_wrap|lia|lia|lia|].
  right. apply ins_intro; [wside|]. split; [done|]. exact (replicate_fixed 1 b Hb).
Qed.

(** Writing a block inside the data. *)
Lemma hv_post_over eff s off blk s' :
  hv_buf s -> 0 <= off -> off + zlen blk <= len s -> bytes_ok blk ->
  buf s' = splice_at (buf s) off blk -> len s' = len s -> tmp_buf s' = tmp_buf s ->
  eff (dat s) (splice_at (dat s) off blk) -> hv_post e eff s Break s'.
Proof.
  intros [[] ? ? ?] Ho Hl Hok Hb El Et Heff. pose proof (zlen_nonneg blk).
  assert (dat s' = splice_at (dat s) off blk) as Ed by (unfold dat; rewrite Hb, El; apply splice_slice; lia).
  assert (zlen (buf s') = zlen (buf s)) as Ez by (rewrite Hb; apply zlen_splice_at; lia).
  split; [split|..]; rewrite ?Ez, ?El, ?Et, ?Ed; try lia; try done; [auto with afl|unfold LEN_STEP; lia].
Qed.

Lemma one_asciinum_ok s : hv_buf s -> wp (asciinum 20 (via_scratch 0)) (hv_ok MUT_ASCIINUM s) s.
Proof.
  intros Hs. pose proof Hs as [Hd ? ? ?]. pose proof Hd as [].
  apply wp_asciinum; [done|done|intros; apply hv_post_same; [done..|by left]|intros; by apply hv_post_same|].
  intros off off2 v r Hrun. pose proof Hrun as (Ho&H2&_). rewrite zlen_dat in H2 by lia.
  destruct (snprintf_dec_ok 20 v) as [Hok Hlen]; [done|]. set (num := snprintf_dec 20 v) in *.
  assert (one_effect e junk files MUT_ASCIINUM (dat s) (replaced (dat s) off num off2)) as Heff
    by (right; by exists off, off2, v).
  split.
  - intros Hz. eapply (hv_post_over _ _ off num); st_simpl; try done; [lia|lia|].
    rewrite <- replaced_same, Z.add_comm; [|lia|rewrite zlen_dat; lia].
    by replace (zlen num + off) with off2 by lia.
  - apply wp_scratch_insert; unfold LEN_STEP; [done|lia|lia|done|lia|lia|lia|done].
Qed.

Lemma printed_ok v : bytes_ok (printed junk v) /\ 8 <= zlen (printed junk v).
Proof.
  destruct (snprintf_dec_ok 20 v) as [Hok Hlen]; [done|]. destruct Hjunk as [Hj Hj8]. unfold printed. split.
  - apply Forall_take, Forall_app. split; [done|]. constructor; [done|done].
  - unfold zlen in *. rewrite length_take, length_app. cbn [length]. lia.
Qed.

Lemma one_insertasciinum_ok s : hv_buf s -> wp (one_insertasciinum junk) (hv_ok MUT_INSERTASCIINUM s) s.
Proof.
  intros Hs. pose proof Hs as [Hd ? ? ?]. pose proof Hd as []. unfold one_insertasciinum. wp_go.
  rewrite wrap_small by (unfold in_width; lia). case_match eqn:Efit; b2p.
  { apply wp_ret. destruct (len s <? 8) eqn:E8; b2p; (apply hv_post_same; [done..|]); [|done].
    intros _. left. split; [rewrite zlen_dat; lia|done]. }
  wp_go. destruct (printed_ok v1) as [Hok Hlen]. eapply wp_opt; [apply load_Some; lia|]. wp_go.
  assert (zlen (slice (printed junk v1) 0 (1 + v)) = 1 + v) as Hz by (apply zlen_slice; lia).
  apply wp_buf_store; rewrite ?Hz; [wside..|]. wp_go.
  eapply (hv_post_over _ _ v0 (slice (printed junk v1) 0 (1 + v))); st_simpl; try done; rewrite ?Hz; [lia|lia|auto with afl|].
  right. exists v0, (slice (printed junk v1) 0 (1 + v)). rewrite Hz, zlen_dat by lia.
  split_and!; [lia|lia| |done]. exists v1, (1 + v). split_and!; done || lia.
Qed.

Lemma wp_draw_pair fuel limit Q s r :
  0 < limit < 2 ^ 32 ->
  (forall a b r, 0 <= a < limit -> 0 <= b < limit -> Q (a, b) (with_src r s)) ->
  wp (draw_pair fuel limit) Q (with_src r s).
Proof.
  intros Hl HQ. revert r. induction fuel as [|fuel IH]; intros r; cbn [draw_pair]; [done|].
  wp_go. case_match; b2p; [apply IH|by apply wp_ret, HQ].
Qed.

Lemma one_overwrite_copy_ok fuel s :
  hv_buf s -> wp (one_overwrite_copy fuel e) (hv_ok MUT_OVERWRITE_COPY s) s.
Proof.
  intros Hs. pose proof Hs as [Hd ? ? ?]. pose proof Hd as []. unfold one_overwrite_copy. wp_go.
  case_match; b2p; [apply wp_ret, hv_post_same; [done..|]; intros _; left; split; [rewrite zlen_dat; lia|done]|].
  wp_go. apply wp_draw_pair; [wside|]. intros from to r1 Hf Ht. wp_go.
  apply wp_memmove; [wside..|]. wp_go.
  assert (zlen (slice (buf s) from v) = v) as Hz by (apply zlen_slice; wside).
  eapply (hv_post_over _ _ to (slice (buf s) from v)); st_simpl; try done; rewrite ?Hz; [wside|wside| |].
  - rewrite <- slice_dat by wside. auto with afl.
  - right. exists to, (slice (buf s) from v). rewrite Hz, zlen_dat by lia. split_and!; [wside..| |done].
    exists from, v. rewrite slice_dat by wside. split_and!; [wside..|done].
Qed.

(** Growing the buffers keeps the data. *)
Lemma hv_buf_scratch n s :
  hv_buf s -> 0 <= n <= 2 ^ 29 -> hv_buf (Mst (buf s) (len s) (afl_realloc (tmp_buf s) n) (src s)).
Proof.
  intros [[] ? ? ?] Hn. split; cbn [buf len tmp_buf]; [by split|done| |done].
  apply afl_realloc_max; unfold BUF_BITS in *; done || lia.
Qed.

Lemma hv_buf_out n s :
  hv_buf s -> 0 <= n <= 2 ^ 29 -> hv_buf (Mst (afl_realloc (buf s) n) (len s) (tmp_buf s) (src s)) /\
  dat (Mst (afl_realloc (buf s) n) (len s) (tmp_buf s) (src s)) = dat s.
Proof.
  intros [[] ? ? ?] Hn. pose proof (zlen_realloc (buf s) n). unfold BUF_BITS in *.
  assert (zlen (afl_realloc (buf s) n) <= 2 ^ 30) by (apply afl_realloc_max; lia).
  assert (dat (Mst (afl_realloc (buf s) n) (len s) (tmp_buf s) (src s)) = dat s) as Ed
    by (unfold dat; cbn [buf len]; apply slice_realloc; lia).
  split; [|done]. split; cbn [buf len tmp_buf]; [|done|done|done].
  split; cbn [buf len tmp_buf]; [lia|lia|lia|by rewrite Ed].
Qed.

Lemma hv_post_from eff s0 s c s' :
  dat s = dat s0 -> len s = len s0 -> hv_post e eff s c s' -> hv_post e eff s0 c s'.
Proof. intros Ed El []. split; [done|done|done|by rewrite <- El|]. destruct c; by rewrite <- Ed, <- ?El. Qed.

Lemma one_switch_ok fuel s : hv_buf s -> wp (one_switch fuel e) (hv_ok MUT_SWITCH s) s.
Proof.
  intros Hs. pose proof Hs as [Hd ? ? ?]. pose proof Hd as []. unfold one_switch. wp_go.
  case_match; b2p; [apply wp_ret, hv_post_same; [done..|]; intros _; left; split; [rewrite zlen_dat; lia|done]|].
  wp_go. apply wp_draw_other; [wside|]. intros to r' Hto Hne.
  assert (forall n r, 1 <= n -> v + n <= len s -> to + n <= len s -> (v + n <= to \/ to + n <= v) ->
    wp (realloc_scratch n;; backup ← buf_load v n; tmp_store 0 backup;; buf_memcpy v to n;;
        saved ← tmp_load 0 n; buf_store to saved;; mret Break) (hv_ok MUT_SWITCH s) (with_src r s)) as Hx.
  { intros n r1 Hn G1 G2 G3. apply wp_bind. unfold wp at 1, realloc_scratch. st_simpl.
    pose proof (hv_buf_scratch n s Hs ltac:(lia)) as Hs1.
    set (s1 := Mst (buf s) (len s) (afl_realloc (tmp_buf s) n) (src s)) in *.
    change (Mst (buf s) (len s) (afl_realloc (tmp_buf s) n) r1) with (with_src r1 s1).
    eapply wp_mono; [apply (wp_exchange e); [apply Hs1|apply afl_realloc_room; lia|lia|lia|lia|exact G1|exact G2|done]|].
    intros c s2 Hp. apply (hv_post_from _ _ s1); [done|done|].
    eapply (hv_post_of_post MUT_SWITCH); [done| |done|exact Hp]. done. }
  destruct (v <? to) eqn:E; b2p; do 2 wp_step; apply Hx; wside.
Qed.

Lemma one_extra_insert_ok m toks cnt s :
  (forall d d', ins d d' (fun _ blk => token toks blk) -> one_effect e junk files m d d') ->
  dict_ok toks cnt -> hv_buf s -> wp (one_extra_insert e toks cnt) (hv_ok m s) s.
Proof.
  intros Heff Hdi Hs. pose proof Hdi as []. pose proof Hs as [Hd ? ? ?]. pose proof Hd as [].
  unfold one_extra_insert, z2b. rewrite negb_involutive.
  case_match; b2p; [by apply wp_ret, hv_post_same|]. wp_go.
  apply (wp_token toks cnt); [done|done|]. intros x Hx Hok. wp_go. pose proof Hok as [].
  rewrite (wrap_small 32 (len s + extra_len x)) by (unfold in_width; lia).
  case_match; b2p; [by apply wp_ret, hv_post_same|]. wp_go.
  unfold wp at 1, realloc_out. st_simpl. unfold with_src. cbn [buf len tmp_buf src].
  destruct (hv_buf_out (len s + extra_len x) s Hs ltac:(lia)) as [Hs1 Ed1].
  pose proof (afl_realloc_room (buf s) (len s + extra_len x) ltac:(lia)) as Hroom.
  set (b1 := afl_realloc (buf s) (len s + extra_len x)) in *. pose proof Hs1 as [[] ? ? ?]. cbn [buf len tmp_buf] in *.
  rewrite (wrap_small 32 (len s - v0)) by (unfold in_width; lia).
  apply wp_bind, wp_memmove; cbn [buf]; [lia..|]. apply wp_bind, wp_token_data; [done|].
  pose proof (zlen_token x Hok) as Hz. st_simpl.
  assert (zlen (slice b1 v0 (len s - v0)) = len s - v0) as Hz' by (apply zlen_slice; lia).
  apply wp_bind, wp_buf_store; rewrite ?Hz; st_simpl; [lia|rewrite zlen_splice_at; lia|]. wp_go.
  pose proof (insert_in_place b1 (slice (data x) 0 (extra_len x)) (len s) v0) as Ed.
  rewrite Hz in Ed. specialize (Ed ltac:(lia) ltac:(lia)).
  change (slice b1 0 (len s)) with (dat (Mst b1 (len s) (tmp_buf s) (src s))) in Ed. rewrite Ed1 in Ed.
  set (b2 := splice_at _ v0 _) in *.
  assert (zlen b2 = zlen b1) as Eb2 by (unfold b2; rewrite !zlen_splice_at; rewrite ?zlen_splice_at; lia).
  split; [split|..]; unfold dat, LEN_STEP in *; st_simpl; rewrite ?Ed; try lia; try done.
  - apply Forall_replaced; [done|]. auto with afl.
  - apply Heff, (ins_intro (dat s)); [wside|]. by exists x.
Qed.

(** The operators taken over from [afl_mutate]. *)
Lemma one_of_mut m (op : M S ctl) s :
  (forall d d', effect e m d d' -> one_effect e junk files m d d') -> growth m <= LEN_STEP ->
  (wf_data s -> wp op (post e m s) s) -> hv_buf s -> wp op (hv_ok m s) s.
Proof.
  intros Heff Hg Hop Hs. eapply wp_mono; [apply Hop, Hs|]. intros c s' Hp.
  by eapply (hv_post_of_post m).
Qed.

Ltac by_mut H := apply one_of_mut; [done|done|intros Hd; by apply H|done].

Lemma one_mut_run fuel m s :
  m <> MUT_SPLICE_OVERWRITE -> m <> MUT_SPLICE_INSERT -> hv_buf s ->
  wp (one_mut fuel junk e m) (hv_ok m s) s.
Proof.
  intros N1 N2 Hs. pose proof (we_extras e He). pose proof (we_a_extras e He).
  destruct m; cbn [one_mut];
  [ by_mut mut_flipbit_ok
  | by_mut mut_interesting8_ok
  | by_mut mut_interesting16_ok
  | by_mut mut_interesting16be_ok
  | by_mut mut_interesting32_ok
  | by_mut mut_interesting32be_ok
  | by_mut mut_arith8_sub_ok
  | by_mut mut_arith8_ok
  | by_mut mut_arith16_sub_ok
  | by_mut mut_arith16be_sub_ok
  | by_mut mut_arith16_ok
  | by_mut mut_arith16be_ok
  | by_mut mut_arith32_sub_ok
  | by_mut mut_arith32be_sub_ok
  | by_mut mut_arith32_ok
  | by_mut mut_arith32be_ok
  | by_mut mut_rand8_ok
  | by apply one_clone_copy_ok
  | by apply one_clone_fixed_ok
  | by apply one_overwrite_copy_ok
  | by_mut mut_overwrite_fixed_ok
  | by_mut mut_byteadd_ok
  | by_mut mut_bytesub_ok
  | by_mut mut_flip8_ok
  | by apply one_switch_ok
  | by_mut mut_del_ok
  | by_mut mut_shuffle_ok
  | by_mut mut_delone_ok
  | by apply one_insertone_ok
  | by apply one_asciinum_ok
  | by apply one_insertasciinum_ok
  | by_mut extra_overwrite_ok
  | by apply one_extra_insert_ok
  | by_mut extra_overwrite_ok
  | by apply one_extra_insert_ok
  | done | done ].
Qed.

(** The operators that take a block of another test case, of which [b] holds [n] bytes. *)
Section Splice.
Context (b : list Z) (n : Z) (Hb : bytes_ok (slice b 0 n)) (Hn : 4 <= n <= zlen b) (Hsmall : n < 2 ^ 30).
Context (Hfile : files (slice b 0 n)).

Lemma one_splice_overwrite_ok s : hv_buf s -> wp (splice_overwrite e b n) (hv_ok MUT_SPLICE_OVERWRITE s) s.
Proof.
  intros Hs. assert (zlen (slice b 0 n) = n) as Hz by (apply zlen_slice; lia).
  assert (wf_env (splice_env e (slice b 0 n))) as He'.
  { destruct He. split; [done|done|done|done|]. intros sp [= <-]. cbn [splice_len splice_env]. rewrite Hz.
    split_and!; [done|lia|lia|done]. }
  change (splice_overwrite e b n) with (splice_overwrite (S:=S) (splice_env e (slice b 0 n)) b n).
  eapply wp_mono; [eapply (splice_overwrite_ok _ He' MUT_SPLICE_OVERWRITE);
    [apply Hs|done|lia|done|exact (fun d d' x => x)|]|].
  { intros off from k ? ? ?. exists (slice b 0 n), from, k. cbn [splice_buf splice_len splice_env]. rewrite Hz.
    split_and!; [done|lia|lia|lia|]. by rewrite slice_slice by lia. }
  intros c s' []. pose proof Hs as [[] ? ? ?]. split; [split|..]; try lia; try done.
  - unfold LEN_STEP. cbn [splice_env max_len growth] in *. lia.
  - destruct c; [|done]. by exists (slice b 0 n).
Qed.

Lemma one_splice_insert_ok s :
  hv_buf s -> len s + HAVOC_BLK_XL < max_len e ->
  wp (splice_insert (via_scratch 1) e b n) (hv_ok MUT_SPLICE_INSERT s) s.
Proof.
  intros Hs Hroom. pose proof Hs as [Hd ? ? ?]. pose proof Hd as [].
  assert (zlen (slice b 0 n) = n) as Hz by (apply zlen_slice; lia).
  apply (wp_splice_insert e He); [done|done|lia|done|]. intros to from k r Hto Hf Hfk Hk Hzk Hbs.
  apply wp_scratch_insert; rewrite ?Hzk; unfold LEN_STEP, HAVOC_BLK_XL in *; [done|lia|lia|done|lia|lia|lia|].
  exists (slice b 0 n). split; [done|]. apply ins_intro; [wside|]. exists (slice b 0 n), from, k.
  cbn [splice_buf splice_len splice_env]. rewrite Hz. split_and!; [done|lia|lia|lia|unfold HAVOC_BLK_XL; lia|].
  by rewrite slice_slice by lia.
Qed.
End Splice.
End Operators.
