(* ===== verification/HavocTerm.v ===== *)
(** * Termination of the operators of the havoc stage

    On every finite list of random answers the loops of the operators end, as in
    [MutationsTerm]; the pairs of [MUT_OVERWRITE_COPY] are drawn from at least two positions. *)

From S2P Require Import Prelude Res Rng Stage StageFacts MutTables Mutations MutationsFacts MutationsOps MutationsTerm Havoc HavocOps.

Section Calm.
Context (F : nat).

(** What is known of the result may be used. *)
Lemma calm_wp {A} (m : M (list Z) A) (P : A -> Prop) :
  calm_ F m -> (forall s, wp m (fun a _ => P a) s) -> calm F m P.
Proof.
  intros Hc Hw s Hs Hl. specialize (Hc s Hs Hl). specialize (Hw s). unfold wp in Hw.
  destruct (m s) as [[a s']| | |]; try done. by destruct Hc as (_&?).
Qed.

Lemma choose_block_len_range e limit :
  0 <= queue_cycle e -> 0 <= limit < 2 ^ 32 ->
  calm F (choose_block_len e limit) (fun v => 1 <= v <= Z.max 1 (Z.min limit HAVOC_BLK_XL)).
Proof.
  intros Hq Hl. apply calm_wp; [auto with calm|]. intros s. by apply wp_choose_block_len.
Qed.

Lemma realloc_out_calm n : calm_ F (realloc_out (R:=list Z) n).
Proof. intros s Hs Hl. done. Qed.
Lemma realloc_scratch_calm n : calm_ F (realloc_scratch (R:=list Z) n).
Proof. intros s Hs Hl. done. Qed.
Lemma swap_bufs_calm : calm_ F (swap_bufs (R:=list Z)).
Proof. intros s Hs Hl. done. Qed.
#[local] Hint Resolve realloc_out_calm realloc_scratch_calm swap_bufs_calm : calm.

Lemma via_scratch_calm spare off blk off2 : calm_ F (via_scratch (R:=list Z) spare off blk off2).
Proof. unfold via_scratch. calm_tac. Qed.
#[local] Hint Resolve via_scratch_calm : calm.

Lemma draw_pair_calm limit : 1 < limit < 2 ^ 32 -> calm_ F (draw_pair (R:=list Z) F limit).
Proof.
  intros Hlim. assert (forall f s, (length (src s) < f)%nat -> is_u32 (len s) ->
    match draw_pair (R:=list Z) f limit s with
    | Ok (a, s') => True /\ (length (src s') <= length (src s))%nat /\ is_u32 (len s')
    | Fault | NoRand => True
    | NoFuel => False
    end) as Hf; [|exact (Hf F)].
  induction f as [|f IH]; intros s Hs Hl; [lia|]. cbn [draw_pair]. unfold mbind, M_bind.
  pose proof (calm_rand (S (length (src s))) limit s ltac:(lia) Hl) as C1.
  destruct (rand limit s) as [[a s1]| | |] eqn:E1; try done.
  apply rand_script in E1 as (El1&?&Hlt). rewrite wrap_small in Hlt by (unfold in_width; lia).
  pose proof (calm_rand (S (length (src s1))) limit s1 ltac:(lia) ltac:(by rewrite El1)) as C2.
  destruct (rand limit s1) as [[b s2]| | |] eqn:E2; try done.
  apply rand_script in E2 as (El2&?&_). destruct (a =? b).
  - specialize (IH s2 ltac:(lia) ltac:(by rewrite El2, El1)).
    destruct (draw_pair f limit s2) as [[]| | |]; try done. destruct IH as (?&?&?). split_and!; [done|lia|done].
  - split_and!; [done|lia|by rewrite El2, El1].
Qed.

Context (e : Mutations.env) (He : wf_env e) (junk : list Z).

Lemma one_overwrite_copy_calm : calm_ F (one_overwrite_copy (R:=list Z) F e).
Proof.
  unfold one_overwrite_copy. apply calm_len. intros l Hl. calm_step; [calm_step|]. b2p. unfold in_width in Hl.
  eapply calm_bind; [apply choose_block_len_range; [apply He|lia]|]. intros n Hn. cbv beta in Hn.
  apply calm_bind_; [apply draw_pair_calm; lia|]. intros [from to]. calm_tac.
Qed.

Lemma one_switch_calm : calm_ F (one_switch (R:=list Z) F e).
Proof.
  unfold one_switch. apply calm_len. intros l Hl. calm_step; [calm_step|]. b2p.
  apply calm_bind_; [auto with calm|]. intros from.
  apply calm_bind_; [apply draw_other_calm; unfold in_width in Hl; lia|]. intros to. calm_tac.
Qed.

Lemma one_mut_calm m : calm_ F (one_mut (R:=list Z) F junk e m).
Proof.
  destruct m; cbn [one_mut]; try apply one_overwrite_copy_calm; try apply one_switch_calm;
    try apply mut_shuffle_calm;
  first [lazymatch goal with |- calm _ ?f _ => let f' := eval red in f in change f with f' end | idtac];
  unfold extra_overwrite, one_extra_insert, clone_copy, clone_fixed, insertone, asciinum; calm_tac.
Qed.

Lemma splice_overwrite_calm sp n : calm_ F (splice_overwrite (S:=list Z) e sp n).
Proof. unfold splice_overwrite. calm_tac. Qed.
Lemma splice_insert_calm sp n : calm_ F (splice_insert (S:=list Z) (via_scratch 1) e sp n).
Proof. unfold splice_insert. calm_tac. Qed.
End Calm.
