(* ===== verification/HavocFacts.v ===== *)
(** * The havoc and splicing stages: safety, termination, and the inputs they run

    For a fuzzer that is given by laws: what [queue_testcase_get] returns, that the current
    test case stays where it is, and how many more runs are possible.  The random answers are
    any finite list. *)

From S2P Require Import Prelude Res Rng Diffs TextCheck Cache Extras Tmin Stage StageFacts MutTables Mutations MutationsFacts MutationsOps MutationsTerm MutationsRun Havoc HavocOps HavocTerm.

Section Facts.
Context {W : Type} `{Fuzzer W} `{Splicing W (list Z)}.
Abbreviation st := (hv_st W (list Z)).

Context (c : hv_cfg) (fuel : nat) (orig_in : bufptr).
Context (cur : list Z) (files : list Z -> Prop) (x0 : extras_st).

(** ** The inputs *)

Definition e0 : Mutations.env := mut_env c x0.

(** A stack of operators. *)
Inductive stacked : nat -> list Z -> list Z -> Prop :=
| stacked_nil d : stacked 0 d d
| stacked_more n m d d1 d2 :
    stacked n d d1 -> one_effect e0 (hc_junk c) files m d1 d2 -> stacked (Datatypes.S n) d d2.

(** What is mutated: the current test case, or its head followed by the start of another. *)
Inductive seed : list Z -> Prop :=
| seed_cur : seed cur
| seed_spliced sp k :
    files sp -> 0 <= k < zlen sp -> k < zlen cur -> seed (slice cur 0 k ++ slice sp 0 (zlen sp - k)).

Definition hv_input (x : list Z) : Prop :=
  exists base n d, seed base /\ (1 <= n)%nat /\ stacked n base d /\
    x = slice d 0 (Z.min (zlen d) (hc_max_length c)).

(** ** What is asked of the rest *)

(** [I n w]: the fuzzer is consistent and [n] more runs are possible. *)
Record splice_laws (I : nat -> W -> Prop) : Prop := SpliceLaws {
  sl_items : forall n w, I n w -> 1 <= queued_items w < 2 ^ 32;
  sl_ready : forall n w, I n w -> 1 < ready_for_splicing w -> 1 < queued_items w;
  sl_cur : forall n w, I n w -> entry_len w (current_entry w) = Some (zlen cur);
  sl_entry : forall n w tid, I n w -> 0 <= tid < queued_items w ->
    exists l, entry_len w tid = Some l /\ l <= MAX_FILE;
  sl_orig : forall n w, I n w ->
    exists b, testcase_deref w orig_in = Some b /\ zlen cur <= zlen b /\ slice b 0 (zlen cur) = cur;
  sl_get : forall n w r tid l, I n w -> 0 <= tid < queued_items w -> entry_len w tid = Some l -> 4 <= l ->
    match testcase_get w r tid with
    | Ret (p, w', r') =>
        I n w' /\ (length r' <= length r)%nat /\
        exists b, testcase_deref w' p = Some b /\ l <= zlen b /\ bytes_ok (slice b 0 l) /\ files (slice b 0 l)
    | Res.Fault => False
    | Exit | Res.NoFuel => True
    end;
  sl_run : forall n (e : Stage.env W (list Z)) x,
    hv_input x -> 1 <= zlen x <= MAX_FILE -> I (Datatypes.S n) (e_fuzzer e) ->
    good (run_written x) e (fun _ e' => I n (e_fuzzer e') /\ e_rng e' = e_rng e /\ e_extras e' = e_extras e)
      (fun _ => False);
  sl_less : forall n w, I (Datatypes.S n) w -> I n w
}.

(** The settings, the test case and the dictionary. *)
Record hv_pre : Prop := HvPre {
  hr_cur : 1 <= zlen cur <= MAX_FILE;
  hr_bytes : bytes_ok cur;
  hr_env : wf_env e0;
  hr_junk : bytes_ok (hc_junk c) /\ 8 <= zlen (hc_junk c);
  hr_min : hc_min_length c <= 1;
  hr_max : 1 <= hc_max_length c <= MAX_FILE;
  hr_div : 0 < hc_havoc_div c;
  hr_mult : 0 < hc_max_mult c < 2 ^ 20;
  hr_stack : 1 <= hc_stack_pow2 c <= 16
}.

Context (I : nat -> W -> Prop) (HI : splice_laws I) (Hpre : hv_pre).
Implicit Type s : st.

(** What does not depend on the mutated data. *)
Record hv_ctx (n : nat) (base : list Z) s : Prop := HvCtx {
  hx_rng : (length (e_rng (h_env s)) < fuel)%nat;
  hx_world : I n (e_fuzzer (h_env s));
  hx_extras : e_extras (h_env s) = x0;
  hx_seed : seed base;
  hx_len : h_len s = zlen base;
  hx_small : 1 <= zlen base <= MAX_FILE;
  hx_bytes : bytes_ok base;
  hx_in : match h_in s with
          | Cached p => p = orig_in /\ base = cur
          | Spliced => zlen base <= zlen (h_in_buf s) /\ slice (h_in_buf s) 0 (zlen base) = base
          end;
  hx_in_buf : zlen (h_in_buf s) <= 2 ^ BUF_BITS;
  hx_in_scratch : zlen (h_in_scratch s) <= 2 ^ BUF_BITS
}.

(** The state of the operators. *)
Definition ops s : mst (list Z) := Mst (h_out s) (h_temp_len s) (h_scratch s) (e_rng (h_env s)).

(** [k] operators were applied. *)
Record hv_data (k : nat) (base : list Z) s : Prop := HvData {
  hd_wf : wf_data (ops s);
  hd_out : zlen (h_out s) <= 2 ^ BUF_BITS;
  hd_scratch : zlen (h_scratch s) <= 2 ^ BUF_BITS;
  hd_len : h_temp_len s <= MAX_FILE + LEN_STEP * Z.of_nat k;
  hd_stack : stacked k base (dat (ops s))
}.

Definition hv_inv n k base s : Prop := hv_ctx n base s /\ hv_data k base s.

(** The entry may be abandoned at any time. *)
Definition left_ok s : Prop := exists n, I n (e_fuzzer (h_env s)).

Abbreviation ok m s Q := (good m s Q left_ok).

(** ** Random answers *)

Definition with_rng (r : list Z) s : st := with_env (with_tokens (e_extras (h_env s)) r (h_env s)) s.

Definition drawn s s' : Prop :=
  exists r, s' = with_rng r s /\ (length r <= length (e_rng (h_env s)))%nat.

Lemma drawn_refl s : drawn s s.
Proof. exists (e_rng (h_env s)). split; [|done]. by destruct s as [? ? ? ? ? ? ? []]. Qed.

Lemma drawn_trans s1 s2 s3 : drawn s1 s2 -> drawn s2 s3 -> drawn s1 s3.
Proof. intros (r&->&Hr) (r'&->&Hr'). exists r'. split; [done|]. cbn in Hr'. lia. Qed.

Lemma drawn_ctx n base s s' : drawn s s' -> hv_ctx n base s -> hv_ctx n base s'.
Proof. intros (r&->&Hr) []. split; cbn in *; done || lia. Qed.

Lemma drawn_data k base s s' : drawn s s' -> hv_data k base s -> hv_data k base s'.
Proof. intros (r&->&Hr) [[] ? ? ? ?]. by split. Qed.

Lemma drawn_inv n k base s s' : drawn s s' -> hv_inv n k base s -> hv_inv n k base s'.
Proof. intros Hd [? ?]. split; [by eapply drawn_ctx|by eapply drawn_data]. Qed.

Lemma draw_ok limit s :
  0 < limit ->
  ok (lift (rand_below_env limit)) s (fun v s' => 0 <= v < limit /\ drawn s s' /\
    (1 < limit -> (length (e_rng (h_env s')) < length (e_rng (h_env s)))%nat)).
Proof.
  intros Hl. unfold good, lift, rand_below_env. cbn [rs_below script_source]. unfold script_below.
  destruct (limit <=? 1) eqn:E; b2p.
  { split; [lia|]. split; [|lia]. by exists (e_rng (h_env s)). }
  destruct (e_rng (h_env s)) as [|x l] eqn:Er; [done|]. cbn. split; [apply Z.mod_pos_bound; lia|].
  split; [|cbn; lia]. exists l. split; [done|]. rewrite Er. cbn. lia.
Qed.

(** ** Operators *)

Lemma buf_of k base s : hv_inv 0 k base s \/ hv_data k base s -> (Z.of_nat k <= 2 ^ 20) -> hv_buf (ops s).
Proof.
  intros Hd Hk. assert (hv_data k base s) as [Hw Ho Hs Hl _] by (destruct Hd as [[]|]; done).
  split; cbn [ops buf tmp_buf len]; [done|done|done|]. unfold MAX_FILE, LEN_STEP in *. lia.
Qed.

Lemma operate_ok {X} (m : M (list Z) X) n k base s Q :
  hv_inv n k base s -> Z.of_nat k <= 2 ^ 20 -> calm_ fuel m -> wp m Q (ops s) ->
  ok (operate m) s (fun x s' => hv_ctx n base s' /\ Q x (ops s') /\
    (length (e_rng (h_env s')) <= length (e_rng (h_env s)))%nat).
Proof.
  intros [Hc Hd] Hk Hcalm Hwp. pose proof (buf_of k base s (or_intror Hd) Hk) as [[] ? ? Hl]. cbn in *.
  specialize (Hcalm (ops s) ltac:(apply Hc) ltac:(unfold in_width; cbn; lia)). unfold wp in Hwp.
  unfold good, operate. fold (ops s). destruct (m (ops s)) as [[x t]| | |]; try done.
  destruct Hcalm as (_&Hr&_). cbn in Hr. split; [|split; [|done]].
  - destruct Hc. split; cbn; done || lia.
  - by destruct t.
Qed.

(** After an operator that is done, or one that draws again. *)
Lemma after_case n k base s s' ctl m :
  hv_data k base s -> hv_ctx n base s' ->
  hv_post e0 (one_effect e0 (hc_junk c) files m) (ops s) ctl (ops s') -> max_len e0 = MAX_FILE ->
  match ctl with Break => hv_inv n (Datatypes.S k) base s' | Retry => hv_inv n k base s' end.
Proof.
  intros [Hw Ho Hs Hl Hst] Hc [Hw' Ho' Hs' Hl' He] Hm. unfold LEN_STEP in *. rewrite Hm in Hl'.
  cbn [ops len buf tmp_buf] in *. destruct ctl.
  - split; [done|]. split; [done|done|done|unfold LEN_STEP; lia|]. by eapply stacked_more.
  - destruct He as [El Ed]. split; [done|]. split; [done|done|done|unfold LEN_STEP; lia|]. by rewrite Ed.
Qed.

(** ** Other test cases *)

Lemma pick_target_ok k n base s :
  hv_ctx n base s -> (length (e_rng (h_env s)) < k)%nat -> 1 < queued_items (e_fuzzer (h_env s)) ->
  ok (pick_target k) s (fun tid s' => drawn s s' /\ 0 <= tid < queued_items (e_fuzzer (h_env s)) /\
    exists l, entry_len (e_fuzzer (h_env s)) tid = Some l /\ 4 <= l).
Proof.
  revert s. induction k as [|k IH]; intros s Hc Hk Hit; [lia|]. cbn [pick_target].
  pose proof (hx_world _ _ _ Hc) as Hw. apply good_bind. unfold good at 1, asks.
  apply good_bind. eapply good_mono; [apply draw_ok; lia|]. cbv beta. intros tid s1 (Ht&Hd&Hlt).
  specialize (Hlt Hit). pose proof (drawn_ctx _ _ _ _ Hd Hc) as Hc1.
  assert (e_fuzzer (h_env s1) = e_fuzzer (h_env s)) as Ew by (by destruct Hd as (r&->&_)).
  assert (ok (pick_target k) s1 (fun tid s' => drawn s s' /\ 0 <= tid < queued_items (e_fuzzer (h_env s)) /\
    exists l, entry_len (e_fuzzer (h_env s)) tid = Some l /\ 4 <= l)) as Hagain.
  { eapply good_mono; [apply IH; [done|lia|by rewrite Ew]|]. rewrite Ew. intros ? s2 (?&?&?).
    split; [by eapply drawn_trans|done]. }
  apply good_bind. unfold good at 1, asks. destruct (tid =? _); [exact Hagain|].
  apply good_bind. unfold good at 1, asks. rewrite Ew.
  destruct (sl_entry I HI n _ tid Hw Ht) as (l&El&_). rewrite El. apply good_bind, good_within.
  destruct (l <? 4) eqn:E4; b2p; [exact Hagain|]. apply good_ret. split; [done|]. split; [done|].
  by exists l.
Qed.

(** Looking up another test case may change the cache. *)
Lemma get_target_ok n base s tid l :
  hv_ctx n base s -> 0 <= tid < queued_items (e_fuzzer (h_env s)) ->
  entry_len (e_fuzzer (h_env s)) tid = Some l -> 4 <= l ->
  ok (get_target tid) s (fun x s' => hv_ctx n base s' /\ (length (e_rng (h_env s')) <= length (e_rng (h_env s)))%nat /\
    ops s' = with_src (e_rng (h_env s')) (ops s) /\
    snd x = l /\ l <= zlen (fst x) /\ l <= MAX_FILE /\ bytes_ok (slice (fst x) 0 l) /\ files (slice (fst x) 0 l)).
Proof.
  intros Hc Ht El Hl. pose proof (hx_world _ _ _ Hc) as Hw. unfold good, get_target. rewrite El.
  pose proof (sl_get I HI n _ (e_rng (h_env s)) tid l Hw Ht El Hl) as Hg.
  destruct (sl_entry I HI n _ tid Hw Ht) as (l'&El'&Hmax). assert (l' = l) as -> by congruence.
  destruct (testcase_get _ _ _) as [[[p w'] r']| | |]; try done.
  destruct Hg as (Hw'&Hr&b&->&Hb&Hok&Hf). split_and!; try done.
  destruct Hc. split; cbn; done || lia.
Qed.

Lemma data_ops k base s s' r : ops s' = with_src r (ops s) -> hv_data k base s -> hv_data k base s'.
Proof.
  intros E [[Hl Hb Hw Hok] Ho Hs Hlen Hst].
  assert (dat (ops s') = dat (ops s)) as Ed by (by rewrite E, dat_with_src).
  injection E as E1 E2 E3 E4. split; [split|..]; rewrite ?Ed; cbn [ops len buf] in *; rewrite ?E1, ?E2, ?E3; done.
Qed.

Lemma mul_max_file : max_len e0 = MAX_FILE.
Proof. done. Qed.

Lemma env_ok s : e_extras (h_env s) = x0 -> the_env c s = Next e0 s.
Proof. intros E. unfold the_env. by rewrite E. Qed.

(** A case of the switch. *)
Definition case_done n k base s (ctl : ctl) s' : Prop :=
  (length (e_rng (h_env s')) <= length (e_rng (h_env s)))%nat /\
  match ctl with Break => hv_inv n (Datatypes.S k) base s' | Retry => hv_inv n k base s' end.

Lemma one_mut_case n k base s m :
  hv_inv n k base s -> Z.of_nat k <= 2 ^ 19 -> m <> MUT_SPLICE_OVERWRITE -> m <> MUT_SPLICE_INSERT ->
  ok (e ← the_env c; operate (one_mut fuel (hc_junk c) e m)) s (case_done n k base s).
Proof.
  intros Hi Hk N1 N2. pose proof Hi as [Hc Hd]. pose proof (hr_env Hpre) as He. apply good_bind.
  unfold good at 1. rewrite env_ok by apply Hc.
  assert (max_len e0 <= 2 ^ 28) as Hm by (unfold e0; cbn; unfold MAX_FILE; lia).
  eapply good_mono; [eapply (operate_ok _ n k base); [done|lia|by apply one_mut_calm|];
    apply (one_mut_run e0 He Hm _ (hr_junk Hpre) files fuel m); [done|done|]|].
  { apply (buf_of k base); [by right|lia]. }
  cbv beta. intros ctl s' (Hc'&Hp&Hr). split; [done|]. by eapply after_case.
Qed.

Lemma splice_case n k base s (op : Mutations.env -> list Z -> Z -> M (list Z) ctl) m :
  hv_inv n k base s -> Z.of_nat k <= 2 ^ 19 -> 1 < ready_for_splicing (e_fuzzer (h_env s)) ->
  (forall b l, calm_ fuel (op e0 b l)) ->
  (forall b l (t : mst (list Z)), bytes_ok (slice b 0 l) -> 4 <= l <= zlen b -> l <= MAX_FILE -> files (slice b 0 l) ->
     len t = h_temp_len s -> hv_buf t -> wp (op e0 b l) (hv_post e0 (one_effect e0 (hc_junk c) files m) t) t) ->
  ok (tid ← pick_target fuel; '(b, l) ← get_target tid; e ← the_env c; operate (op e b l)) s (case_done n k base s).
Proof.
  intros Hi Hk Hrd Hcalm Hop. pose proof Hi as [Hc Hd].
  pose proof (sl_ready I HI n _ (hx_world _ _ _ Hc) Hrd) as Hit. apply good_bind.
  eapply good_mono; [eapply pick_target_ok; [done|apply Hc|done]|]. cbv beta. intros tid s1 (Hdr&Ht&l&El&Hl).
  assert (e_fuzzer (h_env s1) = e_fuzzer (h_env s)) as Ew by (by destruct Hdr as (r&->&_)).
  assert (h_temp_len s1 = h_temp_len s) as Etl by (by destruct Hdr as (r&->&_)).
  assert (length (e_rng (h_env s1)) <= length (e_rng (h_env s)))%nat as Hr1 by (by destruct Hdr as (r&->&?)).
  pose proof (drawn_inv _ _ _ _ _ Hdr Hi) as Hi1.
  apply good_bind. eapply good_mono; [apply (get_target_ok n base s1 tid l); [apply Hi1|by rewrite Ew..|done]|].
  cbv beta. intros [b n'] s2 (Hc2&Hr2&Eo&Hn'&Hb&Hmax&Hok&Hf). cbn [fst snd] in *. subst n'.
  pose proof (data_ops _ _ _ _ _ Eo (proj2 Hi1)) as Hd2. assert (hv_inv n k base s2) as Hi2 by done. apply good_bind. unfold good at 1. rewrite env_ok by apply Hi2.
  eapply good_mono; [eapply (operate_ok _ n k base); [done|lia|apply Hcalm|];
    apply Hop; [done|lia|done|done| |apply (buf_of k base); [by right|lia]]|].
  { rewrite Eo. done. }
  cbv beta. intros ctl s3 (Hc3&Hp&Hr3). split; [lia|]. by eapply after_case.
Qed.

Lemma one_case_ok n k base s m :
  hv_inv n k base s -> Z.of_nat k <= 2 ^ 19 -> ok (one_case c fuel m) s (case_done n k base s).
Proof.
  intros Hi Hk. pose proof Hi as [Hc Hd]. pose proof (hr_env Hpre) as He.
  assert (max_len e0 <= 2 ^ 28) as Hm by (unfold e0; cbn; unfold MAX_FILE; lia).
  assert (case_done n k base s Retry s) as Hretry by (split; [done|done]).
  assert (h_temp_len s <= 2 ^ 28) as Hl28.
  { pose proof (hd_len _ _ _ Hd). unfold MAX_FILE, LEN_STEP in *. lia. }
  pose proof (wd_len _ (hd_wf _ _ _ Hd)) as Hl1. cbn [ops len] in Hl1.
  destruct m; try (by apply one_mut_case); cbn [one_case]; unfold one_splice_overwrite, one_splice_insert;
    (apply good_bind; unfold good at 1, asks; destruct (_ <=? 1) eqn:E; b2p; [done|]).
  - apply (splice_case n k base s splice_overwrite MUT_SPLICE_OVERWRITE); [done|done|lia|intros; apply splice_overwrite_calm|].
    intros b l t Hok Hb Hmax Hf Et Ht. apply (one_splice_overwrite_ok e0 He); try done.
    unfold MAX_FILE in *. lia.
  - apply good_bind. unfold good at 1. change (operate (gets len) s) with
      (Next (S := st) (h_temp_len s) (with_rng (e_rng (h_env s)) s)).
    assert (with_rng (e_rng (h_env s)) s = s) as -> by (by destruct s as [? ? ? ? ? ? ? []]).
    rewrite wrap_small by (unfold in_width, HAVOC_BLK_XL; lia). destruct (_ >=? _) eqn:Er; b2p; [done|].
    apply (splice_case n k base s (splice_insert (via_scratch 1)) MUT_SPLICE_INSERT); [done|done|lia|intros; apply splice_insert_calm|].
    intros b l t Hok Hb Hmax Hf Et Ht. apply (one_splice_insert_ok e0 He Hm); try done.
    + unfold MAX_FILE in *. lia.
    + rewrite Et, mul_max_file. lia.
Qed.

(** ** Steps, runs and rounds *)

Lemma one_step_ok tries table rand_max n k base s :
  hv_inv n k base s -> Z.of_nat k <= 2 ^ 19 -> (length (e_rng (h_env s)) < tries)%nat ->
  zlen table = rand_max -> 1 < rand_max ->
  ok (one_step c fuel tries table rand_max) s (fun _ s' => hv_inv n (Datatypes.S k) base s').
Proof.
  intros Hi Hk. revert s Hi. induction tries as [|tries IH]; intros s Hi Ht Htab Hmax; [lia|].
  cbn [one_step]. apply good_bind. eapply good_mono; [apply draw_ok; lia|].
  cbv beta. intros r s1 (Hr&Hd&Hlt). specialize (Hlt Hmax). pose proof (drawn_inv _ _ _ _ _ Hd Hi) as Hi1.
  destruct (get_Some table r ltac:(lia)) as [m Em]. rewrite Em. apply good_bind, good_within, good_bind.
  eapply good_mono; [apply (one_case_ok n k base s1 m); done|]. intros ctl s2 [Hr2 Hi2].
  destruct ctl; [by apply good_ret|]. apply IH; [done|lia|done|done].
Qed.

Lemma steps_ok l table rand_max n base s :
  hv_inv n 0 base s -> zlen l <= 2 ^ 19 -> zlen table = rand_max -> 1 < rand_max ->
  ok (each l (fun _ : Z => one_step c fuel fuel table rand_max)) s (fun _ s' => hv_inv n (length l) base s').
Proof.
  intros Hi Hl Htab Hmax.
  eapply good_mono; [apply (good_each _ l _ (fun j s => (j <= length l)%nat /\ hv_inv n (length l - j) base s))|].
  - split; [done|]. by rewrite Nat.sub_diag.
  - intros ? j s1 _ [Hj Hi1]. unfold zlen in Hl.
    eapply good_mono; [apply (one_step_ok fuel table rand_max n (length l - Datatypes.S j)); [done|lia|apply Hi1|done|done]|].
    cbv beta. intros _ s2 Hi2. split; [lia|]. by replace (length l - j)%nat with (Datatypes.S (length l - Datatypes.S j)) by lia.
  - cbv beta. intros _ s1 [_ Hi1]. by rewrite Nat.sub_0_r in Hi1.
Qed.

(** What is written to the test case. *)
Lemma written k base s :
  hv_data k base s -> seed base -> (1 <= k)%nat ->
  exists x, write_to_testcase (hc_min_length c) (hc_max_length c) (h_out s) (h_temp_len s) false = Some x /\
    hv_input x /\ 1 <= zlen x <= MAX_FILE.
Proof.
  intros [[Hl1 Hlb Hlw Hok] ? ? ? Hst] Hseed Hk. pose proof (hr_min Hpre). pose proof (hr_max Hpre). cbn [ops len buf] in *.
  set (n := Z.min (h_temp_len s) (hc_max_length c)).
  exists (slice (h_out s) 0 n). assert (zlen (slice (h_out s) 0 n) = n) as Hz by (apply zlen_slice; unfold n; lia).
  split; [|split; [|unfold n in *; lia]].
  - unfold write_to_testcase. rewrite (proj2 (Z.ltb_ge _ _)) by lia. cbn [andb].
    replace (if _ >? _ then _ else _) with n by (unfold n; destruct (_ >? _) eqn:E; b2p; lia).
    apply load_Some; unfold n; lia.
  - exists base, k, (dat (ops s)). split_and!; [done|done|done|].
    rewrite zlen_dat by (cbn; lia). unfold dat. cbn [ops buf len]. fold n. rewrite slice_slice by (unfold n; lia). done.
Qed.

Lemma fuzz_out_ok n k base s :
  hv_inv (Datatypes.S n) k base s -> (1 <= k)%nat -> ok (fuzz_out c) s (fun _ s' => hv_inv n k base s').
Proof.
  intros [Hc Hd] Hk. unfold fuzz_out. apply good_bind.
  destruct (written k base s Hd (hx_seed _ _ _ Hc) Hk) as (x&Ex&Hx&Hzx).
  unfold good at 1, lift, common_fuzz_stuff. rewrite Ex. unfold mbind at 1, stage_bind at 1. cbn [within].
  pose proof (sl_run I HI n (h_env s) x Hx Hzx (hx_world _ _ _ Hc)) as Hrun. unfold good in Hrun.
  destruct (run_written x (h_env s)) as [b e'| | | | | |]; try done. destruct Hrun as (Hw&Er&Ee).
  destruct b; [exists n; exact Hw|]. destruct Hc, Hd as [[] ? ? ? ?]. apply good_ret. split.
  - split; cbn; rewrite ?Er, ?Ee; done.
  - split; cbn; try done.
Qed.

Lemma in_deref_ok n base s :
  hv_ctx n base s -> exists b, in_deref s = Next b s /\ zlen base <= zlen b /\ slice b 0 (zlen base) = base.
Proof.
  intros Hc. pose proof (hx_in _ _ _ Hc) as Hin. unfold in_deref. destruct (h_in s) as [p|].
  - destruct Hin as [-> ->]. destruct (sl_orig I HI n _ (hx_world _ _ _ Hc)) as (b&->&?&?). by exists b.
  - destruct Hin. by exists (h_in_buf s).
Qed.

(** [out_buf] holds [base] again. *)
Lemma refill o l base :
  l = zlen base -> 1 <= l <= MAX_FILE -> zlen o <= 2 ^ BUF_BITS ->
  exists o', store (afl_realloc o l) 0 base = Some o' /\ zlen base <= zlen o' <= 2 ^ BUF_BITS /\ slice o' 0 l = base.
Proof.
  intros -> Hl Ho. unfold MAX_FILE, BUF_BITS in *.
  assert (zlen base <= zlen (afl_realloc o (zlen base))) as Hr by (apply afl_realloc_room; lia).
  assert (zlen (afl_realloc o (zlen base)) <= 2 ^ 30) by (apply afl_realloc_max; lia).
  exists (splice_at (afl_realloc o (zlen base)) 0 base). split; [apply store_Some; lia|].
  rewrite zlen_splice_at by lia. split; [lia|]. apply slice_splice_same; lia.
Qed.

Lemma fresh_data o sc base s :
  h_out s = o -> h_scratch s = sc -> h_temp_len s = zlen base -> 1 <= zlen base <= MAX_FILE -> bytes_ok base ->
  zlen base <= zlen o <= 2 ^ BUF_BITS -> slice o 0 (zlen base) = base -> zlen sc <= 2 ^ BUF_BITS -> hv_data 0 base s.
Proof.
  intros Eo Es El Hz Hok Ho Hs Hsc. assert (dat (ops s) = base) as Ed by (unfold dat; cbn; by rewrite Eo, El).
  unfold BUF_BITS in *. split; [split|..]; rewrite ?Ed; cbn [ops len buf]; rewrite ?Eo, ?Es, ?El; try (unfold BUF_BITS; lia); try done.
  constructor.
Qed.

Lemma restore_out_ok n k base s : hv_inv n k base s -> ok restore_out s (fun _ s' => hv_inv n 0 base s').
Proof.
  intros [Hc Hd]. unfold restore_out. apply good_bind.
  destruct (in_deref_ok n base s Hc) as (b&Eb&Hb&Hbs). unfold good at 1. rewrite Eb.
  pose proof (hx_len _ _ _ Hc) as El. pose proof (hx_small _ _ _ Hc) as Hz.
  unfold good, update. rewrite load_Some by lia. cbn [mbind option_bind]. rewrite El, Hbs.
  destruct (refill (h_out s) (zlen base) base) as (o&->&Ho&Hos); [done|done|apply Hd|].
  cbn [mbind option_bind]. split; [destruct Hc; by split|].
  eapply (fresh_data o (h_scratch s)); cbn; try done; [apply Hc|apply Hd].
Qed.

Lemma one_round_ok table rand_max stack_max n base s :
  hv_inv (Datatypes.S n) 0 base s -> 1 <= stack_max <= 2 ^ 17 -> zlen table = rand_max -> 1 < rand_max ->
  ok (one_round c fuel table rand_max stack_max) s (fun _ s' => hv_inv n 0 base s').
Proof.
  intros Hi Hst Htab Hmax. unfold one_round. apply good_bind.
  eapply good_mono; [apply draw_ok; lia|]. cbv beta. intros k s1 (Hk&Hd&_).
  pose proof (drawn_inv _ _ _ _ _ Hd Hi) as Hi1.
  assert (length (seqZ 0 (1 + k)) = Z.to_nat (1 + k)) as Hlen by apply length_seqZ.
  apply good_bind. eapply good_mono; [apply (steps_ok _ table rand_max (Datatypes.S n) base); [done|unfold zlen; lia|done|done]|].
  cbv beta. intros _ s2 Hi2. apply good_bind.
  eapply good_mono; [apply (fuzz_out_ok n (length (seqZ 0 (1 + k))) base); [done|lia]|].
  intros ? s3 Hi3. exact (restore_out_ok n _ base s3 Hi3).
Qed.

(** ** The number of runs *)

Abbreviation M := (hc_max_mult c * 100).

(** [stage_max] stays below [K]: it is doubled together with [perf_score], as long as that is
    not above [M]. *)
Definition below (K : Z) (v : hv_vars) : Prop :=
  0 <= hv_max v <= K /\ 1 <= hv_perf v < 2 ^ 32 /\ (hv_perf v <= M -> hv_max v * (2 * M) <= K * hv_perf v).

Lemma prolong_below K items v : below K v -> below K (prolong c items v).
Proof.
  intros (Hm&Hp&Hk). pose proof (hr_mult Hpre). unfold prolong. destruct (items =? _); [done|].
  destruct (_ <=? _) eqn:E; b2p; [|by split]. specialize (Hk E).
  rewrite (wrap_small 32 (hv_perf v * 2)) by (unfold in_width; lia).
  assert (0 <= u32 (hv_max v * 2) <= hv_max v * 2) as Hu.
  { unfold wrap. split; [apply Z.mod_pos_bound; lia|apply Z.mod_le; lia]. }
  assert (2 * hv_max v <= K) by nia. split; cbn [hv_max hv_perf]; [lia|]. split; [lia|]. intros _. nia.
Qed.

(** Most runs of one havoc stage. *)
Definition havoc_limit (perf_score : Z) : Z := 24 * M + 4 * perf_score.

Lemma stage_max_below perf cycles :
  1 <= perf < 2 ^ 32 -> cycles = HAVOC_CYCLES \/ cycles = HAVOC_CYCLES_INIT \/ cycles = SPLICE_HAVOC ->
  exists sm, stage_max c cycles perf = Some sm /\ forall q, below (havoc_limit perf) (HvVars sm perf q).
Proof.
  intros Hp Hcy. pose proof (hr_mult Hpre). pose proof (hr_div Hpre). unfold stage_max.
  rewrite (proj2 (Z.eqb_neq _ _)) by lia. eexists. split; [done|]. intros q.
  set (n := Z.shiftr _ 8).
  assert (0 <= n <= 4 * perf) as Hn.
  { unfold n. rewrite Z.shiftr_div_pow2 by lia. change (2 ^ 8) with 256.
    assert (0 <= u32 (cycles * perf) <= 1024 * perf) as Hu.
    { unfold wrap. split; [apply Z.mod_pos_bound; lia|].
      assert (u32 (cycles * perf) <= cycles * perf) by (apply Z.mod_le; destruct Hcy as [->|[->| ->]]; unfold HAVOC_CYCLES, HAVOC_CYCLES_INIT, SPLICE_HAVOC; lia).
      unfold wrap in *. destruct Hcy as [->|[->| ->]]; unfold HAVOC_CYCLES, HAVOC_CYCLES_INIT, SPLICE_HAVOC in *; lia. }
    assert (0 <= u32 (cycles * perf) / hc_havoc_div c <= 1024 * perf) as Hd.
    { split; [apply Z.div_pos; lia|]. transitivity (u32 (cycles * perf)); [|lia]. apply Z.div_le_upper_bound; nia. }
    split; [apply Z.div_pos; lia|]. apply Z.div_le_upper_bound; lia. }
  unfold below, havoc_limit, HAVOC_MIN. cbn [hv_max hv_perf].
  destruct (n <? 12) eqn:E; b2p; (split; [lia|]; split; [lia|]; intros; nia).
Qed.

(** ** The loop and the stage *)

Lemma hv_ctx_less n m base s : (m <= n)%nat -> hv_ctx n base s -> hv_ctx m base s.
Proof.
  intros Hle [? Hw]. split; try done. clear -Hle Hw HI. induction Hle as [|n Hle IH]; [done|].
  by apply IH, (sl_less I HI).
Qed.

Lemma hv_inv_less n m k base s : (m <= n)%nat -> hv_inv n k base s -> hv_inv m k base s.
Proof. intros Hle [? ?]. split; [by eapply hv_ctx_less|done]. Qed.

Lemma havoc_loop_ok K b table rand_max stack_max base rounds : forall at_ v s,
  0 <= at_ -> K - at_ <= Z.of_nat rounds -> below K v ->
  hv_inv (b + Z.to_nat (K - at_)) 0 base s -> 1 <= stack_max <= 2 ^ 17 -> zlen table = rand_max -> 1 < rand_max ->
  ok (havoc_loop c fuel rounds table rand_max stack_max at_ v) s (fun _ s' => hv_inv b 0 base s').
Proof.
  induction rounds as [|rounds IH]; intros at_ v s Ha Hr Hv Hi Hst Htab Hmax; cbn [havoc_loop];
    pose proof (proj1 Hv) as HK; (destruct (_ <? _) eqn:E; b2p; [|apply good_ret; eapply hv_inv_less; [|done]; lia]); [lia|].
  apply good_bind. replace (b + Z.to_nat (K - at_))%nat with (Datatypes.S (b + Z.to_nat (K - (at_ + 1))))%nat in Hi by lia.
  eapply good_mono; [by apply one_round_ok|]. intros ? s1 Hi1. apply good_bind. unfold good at 1, asks.
  apply IH; [lia|lia|by apply prolong_below|done|done|done|done].
Qed.

Lemma havoc_array_length im fm : zlen (havoc_array im fm).1 = (havoc_array im fm).2 /\ 1 < (havoc_array im fm).2.
Proof. unfold havoc_array. repeat case_match; by vm_compute. Qed.

(** The seed is in [in_buf] and in [out_buf]. *)
Definition hv_ready n base s : Prop :=
  hv_ctx n base s /\ zlen base <= zlen (h_out s) <= 2 ^ BUF_BITS /\ slice (h_out s) 0 (zlen base) = base /\
  zlen (h_scratch s) <= 2 ^ BUF_BITS.

Lemma inv_ready n base s : hv_inv n 0 base s -> h_temp_len s = zlen base -> hv_ready n base s.
Proof.
  intros [Hc [[Hl Hb Hw Hok] Ho Hs Hlen Hst]] El. inversion Hst as [d E1 E2|]; subst. cbn in *.
  split; [done|]. rewrite <- El. split; [lia|]. split; [|done]. done.
Qed.

Lemma havoc_stage_ok b rounds doing_det perf cycle base s :
  hv_ready (b + Z.to_nat (havoc_limit perf)) base s -> 1 <= perf < 2 ^ 32 ->
  havoc_limit perf <= Z.of_nat rounds ->
  ok (havoc_stage c fuel rounds doing_det perf cycle) s (fun _ s' => hv_inv b 0 base s').
Proof.
  intros (Hc&Ho&Hos&Hsc) Hp Hr. unfold havoc_stage. destruct (hc_custom_only c).
  { eexists. apply Hc. }
  apply good_bind. set (cycles := if cycle =? 0 then _ else _).
  destruct (stage_max_below perf cycles Hp) as (sm&->&Hsm).
  { unfold cycles. destruct (cycle =? 0), doing_det; tauto. }
  apply good_within, good_bind. unfold good at 1, update. set (s1 := HvSt _ _ _ _ _ _ _ _).
  assert (hv_inv (b + Z.to_nat (havoc_limit perf)) 0 base s1) as Hi1.
  { split; [destruct Hc; by split|]. eapply (fresh_data (h_out s) (h_scratch s)); try done; apply Hc. }
  apply good_bind. unfold good at 1, asks. apply good_bind. unfold good at 1, asks.
  set (fm := b2z _). destruct (havoc_array_length (hc_input_mode c) fm) as [Htab Hmax].
  destruct (havoc_array _ fm) as [table rand_max]. cbn [fst snd] in *. apply good_bind.
  pose proof (hr_stack Hpre) as Hst. eapply good_mono; [apply draw_ok; lia|]. cbv beta. intros k s2 (Hk&Hd&_).
  pose proof (drawn_inv _ _ _ _ _ Hd Hi1) as Hi2.
  apply (havoc_loop_ok (havoc_limit perf)); [lia|lia|apply Hsm|by rewrite Z.sub_0_r| |done|done].
  rewrite Z.shiftl_1_l. assert (1 <= 2 ^ (1 + k) <= 2 ^ 17) as Hpow.
  { split; [pose proof (pow2_pos (1 + k)); lia|]. apply Z.pow_le_mono_r; lia. }
  rewrite wrap_small by (unfold in_width; lia). lia.
Qed.

(** ** Splicing *)

Lemma splice_at_diff_ok n base s new_buf new_len k :
  hv_ctx n base s -> base = cur -> zlen (h_out s) <= 2 ^ BUF_BITS -> zlen (h_scratch s) <= 2 ^ BUF_BITS ->
  4 <= new_len <= zlen new_buf -> new_len <= MAX_FILE -> bytes_ok (slice new_buf 0 new_len) ->
  files (slice new_buf 0 new_len) -> 0 <= k < new_len -> k < zlen cur ->
  ok (splice_at_diff new_buf new_len k) s (fun _ s' => exists base', hv_ready n base' s').
Proof.
  intros Hc -> Ho Hsc Hl Hmax Hok Hf Hk Hkc. unfold splice_at_diff. apply good_bind.
  destruct (in_deref_ok n cur s Hc) as (b&Eb&Hb&Hbs). unfold good at 1. rewrite Eb.
  unfold good, update. cbv zeta. rewrite (load_Some b) by lia. cbn [mbind option_bind].
  assert (slice b 0 k = slice cur 0 k) as Ehd by (rewrite <- Hbs at 1; by rewrite slice_slice by lia).
  assert (zlen (slice b 0 k) = k) as Hzk by (apply zlen_slice; lia).
  pose proof (hx_in_scratch _ _ _ Hc) as His. unfold MAX_FILE, BUF_BITS in *.
  assert (new_len <= zlen (afl_realloc (h_in_scratch s) new_len)) as Hr by (apply afl_realloc_room; lia).
  assert (zlen (afl_realloc (h_in_scratch s) new_len) <= 2 ^ 30) as Hr30 by (apply afl_realloc_max; lia).
  set (sc := afl_realloc (h_in_scratch s) new_len) in *. rewrite store_Some by lia. cbn [mbind option_bind].
  rewrite (wrap_small 32) by (unfold in_width; lia). rewrite load_Some by lia. cbn [mbind option_bind].
  set (tl := slice new_buf 0 (new_len - k)). assert (zlen tl = new_len - k) as Hzt by (apply zlen_slice; lia).
  rewrite store_Some by (rewrite ?zlen_splice_at; lia). cbn [mbind option_bind].
  set (sc' := splice_at _ k tl). assert (zlen sc' = zlen sc) as Ez by (unfold sc'; rewrite !zlen_splice_at; rewrite ?zlen_splice_at; lia).
  rewrite load_Some by lia. cbn [mbind option_bind].
  set (base := slice cur 0 k ++ slice (slice new_buf 0 new_len) 0 (zlen (slice new_buf 0 new_len) - k)).
  assert (slice sc' 0 new_len = base) as Ebase.
  { unfold sc'. replace new_len with (k + zlen tl) by lia. rewrite slice_splice_upto by (rewrite ?zlen_splice_at; lia).
    pose proof (slice_splice_same sc 0 (slice b 0 k)) as Hh. rewrite Hzk in Hh. rewrite Hh by lia.
    unfold base. rewrite Ehd, zlen_slice, slice_slice by lia. done. }
  assert (zlen base = new_len) as Hzb by (rewrite <- Ebase; apply zlen_slice; lia).
  destruct (refill (h_out s) new_len base) as (o&Eo&Hoo&Hos); [done|unfold MAX_FILE; lia|done|].
  rewrite Ebase, Eo. cbn [mbind option_bind]. unfold BUF_BITS in *.
  assert (bytes_ok base) as Hbok.
  { unfold base. apply Forall_app. split; [|auto with afl]. apply Forall_slice, (hr_bytes Hpre). }
  exists base. split; [|split; [done|split; [by rewrite Hzb|done]]].
  destruct Hc. split; cbn; try done; unfold BUF_BITS in *; try lia.
  - apply seed_spliced; [done|rewrite zlen_slice by lia; lia|done].
  - unfold MAX_FILE. lia.
  - rewrite Hzb. split; [lia|done].
Qed.

Lemma splicing_ok tries n : forall cycle base s,
  0 <= cycle <= SPLICE_CYCLES -> SPLICE_CYCLES - cycle < Z.of_nat tries ->
  hv_ctx n base s -> zlen (h_out s) <= 2 ^ BUF_BITS -> zlen (h_scratch s) <= 2 ^ BUF_BITS ->
  ok (splicing c fuel orig_in tries cycle) s (fun r s' =>
    match r with
    | None => exists base', hv_ctx n base' s'
    | Some cy => cycle < cy <= SPLICE_CYCLES /\ exists base', hv_ready n base' s'
    end).
Proof.
  induction tries as [|tries IH]; intros cycle base s Hcy Ht Hc Ho Hs; [lia|].
  cbn [splicing]. pose proof (hx_world _ _ _ Hc) as Hw. apply good_bind. unfold good at 1, asks.
  apply good_bind. unfold good at 1, asks. apply good_bind. unfold good at 1, asks.
  rewrite (sl_cur I HI n _ Hw). apply good_bind, good_within.
  destruct (_ && _) eqn:Eg; [|apply good_ret; by exists base]. b2p.
  apply good_bind. unfold good at 1, update. set (s1 := match h_in s with Cached _ => _ | Spliced => _ end).
  assert (hv_ctx n cur s1) as Hc1.
  { pose proof (hx_in _ _ _ Hc) as Hin. unfold s1. destruct (h_in s) as [p|] eqn:Ein.
    - destruct Hin as [_ <-]. done.
    - destruct Hc. split; cbn; try done; [constructor|apply (hr_cur Hpre)|apply (hr_bytes Hpre)]. }
  assert (ops s1 = ops s /\ h_env s1 = h_env s) as [Eo1 Ee1] by (unfold s1; by destruct (h_in s)).
  clearbody s1. apply good_bind.
  eapply good_mono; [eapply pick_target_ok; [done|rewrite Ee1; apply Hc|rewrite Ee1; by eapply (sl_ready I HI)]|].
  cbv beta. intros tid s2 (Hd&Htid&l&El&Hl4). rewrite Ee1 in Htid, El.
  assert (e_fuzzer (h_env s2) = e_fuzzer (h_env s)) as Ew by (destruct Hd as (r&->&_); cbn; by rewrite Ee1).
  assert (exists r, ops s2 = with_src r (ops s1)) as [r2 Eo2] by (destruct Hd as (r&->&_); by exists r).
  pose proof (drawn_ctx _ _ _ _ Hd Hc1) as Hc2. apply good_bind.
  eapply good_mono; [apply (get_target_ok n cur s2 tid l); [done|by rewrite Ew..|done]|].
  cbv beta. intros [nb nl] s3 (Hc3&_&Eo3&Hnl&Hnb&Hmax&Hok&Hf). cbn [fst snd] in *. subst nl.
  rewrite Eo2, Eo1 in Eo3. injection Eo3 as Eo3 _ Es3. rewrite <- Eo3 in Ho. rewrite <- Es3 in Hs.
  apply good_bind. destruct (in_deref_ok n cur s3 Hc3) as (b&Eb&Hb&Hbs). unfold good at 1. rewrite Eb.
  apply good_bind. unfold good at 1, in_len. rewrite (hx_len _ _ _ Hc3).
  pose proof (hr_cur Hpre) as Hcur. set (m := Z.min (zlen cur) l).
  destruct (locate_diffs_correct b nb m) as (f&d&->&Hsame&Hdiff); [unfold m, MAX_FILE in *; lia|unfold m; lia|unfold m; lia|].
  apply good_bind, good_within. destruct (_ || _) eqn:Eg; b2p.
  { eapply good_mono; [apply (IH (cycle + 1) cur s3); [lia|lia|done|done|done]|].
    intros [cy|] s4 Hp; [|done]. destruct Hp as [? ?]. split; [lia|done]. }
  assert (0 <= f <= d /\ d < m) as [Hfd Hdm].
  { destruct (decide (slice b 0 m = slice nb 0 m)) as [E|E]; [destruct (Hsame E); lia|].
    destruct (Hdiff E) as (Hfd&_&Hne&_). split; [done|].
    destruct (decide (d < m)); [done|]. exfalso. apply Hne.
    assert (forall x : list Z, m <= zlen x -> slice x 0 m !! Z.to_nat d = None) as Hnone.
    { intros x Hx. apply lookup_ge_None_2. pose proof (zlen_slice x 0 m) as Hz. unfold zlen in *. unfold m in *. lia. }
    rewrite !Hnone; [done|unfold m; lia|unfold m; lia]. }
  apply good_bind. eapply good_mono; [apply draw_ok; lia|]. cbv beta. intros k s4 (Hk&Hd4&_).
  pose proof (drawn_ctx _ _ _ _ Hd4 Hc3) as Hc4.
  assert (h_out s4 = h_out s3 /\ h_scratch s4 = h_scratch s3) as [Eo4 Es4] by (by destruct Hd4 as (r&->&_)).
  apply good_bind. eapply good_mono; [apply (splice_at_diff_ok n cur s4 nb l (f + k)); try done; try (by rewrite ?Eo4, ?Es4); unfold m in *; lia|].
  intros ? s5 Hr5. apply good_ret. split; [lia|done].
Qed.

(** ** Both stages *)

Lemma havoc_and_splice_ok rounds doing_det perf n : forall cycle base s,
  0 <= cycle <= SPLICE_CYCLES -> SPLICE_CYCLES - cycle < Z.of_nat n ->
  hv_ready (n * Z.to_nat (havoc_limit perf)) base s -> 1 <= perf < 2 ^ 32 -> havoc_limit perf <= Z.of_nat rounds ->
  ok (havoc_and_splice c fuel orig_in n rounds doing_det perf cycle) s (fun _ s' => left_ok s').
Proof.
  induction n as [|n IH]; intros cycle base s Hcy Hn Hr Hp Hrounds; [lia|]. cbn [havoc_and_splice].
  apply good_bind. replace (Datatypes.S n * Z.to_nat (havoc_limit perf))%nat with
    (n * Z.to_nat (havoc_limit perf) + Z.to_nat (havoc_limit perf))%nat in Hr by lia.
  eapply good_mono; [by apply (havoc_stage_ok (n * Z.to_nat (havoc_limit perf)) rounds doing_det perf cycle base)|].
  intros ? s1 [Hc1 Hd1]. apply good_bind.
  eapply good_mono; [apply (splicing_ok 16 (n * Z.to_nat (havoc_limit perf)) cycle base); [done|unfold SPLICE_CYCLES in *; lia|done|apply Hd1|apply Hd1]|].
  intros [cy|] s2 Hp2.
  - destruct Hp2 as (Hcy2&base'&Hr2). apply (IH cy base'); [lia|lia|done|done|done].
  - destruct Hp2 as (base'&Hc2). apply good_ret. eexists. apply Hc2.
Qed.
End Facts.
