(* ===== verification/HavocCache.v ===== *)
(** * Splicing from the test case cache

    The interface [Splicing] of the havoc stages, met by the queue and the cache of [Cache],
    with a target whose runs are logged and add nothing to the queue: [splice_laws] holds. *)

From S2P Require Import Prelude Res Rng Cache CacheFacts CacheMain TextCheck Extras Tmin Stage StageFacts Mutations MutationsFacts Havoc HavocFacts.

(** The inputs that were run, the cache, the tries at a slot to evict and the content of
    unused memory. *)
Record qworld := QWorld {
  qw_log : list (list Z);
  qw_cache : cache_st;
  qw_pick_fuel : nat;
  qw_junk : option nat
}.

Definition with_qcache (k : cache_st) (w : qworld) : qworld :=
  QWorld (qw_log w) k (qw_pick_fuel w) (qw_junk w).

#[export] Instance qworld_fuzzer : Fuzzer qworld := {
  fuzz_run_target w x := (FSRV_RUN_OK, QWorld (qw_log w ++ [x]) (qw_cache w) (qw_pick_fuel w) (qw_junk w));
  stop_requested _ := false;
  skip_requested _ := false;
  clear_skip_request w := w;
  trace_cksum _ := 0;
  queued_items w := zlen (c_queue (qw_cache w));
  save_if_interesting w _ _ := Some (0, w);
  get_cur_time w := (0, w)
}.

#[export] Instance qworld_splicing : Splicing qworld (list Z) := {
  ready_for_splicing w := zlen (filter (fun e => 4 < c_len e) (c_queue (qw_cache w)));
  current_entry w := Z.of_nat (c_queue_cur (qw_cache w));
  entry_len w tid := if tid <? 0 then None else c_len <$> c_queue (qw_cache w) !! Z.to_nat tid;
  testcase_get w r tid :=
    '(p, k, r) ← queue_testcase_get (S (Z.to_nat (c_count (qw_cache w)))) (qw_pick_fuel w) (qw_junk w)
                  (qw_cache w) (Z.to_nat tid) r;
    Ret (p, with_qcache k w, r);
  testcase_deref w p := deref (qw_cache w) p;
  in_exploration _ := true
}.

(** ** Draws shorten the list of answers *)

(** The value, if there is one, has [Q]. *)
Definition returns {A} (r : res A) (Q : A -> Prop) : Prop := forall a, r = Ret a -> Q a.

Lemma returns_bind {A B} (r : res A) (k : A -> res B) P Q :
  returns r P -> (forall a, P a -> returns (k a) Q) -> returns (r ≫= k) Q.
Proof. intros Hr Hk. destruct r as [a| | |]; try done. by apply Hk, Hr. Qed.

Lemma returns_any {A B} (r : res A) (k : A -> res B) Q : (forall a, returns (k a) Q) -> returns (r ≫= k) Q.
Proof. intros Hk. by apply (returns_bind r k (fun _ => True)). Qed.

Lemma returns_ret {A} (a : A) (Q : A -> Prop) : Q a -> returns (Ret a) Q.
Proof. by intros ? ? [= <-]. Qed.

Lemma pick_shorter fuel s (l : list Z) : returns (pick fuel s l) (fun x => (length x.2 <= length l)%nat).
Proof.
  revert l. induction fuel as [|fuel IH]; intros l; [done|]. cbn [pick rs_below script_source].
  assert (match script_below (c_max_count s) l with Some (_, l') => (length l' <= length l)%nat | None => True end) as Hl.
  { unfold script_below. destruct (_ <=? 1); [done|]. destruct l; [done|]. cbn. lia. }
  revert Hl. destruct (script_below _ _) as [[t l']|]; [|done]. intros Hl. apply returns_any.
  intros [q|]; [destruct (_ =? _)%nat; [|by apply returns_ret]|]; intros x Hx%IH; lia.
Qed.

Lemma evict_loop_shorter n fuel junk len tid s (l : list Z) :
  returns (evict_loop n fuel junk len tid s l) (fun x => (length x.2 <= length l)%nat).
Proof.
  revert tid s l. induction n as [|n IH]; intros tid s l; [done|]. cbn [evict_loop].
  destruct (cache_full s len); [|by apply returns_ret]. cbv zeta. eapply returns_bind; [apply pick_shorter|].
  intros [[t q] l'] Hl. cbn in Hl. apply returns_any. intros s' x Hx%IH. lia.
Qed.

Lemma get_shorter n fuel junk s q (l : list Z) :
  returns (queue_testcase_get n fuel junk s q l) (fun x => (length x.2 <= length l)%nat).
Proof.
  unfold queue_testcase_get. apply returns_any. intros e. destruct (c_buf e); [by apply returns_ret|].
  destruct (_ || _).
  { apply returns_any. intros b. destruct (_ =? _)%nat; by apply returns_ret. }
  eapply returns_bind; [apply evict_loop_shorter|]. intros [[t s'] l'] Hl. cbn in Hl.
  apply returns_any. intros t'. apply returns_any. intros b. apply returns_any. intros s2. by apply returns_ret.
Qed.

(** ** The laws *)

Section Laws.
Context (c : hv_cfg) (x0 : extras_st) (k0 : cache_st) (e0 : centry).

Definition contents (e : centry) : list Z := slice (c_file e) 0 (c_len e).

(** The current entry is [e0], and it is in the cache. *)
Record queue_pre : Prop := QueuePre {
  qp_wf : cache_wf k0;
  qp_cur : c_queue k0 !! c_queue_cur k0 = Some e0;
  qp_cached : c_buf e0 <> None;
  qp_items : zlen (c_queue k0) < 2 ^ 32;
  qp_files : Forall (fun e => c_len e <= MAX_FILE /\ bytes_ok (c_file e)) (c_queue k0)
}.

(** The test cases of the queue. *)
Definition in_queue (f : list Z) : Prop := exists q e, c_queue k0 !! q = Some e /\ f = contents e.

(** Only inputs of [hv_input] were run, and the cache still is that of the queue. *)
Definition logged_ok (_ : nat) (w : qworld) : Prop :=
  Forall (hv_input c (contents e0) in_queue x0) (qw_log w) /\ cache_wf (qw_cache w) /\ keeps k0 (qw_cache w).

Lemma keeps_length s s' : keeps s s' -> length (c_queue s') = length (c_queue s).
Proof.
  intros (_&K1&K2). apply Nat.le_antisymm; apply Nat.le_ngt; intros Hl; apply lookup_lt_is_Some in Hl as [e He].
  - destruct (K1 _ _ He) as [e' He']. apply lookup_lt_Some in He'. lia.
  - destruct (K2 _ _ He) as (b&He'&_). apply lookup_lt_Some in He'. lia.
Qed.

Lemma keeps_contents s s' q e : keeps s s' -> c_queue s' !! q = Some e ->
  exists e', c_queue s !! q = Some e' /\ c_len e = c_len e' /\ contents e = contents e' /\
    (q = c_queue_cur s -> c_buf e' <> None -> c_buf e = c_buf e').
Proof.
  intros (_&K1&K2) He. destruct (K1 _ _ He) as [e' He']. destruct (K2 _ _ He') as (b&Hb&Hc).
  exists e'. simplify_eq. split_and!; try done.
Qed.

Context (Hpre : queue_pre).

Lemma cur_held w n : logged_ok n w -> exists b, deref (qw_cache w) (InEntry (c_queue_cur k0)) = Some b /\ holds e0 b.
Proof.
  intros (_&Hw&(_&_&K)). destruct (K _ _ (qp_cur Hpre)) as (b&Hb&Hc). specialize (Hc eq_refl (qp_cached Hpre)). subst b.
  destruct (c_buf e0) as [b|] eqn:Eb; [|by destruct (qp_cached Hpre)]. exists b. cbn. rewrite Hb. split; [done|].
  by apply (proj2 (proj2 (Forall_lookup_1 _ _ _ _ (cw_queue _ (qp_wf Hpre)) (qp_cur Hpre)))).
Qed.

Lemma contents_len e : entry_ok e -> zlen (contents e) = c_len e.
Proof. intros (Hl&Hf&_). apply zlen_slice; lia. Qed.

Lemma cache_splice_laws :
  splice_laws c (InEntry (c_queue_cur k0)) (contents e0) in_queue x0 logged_ok.
Proof.
  pose proof (Forall_lookup_1 _ _ _ _ (cw_queue _ (qp_wf Hpre)) (qp_cur Hpre)) as Hok.
  assert (forall n w, logged_ok n w -> zlen (c_queue (qw_cache w)) = zlen (c_queue k0)) as Hlen
    by (intros n w (_&_&K); unfold zlen; by rewrite (keeps_length _ _ K)).
  split.
  - intros n w Hw. cbn. rewrite (Hlen n w Hw). pose proof (qp_items Hpre).
    pose proof (lookup_lt_Some _ _ _ (qp_cur Hpre)). unfold zlen in *. lia.
  - intros n w Hw Hr. cbn in *. pose proof (length_filter (fun e => 4 < c_len e) (c_queue (qw_cache w))). unfold zlen in *. lia.
  - intros n w (_&_&K). cbn. rewrite (proj2 (Z.ltb_ge _ _)), Nat2Z.id by lia. destruct K as (->&_&K).
    destruct (K _ _ (qp_cur Hpre)) as (b&->&_). cbn. by rewrite contents_len.
  - intros n w tid Hw Ht. pose proof Hw as (_&_&K). cbn in Ht |- *. rewrite (proj2 (Z.ltb_ge _ _)) by lia.
    destruct (zlen_lookup (c_queue (qw_cache w)) tid Ht) as [e He]. rewrite He. exists (c_len e). split; [done|].
    destruct (keeps_contents _ _ _ _ K He) as (e'&He'&->&_). by apply (Forall_lookup_1 _ _ _ _ (qp_files Hpre) He').
  - intros n w Hw. destruct (cur_held w n Hw) as (b&Hb&Hh). exists b. cbn [testcase_deref qworld_splicing].
    rewrite contents_len by done. split; [done|]. exact Hh.
  - intros n w r tid l Hw Ht El H4. pose proof Hw as (Hlog&Hwf&K). cbn in El, Ht.
    rewrite (proj2 (Z.ltb_ge _ _)) in El by lia.
    destruct (c_queue (qw_cache w) !! Z.to_nat tid) as [e|] eqn:He; [|done]. injection El as <-.
    cbn [testcase_get qworld_splicing].
    pose proof (get_ok (S (Z.to_nat (c_count (qw_cache w)))) (qw_pick_fuel w) (qw_junk w) _ _ e r Hwf He ltac:(lia)) as Hg.
    pose proof (get_shorter (S (Z.to_nat (c_count (qw_cache w)))) (qw_pick_fuel w) (qw_junk w) (qw_cache w) (Z.to_nat tid) r) as Hs.
    destruct (queue_testcase_get _ _ _ _ _ _) as [[[p k] r']| | |]; [|done..]. specialize (Hs _ eq_refl). cbn in Hg, Hs |- *.
    destruct Hg as (Hw'&K'&_&b&Hb&Hbl&Hbs). split; [split_and!; [done|done|by eapply keeps_trans]|]. split; [done|].
    exists b. split; [done|]. split; [done|]. destruct (keeps_contents _ _ _ _ K He) as (e'&He'&Hl&Hc&_).
    rewrite Hbs. fold (contents e). rewrite Hc. split; [|by exists (Z.to_nat tid), e'].
    apply Forall_slice. by apply (Forall_lookup_1 _ _ _ _ (qp_files Hpre) He').
  - intros n e x Hx Hz Hw. unfold good, run_written. rewrite (proj2 (Z.eqb_neq _ _)) by lia. cbn. split; [|done].
    destruct Hw as (Hlog&Hrest). split; [|exact Hrest]. apply Forall_app. split; [done|]. by repeat constructor.
  - done.
Qed.
End Laws.
