(* ===== verification/HavocMain.v ===== *)
(** * The havoc and splicing stages: theorems *)

From S2P Require Import Prelude Res Rng Diffs TextCheck Cache CacheFacts CacheMain Extras Tmin Stage StageFacts MutTables Mutations MutationsFacts MutationsOps MutationsTerm MutationsRun Havoc HavocOps HavocTerm HavocFacts HavocCache.

(** C22. Every case of the switch in [fuzz_one_original] that works on [out_buf] and
    [out_scratch_buf], from any two allocations and any data in the first: since it grows the
    buffers before it writes, no access leaves them; the length stays between 1 and the larger
    of the old one and [MAX_FILE], or 18 more for a number that is printed; the data changes as
    [one_effect] says of that operator, and not at all when another operator is to be drawn. *)
Theorem one_mut_correct {S} `{RandSource S} fuel junk files e m (s : mst S) :
  wf_env e -> max_len e <= 2 ^ 28 -> bytes_ok junk /\ 8 <= zlen junk ->
  m <> MUT_SPLICE_OVERWRITE -> m <> MUT_SPLICE_INSERT -> hv_buf s ->
  match one_mut fuel junk e m s with
  | Ok (k, s') => hv_post e (one_effect e junk files m) s k s'
  | Mutations.Fault => False
  | NoRand | Mutations.NoFuel => True
  end.
Proof. intros He Hm Hj N1 N2 Hs. by apply (one_mut_run e He Hm junk Hj files fuel m s). Qed.

(** C21. The havoc stage followed by up to fifteen splices, each with a havoc stage of its own,
    in [afl-fuzz-one.c] read without the stray brace of line 2205, for a smallest length of at most 1
    ([hv_pre]) and any finite list of random answers: no access leaves a buffer, no loop runs longer
    than its answers allow, each havoc stage runs at most [havoc_limit perf_score] inputs although
    it may double its length again and again, and the only inputs that are run are those of
    [hv_input]: the current test case, or its head with the start of another one, changed by one
    or more operators and cut at the largest length.  The last is stated by the invariant [I], an
    arbitrary property of the fuzzer that runs of such inputs keep, like a log that holds nothing
    else: it holds at the end, or when the entry is given up (saving may end the process and
    the answers may run out).  [splice_laws] is what is asked of the queue: the current test case stays
    where it is, and the others are given in full; the test case cache of [Cache] meets it
    ([HavocCache.cache_splice_laws]). *)
Theorem havoc_correct {W} `{Fuzzer W} `{Splicing W (list Z)} c fuel orig_in cur files x0 I rounds doing_det perf
  (s : hv_st W (list Z)) :
  splice_laws c orig_in cur files x0 I -> hv_pre c cur x0 -> 1 <= perf < 2 ^ 32 ->
  havoc_limit c perf <= Z.of_nat rounds ->
  hv_ready fuel orig_in cur files x0 I (16 * Z.to_nat (havoc_limit c perf)) cur s ->
  good (havoc_and_splice c fuel orig_in 16 rounds doing_det perf 0) s (fun _ s' => left_ok I s') (left_ok I).
Proof. intros HI Hpre Hp Hr Hs. by apply (havoc_and_splice_ok c fuel orig_in cur files x0 I HI Hpre rounds doing_det perf 16 0 cur s). Qed.

(** Splicing: the new input has the length of the other test case; up to [split_at] it is
    the current one, and from there on it is the start of the other one, not its bytes from
    [split_at] on.  [in_buf] and [out_buf] hold it, and the cache is not touched. *)
Theorem splice_at_diff_correct {W R} `{Fuzzer W} `{Splicing W R} (s : hv_st W R) b new_buf new_len k :
  in_deref s = Next b s -> 0 <= k <= zlen b -> k < new_len <= zlen new_buf -> new_len <= MAX_FILE ->
  zlen (h_in_scratch s) <= 2 ^ 30 -> zlen (h_out s) <= 2 ^ 30 ->
  exists s', splice_at_diff new_buf new_len k s = Next tt s' /\ h_len s' = new_len /\ h_in s' = Spliced /\
    slice (h_in_buf s') 0 new_len = slice b 0 k ++ slice new_buf 0 (new_len - k) /\
    slice (h_out s') 0 new_len = slice (h_in_buf s') 0 new_len /\ h_env s' = h_env s.
Proof.
  intros Eb Hk Hl Hmax Hsc Ho. unfold MAX_FILE in *. unfold splice_at_diff, mbind, stage_bind at 1. rewrite Eb. unfold update.
  cbv zeta. rewrite (load_Some b) by lia. cbn [mbind option_bind].
  assert (zlen (slice b 0 k) = k) as Hzk by (apply zlen_slice; lia).
  assert (new_len <= zlen (afl_realloc (h_in_scratch s) new_len)) as Hr by (apply afl_realloc_room; lia).
  set (sc := afl_realloc (h_in_scratch s) new_len) in *. rewrite store_Some by lia. cbn [mbind option_bind].
  rewrite (wrap_small 32) by (unfold in_width; lia). rewrite load_Some by lia. cbn [mbind option_bind].
  set (tl := slice new_buf 0 (new_len - k)). assert (zlen tl = new_len - k) as Hzt by (apply zlen_slice; lia).
  rewrite store_Some by (rewrite ?zlen_splice_at; lia). cbn [mbind option_bind].
  set (sc' := splice_at _ k tl). assert (zlen sc' = zlen sc) as Ez by (unfold sc'; rewrite !zlen_splice_at; rewrite ?zlen_splice_at; lia).
  rewrite load_Some by lia. cbn [mbind option_bind].
  assert (zlen (slice sc' 0 new_len) = new_len) as Hz by (apply zlen_slice; lia).
  destruct (refill (h_out s) new_len (slice sc' 0 new_len)) as (o&Eo&_&Hos); [done|unfold MAX_FILE; lia|done|].
  rewrite Eo. cbn [mbind option_bind]. eexists. split; [done|]. cbn. split_and!; [done|done| |done|done].
  unfold sc'. replace new_len with (k + zlen tl) by lia. rewrite slice_splice_upto by (rewrite ?zlen_splice_at; lia).
  f_equal. pose proof (slice_splice_same sc 0 (slice b 0 k)) as Hh. rewrite Hzk in Hh. apply Hh; lia.
Qed.

(** ** Examples *)

(** A fuzzer that keeps the inputs it has run, with a queue of two test cases. *)
#[local] Instance log_fuzzer : Fuzzer (list (list Z)) := {
  fuzz_run_target w x := (FSRV_RUN_OK, w ++ [x]);
  stop_requested _ := false;
  skip_requested _ := false;
  clear_skip_request w := w;
  trace_cksum _ := 0;
  queued_items _ := 2;
  save_if_interesting w _ _ := Some (0, w);
  get_cur_time w := (0, w)
}.

Definition log_files (t : nat) : list Z := match t with O => [1; 2; 3; 4; 5; 6; 7; 8] | _ => [9; 8; 7; 6; 5; 4; 3; 2; 1; 0] end.

#[local] Instance log_splicing : Splicing (list (list Z)) (list Z) := {
  ready_for_splicing _ := 2;
  current_entry _ := 0;
  entry_len _ tid := if tid =? 0 then Some 8 else if tid =? 1 then Some 10 else None;
  testcase_get w r tid := Ret (InEntry (Z.to_nat tid), w, r);
  testcase_deref _ p := match p with InEntry t => Some (log_files t) | _ => None end;
  in_exploration _ := true
}.

Definition log_cfg (min_length : Z) : hv_cfg :=
  HvCfg min_length MAX_FILE 1 1 2 2 true false 1 false (replicate 20 0).
Definition log_extras : extras_st := ExtrasSt [] [] false.
Definition log_st (cur script : list Z) : hv_st (list (list Z)) (list Z) :=
  HvSt (splice_at (afl_realloc [] (zlen cur)) 0 cur) [] (zlen cur) (Cached (InEntry 0)) (zlen cur) [] [] (Stage.Env [] script log_extras 0 0 0).

(** Twelve runs, each with the same bit flipped. *)
Example log_havoc :
  match havoc_stage (log_cfg 1) 200 200 false 1 0
          (log_st (log_files 0) (0 :: concat (replicate 12 [0; 0; 3; 2]))) with
  | Next _ s => e_fuzzer (h_env s) = replicate 12 [1; 2; 11; 4; 5; 6; 7; 8]
  | _ => False
  end.
Proof. vm_compute. done. Qed.

Lemma log_pre : hv_pre (log_cfg 1) (log_files 0) log_extras.
Proof.
  split; done || by repeat constructor.
Qed.

(** The same two test cases in the test case cache, of which the first is current and cached. *)
Definition splice_cache : cache_st :=
  CacheSt [CEntry 8 (log_files 0) false (Some (log_files 0)); CEntry 10 (log_files 1) false None]
    [Some 0%nat; None; None; None] 100 4 8 1 1 0 0 0 false [] [].

Lemma splice_cache_wf : cache_wf splice_cache.
Proof.
  constructor; try (cbn; lia); try done.
  - intros i Hi. cbn in Hi. assert (i = 1 \/ i = 2 \/ i = 3)%nat as [->|[->| ->]] by lia; done.
  - change (NoDup [0%nat]). apply NoDup_singleton.
  - intros q. change (occ splice_cache) with [0%nat]. rewrite list_elem_of_singleton. unfold cached.
    destruct q as [|[|q]]; cbn; split; intros Hq; first [lia|by eauto|by destruct Hq as (e&b&?&?); simplify_eq].
  - cbn. rewrite !Forall_cons_iff. split_and!; [..|apply Forall_nil_2];
      (split; [cbn; lia|]; split; [unfold zlen; cbn; lia|]; intros b Hb; cbn in Hb; by simplify_eq).
Qed.

Definition splice_entry : centry := CEntry 8 (log_files 0) false (Some (log_files 0)).

Lemma splice_queue_pre : queue_pre splice_cache splice_entry.
Proof. split; [apply splice_cache_wf|done..|]. repeat constructor; done. Qed.

Definition splice_start : hv_st qworld (list Z) :=
  HvSt (splice_at (afl_realloc [] 8) 0 (log_files 0)) [] 8 (Cached (InEntry 0)) 8 [] []
    (Stage.Env (QWorld [] splice_cache 10 None) (0 :: concat (replicate 12 [0; 0; 3; 2])) log_extras 0 0 0).

Definition splice_inv : nat -> qworld -> Prop := logged_ok (log_cfg 1) log_extras splice_cache splice_entry.

Lemma splice_start_ready n :
  hv_ready 60 (InEntry 0) (log_files 0) (in_queue splice_cache) log_extras splice_inv n (log_files 0) splice_start.
Proof.
  split; [|by vm_compute]. split; try (constructor; fail); try (done || (by vm_compute; lia) || (by repeat constructor)).
  split; [constructor|]. split; [apply splice_cache_wf|]. by apply keeps_queue.
Qed.

Example havoc_correct_witness :
  good (havoc_and_splice (log_cfg 1) 60 (InEntry 0) 16 (Z.to_nat (havoc_limit (log_cfg 1) 1)) false 1 0) splice_start
    (fun _ s' => left_ok splice_inv s') (left_ok splice_inv).
Proof.
  refine (havoc_correct (log_cfg 1) 60 (InEntry 0) (log_files 0) _ log_extras splice_inv _ false 1 splice_start
    (cache_splice_laws (log_cfg 1) log_extras splice_cache splice_entry splice_queue_pre) log_pre _ _
    (splice_start_ready _)).
  - done.
  - rewrite Z2Nat.id; done.
Defined.

Definition ops_env : Mutations.env := mut_env (log_cfg 1) log_extras.

Example one_mut_correct_witness :
  match one_mut 3 (replicate 20 0) ops_env MUT_SWITCH (Mst (log_files 0) 8 [] [1; 5; 0; 2]) with
  | Ok (k, s') => hv_post ops_env (one_effect ops_env (replicate 20 0) (fun _ => False) MUT_SWITCH) (Mst (log_files 0) 8 [] [1; 5; 0; 2]) k s'
  | Mutations.Fault => False
  | NoRand | Mutations.NoFuel => True
  end.
Proof.
  refine (one_mut_correct 3 (replicate 20 0) (fun _ => False) ops_env MUT_SWITCH (Mst (log_files 0) 8 [] [1; 5; 0; 2] : mst (list Z))
    (hr_env _ _ _ log_pre) _ _ _ _ _).
  - done.
  - split; [by repeat constructor|done].
  - done.
  - done.
  - split; [split|..]; done || by repeat constructor.
Defined.

Example splice_at_diff_correct_witness :
  exists s', splice_at_diff (log_files 1) 10 3 (log_st (log_files 0) []) = Next tt s' /\
    slice (h_in_buf s') 0 10 = [1; 2; 3; 9; 8; 7; 6; 5; 4; 3].
Proof.
  refine (match splice_at_diff_correct (log_st (log_files 0) []) (log_files 0) (log_files 1) 10 3 _ _ _ _ _ _ with
    | ex_intro _ s' (conj E (conj _ (conj _ (conj Ei _)))) => ex_intro _ s' (conj E Ei) end); done.
Defined.

(** With [-g] (a smallest length) the stage reads past [out_buf]: after deletions the data
    is shorter than that, an insertion then makes the smaller [out_scratch_buf] the new
    [out_buf], and [write_to_testcase] raises the length to [min_length] without regard to the
    allocation.  Here [min_length] is 100, the test case has 100 bytes, two blocks of 32 are
    deleted and one byte is inserted, so that 100 bytes are read from an allocation of 56. *)
Theorem havoc_short_overread :
  havoc_stage (log_cfg 100) 60 200 false 1 0
    (log_st (replicate 100 7) [1; 2; 176; 31; 0; 176; 31; 0; 194; 0; 1; 65]) = OutOfBounds.
Proof. vm_compute. done. Qed.
