(* ===== verification/Encode.v ===== *)
(** * Encodings of the input-to-state stage

    The helpers of [src/afl-fuzz-redqueen.c] that do not run the target: numbers in text,
    hexadecimal and base64 text, swapped bytes ([include/types.h]), the compact integers of
    the SCALE codec, and floating point numbers plus and minus one. *)

From Stdlib Require Import Floats.SpecFloat.
From S2P Require Import Prelude Mutations.

(** ** Numbers in text *)

(** [isspace] in the C locale *)
Definition isspace (b : Z) : bool := (b =? 32) || ((9 <=? b) && (b <=? 13)).

Definition digit_val (b : Z) : Z :=
  if (48 <=? b) && (b <=? 57) then b - 48
  else if (97 <=? b) && (b <=? 122) then b - 87
  else if (65 <=? b) && (b <=? 90) then b - 55
  else 36.

(** The value of the leading digits and their number. *)
Fixpoint digits (base : Z) (l : list Z) (val n : Z) : Z * Z :=
  match l with
  | b :: l => if digit_val b <? base then digits base l (val * base + digit_val b) (n + 1) else (val, n)
  | [] => (val, n)
  end.

Fixpoint skip (p : Z -> bool) (l : list Z) (n : Z) : Z * list Z :=
  match l with
  | b :: l' => if p b then skip p l' (n + 1) else (n, l)
  | [] => (n, [])
  end.

(** [strtoll] and [strtoull] with base 0 up to the conversion to the type of the result:
    sign, value, and number of characters taken (0: no number). *)
Definition strto (l : list Z) : bool * Z * Z :=
  let '(n, l) := skip isspace l 0 in
  let '(neg, n, l) := match l with
                      | 45 :: l => (true, n + 1, l)
                      | 43 :: l => (false, n + 1, l)
                      | _ => (false, n, l)
                      end in
  let '(base, n', l') :=
    match l with
    | 48 :: x :: d :: l' =>
        if ((x =? 120) || (x =? 88)) && (digit_val d <? 16) then (16, n + 2, d :: l') else (8, n, l)
    | 48 :: _ => (8, n, l)
    | _ => (10, n, l)
    end in
  let '(val, k) := digits base l' 0 0 in
  if k =? 0 then (false, 0, 0) else (neg, val, n' + k).

(** The part both share: [str] is what the pointer points to, [sz] the number of characters;
    the number, and the number of characters up to its end.  [None]: return 1. *)
Definition strnto (str : list Z) (sz : Z) : option (bool * Z * Z) :=
  if sz =? 0 then None
  else
    let '(k, beg) := skip (fun b => b =? 32) (take (Z.to_nat sz) str) 0 in
    if sz - k =? 0 then None
    else
      let '(neg, val, n) := strto (take 63 beg) in
      Some (neg, val, k + n).

(** [stale]: [errno] is [ERANGE] before the call. *)
Definition strntoll (stale : bool) (str : list Z) (sz : Z) : option (Z * Z) :=
  match strnto str sz with
  | None => None
  | Some (neg, val, n) =>
      let v := if neg then - val else val in
      if (v <? - 2 ^ 63) || (2 ^ 63 <=? v) || (((v =? - 2 ^ 63) || (v =? 2 ^ 63 - 1)) && stale) then None
      else Some (v, n)
  end.

Definition strntoull (stale : bool) (str : list Z) (sz : Z) : option (Z * Z) :=
  match strnto str sz with
  | None => None
  | Some (neg, val, n) =>
      let v := u64 (if neg then - val else val) in
      if (2 ^ 64 <=? val) || ((v =? 2 ^ 64 - 1) && stale) then None else Some (v, n)
  end.

(** ** Hexadecimal and base64 *)

Definition hex_table_up : list Z := seqZ 48 10 ++ seqZ 65 6.    (* 0-9 A-F *)
Definition hex_table_low : list Z := seqZ 48 10 ++ seqZ 97 6.   (* 0-9 a-f *)
Definition hex_table : list Z :=
  [0; 1; 2; 3; 4; 5; 6; 7; 8; 9; 0; 0; 0; 0;
   0; 0; 0; 10; 11; 12; 13; 14; 15; 0; 0; 0; 0; 0;
   0; 0; 0; 0; 0; 0; 0; 0; 0; 0; 0; 0; 0; 0;
   0; 0; 0; 0; 0; 0; 0; 10; 11; 12; 13; 14; 15].

Definition hex_char (b : Z) : bool :=
  ((48 <=? b) && (b <=? 57)) || ((65 <=? b) && (b <=? 70)) || ((97 <=? b) && (b <=? 102)).
Definition base64_char (b : Z) : bool :=
  ((48 <=? b) && (b <=? 57)) || ((65 <=? b) && (b <=? 90)) || ((97 <=? b) && (b <=? 122))
  || (b =? 43) || (b =? 47) || (b =? 61).

(** [m]: what the pointer points to, and everything behind it.  The loop leaves at the first
    character that is not one. *)
Fixpoint all_chars (p : Z -> bool) (m : list Z) (off : Z) (n : nat) : option bool :=
  match n with
  | O => Some true
  | S n => b ← get m off; if p b then all_chars p m (off + 1) n else Some false
  end.
Definition is_hex (m : list Z) (off : Z) : option bool := all_chars hex_char m off 2.
Definition is_base64 (m : list Z) (off : Z) : option bool := all_chars base64_char m off 4.

(** A-Z a-z 0-9 + / *)
Definition base64_encode_table : list Z := seqZ 65 26 ++ seqZ 97 26 ++ seqZ 48 10 ++ [43; 47].
Definition base64_decode_table : list Z :=
  [62; 0; 0; 0; 63; 52; 53; 54; 55; 56; 57; 58; 59; 60; 61; 0;
   0; 0; 0; 0; 0; 0; 0; 1; 2; 3; 4; 5; 6; 7; 8; 9;
   10; 11; 12; 13; 14; 15; 16; 17; 18; 19; 20; 21; 22; 23; 24; 25;
   0; 0; 0; 0; 0; 0; 26; 27; 28; 29; 30; 31; 32; 33; 34; 35;
   36; 37; 38; 39; 40; 41; 42; 43; 44; 45; 46; 47; 48; 49; 50; 51].

Definition decode_char (b : Z) : option Z := get base64_decode_table (b - 43).

(** Four characters: the three bytes, of which [1 + b2z two + b2z three] are stored. *)
Definition decode_group (src dst : list Z) (i j : Z) : option (list Z * Z) :=
  c0 ← get src i; c1 ← get src (i + 1); c2 ← get src (i + 2); c3 ← get src (i + 3);
  v0 ← decode_char c0;
  v1 ← decode_char c1;
  let v := Z.lor (Z.shiftl v0 6) v1 in
  v ← (if c2 =? 61 then Some (Z.shiftl v 6) else d ← decode_char c2; Some (Z.lor (Z.shiftl v 6) d));
  v ← (if c3 =? 61 then Some (Z.shiftl v 6) else d ← decode_char c3; Some (Z.lor (Z.shiftl v 6) d));
  dst ← put dst j (Z.land (Z.shiftr v 16) 0xFF);
  dst ← (if c2 =? 61 then Some dst else put dst (j + 1) (Z.land (Z.shiftr v 8) 0xFF));
  dst ← (if c3 =? 61 then Some dst else put dst (j + 2) (Z.land v 0xFF));
  Some (dst, 1 + b2z (negb (c2 =? 61)) + b2z (negb (c3 =? 61))).

Fixpoint decode_loop (n : nat) (src dst : list Z) (i j ret : Z) : option (Z * list Z) :=
  match n with
  | O => Some (ret, dst)
  | S n => '(dst, k) ← decode_group src dst i j; decode_loop n src dst (i + 4) (j + 3) (ret + k)
  end.

Definition from_base64 (src dst : list Z) (dst_len : Z) : option (Z * list Z) :=
  decode_loop (Z.to_nat (dst_len / 3)) src dst 0 0 0.

Definition encode_char (v : Z) : option Z := get base64_encode_table (Z.land v 0x3F).

(** [len] is the number of characters, [dst_len] that of the bytes. *)
Definition encode_group (src : list Z) (len dst_len i : Z) : option (list Z) :=
  v ← get src i;
  v ← (if i + 1 <? len then b ← get src (i + 1); Some (Z.lor (Z.shiftl v 8) b) else Some (Z.shiftl v 8));
  v ← (if i + 2 <? len then b ← get src (i + 2); Some (Z.lor (Z.shiftl v 8) b) else Some (Z.shiftl v 8));
  c0 ← encode_char (Z.shiftr v 18);
  c1 ← encode_char (Z.shiftr v 12);
  c2 ← (if i + 1 <? dst_len then encode_char (Z.shiftr v 6) else Some 61);
  c3 ← (if i + 2 <? dst_len then encode_char v else Some 61);
  Some [c0; c1; c2; c3].

Fixpoint encode_loop (n : nat) (src dst : list Z) (len dst_len i j : Z) : option (list Z) :=
  match n with
  | O => Some dst
  | S n =>
      g ← encode_group src len dst_len i;
      dst ← store dst j g;
      encode_loop n src dst len dst_len (i + 3) (j + 4)
  end.

Definition to_base64 (src dst : list Z) (dst_len : Z) : option (Z * list Z) :=
  let groups := dst_len / 3 + b2z (z2b (dst_len mod 3)) in
  dst ← encode_loop (Z.to_nat groups) src dst (4 * groups) dst_len 0 0;
  dst ← put dst (4 * groups) 0;
  Some (4 * groups, dst).

(** ** Swapped bytes *)

Definition SWAP64 (x : Z) : Z :=
  let r := u64 x in
  let r := u64 (Z.lor (Z.shiftl (Z.land r 0x00000000FFFFFFFF) 32) (Z.shiftr (Z.land r 0xFFFFFFFF00000000) 32)) in
  let r := u64 (Z.lor (Z.shiftl (Z.land r 0x0000FFFF0000FFFF) 16) (Z.shiftr (Z.land r 0xFFFF0000FFFF0000) 16)) in
  u64 (Z.lor (Z.shiftl (Z.land r 0x00FF00FF00FF00FF) 8) (Z.shiftr (Z.land r 0xFF00FF00FF00FF00) 8)).

(** A shift by [128U - (l << 3U)], of which x86-64 takes the low seven bits. *)
Definition SWAPN (x l : Z) : Z :=
  let sr := u32 (128 - u32 (Z.shiftl l 3)) in
  Z.shiftr (le_word (rev (le_bytes 16 x))) (sr mod 128).

Definition SWAPA (x : Z) : Z := Z.land x 0xf8 + Z.lxor (Z.land x 7) 0x07.

(** ** Compact integers *)

(** [while (tmp_val) { tmp_val >>= 8; ++scale_len; }], at most 16 turns for a [u128]. *)
Fixpoint byte_count (n : nat) (v : Z) : Z :=
  match n with
  | O => 0
  | S n => if v =? 0 then 0 else 1 + byte_count n (Z.shiftr v 8)
  end.

(** The value and length of the encoding with a length prefix. *)
Definition scale_big (repl : Z) : Z * Z :=
  let n := byte_count 16 repl in
  let scale_len := if n >=? 4 then n - 4 else 0 in
  (wrap 128 (wrap 128 (Z.shiftl repl 8) + (Z.shiftl scale_len 2 + 3)), scale_len + 5).

(** The value that is written and its length, for [cmp_extend_encoding]. *)
Definition scale64 (repl changed_val : Z) : Z * Z :=
  let new_val := u64 (Z.shiftl repl 2) in
  if changed_val <=? 255 then (new_val, 1)
  else if new_val <=? 65535 then (u64 (new_val + 1), 2)
  else if new_val <=? 4294967295 then (u64 (new_val + 2), 4)
  else scale_big repl.

(** The same for [cmp_extend_encodingN]; [None]: too large. *)
Definition scale128 (repl : Z) : option (Z * Z) :=
  let new_val := wrap 128 (Z.shiftl repl 2) in
  if new_val <=? 255 then Some (new_val, 1)
  else if new_val <=? 65535 then Some (new_val + 1, 2)
  else if new_val <=? 4294967295 then Some (new_val + 2, 4)
  else if repl <? 2 ^ 120 then Some (scale_big repl)
  else None.

(** ** Floating point *)

(** The IEEE format with [ew] bits of exponent and [mw] bits of mantissa. *)
Definition float_of_bits (ew mw bits : Z) : spec_float :=
  let s := Z.testbit bits (ew + mw) in
  let e := Z.land (Z.shiftr bits mw) (Z.ones ew) in
  let m := Z.land bits (Z.ones mw) in
  let emin := 3 - 2 ^ (ew - 1) - (mw + 1) in
  if e =? Z.ones ew then if m =? 0 then S754_infinity s else S754_nan
  else if e =? 0 then match m with Zpos p => S754_finite s p emin | _ => S754_zero s end
  else match m + 2 ^ mw with Zpos p => S754_finite s p (emin + e - 1) | _ => S754_nan end.

(** [nan] are the bits of a number that is not one. *)
Definition bits_of_float (ew mw nan : Z) (f : spec_float) : Z :=
  let sign (s : bool) := if s then 2 ^ (ew + mw) else 0 in
  let emin := 3 - 2 ^ (ew - 1) - (mw + 1) in
  match f with
  | S754_zero s => sign s
  | S754_infinity s => sign s + Z.shiftl (Z.ones ew) mw
  | S754_nan => nan
  | S754_finite s m e =>
      if Z.pos m <? 2 ^ mw then sign s + Z.pos m
      else sign s + Z.shiftl (e - emin + 1) mw + (Z.pos m - 2 ^ mw)
  end.

(** The float nearest to a number. *)
Definition round_float (prec emax : Z) (f : spec_float) : spec_float :=
  match f with
  | S754_finite s m e => binary_normalize prec emax (cond_Zopp s (Z.pos m)) e s
  | _ => f
  end.

Definition one : spec_float := S754_finite false (2 ^ 52) (- 52).

(** [float g = *f; g += 1.0] (or [-= 1.0]): the sum is formed in double precision.  A NaN
    stays one, with the quiet bit set. *)
Definition float_step (up : bool) (repl : Z) : Z :=
  let x := u32 repl in
  bits_of_float 8 23 (Z.lor x 0x400000)
    (round_float 24 128 (SFadd 53 1024 (float_of_bits 8 23 x) (if up then one else SFopp one))).

Definition double_step (up : bool) (repl : Z) : Z :=
  bits_of_float 11 52 (Z.lor repl 0x8000000000000)
    (SFadd 53 1024 (float_of_bits 11 52 repl) (if up then one else SFopp one)).

(** [(float)*f]; of a NaN the upper bits are kept. *)
Definition double_to_float (repl : Z) : Z :=
  bits_of_float 8 23
    (Z.lor (if Z.testbit repl 63 then 0xFFC00000 else 0x7FC00000) (Z.land (Z.shiftr repl 29) (Z.ones 22)))
    (round_float 24 128 (float_of_bits 11 52 repl)).

(** ** Examples *)

Example strntoll_examples :
  strntoll false (map Z.of_nat [32; 45; 48; 120; 49; 102; 122]%nat) 7 = Some (-31, 6) /\
  strntoll false [48; 120; 103] 3 = Some (0, 1) /\ strntoll false [65; 66] 2 = Some (0, 0) /\
  strntoll false [48; 49; 55; 57] 4 = Some (15, 3) /\ strntoll false [32; 32] 2 = None.
Proof. by vm_compute. Qed.

Example to_base64_example :
  to_base64 [77; 97; 110; 33] (replicate 64 0) 3 = Some (4, [84; 87; 70; 117; 0] ++ replicate 59 0).
Proof. by vm_compute. Qed.

(** [1.5f + 1.0], [-0.5 + 1.0], [(float)0.1]. *)
Example float_examples :
  float_step true 0x3fc00000 = 0x40200000 /\ double_step true 0xbfe0000000000000 = 0x3fe0000000000000 /\
  double_to_float 0x3fb999999999999a = 0x3dcccccd /\ float_step false 0x3f800000 = 0 /\
  float_step true 1 = 0x3f800000.
Proof. by vm_compute. Qed.
