(* ===== verification/EncodeFacts.v ===== *)
(** * Encodings of the input-to-state stage: round trips *)

From S2P Require Import Prelude Mutations Encode.

(** ** Base64 *)

Lemma lor_shiftl x k y : 0 <= k -> in_width k y -> Z.lor (Z.shiftl x k) y = x * 2 ^ k + y.
Proof.
  intros Hk Hy. rewrite <- Z.shiftl_mul_pow2 by done. symmetry. apply Z.add_nocarry_lor.
  apply Z.bits_inj'. intros i Hi. rewrite Z.land_spec, Z.shiftl_spec, Z.bits_0 by done.
  destruct (decide (i < k)); [by rewrite (Z.testbit_neg_r x) by lia|].
  rewrite (testbit_high k y) by (done || lia). apply andb_false_r.
Qed.

(** Every six bits have a character that decodes to them. *)
Lemma char_roundtrip v : exists ch, encode_char v = Some ch /\ decode_char ch = Some (v mod 64) /\ ch <> 61 /\ in_width 8 ch.
Proof.
  unfold encode_char. change 0x3F with (Z.ones 6). rewrite Z.land_ones by lia. change (2 ^ 6) with 64.
  pose proof (Z.mod_pos_bound v 64 ltac:(lia)) as Hv. set (x := v mod 64) in *. clearbody x.
  assert (forallb (fun x => match get base64_encode_table x with
    | Some c => match decode_char c with Some y => (y =? x) && negb (c =? 61) && (0 <=? c) && (c <? 256) | None => false end
    | None => false end) (seqZ 0 64) = true) as HF by by vm_compute.
  rewrite forallb_forall in HF. specialize (HF x). assert (In x (seqZ 0 64)) as Hin by (apply list_elem_of_In, elem_of_seqZ; lia). apply HF in Hin as HF'. clear HF. rename HF' into HF.
  destruct (get base64_encode_table x) as [ch|]; [|done]. destruct (decode_char ch) as [y|] eqn:Ey; [|done].
  repeat (apply andb_prop in HF as [HF ?]). exists ch. unfold in_width. b2p. split_and!; try done; try lia. by rewrite <- HF.
Qed.

Lemma slice_get {A} (m : list A) off n k : 0 <= off -> 0 <= k < n -> get (slice m off n) k = get m (off + k).
Proof.
  intros Ho Hk. rewrite !get_pos by lia. unfold slice. rewrite lookup_take_lt by lia. rewrite lookup_drop. f_equal. lia.
Qed.

(** The characters of three bytes. *)
Lemma encode_group_ok src len dst_len i a b d : get src i = Some a -> get src (i + 1) = Some b -> get src (i + 2) = Some d ->
  in_width 8 a -> in_width 8 b -> in_width 8 d -> i + 2 < len ->
  exists c0 c1 c2 c3, encode_group src len dst_len i = Some [c0; c1; c2; c3] /\
    let v := a * 65536 + b * 256 + d in
    decode_char c0 = Some (v / 2 ^ 18 mod 64) /\ decode_char c1 = Some (v / 2 ^ 12 mod 64) /\
    (if i + 1 <? dst_len then c2 <> 61 /\ decode_char c2 = Some (v / 2 ^ 6 mod 64) else c2 = 61) /\
    (if i + 2 <? dst_len then c3 <> 61 /\ decode_char c3 = Some (v mod 64) else c3 = 61).
Proof.
  intros Ea Eb Ed Ha Hb Hd Hl. unfold encode_group. rewrite Ea, Eb, Ed. cbn [mbind option_bind].
  rewrite !(proj2 (Z.ltb_lt _ len)) by lia. cbn [mbind option_bind].
  rewrite (lor_shiftl a 8 b), lor_shiftl by (done || lia). replace ((a * 2 ^ 8 + b) * 2 ^ 8 + d) with (a * 65536 + b * 256 + d) by lia.
  set (v := a * 65536 + b * 256 + d). rewrite !Z.shiftr_div_pow2 by lia.
  destruct (char_roundtrip (v / 2 ^ 18)) as (c0&->&?&_), (char_roundtrip (v / 2 ^ 12)) as (c1&->&?&_),
    (char_roundtrip (v / 2 ^ 6)) as (c2&->&?&?&_), (char_roundtrip v) as (c3&->&?&?&_). cbn [mbind option_bind].
  destruct (i + 1 <? dst_len), (i + 2 <? dst_len); do 4 eexists; split; try done; split_and!; done.
Qed.

Lemma put_splice {A} (m : list A) off x : 0 <= off < zlen m -> put m off x = Some (splice_at m off [x]).
Proof. intros Ho. rewrite put_Some by done. f_equal. symmetry. by apply splice_one. Qed.

Lemma splice_next {A} (m : list A) off l k : 0 <= off -> off + zlen l + zlen k <= zlen m ->
  splice_at (splice_at m off l) (off + zlen l) k = splice_at m off (l ++ k).
Proof.
  intros Ho Hz. pose proof (zlen_nonneg l). pose proof (zlen_nonneg k). apply list_eq. intros i.
  destruct (decide (Z.of_nat i < off + zlen l \/ off + zlen l + zlen k <= Z.of_nat i)) as [Hi|Hi].
  - rewrite lookup_splice_ne by (rewrite ?zlen_splice_at; lia).
    destruct (decide (off <= Z.of_nat i < off + zlen l)).
    + rewrite !lookup_splice_eq by (rewrite ?zlen_app; lia). rewrite lookup_app_l; [done|]. unfold zlen in *. lia.
    + rewrite !lookup_splice_ne by (rewrite ?zlen_app; lia). done.
  - rewrite !lookup_splice_eq by (rewrite ?zlen_splice_at, ?zlen_app; lia). rewrite lookup_app_r by (unfold zlen in *; lia).
    f_equal. unfold zlen in *. lia.
Qed.

Lemma put_more {A} (m : list A) off l x k : k = zlen l -> 0 <= off -> off + zlen l < zlen m ->
  put (splice_at m off l) (off + k) x = Some (splice_at m off (l ++ [x])).
Proof.
  intros -> Ho Hz. pose proof (zlen_nonneg l). rewrite put_splice by (rewrite zlen_splice_at; lia).
  f_equal. apply splice_next; [lia|]. rewrite zlen_one. lia.
Qed.

Lemma sextets a b d v x2 x3 : 0 <= a < 256 -> 0 <= b < 256 -> 0 <= d < 256 -> v = a * 65536 + b * 256 + d ->
  0 <= x2 < 64 -> 0 <= x3 < 64 ->
  let w := ((v / 2 ^ 18 mod 64 * 64 + v / 2 ^ 12 mod 64) * 64 + x2) * 64 + x3 in
  w / 2 ^ 16 mod 2 ^ 8 = a /\ (x2 = v / 2 ^ 6 mod 64 -> w / 2 ^ 8 mod 2 ^ 8 = b) /\
  (x2 = v / 2 ^ 6 mod 64 -> x3 = v mod 64 -> w mod 2 ^ 8 = d).
Proof.
  intros Ha Hb Hd -> H2 H3. cbv zeta. change (2 ^ 18) with 262144. change (2 ^ 12) with 4096. change (2 ^ 6) with 64.
  change (2 ^ 16) with 65536. change (2 ^ 8) with 256.
  assert ((a * 65536 + b * 256 + d) / 262144 mod 64 = a / 4) as -> by dlia.
  assert ((a * 65536 + b * 256 + d) / 4096 mod 64 = a mod 4 * 16 + b / 16) as -> by dlia.
  assert ((a * 65536 + b * 256 + d) / 64 mod 64 = b mod 16 * 4 + d / 64) as -> by dlia.
  split; [dlia|]. split; [intros ->; dlia|]. intros -> ->. dlia.
Qed.

(** Four characters are decoded to the bytes they stand for; the bits behind the last byte do
    not matter. *)
Lemma decode_group_ok src dst i j a b d c0 c1 c2 c3 (two three : bool) :
  get src i = Some c0 -> get src (i + 1) = Some c1 -> get src (i + 2) = Some c2 -> get src (i + 3) = Some c3 ->
  in_width 8 a -> in_width 8 b -> in_width 8 d -> (three = true -> two = true) ->
  0 <= j -> j + 1 + b2z two + b2z three <= zlen dst ->
  (let v := a * 65536 + b * 256 + d in
   decode_char c0 = Some (v / 2 ^ 18 mod 64) /\ decode_char c1 = Some (v / 2 ^ 12 mod 64) /\
   (if two then c2 <> 61 /\ decode_char c2 = Some (v / 2 ^ 6 mod 64) else c2 = 61) /\
   (if three then c3 <> 61 /\ decode_char c3 = Some (v mod 64) else c3 = 61)) ->
  decode_group src dst i j =
    Some (splice_at dst j (take (Z.to_nat (1 + b2z two + b2z three)) [a; b; d]), 1 + b2z two + b2z three).
Proof.
  intros E0 E1 E2 E3 Ha Hb Hd H23 Hj Hz. cbv zeta. intros (D0&D1&D2&D3).
  remember (a * 65536 + b * 256 + d) as v eqn:Ev.
  unfold decode_group. rewrite E0, E1, E2, E3. cbn [mbind option_bind]. rewrite D0, D1. cbn [mbind option_bind].
  change 0xFF with (Z.ones 8).
  assert (forall x y, 0 <= y < 64 -> Z.lor (Z.shiftl x 6) y = x * 64 + y) as L by (intros; by apply (lor_shiftl x 6)).
  assert (forall x, Z.shiftl x 6 = x * 64 + 0) as L0 by (intros; rewrite Z.shiftl_mul_pow2 by lia; lia).
  assert (forall x, 0 <= x mod 64 < 64) as Hm by (intros; apply Z.mod_pos_bound; lia).
  rewrite L by done. destruct two.
  - destruct D2 as [N2 D2]. rewrite (proj2 (Z.eqb_neq _ _) N2), D2. cbn [mbind option_bind negb b2z] in *. rewrite L by done. destruct three.
    + destruct D3 as [N3 D3]. rewrite (proj2 (Z.eqb_neq _ _) N3), D3. cbn [mbind option_bind negb b2z] in *. rewrite L by done.
      rewrite !Z.land_ones, !Z.shiftr_div_pow2 by lia.
      destruct (sextets a b d v (v / 2 ^ 6 mod 64) (v mod 64) Ha Hb Hd Ev (Hm _) (Hm _)) as (->&->&->); try done.
      rewrite put_splice by lia. cbn [mbind option_bind]. rewrite (put_more dst j [a]) by (repeat first [rewrite zlen_one|rewrite zlen_cons]; first [done|lia]). cbn [mbind option_bind app].
      rewrite (put_more dst j [a; b]) by (repeat first [rewrite zlen_one|rewrite zlen_cons]; first [done|lia]). done.
    + subst c3. cbn [mbind option_bind Z.eqb Pos.eqb negb b2z] in *. rewrite L0. rewrite !Z.land_ones, !Z.shiftr_div_pow2 by lia.
      destruct (sextets a b d v (v / 2 ^ 6 mod 64) 0 Ha Hb Hd Ev (Hm _) ltac:(lia)) as (->&->&_); try done.
      rewrite put_splice by lia. cbn [mbind option_bind]. by rewrite (put_more dst j [a]) by (repeat first [rewrite zlen_one|rewrite zlen_cons]; first [done|lia]).
  - destruct three; [by specialize (H23 eq_refl)|]. subst c2 c3. cbn [mbind option_bind Z.eqb Pos.eqb negb b2z] in *. rewrite !L0.
    rewrite !Z.land_ones, !Z.shiftr_div_pow2 by lia.
    destruct (sextets a b d v 0 0 Ha Hb Hd Ev ltac:(lia) ltac:(lia)) as (->&_&_).
    by rewrite put_splice by lia.
Qed.

Lemma get_byte m i : bytes_ok m -> 0 <= i < zlen m -> exists b, get m i = Some b /\ in_width 8 b.
Proof.
  intros Hm Hi. destruct (get_Some m i Hi) as [b Hb]. exists b. split; [done|].
  apply get_inv in Hb as [_ Hb]. by eapply Forall_lookup_1 in Hb.
Qed.

Lemma slice_3 (m : list Z) i a b d : get m i = Some a -> get m (i + 1) = Some b -> get m (i + 2) = Some d ->
  slice m i 3 = [a; b; d].
Proof.
  intros [Hi Ha]%get_inv [_ Hb]%get_inv [_ Hd]%get_inv. apply list_eq. intros k. unfold slice.
  replace (Z.to_nat (i + 1)) with (Z.to_nat i + 1)%nat in Hb by lia. replace (Z.to_nat (i + 2)) with (Z.to_nat i + 2)%nat in Hd by lia.
  destruct k as [|[|[|k]]]; cbn; rewrite ?lookup_take_lt, ?lookup_drop by lia; rewrite ?Nat.add_0_r; try done.
  rewrite lookup_take_ge by lia. by destruct k.
Qed.

Lemma encode_loop_ok src len n : bytes_ok src -> forall m dst i j, 0 <= i -> i + 3 * Z.of_nat m <= zlen src ->
  i + 3 * Z.of_nat m <= len -> 0 <= j -> j + 4 * Z.of_nat m <= zlen dst ->
  exists dst', encode_loop m src dst len n i j = Some dst' /\ zlen dst' = zlen dst /\
    (forall p, Z.of_nat p < j -> dst' !! p = dst !! p) /\
    forall k, 0 <= k < Z.of_nat m -> encode_group src len n (i + 3 * k) = Some (slice dst' (j + 4 * k) 4).
Proof.
  intros Hs. induction m as [|m IH]; intros dst i j Hi His Hil Hj Hjd; cbn [encode_loop].
  { exists dst. split_and!; try done. lia. }
  destruct (get_byte src i Hs) as (a&Ea&Wa); [lia|]. destruct (get_byte src (i + 1) Hs) as (b&Eb&Wb); [lia|].
  destruct (get_byte src (i + 2) Hs) as (d&Ed&Wd); [lia|].
  destruct (encode_group_ok src len n i a b d Ea Eb Ed Wa Wb Wd) as (c0&c1&c2&c3&Eg&_); [lia|]. rewrite Eg. cbn [mbind option_bind].
  assert (zlen [c0; c1; c2; c3] = 4) as Z4 by done. rewrite store_Some by lia. cbn [mbind option_bind].
  destruct (IH (splice_at dst j [c0; c1; c2; c3]) (i + 3) (j + 4)) as (dst'&E&Hz&Hlow&Hg);
    [lia|lia|lia|lia|rewrite zlen_splice_at; lia|].
  rewrite zlen_splice_at in Hz by lia. exists dst'. split_and!; [done|done| |].
  - intros p Hp. rewrite Hlow by lia. apply lookup_splice_ne; lia.
  - intros k Hk. destruct (decide (k = 0)) as [->|].
    + replace (i + 3 * 0) with i by lia. replace (j + 4 * 0) with j by lia. rewrite Eg. f_equal.
      apply list_eq. intros p. unfold slice. destruct (decide (p < 4)%nat).
      * rewrite lookup_take_lt, lookup_drop, Hlow by lia. rewrite lookup_splice_eq by lia. f_equal. lia.
      * rewrite lookup_take_ge by lia. apply lookup_ge_None_2. cbn. lia.
    + specialize (Hg (k - 1) ltac:(lia)). replace (i + 3 + 3 * (k - 1)) with (i + 3 * k) in Hg by lia.
      replace (j + 4 + 4 * (k - 1)) with (j + 4 * k) in Hg by lia. done.
Qed.

Lemma splice_nil {A} (m : list A) off : splice_at m off [] = m.
Proof. unfold splice_at. cbn [length app]. rewrite Nat.add_0_r. apply take_drop. Qed.

Lemma decode_loop_ok src text len n : bytes_ok src -> forall m out i p j ret,
  (forall k, 0 <= k < Z.of_nat m -> encode_group src len n (i + 3 * k) = Some (slice text (p + 4 * k) 4)) ->
  0 <= i -> 0 <= p -> 0 <= j -> i + 3 * Z.of_nat m <= zlen src -> i + 3 * Z.of_nat m <= len -> p + 4 * Z.of_nat m <= zlen text ->
  n <= i + 3 * Z.of_nat m -> (0 < Z.of_nat m -> i + 3 * (Z.of_nat m - 1) < n) ->
  (0 < Z.of_nat m -> j + Z.max 0 (n - i) <= zlen out) ->
  decode_loop m text out p j ret = Some (ret + Z.max 0 (n - i), splice_at out j (slice src i (Z.max 0 (n - i)))).
Proof.
  intros Hs. induction m as [|m IH]; intros out i p j ret Hg Hi Hp Hj His Hil Hpt Hn Hlast Hjo; cbn [decode_loop].
  { replace (Z.max 0 (n - i)) with 0 by lia. change (slice src i 0) with ([] : list Z). rewrite splice_nil. f_equal. f_equal. lia. }
  destruct (get_byte src i Hs) as (a&Ea&Wa); [lia|]. destruct (get_byte src (i + 1) Hs) as (b&Eb&Wb); [lia|].
  destruct (get_byte src (i + 2) Hs) as (d&Ed&Wd); [lia|].
  destruct (encode_group_ok src len n i a b d Ea Eb Ed Wa Wb Wd) as (c0&c1&c2&c3&Eg&Hdec); [lia|].
  pose proof (Hg 0 ltac:(lia)) as Hg0. replace (i + 3 * 0) with i in Hg0 by lia. replace (p + 4 * 0) with p in Hg0 by lia.
  rewrite Eg in Hg0. injection Hg0 as Hsl.
  assert (forall k ch, [c0; c1; c2; c3] !! k = Some ch -> get text (p + Z.of_nat k) = Some ch) as Hch.
  { intros k ch Hk. rewrite Hsl in Hk. unfold slice in Hk. apply lookup_take_Some in Hk as [Hk ?]. rewrite lookup_drop in Hk.
    rewrite get_pos by lia. rewrite <- Hk. f_equal. lia. }
  set (two := i + 1 <? n) in *. set (three := i + 2 <? n) in *.
  assert (1 + b2z two + b2z three = Z.min 3 (n - i)) as Hk.
  { unfold two, three. destruct (i + 1 <? n) eqn:?, (i + 2 <? n) eqn:?; b2p; cbn; lia. }
  rewrite (decode_group_ok text out p j a b d c0 c1 c2 c3 two three); try done.
  - cbn [mbind option_bind]. rewrite Hk. rewrite <- (slice_3 src i a b d Ea Eb Ed).
    set (g := take (Z.to_nat (Z.min 3 (n - i))) (slice src i 3)).
    assert (g = slice src i (Z.min 3 (n - i))) as Eg' by (unfold g, slice; rewrite take_take; f_equal; lia).
    assert (zlen g = Z.min 3 (n - i)) as Zg by (rewrite Eg'; apply zlen_slice; lia).
    rewrite (IH _ (i + 3)); [| |lia..|intros Hm; specialize (Hlast ltac:(lia)); rewrite zlen_splice_at; lia].
    + f_equal. f_equal; [lia|]. rewrite Eg' in *. destruct (decide (3 < n - i)).
      * replace (Z.max 0 (n - i)) with (3 + Z.max 0 (n - (i + 3))) by lia. rewrite <- (slice_app src i 3) by lia.
        replace (Z.min 3 (n - i)) with 3 in * by lia. 
        pose proof (splice_next out j (slice src i 3) (slice src (i + 3) (Z.max 0 (n - (i + 3))))) as Hss.
        rewrite Zg in Hss. apply Hss; [lia|]. rewrite zlen_slice; lia.
      * replace (Z.max 0 (n - (i + 3))) with 0 by lia. change (slice src (i + 3) 0) with ([] : list Z). rewrite splice_nil.
        do 2 f_equal. lia.
    + intros k Hkm. specialize (Hg (k + 1) ltac:(lia)). replace (i + 3 * (k + 1)) with (i + 3 + 3 * k) in Hg by lia.
      by replace (p + 4 * (k + 1)) with (p + 4 + 4 * k) in Hg by lia.
  - rewrite <- (Z.add_0_r p). by apply (Hch 0%nat).
  - by apply (Hch 1%nat).
  - by apply (Hch 2%nat).
  - by apply (Hch 3%nat).
  - unfold two, three. intros H3. b2p. lia.
  - lia.
Qed.

Lemma slice_ext {A} (m m' : list A) off n : 0 <= off ->
  (forall p, off <= Z.of_nat p < off + n -> m !! p = m' !! p) -> slice m off n = slice m' off n.
Proof.
  intros Ho He. apply list_eq. intros p. unfold slice. destruct (decide (p < Z.to_nat n)%nat).
  - rewrite !lookup_take_lt, !lookup_drop by done. apply He. lia.
  - by rewrite !lookup_take_ge by lia.
Qed.

(** [to_base64] followed by [from_base64] gives the bytes back, whatever follows them in
    memory, without leaving the buffers, when three bytes can be read for every four characters.
    The bytes behind the [n] ones do get into the text: the padding bits are not zero. *)
Theorem base64_roundtrip src text out n :
  bytes_ok src -> 1 <= n -> 3 * ((n + 2) / 3) <= zlen src -> 4 * ((n + 2) / 3) < zlen text -> n <= zlen out ->
  exists text', to_base64 src text n = Some (4 * ((n + 2) / 3), text') /\
    from_base64 text' out (3 * ((n + 2) / 3)) = Some (n, splice_at out 0 (slice src 0 n)).
Proof.
  intros Hs Hn Hsrc Htext Hout. unfold to_base64, from_base64.
  assert (n / 3 + b2z (z2b (n mod 3)) = (n + 2) / 3) as ->.
  { unfold z2b. destruct (n mod 3 =? 0) eqn:E; b2p; cbn; dlia. }
  remember ((n + 2) / 3) as g eqn:Eg. assert (1 <= g /\ 3 * (g - 1) < n <= 3 * g) as Hg by (subst; dlia). clear Eg.
  replace (3 * g / 3) with g by dlia.
  destruct (encode_loop_ok src (4 * g) n Hs (Z.to_nat g) text 0 0) as (t&Et&Hz&_&Hgr); [lia..|]. rewrite Et. cbn [mbind option_bind].
  rewrite put_splice by lia. cbn [mbind option_bind]. eexists. split; [done|].
  rewrite (decode_loop_ok src _ (4 * g) n Hs (Z.to_nat g) out 0 0 0 0); try lia.
  - do 3 f_equal; [lia|]. f_equal. lia.
  - intros k Hk. rewrite Hgr by done. f_equal. apply slice_ext; [lia|]. intros p Hp.
    rewrite lookup_splice_ne; [done|lia|rewrite zlen_one; lia|lia].
  - rewrite zlen_splice_at; rewrite ?zlen_one; lia.
Qed.

Example base64_roundtrip_witness : exists text',
  to_base64 [1; 2; 3; 4; 255; 255] (replicate 64 0) 4 = Some (8, text') /\
  from_base64 text' (replicate 64 0) 6 = Some (4, splice_at (replicate 64 0) 0 [1; 2; 3; 4]).
Proof.
  refine (base64_roundtrip [1; 2; 3; 4; 255; 255] (replicate 64 0) (replicate 64 0) 4 _ _ _ _ _); done || by repeat constructor.
Defined.

(** The text depends on the byte behind the data. *)
Example base64_padding_bits :
  to_base64 [1; 0; 0] (replicate 8 0) 1 = Some (4, [65; 81; 61; 61; 0; 0; 0; 0]) /\
  to_base64 [1; 255; 0] (replicate 8 0) 1 = Some (4, [65; 102; 61; 61; 0; 0; 0; 0]).
Proof. by vm_compute. Qed.

(** ** Compact integers *)

(** The decoder of the codec: the two lowest bits of the first byte give the mode. *)
Definition scale_decode (bs : list Z) : option Z :=
  match bs with
  | [] => None
  | b :: rest =>
      if b mod 4 =? 0 then Some (b / 4)
      else if b mod 4 =? 1 then Some (le_word (take 2 bs) / 4)
      else if b mod 4 =? 2 then Some (le_word (take 4 bs) / 4)
      else Some (le_word (take (Z.to_nat (b / 4 + 4)) rest))
  end.

Lemma byte_count_spec n v : 0 <= v < 2 ^ (8 * Z.of_nat n) ->
  0 <= byte_count n v <= Z.of_nat n /\ v < 2 ^ (8 * byte_count n v) /\ (0 < v -> 2 ^ (8 * (byte_count n v - 1)) <= v).
Proof.
  revert v. induction n as [|n IH]; intros v Hv; cbn [byte_count]; [cbn in *; lia|].
  destruct (v =? 0) eqn:E; b2p; [cbn; lia|]. rewrite Z.shiftr_div_pow2 by lia.
  assert (2 ^ (8 * Z.of_nat (S n)) = 256 * 2 ^ (8 * Z.of_nat n)) as E8 by (rewrite Nat2Z.inj_succ, Z.mul_succ_r, Z.pow_add_r by lia; lia).
  destruct (IH (v / 2 ^ 8)) as (H1&H2&H3); [change (2 ^ 8) with 256 in *; dlia|]. set (k := byte_count n (v / 2 ^ 8)) in *.
  change (2 ^ 8) with 256 in *.
  assert (2 ^ (8 * (1 + k)) = 256 * 2 ^ (8 * k)) as E1 by (rewrite Z.mul_add_distr_l, Z.pow_add_r by lia; lia).
  split; [lia|]. split; [rewrite E1; dlia|]. intros _. replace (8 * (1 + k - 1)) with (8 * k) by lia.
  destruct (decide (k = 0)) as [Ek|]; [rewrite Ek; cbn; lia|].
  assert (2 ^ (8 * k) = 256 * 2 ^ (8 * (k - 1))) as E2. { replace (8 * k) with (8 + 8 * (k - 1)) by lia. rewrite Z.pow_add_r by lia. lia. }
  rewrite E2. assert (0 < v / 256) as Hpos by (destruct (decide (v / 256 = 0)) as [E0|]; [|dlia]; rewrite E0 in *; exfalso; apply n0; unfold k; rewrite E0; by destruct n).
  specialize (H3 Hpos). dlia.
Qed.

(** Modes one and two: two and four bytes. *)
Lemma scale_short n m v : n = 2%nat /\ m = 1 \/ n = 4%nat /\ m = 2 -> 0 <= v -> v mod 4 = 0 -> v < 2 ^ (8 * Z.of_nat n) ->
  scale_decode (le_bytes n (v + m)) = Some (v / 4).
Proof.
  intros Hn Hv H4 Hb. destruct n as [|n]; [lia|]. cbn [le_bytes scale_decode]. unfold wrap. change (2 ^ 8) with 256.
  assert ((v + m) mod 256 mod 4 = m) as -> by dlia.
  assert (le_word (le_bytes (S n) (v + m)) = v + m) as Ew.
  { rewrite le_word_le_bytes. apply wrap_small. unfold in_width. destruct Hn as [[[= ->] ->]|[[= ->] ->]]; cbn in *; dlia. }
  cbn [le_bytes] in Ew. unfold wrap in Ew. change (2 ^ 8) with 256 in Ew.
  assert (length ((v + m) mod 256 :: le_bytes n ((v + m) / 256)) = S n) as El by (cbn [length]; by rewrite length_le_bytes).
  destruct Hn as [[[= ->] ->]|[[= ->] ->]]; cbn [Z.eqb Pos.eqb]; rewrite take_ge by lia; rewrite Ew; f_equal; dlia.
Qed.

(** The mode with a length. *)
Lemma scale_long repl : 2 ^ 30 <= repl < 2 ^ 64 ->
  scale_decode (le_bytes (Z.to_nat (scale_big repl).2) (scale_big repl).1) = Some repl.
Proof.
  intros Hr. unfold scale_big. destruct (byte_count_spec 16 repl) as (H1&H2&H3); [lia|]. specialize (H3 ltac:(lia)).
  set (n := byte_count 16 repl) in *.
  assert (4 <= n <= 8) as Hn.
  { split; [destruct (decide (n < 4)); [|lia]|destruct (decide (8 < n)); [|lia]]; exfalso.
    - assert (2 ^ (8 * n) <= 2 ^ 24) by (apply Z.pow_le_mono_r; lia). lia.
    - assert (2 ^ 64 <= 2 ^ (8 * (n - 1))) by (apply Z.pow_le_mono_r; lia). lia. }
  rewrite (proj2 (Z.geb_le n 4)) by lia. cbn [fst snd]. rewrite !Z.shiftl_mul_pow2 by lia. change (2 ^ 2) with 4. change (2 ^ 8) with 256.
  rewrite (wrap_small 128 (repl * 256)) by (unfold in_width; lia). rewrite (wrap_small 128) by (unfold in_width; lia).
  replace (Z.to_nat (n - 4 + 5)) with (S (Z.to_nat n)) by lia. cbn [le_bytes scale_decode]. unfold wrap. change (2 ^ 8) with 256.
  replace ((repl * 256 + ((n - 4) * 4 + 3)) mod 256) with ((n - 4) * 4 + 3) by dlia.
  assert (((n - 4) * 4 + 3) mod 4 = 3) as -> by dlia. cbn [Z.eqb Pos.eqb]. f_equal.
  rewrite take_ge by (rewrite length_le_bytes; dlia). rewrite le_word_le_bytes.
  replace ((repl * 256 + ((n - 4) * 4 + 3)) / 256) with repl by dlia. apply wrap_small. unfold in_width. rewrite Z2Nat.id by lia. lia.
Qed.

(** C35. The SCALE encoding that [cmp_extend_encoding] tries for a value of more than one byte
    decodes to that value, in the modes of two, four and more bytes, just when shifting the
    value by two bits does not lose what the choice of the mode depends on; so [2^62], for
    instance, is written in two bytes as if it were 0. *)
Theorem scale_roundtrip repl : 256 <= repl < 2 ^ 64 ->
  scale_decode (le_bytes (Z.to_nat (scale64 repl repl).2) (scale64 repl repl).1) = Some repl <->
  repl < 2 ^ 62 \/ 2 ^ 32 <= u64 (4 * repl).
Proof.
  intros Hr. unfold scale64. rewrite (proj2 (Z.leb_gt repl 255)) by lia. rewrite Z.shiftl_mul_pow2 by lia.
  replace (repl * 2 ^ 2) with (4 * repl) by lia. pose proof (wrap_range 64 (4 * repl) ltac:(lia)) as Hw.
  assert (u64 (4 * repl) mod 4 = 0) as H4. { unfold wrap. rewrite Z.mod_mod_divide by (by exists (2 ^ 62)). dlia. }
  assert (u64 (4 * repl) / 4 = repl <-> repl < 2 ^ 62) as Hq.
  { unfold wrap, in_width in *. split; intros Hx; [dlia|]. rewrite Z.mod_small by lia. dlia. }
  destruct (_ <=? 65535) eqn:E1; b2p; [|destruct (_ <=? 4294967295) eqn:E2; b2p].
  - cbn [fst snd]. rewrite (wrap_small 64 (u64 _ + 1)) by (unfold in_width in *; lia).
    rewrite (scale_short 2 1) by (auto; unfold in_width in *; cbn; lia). rewrite <- Hq. split; [intros [= ?]; by left|].
    intros [->|?]; [done|lia].
  - cbn [fst snd]. rewrite (wrap_small 64 (u64 _ + 2)) by (unfold in_width in *; lia).
    rewrite (scale_short 4 2) by (auto; unfold in_width in *; cbn; lia). rewrite <- Hq. split; [intros [= ?]; by left|].
    intros [->|?]; [done|lia].
  - split; [intros _; right; lia|]. intros _. apply scale_long. split; [|lia].
    unfold wrap in E2. destruct (decide (repl < 2 ^ 30)); [|lia]. rewrite Z.mod_small in E2 by lia. lia.
Qed.

Example scale_roundtrip_witness :
  scale_decode (le_bytes (Z.to_nat (scale64 (2 ^ 62) (2 ^ 62)).2) (scale64 (2 ^ 62) (2 ^ 62)).1) = Some (2 ^ 62) <->
  2 ^ 62 < 2 ^ 62 \/ 2 ^ 32 <= u64 (4 * 2 ^ 62).
Proof. refine (scale_roundtrip (2 ^ 62) _). done. Defined.

Example scale_overflow : scale64 (2 ^ 62) (2 ^ 62) = (1, 2) /\ scale_decode (le_bytes 2 1) = Some 0.
Proof. by vm_compute. Qed.

(** ** Numbers in text *)

Lemma skip_spec p l n : let '(n', l') := skip p l n in 0 <= n' - n /\ zlen l = n' - n + zlen l'.
Proof.
  revert n. induction l as [|b l IH]; intros n; cbn [skip]; [change (zlen []) with 0; lia|].
  destruct (p b); [|lia]. specialize (IH (n + 1)). destruct (skip p l (n + 1)) as [n' l']. rewrite zlen_cons. lia.
Qed.

Lemma digits_spec base l v n : 0 <= (digits base l v n).2 - n <= zlen l.
Proof.
  revert v n. induction l as [|b l IH]; intros v n; cbn [digits]; [unfold zlen; cbn [length snd]; lia|]. rewrite zlen_cons. pose proof (zlen_nonneg l).
  destruct (_ <? _); [specialize (IH (v * base + digit_val b) (n + 1)); lia|cbn [snd]; lia].
Qed.

(** The sign and the prefix are part of the text. *)
Lemma strto_spec l : 0 <= (strto l).2 <= zlen l.
Proof.
  unfold strto. pose proof (skip_spec isspace l 0) as H1. destruct (skip isspace l 0) as [n l1].
  set (sgn := match l1 with 45 :: _ => _ | _ => _ end).
  assert (let '(_, n2, l2) := sgn in 0 <= n2 /\ n2 + zlen l2 = zlen l) as H2.
  { subst sgn. repeat case_match; simplify_eq; rewrite ?zlen_cons in *; unfold zlen in *; cbn [length] in *; lia. }
  destruct sgn as [[neg n2] l2].
  set (pre := match l2 with 48 :: _ :: _ :: _ => _ | _ => _ end).
  assert (let '(_, n3, l3) := pre in 0 <= n3 /\ n3 + zlen l3 <= zlen l) as H3.
  { subst pre. repeat case_match; simplify_eq; rewrite ?zlen_cons in *; unfold zlen in *; cbn [length] in *; lia. }
  destruct pre as [[base n3] l3]. pose proof (digits_spec base l3 0 0) as H4.
  destruct (digits base l3 0 0) as [v k]. cbn in H4. pose proof (zlen_nonneg l). destruct (k =? 0); cbn; lia.
Qed.

Lemma strnto_spec str sz neg v n : 0 <= sz -> strnto str sz = Some (neg, v, n) -> 0 <= n <= sz.
Proof.
  intros Hsz. unfold strnto. destruct (sz =? 0) eqn:E0; [done|]. pose proof (skip_spec (fun b => b =? 32) (take (Z.to_nat sz) str) 0) as H1.
  destruct (skip _ _ 0) as [k beg]. destruct (sz - k =? 0); [done|]. pose proof (strto_spec (take 63 beg)) as H2.
  destruct (strto (take 63 beg)) as [[neg' v'] n']. cbn in H2. intros [= <- <- <-]. unfold zlen in *. rewrite length_take in *. lia.
Qed.

Lemma strntoll_spec stale str sz v n : 0 <= sz -> strntoll stale str sz = Some (v, n) -> 0 <= n <= sz.
Proof.
  intros Hsz. unfold strntoll. destruct (strnto str sz) as [[[neg w] k]|] eqn:E; [|done]. apply strnto_spec in E; [|done].
  repeat case_match; intros; simplify_eq; done.
Qed.
Lemma strntoull_spec stale str sz v n : 0 <= sz -> strntoull stale str sz = Some (v, n) -> 0 <= n <= sz.
Proof.
  intros Hsz. unfold strntoull. destruct (strnto str sz) as [[[neg w] k]|] eqn:E; [|done]. apply strnto_spec in E; [|done].
  repeat case_match; intros; simplify_eq; done.
Qed.
