(* ===== verification/Color.v ===== *)
(** * Colorization

    The first half of the input-to-state stage of [src/afl-fuzz-redqueen.c]: [colorization]
    replaces as many bytes of an input as it can without changing the path of the target, by
    trying ranges of bytes and halving those that matter, and returns the replaced bytes as a
    list of tainted ranges.  The list of ranges is linked in both directions; all insertions
    are at its head, so that the previous element of every other one is known, and a list
    stands for it.  The screen and the counters for it are left out.

    The functions return 1 when the run of an input says so; here they leave with
    [abandon_entry]. *)

From S2P Require Import Prelude Res Rng Extras Tmin Stage.

Record range := Range {
  rg_start : Z;
  rg_end : Z;
  rg_ok : Z
}.

(** [struct tainted], as a list with the last range of the input first. *)
Record tainted := Tainted {
  t_pos : Z;
  t_len : Z
}.

(** What colorization needs of the rest of the fuzzer. *)
Class ColorHost (W : Type) := {
  get_cur_time_us : W -> Z * W;
  active_items : W -> Z
}.

(** ** Ranges *)

Definition add_range (ranges : list range) (start end_ : Z) : list range :=
  Range start end_ 0 :: ranges.

Definition size (r : range) : Z := u32 (1 + rg_end r - rg_start r).

(** The last of the largest ranges that are not [ok]; [k] is the place of the head. *)
Fixpoint biggest (ranges : list range) (k : nat) (max_size : Z) (rmax : option nat) : option nat :=
  match ranges with
  | [] => rmax
  | r :: ranges =>
      if (rg_ok r =? 0) && (size r >=? max_size) then biggest ranges (S k) (size r) (Some k)
      else biggest ranges (S k) max_size rmax
  end.

Definition pop_biggest_range (ranges : list range) : option nat := biggest ranges 0 0 None.

(** ** Replacing bytes *)

Section Color.
Context {W R : Type} `{Fuzzer W} `{RandSource R} `{ColorHost W}.
Abbreviation env := (Stage.env W R).

(** [do { c = ...; } while (c == buf[i]);] *)
Fixpoint redraw (fuel : nat) (draw : Z -> stage env Z) (b : Z) : stage env Z :=
  match fuel with
  | O => fun _ => Unfinished
  | S fuel => c ← draw b; if c =? b then redraw fuel draw b else mret c
  end.

Fixpoint replace_each (fuel : nat) (draw : Z -> stage env Z) (buf : list Z) : stage env (list Z) :=
  match buf with
  | [] => mret []
  | b :: buf => c ← redraw fuel draw b; l ← replace_each fuel draw buf; mret (c :: l)
  end.

Definition any_byte (_ : Z) : stage env Z := rand_below_env 256.

(** [c = lo + rand_below(afl, 1 + hi - lo)] *)
Definition between (lo hi : Z) : stage env Z := r ← rand_below_env (1 + hi - lo); mret (u8 (lo + r)).

(** Whether [b] is one of the characters [lo ... hi]. *)
Definition among (lo hi b : Z) : bool := (lo <=? b) && (b <=? hi).

Definition typed_byte (b : Z) : stage env Z :=
  if among 65 70 b then between 65 70            (* 'A' ... 'F' *)
  else if among 97 102 b then between 97 102     (* 'a' ... 'f' *)
  else if b =? 48 then mret 49                   (* '0' *)
  else if b =? 49 then mret 48                   (* '1' *)
  else if among 50 57 b then between 50 57       (* '2' ... '9' *)
  else if among 71 90 b then between 71 90       (* 'G' ... 'Z' *)
  else if among 103 122 b then between 103 122   (* 'g' ... 'z' *)
  else if among 33 42 b then between 33 42       (* '!' ... '*' *)
  else if among 44 46 b then between 44 46       (* ',' ... '.' *)
  else if among 58 64 b then between 58 64       (* ':' ... '@' *)
  else if among 91 96 b then between 91 96       (* '[' ... '`' *)
  else if among 123 126 b then between 123 126   (* '{' ... '~' *)
  else if b =? 43 then mret 47                   (* '+' *)
  else if b =? 47 then mret 43                   (* '/' *)
  else if b =? 32 then mret 9                    (* ' ' *)
  else if b =? 9 then mret 32                    (* '\t' *)
  else if b =? 13 then mret 10                   (* '\r' *)
  else if b =? 10 then mret 13                   (* '\n' *)
  else if b =? 0 then mret 1
  else if b =? 1 then mret 0
  else if b =? 255 then mret 0
  else if b <? 32 then mret (Z.lxor b 0x1f)
  else mret (Z.lxor b 0x7f).

Definition random_replace (fuel : nat) : list Z -> stage env (list Z) := replace_each fuel any_byte.
Definition type_replace (fuel : nat) : list Z -> stage env (list Z) := replace_each fuel typed_byte.

(** ** The search *)

(** The settings, and [afl->queue_cur->exec_us]. *)
Record co_cfg := CoCfg {
  cc_min_length : Z;
  cc_max_length : Z;
  cc_random : bool;
  cc_fixed_seed : bool;
  cc_exec_us : Z;
  cc_cmplog_lvl : Z
}.

Context (c : co_cfg) (fuel : nat).

Definition get_exec_checksum (buf : list Z) (len : Z) : stage env Z :=
  b ← common_fuzz_stuff (cc_min_length c) (cc_max_length c) buf len;
  if (b : bool) then abandon_entry else cksum_env.

Definition time_us : stage env Z := fun e =>
  let '(t, w) := get_cur_time_us (e_fuzzer e) in Next t (with_fuzzer w e).

(** The ranges when the [k]-th one, [rng], was rejected: its halves are put in front and it is
    taken out of the list. *)
Definition reject (ranges : list range) (k : nat) (rng : range) : list range :=
  let s := size rng in
  if s >? 1 then
    delete (S (S k))
      (add_range (add_range ranges (rg_start rng) (u32 (rg_start rng - 1 + s / 2)))
         (u32 (rg_start rng + s / 2)) (rg_end rng))
  else delete k ranges.

Definition set_ok (v : Z) (r : range) : range := Range (rg_start r) (rg_end r) v.

(** A turn of the loop, with the [k]-th range: [buf] and the ranges after it. *)
Definition color_step (len exec_cksum : Z) (backup changed : list Z) (k : nat) (rng : range)
  (buf : list Z) (ranges : list range) : stage env (list Z * list range) :=
  let s := size rng in
  bs ← within (load changed (rg_start rng) s);
  buf ← within (store buf (rg_start rng) bs);
  start_us ← time_us;
  cksum ← get_exec_checksum buf len;
  stop_us ← time_us;
  if negb (cksum =? exec_cksum)
     || ((u64 (stop_us - start_us) >? u64 (3 * cc_exec_us c)) && negb (cc_fixed_seed c)) then
    bs ← within (load backup (rg_start rng) s);
    buf ← within (store buf (rg_start rng) bs);
    mret (buf, reject ranges k rng)
  else mret (buf, alter (set_ok 1) k ranges).

Fixpoint color_loop (n : nat) (len exec_cksum : Z) (backup changed : list Z) (cur : Z)
  (buf : list Z) (ranges : list range) : stage env (list Z * list range) :=
  match pop_biggest_range ranges with
  | Some k =>
      if cur <? u32 (Z.shiftl len 1) then
        match n with
        | O => fun _ => Unfinished
        | S n =>
            rng ← within (ranges !! k);
            '(buf, ranges) ← color_step len exec_cksum backup changed k rng buf ranges;
            color_loop n len exec_cksum backup changed (cur + 1) buf ranges
        end
      else mret (buf, ranges)
  | None => mret (buf, ranges)
  end.

(** ** The tainted ranges *)

(** One pass over the ranges: the first one that continues the last taint ([inl]), or the one
    that is [ok] and starts first. *)
Fixpoint taint_scan (taint : option tainted) (ranges : list range) (k : nat) (pos : Z)
  (r : option nat) : nat + option nat :=
  match ranges with
  | [] => inr r
  | rng :: ranges =>
      if (rg_ok rng =? 1) && (rg_start rng <? pos) then
        if match taint with Some t => u32 (t_pos t + t_len t) =? rg_start rng | None => false end
        then inl k
        else taint_scan taint ranges (S k) (rg_start rng) (Some k)
      else taint_scan taint ranges (S k) pos r
  end.

(** The loop around it; the taints and the number of their positions. *)
Fixpoint collect (n : nat) (ranges : list range) (taint : list tainted) (positions : Z) :
  option (list tainted * Z) :=
  match n with
  | O => None
  | S n =>
      match taint_scan (head taint) ranges 0 (2 ^ 32 - 1) None with
      | inl k =>
          rng ← ranges !! k;
          match taint with
          | t :: taint =>
              collect n (alter (set_ok 2) k ranges)
                (Tainted (t_pos t) (u32 (t_len t + size rng)) :: taint) (u32 (positions + size rng))
          | [] => None
          end
      | inr (Some k) =>
          rng ← ranges !! k;
          collect n (alter (set_ok 2) k ranges)
            (Tainted (rg_start rng) (size rng) :: taint) (u32 (positions + size rng))
      | inr None => Some (taint, positions)
      end
  end.

Definition CMPLOG_CORPUS_PERCENT : Z := 5.
Definition CMPLOG_POSITIONS_MAX : Z := 12 * 1024.

(** [afl->active_items / afl->colorize_success > CMPLOG_CORPUS_PERCENT] and the other
    conditions under which the taints are dropped. *)
Definition unsatisfactory (len positions success active : Z) : bool :=
  z2b success && (cc_cmplog_lvl c <? 3)
  && ((positions >? CMPLOG_POSITIONS_MAX) && (len / positions =? 1)
      && (active / success >? CMPLOG_CORPUS_PERCENT)).

(** [colorization(afl, buf, len, &taint)]: [buf], the taints and [afl->colorize_success]
    afterwards. *)
Definition colorization (buf : list Z) (len success : Z) :
  stage env (list Z * list tainted * Z) :=
  let ranges := add_range [] 0 (u32 (len - 1)) in
  exec_cksum ← get_exec_checksum buf len;
  backup ← within (load buf 0 len);
  changed ← (if cc_random c then random_replace fuel backup else type_replace fuel backup);
  '(buf, ranges) ← color_loop (Z.to_nat (2 * len)) len exec_cksum backup changed 0 buf ranges;
  '(taint, positions) ← within (collect (S (length ranges)) ranges [] 0);
  match taint with
  | [] => mret (buf, [], success)
  | _ =>
      active ← (fun e => Next (active_items (e_fuzzer e)) e) : stage env Z;
      if unsatisfactory len positions success active then mret (buf, [], success)
      else mret (buf, taint, u32 (success + 1))
  end.
End Color.
