(* ===== verification/ColorFacts.v ===== *)
(** * Colorization: lemmas *)

From S2P Require Import Prelude Res Rng Extras Tmin Stage StageFacts Color.

(** ** Ranges *)

Definition covers (r : range) (i : Z) : Prop := rg_start r <= i <= rg_end r.
Definition apart (r q : range) : Prop := rg_end r < rg_start q \/ rg_end q < rg_start r.

Fixpoint disjoint_ranges (l : list range) : Prop :=
  match l with
  | [] => True
  | r :: l => Forall (apart r) l /\ disjoint_ranges l
  end.

Record range_in (len : Z) (r : range) : Prop := RangeIn {
  ri_start : 0 <= rg_start r;
  ri_order : rg_start r <= rg_end r;
  ri_end : rg_end r < len;
  ri_ok : 0 <= rg_ok r <= 2
}.

Lemma apart_sym r q : apart r q -> apart q r.
Proof. unfold apart. tauto. Qed.

Lemma disjoint_app l k :
  disjoint_ranges (l ++ k) <-> disjoint_ranges l /\ disjoint_ranges k /\ Forall (fun r => Forall (apart r) k) l.
Proof.
  induction l as [|r l IH]; cbn; [repeat (split || intros (?&?&?) || intros ?); auto|].
  rewrite IH, Forall_app, Forall_cons_iff. tauto.
Qed.

Lemma disjoint_middle l r k :
  disjoint_ranges (l ++ r :: k) <-> disjoint_ranges (l ++ k) /\ Forall (apart r) (l ++ k).
Proof.
  rewrite !disjoint_app, Forall_app. cbn.
  assert (Forall (fun r0 => Forall (apart r0) (r :: k)) l <->
    Forall (fun r0 => Forall (apart r0) k) l /\ Forall (apart r) l) as ->.
  { split; [intros HF|intros [H1 H2]].
    - split; (eapply Forall_impl; [|exact HF]); intros q [Ha Hk]%Forall_cons_iff; auto using apart_sym.
    - rewrite Forall_forall in *. intros q Hq. constructor; auto using apart_sym. }
  tauto.
Qed.

Lemma apart_ok r q v : apart (set_ok v r) q <-> apart r q.
Proof. done. Qed.

Lemma range_size len r : range_in len r -> len <= 2 ^ 31 -> size r = rg_end r - rg_start r + 1.
Proof. intros [] Hl. unfold size. rewrite wrap_small; [lia|]. unfold in_width. lia. Qed.

(** The largest pending range is pending; there is one if any is pending. *)
Lemma biggest_spec l k m o :
  match biggest l k m o with
  | Some j => o = Some j \/ exists r, l !! (j - k)%nat = Some r /\ rg_ok r = 0 /\ (k <= j)%nat
  | None => o = None /\ (Forall (fun r => rg_ok r = 0 -> size r < m) l)
  end.
Proof.
  revert k m o. induction l as [|r l IH]; intros k m o; cbn [biggest]; [destruct o; auto|].
  destruct (_ && _) eqn:E; b2p.
  - specialize (IH (S k) (size r) (Some k)). destruct (biggest l (S k) (size r) (Some k)) as [j|]; [|by destruct IH].
    right. destruct IH as [[= <-]|(q&Hq&Hok&Hj)].
    + exists r. rewrite Nat.sub_diag. done.
    + exists q. replace (j - k)%nat with (S (j - S k)) by lia. split_and!; [done|done|lia].
  - specialize (IH (S k) m o). destruct (biggest l (S k) m o) as [j|].
    + destruct IH as [?|(q&Hq&Hok&Hj)]; [by left|right]. exists q.
      replace (j - k)%nat with (S (j - S k)) by lia. split_and!; [done|done|lia].
    + destruct IH as [? HF]. split; [done|]. constructor; [|done]. intros Hr. destruct E; b2p; lia.
Qed.

Lemma pop_spec l :
  match pop_biggest_range l with
  | Some k => exists r, l !! k = Some r /\ rg_ok r = 0
  | None => Forall (fun r => rg_ok r <> 0) l
  end.
Proof.
  unfold pop_biggest_range. pose proof (biggest_spec l 0 0 None) as Hb. destruct (biggest l 0 0 None) as [k|].
  - destruct Hb as [|(r&Hr&Ho&_)]; [done|]. rewrite Nat.sub_0_r in Hr. by exists r.
  - destruct Hb as [_ HF]. eapply Forall_impl; [|exact HF]. intros r Hs Hr. specialize (Hs Hr).
    assert (0 <= size r) by (apply wrap_range; lia). lia.
Qed.

(** The runs that the pending ranges may still take. *)
Definition todo (l : list range) : Z :=
  foldr (fun r n => (if rg_ok r =? 0 then 2 * size r - 1 else 0) + n) 0 l.

Lemma todo_app l k : todo (l ++ k) = todo l + todo k.
Proof. induction l as [|r l IH]; cbn; [done|]. fold (todo (l ++ k)) (todo l). rewrite IH. lia. Qed.

Lemma todo_cons r l : todo (r :: l) = (if rg_ok r =? 0 then 2 * size r - 1 else 0) + todo l.
Proof. done. Qed.

Lemma todo_nonneg len l : len <= 2 ^ 31 -> Forall (range_in len) l -> 0 <= todo l.
Proof.
  intros Hl. induction 1 as [|r l Hr Hl' IH]; [done|]. cbn. fold (todo l). rewrite (range_size len) by done.
  destruct Hr. destruct (_ =? _); lia.
Qed.

(** A list around its [k]-th element. *)
Lemma around {A} (l : list A) k x :
  l !! k = Some x -> l = take k l ++ x :: drop (S k) l /\
    delete k l = take k l ++ drop (S k) l /\ forall f, alter f k l = take k l ++ f x :: drop (S k) l.
Proof.
  intros Hk. split; [symmetry; by apply take_drop_middle|]. split; [apply delete_take_drop|].
  intros f. rewrite <- (take_drop_middle l k x Hk) at 1.
  rewrite <- (Nat.add_0_r k) at 1. rewrite <- (length_take_le l k) at 1 by (apply lookup_lt_Some in Hk; lia).
  by rewrite alter_app_r.
Qed.

(** ** Replacing bytes *)

(** The kind of a character that [type_replace] keeps. *)
Definition kind (b : Z) : Z :=
  if b <? 33 then 0
  else if b <? 43 then 1
  else if (b =? 43) || (b =? 47) then 2
  else if b <? 47 then 3
  else if b <? 50 then 4
  else if b <? 58 then 5
  else if b <? 65 then 6
  else if b <? 71 then 7
  else if b <? 91 then 8
  else if b <? 97 then 9
  else if b <? 103 then 10
  else if b <? 123 then 11
  else if b <? 127 then 12
  else 13.

(** What replaces a byte. *)
Definition replaced (random : bool) (b c : Z) : Prop :=
  c <> b /\ in_width 8 c /\ (random = false -> b <> 127 -> b <> 255 -> kind c = kind b).

Lemma xor_control b : 0 <= b < 32 -> Z.lxor b 31 = 31 - b.
Proof.
  intros Hb. assert (forallb (fun b => Z.lxor b 31 =? 31 - b) (seqZ 0 32) = true) as HF by by vm_compute.
  rewrite forallb_forall in HF. apply Z.eqb_eq, HF, list_elem_of_In, elem_of_seqZ. lia.
Qed.
Lemma xor_high b : 127 <= b < 256 -> Z.lxor b 127 = if b =? 127 then 0 else 383 - b.
Proof.
  intros Hb.
  assert (forallb (fun b => Z.lxor b 127 =? if b =? 127 then 0 else 383 - b) (seqZ 127 129) = true) as HF by by vm_compute.
  rewrite forallb_forall in HF. apply Z.eqb_eq, HF, list_elem_of_In, elem_of_seqZ. lia.
Qed.

Section Replace.
Context {W : Type} `{Fuzzer W}.
Abbreviation env := (Stage.env W (list Z)).

(** Only random answers were taken. *)
Definition drew (e e' : env) : Prop :=
  exists r, e' = with_tokens (e_extras e) r e /\ (length r <= length (e_rng e))%nat.

Lemma drew_refl e : drew e e.
Proof. exists (e_rng e). destruct e. done. Qed.
Lemma drew_trans e1 e2 e3 : drew e1 e2 -> drew e2 e3 -> drew e1 e3.
Proof. intros (r&->&?) (r'&->&?). exists r'. cbn in *. split; [done|lia]. Qed.

(** A draw of a byte for [b] that can be repeated. *)
Definition drawing (draw : Z -> stage env Z) (K : Z -> Z -> Prop) : Prop := forall b e,
  in_width 8 b -> goes (draw b) e (fun c e' => drew e e' /\ (c <> b -> K b c) /\
    (c = b -> (length (e_rng e') < length (e_rng e))%nat)).

Lemma goes_rand limit (e : env) :
  goes (rand_below_env limit) e (fun v e' => drew e e' /\
    (1 < limit -> 0 <= v < limit /\ (length (e_rng e') < length (e_rng e))%nat)).
Proof.
  unfold goes, rand_below_env. cbn. unfold script_below. destruct (limit <=? 1) eqn:E; b2p.
  - split; [|lia]. exists (e_rng e). by destruct e.
  - destruct (e_rng e) as [|x r] eqn:Er; [done|]. split; [exists r; rewrite Er; cbn; split; [done|lia]|].
    intros ?. split; [apply Z.mod_pos_bound; lia|cbn; lia].
Qed.

Lemma redraw_ok draw K b : drawing draw K -> in_width 8 b -> forall n e, (length (e_rng e) < n)%nat ->
  goes (redraw n draw b) e (fun c e' => drew e e' /\ c <> b /\ K b c).
Proof.
  intros Hd Hb. induction n as [|n IH]; intros e Hn; [lia|]. cbn [redraw]. apply goes_bind.
  eapply goes_mono; [by apply Hd|]. intros c e' (Hm&HK&Hlt). destruct (c =? b) eqn:E; b2p.
  - specialize (Hlt E). eapply goes_mono; [apply IH; lia|]. intros c' e'' (?&?). split; [|done].
    by eapply drew_trans.
  - apply goes_ret. auto.
Qed.

Lemma replace_each_ok draw K n buf : drawing draw K -> bytes_ok buf -> forall e, (length (e_rng e) < n)%nat ->
  goes (replace_each n draw buf) e (fun l e' => drew e e' /\ Forall2 (fun b c => c <> b /\ K b c) buf l).
Proof.
  intros Hd. induction 1 as [|b buf Hb Hbuf IH]; intros e Hn; cbn [replace_each].
  { apply goes_ret. split; [apply drew_refl|constructor]. }
  apply goes_bind. eapply goes_mono; [by eapply redraw_ok|]. intros c e1 (Hm&HK). apply goes_bind.
  eapply goes_mono; [apply IH; destruct Hm as (r&->&?); cbn; lia|]. intros l e2 (Hm2&Hl). apply goes_ret.
  split; [by eapply drew_trans|by constructor].
Qed.

Lemma any_byte_drawing : drawing any_byte (fun _ c => in_width 8 c).
Proof.
  intros b e Hb. eapply goes_mono; [apply goes_rand|]. intros c e' (Hm&Hr). destruct (Hr eq_refl) as [Hc Hl].
  split_and!; [done|intros _; exact Hc|done].
Qed.

Lemma between_ok lo hi b (e : env) : 0 <= lo < hi -> hi < 256 ->
  goes (between lo hi) e (fun c e' => drew e e' /\ lo <= c <= hi /\
    (c = b -> (length (e_rng e') < length (e_rng e))%nat)).
Proof.
  intros Hlo Hhi. apply goes_bind. eapply goes_mono; [apply goes_rand|]. intros r e' (Hm&Hr).
  destruct Hr as [Hr Hl]; [lia|]. apply goes_ret. rewrite wrap_small by (unfold in_width; lia). split_and!; [done|lia|lia|done].
Qed.

Ltac kind_cases := unfold kind; repeat match goal with |- context [if ?b then _ else _] => destruct b eqn:?; b2p end.

Lemma typed_byte_drawing :
  drawing typed_byte (fun b c => in_width 8 c /\ (b <> 127 -> b <> 255 -> kind c = kind b)).
Proof.
  intros b e Hb. unfold in_width in Hb. change (2 ^ 8) with 256 in Hb. unfold typed_byte, among.
  assert (forall c : Z, c <> b -> in_width 8 c -> (b <> 127 -> b <> 255 -> kind c = kind b) ->
    goes (mret c : stage env Z) e (fun c e' => drew e e' /\
      (c <> b -> in_width 8 c /\ (b <> 127 -> b <> 255 -> kind c = kind b)) /\
      (c = b -> (length (e_rng e') < length (e_rng e))%nat))) as Hret.
  { intros c Hc Hw Hk. apply goes_ret. split_and!; [apply drew_refl|done|done]. }
  assert (forall lo hi, 0 <= lo < hi -> hi < 256 -> (forall c, lo <= c <= hi -> kind c = kind b) ->
    goes (between lo hi) e (fun c e' => drew e e' /\
      (c <> b -> in_width 8 c /\ (b <> 127 -> b <> 255 -> kind c = kind b)) /\
      (c = b -> (length (e_rng e') < length (e_rng e))%nat))) as Hbet.
  { intros lo hi Hlo Hhi Hk. eapply goes_mono; [by apply (between_ok lo hi b)|]. intros c e' (?&Hc&?).
    split_and!; [done| |done]. intros _. split; [unfold in_width; lia|]. auto. }
  repeat match goal with
  | |- goes (if ?b then _ else _) _ _ => destruct b eqn:?; b2p
  | |- goes (between _ _) _ _ => apply Hbet; [lia|lia|]; intros c Hc; kind_cases; lia
  end; apply Hret; try (unfold in_width; lia); try (intros ? ?; kind_cases; lia).
  - rewrite xor_control by lia. lia.
  - rewrite xor_control by lia. unfold in_width. lia.
  - rewrite xor_control by lia. intros ? ?. kind_cases; lia.
  - assert (127 <= b) by lia. rewrite xor_high by lia. destruct (_ =? _) eqn:?; b2p; lia.
  - assert (127 <= b) by lia. rewrite xor_high by lia. unfold in_width. destruct (_ =? _) eqn:?; b2p; lia.
  - assert (127 <= b) by lia. rewrite xor_high by lia. intros ? ?. destruct (_ =? _) eqn:?; b2p; kind_cases; lia.
Qed.

(** [random_replace] and [type_replace]. *)
Lemma replace_ok (random : bool) n buf e : bytes_ok buf -> (length (e_rng e) < n)%nat ->
  goes (if random then random_replace n buf else type_replace n buf) e
    (fun l e' => drew e e' /\ Forall2 (replaced random) buf l).
Proof.
  intros Hb Hn. destruct random.
  - eapply goes_mono; [by eapply replace_each_ok; [apply any_byte_drawing|..]|]. intros l e' (?&Hl). split; [done|].
    eapply Forall2_impl; [|exact Hl]. intros x y (?&?). by split.
  - eapply goes_mono; [by eapply replace_each_ok; [apply typed_byte_drawing|..]|]. intros l e' (?&Hl). split; [done|].
    eapply Forall2_impl; [|exact Hl]. intros x y (?&?&?). by split.
Qed.
End Replace.

(** ** The search *)

Section Search.
Context {W : Type} `{Fuzzer W} `{ColorHost W}.
Abbreviation env := (Stage.env W (list Z)).
Context (c : co_cfg) (len : Z).

(** What the target is given when [len] bytes of [b] are run. *)
Definition written (b : list Z) : list Z := slice b 0 (Z.min len (cc_max_length c)).

(** What is asked of the rest: [seen x v], the path of the input [x] can have the checksum [v];
    [I n w], the fuzzer is consistent and [n] more runs are possible. *)
Record color_laws (seen : list Z -> Z -> Prop) (I : nat -> W -> Prop) : Prop := ColorLaws {
  cl_run : forall n (e : env) x, zlen x = Z.min len (cc_max_length c) -> I (S n) (e_fuzzer e) ->
    goes (run_written x) e (fun b e' => I n (e_fuzzer e') /\ e_rng e' = e_rng e /\
      (b = false -> seen x (trace_cksum (e_fuzzer e'))));
  cl_time : forall n w, I n w -> I n (snd (get_cur_time_us w));
  cl_less : forall n w, I (S n) w -> I n w
}.

Record color_pre : Prop := ColorPre {
  cp_len : 1 <= len <= 2 ^ 30;
  cp_min : cc_min_length c <= len;
  cp_max : 1 <= cc_max_length c
}.

Context (seen : list Z -> Z -> Prop) (I : nat -> W -> Prop) (HI : color_laws seen I) (Hpre : color_pre).
Context (orig changed : list Z) (ck : Z).
Context (Hor : len <= zlen orig) (Hch : zlen changed = len).

(** [y] is made of bytes of the two. *)
Definition mixed (y : list Z) : Prop :=
  zlen y = zlen orig /\ forall i, y !! i = orig !! i \/ y !! i = changed !! i.

(** With byte [i] changed as well, an input that had the path had it no longer, or was slow. *)
Definition needed (i : Z) : Prop :=
  exists y b v, mixed y /\ seen (written y) ck /\ y !! Z.to_nat i = orig !! Z.to_nat i /\
    changed !! Z.to_nat i = Some b /\ seen (written (<[Z.to_nat i := b]> y)) v /\
    (v <> ck \/ cc_fixed_seed c = false).

Record color_inv (ranges : list range) (buf : list Z) : Prop := ColorInv {
  ci_ranges : Forall (range_in len) ranges;
  ci_disjoint : disjoint_ranges ranges;
  ci_two : forall r, r ∈ ranges -> rg_ok r <> 2;
  ci_zlen : zlen buf = zlen orig;
  ci_changed : forall r i, r ∈ ranges -> rg_ok r = 1 -> covers r (Z.of_nat i) -> buf !! i = changed !! i;
  ci_orig : forall i, (forall r, r ∈ ranges -> rg_ok r = 1 -> ~ covers r (Z.of_nat i)) -> buf !! i = orig !! i;
  ci_seen : seen (written buf) ck;
  ci_lost : forall i, 0 <= i < len -> (exists r, r ∈ ranges /\ covers r i) \/ needed i
}.

Lemma inv_mixed ranges buf : color_inv ranges buf -> mixed buf.
Proof.
  intros Hi. split; [apply Hi|]. intros i.
  destruct (decide (Exists (fun r => rg_ok r = 1 /\ rg_start r <= Z.of_nat i <= rg_end r) ranges)) as [(r&Hr&Ho&Hc)%Exists_exists|Hn].
  - right. eapply ci_changed; [done| |done|done]. by apply list_elem_of_In.
  - left. eapply ci_orig; [done|]. intros r Hr Ho Hc. apply Hn, Exists_exists. exists r. by rewrite <- list_elem_of_In.
Qed.

(** Running the buffer. *)
Lemma get_exec_checksum_ok n (e : env) b : len <= zlen b -> I (S n) (e_fuzzer e) ->
  goes (get_exec_checksum c b len) e (fun v e' => seen (written b) v /\ I n (e_fuzzer e') /\ e_rng e' = e_rng e).
Proof.
  intros Hb Hn. destruct Hpre as [Hl Hmin Hmax]. unfold get_exec_checksum, common_fuzz_stuff. apply goes_bind.
  unfold write_to_testcase. rewrite (proj2 (Z.ltb_ge len (cc_min_length c))) by lia. cbn [andb].
  assert ((if len >? cc_max_length c then cc_max_length c else len) = Z.min len (cc_max_length c)) as ->.
  { destruct (_ >? _) eqn:E; b2p; lia. }
  rewrite load_Some by lia. apply goes_bind, goes_within. eapply goes_mono.
  { eapply (cl_run _ _ HI n); [|done]. apply zlen_slice; lia. }
  intros b' e' (Hn'&Hr&Hs). destruct b'; [done|]. cbn. unfold goes, cksum_env. split_and!; [by apply Hs|done|done].
Qed.

Lemma time_us_ok n (e : env) : I n (e_fuzzer e) ->
  goes time_us e (fun _ e' => I n (e_fuzzer e') /\ e_rng e' = e_rng e).
Proof.
  intros Hn. unfold goes, time_us. pose proof (cl_time _ _ HI n _ Hn) as Ht.
  destruct (get_cur_time_us (e_fuzzer e)) as [t w]. done.
Qed.

Lemma apart_not r q i : apart r q -> covers r i -> ~ covers q i.
Proof. unfold apart, covers. lia. Qed.

(** A pending range still holds the original bytes. *)
Lemma pending_orig l rng k buf i : color_inv (l ++ rng :: k) buf -> rg_ok rng = 0 ->
  covers rng (Z.of_nat i) -> buf !! i = orig !! i.
Proof.
  intros Hi Ho Hc. eapply ci_orig; [done|]. intros r Hr Hr1.
  apply elem_of_app in Hr as [Hr|[->|Hr]%elem_of_cons]; [|congruence|];
    pose proof (ci_disjoint _ _ Hi) as Hd; apply disjoint_middle in Hd as [_ Ha];
    rewrite Forall_forall in Ha; (eapply apart_not; [apply Ha|done]); apply list_elem_of_In, elem_of_app; auto.
Qed.

(** The bytes of a range, put into a buffer. *)
Definition patch (b from : list Z) (r : range) : list Z := splice_at b (rg_start r) (slice from (rg_start r) (size r)).

Lemma patch_facts b from r : range_in len r -> len <= zlen b -> len <= zlen from ->
  load from (rg_start r) (size r) = Some (slice from (rg_start r) (size r)) /\
  store b (rg_start r) (slice from (rg_start r) (size r)) = Some (patch b from r) /\
  zlen (patch b from r) = zlen b /\
  forall i, patch b from r !! i = if decide (rg_start r <= Z.of_nat i <= rg_end r) then from !! i else b !! i.
Proof.
  intros Hr Hb Hf. destruct Hpre as [Hl _ _]. pose proof (range_size len r Hr ltac:(lia)) as Hs. destruct Hr.
  assert (zlen (slice from (rg_start r) (size r)) = size r) as Hz by (apply zlen_slice; lia).
  split; [apply load_Some; lia|]. split; [apply store_Some; lia|]. split; [apply zlen_splice_at; lia|].
  intros i. unfold patch. destruct (decide _) as [Hi|Hi].
  - rewrite lookup_splice_eq by lia. unfold slice. rewrite lookup_take_lt by lia. rewrite lookup_drop. f_equal. lia.
  - apply lookup_splice_ne; lia.
Qed.

Lemma patch_back b r : range_in len r -> zlen b = zlen orig -> (forall i, covers r (Z.of_nat i) -> b !! i = orig !! i) ->
  patch (patch b changed r) (slice orig 0 len) r = b.
Proof.
  intros Hr Hb Ho. destruct Hpre as [Hl _ _]. destruct (patch_facts b changed r) as (_&_&Hz&Hp); [done|lia|lia|].
  destruct (patch_facts (patch b changed r) (slice orig 0 len) r) as (_&_&_&Hq); [done|lia|rewrite zlen_slice; lia|].
  apply list_eq. intros i. rewrite Hq. destruct (decide _) as [Hc|Hc]; [|by rewrite Hp, decide_False].
  rewrite Ho by done. rewrite slice_0. apply lookup_take_lt. destruct Hr. lia.
Qed.

(** The range is kept. *)
Lemma accept_inv l rng k buf : color_inv (l ++ rng :: k) buf -> rg_ok rng = 0 ->
  seen (written (patch buf changed rng)) ck -> color_inv (l ++ set_ok 1 rng :: k) (patch buf changed rng).
Proof.
  intros Hi Ho Hs. pose proof (ci_ranges _ _ Hi) as Hr. pose proof (ci_disjoint _ _ Hi) as Hd.
  apply Forall_app in Hr as [Hrl [Hr Hrk]%Forall_cons_iff]. pose proof (ci_zlen _ _ Hi) as Hzl.
  destruct (patch_facts buf changed rng) as (_&_&Hz&Hp); [done|lia|lia|]. split.
  - apply Forall_app. split; [done|]. constructor; [|done]. destruct Hr. by split.
  - apply disjoint_middle. by apply disjoint_middle in Hd.
  - intros r [Hin|[->|Hin]%elem_of_cons]%elem_of_app; [|done|]; (eapply ci_two; [exact Hi|]);
      apply elem_of_app; rewrite elem_of_cons; auto.
  - congruence.
  - intros r i Hin Hr1 Hc. rewrite Hp. destruct (decide _) as [Hd1|Hd1]; [done|].
    apply elem_of_app in Hin as [Hin|[->|Hin]%elem_of_cons]; [|exfalso; by apply Hd1|];
      (eapply ci_changed; [exact Hi| |done|done]); apply elem_of_app; rewrite elem_of_cons; auto.
  - intros i Hn. rewrite Hp. destruct (decide _) as [Hd1|Hd1].
    + exfalso. apply (Hn (set_ok 1 rng)); [apply elem_of_app; right; left|done|done].
    + eapply ci_orig; [exact Hi|]. intros r Hin Hr1. apply Hn; [|done].
      apply elem_of_app in Hin as [Hin|[->|Hin]%elem_of_cons]; [|congruence|]; apply elem_of_app; rewrite elem_of_cons; auto.
  - done.
  - intros i Hl. destruct (ci_lost _ _ Hi i Hl) as [(r&Hin&Hc)|]; [left|by right].
    apply elem_of_app in Hin as [Hin|[->|Hin]%elem_of_cons]; [exists r|exists (set_ok 1 rng)|exists r];
      (split; [apply elem_of_app; rewrite elem_of_cons; auto|done]).
Qed.

(** The pending ranges may be exchanged for others that cover as much, but for bytes that are needed. *)
Lemma exchange_inv l rng k new buf : color_inv (l ++ rng :: k) buf -> rg_ok rng = 0 ->
  Forall (fun r => range_in len r /\ rg_ok r = 0 /\ rg_start rng <= rg_start r /\ rg_end r <= rg_end rng) new ->
  disjoint_ranges new ->
  (forall i, covers rng i -> (exists r, r ∈ new /\ covers r i) \/ needed i) -> color_inv (new ++ l ++ k) buf.
Proof.
  intros Hi Ho Hnew Hdn Hcov. pose proof (ci_ranges _ _ Hi) as Hr. pose proof (ci_disjoint _ _ Hi) as Hd.
  apply Forall_app in Hr as [Hrl [Hr Hrk]%Forall_cons_iff]. apply disjoint_middle in Hd as [Hd Ha]. split.
  - rewrite !Forall_app. split_and!; [|done|done]. eapply Forall_impl; [|exact Hnew]. by intros ? [].
  - apply disjoint_app. split_and!; [done|done|]. eapply Forall_impl; [|exact Hnew]. intros r (_&_&?&?).
    eapply Forall_impl; [|exact Ha]. intros q. unfold apart. lia.
  - intros r [Hin|Hin]%elem_of_app.
    + rewrite Forall_forall in Hnew. apply list_elem_of_In, Hnew in Hin as (_&?&_). congruence.
    + eapply ci_two; [exact Hi|]. apply elem_of_app. rewrite elem_of_cons. apply elem_of_app in Hin. tauto.
  - apply Hi.
  - intros r i Hin Hr1. apply elem_of_app in Hin as [Hin|Hin].
    { rewrite Forall_forall in Hnew. apply list_elem_of_In, Hnew in Hin as (_&?&_). congruence. }
    intros Hc. eapply ci_changed; [exact Hi| |done|done]. apply elem_of_app. rewrite elem_of_cons. apply elem_of_app in Hin. tauto.
  - intros i Hn. eapply ci_orig; [exact Hi|]. intros r Hin Hr1. apply Hn; [|done]. rewrite !elem_of_app.
    apply elem_of_app in Hin as [Hin|[->|Hin]%elem_of_cons]; [auto|congruence|auto].
  - apply Hi.
  - intros i Hl. destruct (ci_lost _ _ Hi i Hl) as [(r&Hin&Hc)|]; [|by right].
    assert (covers rng i \/ r ∈ l ++ k) as [Hx|Hx].
    { apply elem_of_app in Hin as [Hin|[->|Hin]%elem_of_cons]; [right|by left|right]; apply elem_of_app; auto. }
    + destruct (Hcov i Hx) as [(q&Hq&?)|]; [left|by right]. exists q. split; [|done]. apply elem_of_app. by left.
    + left. exists r. split; [|done]. apply elem_of_app. by right.
Qed.

(** A range of one byte that is rejected is needed. *)
Lemma single_needed l rng k buf v : color_inv (l ++ rng :: k) buf -> rg_ok rng = 0 -> size rng = 1 -> range_in len rng ->
  seen (written (patch buf changed rng)) v -> v <> ck \/ cc_fixed_seed c = false -> needed (rg_start rng).
Proof.
  intros Hi Ho Hs Hr Hv Hne. destruct Hpre as [Hl _ _]. rewrite (range_size len) in Hs by (done || lia).
  pose proof (ci_zlen _ _ Hi) as Hz. destruct Hr.
  destruct (zlen_lookup changed (rg_start rng)) as [b Hb]; [lia|].
  exists buf, b, v. split_and!; [by eapply inv_mixed|apply Hi| |done| |done].
  - eapply pending_orig; [done|done|]. unfold covers. lia.
  - assert (patch buf changed rng = <[Z.to_nat (rg_start rng) := b]> buf) as <-; [|done].
    destruct (patch_facts buf changed rng) as (_&_&_&Hp); [by split|lia|lia|].
    apply list_eq. intros i. rewrite Hp. destruct (decide _) as [Hc|Hc].
    + replace i with (Z.to_nat (rg_start rng)) by lia. rewrite list_lookup_insert_eq; [done|].
      unfold zlen in *. lia.
    + rewrite list_lookup_insert_ne by lia. done.
Qed.

(** The range is rejected: its halves take its place. *)
Lemma reject_inv ranges k rng buf v : color_inv ranges buf -> ranges !! k = Some rng -> rg_ok rng = 0 ->
  seen (written (patch buf changed rng)) v -> v <> ck \/ cc_fixed_seed c = false ->
  color_inv (reject ranges k rng) buf /\ todo (reject ranges k rng) = todo ranges - 1.
Proof.
  intros Hi Hk Ho Hv Hne. destruct Hpre as [Hl _ _]. destruct (around ranges k rng Hk) as (Er&Ed&_).
  assert (range_in len rng) as Hr.
  { pose proof (ci_ranges _ _ Hi) as HF. rewrite Forall_forall in HF. apply HF, list_elem_of_In. by eapply list_elem_of_lookup_2. }
  pose proof (range_size len rng Hr ltac:(lia)) as Hs. destruct Hr as [R1 R2 R3 R4].
  set (l := take k ranges) in *. set (q := drop (S k) ranges) in *.
  assert (todo ranges = todo (l ++ q) + 2 * size rng - 1) as Et.
  { rewrite Er, !todo_app, todo_cons, Ho. cbn [Z.eqb]. lia. }
  rewrite Er in Hi. unfold reject. destruct (size rng >? 1) eqn:E1; b2p.
  - unfold add_range. rewrite !wrap_small by (unfold in_width; dlia).
    lazymatch goal with |- context [delete (S (S k)) (?a :: ?b :: ranges)] =>
      change (delete (S (S k)) (a :: b :: ranges)) with (a :: b :: delete k ranges) end. rewrite Ed.
    set (r1 := Range (rg_start rng + size rng / 2) (rg_end rng) 0). set (r2 := Range (rg_start rng) (rg_start rng - 1 + size rng / 2) 0).
    assert (range_in len r1 /\ range_in len r2) as [H1 H2] by (split; split; cbn; dlia).
    split.
    + apply (exchange_inv l rng q [r1; r2] buf); [done|done| | |].
      * repeat constructor; try done; cbn; dlia.
      * split; [constructor; [|constructor]|by repeat split]. right. cbn. lia.
      * intros i Hc. left. unfold covers in Hc. destruct (decide (i < rg_start rng + size rng / 2)).
        -- exists r2. split; [right; left|]. unfold covers. cbn. lia.
        -- exists r1. split; [left|]. unfold covers. cbn. lia.
    + cbn [app]. rewrite !todo_cons, (range_size len r1), (range_size len r2) by (done || lia). cbn. lia.
  - assert (size rng = 1) as E by lia. rewrite Ed. split; [|lia].
    apply (exchange_inv l rng q [] buf); [done|done|constructor|done|].
    intros i Hc. right. unfold covers in Hc. replace i with (rg_start rng) by lia.
    by eapply single_needed.
Qed.

Lemma color_step_ok n k rng buf ranges (e : env) : color_inv ranges buf -> ranges !! k = Some rng -> rg_ok rng = 0 ->
  I (S n) (e_fuzzer e) ->
  goes (color_step c len ck (slice orig 0 len) changed k rng buf ranges) e (fun '(buf', ranges') e' =>
    color_inv ranges' buf' /\ todo ranges' <= todo ranges - 1 /\ I n (e_fuzzer e') /\ e_rng e' = e_rng e).
Proof.
  intros Hi Hk Ho Hn. destruct Hpre as [Hl _ _]. pose proof (ci_zlen _ _ Hi) as Hz.
  destruct (around ranges k rng Hk) as (Er&_&Ea).
  assert (range_in len rng) as Hr.
  { pose proof (ci_ranges _ _ Hi) as HF. rewrite Forall_forall in HF. apply HF, list_elem_of_In. by eapply list_elem_of_lookup_2. }
  destruct (patch_facts buf changed rng) as (E1&E2&Hz1&_); [done|lia|lia|].
  destruct (patch_facts (patch buf changed rng) (slice orig 0 len) rng) as (E3&E4&_&_); [done|lia|rewrite zlen_slice; lia|].
  unfold color_step. rewrite E1. apply goes_bind, goes_within. rewrite E2. apply goes_bind, goes_within.
  apply goes_bind. eapply goes_mono; [by apply time_us_ok|]. intros t1 e1 (Hn1&R1).
  apply goes_bind. eapply goes_mono; [apply (get_exec_checksum_ok n); [lia|done]|]. intros v e2 (Hv&Hn2&R2).
  apply goes_bind. eapply goes_mono; [by apply time_us_ok|]. intros t2 e3 (Hn3&R3).
  destruct (_ || _) eqn:E.
  - assert (v <> ck \/ cc_fixed_seed c = false) as Hne.
    { destruct (Z.eqb_spec v ck) as [->|]; [right|by left]. cbn in E. apply andb_prop in E as [_ E]. by destruct (cc_fixed_seed c). }
    rewrite E3. apply goes_bind, goes_within. rewrite E4. apply goes_bind, goes_within. apply goes_ret.
    rewrite patch_back; [|done|done|].
    + destruct (reject_inv ranges k rng buf v) as [H1 H2]; try done. split_and!; [done|lia|done|congruence].
    + intros i Hc. rewrite Er in Hi. by eapply pending_orig.
  - apply orb_false_iff in E as [E _]. apply negb_false_iff, Z.eqb_eq in E as ->.
    apply goes_ret. rewrite Ea. rewrite Er in Hi. split_and!; [by apply accept_inv| |done|congruence].
    rewrite Er at 3. rewrite !todo_app, !todo_cons, Ho. cbn [set_ok rg_ok Z.eqb]. rewrite (range_size len) by (done || lia). destruct Hr. lia.
Qed.

Lemma color_loop_ok n : forall cur buf ranges (e : env), color_inv ranges buf -> 0 <= cur ->
  cur + todo ranges <= 2 * len - 1 -> 2 * len <= cur + Z.of_nat n -> I n (e_fuzzer e) ->
  goes (color_loop c n len ck (slice orig 0 len) changed cur buf ranges) e (fun '(buf', ranges') e' =>
    color_inv ranges' buf' /\ Forall (fun r => rg_ok r <> 0) ranges' /\ e_rng e' = e_rng e /\ I 0%nat (e_fuzzer e')).
Proof.
  destruct Hpre as [Hl _ _].
  assert (forall n w, I n w -> I 0%nat w) as H0'. { induction n0; auto. intros w Hw. apply IHn0. by apply (cl_less _ _ HI). }
  induction n as [|n IH]; intros cur buf ranges e Hi Hc Hm Hf Hn; cbn [color_loop];
    pose proof (pop_spec ranges) as Hp; pose proof (todo_nonneg len ranges ltac:(lia) (ci_ranges _ _ Hi)) as Ht;
    (destruct (pop_biggest_range ranges) as [k|]; [|apply goes_ret; by eauto]).
  { lia. }
  destruct Hp as (rng&Hk&Ho). rewrite Z.shiftl_mul_pow2 by lia. rewrite (wrap_small 32) by (unfold in_width; lia).
  rewrite (proj2 (Z.ltb_lt _ _)) by lia. rewrite Hk. apply goes_bind, goes_within. apply goes_bind.
  eapply goes_mono; [by eapply (color_step_ok n)|]. intros [buf' ranges'] e' (Hi'&Hm'&Hn'&R).
  eapply goes_mono; [apply IH; [done|lia|lia|lia|done]|]. intros [b2 r2] e2 (?&?&?&?). split_and!; try done. congruence.
Qed.
End Search.

(** ** The tainted ranges *)

Definition tainted_at (l : list tainted) (i : Z) : Prop :=
  exists t, t ∈ l /\ t_pos t <= i < t_pos t + t_len t.

(** Not empty, from the last to the first one below [hi], with bytes between them. *)
Fixpoint separated (hi : Z) (l : list tainted) : Prop :=
  match l with
  | [] => True
  | t :: l => 0 <= t_pos t /\ 1 <= t_len t /\ t_pos t + t_len t <= hi /\ separated (t_pos t - 1) l
  end.

Definition total (l : list tainted) : Z := foldr (fun t n => t_len t + n) 0 l.

Lemma total_bound hi l : -1 <= hi -> separated hi l -> 0 <= total l <= Z.max 0 hi.
Proof.
  revert hi. induction l as [|t l IH]; intros hi Hh; cbn; [lia|]. intros (?&?&?&Hs).
  fold (total l). specialize (IH (t_pos t - 1) ltac:(lia) Hs). lia.
Qed.

(** Where the next range may start. *)
Definition tend (o : option tainted) : Z := match o with Some t => t_pos t + t_len t | None => -1 end.

Lemma taint_scan_spec o : (forall t, o = Some t -> 0 <= t_pos t + t_len t < 2 ^ 32) -> forall l k pos r,
  Forall (fun q => rg_ok q = 1 -> 0 <= rg_start q /\ tend o <= rg_start q) l -> tend o < pos ->
  match taint_scan o l k pos r with
  | inl j => exists q, l !! (j - k)%nat = Some q /\ (k <= j)%nat /\ rg_ok q = 1 /\ o <> None /\ rg_start q = tend o
  | inr (Some j) =>
      r = Some j /\ Forall (fun q => rg_ok q = 1 -> pos <= rg_start q) l \/
      exists q, l !! (j - k)%nat = Some q /\ (k <= j)%nat /\ rg_ok q = 1 /\ tend o < rg_start q < pos /\
        Forall (fun q' => rg_ok q' = 1 -> rg_start q <= rg_start q') l
  | inr None => r = None /\ Forall (fun q => rg_ok q = 1 -> pos <= rg_start q) l
  end.
Proof.
  intros Ho. induction l as [|q l IH]; intros k pos r Hl Hp; cbn [taint_scan]; [destruct r; auto|].
  apply Forall_cons_iff in Hl as [Hq Hl]. destruct (_ && _) eqn:E.
  - apply andb_prop in E as [E1%Z.eqb_eq E2%Z.ltb_lt]. destruct (Hq E1) as [Hq0 Hq1].
    assert ((match o with Some t => u32 (t_pos t + t_len t) =? rg_start q | None => false end) =
      bool_decide (o <> None /\ rg_start q = tend o)) as ->.
    { destruct o as [t|]; cbn [tend].
      - rewrite wrap_small by (by apply Ho). apply eq_true_iff_eq. rewrite bool_decide_eq_true, Z.eqb_eq. split; [split; [done|lia]|lia].
      - rewrite bool_decide_eq_false_2; [done|by intros []]. }
    case_bool_decide as Hc.
    + exists q. rewrite Nat.sub_diag. by destruct Hc.
    + assert (tend o < rg_start q) as Hlt.
      { destruct o as [t|]; [|cbn; lia]. destruct (decide (rg_start q = tend (Some t))); [|lia]. by destruct Hc. }
      specialize (IH (S k) (rg_start q) (Some k) Hl Hlt).
      destruct (taint_scan o l (S k) (rg_start q) (Some k)) as [j|[j|]].
      * destruct IH as (q'&?&?&?). exists q'. replace (j - k)%nat with (S (j - S k)) by lia. split_and!; try done; lia || tauto.
      * right. destruct IH as [[[= <-] HF]|(q'&?&?&?&?&HF)].
        -- exists q. rewrite Nat.sub_diag. split_and!; try done. by constructor.
        -- exists q'. replace (j - k)%nat with (S (j - S k)) by lia. split_and!; try done; try lia. constructor; [lia|done].
      * by destruct IH.
  - assert (rg_ok q = 1 -> pos <= rg_start q) as Hn.
    { intros Hq1. rewrite Hq1 in E. cbn in E. by apply Z.ltb_ge in E. }
    specialize (IH (S k) pos r Hl Hp). destruct (taint_scan o l (S k) pos r) as [j|[j|]].
    + destruct IH as (q'&?&?&?). exists q'. replace (j - k)%nat with (S (j - S k)) by lia. split_and!; try done; lia || tauto.
    + destruct IH as [[? ?]|(q'&?&?&?&?&HF)]; [left; split; [done|by constructor]|right]. exists q'.
      replace (j - k)%nat with (S (j - S k)) by lia. split_and!; try done; try lia. constructor; [|done]. lia.
    + destruct IH as [? HF]. split; [done|]. by constructor.
Qed.

Definition ones (l : list range) : nat := length (filter (fun r => rg_ok r = 1) l).

Record taint_inv (len : Z) (ranges : list range) (l : list tainted) (positions : Z) : Prop := TaintInv {
  ti_ranges : Forall (range_in len) ranges;
  ti_ok : Forall (fun r => rg_ok r <> 0) ranges;
  ti_disjoint : disjoint_ranges ranges;
  ti_sep : separated len l;
  ti_cover : forall i, tainted_at l i <-> exists r, r ∈ ranges /\ rg_ok r = 2 /\ covers r i;
  ti_above : Forall (fun r => rg_ok r = 1 -> 0 <= rg_start r /\ tend (head l) <= rg_start r) ranges;
  ti_total : positions = total l
}.

(** A range that is marked as done. *)
Lemma mark_cover (ranges : list range) (k : nat) rng i : ranges !! k = Some rng ->
  (exists r, r ∈ alter (set_ok 2) k ranges /\ rg_ok r = 2 /\ covers r i) <->
  (exists r, r ∈ ranges /\ rg_ok r = 2 /\ covers r i) \/ covers rng i.
Proof.
  intros Hk. destruct (around ranges k rng Hk) as (Er&_&Ea). rewrite Ea. clear Ea Hk.
  set (x := take k ranges) in *. set (y := drop (S k) ranges) in *. clearbody x y. subst ranges. split.
  - intros (r&Hr&Ho&Hc). apply elem_of_app in Hr as [Hr|[->|Hr]%elem_of_cons]; [left|by right|left];
      (exists r; split; [apply elem_of_app; rewrite elem_of_cons; auto|done]).
  - intros [(r&Hr&Ho&Hc)|Hc].
    + apply elem_of_app in Hr as [Hr|[->|Hr]%elem_of_cons]; [exists r|exists (set_ok 2 rng)|exists r];
        (split; [apply elem_of_app; rewrite elem_of_cons; auto|done]).
    + exists (set_ok 2 rng). split; [apply elem_of_app; right; left|done].
Qed.

Lemma mark_inv len ranges k rng l positions l' positions' : taint_inv len ranges l positions -> ranges !! k = Some rng -> rg_ok rng = 1 ->
  separated len l' -> positions' = total l' -> tend (head l') = rg_end rng + 1 ->
  Forall (fun r => rg_ok r = 1 -> rg_start rng <= rg_start r) ranges ->
  (forall i, tainted_at l' i <-> tainted_at l i \/ covers rng i) ->
  taint_inv len (alter (set_ok 2) k ranges) l' positions' /\ S (ones (alter (set_ok 2) k ranges)) = ones ranges.
Proof.
  intros [Hr Hok Hd _ Hcov _ _] Hk Ho Hs Hp Ht Hmin Hc. pose proof (mark_cover ranges k rng) as Hmc.
  destruct (around ranges k rng Hk) as (Er&_&Ea). rewrite Ea in *. set (x := take k ranges) in *. set (y := drop (S k) ranges) in *.
  assert (apart rng = apart (set_ok 2 rng)) as Hap by done. rewrite Er in Hr, Hok, Hd, Hmin.
  apply Forall_app in Hr as [Hr1 [Hr2 Hr3]%Forall_cons_iff]. apply Forall_app in Hok as [Ho1 [_ Ho3]%Forall_cons_iff].
  apply disjoint_middle in Hd as [Hd1 Hd2]. apply Forall_app in Hmin as [Hm1 [_ Hm3]%Forall_cons_iff]. split.
  - split; try done.
    + apply Forall_app. split; [done|]. constructor; [|done]. destruct Hr2. by split.
    + apply Forall_app. split; [done|]. by constructor.
    + apply disjoint_middle. by rewrite <- Hap.
    + intros i. rewrite Hc, Hcov. symmetry. by apply Hmc.
    + rewrite Ht. apply Forall_app in Hd2 as [Ha1 Ha3].
      assert (forall z, Forall (range_in len) z -> Forall (fun r => rg_ok r = 1 -> rg_start rng <= rg_start r) z ->
        Forall (apart rng) z -> Forall (fun r => rg_ok r = 1 -> 0 <= rg_start r /\ rg_end rng + 1 <= rg_start r) z) as Hz.
      { intros z H1 H2 H3. rewrite Forall_forall in *. intros r Hi Hi1. specialize (H1 r Hi). specialize (H2 r Hi Hi1).
        specialize (H3 r Hi). destruct H1, Hr2. unfold apart in H3. lia. }
      apply Forall_app. split; [by apply Hz|]. constructor; [done|by apply Hz].
  - rewrite Er. unfold ones. rewrite !list.filter_app, !list.filter_cons, decide_False by done. rewrite decide_True by done.
    rewrite !length_app. cbn. lia.
Qed.

(** The range that follows the last taint. *)
Lemma extend_inv len ranges k rng t l positions : len <= 2 ^ 30 -> taint_inv len ranges (t :: l) positions ->
  ranges !! k = Some rng -> rg_ok rng = 1 -> rg_start rng = t_pos t + t_len t ->
  taint_inv len (alter (set_ok 2) k ranges) (Tainted (t_pos t) (u32 (t_len t + size rng)) :: l) (u32 (positions + size rng)) /\
  S (ones (alter (set_ok 2) k ranges)) = ones ranges.
Proof.
  intros Hlen Hi Hk Ho Hst. destruct (ti_sep _ _ _ _ Hi) as (S1&S2&S3&S4).
  assert (range_in len rng) as Hr.
  { pose proof (ti_ranges _ _ _ _ Hi) as HF. rewrite Forall_forall in HF. apply HF, list_elem_of_In. by eapply list_elem_of_lookup_2. }
  pose proof (range_size len rng Hr ltac:(lia)) as Hsz. destruct Hr. pose proof (total_bound (t_pos t - 1) l ltac:(lia) S4) as Hb.
  rewrite (ti_total _ _ _ _ Hi). cbn [total foldr]. fold (total l). rewrite !wrap_small by (unfold in_width; lia).
  eapply mark_inv; try done.
  - cbn. split_and!; try done; lia.
  - cbn. fold (total l). lia.
  - cbn. lia.
  - eapply Forall_impl; [|exact (ti_above _ _ _ _ Hi)]. cbn. intros q Hq Hq1. specialize (Hq Hq1). lia.
  - intros i. unfold tainted_at, covers. setoid_rewrite elem_of_cons. split.
    + intros (t'&[->|Ht']&Hc); cbn in *; [|left; exists t'; auto].
      destruct (decide (i < t_pos t + t_len t)); [left; exists t; split; [auto|lia]|right; lia].
    + intros [(t'&[->|Ht']&Hc)|Hc]; [eexists; split; [left; done|cbn; lia]|exists t'; auto|eexists; split; [left; done|cbn; lia]].
Qed.

(** A range behind the last taint that starts before the others. *)
Lemma open_inv len ranges k rng l positions : len <= 2 ^ 30 -> taint_inv len ranges l positions ->
  ranges !! k = Some rng -> rg_ok rng = 1 -> tend (head l) < rg_start rng ->
  Forall (fun q => rg_ok q = 1 -> rg_start rng <= rg_start q) ranges ->
  taint_inv len (alter (set_ok 2) k ranges) (Tainted (rg_start rng) (size rng) :: l) (u32 (positions + size rng)) /\
  S (ones (alter (set_ok 2) k ranges)) = ones ranges.
Proof.
  intros Hlen Hi Hk Ho Hst Hmin. pose proof (ti_sep _ _ _ _ Hi) as Hsep.
  assert (range_in len rng) as Hr.
  { pose proof (ti_ranges _ _ _ _ Hi) as HF. rewrite Forall_forall in HF. apply HF, list_elem_of_In. by eapply list_elem_of_lookup_2. }
  pose proof (range_size len rng Hr ltac:(lia)) as Hsz. destruct Hr.
  assert (separated (rg_start rng - 1) l) as Hsep'. { destruct l; [done|]. cbn in *. split_and!; try tauto; lia. }
  pose proof (total_bound (rg_start rng - 1) l ltac:(lia) Hsep') as Hb.
  rewrite (ti_total _ _ _ _ Hi). rewrite !wrap_small by (unfold in_width; lia). eapply mark_inv; try done.
  - cbn. split_and!; try done; lia.
  - cbn. fold (total l). lia.
  - cbn. lia.
  - intros i. unfold tainted_at, covers. setoid_rewrite elem_of_cons. split.
    + intros (t'&[->|Ht']&Hc); cbn in *; [right; lia|left; exists t'; auto].
    + intros [(t'&Ht'&Hc)|Hc]; [exists t'; auto|eexists; split; [left; done|cbn; lia]].
Qed.

Lemma alter_covers (ranges : list range) (k : nat) rng i : ranges !! k = Some rng ->
  (exists r, r ∈ alter (set_ok 2) k ranges /\ covers r i) <-> (exists r, r ∈ ranges /\ covers r i).
Proof.
  intros Hk. destruct (around ranges k rng Hk) as (Er&_&Ea). rewrite Ea. clear Ea Hk.
  set (x := take k ranges) in *. set (y := drop (S k) ranges) in *. clearbody x y. subst ranges.
  split; intros (r&Hx&Hy); apply elem_of_app in Hx as [Hx|[->|Hx]%elem_of_cons];
    [exists r|exists rng|exists r|exists r|exists (set_ok 2 rng)|exists r]; (split; [apply elem_of_app; rewrite elem_of_cons; auto|done]).
Qed.

Lemma collect_ok len n : len <= 2 ^ 30 -> forall ranges l positions, taint_inv len ranges l positions -> (ones ranges < n)%nat ->
  exists l', collect n ranges l positions = Some (l', total l') /\ separated len l' /\
    forall i, tainted_at l' i <-> exists r, r ∈ ranges /\ covers r i.
Proof.
  intros Hlen. induction n as [|n IH]; intros ranges l positions Hi Hn; [lia|]. cbn [collect].
  pose proof (ti_sep _ _ _ _ Hi) as Hsep.
  assert (forall t, head l = Some t -> 0 <= t_pos t + t_len t < 2 ^ 32) as Hhd.
  { intros t Ht. destruct l as [|t' l]; [done|]. injection Ht as ->. cbn in Hsep. lia. }
  assert (tend (head l) < 2 ^ 32 - 1) as Hte by (destruct l; cbn in *; lia).
  pose proof (taint_scan_spec (head l) Hhd ranges 0 (2 ^ 32 - 1) None (ti_above _ _ _ _ Hi) Hte) as Hscan.
  assert (forall k rng l' p', ranges !! k = Some rng -> taint_inv len (alter (set_ok 2) k ranges) l' p' /\
    S (ones (alter (set_ok 2) k ranges)) = ones ranges ->
    exists l'', collect n (alter (set_ok 2) k ranges) l' p' = Some (l'', total l'') /\ separated len l'' /\
      (forall i, tainted_at l'' i <-> exists r, r ∈ ranges /\ covers r i)) as Hrec.
  { intros k rng l' p' Hk (Hi'&Hc). destruct (IH _ _ _ Hi' ltac:(lia)) as (l2&E&Hs&Ht). exists l2. split_and!; [done|done|].
    intros i. rewrite Ht. by eapply alter_covers. }
  destruct (taint_scan (head l) ranges 0 (2 ^ 32 - 1) None) as [k|[k|]].
  - destruct Hscan as (rng&Hk&_&Ho&Hne&Hst). rewrite Nat.sub_0_r in Hk. rewrite Hk. cbn [mbind option_bind].
    destruct l as [|t l]; [done|]. eapply Hrec; [done|]. by eapply extend_inv.
  - destruct Hscan as [[? _]|(rng&Hk&_&Ho&Hst&Hmin)]; [done|]. rewrite Nat.sub_0_r in Hk. rewrite Hk. cbn [mbind option_bind].
    eapply Hrec; [done|]. eapply open_inv; try done. lia.
  - destruct Hscan as [_ Hnone]. rewrite (ti_total _ _ _ _ Hi). exists l. split_and!; [done|done|]. intros i.
    rewrite (ti_cover _ _ _ _ Hi). split; intros (r&Hx&Hy); exists r; [tauto|]. apply list_elem_of_In in Hx as Hx'.
    destruct (proj1 (Forall_forall _ _) (ti_ranges _ _ _ _ Hi) r Hx'). pose proof (proj1 (Forall_forall _ _) (ti_ok _ _ _ _ Hi) r Hx').
    pose proof (proj1 (Forall_forall _ _) Hnone r Hx'). cbv beta in *. split_and!; [done| |done]. assert (rg_ok r <> 1) by lia. lia.
Qed.
