(* ===== verification/ColorMain.v ===== *)
(** * Colorization: theorem *)

From S2P Require Import Prelude Res Rng Extras Tmin Stage StageFacts Color ColorFacts.

(** [buf] is a colored version of [orig] with the checksum [ck]. *)
Record colored (c : co_cfg) (len : Z) (seen : list Z -> Z -> Prop) (orig : list Z) (ck : Z) (buf : list Z)
  (marks : list tainted) : Prop := Colored {
  cd_zlen : zlen buf = zlen orig;
  cd_separated : separated len marks;
  cd_seen : seen (written c len buf) ck;
  cd_bytes : exists changed, Forall2 (replaced (cc_random c)) (slice orig 0 len) changed /\
    (forall i, tainted_at marks (Z.of_nat i) -> buf !! i = changed !! i) /\
    (forall i, ~ tainted_at marks (Z.of_nat i) -> buf !! i = orig !! i) /\
    (forall i, 0 <= i < len -> ~ tainted_at marks i -> needed c len seen orig changed ck i)
}.

Section Main.
Context {W : Type} `{Fuzzer W} `{ColorHost W}.
Context (c : co_cfg) (len : Z) (seen : list Z -> Z -> Prop) (I : nat -> W -> Prop).
Context (HI : color_laws c len seen I) (Hpre : color_pre c len).
Abbreviation env := (Stage.env W (list Z)).

Lemma start_inv orig changed ck : zlen changed = len -> len <= zlen orig -> seen (written c len orig) ck ->
  color_inv c len seen orig changed ck (add_range [] 0 (u32 (len - 1))) orig /\
  todo (add_range [] 0 (u32 (len - 1))) = 2 * len - 1.
Proof.
  intros Hch Hor Hs. destruct Hpre as [Hl _ _]. rewrite wrap_small by (unfold in_width; lia).
  assert (range_in len (Range 0 (len - 1) 0)) as Hr by (split; cbn; lia). split.
  - split; try done.
    + by constructor.
    + by intros r ->%list_elem_of_singleton.
    + intros r i ->%list_elem_of_singleton. done.
    + intros i Hi. left. exists (Range 0 (len - 1) 0). split; [left|]. unfold covers. cbn. lia.
  - unfold add_range. rewrite todo_cons, (range_size len) by (done || lia). cbn. lia.
Qed.

(** The ranges that are left are the taints. *)
Lemma collect_colored orig changed ck ranges buf : color_inv c len seen orig changed ck ranges buf ->
  Forall (fun r => rg_ok r <> 0) ranges ->
  Forall2 (replaced (cc_random c)) (slice orig 0 len) changed ->
  exists marks, collect (S (length ranges)) ranges [] 0 = Some (marks, total marks) /\
    colored c len seen orig ck buf marks.
Proof.
  intros Hi H0' Hch. destruct Hpre as [Hl _ _]. destruct (collect_ok len (S (length ranges)) ltac:(lia) ranges [] 0) as (marks&E&Hs&Ht).
  - split; try done; try apply Hi.
    + intros i. split; [by intros (t&?%elem_of_nil&_)|]. intros (r&Hr&Hr2&_). by eapply ci_two in Hr.
    + eapply Forall_impl; [|apply (ci_ranges _ _ _ _ _ _ _ _ Hi)]. intros r [] _. cbn. lia.
  - unfold ones. pose proof (length_filter (fun r => rg_ok r = 1) ranges). lia.
  - exists marks. split; [done|].
    assert (forall r, r ∈ ranges -> rg_ok r = 1) as H1.
    { intros r Hr. pose proof (ci_two _ _ _ _ _ _ _ _ Hi r Hr). apply list_elem_of_In in Hr.
      pose proof (proj1 (Forall_forall _ _) H0' r Hr).
      destruct (proj1 (Forall_forall _ _) (ci_ranges _ _ _ _ _ _ _ _ Hi) r Hr). cbv beta in *. lia. }
    split; [apply Hi|done|apply Hi|]. exists changed. split_and!; [done| | |].
    + intros i (r&Hr&Hc)%Ht. eapply ci_changed; eauto.
    + intros i Hn. eapply ci_orig; [exact Hi|]. intros r Hr _ Hc. apply Hn, Ht. by exists r.
    + intros i Hil Hn. destruct (ci_lost _ _ _ _ _ _ _ _ Hi i Hil) as [Hc|]; [|done]. by apply Ht in Hc.
Qed.

Lemma colorization_run fuel buf success (e : env) : len <= zlen buf -> bytes_ok (slice buf 0 len) ->
  (length (e_rng e) < fuel)%nat -> I (S (Z.to_nat (2 * len))) (e_fuzzer e) ->
  goes (colorization c fuel buf len success) e (fun '(buf', taint, success') e' =>
    exists ck marks, seen (written c len buf) ck /\ colored c len seen buf ck buf' marks /\
      (length (e_rng e') <= length (e_rng e))%nat /\ I 0%nat (e_fuzzer e') /\
      (taint = marks /\ success' = (if bool_decide (marks = []) then success else u32 (success + 1)) \/
       taint = [] /\ success' = success /\
         unsatisfactory c len (total marks) success (active_items (e_fuzzer e')) = true)).
Proof.
  intros Hb Hbytes Hf Hn. destruct Hpre as [Hl _ _]. unfold colorization. apply goes_bind.
  eapply goes_mono; [by eapply (get_exec_checksum_ok c len seen I HI Hpre (Z.to_nat (2 * len)))|]. intros ck e1 (Hck&Hn1&R1).
  rewrite load_Some by lia. apply goes_bind, goes_within. apply goes_bind.
  eapply goes_mono; [apply (replace_ok (cc_random c)); [done|by rewrite R1]|].
  intros changed e2 ((r2&->&R2)&Hch). rewrite R1 in R2.
  assert (zlen changed = len) as Hz.
  { apply Forall2_length in Hch. unfold zlen. rewrite <- Hch. change (zlen (slice buf 0 len) = len). apply zlen_slice; lia. }
  destruct (start_inv buf changed ck Hz Hb Hck) as [Hi Ht]. apply goes_bind.
  eapply goes_mono; [eapply (color_loop_ok c len seen I HI Hpre buf changed ck Hb Hz); [done|done|lia|lia|done]|].
  intros [buf' ranges] e3 (Hi'&H0'&R3&Hn3). cbn in R3.
  destruct (collect_colored buf changed ck ranges buf' Hi' H0' Hch) as (marks&Ec&Hc). rewrite Ec. apply goes_bind, goes_within.
  assert (length (e_rng e3) <= length (e_rng e))%nat as R by (by rewrite R3).
  destruct marks as [|t marks]; [apply goes_ret; exists ck, []; split_and!; auto|].
  apply goes_bind. unfold goes at 1. destruct (unsatisfactory _ _ _ _ _) eqn:Eu; apply goes_ret;
    exists ck, (t :: marks); split_and!; auto.
Qed.
End Main.

(** C15. [colorization] for any target, whose runs need not repeat themselves, and any finite
    list of random answers: it ends without leaving a buffer, after at most [2 * len + 1] runs.
    The buffer it leaves was run last with the checksum of the original; outside of the marks it
    is the original, inside every byte is replaced by another one (of the same kind, unless
    the replacement is random).  The marks are in order and do not touch each other.  Every
    byte outside of them was tried on its own: changing it as well, in an input with the
    right checksum, gave another checksum or, unless the seed is fixed, a slow run; the limit on
    the number of runs never cuts the search short. *)
Theorem colorization_correct {W} `{Fuzzer W} `{ColorHost W} c len seen (I : nat -> W -> Prop) fuel buf success
  (e : Stage.env W (list Z)) :
  color_laws c len seen I -> color_pre c len -> len <= zlen buf -> bytes_ok (slice buf 0 len) ->
  (length (e_rng e) < fuel)%nat -> I (S (Z.to_nat (2 * len))) (e_fuzzer e) ->
  goes (colorization c fuel buf len success) e (fun '(buf', taint, success') e' =>
    exists ck marks, seen (written c len buf) ck /\ colored c len seen buf ck buf' marks /\
      (length (e_rng e') <= length (e_rng e))%nat /\ I 0%nat (e_fuzzer e') /\
      (taint = marks /\ success' = (if bool_decide (marks = []) then success else u32 (success + 1)) \/
       taint = [] /\ success' = success /\
         unsatisfactory c len (total marks) success (active_items (e_fuzzer e')) = true)).
Proof. intros. by apply colorization_run. Qed.

(** ** Example: a target that looks at its second byte *)

#[local] Instance second_fuzzer : Fuzzer (list Z) := {
  fuzz_run_target _ x := (FSRV_RUN_OK, x);
  stop_requested _ := false;
  skip_requested _ := false;
  clear_skip_request w := w;
  trace_cksum w := nth 1 w 0;
  queued_items _ := 1;
  save_if_interesting w _ _ := Some (0, w);
  get_cur_time w := (0, w)
}.

#[local] Instance second_host : ColorHost (list Z) := {
  get_cur_time_us w := (0, w);
  active_items _ := 1
}.

Definition second_cfg : co_cfg := CoCfg 1 100 false true 10 1.
Definition second_env : Stage.env (list Z) (list Z) := Stage.Env [] [3; 1; 0; 6] (ExtrasSt [] [] false) 0 0 0.

Example second_run :
  match colorization second_cfg 10 [65; 66; 48; 55; 0] 5 0 second_env with
  | Next (b, t, n) _ => b = [68; 66; 49; 56; 1] /\ t = [Tainted 2 3; Tainted 0 1] /\ n = 1
  | _ => False
  end.
Proof. by vm_compute. Qed.

Definition second_seen (x : list Z) (v : Z) : Prop := v = nth 1 x 0.

Lemma second_laws : color_laws second_cfg 5 second_seen (fun _ _ => True).
Proof.
  split; try done. intros n e x Hx _. unfold goes, run_written. rewrite Hx. cbn. done.
Qed.

Example colorization_correct_witness :
  goes (colorization second_cfg 10 [65; 66; 48; 55; 0] 5 0) second_env (fun '(buf', taint, success') e' =>
    exists ck marks, second_seen (written second_cfg 5 [65; 66; 48; 55; 0]) ck /\
      colored second_cfg 5 second_seen [65; 66; 48; 55; 0] ck buf' marks /\
      (length (e_rng e') <= length (e_rng second_env))%nat /\ True /\
      (taint = marks /\ success' = (if bool_decide (marks = []) then 0 else u32 (0 + 1)) \/
       taint = [] /\ success' = 0 /\
         unsatisfactory second_cfg 5 (total marks) 0 (active_items (e_fuzzer e')) = true)).
Proof.
  refine (colorization_correct second_cfg 5 second_seen (fun _ _ => True) 10 [65; 66; 48; 55; 0] 0 second_env second_laws _ _ _ _ _).
  - by split.
  - done.
  - by repeat constructor.
  - cbn. lia.
  - done.
Defined.
