(* ===== verification/Redqueen.v ===== *)
(** * Input-to-state replacement for comparisons

    [cmp_extend_encoding], [cmp_extend_encodingN] and [cmp_fuzz] of
    [src/afl-fuzz-redqueen.c], as compiled for a 64-bit little-endian machine with
    [CMPLOG_COMBINE].  A comparison of the target is logged for the original and for the
    colored input ([include/cmplog.h]); where an operand is found in both inputs, the other
    operand is put in its place.  [buf] is the colored input, [cbuf] collects what led to
    something new.  A function that returns 1 leaves with [abandon_entry]; the refreshing of
    the screen is left out. *)

From stdpp Require Import gmap.
From S2P Require Import Prelude Res Rng TextCheck Extras Tmin Mutations Stage Color Encode.

(** ** The log of comparisons *)

Definition CMP_MAP_W : Z := 65536.
Definition CMP_MAP_H : Z := 32.
Definition CMP_MAP_RTN_H : Z := CMP_MAP_H / 2.
Definition SHAPE_BYTES (x : Z) : Z := x + 1.
Definition CMP_TYPE_INS : Z := 0.

Record cmp_header := CmpHeader {
  hits : Z;
  shape : Z;
  type : Z;
  attribute : Z
}.

(** [struct cmp_operands] and [struct cmpfn_operands] have both 72 bytes; the entries of a key
    are kept as bytes.  A key that is not in the maps is all zero. *)
Definition operands_size : Z := 72.
Record cmp_map := CmpMap {
  headers : gmap Z cmp_header;
  log : gmap Z (list Z)
}.
Definition header (m : cmp_map) (key : Z) : cmp_header := default (CmpHeader 0 0 0 0) (headers m !! key).
Definition entries (m : cmp_map) (key : Z) : list Z :=
  default (replicate (Z.to_nat (CMP_MAP_H * operands_size)) 0) (log m !! key).

(** The fields [v0], [v0_128], [v1] and [v1_128] of the [i]-th entry. *)
Definition operand (l : list Z) (i off : Z) : option Z := le_word <$> load l (operands_size * i + off) 8.

(** What the stage needs of the rest of the fuzzer, besides [Fuzzer]. *)
Class CmplogHost (W : Type) := {
  saved_crashes : W -> Z;
  cmplog_run_target : W -> list Z -> cmp_map -> fsrv_run_result * cmp_map * W;
  virgin_bits : W -> list Z;
  set_virgin_bits : W -> list Z -> W
}.

(** ** State *)

Definition IS_EQUAL : Z := 1.
Definition IS_GREATER : Z := 2.
Definition IS_LESSER : Z := 4.
Definition IS_FP : Z := 8.
Definition IS_FP_MOD : Z := 16.
Definition IS_INT_MOD : Z := 32.
Definition IS_TRANSFORM : Z := 64.
Definition LVL1 : Z := 1.
Definition LVL3 : Z := 4.

(** The settings, [queue_cur->is_ascii], whether [errno] was left as [ERANGE], and what is on
    the stack where the array [save] of [rtn_extend_encoding] is not initialised. *)
Record rq_cfg := RqCfg {
  rc_min_length : Z;
  rc_max_length : Z;
  rc_transform : bool;
  rc_scale : bool;
  rc_arith : bool;
  rc_xtreme : bool;
  rc_ascii : bool;
  rc_stale : bool;
  rc_junk : list Z
}.

Section Redqueen.
Context {W R : Type} `{Fuzzer W} `{RandSource R} `{Qsort} `{CmplogHost W}.

(** [buf], [cbuf], [afl->out_scratch_buf], [*status], [afl->pass_stats] as [total] and
    [faileds], and the array [tmp] of [rtn_extend_encoding], which is not initialised: it holds
    at first what an earlier call left on the stack. *)
Record rq_st := RqSt {
  r_buf : list Z;
  r_cbuf : list Z;
  r_scratch : list Z;
  r_status : Z;
  r_tmp : list Z;
  r_pass : gmap Z (Z * Z);
  r_env : Stage.env W R
}.

Definition set_buf (b : list Z) : stage rq_st unit := fun s =>
  Next tt (RqSt b (r_cbuf s) (r_scratch s) (r_status s) (r_tmp s) (r_pass s) (r_env s)).
Definition set_cbuf (b : list Z) : stage rq_st unit := fun s =>
  Next tt (RqSt (r_buf s) b (r_scratch s) (r_status s) (r_tmp s) (r_pass s) (r_env s)).
Definition set_scratch (b : list Z) : stage rq_st unit := fun s =>
  Next tt (RqSt (r_buf s) (r_cbuf s) b (r_status s) (r_tmp s) (r_pass s) (r_env s)).
Definition set_status (n : Z) : stage rq_st unit := fun s =>
  Next tt (RqSt (r_buf s) (r_cbuf s) (r_scratch s) n (r_tmp s) (r_pass s) (r_env s)).
Definition set_tmp (b : list Z) : stage rq_st unit := fun s =>
  Next tt (RqSt (r_buf s) (r_cbuf s) (r_scratch s) (r_status s) b (r_pass s) (r_env s)).
Definition set_pass (p : gmap Z (Z * Z)) : stage rq_st unit := fun s =>
  Next tt (RqSt (r_buf s) (r_cbuf s) (r_scratch s) (r_status s) (r_tmp s) p (r_env s)).
Definition with_renv (e : Stage.env W R) (s : rq_st) : rq_st :=
  RqSt (r_buf s) (r_cbuf s) (r_scratch s) (r_status s) (r_tmp s) (r_pass s) e.
Definition look {A} (f : rq_st -> A) : stage rq_st A := fun s => Next (f s) s.

Definition lift {A} (m : stage (Stage.env W R) A) : stage rq_st A := fun s =>
  match m (r_env s) with
  | Next a e => Next a (with_renv e s)
  | Abandon e => Abandon (with_renv e s)
  | Leave e => Leave (with_renv e s)
  | Fatal => Fatal
  | OutOfBounds => OutOfBounds
  | NoRandom => NoRandom
  | Unfinished => Unfinished
  end.

Definition buf_load (off n : Z) : stage rq_st (list Z) := b ← look r_buf; within (load b off n).
Definition buf_store (off : Z) (bs : list Z) : stage rq_st unit :=
  b ← look r_buf; b ← within (store b off bs); set_buf b.
Definition cbuf_store (off : Z) (bs : list Z) : stage rq_st unit :=
  b ← look r_cbuf; b ← within (store b off bs); set_cbuf b.

Context (c : rq_cfg) (orig_buf : list Z) (len : Z).

Definition hit_cnt (w : W) : Z := queued_items w + saved_crashes w.

Definition its_fuzz (b : list Z) : stage rq_st unit :=
  orig_hit_cnt ← look (fun s => hit_cnt (e_fuzzer (r_env s)));
  r ← lift (common_fuzz_stuff (rc_min_length c) (rc_max_length c) b len);
  if (r : bool) then abandon_entry
  else
    new_hit_cnt ← look (fun s => hit_cnt (e_fuzzer (r_env s)));
    set_status (if new_hit_cnt =? orig_hit_cnt then 2 else 1).

(** Put [bs] at [idx], run, keep it in [cbuf] if something was found, put the old bytes
    back. *)
Definition try_bytes (idx : Z) (bs : list Z) : stage rq_st unit :=
  old ← buf_load idx (zlen bs);
  buf_store idx bs;;
  b ← look r_buf;
  its_fuzz b;;
  st ← look r_status;
  (if st =? 1 then cbuf_store idx bs else mret tt);;
  buf_store idx old.

Section Encoding.
Context (idx taint_len lvl : Z).

Definition its_len : Z := Z.min (u32 (len - idx)) taint_len.

(** The number of [old_len] characters at [idx] is replaced by [text], in
    [out_scratch_buf]. *)
Definition try_number (text : list Z) (old_len : Z) : stage rq_st unit :=
  b ← look r_buf;
  scratch ← look r_scratch;
  let scratch := afl_realloc scratch (len + zlen text) in
  hd ← within (load b 0 idx);
  scratch ← within (store scratch 0 hd);
  scratch ← within (store scratch idx text);
  tl ← within (load b (idx + old_len) (len - idx - old_len));
  scratch ← within (store scratch (idx + zlen text) tl);
  d ← within (get scratch (idx + zlen text));
  scratch ← within (if isdigit d then put scratch (idx + zlen text) 32 else Some scratch);
  set_scratch scratch;;
  its_fuzz scratch.

(** Ascii numbers that the target has converted. *)
Definition ascii_number (pattern repl : Z) : stage rq_st unit :=
  str ← buf_load idx (len - idx);
  match strntoll (rc_stale c) str (len - idx) with
  | Some (num, n) =>
      if (u64 num =? pattern) || (num =? 0) then try_number (snprintf_dec 32 (s64 repl)) n else mret tt
  | None =>
      match strntoull (rc_stale c) str (len - idx) with
      | Some (unum, n) =>
          if (unum =? pattern) || (unum =? 0) then try_number (snprintf_dec 32 repl) n else mret tt
      | None => mret tt
      end
  end.

(** A recursive call: [hshape], [pattern], [repl], [o_pattern], [changed_val], [attr],
    [do_reverse]. *)
Definition encoder : Type := Z -> Z -> Z -> Z -> Z -> Z -> bool -> stage rq_st unit.

Definition unless_found (m : stage rq_st unit) : stage rq_st unit :=
  st ← look r_status; if st =? 1 then mret tt else m.
Definition when (b : bool) (m : stage rq_st unit) : stage rq_st unit := if b then m else mret tt.

(** Operands that are the input plus, xor-ed with, or in other case than some value. *)
Definition transform_magic (self : encoder) (hshape bytes pattern repl o_pattern : Z) : stage rq_st unit :=
  let w := if bytes <=? 1 then 1 else if bytes <=? 3 then 2 else if bytes <=? 7 then 4 else 8 in
  let mask := 2 ^ (8 * w) - 1 in
  b_val ← buf_load idx w;
  o_b_val ← within (load orig_buf idx w);
  let b_val := le_word b_val in
  let o_b_val := le_word o_b_val in
  let call new_repl := self hshape pattern new_repl o_pattern repl IS_TRANSFORM true in
  let diff := s64 (pattern - b_val) in
  when ((diff =? s64 (o_pattern - o_b_val)) && z2b diff) (call (u64 (repl - diff)));;
  (let diff := Z.lxor pattern b_val in
   unless_found (when ((diff =? Z.lxor o_pattern o_b_val) && z2b diff) (call (Z.lxor repl diff))));;
  (let low := Z.land 0x2020202020202020 mask in
   unless_found (when ((Z.lor o_b_val low =? Z.land o_pattern mask) && (Z.lor b_val low =? Z.land pattern mask))
     (call (Z.land repl (Z.land 0x5f5f5f5f5f5f5f5f mask)))));;
  (let up := Z.land 0x5f5f5f5f5f5f5f5f mask in
   unless_found (when ((Z.land o_b_val up =? Z.land o_pattern mask) && (Z.land b_val up =? Z.land pattern mask))
     (call (Z.lor repl (Z.land 0x2020202020202020 mask)))));;
  set_status 0.

(** The operand as [w] bytes at [idx], and then with its bytes swapped. *)
Definition direct (self : encoder) (w : nat) (swap : Z -> Z)
  (hshape pattern repl o_pattern changed_val attr : Z) (do_reverse : bool) : stage rq_st unit :=
  st ← look r_status;
  if (hshape >=? Z.of_nat w) && negb (st =? 1) then
    (if its_len >=? Z.of_nat w then
       b ← buf_load idx (Z.of_nat w);
       o ← within (load orig_buf idx (Z.of_nat w));
       when (((le_word b =? wrap (8 * Z.of_nat w) pattern) && (le_word o =? wrap (8 * Z.of_nat w) o_pattern))
             || (attr >=? IS_FP_MOD)) (try_bytes idx (le_bytes w repl))
     else mret tt);;
    unless_found (when do_reverse
      (self hshape (swap pattern) (swap repl) (swap o_pattern) (swap changed_val) attr false))
  else mret tt.

Definition scale_encoding (repl changed_val attr : Z) : stage rq_st unit :=
  when ((attr <? IS_FP) && (rc_scale c || (lvl >=? LVL3)) && (repl =? changed_val))
    (let '(new_val, ilen) := scale64 repl changed_val in
     when ((ilen <=? its_len) && (ilen >? 1)) (try_bytes idx (le_bytes (Z.to_nat ilen) new_val))).

(** One more or less, for comparisons that are not for equality only. *)
Definition solve_arith (self : encoder) (hshape pattern repl o_pattern attr : Z) : stage rq_st unit :=
  let ordered := z2b (Z.land attr (Z.lor IS_GREATER IS_LESSER)) in
  if negb (rc_arith c) || (lvl <? LVL3) || (attr =? IS_TRANSFORM) then mret tt
  else if negb ordered || (hshape <? 4) then mret tt
  else
    let attr := if z2b (Z.land attr IS_EQUAL) && ordered
                then if z2b (Z.land attr 2) then u8 (attr + 2) else u8 (attr - 2) else attr in
    let up := z2b (Z.land attr IS_GREATER) in
    if (attr >=? IS_FP) && (attr <? IS_FP_MOD) then
      let repl_new :=
        if (hshape =? 4) && (negb up || (its_len >=? 4)) then Some (float_step up repl)
        else if (hshape =? 8) && (negb up || (its_len >=? 8)) then Some (double_step up repl)
        else None in
      match repl_new with
      | None => mret tt
      | Some r =>
          self hshape pattern r o_pattern r IS_FP_MOD true;;
          when ((hshape =? 8) && (its_len >=? 4))
            (let r := double_to_float repl in self 4 pattern r o_pattern r IS_FP_MOD true)
      end
    else when (attr <? IS_FP)
      (let r := u64 (if up then repl + 1 else repl - 1) in
       self hshape pattern r o_pattern r IS_INT_MOD true).

Definition hshape_bytes (hshape : Z) : Z :=
  if hshape <=? 1 then 1 else if hshape =? 2 then 2 else if hshape <=? 4 then 4 else 8.

(** [depth] bounds the recursion. *)
Fixpoint cmp_extend_encoding (depth : nat) (hshape pattern repl o_pattern changed_val attr : Z)
  (do_reverse : bool) : stage rq_st unit :=
  match depth with
  | O => fun _ => Unfinished
  | S depth =>
      let self := cmp_extend_encoding depth in
      let bytes := Z.min (hshape_bytes hshape) (u32 (len - idx)) in
      if bytes <=? 1 then mret tt
      else
        when (rc_transform c && z2b (Z.land lvl LVL3))
          (ascii_number pattern repl;;
           when (negb (pattern =? o_pattern) && (repl =? changed_val) && (attr <=? IS_EQUAL))
             (transform_magic self hshape bytes pattern repl o_pattern));;
        if pattern =? o_pattern then mret tt
        else
          when (z2b (Z.land lvl LVL1) || (attr >=? IS_FP_MOD))
            (direct self 8 SWAP64 hshape pattern repl o_pattern changed_val attr do_reverse;;
             direct self 4 SWAP32 hshape pattern repl o_pattern changed_val attr do_reverse;;
             direct self 2 SWAP16 hshape pattern repl o_pattern changed_val attr do_reverse);;
          scale_encoding repl changed_val attr;;
          solve_arith self hshape pattern repl o_pattern attr
  end.

(** Operands of other sizes, up to 16 bytes. *)
Fixpoint cmp_extend_encodingN (depth : nat) (hshape pattern repl o_pattern changed_val attr : Z)
  (do_reverse : bool) : stage rq_st unit :=
  match depth with
  | O => fun _ => Unfinished
  | S depth =>
      let swap x := SWAPN x (Z.shiftl hshape 3) in
      when (its_len >=? hshape)
        (p ← within (load (le_bytes 16 pattern) 0 hshape);
         o_p ← within (load (le_bytes 16 o_pattern) 0 hshape);
         r ← within (load (le_bytes 16 repl) 0 hshape);
         b ← buf_load idx hshape;
         o ← within (load orig_buf idx hshape);
         when (bool_decide (b = p) && bool_decide (o = o_p)) (try_bytes idx r);;
         unless_found (when do_reverse
           (cmp_extend_encodingN depth hshape (swap pattern) (swap repl) (swap o_pattern)
              (swap changed_val) attr false));;
         when ((attr <? IS_FP) && (attr <? 32) && (rc_scale c || (lvl >=? LVL3)))
           match scale128 repl with
           | Some (new_val, ilen) =>
               when (ilen <=? its_len) (try_bytes idx (le_bytes (Z.to_nat ilen) new_val))
           | None => mret tt
           end)
  end.
End Encoding.

(** ** The dictionary *)

(** Two bytes 0 or two bytes 0xff without another value between them. *)
Fixpoint boring (b : list Z) (cons_0 cons_ff : Z) : bool :=
  match b with
  | [] => false
  | x :: b =>
      let '(cons_0, cons_ff) := if x =? 0 then (cons_0 + 1, cons_ff)
                                else if x =? 255 then (cons_0, cons_ff + 1) else (0, 0) in
      if (cons_0 >? 1) || (cons_ff >? 1) then true else boring b cons_0 cons_ff
  end.

Definition add_auto (mem : list Z) : stage rq_st unit := lift (maybe_add_auto_env mem).

Definition try_to_add_to_dict (v sz : Z) : stage rq_st unit :=
  b ← within (load (le_bytes 8 v) 0 sz);
  if boring b 0 0 then mret tt
  else
    add_auto b;;
    if sz =? 2 then add_auto (le_bytes 2 (SWAP16 v))
    else if sz =? 4 then add_auto (le_bytes 4 (SWAP32 v))
    else when (sz =? 8) (add_auto (le_bytes 8 (SWAP64 v))).

Definition try_to_add_to_dictN (v sz : Z) : stage rq_st unit :=
  b ← within (load (le_bytes 16 v) 0 sz);
  if boring b 0 0 then mret tt
  else
    add_auto b;;
    r ← within (load (le_bytes 16 (SWAPN v sz)) 0 sz);
    add_auto r.

(** [check_if_text_buf(b, n) == n] *)
Definition is_text (b : list Z) (n : Z) : option bool := r ← check_if_text_buf b n; Some (r =? n).

(** [!found_one || check_if_text_buf(b, n) == n] *)
Definition unfound_or_text (found : bool) (b : list Z) (n : Z) : stage rq_st bool :=
  if found then within (is_text b n) else mret true.

(** ** A key of the log *)

(** The positions inside the taints, from the first one on, until something is found;
    [ts]: the taints in the order of the input. *)
Fixpoint scan_taints (l : list Z) (ts : list tainted) (f : Z -> Z -> stage rq_st bool) : stage rq_st bool :=
  match l with
  | [] => mret false
  | idx :: l =>
      match ts with
      | [] => scan_taints l [] f
      | t :: rest =>
          if idx <? t_pos t then scan_taints l ts f
          else
            found ← f idx (u32 (t_pos t + t_len t - idx));
            if (found : bool) then mret true
            else scan_taints l (if idx =? u32 (t_pos t + t_len t - 1) then rest else ts) f
      end
  end.

Definition attempt (b : bool) (m : stage rq_st unit) : stage rq_st bool :=
  when b m;; st ← look r_status; mret (st =? 1).

Definition or_else (m k : stage rq_st bool) : stage rq_st bool :=
  found ← m; if (found : bool) then mret true else k.

(** The operands of an entry: [v0], [v1], and with the upper halves. *)
Record ops := Ops {
  v0 : Z;
  v1 : Z;
  v0N : Z;
  v1N : Z
}.
Definition get_ops (l : list Z) (i : Z) : option ops :=
  a ← operand l i 0; a' ← operand l i 8; b ← operand l i 32; b' ← operand l i 40;
  Some (Ops a b (a + Z.shiftl a' 64) (b + Z.shiftl b' 64)).

Definition cmp_depth : nat := 4.

(** One position. *)
Definition cmp_at (hshape attr lvl : Z) (is_n : bool) (o orig_o : ops) (idx taint_len : Z) : stage rq_st bool :=
  set_status 0;;
  or_else
    (if is_n then
       or_else
         (attempt (negb (v0N o =? v0N orig_o) && negb (v0N orig_o =? v1N orig_o))
            (cmp_extend_encodingN idx taint_len lvl 2 hshape (v0N o) (v1N o) (v0N orig_o) (v1N orig_o) attr true))
         (attempt (negb (v1N o =? v1N orig_o) && negb (v1N orig_o =? v0N orig_o))
            (cmp_extend_encodingN idx taint_len lvl 2 hshape (v1N o) (v0N o) (v1N orig_o) (v0N orig_o)
               (SWAPA attr) true))
     else mret false)
    (or_else
       (attempt ((negb (v0 o =? v0 orig_o) || (lvl >=? LVL3)) && negb (v0 orig_o =? v1 orig_o))
          (cmp_extend_encoding idx taint_len lvl cmp_depth hshape (v0 o) (v1 o) (v0 orig_o) (v1 orig_o) attr true))
       (set_status 0;;
        attempt ((negb (v1 o =? v1 orig_o) || (lvl >=? LVL3)) && negb (v0 orig_o =? v1 orig_o))
          (cmp_extend_encoding idx taint_len lvl cmp_depth hshape (v1 o) (v0 o) (v1 orig_o) (v0 orig_o)
             (SWAPA attr) true))).

(** What is learnt from an entry. *)
Definition learn (sz : Z) (is_n found : bool) (o orig_o : ops) : stage rq_st unit :=
  when (negb found || rc_ascii c)
    (if is_n then
       (t ← unfound_or_text found (le_bytes 16 (v0N o)) sz;
        when t (try_to_add_to_dictN (v0N o) sz));;
       t ← unfound_or_text found (le_bytes 16 (v1N o)) sz;
       when t (try_to_add_to_dictN (v1N o) sz)
     else
       let same a b := a' ← load (le_bytes 8 a) 0 sz; b' ← load (le_bytes 8 b) 0 sz; Some (bool_decide (a' = b')) in
       (e ← within (same (v0 o) (v0 orig_o));
        t ← (if (e : bool) then unfound_or_text found (le_bytes 8 (v0 o)) sz else mret false);
        when t (try_to_add_to_dict (v0 o) sz));;
       e ← within (same (v1 o) (v1 orig_o));
       t ← (if (e : bool) then unfound_or_text found (le_bytes 8 (v1 o)) sz else mret false);
       when t (try_to_add_to_dict (v1 o) sz)).

(** Operands that stay the same, grow by one and fall by one from entry to entry. *)
Record looping := Looping {
  fixed0 : bool; fixed1 : bool; inc0 : bool; inc1 : bool; dec0 : bool; dec1 : bool
}.
Definition detect (prev : option ops) (o : ops) (d : looping) : looping :=
  match prev with
  | None => d
  | Some p =>
      Looping (fixed0 d && (v0 p =? v0 o)) (fixed1 d && (v1 p =? v1 o))
        (inc0 d && (u64 (v0 p + 1) =? v0 o)) (inc1 d && (u64 (v1 p + 1) =? v1 o))
        (dec0 d && (u64 (v0 p - 1) =? v0 o)) (dec1 d && (u64 (v1 p - 1) =? v1 o))
  end.
Definition is_loop (loggeds : Z) (d : looping) : bool :=
  (loggeds >? 3) && ((fixed0 d && inc1 d) || (fixed1 d && inc0 d) || (fixed0 d && dec1 d) || (fixed1 d && dec0 d)).

(** An earlier entry with the same operands. *)
Definition repeated (o : ops) (seen : list ops) : bool :=
  existsb (fun p => (v0 p =? v0 o) && (v1 p =? v1 o)) seen.

(** The entries [i], [i + 1], ...; [seen]: the ones before, the last one first. *)
Fixpoint cmp_entries (n : nat) (i : Z) (l orig_l : list Z) (h : cmp_header) (lvl : Z) (taint : list tainted)
  (seen : list ops) (d : looping) (found : bool) : stage rq_st (looping * bool) :=
  match n with
  | O => mret (d, found)
  | S n =>
      let hshape := SHAPE_BYTES (shape h) in
      let is_n := negb ((hshape =? 1) || (hshape =? 2) || (hshape =? 4) || (hshape =? 8)) in
      o ← within (get_ops l i);
      let d := detect (head seen) o d in
      orig_o ← within (get_ops orig_l i);
      found ← (if repeated o seen then mret found
               else
                 f ← scan_taints (seqZ 0 len) (rev taint) (cmp_at hshape (attribute h) lvl is_n o orig_o);
                 learn hshape is_n (found || f) o orig_o;;
                 mret (found || f));
      cmp_entries n (i + 1) l orig_l h lvl taint (o :: seen) d found
  end.

(** [afl->pass_stats[key]] after an attempt. *)
Definition pass_update (loop found : bool) (p : Z * Z) : Z * Z :=
  let '(total, faileds) := if loop then (255, 255) else p in
  let faileds := if negb found && (faileds <? 255) then faileds + 1 else faileds in
  (if total <? 255 then total + 1 else total, faileds).

Definition cmp_fuzz (m orig_m : cmp_map) (key lvl : Z) (taint : list tainted) : stage rq_st unit :=
  let h := header m key in
  if SHAPE_BYTES (shape h) <? 2 then mret tt
  else
    let loggeds := if hits h >? CMP_MAP_H then CMP_MAP_H else hits h in
    '(d, found) ← cmp_entries (Z.to_nat loggeds) 0 (entries m key) (entries orig_m key) h lvl taint []
                    (Looping true true true true true true) false;
    p ← look r_pass;
    set_pass (<[key := pass_update (is_loop loggeds d) found (default (0, 0) (p !! key))]> p).
End Redqueen.
Arguments rq_st : clear implicits.
