(* ===== verification/RedqueenRtn.v ===== *)
(** * Input-to-state replacement for compared memory, and the stage

    [rtn_extend_encoding], [rtn_fuzz] and [input_to_state_stage] of
    [src/afl-fuzz-redqueen.c], and [common_fuzz_cmplog_stuff] of [src/afl-fuzz-cmplog.c].
    The arguments of a function like [memcmp] are logged as two arrays of 32 bytes and their
    lengths; the entry is kept as the bytes from its start to the end of the log of the key, so
    that an index behind an array reads what follows it. *)

From stdpp Require Import gmap.
From S2P Require Import Prelude Res Rng TextCheck Extras Tmin Mutations Stage Color Encode Redqueen.

Section Rtn.
Context {W R : Type} `{Fuzzer W} `{RandSource R} `{Qsort} `{CmplogHost W}.
Abbreviation st := (rq_st W R).
Context (c : rq_cfg) (orig_buf : list Z) (len : Z).

(** ** The lengths of the arguments *)

(** An argument: where it starts in the entry. *)
Definition arg_off (second : bool) : Z := if second then 32 else 0.
Definition len_off (second : bool) : Z := if second then 65 else 64.

Definition cut (l : Z) : Z := if l >=? 0x80 then l - 0x80 else l.

(** [MAX(l0, ol0)] after the corrections; [second]: the second argument is the pattern. *)
Definition rtn_lmax (hshape : Z) (o orig_o : list Z) (second : bool) : option Z :=
  l0 ← get o (len_off second); ol0 ← get orig_o (len_off second);
  l1 ← get o (len_off (negb second)); ol1 ← get orig_o (len_off (negb second));
  let '(l0, l1, ol0, ol1) :=
    if (l0 >=? 0x80) || (ol0 >=? 0x80) then (cut l0, cut l1, cut ol0, cut ol1) else (l0, l1, ol0, ol1) in
  let bad l := (l =? 0) || (l >? 32) in
  Some (if bad l0 || bad l1 || bad ol0 || bad ol1 then hshape else Z.max l0 ol0).

(** ** Direct matches *)

Section Encoding.
Context (o orig_o : list Z) (second : bool).

Definition pattern (i : Z) : stage st Z := within (get o (arg_off second + i)).
Definition repl (i : Z) : stage st Z := within (get o (arg_off (negb second) + i)).
Definition o_pattern (i : Z) : stage st Z := within (get orig_o (arg_off second + i)).
Definition changed_val (i : Z) : stage st Z := within (get orig_o (arg_off (negb second) + i)).
Definition buf_at (i : Z) : stage st Z := b ← look r_buf; within (get b i).
Definition orig_at (i : Z) : stage st Z := within (get orig_buf i).
Definition set_at (i v : Z) : stage st unit := b ← look r_buf; b ← within (put b i v); set_buf b.

Definition run_buf : stage st unit := b ← look r_buf; its_fuzz c len b.

(** Byte after byte is replaced while the pattern goes on, up to [i = n]; where it stopped. *)
Fixpoint rtn_match (n : nat) (i idx : Z) : stage st Z :=
  match n with
  | O => mret i
  | S n =>
      p ← pattern i; b ← buf_at (idx + i); op ← o_pattern i; ob ← orig_at (idx + i);
      st ← look r_status;
      if negb (p =? b) || negb (op =? ob) || (st =? 1) then mret i
      else
        r ← repl i;
        set_at (idx + i) r;;
        run_buf;;
        st ← look r_status;
        (if st =? 1 then bs ← buf_load idx i; cbuf_store idx bs else mret tt);;
        rtn_match n (i + 1) idx
  end.

(** [save] holds the bytes from [saved_idx - to] on. *)
Definition rtn_from (save : list Z) (saved_idx saved_its_len to pre : Z) : stage st unit :=
  st ← look r_status;
  if st =? 1 then mret tt
  else
    same ← (if pre =? 0 then mret true
            else
              b ← buf_load (saved_idx - pre) pre;
              r ← within (load o (arg_off (negb second)) pre);
              mret (bool_decide (b = r)));
    when same
      (i ← rtn_match (Z.to_nat (saved_its_len + pre)) 0 (saved_idx - pre);
       bs ← within (load save (to - pre) i);
       buf_store (saved_idx - pre) bs).

(** ** Transformations *)

(** The counters and flags of the loop, and its arrays. *)
Record tr := Tr {
  n_toupper : Z; n_tolower : Z; n_xor : Z; n_arith : Z; n_tohex : Z; n_fromhex : Z;
  n_tob64 : Z; n_fromb64 : Z;
  from_0 : Z; from_x : Z; from_X : bool; from_slash : Z;
  to_0 : Z; to_x : Z; to_slash : Z; to_up : Z;
  xor_val : list Z; arith_val : list Z
}.
Definition tr0 : tr := Tr 0 0 0 0 0 0 0 0 0 0 false 0 0 0 0 0 [] [].

Definition upper_hex (b : Z) : bool := (65 <=? b) && (b <=? 70).
Definition lower_hex (b : Z) : bool := (97 <=? b) && (b <=? 102).

(** The letter case of two hexadecimal digits. *)
Definition hex_case (a b up : Z) : Z :=
  let up := if upper_hex a then 1 else if lower_hex a then 2 else up in
  if upper_hex b then 1 else if lower_hex b then 2 else up.

(** Prefixes like 0x. *)
Definition tr_prefix (i ob r : Z) (t : tr) : tr :=
  let mk f0 fx fX fs t0 tx ts :=
    Tr (n_toupper t) (n_tolower t) (n_xor t) (n_arith t) (n_tohex t) (n_fromhex t) (n_tob64 t) (n_fromb64 t)
      f0 fx fX fs t0 tx ts (to_up t) (xor_val t) (arith_val t) in
  if i =? 0 then
    mk (if ob =? 48 then 1 else from_0 t) (from_x t) (from_X t) (if ob =? 92 then 1 else from_slash t)
       (if r =? 48 then 1 else to_0 t) (to_x t) (if r =? 92 then 1 else to_slash t)
  else if i =? 1 then
    mk (from_0 t) (if (ob =? 120) || (ob =? 88) then 1 else from_x t) ((ob =? 88) || from_X t) (from_slash t)
       (to_0 t) (if (r =? 120) || (r =? 88) then 1 else to_x t) (to_slash t)
  else t.

(** The counters of text encodings; [from_up] is computed but never read. *)
Definition tr_text (idx i : Z) (t : tr) : option tr :=
  let ro := arg_off (negb second) in
  let mk tohex up fromhex tob64 fromb64 :=
    Tr (n_toupper t) (n_tolower t) (n_xor t) (n_arith t) tohex fromhex tob64 fromb64
      (from_0 t) (from_x t) (from_X t) (from_slash t) (to_0 t) (to_x t) (to_slash t) up (xor_val t) (arith_val t) in
  if negb (rc_xtreme c) then Some t
  else
    th ← (if i <? 16 then is_hex o (ro + 2 * i) else Some false);
    up ← (if (th : bool) && (to_up t =? 0) then
            a ← get o (ro + 2 * i); b ← get o (ro + 2 * i + 1); Some (hex_case a b 0)
          else Some (to_up t));
    fh ← (if (i mod 2 =? 1) && (len >? idx + i + 1) then is_hex orig_buf (idx + i - 1) else Some false);
    tb ← (if (i mod 3 =? 2) && (i <? 24) then is_base64 o (ro + 4 * (i / 3)) else Some false);
    fb ← (if (i mod 4 =? 3) && (i <? 24) then is_base64 orig_buf (idx + i - 3) else Some false);
    Some (mk (n_tohex t + b2z th) up (n_fromhex t + 2 * b2z fh) (n_tob64 t + 3 * b2z tb) (n_fromb64 t + 4 * b2z fb)).

(** The counters of xor, addition and letter case. *)
Definition tr_values (p b op ob : Z) (t : tr) : tr :=
  let x := Z.lxor p b in
  let a := u8 (p - b) in
  Tr (n_toupper t + b2z ((Z.land b 0x5a =? p) && (Z.land ob 0x5a =? op)))
     (n_tolower t + b2z ((Z.lor b 0x20 =? p) && (Z.lor ob 0x20 =? op)))
     (n_xor t + b2z ((Z.lxor op ob =? x) && z2b x))
     (n_arith t + b2z ((op - ob =? a) && z2b a))
     (n_tohex t) (n_fromhex t) (n_tob64 t) (n_fromb64 t)
     (from_0 t) (from_x t) (from_X t) (from_slash t) (to_0 t) (to_x t) (to_slash t) (to_up t)
     (xor_val t ++ [x]) (arith_val t ++ [a]).

(** [for (j = 0; j <= i; j++) buf[idx + j] = f(j); its_fuzz(...)] *)
Definition rewrite_run (idx i : Z) (f : Z -> Z -> option Z) : stage st unit :=
  each (seqZ 0 (i + 1)) (fun j => r ← repl j; v ← within (f j r); set_at (idx + j) v);;
  run_buf.

(** [tmp] at 0, and [n] bytes of it to [buf + idx]. *)
Definition tmp_store (bs : list Z) : stage st unit :=
  t ← look r_tmp; t ← within (store t 0 bs); set_tmp t.
Definition put_tmp (idx n : Z) : stage st unit :=
  t ← look r_tmp; bs ← within (load t 0 n); buf_store idx bs.

Definition try_fromb64 (idx its_len i : Z) (t : tr) : stage st unit :=
  when (rc_xtreme c && (i mod 4 =? 3) && (i <? 24) && (n_fromb64 t >? i))
    (each (seqZ i (its_len + 1 - i)) (fun hlen =>
       when (hlen + idx <? len)
         (tmp ← look r_tmp;
          '(res, tmp) ← within (to_base64 (drop (Z.to_nat (arg_off (negb second))) o) tmp hlen);
          set_tmp tmp;;
          when (res + idx <? len) (put_tmp idx res;; run_buf)))).

Definition try_tob64 (idx i : Z) (t : tr) : stage st unit :=
  when (rc_xtreme c && (i mod 3 =? 2) && (i <? 24) && (n_tob64 t >? i))
    (tmp ← look r_tmp;
     '(olen, tmp) ← within (from_base64 (drop (Z.to_nat (arg_off (negb second))) o) tmp (i + 1));
     set_tmp tmp;;
     put_tmp idx olen;;
     run_buf).

Definition hex_digit (b : Z) : option Z := get hex_table (b - 48).

Definition try_tohex (idx i : Z) (t : tr) : stage st unit :=
  when (rc_xtreme c && (i <? 16) && (n_tohex t >? i))
    (let off := if to_slash t + to_x t + to_0 t =? 2 then 2 else 0 in
     tmp ← each_with (seqZ 0 (i + 1)) (fun j tmp =>
             a ← repl (off + 2 * j); b ← repl (off + 2 * j + 1);
             x ← within (hex_digit a); y ← within (hex_digit b);
             mret (tmp ++ [u8 (Z.shiftl x 4 + y)])) [];
     tmp_store tmp;;
     put_tmp idx (i + 1);;
     run_buf).

(** The digits of [repl[0 ... n]] behind a prefix. *)
Definition hex_text (prefix : list Z) (n up : Z) : stage st (list Z) :=
  let table := if up =? 1 then hex_table_up else hex_table_low in
  each_with (seqZ 0 (n + 1)) (fun j tmp =>
    r ← repl j;
    x ← within (get table (Z.shiftr r 4)); y ← within (get table (r mod 16));
    mret (tmp ++ [x; y])) prefix.

Definition try_fromhex (save : list Z) (idx i : Z) (t : tr) : stage st unit :=
  when (rc_xtreme c && (i mod 2 =? 1) && (i <? 16) && z2b (n_fromhex t)
        && (n_fromhex t + from_slash t + from_x t + from_0 t >? i))
    (let prefix :=
       if z2b (from_slash t) && z2b (from_x t) then [92; if from_X t then 88 else 120]
       else if z2b (from_0 t) && z2b (from_x t) then [48; if from_X t then 88 else 120]
       else [] in
     each [i; 2 * i] (fun hlen =>
       when (hlen + idx <? len)
         (tmp ← hex_text prefix (Z.shiftr hlen 1) (to_up t);
          let tmp_l := hlen + 1 + zlen prefix in
          tmp_store tmp;;
          put_tmp idx tmp_l;;
          run_buf;;
          (t ← look r_tmp; t ← within (put t tmp_l 0); set_tmp t);;
          old ← within (load save 0 tmp_l);
          buf_store idx old))).

(** The condition under which the loop is left. *)
Definition tr_give_up (i : Z) (t : tr) : bool :=
  (i >=? 7)
  && ((i >=? n_xor t) && (i >=? n_arith t) && (i >=? n_tolower t) && (i >=? n_toupper t) && (i >? n_tohex t)
      && (i >? n_fromhex t + from_0 t + from_x t + from_slash t + 1)
      && (rc_xtreme c && (i >? n_tob64 t + 3) && (i >? n_fromb64 t + 4))).

(** The loop over the bytes, from [i] on; where it stopped. *)
Fixpoint transforms (n : nat) (i idx its_len : Z) (save : list Z) (t : tr) : stage st Z :=
  match n with
  | O => mret i
  | S n =>
      p ← pattern i; b ← buf_at (idx + i); op ← o_pattern i; ob ← orig_at (idx + i); r ← repl i;
      t ← within (tr_text idx i (tr_prefix i ob r t));
      let t := tr_values p b op ob t in
      try_fromb64 idx its_len i t;;
      try_tob64 idx i t;;
      try_tohex idx i t;;
      try_fromhex save idx i t;;
      when (n_xor t >? i) (rewrite_run idx i (fun j r => x ← get (xor_val t) j; Some (Z.lxor r x)));;
      when (n_arith t >? i) (unless_found (rewrite_run idx i (fun j r => x ← get (arith_val t) j; Some (u8 (r - x)))));;
      when (n_toupper t >? i) (unless_found (rewrite_run idx i (fun _ r => Some (Z.lor r 0x20))));;
      when (n_tolower t >? i) (unless_found (rewrite_run idx i (fun _ r => Some (Z.land r 0x5f))));;
      st ← look r_status;
      (if st =? 1 then bs ← buf_load idx (i + 1); cbuf_store idx bs else mret tt);;
      cv ← changed_val i;
      if tr_give_up i t || negb (r =? cv) || (st =? 1) then mret i
      else transforms n (i + 1) idx its_len save t
  end.

(** [rtn_extend_encoding] *)
Definition rtn_extend_encoding (hshape lvl idx taint_len : Z) : stage st unit :=
  lmax ← within (rtn_lmax hshape o orig_o second);
  let its_len := Z.min (Z.min (Z.min lmax hshape) (u32 (len - idx))) taint_len in
  if its_len <=? 1 then mret tt
  else
    let lvl3 := z2b (Z.land lvl LVL3) in
    same ← (if lvl3 then
              a ← within (load orig_o (arg_off (negb second)) its_len);
              b ← within (load o (arg_off (negb second)) its_len);
              mret (bool_decide (a = b))
            else mret true);
    if negb same then mret tt
    else
      let to := if lvl3 then Z.min 4 idx else 0 in
      let from := if lvl3 && negb (z2b (Z.land lvl LVL1)) && z2b to then 1 else 0 in
      save ← buf_load (idx - to) (its_len + to);
      each (seqZ from (to + 1 - from)) (rtn_from save idx its_len to);;
      st ← look r_status;
      if st =? 1 then mret tt
      else when (rc_transform c && lvl3)
        (save2 ← buf_load idx its_len;
         i ← transforms (Z.to_nat its_len) 0 idx its_len
               (save2 ++ drop (Z.to_nat its_len) (save ++ drop (length save) (rc_junk c))) tr0;
         bs ← within (load save2 0 i);
         buf_store idx bs).
End Encoding.

(** ** A key of the log *)

(** [strlen] *)
Fixpoint strlen (m : list Z) (n : Z) : option Z :=
  match m with
  | [] => None
  | b :: m => if b =? 0 then Some n else strlen m (n + 1)
  end.

(** The length of an argument for the dictionary, and whether to add it. *)
Definition rtn_learn (o orig_o : list Z) (shape_len : Z) (found : bool) : stage st unit :=
  let text_len m := t ← (if rc_ascii c then Some true else is_text m shape_len);
                    if (t : bool) then n ← strlen m 0; Some (if z2b n then n else shape_len) else Some shape_len in
  v0_len ← within (text_len o);
  v1_len ← within (text_len (drop 32 o));
  let add m om n :=
    a ← within (load m 0 n); b ← within (load om 0 n);
    t ← (if bool_decide (a = b) then mret true else unfound_or_text found m n);
    when t (add_auto a) in
  add o orig_o v0_len;;
  add (drop 32 o) (drop 32 orig_o) v1_len.

Definition rtn_at (hshape lvl : Z) (o orig_o : list Z) (idx taint_len : Z) : stage st bool :=
  set_status 0;;
  or_else (attempt true (rtn_extend_encoding o orig_o false hshape lvl idx taint_len))
    (set_status 0;; attempt true (rtn_extend_encoding o orig_o true hshape lvl idx taint_len)).

Fixpoint rtn_entries (n : nat) (i : Z) (l orig_l : list Z) (hshape lvl : Z) (taint : list tainted)
  (found : bool) : stage st bool :=
  match n with
  | O => mret found
  | S n =>
      let at_i m := drop (Z.to_nat (operands_size * i)) m in
      f ← scan_taints (seqZ 0 len) (rev taint) (rtn_at hshape lvl (at_i l) (at_i orig_l));
      let found := found || f in
      when ((negb found && z2b (Z.land lvl LVL1)) || rc_ascii c)
        (rtn_learn (at_i l) (at_i orig_l) hshape found);;
      rtn_entries n (i + 1) l orig_l hshape lvl taint found
  end.

Definition rtn_fuzz (m orig_m : cmp_map) (key lvl : Z) (taint : list tainted) : stage st unit :=
  let h := header m key in
  let hshape := SHAPE_BYTES (shape h) in
  if hshape <? 2 then mret tt
  else
    let loggeds := if hits h >? CMP_MAP_RTN_H then CMP_MAP_RTN_H else hits h in
    found ← rtn_entries (Z.to_nat loggeds) 0 (entries m key) (entries orig_m key) hshape lvl taint false;
    p ← look r_pass;
    set_pass (<[key := pass_update false found (default (0, 0) (p !! key))]> p).

(** ** The stage *)

(** [common_fuzz_cmplog_stuff] after [write_to_testcase]: the log of a run that starts with the
    log [m]; [None]: return 1. *)
Definition run_cmplog (x : list Z) (m : cmp_map) : stage (Stage.env W R) (option cmp_map) := fun e =>
  let '(fault, m, w) := cmplog_run_target (e_fuzzer e) x m in
  let e := with_fuzzer w e in
  if stop_requested w then Next None e
  else
    let tmout := bool_decide (fault = FSRV_RUN_TMOUT) in
    let n := e_subseq_tmouts e in
    let e := with_tmouts (if tmout then u32 (n + 1) else 0) e in
    if tmout && (n >? TMOUT_LIMIT) then Next None (skip_item e)
    else if skip_requested w then Next None (skip_item (with_fuzzer (clear_skip_request w) e))
    else Next (Some m) e.

Definition common_fuzz_cmplog_stuff (out_buf : list Z) (m : cmp_map) : stage (Stage.env W R) (option cmp_map) :=
  let write fix_ := within (write_to_testcase (rc_min_length c) (rc_max_length c) out_buf len fix_) in
  x ← write false;
  x ← (if zlen x =? 0 then write true else mret x);
  run_cmplog x m.

Definition CMPLOG_FAIL_MAX : Z := 96.
Definition CMPLOG_LVL_MAX : Z := 3.

(** The value of a call that may return 1 ([None]). *)
Definition returned {A} (m : stage st A) : stage st (option A) := fun s =>
  match m s with
  | Next a s => Next (Some a) s
  | Abandon s => Next None s
  | Leave s => Leave s
  | Fatal => Fatal
  | OutOfBounds => OutOfBounds
  | NoRandom => NoRandom
  | Unfinished => Unfinished
  end.

(** Comparisons that failed too often get no hits. *)
Definition disable (p : gmap Z (Z * Z)) (m : cmp_map) (k : Z) : cmp_map :=
  let h := header m k in
  let '(total, faileds) := default (0, 0) (p !! k) in
  if z2b (hits h) && ((faileds >=? CMPLOG_FAIL_MAX) || (total >=? CMPLOG_FAIL_MAX)) then
    CmpMap (<[k := CmpHeader 0 (shape h) (type h) (attribute h)]> (headers m)) (log m)
  else m.

(** One key of the insertion loop. *)
Definition its_key (m orig_m : cmp_map) (lvl : Z) (taint : list tainted) (k : Z) : stage st unit :=
  let h := header m k in
  if negb (z2b (hits h)) then mret tt
  else if type h =? CMP_TYPE_INS then cmp_fuzz c orig_buf len m orig_m k lvl taint
  else when (z2b (Z.land lvl LVL1) || (z2b (Z.land lvl LVL3) && rc_transform c)) (rtn_fuzz m orig_m k lvl taint).

(** What was found is tried together: the virgin bits are those from before the stage for this
    run, and what was seen is taken out of them again. *)
Definition combine (virgin_backup : list Z) : stage st unit :=
  virgin_save ← look (fun s => virgin_bits (e_fuzzer (r_env s)));
  lift (fun e => Next tt (with_fuzzer (set_virgin_bits (e_fuzzer e) virgin_backup) e));;
  b ← look r_cbuf;
  returned (its_fuzz c len b);;
  lift (fun e =>
    let v := virgin_bits (e_fuzzer e) in
    let n := (8 * (length v / 8))%nat in
    Next tt (with_fuzzer (set_virgin_bits (e_fuzzer e) (zip_with Z.land (take n v) (take n virgin_save) ++ drop n v)) e)).

(** From the first run with the log to the end; the result is the value that is returned.  The
    second run starts with headers that are zero and the operands of the first. *)
Definition its_stage (cmplog_lvl colorized : Z) (taint : list tainted) : stage st bool :=
  m ← lift (common_fuzz_cmplog_stuff orig_buf (CmpMap ∅ ∅));
  match m with
  | None => mret true
  | Some orig_m =>
      b ← look r_buf;
      m ← lift (common_fuzz_cmplog_stuff b (CmpMap ∅ (log orig_m)));
      match m with
      | None => mret true
      | Some m =>
          orig_hit_cnt ← look (fun s => hit_cnt (e_fuzzer (r_env s)));
          let lvl := (if z2b colorized then 0 else LVL1) + (if cmplog_lvl =? CMPLOG_LVL_MAX then LVL3 else 0) in
          cb ← look r_cbuf;
          x ← within (load orig_buf 0 len);
          cb ← within (store (afl_realloc cb (len + 128)) 0 x);
          set_cbuf cb;;
          virgin_backup ← look (fun s => virgin_bits (e_fuzzer (r_env s)));
          p ← look r_pass;
          let m := foldl (disable p) m (seqZ 0 CMP_MAP_W) in
          r ← returned (each (seqZ 0 CMP_MAP_W) (its_key m orig_m lvl taint));
          hit ← look (fun s => hit_cnt (e_fuzzer (r_env s)));
          when (hit >? orig_hit_cnt + 1) (combine virgin_backup);;
          mret (match r with Some _ => false | None => true end)
      end
  end.

(** [input_to_state_stage]: the value returned, [queue_cur->colorized] and
    [afl->colorize_success] afterwards.  [cached]: the fields [taint] and [cmplog_colorinput] of
    the queue entry, if both are set; they are freed at the end.  [r_buf] is the variable [buf];
    when 1 is returned it is not looked at again. *)
Definition input_to_state_stage `{ColorHost W} (cc : co_cfg) (fuel : nat) (cached : option (list tainted * list Z))
  (colorized success : Z) : stage st (bool * Z * Z) :=
  let finish taint success :=
    r ← its_stage (cc_cmplog_lvl cc) colorized taint; mret (r, CMPLOG_LVL_MAX, success) in
  match cached with
  | Some (taint, b) => set_buf b;; finish taint success
  | None =>
      b ← look r_buf;
      r ← returned (lift (colorization cc fuel b len success));
      match r with
      | None => mret (true, colorized, success)
      | Some (b, [], success) => set_buf b;; mret (false, CMPLOG_LVL_MAX, success)
      | Some (b, taint, success) => set_buf b;; finish taint success
      end
  end.
End Rtn.
