(* ===== verification/RedqueenFacts.v ===== *)
(** * Input-to-state replacement for comparisons: lemmas *)

From stdpp Require Import gmap.
From S2P Require Import Prelude Res Rng TextCheck Extras ExtrasFacts ExtrasAuto Tmin Mutations MutationsFacts MutationsOps Stage StageFacts Color Encode EncodeFacts Redqueen.

Section Facts.
Context {W R : Type} `{Fuzzer W} `{RandSource R} `{Qsort} `{CmplogHost W}.
Abbreviation st := (rq_st W R).
Context (c : rq_cfg) (orig_buf : list Z) (len : Z).

(** What the target is given when [len] bytes of [b] are run. *)
Definition given (b : list Z) : list Z := slice b 0 (Z.min len (rc_max_length c)).

(** Running [x] leads from fuzzers with [I] to fuzzers with [I']. *)
Definition run_to (I I' : W -> Prop) (x : list Z) : Prop := forall e : Stage.env W R,
  I (e_fuzzer e) ->
  goes (run_written x) e (fun _ e' => I' (e_fuzzer e') /\ e_rng e' = e_rng e /\ e_extras e' = e_extras e).

(** What is asked of the rest: the inputs keep the fuzzer consistent. *)
Definition run_law (inputs : list Z -> Prop) (I : W -> Prop) : Prop := forall x, inputs x -> run_to I I x.

Record rq_pre : Prop := RqPre {
  rp_len : 1 <= len <= 2 ^ 30;
  rp_min : rc_min_length c <= len;
  rp_max : 1 <= rc_max_length c;
  rp_orig : len <= zlen orig_buf
}.

Context (Hpre : rq_pre).

(** ** The state *)

Record rq_inv (I : W -> Prop) (s : st) : Prop := RqInv {
  rv_buf : len <= zlen (r_buf s) <= 2 ^ 31;
  rv_bytes : bytes_ok (r_buf s);
  rv_cbuf : len <= zlen (r_cbuf s);
  rv_scratch : bytes_ok (r_scratch s);
  rv_dict : by_len (x_extras (e_extras (r_env s))) /\ auto_ok (e_extras (r_env s));
  rv_fuzzer : I (e_fuzzer (r_env s))
}.

(** The colored input is as before; [cbuf] was changed at positions with [P] at most. *)
Record kept (I : W -> Prop) (P : Z -> Prop) (s s' : st) : Prop := Kept {
  kp_inv : rq_inv I s';
  kp_buf : r_buf s' = r_buf s;
  kp_zlen : zlen (r_cbuf s') = zlen (r_cbuf s);
  kp_cbuf : forall i : nat, ~ P (Z.of_nat i) -> r_cbuf s' !! i = r_cbuf s !! i;
  kp_tmp : r_tmp s' = r_tmp s;
  kp_pass : r_pass s' = r_pass s
}.

(** The same of a state in which the entry was given up: [buf] may be left changed. *)
Record gone (I : W -> Prop) (P : Z -> Prop) (s s' : st) : Prop := Gone {
  gn_fuzzer : I (e_fuzzer (r_env s'));
  gn_zlen : zlen (r_cbuf s') = zlen (r_cbuf s);
  gn_cbuf : forall i : nat, ~ P (Z.of_nat i) -> r_cbuf s' !! i = r_cbuf s !! i
}.

Lemma kept_gone I P s s' : kept I P s s' -> gone I P s s'.
Proof. intros [[] ? ? ? ? ?]. by split. Qed.
Lemma gone_trans I P s1 s2 s3 : r_cbuf s2 = r_cbuf s1 \/ gone I P s1 s2 -> gone I P s2 s3 -> gone I P s1 s3.
Proof.
  intros Hc [G1 G2 G3]. split; [done|..].
  - destruct Hc as [Hc|[]]; congruence.
  - intros i Hi. rewrite G3 by done. destruct Hc as [->|[]]; auto.
Qed.

Lemma kept_refl I P s : rq_inv I s -> kept I P s s.
Proof. by split. Qed.
Lemma kept_trans I I' P s1 s2 s3 : kept I P s1 s2 -> kept I' P s2 s3 -> kept I' P s1 s3.
Proof. intros [] []. split; try done; try congruence. intros i Hi. rewrite kp_cbuf1 by done. auto. Qed.
Lemma kept_status I P s n : rq_inv I s -> kept I P s (RqSt (r_buf s) (r_cbuf s) (r_scratch s) n (r_tmp s) (r_pass s) (r_env s)).
Proof. intros []. by split. Qed.
Lemma kept_wider I (P P' : Z -> Prop) s s' : (forall i, P i -> P' i) -> kept I P s s' -> kept I P' s s'.
Proof. intros HP []. split; try done. intros i Hi. apply kp_cbuf0. auto. Qed.
Lemma gone_wider I (P P' : Z -> Prop) s s' : (forall i, P i -> P' i) -> gone I P s s' -> gone I P' s s'.
Proof. intros HP []. split; try done. intros i Hi. apply gn_cbuf0. auto. Qed.

(** ** Running *)

Lemma good_look {A} (f : st -> A) s (Q : A -> st -> Prop) G : Q (f s) s -> good (look f) s Q G.
Proof. done. Qed.

Lemma good_lift {A} (m : stage (Stage.env W R) A) (s : st) (Q : A -> st -> Prop) (G : st -> Prop) :
  good m (r_env s) (fun a e => Q a (with_renv e s)) (fun e => G (with_renv e s)) -> good (lift m) s Q G.
Proof. unfold good, lift. by destruct (m (r_env s)). Qed.

Lemma good_load {A} (m : list A) off n (s : st) (Q : list A -> st -> Prop) G :
  0 <= off -> 0 <= n -> off + n <= zlen m -> Q (slice m off n) s -> good (within (load m off n)) s Q G.
Proof. intros. rewrite load_Some by lia. by apply good_within. Qed.
Lemma good_store {A} (m : list A) off bs (s : st) (Q : list A -> st -> Prop) G :
  0 <= off -> off + zlen bs <= zlen m -> Q (splice_at m off bs) s -> good (within (store m off bs)) s Q G.
Proof. intros. rewrite store_Some by lia. by apply good_within. Qed.

(** A run by itself does not give up the entry. *)
Lemma run_written_good x (e : Stage.env W R) Q G : goes (run_written x) e Q -> good (run_written x) e Q G.
Proof. unfold goes, good, run_written. repeat case_match; try done. Qed.

Lemma its_fuzz_env I I' b (s : st) : run_to I I' (given b) -> len <= zlen b -> I (e_fuzzer (r_env s)) ->
  good (its_fuzz c len b) s
    (fun _ s' => exists n e', s' = RqSt (r_buf s) (r_cbuf s) (r_scratch s) n (r_tmp s) (r_pass s) e' /\
       I' (e_fuzzer e') /\ e_extras e' = e_extras (r_env s))
    (fun s' => exists e', s' = with_renv e' s /\ I' (e_fuzzer e')).
Proof.
  intros HL Hb HI. destruct Hpre as [Hl Hmin Hmax _]. unfold its_fuzz. apply good_bind, good_look. apply good_bind, good_lift.
  unfold common_fuzz_stuff, write_to_testcase. rewrite (proj2 (Z.ltb_ge len (rc_min_length c))) by lia. cbn [andb].
  assert ((if len >? rc_max_length c then rc_max_length c else len) = Z.min len (rc_max_length c)) as ->.
  { destruct (_ >? _) eqn:E; b2p; lia. }
  rewrite load_Some by lia. apply good_bind, good_within. eapply good_mono; [by apply run_written_good, HL|].
  intros r e' (HI'&_&Hx). destruct r; [by exists e'|]. apply good_bind, good_look. unfold good, set_status. by eexists _, e'.
Qed.

Lemma its_fuzz_ok I I' b P s : run_to I I' (given b) -> len <= zlen b -> rq_inv I s ->
  good (its_fuzz c len b) s (fun _ s' => kept I' P s s') (gone I' P s).
Proof.
  intros HL Hb [V1 V2 V3 V4 VD V5]. eapply good_weaken; [by apply (its_fuzz_env I I')|..].
  - intros ? s' (n&e'&->&HI&Hx). split; try done. split; cbn; by rewrite ?Hx.
  - intros s' (e'&->&HI). by split.
Qed.

(** ** Operations that leave [buf] as it was *)

Lemma good_trans {A B} I I' P (m : stage st A) (k : A -> stage st B) s :
  good m s (fun _ s' => kept I P s s') (gone I' P s) ->
  (forall a s', kept I P s s' -> good (k a) s' (fun _ s'' => kept I' P s' s'') (gone I' P s')) ->
  (forall w, I w -> I' w) ->
  good (m ≫= k) s (fun _ s' => kept I' P s s') (gone I' P s).
Proof.
  intros Hm Hk HI. apply good_bind. eapply good_mono; [exact Hm|]. intros a s' K. eapply good_weaken; [by apply Hk|..].
  - intros ? s'' K'. exact (kept_trans _ _ _ _ _ _ K K').
  - intros s'' G. eapply gone_trans; [right|exact G]. destruct (kept_gone _ _ _ _ K). split; auto.
Qed.

Section Tidy.
Context (I : W -> Prop) (buf : list Z) (P : Z -> Prop).

Definition tidy {A} (m : stage st A) : Prop := forall s, rq_inv I s -> r_buf s = buf ->
  good m s (fun _ s' => kept I P s s') (gone I P s).

Lemma tidy_ret {A} (a : A) : tidy (mret a).
Proof. intros s Hs _. by apply good_ret, kept_refl. Qed.
Lemma tidy_bind {A B} (m : stage st A) (k : A -> stage st B) : tidy m -> (forall a, tidy (k a)) -> tidy (m ≫= k).
Proof.
  intros Hm Hk s Hs Hb. apply (good_trans I I); [by apply Hm| |done]. intros a s1 K1.
  apply Hk; [apply K1|by rewrite (kp_buf _ _ _ _ K1)].
Qed.
Lemma tidy_seq {A} (m : stage st unit) (k : stage st A) : tidy m -> tidy k -> tidy (m;; k).
Proof. intros Hm Hk. by apply tidy_bind. Qed.
Lemma tidy_when b m : (b = true -> tidy m) -> tidy (when b m).
Proof. intros Hm. destruct b; [by apply Hm|apply tidy_ret]. Qed.
Lemma tidy_look {A B} (f : st -> A) (k : A -> stage st B) : (forall a, tidy (k a)) -> tidy (look f ≫= k).
Proof. intros Hk s Hs Hb. apply good_bind, good_look. by apply Hk. Qed.
Lemma tidy_unless m : tidy m -> tidy (unless_found m).
Proof. intros Hm. apply tidy_look. intros n. destruct (n =? 1); [apply tidy_ret|done]. Qed.
Lemma tidy_status n : tidy (set_status n).
Proof. intros s Hs _. unfold good, set_status. by apply kept_status. Qed.
Lemma tidy_load {A B} (o : option A) (k : A -> stage st B) a : o = Some a -> tidy (k a) -> tidy (within o ≫= k).
Proof. intros ->. done. Qed.
Lemma tidy_buf_load {A} off n (k : _ -> stage st A) : 0 <= off -> 0 <= n -> off + n <= len ->
  tidy (k (slice buf off n)) -> tidy (buf_load off n ≫= k).
Proof.
  intros H1' H2' H3' Hk s Hs Hb. apply good_bind. unfold buf_load. apply good_bind, good_look.
  rewrite Hb, load_Some by (try lia; rewrite <- Hb; destruct Hs; lia). by apply good_within, Hk.
Qed.
Lemma tidy_orig_load {A} off n (k : _ -> stage st A) : 0 <= off -> 0 <= n -> off + n <= len ->
  tidy (k (slice orig_buf off n)) -> tidy (within (load orig_buf off n) ≫= k).
Proof. intros Ho Hn Hz Hk. eapply tidy_load; [|exact Hk]. destruct Hpre. apply load_Some; lia. Qed.
End Tidy.

Lemma tidy_wider {A} I buf (P P' : Z -> Prop) (m : stage st A) : (forall i, P i -> P' i) -> tidy I buf P m -> tidy I buf P' m.
Proof. intros HP Hm s Hs Hb. eapply good_weaken; [by apply Hm|..]; intros; [by eapply kept_wider|by eapply gone_wider]. Qed.

(** At most [n] bytes from [idx] on are replaced. *)
Definition patched (buf : list Z) (idx n : Z) (x : list Z) : Prop :=
  exists bs, bytes_ok bs /\ zlen bs <= 17 /\ zlen bs <= n /\ x = given (splice_at buf idx bs).

(** A number is written at [idx], and something follows. *)
Definition numbered (buf : list Z) (idx : Z) (x : list Z) : Prop :=
  exists text rest, zlen text <= 31 /\ bytes_ok text /\ bytes_ok rest /\ x = given (slice buf 0 idx ++ text ++ rest).

Section Encoding.
Context (idx taint_len lvl : Z) (Hidx : 0 <= idx < len).
Abbreviation its_len := (its_len len idx taint_len).
Abbreviation spot := (fun i => idx <= i < idx + Z.max 0 its_len).
Context (buf : list Z).

Lemma its_len_le : its_len <= len - idx.
Proof. destruct Hpre as [Hl _ _ _]. unfold Redqueen.its_len. rewrite wrap_small by (unfold in_width; lia). lia. Qed.

Lemma splice_back {A} (m bs : list A) off : 0 <= off -> off + zlen bs <= zlen m ->
  splice_at (splice_at m off bs) off (slice m off (zlen bs)) = m.
Proof.
  intros Ho Hz. pose proof (zlen_nonneg bs). assert (zlen (slice m off (zlen bs)) = zlen bs) as Hs by (apply zlen_slice; lia).
  apply list_eq. intros i. destruct (decide (off <= Z.of_nat i < off + zlen bs)).
  - rewrite lookup_splice_eq by (rewrite ?zlen_splice_at; lia). unfold slice. rewrite lookup_take_lt, lookup_drop by lia. f_equal. lia.
  - rewrite !lookup_splice_ne by (rewrite ?zlen_splice_at; lia). done.
Qed.

Lemma try_bytes_ok I I' bs s : bytes_ok bs -> zlen bs <= its_len -> run_to I I' (given (splice_at buf idx bs)) ->
  rq_inv I s -> r_buf s = buf -> good (try_bytes c len idx bs) s (fun _ s' => kept I' spot s s') (gone I' spot s).
Proof.
  intros Hbs Hz Hrun Hs Hb. pose proof its_len_le. pose proof (zlen_nonneg bs). unfold try_bytes.
  pose proof Hs as [V1 V2 V3 V4 VD V5]. rewrite Hb in V1, V2.
  apply good_bind. unfold buf_load. apply good_bind, good_look. rewrite Hb. apply good_load; [lia..|].
  apply good_bind. unfold buf_store at 1. apply good_bind, good_look. rewrite Hb. apply good_bind, good_store; [lia..|].
  unfold good at 1, set_buf at 1. set (s1 := RqSt _ _ _ _ _ _ _). apply good_bind, good_look. apply good_bind.
  assert (rq_inv I s1) as Hs1.
  { split; cbn; try done; [rewrite zlen_splice_at; lia|by apply Forall_splice_at]. }
  eapply good_weaken; [apply (its_fuzz_ok I I' _ spot); [done|cbn; rewrite zlen_splice_at; lia|done]|..].
  2: { intros s2. apply gone_trans. by left. }
  intros ? s2 [I2 B2 Z2 C2 T2 P2]. pose proof I2 as [U1 U2 U3 U4 UD U5]. apply good_bind, good_look. apply good_bind.
  assert (forall s3 : st, rq_inv I' s3 -> r_buf s3 = r_buf s1 -> zlen (r_cbuf s3) = zlen (r_cbuf s) -> r_tmp s3 = r_tmp s -> r_pass s3 = r_pass s ->
    (forall i : nat, ~ (idx <= Z.of_nat i < idx + Z.max 0 its_len) -> r_cbuf s3 !! i = r_cbuf s !! i) ->
    good (buf_store idx (slice buf idx (zlen bs))) s3 (fun _ s' => kept I' spot s s') (gone I' spot s)) as Hend.
  { intros s3 I3 B3 Z3 T3 P3 C3. unfold buf_store. apply good_bind, good_look. rewrite B3. cbn.
    apply good_bind, good_store; [rewrite ?zlen_splice_at, ?zlen_slice; lia..|]. rewrite splice_back by lia.
    unfold good, set_buf. destruct I3. split; cbn; try done; split; cbn; congruence || lia || done. }
  destruct (r_status s2 =? 1).
  - unfold cbuf_store. apply good_bind, good_look. cbn in Z2. apply good_bind, good_store; [lia..|].
    unfold good at 1, set_cbuf. apply Hend; cbn; try done.
    + split; cbn; try done. rewrite zlen_splice_at; lia.
    + rewrite zlen_splice_at; lia.
    + intros i Hi. rewrite lookup_splice_ne by (cbv beta in Hi; lia). by apply C2.
  - apply good_ret, Hend; done.
Qed.

Context (I : W -> Prop) (inputs : list Z -> Prop) (HL : run_law inputs I).
Context (Hin : forall x, patched buf idx its_len x \/ numbered buf idx x -> inputs x).
Abbreviation neat := (tidy I buf spot).

Lemma try_bytes_neat bs : bytes_ok bs -> zlen bs <= 17 -> zlen bs <= its_len -> neat (try_bytes c len idx bs).
Proof.
  intros Hbs H17 Hz s Hs Hb. pose proof its_len_le. apply (try_bytes_ok I I); auto. apply HL, Hin. left. exists bs. split_and!; [done|done|lia|done].
Qed.

Lemma take_splice {A} (m bs : list A) off k : 0 <= k <= off -> off <= zlen m ->
  take (Z.to_nat k) (splice_at m off bs) = take (Z.to_nat k) m.
Proof. intros Hk Hz. unfold splice_at. rewrite take_app_le by (rewrite length_take; unfold zlen in *; lia). rewrite take_take. f_equal. lia. Qed.

Lemma afl_realloc_bytes b n : bytes_ok b -> bytes_ok (afl_realloc b n).
Proof. intros Hb. unfold afl_realloc. destruct (_ <=? _); [done|]. apply Forall_app. split; [done|]. apply Forall_replicate. by unfold in_width. Qed.

(** The head and the number of [out_scratch_buf]. *)
Lemma number_head (t hd text tl : list Z) : zlen hd + zlen text + zlen tl <= zlen t ->
  let t1 := splice_at (splice_at t 0 hd) (zlen hd) text in
  take (Z.to_nat (zlen hd + zlen text)) (splice_at t1 (zlen hd + zlen text) tl) = hd ++ text.
Proof.
  intros Hz t1. pose proof (zlen_nonneg hd). pose proof (zlen_nonneg text). pose proof (zlen_nonneg tl).
  assert (zlen (splice_at t 0 hd) = zlen t) as Z1 by (apply zlen_splice_at; lia).
  assert (zlen t1 = zlen t) as Z2 by (unfold t1; rewrite zlen_splice_at; lia).
  rewrite take_splice by lia. unfold t1.
  pose proof (splice_next t 0 hd text ltac:(lia) ltac:(lia)) as Hn. rewrite Z.add_0_l in Hn. rewrite Hn.
  pose proof (slice_splice_same t 0 (hd ++ text)) as Hs. rewrite zlen_app, slice_0 in Hs. apply Hs; lia.
Qed.

Lemma try_number_neat text old_len : bytes_ok text -> 1 <= zlen text <= 31 -> 0 <= old_len <= len - idx ->
  neat (try_number c len idx text old_len).
Proof.
  intros Ht Hz Ho s Hs Hb. pose proof Hs as [V1 V2 V3 V4 VD V5]. destruct Hpre as [Hl _ _ _]. rewrite Hb in V1, V2. unfold try_number.
  apply good_bind, good_look. rewrite Hb. apply good_bind, good_look. cbv zeta.
  assert (len + zlen text <= zlen (afl_realloc (r_scratch s) (len + zlen text))) as Hr by (apply afl_realloc_room; lia).
  pose proof (afl_realloc_bytes (r_scratch s) (len + zlen text) V4) as Hrb. set (t := afl_realloc _ _) in *. clearbody t.
  apply good_bind, good_load; [lia..|]. set (hd := slice buf 0 idx).
  assert (zlen hd = idx) as Zh by (apply zlen_slice; lia). apply good_bind, good_store; [lia..|].
  assert (zlen (splice_at t 0 hd) = zlen t) as Z1 by (apply zlen_splice_at; lia).
  apply good_bind, good_store; [lia..|]. set (t1 := splice_at (splice_at t 0 hd) idx text).
  assert (zlen t1 = zlen t) as Z2 by (unfold t1; rewrite zlen_splice_at; lia).
  apply good_bind, good_load; [lia..|]. set (tl := slice buf (idx + old_len) (len - idx - old_len)).
  assert (zlen tl = len - idx - old_len) as Zt by (apply zlen_slice; lia).
  apply good_bind, good_store; [lia..|]. set (t2 := splice_at t1 (idx + zlen text) tl).
  assert (zlen t2 = zlen t) as Z3 by (unfold t2; rewrite zlen_splice_at; lia).
  assert (take (Z.to_nat (idx + zlen text)) t2 = hd ++ text) as Htake.
  { rewrite <- Zh. unfold t2, t1. rewrite <- Zh. apply number_head. lia. }
  assert (bytes_ok t2) as B2 by (unfold t2, t1, tl, hd; repeat apply Forall_splice_at; auto using Forall_slice).
  destruct (get_Some t2 (idx + zlen text)) as [d Hd]; [lia|]. rewrite Hd. apply good_bind, good_within. apply good_bind.
  assert (exists t3, (if isdigit d then put t2 (idx + zlen text) 32 else Some t2) = Some t3 /\ zlen t3 = zlen t /\ bytes_ok t3 /\
    take (Z.to_nat (idx + zlen text)) t3 = hd ++ text) as (t3&->&Z4&B3&T3).
  { destruct (isdigit d); [|by exists t2]. rewrite put_splice by lia. eexists. split; [done|].
    split; [rewrite zlen_splice_at; rewrite ?zlen_one; lia|]. split; [apply Forall_splice_at; [done|by repeat constructor]|].
    by rewrite take_splice by lia. }
  apply good_within. apply good_bind. unfold good at 1, set_scratch. set (s1 := RqSt _ _ t3 _ _ _ _).
  assert (rq_inv I s1) as I1 by (split; cbn; rewrite ?Hb; done).
  eapply good_weaken; [apply (its_fuzz_ok I I t3 spot s1); [|lia|done]|..].
  - apply HL, Hin. right. exists text, (drop (Z.to_nat (idx + zlen text)) t3). split_and!; [lia|done|by apply Forall_drop|].
    unfold given. f_equal. rewrite app_assoc. fold hd. rewrite <- T3. symmetry. apply take_drop.
  - intros ? s2 [I2 K2 K3 K4 K5 K6]. by split.
  - intros s2. apply gone_trans. by left.
Qed.

Lemma ascii_number_neat pattern repl : neat (ascii_number c len idx pattern repl).
Proof.
  unfold ascii_number. apply tidy_buf_load; [lia..|]. set (str := slice buf idx (len - idx)).
  assert (forall t n b, (t = snprintf_dec 32 (s64 repl) \/ t = snprintf_dec 32 repl) -> 0 <= n <= len - idx ->
    neat (if b : bool then try_number c len idx t n else mret tt)) as Hn.
  { intros t n b Ht Hn. destruct b; [|apply tidy_ret].
    assert (bytes_ok t /\ 1 <= zlen t <= 31) as [? ?] by (destruct Ht as [-> | ->]; apply snprintf_dec_ok; lia).
    by apply try_number_neat. }
  destruct (strntoll _ str _) as [[num n]|] eqn:E.
  - apply strntoll_spec in E; [|lia]. apply Hn; auto.
  - destruct (strntoull _ str _) as [[num n]|] eqn:E'; [|apply tidy_ret]. apply strntoull_spec in E'; [|lia]. apply Hn; auto.
Qed.
(** *** The encodings of an operand *)

Lemma neat_word_bytes w v : 0 <= w <= 17 -> w <= its_len -> neat (try_bytes c len idx (le_bytes (Z.to_nat w) v)).
Proof. intros Hw Hi. apply try_bytes_neat; [apply le_bytes_ok|..]; rewrite zlen_le_bytes; lia. Qed.

Lemma byte_count_le n v : 0 <= byte_count n v <= Z.of_nat n.
Proof. revert v. induction n as [|n IH]; intros v; cbn [byte_count]; [lia|]. destruct (v =? 0); [lia|]. specialize (IH (Z.shiftr v 8)). lia. Qed.

Lemma scale_big_len v : 0 <= (scale_big v).2 <= 17.
Proof. unfold scale_big. pose proof (byte_count_le 16 v). cbv zeta. cbn [snd]. destruct (_ >=? _) eqn:E; b2p; lia. Qed.

Lemma scale64_len v ch : 0 <= (scale64 v ch).2 <= 17.
Proof. unfold scale64. cbv zeta. repeat case_match; try apply scale_big_len; cbn [snd]; lia. Qed.

Lemma scale128_len v p : scale128 v = Some p -> 0 <= p.2 <= 17.
Proof. unfold scale128. cbv zeta. repeat case_match; intros; simplify_eq; try apply scale_big_len; cbn [snd]; lia. Qed.

Lemma scale_encoding_neat repl ch attr : neat (scale_encoding c len idx taint_len lvl repl ch attr).
Proof.
  unfold scale_encoding. apply tidy_when. intros _. pose proof (scale64_len repl ch) as Hl. destruct (scale64 repl ch) as [v n].
  apply tidy_when. intros Hn. b2p. apply neat_word_bytes; cbn in *; lia.
Qed.

(** The recursive calls with these arguments leave [buf] as it was. *)
Definition neat_self (self : encoder) (attr : Z) (rev : bool) : Prop :=
  forall h p r o ch, neat (self h p r o ch attr rev).

Lemma direct_neat self w swap h p r o ch attr rev : (w <= 8)%nat ->
  (rev = true -> neat_self self attr false) ->
  neat (direct c orig_buf len idx taint_len self w swap h p r o ch attr rev).
Proof.
  intros Hw Hself. unfold direct. apply tidy_look. intros n. destruct (_ && _); [|apply tidy_ret]. apply tidy_seq.
  - destruct (_ >=? _) eqn:E; [|apply tidy_ret]. b2p. pose proof its_len_le. apply tidy_buf_load; [lia..|]. apply tidy_orig_load; [lia..|].
    apply tidy_when. intros _. rewrite <- (Nat2Z.id w). apply neat_word_bytes; lia.
  - apply tidy_unless, tidy_when. intros Hr. by apply Hself.
Qed.

Lemma transform_magic_neat self h bytes p r o : 2 <= bytes <= 8 -> bytes <= len - idx ->
  neat_self self IS_TRANSFORM true -> neat (transform_magic orig_buf idx self h bytes p r o).
Proof.
  intros Hb Hl Hself. unfold transform_magic. cbv zeta. set (w := if bytes <=? 1 then _ else _).
  assert (0 <= w <= bytes) by (unfold w; repeat case_match; b2p; lia).
  apply tidy_buf_load; [lia..|]. apply tidy_orig_load; [lia..|].
  repeat apply tidy_seq; repeat first [apply tidy_unless | apply tidy_when; intros _ | apply Hself | apply tidy_status].
Qed.

Lemma solve_arith_neat self h p r o attr : (0 <= attr < 16 -> neat_self self IS_FP_MOD true) ->
  (0 <= attr < 16 -> neat_self self IS_INT_MOD true) ->
  0 <= attr < 16 \/ In attr [IS_FP_MOD; IS_INT_MOD; IS_TRANSFORM] ->
  neat (solve_arith c len idx taint_len lvl self h p r o attr).
Proof.
  intros Hf Hi [Ha|Ha].
  - specialize (Hf Ha). specialize (Hi Ha). unfold solve_arith. cbv zeta.
    repeat match goal with |- neat (if ?b then _ else _) => destruct b; try apply tidy_ret end.
    + case_match; [|apply tidy_ret]. apply tidy_seq; [apply Hf|]. apply tidy_when. intros _. apply Hf.
    + apply tidy_when. intros _. apply Hi.
  - unfold solve_arith. cbv zeta. assert (z2b (Z.land attr (Z.lor IS_GREATER IS_LESSER)) = false) as ->.
    { destruct Ha as [<-|[<-|[<-|[]]]]; done. }
    destruct (_ || _); apply tidy_ret.
Qed.

(** How deep the calls go: the reversal, and one change of the value. *)
Definition call_depth (attr : Z) (rev : bool) : nat := (if (attr <? 16)%Z then 2 else 0) + (if rev then 1 else 0).

Lemma cmp_extend_ok depth h p r o ch attr rev : (call_depth attr rev < depth)%nat ->
  0 <= attr < 16 \/ In attr [IS_FP_MOD; IS_INT_MOD; IS_TRANSFORM] ->
  neat (cmp_extend_encoding c orig_buf len idx taint_len lvl depth h p r o ch attr rev).
Proof.
  revert h p r o ch attr rev. induction depth as [|depth IH]; intros h p r o ch attr rev Hd Ha; [lia|]. cbn [cmp_extend_encoding].
  set (self := cmp_extend_encoding _ _ _ _ _ _ depth) in *.
  assert (0 <= attr < 16 -> forall a, In a [IS_FP_MOD; IS_INT_MOD; IS_TRANSFORM] -> neat_self self a true) as Hmod.
  { intros Hr a Hin' ?????. apply IH; [|by right]. unfold call_depth in *. rewrite (proj2 (Z.ltb_lt attr 16)) in Hd by lia.
    destruct Hin' as [<-|[<-|[<-|[]]]]; cbn; lia. }
  assert (rev = true -> neat_self self attr false) as Hrev.
  { intros -> ?????. apply IH; [|done]. unfold call_depth in *. lia. }
  destruct Hpre as [Hl _ _ _]. rewrite wrap_small by (unfold in_width; lia).
  assert (1 <= hshape_bytes h <= 8) by (unfold hshape_bytes; repeat case_match; lia).
  destruct (_ <=? 1) eqn:Eb; [apply tidy_ret|]. b2p. apply tidy_seq.
  { apply tidy_when. intros _. apply tidy_seq; [apply ascii_number_neat|]. apply tidy_when. intros Ht. b2p.
    apply transform_magic_neat; [lia..|]. apply Hmod; [|by (do 2 right; left)].
    destruct Ha as [?|Ha]; [done|]. unfold IS_EQUAL, IS_FP_MOD, IS_INT_MOD, IS_TRANSFORM in *. cbn [In] in Ha. lia. }
  destruct (p =? o); [apply tidy_ret|]. apply tidy_seq; [|apply tidy_seq; [apply scale_encoding_neat|]].
  - apply tidy_when. intros _. repeat apply tidy_seq; apply direct_neat; auto; lia.
  - apply solve_arith_neat; [intros; apply Hmod..|]; cbn; auto.
Qed.

Lemma cmp_extendN_ok depth h p r o ch attr (rev : bool) : ((if rev then 1 else 0) < depth)%nat -> 0 <= h <= 16 ->
  neat (cmp_extend_encodingN c orig_buf len idx taint_len lvl depth h p r o ch attr rev).
Proof.
  intros Hd Hh. revert p r o ch rev Hd. induction depth as [|depth IH]; intros p r o ch rev Hd; [lia|]. cbn [cmp_extend_encodingN].
  apply tidy_when. intros Hi. b2p. pose proof its_len_le.
  do 3 (eapply tidy_load; [apply load_Some; rewrite ?zlen_le_bytes; lia|]).
  apply tidy_buf_load; [lia..|]. apply tidy_orig_load; [lia..|]. apply tidy_seq; [|apply tidy_seq].
  - apply tidy_when. intros _. assert (zlen (slice (le_bytes 16 r) 0 h) = h) as Hz by (apply zlen_slice; rewrite ?zlen_le_bytes; lia).
    apply try_bytes_neat; [apply Forall_slice, le_bytes_ok|lia..].
  - apply tidy_unless, tidy_when. intros ->. apply IH. lia.
  - apply tidy_when. intros _. destruct (scale128 r) as [[v n]|] eqn:E; [|apply tidy_ret]. apply scale128_len in E.
    apply tidy_when. intros Hn. b2p. apply neat_word_bytes; cbn in *; lia.
Qed.
End Encoding.
End Facts.
