(* ===== verification/RedqueenMain.v ===== *)
(** * Input-to-state replacement for comparisons: theorems *)

From stdpp Require Import gmap.
From S2P Require Import Prelude Res Rng TextCheck Extras ExtrasFacts ExtrasAuto Tmin Mutations MutationsFacts MutationsOps Stage StageFacts Color ColorFacts Encode EncodeFacts Redqueen RedqueenFacts.

Section Finds.
Context {W R : Type} `{Fuzzer W} `{RandSource R} `{Qsort} `{CmplogHost W}.
Context (c : rq_cfg) (orig_buf : list Z) (len : Z) (Hpre : rq_pre c orig_buf len).
Context (idx taint_len lvl : Z) (Hidx : 0 <= idx < len) (buf : list Z).
Context (I J : W -> Prop) (inputs : list Z -> Prop) (HL : run_law (R:=R) inputs J).
Context (Hin : forall x, patched c len buf idx (its_len len idx taint_len) x \/ numbered c len buf idx x -> inputs x).
Abbreviation spot := (fun i => idx <= i < idx + Z.max 0 (its_len len idx taint_len)).

(** An operation that runs the input with [bs] at [idx] at first. *)
Definition reaches (m : stage (rq_st W R) unit) : Prop := forall s, rq_inv len I s -> r_buf s = buf -> r_status s <> 1 ->
  good m s (fun _ s' => kept len J spot s s') (gone J spot s).

Lemma reaches_seq m k : reaches m -> tidy len J buf spot k -> reaches (m;; k).
Proof.
  intros Hm Hk s Hs Hb Hst. apply (good_trans len J J); [by apply Hm| |done]. intros ? s1 K1.
  apply Hk; [apply K1|by rewrite (kp_buf _ _ _ _ _ K1)].
Qed.

Lemma reaches_direct self (w : nat) swap p r o ch attr rev : Z.of_nat w <= its_len len idx taint_len ->
  slice buf idx (Z.of_nat w) = le_bytes w p -> slice orig_buf idx (Z.of_nat w) = le_bytes w o ->
  run_to (R:=R) I J (given c len (splice_at buf idx (le_bytes w r))) ->
  (rev = true -> forall h p r o ch, tidy len J buf spot (self h p r o ch attr false)) ->
  reaches (direct c orig_buf len idx taint_len self w swap (Z.of_nat w) p r o ch attr rev).
Proof.
  intros Hw Hp Ho Hrun Hself s Hs Hb Hst. unfold direct. apply good_bind, good_look.
  rewrite (proj2 (Z.geb_le _ _)) by lia. rewrite (proj2 (Z.eqb_neq _ _) Hst). cbn [andb negb].
  revert s Hs Hb Hst. apply reaches_seq.
  - intros s Hs Hb _. pose proof (its_len_le c orig_buf len Hpre idx taint_len Hidx). destruct Hpre.
    rewrite (proj2 (Z.geb_le _ _)) by lia. apply good_bind. unfold buf_load. apply good_bind, good_look. rewrite Hb.
    apply good_load; [lia..|destruct Hs; rewrite <- Hb; lia|]. apply good_bind, good_load; [lia..|].
    rewrite Hp, Ho, !le_word_le_bytes, !Z.eqb_refl. cbn [andb orb when].
    eapply (try_bytes_ok c orig_buf len Hpre idx taint_len Hidx buf I J); try done; [apply le_bytes_ok|rewrite zlen_le_bytes; lia].
  - apply tidy_unless, tidy_when. intros Hr. by apply Hself.
Qed.

(** Operands that are too wide are not tried. *)
Lemma direct_skipped self (w : nat) swap h p r o ch attr rev (s : rq_st W R) : h < Z.of_nat w ->
  direct c orig_buf len idx taint_len self w swap h p r o ch attr rev s = Next tt s.
Proof.
  intros Hh. unfold direct, mbind, stage_bind, look. rewrite Z.geb_leb, (proj2 (Z.leb_gt _ _)) by lia. done.
Qed.

Lemma reaches_skip m k : (forall s, m s = Next tt s) -> reaches k -> reaches (m;; k).
Proof. intros Hm Hk s Hs Hb Hst. unfold good, mbind, stage_bind. rewrite Hm. by apply Hk. Qed.

Lemma cmp_extend_reaches depth (w : nat) p r o ch attr rev : In w [2; 4; 8]%nat -> Z.of_nat w <= its_len len idx taint_len ->
  slice buf idx (Z.of_nat w) = le_bytes w p -> slice orig_buf idx (Z.of_nat w) = le_bytes w o -> p <> o ->
  z2b (Z.land lvl LVL1) = true -> rc_transform c && z2b (Z.land lvl LVL3) = false ->
  0 <= attr < 16 -> (call_depth attr rev < depth)%nat ->
  run_to (R:=R) I J (given c len (splice_at buf idx (le_bytes w r))) ->
  reaches (cmp_extend_encoding c orig_buf len idx taint_len lvl depth (Z.of_nat w) p r o ch attr rev).
Proof.
  intros Hw Hwl Hp Ho Hne H1' H3' Ha Hd Hrun. destruct depth as [|depth]; [lia|]. cbn [cmp_extend_encoding].
  pose proof (its_len_le c orig_buf len Hpre idx taint_len Hidx). pose proof Hpre as [Hl _ _ _]. rewrite wrap_small by (unfold in_width; lia).
  assert (2 <= hshape_bytes (Z.of_nat w)) as Hb by (destruct Hw as [<-|[<-|[<-|[]]]]; done).
  rewrite (proj2 (Z.leb_gt _ 1)) by (destruct Hw as [<-|[<-|[<-|[]]]]; lia).
  rewrite H3', (proj2 (Z.eqb_neq p o)) by done. apply reaches_skip; [done|]. rewrite H1'. cbn [orb when].
  set (self := cmp_extend_encoding _ _ _ _ _ _ depth).
  assert (rev = true -> forall h p r o ch, tidy len J buf spot (self h p r o ch attr false)) as Hrev.
  { intros -> ?????. eapply (cmp_extend_ok c orig_buf len Hpre idx taint_len lvl Hidx buf J inputs HL Hin); [|by left].
    unfold call_depth in *. rewrite (proj2 (Z.ltb_lt attr 16)) in * by lia. lia. }
  assert (forall h p r o ch a, In a [IS_FP_MOD; IS_INT_MOD] -> tidy len J buf spot (self h p r o ch a true)) as Hmod.
  { intros ????? a Hin'. eapply (cmp_extend_ok c orig_buf len Hpre idx taint_len lvl Hidx buf J inputs HL Hin).
    - unfold call_depth in *. rewrite (proj2 (Z.ltb_lt attr 16)) in Hd by lia. destruct Hin' as [<-|[<-|[]]]; cbn; lia.
    - right. cbn in *. tauto. }
  assert (forall v swap h p r o ch, (v <= 8)%nat ->
    tidy len J buf spot (direct c orig_buf len idx taint_len self v swap h p r o ch attr rev)) as Hdir.
  { intros. by eapply (direct_neat c orig_buf len Hpre idx taint_len Hidx buf J inputs HL Hin). }
  apply reaches_seq; [|apply tidy_seq].
  - destruct Hw as [<-|[<-|[<-|[]]]].
    + do 2 (apply reaches_skip; [by intros; apply direct_skipped|]). by apply reaches_direct.
    + apply reaches_skip; [by intros; apply direct_skipped|]. apply reaches_seq; [by apply reaches_direct|]. apply Hdir. lia.
    + apply reaches_seq; [by apply reaches_direct|]. apply tidy_seq; apply Hdir; lia.
  - by eapply (scale_encoding_neat c orig_buf len Hpre idx taint_len lvl Hidx buf J inputs HL Hin).
  - eapply (solve_arith_neat c len idx taint_len lvl buf J); [| |by left]; intros _ ?????; apply Hmod; cbn; auto.
Qed.
End Finds.

(** ** Taints in the order of the input *)

Definition taint_end (t : tainted) : Z := t_pos t + t_len t.

Fixpoint ahead (i : Z) (ts : list tainted) : Prop :=
  match ts with
  | [] => True
  | t :: ts => 0 <= t_pos t < taint_end t /\ i < taint_end t /\ ahead (taint_end t) ts
  end.

Lemma ahead_snoc i ts t : ahead i ts -> Forall (fun a => taint_end a < taint_end t) ts -> 0 <= t_pos t < taint_end t -> i < taint_end t ->
  ahead i (ts ++ [t]).
Proof.
  revert i. induction ts as [|a ts IH]; intros i; cbn; [auto|]. intros (H1&H2&H3) [Ha Hts]%Forall_cons_iff H4 H5. auto.
Qed.

Lemma separated_ends hi l : separated hi l -> Forall (fun a => 0 <= t_pos a /\ taint_end a <= hi) l.
Proof.
  revert hi. induction l as [|t l IH]; intros hi; cbn; [auto|]. intros (H1&H2&H3&H4). constructor; [unfold taint_end; lia|].
  eapply Forall_impl; [|exact (IH _ H4)]. intros a [? ?]. unfold taint_end in *. cbv beta in *. lia.
Qed.

Lemma separated_ahead hi l : separated hi l -> ahead 0 (rev l).
Proof.
  revert hi. induction l as [|t l IH]; intros hi; cbn; [auto|]. intros (H1&H2&H3&H4). apply ahead_snoc; [by eapply IH| |unfold taint_end; lia..].
  apply Forall_rev. eapply Forall_impl; [|exact (separated_ends _ _ H4)]. intros a [? ?]. unfold taint_end in *. lia.
Qed.

(** ** A key of the log *)

Section Key.
Context {W R : Type} `{Fuzzer W} `{RandSource R} `{Qsort} `{CmplogHost W}.
Abbreviation st := (rq_st W R).
Context (c : rq_cfg) (orig_buf : list Z) (len : Z) (Hpre : rq_pre c orig_buf len).
Context (buf : list Z) (taint : list tainted) (Hsep : separated len taint).

(** The inputs that are run: the colored one, changed inside of a taint, or with a number there. *)
Definition rq_input (x : list Z) : Prop := exists idx n, 1 <= n /\ (forall i, idx <= i < idx + n -> tainted_at taint i) /\
  (patched c len buf idx n x \/ numbered c len buf idx x).

Context (I : W -> Prop) (HL : run_law (R:=R) rq_input I).
Context (P : Z -> Prop) (HP : forall i, tainted_at taint i -> P i).
Abbreviation neat := (tidy (R:=R) len I buf P).

Lemma scan_neat l i ts f : l = seqZ i (len - i) -> 0 <= i -> ahead i ts -> (forall t, t ∈ ts -> t ∈ taint) ->
  (forall t j, t ∈ taint -> t_pos t <= j < taint_end t -> neat (f j (taint_end t - j))) -> neat (scan_taints l ts f).
Proof.
  intros El Hi Ha Hts Hf. revert i ts El Hi Ha Hts. induction l as [|j l IH]; intros i ts El Hi Ha Hts; cbn [scan_taints]; [apply tidy_ret|].
  assert (i < len) as Hil.
  { destruct (decide (i < len)); [done|]. rewrite seqZ_nil in El by lia. done. }
  rewrite seqZ_cons in El by lia. injection El as -> El. replace (Z.pred (len - i)) with (len - Z.succ i) in El by lia.
  destruct ts as [|t ts]; [apply (IH (Z.succ i)); [done|lia|done|done]|]. destruct Ha as (H1'&H2'&H3').
  pose proof (separated_ends _ _ Hsep) as Hends. destruct Hpre as [Hl _ _ _].
  assert (t ∈ taint) as Ht by (apply Hts; left). pose proof (proj1 (Forall_forall _ _) Hends t ltac:(by apply list_elem_of_In)) as [_ He].
  unfold taint_end in H1', H2', He. destruct (i <? t_pos t) eqn:E; b2p.
  - apply (IH (Z.succ i)); [done|lia|cbn; unfold taint_end; split_and!; (lia || done)|done].
  - rewrite !wrap_small by (unfold in_width; lia). apply tidy_bind; [apply Hf; [done|unfold taint_end; lia]|]. intros [|]; [apply tidy_ret|].
    destruct (_ =? _) eqn:E2; b2p.
    + apply (IH (Z.succ i)); [done|lia|unfold taint_end in *; by replace (Z.succ i) with (t_pos t + t_len t) by lia|].
      intros t' Ht'. apply Hts. by right.
    + apply (IH (Z.succ i)); [done|lia|cbn; unfold taint_end in *; split_and!; (lia || done)|done].
Qed.

Lemma attempt_neat b m : neat m -> neat (attempt b m).
Proof. intros Hm. apply tidy_seq; [by apply tidy_when|]. apply tidy_look. intros. apply tidy_ret. Qed.
Lemma or_else_neat m k : neat m -> neat k -> neat (or_else m k).
Proof. intros Hm Hk. apply tidy_bind; [done|]. intros [|]; [apply tidy_ret|done]. Qed.

Lemma SWAPA_range attr : 0 <= attr < 16 -> 0 <= SWAPA attr < 16.
Proof.
  intros Ha. assert (In attr (seqZ 0 16)) as Hs by (apply list_elem_of_In, elem_of_seqZ; lia).
  revert Hs. apply (proj1 (Forall_forall (fun a => 0 <= SWAPA a < 16) (seqZ 0 16))). vm_compute. repeat constructor; discriminate.
Qed.

Lemma cmp_at_neat hshape attr lvl is_n o orig_o t j : 0 <= hshape <= 16 -> 0 <= attr < 16 -> t ∈ taint -> t_pos t <= j < taint_end t ->
  neat (cmp_at c orig_buf len hshape attr lvl is_n o orig_o j (taint_end t - j)).
Proof.
  intros Hh Ha Ht Hj. pose proof (SWAPA_range attr Ha) as Ha'. pose proof Hpre as [Hl _ _ _].
  pose proof (proj1 (Forall_forall _ _) (separated_ends _ _ Hsep) t ltac:(by apply list_elem_of_In)) as [Hp He].
  assert (its_len len j (taint_end t - j) = taint_end t - j) as Hn by (unfold its_len; rewrite wrap_small by (unfold in_width; lia); lia).
  assert (forall i, j <= i < j + (taint_end t - j) -> tainted_at taint i) as Hspot.
  { intros i Hi. exists t. split; [done|]. unfold taint_end in *. lia. }
  assert (forall x, patched c len buf j (its_len len j (taint_end t - j)) x \/ numbered c len buf j x -> rq_input x) as Hin.
  { intros x Hx. exists j, (taint_end t - j). rewrite Hn in Hx. split_and!; [lia|done|done]. }
  assert (forall p r o ch a, 0 <= a < 16 -> neat (cmp_extend_encoding c orig_buf len j (taint_end t - j) lvl cmp_depth hshape p r o ch a true)) as E1.
  { intros. eapply tidy_wider; [|eapply (cmp_extend_ok c orig_buf len Hpre j _ lvl ltac:(lia) buf I rq_input HL Hin); [|by left]].
    - intros i Hi. apply HP, Hspot. rewrite Hn in Hi. lia.
    - unfold call_depth, cmp_depth. destruct (_ <? _); lia. }
  assert (forall p r o ch a, neat (cmp_extend_encodingN c orig_buf len j (taint_end t - j) lvl 2 hshape p r o ch a true)) as E2.
  { intros. eapply tidy_wider; [|eapply (cmp_extendN_ok c orig_buf len Hpre j _ lvl ltac:(lia) buf I rq_input HL Hin); [lia|done]].
    intros i Hi. apply HP, Hspot. rewrite Hn in Hi. lia. }
  unfold cmp_at. apply tidy_seq; [apply tidy_status|]. apply or_else_neat.
  - destruct is_n; [|apply tidy_ret]. apply or_else_neat; apply attempt_neat, E2.
  - apply or_else_neat; [by apply attempt_neat, E1|]. apply tidy_seq; [apply tidy_status|]. by apply attempt_neat, E1.
Qed.
(** *** The dictionary *)

Lemma add_auto_neat mem : neat (add_auto mem).
Proof.
  intros s [V1 V2 V3 V4 [D1 D2] V5] Hb. unfold add_auto. apply good_lift. unfold good, maybe_add_auto_env.
  pose proof (maybe_add_auto_step (e_extras (r_env s)) mem (e_rng (r_env s)) D1 D2) as Ha.
  destruct (maybe_add_auto _ _ _) as [[x r]|]; [|done]. destruct Ha as (Hok&Hx&_). split; try done. split; try done. cbn. by rewrite Hx.
Qed.

Lemma is_text_total b n : 0 <= n <= zlen b -> exists t, is_text b n = Some t.
Proof.
  intros Hn. unfold is_text, check_if_text_buf. rewrite load_Some by lia. cbn [mbind option_bind].
  destruct (text_loop_total (Z.to_nat n) (slice b 0 n) (Counts 0 0 n)) as (c'&?&->&_); [unfold slice; rewrite length_take; lia|].
  by eexists.
Qed.

Lemma unfound_neat found b n : 0 <= n <= zlen b -> neat (unfound_or_text found b n).
Proof.
  intros Hn s Hs Hb. unfold unfound_or_text. destruct found; [|by apply good_ret, kept_refl].
  destruct (is_text_total b n Hn) as [t ->]. by apply good_within, kept_refl.
Qed.

Lemma dict_neat v sz : 0 <= sz <= 8 -> neat (try_to_add_to_dict v sz).
Proof.
  intros Hsz. unfold try_to_add_to_dict. eapply tidy_load; [apply load_Some; rewrite ?zlen_le_bytes; lia|].
  destruct (boring _ _ _); [apply tidy_ret|]. apply tidy_seq; [apply add_auto_neat|].
  repeat case_match; try apply add_auto_neat. apply tidy_when. intros _. apply add_auto_neat.
Qed.

Lemma dictN_neat v sz : 0 <= sz <= 16 -> neat (try_to_add_to_dictN v sz).
Proof.
  intros Hsz. unfold try_to_add_to_dictN. eapply tidy_load; [apply load_Some; rewrite ?zlen_le_bytes; lia|].
  destruct (boring _ _ _); [apply tidy_ret|]. apply tidy_seq; [apply add_auto_neat|].
  eapply tidy_load; [apply load_Some; rewrite ?zlen_le_bytes; lia|]. apply add_auto_neat.
Qed.

Lemma learn_neat sz (is_n found : bool) o orig_o : 0 <= sz <= (if is_n then 16 else 8) -> neat (learn c sz is_n found o orig_o).
Proof.
  intros Hsz. unfold learn. apply tidy_when. intros _. destruct is_n.
  - apply tidy_seq; (apply tidy_bind; [apply unfound_neat; rewrite zlen_le_bytes; lia|]); intros t; apply tidy_when; intros _; by apply dictN_neat.
  - apply tidy_seq; (eapply tidy_load; [rewrite !load_Some by (rewrite ?zlen_le_bytes; lia); done|]);
      (apply tidy_bind; [case_match; [apply unfound_neat; rewrite zlen_le_bytes; lia|apply tidy_ret]|]);
      intros t; apply tidy_when; intros _; by apply dict_neat.
Qed.

(** *** The entries *)

Lemma get_ops_total l i : zlen l = CMP_MAP_H * operands_size -> 0 <= i < CMP_MAP_H -> exists o, get_ops l i = Some o.
Proof.
  unfold CMP_MAP_H, operands_size. intros Hl Hi. unfold get_ops, operand, operands_size. rewrite !load_Some by lia. by eexists.
Qed.

Lemma cmp_entries_neat n i l orig_l h lvl seen d found :
  zlen l = CMP_MAP_H * operands_size -> zlen orig_l = CMP_MAP_H * operands_size -> 0 <= i -> i + Z.of_nat n <= CMP_MAP_H ->
  0 <= shape h <= 15 -> 0 <= attribute h < 16 -> neat (cmp_entries c orig_buf len n i l orig_l h lvl taint seen d found).
Proof.
  intros Hl Ho Hi Hn Hsh Ha. revert i seen d found Hi Hn. induction n as [|n IH]; intros i seen d found Hi Hn; cbn [cmp_entries]; [apply tidy_ret|].
  destruct (get_ops_total l i) as [o Eo]; [done|lia|]. destruct (get_ops_total orig_l i) as [oo Eoo]; [done|lia|].
  eapply tidy_load; [exact Eo|]. eapply tidy_load; [exact Eoo|]. apply tidy_bind; [|intros f; apply IH; lia].
  destruct (repeated o seen); [apply tidy_ret|]. unfold SHAPE_BYTES. apply tidy_bind.
  - apply (scan_neat _ 0); [by rewrite Z.sub_0_r|lia|by apply (separated_ahead len)|intros t; rewrite !list_elem_of_In; apply in_rev|].
    intros t j Ht Hj. apply cmp_at_neat; [lia|done..].
  - intros f. apply tidy_seq; [|apply tidy_ret]. apply learn_neat. case_match; [lia|]. b2p.
    destruct (_ =? 1) eqn:E1, (_ =? 2) eqn:E2, (_ =? 4) eqn:E4, (_ =? 8) eqn:E8; b2p; try lia; done.
Qed.

(** What is known after a key: only [cbuf] at positions with [P], the dictionary, the scratch
    buffer and the counts of the key may have changed. *)
Definition key_done (key : Z) (h : cmp_header) (s s' : st) : Prop :=
  rq_inv len I s' /\ r_buf s' = r_buf s /\ r_tmp s' = r_tmp s /\ zlen (r_cbuf s') = zlen (r_cbuf s) /\
  (forall i : nat, ~ P (Z.of_nat i) -> r_cbuf s' !! i = r_cbuf s !! i) /\
  (1 <= shape h -> exists loop found, r_pass s' = <[key := pass_update loop found (default (0, 0) (r_pass s !! key))]> (r_pass s)).

Lemma cmp_fuzz_run m orig_m key lvl s :
  zlen (entries m key) = CMP_MAP_H * operands_size -> zlen (entries orig_m key) = CMP_MAP_H * operands_size ->
  0 <= hits (header m key) -> 0 <= shape (header m key) <= 15 -> 0 <= attribute (header m key) < 16 ->
  rq_inv len I s -> r_buf s = buf -> good (cmp_fuzz c orig_buf len m orig_m key lvl taint) s (fun _ s' => key_done key (header m key) s s') (gone I P s).
Proof.
  intros Hl Ho Hh Hs Ha Hi Hb. unfold cmp_fuzz. cbv zeta. unfold SHAPE_BYTES. destruct (_ <? 2) eqn:E2; b2p.
  { apply good_ret. unfold key_done. split_and!; try done. lia. }
  set (n := if hits _ >? _ then _ else _). assert (0 <= n <= CMP_MAP_H) by (unfold n, CMP_MAP_H; destruct (Z.gtb_spec (hits (header m key)) 32); lia).
  apply good_bind. eapply good_mono; [apply cmp_entries_neat; try done; lia|]. intros [d found] s' []. apply good_bind, good_look.
  unfold good, set_pass, key_done. cbn. split_and!; try done.
  - destruct kp_inv. by split.
  - rewrite kp_pass. by eexists _, _.
Qed.
End Key.

(** C14. Input-to-state, at a level with [LVL1] and without transformations, for an
    operand of [w] bytes (the width of the comparison: 2, 4 or 8) and an attribute below
    16: when the bytes of the operand stand at [idx] in the colored input, inside of the
    taint, and those of the operand that the original run had stand there in the
    original, and the two differ, then [cmp_extend_encoding] runs the colored input with
    the other operand in their place: whatever such a run leads to ([J]) holds when it
    returns, or gives the entry up. The colored input is as before then, and [cbuf]
    changed at most from [idx] to the end of the taint; no access leaves a buffer, and
    the recursion ends at the given depth. *)
Theorem cmp_extend_encoding_correct {W R} `{Fuzzer W} `{RandSource R} `{Qsort} `{CmplogHost W}
  c orig_buf len idx taint_len lvl (I J : W -> Prop) inputs depth (w : nat) p r o ch attr rev (s : rq_st W R) :
  rq_pre c orig_buf len -> 0 <= idx < len -> In w [2; 4; 8]%nat -> Z.of_nat w <= its_len len idx taint_len ->
  slice (r_buf s) idx (Z.of_nat w) = le_bytes w p -> slice orig_buf idx (Z.of_nat w) = le_bytes w o -> p <> o ->
  z2b (Z.land lvl LVL1) = true -> rc_transform c && z2b (Z.land lvl LVL3) = false ->
  0 <= attr < 16 -> (call_depth attr rev < depth)%nat ->
  run_to (R:=R) I J (given c len (splice_at (r_buf s) idx (le_bytes w r))) -> run_law (R:=R) inputs J ->
  (forall x, patched c len (r_buf s) idx (its_len len idx taint_len) x \/ numbered c len (r_buf s) idx x -> inputs x) ->
  rq_inv len I s -> r_status s <> 1 ->
  let spot i := idx <= i < idx + Z.max 0 (its_len len idx taint_len) in
  good (cmp_extend_encoding c orig_buf len idx taint_len lvl depth (Z.of_nat w) p r o ch attr rev) s
    (fun _ s' => kept len J spot s s') (gone J spot s).
Proof. intros Hp Hi **. by apply (cmp_extend_reaches c orig_buf len Hp idx taint_len lvl Hi (r_buf s) I J inputs). Qed.

(** C16. [cmp_fuzz] on a key of the log whose operands have at most 16 bytes, with the taints as
    [colorization] leaves them: it ends without leaving a buffer or the log.  Every input that
    is run is the colored one with at most 17 bytes replaced inside of one taint, or with a
    decimal number from a tainted position on.  At the end the colored input is as before,
    [cbuf] was changed inside of the taints only, the dictionary is in order, and the counts of
    this key alone went up; also when the entry is given up, [cbuf] is as said. *)
Theorem cmp_fuzz_correct {W R} `{Fuzzer W} `{RandSource R} `{Qsort} `{CmplogHost W}
  c orig_buf len taint (I : W -> Prop) m orig_m key lvl (s : rq_st W R) :
  rq_pre c orig_buf len -> separated len taint -> run_law (R:=R) (rq_input c len (r_buf s) taint) I ->
  zlen (entries m key) = CMP_MAP_H * operands_size -> zlen (entries orig_m key) = CMP_MAP_H * operands_size ->
  0 <= hits (header m key) -> 0 <= shape (header m key) <= 15 -> 0 <= attribute (header m key) < 16 ->
  rq_inv len I s ->
  good (cmp_fuzz c orig_buf len m orig_m key lvl taint) s
    (fun _ s' => key_done len I (tainted_at taint) key (header m key) s s') (gone I (tainted_at taint) s).
Proof. intros Hp Hs HL **. by apply (cmp_fuzz_run c orig_buf len Hp (r_buf s) taint Hs I HL). Qed.

(** ** Example: a target that compares four bytes with a constant; the fuzzer keeps what it ran *)

#[local] Instance tape_fuzzer : Fuzzer (list (list Z)) := {
  fuzz_run_target w x := (FSRV_RUN_OK, x :: w);
  stop_requested _ := false;
  skip_requested _ := false;
  clear_skip_request w := w;
  trace_cksum _ := 0;
  queued_items _ := 1;
  save_if_interesting w _ _ := Some (0, w);
  get_cur_time w := (0, w)
}.

#[local] Instance tape_host : CmplogHost (list (list Z)) := {
  saved_crashes _ := 0;
  cmplog_run_target w _ m := (FSRV_RUN_OK, m, w);
  virgin_bits _ := [];
  set_virgin_bits w _ := w
}.

Lemma tape_run (I J : list (list Z) -> Prop) x : x <> [] -> (forall w, I w -> J (x :: w)) -> run_to (R:=list Z) I J x.
Proof.
  intros Hx HJ e HI. unfold goes, run_written. destruct x as [|b x]; [done|]. rewrite zlen_cons, (proj2 (Z.eqb_neq _ _)) by (pose proof (zlen_nonneg x); lia).
  cbn. split_and!; [by apply HJ|done..].
Qed.

Lemma tape_law (inputs : list Z -> Prop) (J : list (list Z) -> Prop) :
  (forall x w, J w -> J (x :: w)) -> run_law (R:=list Z) inputs J.
Proof.
  intros HJ x _ e HI. unfold goes, run_written. destruct (zlen x =? 0); [done|]. cbn. split_and!; [by apply HJ|done..].
Qed.

Definition tape_cfg : rq_cfg := RqCfg 1 100 false true true false false false [].
Definition tape_orig : list Z := [9; 1; 2; 3; 4; 9].
Definition tape_buf : list Z := [9; 5; 6; 7; 8; 9].
Definition tape_st : rq_st (list (list Z)) (list Z) :=
  RqSt tape_buf tape_orig [] 0 [] ∅ (Stage.Env [] [] (ExtrasSt [] [] false) 0 0 0).

Lemma tape_pre : rq_pre tape_cfg tape_orig 6.
Proof. by split. Qed.
Lemma tape_inv (I : list (list Z) -> Prop) : I [] -> rq_inv 6 I tape_st.
Proof.
  intros HI. split; try done; [by repeat constructor|]. split; [constructor|]. by repeat constructor.
Qed.

Definition tape_solved (w : list (list Z)) : Prop := In [9; 65; 66; 67; 68; 9] w.

Example cmp_extend_encoding_correct_witness :
  let spot i := 1 <= i < 1 + Z.max 0 (its_len 6 1 4) in
  good (cmp_extend_encoding tape_cfg tape_orig 6 1 4 LVL1 4 (Z.of_nat 4) 0x8070605 0x44434241 0x4030201 0x44434241 1 true) tape_st
    (fun _ s' => kept 6 tape_solved spot tape_st s') (gone tape_solved spot tape_st).
Proof.
  refine (cmp_extend_encoding_correct tape_cfg tape_orig 6 1 4 LVL1 (fun _ => True) tape_solved (fun _ => True)
    4 4 0x8070605 0x44434241 0x4030201 0x44434241 1 true tape_st tape_pre _ _ _ _ _ _ _ _ _ _ _ _ _ _ _).
  - done.
  - cbn. auto.
  - by vm_compute.
  - done.
  - done.
  - done.
  - done.
  - done.
  - done.
  - cbv. lia.
  - apply tape_run; [by vm_compute|]. intros w _. by left.
  - apply tape_law. intros x w Hw. by right.
  - done.
  - by apply tape_inv.
  - done.
Defined.

Definition tape_log (v0 v1 : list Z) : list Z :=
  v0 ++ replicate 28 0 ++ v1 ++ replicate (Z.to_nat (CMP_MAP_H * operands_size) - 36)%nat 0.
Definition tape_map (v0 : list Z) : cmp_map :=
  CmpMap {[7 := CmpHeader 1 3 CMP_TYPE_INS 1]} {[7 := tape_log v0 [65; 66; 67; 68]]}.

Example cmp_fuzz_correct_witness :
  good (cmp_fuzz tape_cfg tape_orig 6 (tape_map [5; 6; 7; 8]) (tape_map [1; 2; 3; 4]) 7 LVL1 [Tainted 1 4]) tape_st
    (fun _ s' => key_done 6 (fun _ => True) (tainted_at [Tainted 1 4]) 7 (CmpHeader 1 3 CMP_TYPE_INS 1) tape_st s')
    (gone (fun _ => True) (tainted_at [Tainted 1 4]) tape_st).
Proof.
  refine (cmp_fuzz_correct tape_cfg tape_orig 6 [Tainted 1 4] (fun _ => True) (tape_map [5; 6; 7; 8]) (tape_map [1; 2; 3; 4]) 7 LVL1 tape_st
    tape_pre _ _ _ _ _ _ _ _); try done.
  - by apply tape_law.
  - by apply tape_inv.
Defined.

(** The inputs that are run, the last one first: four bytes, two of them, and the scale
    encoding; and the colored input afterwards. *)
Example cmp_fuzz_run_inputs :
  match cmp_fuzz tape_cfg tape_orig 6 (tape_map [5; 6; 7; 8]) (tape_map [1; 2; 3; 4]) 7 LVL1 [Tainted 1 4] tape_st with
  | Next _ s => e_fuzzer (r_env s) = [[9; 10; 5; 1; 0; 9]; [9; 65; 66; 7; 8; 9]; [9; 65; 66; 67; 68; 9]] /\ r_buf s = tape_buf
  | _ => False
  end.
Proof. by vm_compute. Qed.
