(* ===== verification/RedqueenStage.v ===== *)
(** * The input-to-state stage: lemmas and theorem

    For the settings without [cmplog_enable_transform], which the option -l asks for: the
    compared memory is matched byte by byte then, and the whole stage is safe.  With it the
    defects at the end of this file arise. *)

From stdpp Require Import gmap.
From S2P Require Import Prelude Res Rng TextCheck Extras ExtrasFacts ExtrasAuto Tmin Mutations MutationsFacts MutationsOps Stage StageFacts Color ColorFacts Encode EncodeFacts Redqueen RedqueenRtn RedqueenFacts RedqueenMain.

Lemma slice_snoc {A} (m : list A) off n x : 0 <= off -> 0 <= n -> get m (off + n) = Some x ->
  slice m off (n + 1) = slice m off n ++ [x].
Proof.
  intros Ho Hn [Hr Hx]%get_inv. rewrite <- slice_app by lia. f_equal. destruct (slice_one m (off + n) Hr) as (b&->&Hb). congruence.
Qed.

Lemma slice_inner {A} (m : list A) k l off n : 0 <= k -> 0 <= off -> 0 <= n -> off + n <= l ->
  slice (slice m k l) off n = slice m (k + off) n.
Proof.
  intros. unfold slice. rewrite skipn_firstn_comm, take_take, drop_drop. f_equal; [lia|]. f_equal. lia.
Qed.

Section Rtn.
Context {W R : Type} `{Fuzzer W} `{RandSource R} `{Qsort} `{CmplogHost W}.
Abbreviation st := (rq_st W R).
Context (c : rq_cfg) (orig_buf : list Z) (len : Z) (Hpre : rq_pre c orig_buf len).
Context (buf : list Z) (taint : list tainted) (Hsep : separated len taint).
Context (Hplain : rc_transform c = false).

(** Inside of a taint, or in the four bytes before it. *)
Definition near (i : Z) : Prop := exists t, t ∈ taint /\ t_pos t - 4 <= i < taint_end t.

Context (inputs : list Z -> Prop) (I : W -> Prop) (HL : run_law (R:=R) inputs I).
Context (Hin : forall b, zlen b = zlen buf -> bytes_ok b -> (forall i : nat, ~ near (Z.of_nat i) -> b !! i = buf !! i) ->
  inputs (given c len b)).
Abbreviation neat := (tidy (R:=R) len I buf near).

Definition rebuf (s : st) : st := RqSt buf (r_cbuf s) (r_scratch s) (r_status s) (r_tmp s) (r_pass s) (r_env s).

Lemma tidy_each {A} (l : list A) f : (forall x, x ∈ l -> neat (f x)) -> neat (each l f).
Proof.
  induction l as [|x l IH]; intros Hf; cbn [each]; [apply tidy_ret|].
  apply tidy_seq; [apply Hf; left|]. apply IH. intros y Hy. apply Hf. by right.
Qed.

Section Entry.
Context (o orig_o : list Z) (second : bool) (Ho : 72 <= zlen o) (Hoo : 72 <= zlen orig_o) (Hob : bytes_ok o).
Abbreviation ro := (arg_off (negb second)).

Lemma arg_off_range b : 0 <= arg_off b <= 32.
Proof. by destruct b. Qed.

Lemma good_get (m : list Z) i (s : st) (Q : Z -> st -> Prop) G : 0 <= i < zlen m ->
  (forall v, get m i = Some v -> Q v s) -> good (within (get m i)) s Q G.
Proof. intros Hi HQ. destruct (get_Some m i Hi) as [v Hv]. rewrite Hv. by apply good_within, HQ. Qed.

(** What is known while the bytes from [base] on are replaced. *)
Definition partly (base i : Z) (s : st) : Prop :=
  r_buf s = splice_at buf base (slice o ro i) /\ rq_inv len I (rebuf s).

Lemma partly_inv base T i s : 0 <= base -> base + T <= len -> 0 <= i <= T -> T <= 36 -> partly base i s ->
  rq_inv len I s /\ zlen (r_buf s) = zlen buf /\ bytes_ok (r_buf s) /\ len <= zlen buf.
Proof.
  intros Hb HT Hi H36 [Eb [V1 V2 V3 V4 VD V5]]. cbn in *. pose proof (arg_off_range (negb second)).
  assert (zlen (slice o ro i) = i) as Hz by (apply zlen_slice; lia).
  assert (bytes_ok (r_buf s)) by (rewrite Eb; apply Forall_splice_at; [done|by apply Forall_slice]).
  assert (zlen (r_buf s) = zlen buf) as Hzb by (rewrite Eb, zlen_splice_at; lia).
  split_and!; try done; [|lia]. split; try done. lia.
Qed.

Lemma partly_kept base i s1 s2 : partly base i s1 -> kept len I near s1 s2 ->
  partly base i s2 /\ kept len I near (rebuf s1) (rebuf s2).
Proof.
  intros [E1 [V1 V2 V3 V4 VD V5]] [[U1 U2 U3 U4 UD U5] K2 K3 K4 K5 K6]. cbn in *.
  assert (rq_inv len I (rebuf s2)) by (split; cbn; try done; lia).
  split; [split; [congruence|done]|by split].
Qed.

(** What was found is kept in [cbuf]. *)
Lemma collect_found (b : bool) base i T j s G : 0 <= base -> base + T <= len -> 0 <= i <= T -> T <= 36 -> 0 <= j <= T ->
  (forall k, base <= k < base + T -> near k) -> partly base j s ->
  good (if b then bs ← buf_load base i; cbuf_store base bs else mret tt) s
    (fun _ s' => partly base j s' /\ kept len I near (rebuf s) (rebuf s')) G.
Proof.
  intros Hb HT Hi H36 Hj Hnear Hp. destruct (partly_inv base T j s) as (Hs&Hzb&_&Hlb); [lia..|done|]. pose proof Hp as [Eb Hr].
  destruct b; [|apply good_ret; split; [done|by apply kept_refl]].
  apply good_bind. unfold buf_load. apply good_bind, good_look. apply good_load; [lia..|]. unfold cbuf_store. apply good_bind, good_look.
  pose proof Hs as [V1 V2 V3 V4 VD V5]. assert (zlen (slice (r_buf s) base i) = i) as Hz by (apply zlen_slice; lia).
  apply good_bind, good_store; [lia..|]. unfold good, set_cbuf. set (s' := RqSt _ _ _ _ _ _ _).
  assert (zlen (r_cbuf s') = zlen (r_cbuf s)) as Hc by (cbn; rewrite zlen_splice_at; lia).
  assert (rq_inv len I (rebuf s')) as Hr' by (destruct Hr; cbn in *; split; cbn; try done; lia).
  split; [by split|]. split; try done. intros k Hk. cbn. apply lookup_splice_ne; [lia..|].
  destruct (decide (base <= Z.of_nat k < base + T)); [by destruct Hk; apply Hnear|lia].
Qed.

Lemma rtn_match_ok base T n i s : 0 <= base -> base + T <= len -> T <= 36 -> i + Z.of_nat n = T -> 0 <= i ->
  (forall j, base <= j < base + T -> near j) -> partly base i s ->
  good (rtn_match c orig_buf len o orig_o second n i base) s
    (fun i' s' => i <= i' <= T /\ partly base i' s' /\ kept len I near (rebuf s) (rebuf s')) (gone I near s).
Proof.
  intros Hb HT H36 Hn Hi Hnear. revert i s Hn Hi. induction n as [|n IH]; intros i s Hn Hi Hp; cbn [rtn_match].
  { apply good_ret. split; [lia|]. split; [done|]. apply kept_refl, Hp. }
  destruct (partly_inv base T i s) as (Hs&Hzb&Hbb&Hlb); [lia..|done|]. pose proof Hp as [Eb Hr].
  pose proof (arg_off_range second). pose proof (arg_off_range (negb second)). destruct Hpre as [Hl _ _ Horig].
  assert (zlen (slice o ro i) = i) as Hz by (apply zlen_slice; lia).
  unfold pattern, buf_at, o_pattern, orig_at, repl. apply good_bind, good_get; [lia|]. intros p _.
  apply good_bind, good_bind, good_look. apply good_get; [lia|]. intros b _. apply good_bind, good_get; [lia|]. intros op _.
  apply good_bind, good_get; [lia|]. intros ob _. apply good_bind, good_look.
  destruct (_ || _); [apply good_ret; split; [lia|]; split; [done|]; apply kept_refl, Hp|].
  apply good_bind, good_get; [lia|]. intros r Hrb. apply good_bind. unfold set_at. apply good_bind, good_look.
  rewrite put_splice by lia. apply good_bind, good_within. unfold good at 1, set_buf. set (s1 := RqSt _ _ _ _ _ _ _).
  assert (partly base (i + 1) s1) as Hp1.
  { split; [|done]. cbn. rewrite (slice_snoc o ro i r) by (done || lia). rewrite Eb.
    rewrite <- splice_next by (rewrite ?zlen_one; lia). by rewrite Hz. }
  destruct (partly_inv base T (i + 1) s1) as (Hs1&Hzb1&Hbb1&_); [lia..|done|]. apply good_bind. unfold run_buf. apply good_bind, good_look.
  eapply good_weaken; [eapply (its_fuzz_ok c orig_buf len Hpre I I _ near s1); [|lia|done]|..].
  { apply HL, Hin; [done|done|]. intros j Hj. rewrite (proj1 Hp1).
    assert (zlen (slice o ro (i + 1)) = i + 1) by (apply zlen_slice; lia).
    apply lookup_splice_ne; [lia..|]. destruct (decide (base <= Z.of_nat j < base + T)); [by destruct Hj; apply Hnear|lia]. }
  2: { intros s2. apply gone_trans. by left. }
  intros ? s2 K.
  assert (partly base (i + 1) s2 /\ kept len I near (rebuf s) (rebuf s2)) as [Hp2 K2] by by apply (partly_kept base (i + 1) s1).
  apply good_bind, good_look. apply good_bind. eapply good_mono; [apply (collect_found _ base i T (i + 1) s2); [lia..|done|done]|]. intros ? s3 (Hp3&K3).
  eapply good_weaken; [apply IH; [lia..|done]|..].
  - intros i' s' (Hi'&Hp'&K'). split; [lia|]. split; [done|]. eapply kept_trans; [|exact K']. eapply kept_trans; [exact K2|exact K3].
  - intros s' G. eapply gone_trans; [|exact G]. right. destruct (kept_gone _ _ _ _ _ (kept_trans _ _ _ _ _ _ _ K2 K3)). by split.
Qed.

Lemma rtn_from_neat idx its_len to pre : 0 <= pre <= to -> to <= 4 -> to <= idx -> 0 <= its_len <= 32 -> idx + its_len <= len ->
  (forall j, idx - to <= j < idx + its_len -> near j) ->
  neat (rtn_from c orig_buf len o orig_o second (slice buf (idx - to) (its_len + to)) idx its_len to pre).
Proof.
  intros Hp H4 Hto H32 Hl Hnear. pose proof (arg_off_range (negb second)). unfold rtn_from. apply tidy_look. intros n. destruct (_ =? 1); [apply tidy_ret|].
  apply tidy_bind.
  { destruct (pre =? 0); [apply tidy_ret|]. apply tidy_buf_load; [lia..|]. eapply tidy_load; [apply load_Some; lia|]. apply tidy_ret. }
  intros b. apply tidy_when. intros _. intros s Hs Hb. apply good_bind.
  assert (forall s0 : st, r_buf s0 = buf -> rebuf s0 = s0) as Hre by (intros [] ?; cbn in *; by subst).
  eapply good_mono; [apply (rtn_match_ok (idx - pre) (its_len + pre)); try lia|].
  - intros j Hj. apply Hnear. lia.
  - split; [|by rewrite Hre]. rewrite Hb. change (slice o ro 0) with (@nil Z). by rewrite splice_nil.
  - intros i s' (Hi&[Eb Hr']&K). rewrite (Hre s Hb) in K. pose proof Hs as [V1 _ _ _ _ _]. rewrite Hb in V1.
    apply good_bind, good_load; [lia..|rewrite zlen_slice; lia|]. unfold buf_store. apply good_bind, good_look. rewrite Eb.
    assert (zlen (slice o ro i) = i) as Hz by (apply zlen_slice; lia).
    assert (slice (slice buf (idx - to) (its_len + to)) (to - pre) i = slice buf (idx - pre) i) as ->.
    { rewrite slice_inner by lia. f_equal. lia. }
    assert (zlen (slice buf (idx - pre) i) = i) as Hz' by (apply zlen_slice; lia).
    apply good_bind, good_store; [lia|rewrite zlen_splice_at; lia|]. rewrite <- Hz at 2. rewrite splice_back by lia.
    unfold good, set_buf. exact K.
Qed.

Lemma rtn_extend_neat hshape lvl t idx : 2 <= hshape <= 32 -> t ∈ taint -> t_pos t <= idx < taint_end t ->
  neat (rtn_extend_encoding c orig_buf len o orig_o second hshape lvl idx (taint_end t - idx)).
Proof.
  intros Hh Ht Hi. pose proof Hpre as [Hl _ _ _]. pose proof (arg_off_range (negb second)).
  pose proof (proj1 (Forall_forall _ _) (separated_ends _ _ Hsep) t ltac:(by apply list_elem_of_In)) as [Hp He].
  unfold rtn_extend_encoding. assert (exists v, rtn_lmax hshape o orig_o second = Some v) as [lmax E].
  { unfold rtn_lmax. destruct (get_Some o (len_off second)) as [? ->]; [destruct second; cbn; lia|].
    destruct (get_Some orig_o (len_off second)) as [? ->]; [destruct second; cbn; lia|].
    destruct (get_Some o (len_off (negb second))) as [? ->]; [destruct second; cbn; lia|].
    destruct (get_Some orig_o (len_off (negb second))) as [? ->]; [destruct second; cbn; lia|].
    cbn [mbind option_bind]. repeat case_match; by eexists. }
  eapply tidy_load; [exact E|]. rewrite wrap_small by (unfold in_width; lia).
  set (its_len := Z.min _ (taint_end t - idx)). assert (its_len <= 32 /\ its_len <= taint_end t - idx) as [? ?] by (unfold its_len; lia).
  clearbody its_len. destruct (its_len <=? 1) eqn:E1; [apply tidy_ret|]. b2p. apply tidy_bind.
  { destruct (z2b _); [|apply tidy_ret]. do 2 (eapply tidy_load; [apply load_Some; lia|]). apply tidy_ret. }
  intros [|]; [|apply tidy_ret]. cbn [negb]. set (to := if z2b _ then Z.min 4 idx else 0). assert (0 <= to <= 4 /\ to <= idx) as [? ?] by (unfold to; case_match; lia).
  set (from := if _ && _ && _ then 1 else 0). assert (0 <= from <= to + 1) as Hfrom by (unfold from; case_match; lia). clearbody to from.
  apply tidy_buf_load; [lia..|]. apply tidy_seq.
  - apply tidy_each. intros pre Hpre'. apply elem_of_seqZ in Hpre'. apply rtn_from_neat; [lia..|].
    intros j Hj. exists t. split; [done|]. lia.
  - apply tidy_look. intros n. destruct (n =? 1); [apply tidy_ret|]. rewrite Hplain. apply tidy_ret.
Qed.
End Entry.

(** *** A key of compared memory *)

Lemma strlen_some m k n0 : m !! k = Some 0 -> exists n, strlen m n0 = Some n /\ n0 <= n <= n0 + Z.of_nat k.
Proof.
  revert k n0. induction m as [|b m IH]; intros k n0 Hk; [done|]. cbn [strlen]. destruct (b =? 0) eqn:E; b2p; [exists n0; split; [done|lia]|].
  destruct k as [|k]; [cbn in Hk; congruence|]. destruct (IH k (n0 + 1) Hk) as (n&Hn&?). exists n. split; [done|lia].
Qed.

Definition entry_ok (o : list Z) : Prop := 72 <= zlen o /\ bytes_ok o /\ o !! 66%nat = Some 0.

Lemma text_len_total m n k : 0 <= n <= zlen m -> m !! k = Some 0 -> exists l,
  (t ← (if rc_ascii c then Some true else is_text m n);
   if (t : bool) then n' ← strlen m 0; Some (if z2b n' then n' else n) else Some n) = Some l /\ 0 <= l <= Z.max n (Z.of_nat k).
Proof.
  intros Hn Hk. assert (exists t, (if rc_ascii c then Some true else is_text m n) = Some t) as [t ->].
  { destruct (rc_ascii c); [by eexists|]. by apply is_text_total. }
  cbn [mbind option_bind]. destruct t; [|exists n; split; [done|lia]]. destruct (strlen_some m k 0 Hk) as (l&->&Hl). cbn [mbind option_bind].
  destruct (z2b l); eexists; (split; [done|lia]).
Qed.

Lemma rtn_learn_neat o orig_o n found : entry_ok o -> entry_ok orig_o -> 0 <= n <= 32 -> neat (rtn_learn c o orig_o n found).
Proof.
  intros (Ho&Hb&Hz) (Hoo&Hob&Hoz) Hn. unfold rtn_learn.
  assert (zlen (drop 32 o) = zlen o - 32 /\ zlen (drop 32 orig_o) = zlen orig_o - 32) as [Hd Hod] by (unfold zlen in *; rewrite !length_drop; lia).
  assert (drop 32 o !! 34%nat = Some 0) as Hz' by (by rewrite lookup_drop).
  destruct (text_len_total o n 66) as (l0&E0&H0'); [lia|done|]. destruct (text_len_total (drop 32 o) n 34) as (l1&E1&H1'); [lia|done|].
  eapply tidy_load; [exact E0|]. eapply tidy_load; [exact E1|].
  assert (forall m om l, 0 <= l -> l <= zlen m -> l <= zlen om ->
    neat (a ← within (load m 0 l); b ← within (load om 0 l);
      t ← (if bool_decide (a = b) then mret true else unfound_or_text found m l); when t (add_auto a))) as Hadd.
  { intros m om l H1'' H2'' H3''. do 2 (eapply tidy_load; [apply load_Some; lia|]). apply tidy_bind.
    - case_bool_decide; [apply tidy_ret|by apply unfound_neat].
    - intros t. apply tidy_when. intros _. apply add_auto_neat. }
  apply tidy_seq; apply Hadd; lia.
Qed.

Lemma rtn_at_neat hshape lvl o orig_o t j : 2 <= hshape <= 32 -> entry_ok o -> entry_ok orig_o -> t ∈ taint -> t_pos t <= j < taint_end t ->
  neat (rtn_at c orig_buf len hshape lvl o orig_o j (taint_end t - j)).
Proof.
  intros Hh (Ho&Hb&_) (Hoo&_&_) Ht Hj. unfold rtn_at. apply tidy_seq; [apply tidy_status|].
  apply or_else_neat; [|apply tidy_seq; [apply tidy_status|]]; by apply attempt_neat, rtn_extend_neat.
Qed.

(** The log of a key: what is behind the lengths of the arguments is not used. *)
Definition log_ok (l : list Z) : Prop := zlen l = CMP_MAP_H * operands_size /\ bytes_ok l /\
  (forall i, 0 <= i < CMP_MAP_RTN_H -> l !! Z.to_nat (operands_size * i + 66) = Some 0).

Lemma log_entry l i : log_ok l -> 0 <= i < CMP_MAP_RTN_H -> entry_ok (drop (Z.to_nat (operands_size * i)) l).
Proof.
  intros (Hz&Hb&H0') Hi. specialize (H0' i Hi). unfold CMP_MAP_RTN_H, CMP_MAP_H, operands_size in *. change (32 / 2) with 16 in *. split_and!.
  - unfold zlen in *. rewrite length_drop. lia.
  - by apply Forall_drop.
  - rewrite lookup_drop, <- H0'. f_equal. lia.
Qed.

Lemma rtn_entries_neat n i l orig_l hshape lvl found : log_ok l -> log_ok orig_l -> 0 <= i -> i + Z.of_nat n <= CMP_MAP_RTN_H ->
  2 <= hshape <= 32 -> neat (rtn_entries c orig_buf len n i l orig_l hshape lvl taint found).
Proof.
  intros Hl Ho Hi Hn Hh. revert i found Hi Hn. induction n as [|n IH]; intros i found Hi Hn; cbn [rtn_entries]; [apply tidy_ret|].
  pose proof (log_entry l i Hl ltac:(lia)). pose proof (log_entry orig_l i Ho ltac:(lia)). apply tidy_bind.
  - apply (scan_neat c orig_buf len Hpre buf taint Hsep I near _ 0); [by rewrite Z.sub_0_r|lia|by apply (separated_ahead len)|intros t; rewrite !list_elem_of_In; apply in_rev|].
    intros t j Ht Hj. by apply rtn_at_neat.
  - intros f. apply tidy_seq; [|apply IH; lia]. apply tidy_when. intros _. apply rtn_learn_neat; [done|done|lia].
Qed.

(** *** The keys *)

(** What holds after a key: [buf] is as it was; the counts may have changed. *)
Definition steady (s s' : st) : Prop := rq_inv len I s' /\ r_buf s' = buf /\ gone I near s s'.

Lemma steady_trans s1 s2 s3 : steady s1 s2 -> steady s2 s3 -> steady s1 s3.
Proof. intros (_&_&G1) (?&?&G2). split_and!; try done. eapply gone_trans; [by right|done]. Qed.

Lemma rtn_fuzz_ok m orig_m key lvl s : log_ok (entries m key) -> log_ok (entries orig_m key) ->
  0 <= hits (header m key) -> 0 <= shape (header m key) <= 31 -> rq_inv len I s -> r_buf s = buf ->
  good (rtn_fuzz c orig_buf len m orig_m key lvl taint) s (fun _ s' => steady s s') (gone I near s).
Proof.
  intros Hl Ho Hh Hs Hi Hb. unfold rtn_fuzz. cbv zeta. unfold SHAPE_BYTES. destruct (_ <? 2) eqn:E2; b2p.
  { apply good_ret. split_and!; try done. by apply (kept_gone len), kept_refl. }
  set (n := if hits _ >? _ then _ else _).
  assert (0 <= n <= CMP_MAP_RTN_H) by (unfold n; change CMP_MAP_RTN_H with 16; destruct (Z.gtb_spec (hits (header m key)) 16); lia).
  apply good_bind. eapply good_mono; [apply rtn_entries_neat; try done; lia|]. intros found s' K. apply good_bind, good_look.
  unfold good, set_pass, steady. pose proof (kept_gone _ _ _ _ _ K) as []. destruct K as [[] K2 K3 K4 K5 K6].
  split; [by split|split; [cbn; congruence|by split]].
Qed.

Record key_ok (m : cmp_map) (k : Z) : Prop := KeyOk {
  ko_log : log_ok (entries m k);
  ko_hits : 0 <= hits (header m k);
  ko_shape : 0 <= shape (header m k) <= 31;
  ko_ins : type (header m k) = CMP_TYPE_INS -> shape (header m k) <= 15;
  ko_attribute : 0 <= attribute (header m k) < 16
}.

Context (Hcmp : forall x, rq_input c len buf taint x -> inputs x).

Lemma its_key_ok m orig_m lvl k s : key_ok m k -> log_ok (entries orig_m k) -> rq_inv len I s -> r_buf s = buf ->
  good (its_key c orig_buf len m orig_m lvl taint k) s (fun _ s' => steady s s') (gone I near s).
Proof.
  intros [Hl Hh Hs Hins Ha] Ho Hi Hb. assert (steady s s) by (split_and!; try done; by apply (kept_gone len), kept_refl).
  unfold its_key. cbv zeta. destruct (negb _); [by apply good_ret|]. destruct (type _ =? _) eqn:Et; b2p.
  - eapply good_mono.
    + apply (cmp_fuzz_run c orig_buf len Hpre buf taint Hsep I); try done; [|intros i (t&Ht&Hr); exists t; unfold taint_end; split; [done|lia]|apply Hl|apply Ho|].
      * intros x Hx. by apply HL, Hcmp.
      * split; [lia|by apply Hins].
    + intros ? s' (Hi'&Hb'&_&Hz&Hc&_). split_and!; [done|congruence|]. split; try done. apply Hi'.
  - unfold when. case_match; [by apply rtn_fuzz_ok|by apply good_ret].
Qed.

Lemma its_keys_ok m orig_m lvl l s : (forall k, key_ok m k) -> (forall k, log_ok (entries orig_m k)) -> rq_inv len I s -> r_buf s = buf ->
  good (each l (its_key c orig_buf len m orig_m lvl taint)) s (fun _ s' => steady s s') (gone I near s).
Proof.
  intros Hm Ho. revert s. induction l as [|k l IH]; intros s Hi Hb; cbn [each].
  { apply good_ret. split_and!; try done. by apply (kept_gone len), kept_refl. }
  apply good_bind. eapply good_mono; [by apply its_key_ok|]. intros ? s1 S1. pose proof S1 as (I1&B1&G1).
  eapply good_weaken; [by apply IH|..].
  - intros ? s2. by apply steady_trans.
  - intros s2. apply gone_trans. by right.
Qed.

Lemma disable_ok p m l : (forall k, key_ok m k) -> forall k, key_ok (foldl (disable p) m l) k.
Proof.
  revert m. induction l as [|j l IH]; intros m Hm k; cbn [foldl]; [done|]. apply IH. clear k. intros k. unfold disable. cbv zeta.
  destruct (default _ _) as [total faileds]. case_match; [|done]. pose proof (Hm k) as Hk. pose proof (Hm j) as Hj.
  destruct (decide (k = j)) as [->|Hne].
  - destruct Hj. split; unfold header, entries in *; cbn in *; rewrite ?lookup_insert_eq; cbn; done.
  - destruct Hk. split; unfold header, entries in *; cbn in *; rewrite ?lookup_insert_ne by done; done.
Qed.
End Rtn.

(** ** The stage *)

Lemma good_returned {W R A} (m : stage (rq_st W R) A) s Q G : good m s Q G ->
  good (returned m) s (fun r s' => match r with Some a => Q a s' | None => G s' end) (fun _ => False).
Proof. unfold good, returned. by destruct (m s). Qed.

Section Stage.
Context {W R : Type} `{Fuzzer W} `{RandSource R} `{Qsort} `{CmplogHost W}.
Abbreviation st := (rq_st W R).
Context (c : rq_cfg) (orig_buf : list Z) (len : Z) (Hpre : rq_pre c orig_buf len).
Context (buf : list Z) (taint : list tainted) (Hsep : separated len taint).
Context (Hplain : rc_transform c = false).

(** The inputs that are run: the colored one, changed inside of a taint or in the four bytes
    before it, or with a number there; and at last the original, changed at such positions. *)
Definition stage_input (x : list Z) : Prop :=
  rq_input c len buf taint x \/
  (exists b, zlen b = zlen buf /\ bytes_ok b /\ (forall i : nat, ~ near taint (Z.of_nat i) -> b !! i = buf !! i) /\ x = given c len b) \/
  (exists b, len <= zlen b /\ (forall i : nat, Z.of_nat i < len -> ~ near taint (Z.of_nat i) -> b !! i = orig_buf !! i) /\ x = given c len b).

(** The bits of [v] without those that are not in [v']. *)
Definition masked (v v' : list Z) : list Z :=
  let n := (8 * (length v / 8))%nat in zip_with Z.land (take n v) (take n v') ++ drop n v.

(** What is asked of the rest: runs keep the fuzzer consistent, the log is in order after a run
    if it was before, and the maps of virgin bits may be exchanged. *)
Record stage_laws (I : W -> Prop) (V : list Z -> Prop) : Prop := StageLaws {
  sl_run : run_law (R:=R) stage_input I;
  sl_cmplog : forall w x m r m' w', I w -> (forall k, log_ok (entries m k)) ->
    cmplog_run_target w x m = (r, m', w') -> I w' /\ forall k, key_ok m' k;
  sl_skip : forall w, I w -> I (clear_skip_request w);
  sl_virgin : forall w, I w -> V (virgin_bits w);
  sl_set : forall w v, I w -> V v -> I (set_virgin_bits w v);
  sl_mask : forall v v', V v -> V v' -> V (masked v v')
}.

Context (I : W -> Prop) (V : list Z -> Prop) (HI : stage_laws I V).

Lemma cmplog_ok b m (e : Stage.env W R) : len <= zlen b -> (forall k, log_ok (entries m k)) -> I (e_fuzzer e) ->
  good (common_fuzz_cmplog_stuff c len b m) e
    (fun om e' => I (e_fuzzer e') /\ e_extras e' = e_extras e /\ forall m', om = Some m' -> forall k, key_ok m' k) (fun _ => False).
Proof.
  intros Hb Hm Hi. destruct Hpre as [Hl Hmin Hmax _]. unfold common_fuzz_cmplog_stuff, write_to_testcase.
  rewrite (proj2 (Z.ltb_ge len (rc_min_length c))) by lia. cbn [andb].
  assert ((if len >? rc_max_length c then rc_max_length c else len) = Z.min len (rc_max_length c)) as ->.
  { destruct (_ >? _) eqn:E; b2p; lia. }
  rewrite load_Some by lia. apply good_bind, good_within. rewrite zlen_slice by lia. rewrite (proj2 (Z.eqb_neq _ _)) by lia.
  apply good_bind, good_ret. unfold good, run_cmplog. destruct (cmplog_run_target _ _ _) as [[r m'] w'] eqn:E.
  destruct (sl_cmplog I V HI _ _ _ _ _ _ Hi Hm E) as [Hi' Hk].
  destruct (stop_requested w'); [done|]. destruct (_ && _); [done|].
  destruct (skip_requested w'); (split; [|split; [done|by intros ? [= <-]]]); [by apply HI|done].
Qed.

Lemma empty_log_ok k : log_ok (entries (CmpMap ∅ ∅) k).
Proof.
  change (entries (CmpMap ∅ ∅) k) with (replicate (Z.to_nat (CMP_MAP_H * operands_size)) 0). split_and!; [done|by apply Forall_replicate|].
  intros i Hi. change CMP_MAP_RTN_H with 16 in Hi. apply lookup_replicate. unfold CMP_MAP_H, operands_size. split; [done|lia].
Qed.

Lemma combine_ok backup (s : st) : V backup -> I (e_fuzzer (r_env s)) -> stage_input (given c len (r_cbuf s)) -> len <= zlen (r_cbuf s) ->
  good (combine c len backup) s (fun _ s' => I (e_fuzzer (r_env s')) /\ r_buf s' = r_buf s) (fun _ => False).
Proof.
  intros HV Hi Hx Hz. unfold combine. apply good_bind, good_look. apply good_bind, good_lift. unfold good at 1.
  assert (I (set_virgin_bits (e_fuzzer (r_env s)) backup)) as Hi1 by by apply HI. apply good_bind, good_look. apply good_bind.
  eapply good_mono; [apply good_returned, (its_fuzz_env c orig_buf len Hpre I I); [apply HI; exact Hx|done|exact Hi1]|].
  intros r s1 Hr. assert (I (e_fuzzer (r_env s1)) /\ r_buf s1 = r_buf s) as [Hi2 Hb2].
  { destruct r as [[]|]; [destruct Hr as (n&e'&->&?&?)|destruct Hr as (e'&->&?)]; done. }
  apply good_lift. unfold good. cbn. split; [|done]. fold (masked (virgin_bits (e_fuzzer (r_env s1))) (virgin_bits (e_fuzzer (r_env s)))).
  apply HI; [done|]. apply HI; by apply HI.
Qed.

(** The state at the start: [cbuf] is not filled yet. *)
Record stage_start (s : st) : Prop := StageStart {
  ss_buf : len <= zlen (r_buf s) <= 2 ^ 31;
  ss_bytes : bytes_ok (r_buf s);
  ss_scratch : bytes_ok (r_scratch s);
  ss_dict : by_len (x_extras (e_extras (r_env s))) /\ auto_ok (e_extras (r_env s));
  ss_fuzzer : I (e_fuzzer (r_env s))
}.

Lemma start_env e (s : st) : stage_start s -> I (e_fuzzer e) -> e_extras e = e_extras (r_env s) -> stage_start (with_renv e s).
Proof. intros [] Hi Hx. split; cbn; try done. by rewrite Hx. Qed.

(** The keys, and what was found together. *)
Lemma its_body_ok lvl m orig_m hits0 s : (forall k, key_ok m k) -> (forall k, log_ok (entries orig_m k)) -> rq_inv len I s -> r_buf s = buf ->
  (forall i : nat, Z.of_nat i < len -> r_cbuf s !! i = orig_buf !! i) ->
  good (virgin_backup ← look (fun s => virgin_bits (e_fuzzer (r_env s)));
        p ← look r_pass;
        let m := foldl (disable p) m (seqZ 0 CMP_MAP_W) in
        r ← returned (each (seqZ 0 CMP_MAP_W) (its_key c orig_buf len m orig_m lvl taint));
        hit ← look (fun s => hit_cnt (e_fuzzer (r_env s)));
        when (hit >? hits0 + 1) (combine c len virgin_backup);;
        mret (match r with Some _ => false | None => true end)) s
    (fun r s' => I (e_fuzzer (r_env s')) /\ (r = false -> r_buf s' = buf)) (fun _ => False).
Proof.
  intros Hm Ho Hs Hb Hc. apply good_bind, good_look. apply good_bind, good_look. cbv zeta. set (l := seqZ 0 CMP_MAP_W). clearbody l.
  apply good_bind. eapply good_mono; [apply good_returned, (its_keys_ok c orig_buf len Hpre buf taint Hsep Hplain stage_input I)|]; try done.
  - apply HI.
  - intros b Hz Hbb Heq. right. left. by exists b.
  - intros x Hx. by left.
  - by apply disable_ok.
  - intros r s' Hr. assert (gone I (near taint) s s' /\ (r <> None -> r_buf s' = buf)) as [[G1 G2 G3] Hbuf].
    { destruct r; [|done]. destruct Hr as (_&?&?). done. }
    apply good_bind, good_look. apply good_bind.
    assert (forall s2 : st, I (e_fuzzer (r_env s2)) -> r_buf s2 = r_buf s' ->
      good (mret (match r with Some _ => false | None => true end)) s2 (fun b s3 => I (e_fuzzer (r_env s3)) /\ (b = false -> r_buf s3 = buf)) (fun _ => False)) as Hend.
    { intros s2 Hi2 Hb2. apply good_ret. split; [done|]. destruct r; [|done]. intros _. rewrite Hb2. by apply Hbuf. }
    unfold when. destruct (_ >? _); [|by apply good_ret, Hend]. destruct Hs as [? ? Hz ? ? Hi].
    eapply good_mono; [apply combine_ok; [by apply HI|done| |lia]|intros ? s2 [? ?]; by apply Hend].
    right. right. exists (r_cbuf s'). split_and!; [lia| |done]. intros i Hil Hn. rewrite G3 by done. by apply Hc.
Qed.

Lemma its_stage_run cmplog_lvl colorized s : stage_start s -> r_buf s = buf ->
  good (its_stage c orig_buf len cmplog_lvl colorized taint) s
    (fun r s' => I (e_fuzzer (r_env s')) /\ (r = false -> r_buf s' = buf)) (fun _ => False).
Proof.
  intros Hs Hb. pose proof Hpre as [Hl _ _ Horig]. unfold its_stage. apply good_bind, good_lift.
  eapply good_mono; [apply cmplog_ok; [lia|apply empty_log_ok|apply Hs]|]. intros [orig_m|] e1 (Hi1&Hx1&Hk1); [|by apply good_ret].
  pose proof (start_env e1 s Hs Hi1 Hx1) as Hs1. set (s1 := with_renv e1 s) in *. specialize (Hk1 _ eq_refl).
  apply good_bind, good_look. apply good_bind, good_lift.
  eapply good_mono; [apply cmplog_ok; [apply Hs1|intros k; apply (Hk1 k)|apply Hs1]|]. intros [m|] e2 (Hi2&Hx2&Hk2); [|by apply good_ret].
  pose proof (start_env e2 s1 Hs1 Hi2 Hx2) as Hs2. set (s2 := with_renv e2 s1) in *. specialize (Hk2 _ eq_refl).
  apply good_bind, good_look. cbv zeta. apply good_bind, good_look. apply good_bind, good_load; [lia..|].
  assert (len + 128 <= zlen (afl_realloc (r_cbuf s2) (len + 128))) as Hroom by (apply afl_realloc_room; lia).
  set (t := afl_realloc _ _) in *. clearbody t.
  assert (zlen (slice orig_buf 0 len) = len) as Hz by (apply zlen_slice; lia).
  apply good_bind, good_store; [lia..|]. apply good_bind. unfold good at 1, set_cbuf. set (s3 := RqSt _ _ _ _ _ _ _).
  apply its_body_ok; [done|intros k; apply (Hk1 k)| |done|].
  - destruct Hs2. split; try done. cbn. rewrite zlen_splice_at; lia.
  - intros i Hi. cbn. rewrite lookup_splice_eq by lia. unfold slice. rewrite lookup_take_lt, lookup_drop by lia. f_equal. lia.
Qed.
End Stage.

(** The input-to-state stage after the coloring, without [cmplog_enable_transform], for any
    fuzzer and any log that a run may leave: it ends without leaving a buffer or the log, and it
    returns.  Every input it runs is one of [stage_input]: the colored one, with at most 17
    bytes of a taint or a decimal number replaced, or changed in a taint and the four bytes before
    it; and in the end all that was found together, which is the original input at all other
    positions.  The laws are asked for these inputs only.  When it returns 0 the buffer still
    holds the colored input, which the stages that follow work on. *)
Theorem its_stage_correct {W R} `{Fuzzer W} `{RandSource R} `{Qsort} `{CmplogHost W}
  c orig_buf len taint (I : W -> Prop) V cmplog_lvl colorized (s : rq_st W R) :
  rq_pre c orig_buf len -> separated len taint -> rc_transform c = false ->
  stage_laws (R:=R) c orig_buf len (r_buf s) taint I V -> stage_start len I s ->
  good (its_stage c orig_buf len cmplog_lvl colorized taint) s
    (fun r s' => I (e_fuzzer (r_env s')) /\ (r = false -> r_buf s' = r_buf s)) (fun _ => False).
Proof. intros Hp Hs Ht HI **. by apply (its_stage_run c orig_buf len Hp (r_buf s) taint Hs Ht I V HI). Qed.

(** ** Example: the target compares its bytes 1 to 4 with ABCD *)

#[local] Instance reel_fuzzer : Fuzzer (list (list Z)) := {
  fuzz_run_target w x := (FSRV_RUN_OK, x :: w);
  stop_requested _ := false;
  skip_requested _ := false;
  clear_skip_request w := w;
  trace_cksum _ := 0;
  queued_items _ := 1;
  save_if_interesting w _ _ := Some (0, w);
  get_cur_time w := (0, w)
}.

Definition reel_map (x : list Z) : cmp_map :=
  CmpMap {[7 := CmpHeader 1 3 CMP_TYPE_INS 1]} {[7 := tape_log (le_bytes 4 (le_word (slice x 1 4))) [65; 66; 67; 68]]}.

#[local] Instance reel_host : CmplogHost (list (list Z)) := {
  saved_crashes _ := 0;
  cmplog_run_target w x _ := (FSRV_RUN_OK, reel_map x, w);
  virgin_bits _ := [];
  set_virgin_bits w _ := w
}.

Lemma tape_log_ok v : length v = 4%nat -> bytes_ok v -> log_ok (tape_log v [65; 66; 67; 68]).
Proof.
  intros Hv Hb. destruct v as [|a [|b [|d [|e [|]]]]]; try done. unfold tape_log. split_and!; [done| |].
  - apply Forall_app. split; [done|]. by repeat constructor.
  - intros i Hi. change CMP_MAP_RTN_H with 16 in Hi. unfold CMP_MAP_H, operands_size.
    do 3 rewrite lookup_app_r by (rewrite ?length_replicate; cbn [length]; lia). apply lookup_replicate. split; [done|].
    rewrite ?length_replicate. cbn [length]. lia.
Qed.

Lemma reel_key x k : key_ok (reel_map x) k.
Proof.
  destruct (decide (k = 7)) as [->|Hk].
  - split; try done. by apply tape_log_ok; [rewrite length_le_bytes|apply le_bytes_ok].
  - assert (header (reel_map x) k = CmpHeader 0 0 0 0) as Eh by (unfold header; cbn; by rewrite lookup_singleton_ne).
    assert (entries (reel_map x) k = entries (CmpMap ∅ ∅) k) as El by (unfold entries; cbn; by rewrite lookup_singleton_ne).
    split; rewrite ?Eh, ?El; try done. apply empty_log_ok.
Qed.

Lemma reel_laws c orig_buf len buf taint : stage_laws (R:=list Z) c orig_buf len buf taint (fun _ => True) (fun _ => True).
Proof.
  split; try done.
  - intros x _ e _. unfold goes, run_written. by destruct (zlen x =? 0).
  - intros w x m r m' w' _ _ [= _ <- _]. split; [done|]. apply reel_key.
Qed.

Example its_stage_correct_witness :
  good (its_stage tape_cfg tape_orig 6 2 0 [Tainted 1 4]) tape_st
    (fun r s' => True /\ (r = false -> r_buf s' = r_buf tape_st)) (fun _ => False).
Proof.
  refine (its_stage_correct tape_cfg tape_orig 6 [Tainted 1 4] (fun _ => True) (fun _ => True) 2 0 tape_st tape_pre _ _ _ _).
  - done.
  - done.
  - apply reel_laws.
  - by destruct (tape_inv (fun _ => True)).
Defined.

(** ** With transformations *)

Definition hex_cfg : rq_cfg := RqCfg 1 100 true true true true false false (replicate 80 170).
Definition hex_input (n : nat) : list Z := replicate n 65 ++ [48; 120; 52; 49; 90].
Definition hex_st (b : list Z) : rq_st (list (list Z)) (list Z) :=
  RqSt b b [] 0 (replicate 64 0) ∅ (Stage.Env [] [] (ExtrasSt [] [] false) 0 0 0).
Definition hex_entry (p : Z) : list Z := replicate 32 p ++ replicate 32 200 ++ [32; 32] ++ replicate 6 0.
Definition hex_run (b : list Z) (len idx : Z) : flow (rq_st (list (list Z)) (list Z)) unit :=
  rtn_extend_encoding hex_cfg b len (hex_entry 1) (hex_entry 2) false 32 LVL3 idx 5 (hex_st b).

(** With the transformations the replacement is not safe.  The text 0x41 stands five bytes
    before the end of a buffer as large as [afl_realloc] makes it for this length, and the
    replacement in hexadecimal digits, which is bounded without the prefix 0x, is written past its
    end.  In a longer input nothing is found by any run, and yet the four bytes behind the taint
    (33 to 36) are lost: more bytes are put back than the array [save] has a copy of. *)
Theorem rtn_transform_defects :
  zlen (afl_realloc [] 56) = 56 /\ zlen (hex_input 51) = 56 /\ hex_run (hex_input 51) 56 51 = OutOfBounds /\
  match hex_run (hex_input 4 ++ [33; 34; 35; 36]) 13 4 with
  | Next _ s => r_status s = 2 /\ r_buf s = hex_input 4 ++ [120; 52; 49; 90]
  | _ => False
  end.
Proof. by vm_compute. Qed.
