(* ===== verification/InputToState.v ===== *)
(** * The input-to-state stage: the coloring and the replacement together *)

From stdpp Require Import gmap.
From S2P Require Import Prelude Res Rng TextCheck Extras ExtrasFacts ExtrasAuto Tmin Mutations MutationsFacts MutationsOps Stage StageFacts Color ColorFacts ColorMain Encode EncodeFacts Redqueen RedqueenRtn RedqueenFacts RedqueenMain RedqueenStage.

(** ** The coloring does not touch the dictionary *)

Section Extras.
Context {W R : Type} `{Fuzzer W} `{RandSource R} `{ColorHost W}.
Abbreviation env := (Stage.env W R).

Definition apart {A} (m : stage env A) : Prop := forall e a e', m e = Next a e' -> e_extras e' = e_extras e.

Lemma apart_ret {A} (a : A) : apart (mret a).
Proof. by intros e ? ? [= _ <-]. Qed.
Lemma apart_bind {A B} (m : stage env A) (k : A -> stage env B) : apart m -> (forall a, apart (k a)) -> apart (m ≫= k).
Proof.
  intros Hm Hk e b e'. unfold mbind, stage_bind. destruct (m e) as [a e1| | | | | |] eqn:E; try done.
  intros Hb. rewrite (Hk _ _ _ _ Hb). exact (Hm _ _ _ E).
Qed.
Lemma apart_within {A} (o : option A) : apart (within o).
Proof. intros e a e'. destruct o; [|done]. by intros [= _ <-]. Qed.
Lemma apart_draw n : apart (rand_below_env n).
Proof. intros e a e'. unfold rand_below_env. destruct (rs_below _ _) as [[v r]|]; [|done]. by intros [= _ <-]. Qed.
Lemma apart_run x : apart (run_written x).
Proof.
  intros e a e'. unfold run_written. repeat case_match; intros; simplify_eq; done.
Qed.
Lemma apart_time : apart time_us.
Proof. intros e a e'. unfold time_us. destruct (get_cur_time_us _). by intros [= _ <-]. Qed.
Lemma apart_cksum c buf len : apart (get_exec_checksum c buf len).
Proof.
  apply apart_bind; [apply apart_bind; [apply apart_within|intros; apply apart_run]|]. intros [|]; [done|]. by intros e a e' [= _ <-].
Qed.

Lemma apart_between lo hi : apart (between lo hi).
Proof. apply apart_bind; [apply apart_draw|]. intros. apply apart_ret. Qed.
Lemma apart_typed b : apart (typed_byte b).
Proof. unfold typed_byte. repeat (case_match; [apply apart_between || apply apart_ret|]). apply apart_ret. Qed.
Lemma apart_replace fuel draw l : (forall b, apart (draw b)) -> apart (replace_each fuel draw l).
Proof.
  intros Hd. assert (forall n b, apart (redraw n draw b)) as Hr.
  { induction n as [|n IH]; intros b; cbn [redraw]; [done|]. apply apart_bind; [apply Hd|]. intros v. case_match; [apply IH|apply apart_ret]. }
  induction l as [|b l IH]; cbn [replace_each]; [apply apart_ret|]. apply apart_bind; [apply Hr|]. intros v. apply apart_bind; [done|].
  intros k. apply apart_ret.
Qed.

Lemma apart_loop c n len ck backup changed cur buf ranges : apart (color_loop c n len ck backup changed cur buf ranges).
Proof.
  revert cur buf ranges. induction n as [|n IH]; intros cur buf ranges; cbn [color_loop]; (case_match; [|apply apart_ret]); (case_match; [|apply apart_ret]); [done|].
  apply apart_bind; [apply apart_within|]. intros rng. apply apart_bind; [|by intros [b r]]. unfold color_step. cbv zeta.
  do 2 (apply apart_bind; [apply apart_within|]; intros ?). apply apart_bind; [apply apart_time|]. intros t0.
  apply apart_bind; [apply apart_cksum|]. intros v. apply apart_bind; [apply apart_time|]. intros t1. case_match; [|apply apart_ret].
  do 2 (apply apart_bind; [apply apart_within|]; intros ?). apply apart_ret.
Qed.

Lemma apart_colorization c fuel buf len success : apart (colorization c fuel buf len success).
Proof.
  unfold colorization. cbv zeta. apply apart_bind; [apply apart_cksum|]. intros ck. apply apart_bind; [apply apart_within|]. intros backup.
  apply apart_bind; [case_match; apply apart_replace; [intros ?; apply apart_draw|apply apart_typed]|]. intros changed.
  apply apart_bind; [apply apart_loop|]. intros [b ranges]. apply apart_bind; [apply apart_within|]. intros [taint n].
  case_match; [apply apart_ret|]. apply apart_bind; [by intros e a e' [= _ <-]|]. intros a. case_match; apply apart_ret.
Qed.
End Extras.

(** ** Bytes *)

Lemma tainted_dec l i : Decision (tainted_at l i).
Proof.
  refine (cast_if (decide (Exists (fun t => t_pos t <= i < t_pos t + t_len t) l))); unfold tainted_at; by rewrite <- list.Exists_exists.
Qed.

Lemma colored_bytes c len seen orig ck buf marks : bytes_ok orig -> colored c len seen orig ck buf marks -> bytes_ok buf.
Proof.
  intros Ho [_ _ _ (changed&Hch&Ht&Hn&_)]. apply Forall_lookup. intros i b Hb. destruct (tainted_dec marks (Z.of_nat i)) as [Hi|Hi].
  - rewrite Ht in Hb by done. destruct (Forall2_lookup_r _ _ _ _ _ Hch Hb) as (a&_&_&Hw&_). exact Hw.
  - rewrite Hn in Hb by done. exact (proj1 (Forall_lookup _ _) Ho i b Hb).
Qed.

(** ** The stage *)

(** C13. The whole input-to-state stage, without [cmplog_enable_transform], on an entry
    that was not colored before: the coloring and the replacement, for any target whose
    runs need not repeat themselves, any finite list of random answers, and any log of
    comparisons whose headers are in the ranges that the instrumentation writes
    ([key_ok] of [stage_laws]: shapes, attributes and numbers of operands). It does not
    leave a buffer and it ends: it returns, unless saving an input ends the process or
    the answers run out. The laws of the second part are asked for the colored inputs
    that the first one can leave. When the stage returns 0, the entry is not taken up
    again, and the buffer holds a colored version of the input: each tainted byte is
    replaced by another one. *)
Theorem input_to_state_stage_correct {W} `{Fuzzer W} `{ColorHost W} `{Qsort} `{CmplogHost W}
  c cc orig_buf len seen (I : W -> Prop) V fuel colorized success (s : rq_st W (list Z)) :
  color_laws (W:=W) cc len seen (fun _ => I) -> color_pre cc len -> rq_pre c orig_buf len -> rc_transform c = false ->
  (forall ck buf marks, colored cc len seen (r_buf s) ck buf marks -> stage_laws (R:=list Z) c orig_buf len buf marks I V) ->
  stage_start len I s -> (length (e_rng (r_env s)) < fuel)%nat ->
  good (input_to_state_stage c orig_buf len cc fuel None colorized success) s
    (fun '(r, colorized', success') s' => r = false -> I (e_fuzzer (r_env s')) /\ colorized' = CMPLOG_LVL_MAX /\
       exists ck marks, colored cc len seen (r_buf s) ck (r_buf s') marks) (fun _ => False).
Proof.
  intros HC Hcp Hp Ht HS [V1 V2 V3 V4 V5] Hf. unfold input_to_state_stage. apply good_bind, good_look. apply good_bind.
  pose proof (colorization_run cc len seen (fun _ => I) HC Hcp fuel (r_buf s) success (r_env s) ltac:(lia) ltac:(by apply Forall_slice) Hf V5) as Hrun.
  pose proof (apart_colorization cc fuel (r_buf s) len success (r_env s)) as Hx. unfold goes in Hrun. unfold good at 1, returned, lift.
  destruct (colorization _ _ _ _ _ _) as [[[buf' taint] success'] e'|e'| | | | |]; try done.
  specialize (Hx _ _ eq_refl). destruct Hrun as (ck&marks&Hck&Hcol&_&HI'&Htaint). set (s1 := RqSt buf' (r_cbuf s) (r_scratch s) (r_status s) (r_tmp s) (r_pass s) e').
  destruct taint as [|t taint].
  { apply good_bind. unfold good at 1, set_buf. apply good_ret. intros _. split_and!; [done|done|]. by exists ck, marks. }
  destruct Htaint as [[<- _]|[? _]]; [|done]. apply good_bind. unfold good at 1, set_buf. cbn.
  change (RqSt _ _ _ _ _ _ _) with s1. apply good_bind. eapply good_mono.
  - apply (its_stage_run c orig_buf len Hp buf' (t :: taint) (cd_separated _ _ _ _ _ _ _ Hcol) Ht I V (HS _ _ _ Hcol)); [|done].
    split; cbn; try done; [rewrite (cd_zlen _ _ _ _ _ _ _ Hcol); done|exact (colored_bytes _ _ _ _ _ _ _ V2 Hcol)|by rewrite Hx].
  - intros r s' [HI'' Hb]. apply good_ret. intros ->. split_and!; [done|done|]. exists ck, (t :: taint). by rewrite Hb.
Qed.

(** ** Example *)

#[local] Instance blind_fuzzer : Fuzzer (list (list Z)) := {
  fuzz_run_target w x := (FSRV_RUN_OK, x :: w);
  stop_requested _ := false;
  skip_requested _ := false;
  clear_skip_request w := w;
  trace_cksum _ := 0;
  queued_items _ := 1;
  save_if_interesting w _ _ := Some (0, w);
  get_cur_time w := (0, w)
}.

#[local] Instance blind_color : ColorHost (list (list Z)) := {
  get_cur_time_us w := (0, w);
  active_items _ := 1
}.

#[local] Instance blind_cmplog : CmplogHost (list (list Z)) := {
  saved_crashes _ := 0;
  cmplog_run_target w x _ := (FSRV_RUN_OK, reel_map x, w);
  virgin_bits _ := [];
  set_virgin_bits w _ := w
}.

Definition blind_cfg : co_cfg := CoCfg 1 100 false true 10 1.
Definition blind_st : rq_st (list (list Z)) (list Z) :=
  RqSt tape_orig [] [] 0 [] ∅ (Stage.Env [] [] (ExtrasSt [] [] false) 0 0 0).

Example input_to_state_stage_correct_witness :
  good (input_to_state_stage tape_cfg tape_orig 6 blind_cfg 1 None 0 0) blind_st
    (fun '(r, colorized', success') s' => r = false -> True /\ colorized' = CMPLOG_LVL_MAX /\
       exists ck marks, colored blind_cfg 6 (fun _ v => v = 0) (r_buf blind_st) ck (r_buf s') marks) (fun _ => False).
Proof.
  refine (input_to_state_stage_correct tape_cfg blind_cfg tape_orig 6 (fun _ v => v = 0) (fun _ => True) (fun _ => True) 1 0 0 blind_st
    _ _ tape_pre _ _ _ _).
  - split; try done. intros n e x _ _. unfold goes, run_written. by destruct (zlen x =? 0).
  - by split.
  - done.
  - intros ck buf marks _. split; try done.
    + intros x _ e _. unfold goes, run_written. by destruct (zlen x =? 0).
    + intros w x m r m' w' _ _ [= _ <- _]. split; [done|]. apply reel_key.
  - split; try done; [by repeat constructor|]. split; [constructor|]. by repeat constructor.
  - cbn. lia.
Defined.

(** All bytes are replaced when the target looks at none. *)
Example blind_coloring :
  match colorization blind_cfg 9 [48; 49; 43] 3 0 (Stage.Env [] [] (ExtrasSt [] [] false) 0 0 0 : Stage.env (list (list Z)) (list Z)) with
  | Next (b, taint, n) _ => b = [49; 48; 47] /\ taint = [Tainted 0 3] /\ n = 1
  | _ => False
  end.
Proof. by vm_compute. Qed.
