(* ===== verification/FuzzOne.v ===== *)
(** * A round of fuzzing

    [fuzz_one_original] of [src/afl-fuzz-one.c] without custom mutators: whether the entry is
    skipped, fetching its test case, calibrating again, trimming, the input-to-state stage,
    the decision on the deterministic stages, and what is noted at the label [abandon_entry];
    and the loop of [src/afl-fuzz.c] that selects the entry.  The random numbers and the
    test case cache are those of [Rng] and [Cache].  The phases that other files model over
    states of their own are parameters here, the fields of [Phases]; nothing is assumed of
    them, and the theorems of [FuzzOneMain] hold whatever they do.

    The file as it stands has a closing brace too many at line 2205, which ends the block
    opened at line 2199; the loops and the function then end early and the label
    [abandon_entry] (line 3438) is outside of every function.  What follows reads the
    file without that brace, the only reading in which it is a C program. *)

From S2P Require Import Prelude Res Rng Tmin Cache Queue Stage.

(** The fields of an entry that are not in [queue_entry]; [perf_score] as it is converted to an
    integer, and [skipdet_e->quick_eff_bytes]. *)
Record entry_x := EntryX {
  x_cal_failed : Z;
  x_trim_done : bool;
  x_perf_score : Z;
  x_colorized : Z;
  x_quick_eff_bytes : Z;
  x_exec_cksum : Z
}.

(** The settings; for the cache the tries at a slot to evict and the content of unused memory. *)
Record fo_cfg := FoCfg {
  fo_crash_mode : fsrv_run_result;
  fo_disable_trim : bool;
  fo_old_seed_selection : bool;
  fo_cmplog_mode : bool;
  fo_cmplog_lvl : Z;
  fo_cmplog_max_filesize : Z;
  fo_skip_deterministic : bool;
  fo_havoc_max_mult : Z;
  fo_main_node_id : Z;
  fo_main_node_max : Z;
  fo_custom_only : bool;
  fo_pick_fuel : nat;
  fo_junk : option nat
}.

(** [fo_cur] is the entry [queue_cur]; [fo_rest] the rest of the fuzzer. *)
Record fo_st (W R : Type) := FoSt {
  fo_afl : Queue.afl;
  fo_x : list entry_x;
  fo_cur : nat;
  fo_out : list Z;
  fo_pending_not_fuzzed : Z;
  fo_cur_skipped_items : Z;
  fo_ready_for_splicing : Z;
  fo_queue_cycle : Z;
  fo_active_items : Z;
  fo_splicing_with : Z;
  fo_subseq_tmouts : Z;
  fo_cur_depth : Z;
  fo_cache : cache_st;
  fo_rng : R;
  fo_rest : W
}.
Arguments FoSt {W R}.
Arguments fo_afl {W R}. Arguments fo_x {W R}. Arguments fo_cur {W R}. Arguments fo_out {W R}.
Arguments fo_pending_not_fuzzed {W R}. Arguments fo_cur_skipped_items {W R}. Arguments fo_ready_for_splicing {W R}.
Arguments fo_queue_cycle {W R}. Arguments fo_active_items {W R}. Arguments fo_splicing_with {W R}.
Arguments fo_subseq_tmouts {W R}. Arguments fo_cur_depth {W R}. Arguments fo_cache {W R}. Arguments fo_rng {W R}. Arguments fo_rest {W R}.

(** How the deterministic stages end: all of them done, or left for [custom_mutator_stage]
    before that, or the entry was given up. *)
Inductive det_end := DetDone | DetLeft | DetAbandoned.

Class Phases (W R : Type) := {
  ph_calibrate : list Z -> Z -> fo_st W R -> fsrv_run_result * fo_st W R;
  ph_trim : list Z -> fo_st W R -> fsrv_run_result * fo_st W R;
  ph_score : fo_st W R -> Z * fo_st W R;
  ph_input_to_state : list Z -> Z -> fo_st W R -> bool * fo_st W R;
  ph_time : fo_st W R -> Z * fo_st W R;
  ph_skipdet : list Z -> Z -> Z -> fo_st W R -> bool * fo_st W R;
  ph_det : list Z -> Z -> fo_st W R -> det_end * fo_st W R;
  ph_havoc : list Z -> Z -> bool -> Z -> fo_st W R -> bool * fo_st W R;
  ph_select : fo_st W R -> option (nat * fo_st W R);
  ph_stop_soon : W -> bool;
  ph_total_execs : W -> Z;
  ph_last_find_time : W -> Z
}.

Definition SKIP_TO_NEW_PROB : Z := 99.
Definition SKIP_NFAV_OLD_PROB : Z := 95.
Definition SKIP_NFAV_NEW_PROB : Z := 75.
Definition CAL_CHANCES : Z := 3.
Definition LVL_MAX : Z := 3.

Section FuzzOne.
Context {W R : Type} `{Phases W R} `{RandSource R} (c : fo_cfg).
Abbreviation st := (fo_st W R).

Definition of_phase {A} (f : st -> A * st) : stage st A := fun s => let '(a, s) := f s in Next a s.
Definition of_draw {A} (f : st -> option (A * st)) : stage st A := fun s =>
  match f s with Some (a, s) => Next a s | None => NoRandom end.
Definition fatal : stage st unit := fun _ => Fatal.
Definition view {A} (f : st -> A) : stage st A := fun s => Next (f s) s.

Definition with_afl (a : Queue.afl) (s : st) : st :=
  FoSt a (fo_x s) (fo_cur s) (fo_out s) (fo_pending_not_fuzzed s) (fo_cur_skipped_items s) (fo_ready_for_splicing s)
    (fo_queue_cycle s) (fo_active_items s) (fo_splicing_with s) (fo_subseq_tmouts s) (fo_cur_depth s) (fo_cache s) (fo_rng s) (fo_rest s).
Definition with_x (x : list entry_x) (s : st) : st :=
  FoSt (fo_afl s) x (fo_cur s) (fo_out s) (fo_pending_not_fuzzed s) (fo_cur_skipped_items s) (fo_ready_for_splicing s)
    (fo_queue_cycle s) (fo_active_items s) (fo_splicing_with s) (fo_subseq_tmouts s) (fo_cur_depth s) (fo_cache s) (fo_rng s) (fo_rest s).
Definition cache_cur (k : nat) (s : cache_st) : cache_st :=
  CacheSt (c_queue s) (c_slots s) (c_max_size s) (c_max_entries s) (c_size s) (c_max_count s) (c_count s)
    (c_smallest_free s) (c_evictions s) k (c_do_once s) (c_testcase_buf s) (c_splicecase_buf s).
Definition with_cur (k : nat) (s : st) : st :=
  FoSt (fo_afl s) (fo_x s) k (fo_out s) (fo_pending_not_fuzzed s) (fo_cur_skipped_items s) (fo_ready_for_splicing s)
    (fo_queue_cycle s) (fo_active_items s) (fo_splicing_with s) (fo_subseq_tmouts s) (fo_cur_depth s) (cache_cur k (fo_cache s)) (fo_rng s) (fo_rest s).
Definition with_source (k : cache_st) (r : R) (s : st) : st :=
  FoSt (fo_afl s) (fo_x s) (fo_cur s) (fo_out s) (fo_pending_not_fuzzed s) (fo_cur_skipped_items s) (fo_ready_for_splicing s)
    (fo_queue_cycle s) (fo_active_items s) (fo_splicing_with s) (fo_subseq_tmouts s) (fo_cur_depth s) k r (fo_rest s).
Definition with_out (b : list Z) (tmouts depth : Z) (s : st) : st :=
  FoSt (fo_afl s) (fo_x s) (fo_cur s) b (fo_pending_not_fuzzed s) (fo_cur_skipped_items s) (fo_ready_for_splicing s)
    (fo_queue_cycle s) (fo_active_items s) (fo_splicing_with s) tmouts depth (fo_cache s) (fo_rng s) (fo_rest s).
Definition with_counts (unfuzzed skipped ready splicing : Z) (s : st) : st :=
  FoSt (fo_afl s) (fo_x s) (fo_cur s) (fo_out s) unfuzzed skipped ready
    (fo_queue_cycle s) (fo_active_items s) splicing (fo_subseq_tmouts s) (fo_cur_depth s) (fo_cache s) (fo_rng s) (fo_rest s).

Definition alter_st (f : st -> st) : stage st unit := fun s => Next tt (f s).

Definition cur_entry : stage st queue_entry := fun s => within (queue_buf (fo_afl s) !! fo_cur s) s.
Definition cur_x : stage st entry_x := fun s => within (fo_x s !! fo_cur s) s.
Definition set_x (f : entry_x -> entry_x) : stage st unit := alter_st (fun s => with_x (alter f (fo_cur s) (fo_x s)) s).
Definition stopping : stage st bool := view (fun s => ph_stop_soon (fo_rest s)).
Definition skip_one : stage st unit := alter_st (fun s =>
  with_counts (fo_pending_not_fuzzed s) (u32 (fo_cur_skipped_items s + 1)) (fo_ready_for_splicing s) (fo_splicing_with s) s).

(** [rand_below(afl, limit)] *)
Definition below (limit : Z) : stage st Z := fun s =>
  match rs_below limit (fo_rng s) with
  | Some (v, r) => Next v (with_source (fo_cache s) r s)
  | None => NoRandom
  end.

(** [queue_testcase_get(afl, afl->queue_cur)]: the bytes behind the pointer.  Each eviction
    takes an entry out of the cache. *)
Definition cur_testcase : stage st (list Z) := fun s =>
  let k := fo_cache s in
  match queue_testcase_get (S (Z.to_nat (c_count k))) (fo_pick_fuel c) (fo_junk c) k (fo_cur s) (fo_rng s) with
  | Ret (p, k, r) => within (deref k p) (with_source k r s)
  | Exit => Fatal
  | Fault => OutOfBounds
  | NoFuel => NoRandom
  end.

(** Whether the entry is not fuzzed this time. *)
Definition skip_entry : stage st bool :=
  a ← view fo_afl;
  q ← cur_entry;
  cycle ← view fo_queue_cycle;
  if z2b (pending_favored a) then
    if z2b (q_fuzz_level q) || negb (q_favored q) then
      r ← below 100; mret (r <? SKIP_TO_NEW_PROB)
    else mret false
  else if negb (non_instrumented_mode a) && negb (q_favored q) && (Queue.queued_items a >? 10) then
    if (cycle >? 1) && negb (z2b (q_fuzz_level q)) then
      r ← below 100; mret (r <? SKIP_NFAV_NEW_PROB)
    else
      r ← below 100; mret (r <? SKIP_NFAV_OLD_PROB)
  else mret false.

(** The test case, and room for it in [out_buf]. *)
Definition load_cur : stage st (list Z) :=
  in_buf ← cur_testcase;
  q ← cur_entry;
  alter_st (fun s => with_out (afl_realloc (fo_out s) (q_len q)) 0 (u32 (q_depth q)) s);;
  mret in_buf.

Definition calibrate_again (in_buf : list Z) : stage st unit :=
  x ← cur_x;
  if negb (z2b (x_cal_failed x)) then mret tt
  else
    res ← (if x_cal_failed x <? CAL_CHANCES then
             set_x (fun x => EntryX (x_cal_failed x) (x_trim_done x) (x_perf_score x) (x_colorized x) (x_quick_eff_bytes x) 0);;
             cycle ← view fo_queue_cycle;
             res ← of_phase (ph_calibrate in_buf (u32 (cycle - 1)));
             (if bool_decide (res = FSRV_RUN_ERROR) then fatal else mret tt);;
             mret res
           else mret FSRV_RUN_TMOUT);
    stop ← stopping;
    if (stop : bool) || negb (bool_decide (res = fo_crash_mode c)) then skip_one;; abandon_entry else mret tt.

(** Trimming; the test case afterwards. *)
Definition trim_entry (in_buf : list Z) : stage st (list Z) :=
  a ← view fo_afl;
  x ← cur_x;
  if negb (non_instrumented_mode a) && negb (x_trim_done x) && negb (fo_disable_trim c) then
    q ← cur_entry;
    let old_len := q_len q in
    res ← of_phase (ph_trim in_buf);
    in_buf ← cur_testcase;
    (if bool_decide (res = FSRV_RUN_ERROR) then fatal else mret tt);;
    stop ← stopping;
    (if (stop : bool) then skip_one;; abandon_entry else mret tt);;
    set_x (fun x => EntryX (x_cal_failed x) true (x_perf_score x) (x_colorized x) (x_quick_eff_bytes x) (x_exec_cksum x));;
    q ← cur_entry;
    alter_st (fun s => with_counts (fo_pending_not_fuzzed s) (fo_cur_skipped_items s)
      (if (q_len q <=? 4) && (old_len >? 4) then u32 (fo_ready_for_splicing s - 1) else fo_ready_for_splicing s)
      (fo_splicing_with s) s);;
    mret in_buf
  else mret in_buf.

(** [memcpy(out_buf, in_buf, len)] *)
Definition copy_entry (in_buf : list Z) (len : Z) : stage st unit :=
  x ← within (load in_buf 0 len);
  b ← view fo_out;
  b ← within (store b 0 x);
  alter_st (fun s => with_out b (fo_subseq_tmouts s) (fo_cur_depth s) s).

Definition perf_entry : stage st Z :=
  if negb (fo_old_seed_selection c) then x ← cur_x; mret (x_perf_score x)
  else
    p ← of_phase ph_score;
    set_x (fun x => EntryX (x_cal_failed x) (x_trim_done x) p (x_colorized x) (x_quick_eff_bytes x) (x_exec_cksum x));;
    mret p.

(** Whether the input-to-state stage is worth its time. *)
Definition its_wanted (q : queue_entry) : stage st bool :=
  execs ← view (fun s => ph_total_execs (fo_rest s));
  items ← view (fun s => Queue.queued_items (fo_afl s));
  if q_favored q || (fo_cmplog_lvl c =? 3)
     || ((fo_cmplog_lvl c =? 2) && (z2b (q_tc_ref q) || (execs mod items <=? 10))) then mret true
  else
    now ← of_phase ph_time;
    found ← view (fun s => ph_last_find_time (fo_rest s));
    mret (u64 (now - found) >? 250000).

Definition its_entry (in_buf : list Z) (len : Z) : stage st unit :=
  q ← cur_entry;
  x ← cur_x;
  if fo_cmplog_mode c && (x_colorized x <? fo_cmplog_lvl c) && (len <=? fo_cmplog_max_filesize c) then
    if len <? 4 then
      set_x (fun x => EntryX (x_cal_failed x) (x_trim_done x) (x_perf_score x) LVL_MAX (x_quick_eff_bytes x) (x_exec_cksum x))
    else
      w ← its_wanted q;
      if (w : bool) then
        r ← of_phase (ph_input_to_state in_buf len);
        if (r : bool) then abandon_entry else mret tt
      else mret tt
  else mret tt.

(** Whether the deterministic stages are done. *)
Definition det_wanted (perf_score : Z) (q : queue_entry) (x : entry_x) : bool :=
  let most := u64 (fo_havoc_max_mult c * 100) in
  let limit := if u64 (q_depth q * 30) <=? most then u64 (q_depth q * 30) else most in
  negb (fo_skip_deterministic c) && negb (q_passed_det q) && z2b (x_quick_eff_bytes x) && negb (perf_score <? limit)
  && negb (z2b (fo_main_node_max c) && negb (x_exec_cksum x mod fo_main_node_max c =? u32 (fo_main_node_id c - 1))).

Definition set_passed_det (q : queue_entry) : queue_entry :=
  Entry (q_len q) (q_id q) (q_depth q) true (q_was_fuzzed q) (q_favored q) (q_fs_redundant q) (q_is_ascii q)
    (q_disabled q) (q_fuzz_level q) (q_n_fuzz_entry q) (q_exec_us q) (q_mother q) (q_tc_ref q) (q_trace_mini q).

Definition det_entry (in_buf : list Z) (len perf_score : Z) : stage st bool :=
  t ← of_phase ph_time;
  (if negb (fo_skip_deterministic c) then
     r ← of_phase (ph_skipdet in_buf len t);
     if negb r then abandon_entry else mret tt
   else mret tt);;
  q ← cur_entry;
  x ← cur_x;
  if negb (det_wanted perf_score q x) then mret false
  else
    r ← of_phase (ph_det in_buf len);
    match r with
    | DetAbandoned => abandon_entry
    | DetLeft => mret true
    | DetDone =>
        alter_st (fun s => with_afl (with_queue (alter (fun q => if q_passed_det q then q else set_passed_det q) (fo_cur s)
                                                  (queue_buf (fo_afl s))) (fo_afl s)) s);;
        mret true
    end.

(** From the test case to the end of the havoc and splicing stages. *)
Definition fuzz_entry : stage st unit :=
  in_buf ← load_cur;
  calibrate_again in_buf;;
  in_buf ← trim_entry in_buf;
  q ← cur_entry;
  let len := q_len q in
  copy_entry in_buf len;;
  perf_score ← perf_entry;
  active ← view fo_active_items;
  (if (perf_score <=? 0) && (active >? 1) then abandon_entry else mret tt);;
  its_entry in_buf len;;
  doing_det ← det_entry in_buf len perf_score;
  if fo_custom_only c then mret tt
  else
    r ← of_phase (ph_havoc in_buf len doing_det perf_score);
    if (r : bool) then abandon_entry else mret tt.

(** *** At the label [abandon_entry] *)

Definition set_fuzzed (was : bool) (level : Z) (q : queue_entry) : queue_entry :=
  Entry (q_len q) (q_id q) (q_depth q) (q_passed_det q) was (q_favored q) (q_fs_redundant q) (q_is_ascii q)
    (q_disabled q) level (q_n_fuzz_entry q) (q_exec_us q) (q_mother q) (q_tc_ref q) (q_trace_mini q).

Definition with_pending (l : list queue_entry) (pending smallest : Z) (reinit : bool) (a : Queue.afl) : Queue.afl :=
  Afl l (Queue.queued_items a) (top_rated a) (trace_bits a) (map_size a) (schedule a) (fixed_seed a) (n_fuzz a) (score_changed a)
    (non_instrumented_mode a) (afl_disable_redundant a) (map_tmp_buf a) (queued_favored a) pending smallest reinit.

Definition note_fuzzed : stage st unit :=
  q ← cur_entry;
  x ← cur_x;
  stop ← stopping;
  alter_st (fun s =>
    let a := fo_afl s in
    let level := u32 (q_fuzz_level q + 1) in
    if negb stop && negb (z2b (x_cal_failed x)) && negb (q_was_fuzzed q) && negb (q_disabled q) then
      let l := <[fo_cur s := set_fuzzed true level q]> (queue_buf a) in
      with_counts (u32 (fo_pending_not_fuzzed s - 1)) (fo_cur_skipped_items s) (fo_ready_for_splicing s) (-1)
        (with_afl (if q_favored q then with_pending l (u32 (pending_favored a - 1)) (-1) true a
                   else with_pending l (pending_favored a) (smallest_favored a) true a) s)
    else
      with_counts (fo_pending_not_fuzzed s) (fo_cur_skipped_items s) (fo_ready_for_splicing s) (-1)
        (with_afl (with_queue (<[fo_cur s := set_fuzzed (q_was_fuzzed q) level q]> (queue_buf a)) a) s)).

(** [fuzz_one_original]: the value that is returned. *)
Definition fuzz_one_original : stage st bool :=
  skip ← skip_entry;
  if (skip : bool) then mret true
  else
    r ← (fun s => match fuzz_entry s with
                  | Next _ s => Next false s
                  | Abandon s => Next true s
                  | Leave s => Leave s
                  | Fatal => Fatal
                  | OutOfBounds => OutOfBounds
                  | NoRandom => NoRandom
                  | Unfinished => Unfinished
                  end);
    note_fuzzed;;
    mret r.

(** ** The selection *)

(** A turn of the loop in [main], for the new seed selection and without MOpt. *)
Definition select_turn : stage st bool :=
  a ← view fo_afl;
  (if z2b (pending_favored a) && (smallest_favored a >=? 0) then alter_st (with_cur (Z.to_nat (smallest_favored a)))
   else k ← of_draw ph_select; alter_st (with_cur k));;
  skipped ← fuzz_one_original;
  stop ← stopping;
  mret (skipped && negb stop).

(** [do { ... } while (skipped_fuzz && afl->queue_cur && !afl->stop_soon);] *)
Fixpoint select_loop (fuel : nat) : stage st unit :=
  match fuel with
  | O => fun _ => Unfinished
  | S fuel => again ← select_turn; if (again : bool) then select_loop fuel else mret tt
  end.
End FuzzOne.
