(* ===== verification/FuzzOneMain.v ===== *)
(** * A round of fuzzing: theorems

    The counts of the entries that are waited for, and a favoured entry whose calibration
    has failed too often. *)

From S2P Require Import Prelude Res Rng Tmin Cache CacheFacts CacheMain Queue QueueFacts CullFacts Stage StageFacts FuzzOne.

Abbreviation is_unfuzzed := (fun q => q_was_fuzzed q = false).
Definition n_unfuzzed (l : list queue_entry) : Z := zlen (filter is_unfuzzed l).

Section Main.
Context {W R : Type} `{Phases W R} `{RandSource R} (c : fo_cfg).
Abbreviation st := (fo_st W R).
Abbreviation queue s := (queue_buf (fo_afl s)).

(** The current entry is in the queue. *)
Definition present (s : st) : Prop :=
  (exists q x, queue s !! fo_cur s = Some q /\ fo_x s !! fo_cur s = Some x) /\ zlen (queue s) < 2 ^ 32.

(** The counts are those of the queue: as [cull_queue] and [add_to_queue] leave them. *)
Record counted (s : st) : Prop := Counted {
  ct_pending : pending_favored (fo_afl s) = n_pending (queue s);
  ct_unfuzzed : fo_pending_not_fuzzed s = n_unfuzzed (queue s);
  ct_smallest : smallest_favored (fo_afl s) = -1 \/
    exists i q, smallest_favored (fo_afl s) = Z.of_nat i /\ queue s !! i = Some q /\ q_favored q = true /\ q_was_fuzzed q = false
}.

(** Whether the entry counts as fuzzed from now on. *)
Definition fuzzed_now (s : st) (q : queue_entry) (x : entry_x) : bool :=
  negb (ph_stop_soon (fo_rest s)) && negb (z2b (x_cal_failed x)) && negb (q_was_fuzzed q) && negb (q_disabled q).

(** The end of a round, from [s] to [s']. *)
Record noted (s s' : st) : Prop := Noted {
  nt_entry : exists q x, queue s !! fo_cur s = Some q /\ fo_x s !! fo_cur s = Some x /\
    queue s' = <[fo_cur s := set_fuzzed (q_was_fuzzed q || fuzzed_now s q x) (u32 (q_fuzz_level q + 1)) q]> (queue s) /\
    pending_favored (fo_afl s') = pending_favored (fo_afl s) - b2z (fuzzed_now s q x && q_favored q) /\
    fo_pending_not_fuzzed s' = fo_pending_not_fuzzed s - b2z (fuzzed_now s q x) /\
    smallest_favored (fo_afl s') = (if fuzzed_now s q x && q_favored q then -1 else smallest_favored (fo_afl s)) /\
    reinit_table (fo_afl s') = fuzzed_now s q x || reinit_table (fo_afl s);
  nt_rest : fo_cur s' = fo_cur s /\ fo_x s' = fo_x s /\ fo_rest s' = fo_rest s /\ fo_cache s' = fo_cache s /\ fo_splicing_with s' = -1
}.

Lemma n_pending_range l : 0 <= n_pending l <= zlen l.
Proof. unfold n_pending, zlen. pose proof (length_filter (fun q => q_favored q = true /\ q_was_fuzzed q = false) l). lia. Qed.
Lemma n_unfuzzed_range l : 0 <= n_unfuzzed l <= zlen l.
Proof. unfold n_unfuzzed, zlen. pose proof (length_filter (fun q => q_was_fuzzed q = false) l). lia. Qed.

Lemma n_pending_pos l i q : l !! i = Some q -> q_favored q = true -> q_was_fuzzed q = false -> 1 <= n_pending l.
Proof.
  intros Hq Hf Hw. pose proof (n_pending_range (<[i := set_favored false q]> l)) as Hr. unfold n_pending in *.
  rewrite (count_insert is_pending _ _ q) in Hr by done. rewrite decide_True in Hr by done. rewrite decide_False in Hr by (by intros []). lia.
Qed.
Lemma n_unfuzzed_pos l i q : l !! i = Some q -> q_was_fuzzed q = false -> 1 <= n_unfuzzed l.
Proof.
  intros Hq Hw. pose proof (n_unfuzzed_range (<[i := set_fuzzed true 0 q]> l)) as Hr. unfold n_unfuzzed in *.
  rewrite (count_insert is_unfuzzed _ _ q) in Hr by done. rewrite decide_True in Hr by done. rewrite decide_False in Hr by done. lia.
Qed.

Lemma note_fuzzed_run s : present s -> counted s -> exists s', note_fuzzed s = Next tt s' /\ noted s s'.
Proof.
  intros [(q&x&Hq&Ex) Hz] [C1 C2 C3]. unfold note_fuzzed, mbind, stage_bind, cur_entry, cur_x, within. rewrite Hq, Ex.
  unfold stopping, view, alter_st. eexists. split; [reflexivity|].
  fold (fuzzed_now s q x). pose proof (n_pending_range (queue s)). pose proof (n_unfuzzed_range (queue s)).
  destruct (fuzzed_now s q x) eqn:Ef; cbv zeta.
  - assert (q_was_fuzzed q = false) as Hw by (unfold fuzzed_now in Ef; b2p; done). pose proof (n_unfuzzed_pos _ _ _ Hq Hw).
    split; [exists q, x; rewrite Ef; split_and!; try done; cbn|by destruct (q_favored q)].
    + rewrite orb_true_r. by destruct (q_favored q).
    + destruct (q_favored q) eqn:Ev; cbn; [|lia]. pose proof (n_pending_pos _ _ _ Hq Ev Hw). rewrite wrap_small by (unfold in_width; lia). lia.
    + rewrite wrap_small by (unfold in_width; lia). lia.
    + by destruct (q_favored q).
    + by destruct (q_favored q).
  - split; [exists q, x; rewrite Ef; split_and!; try done; cbn; [by rewrite orb_false_r|lia..]|done].
Qed.

Lemma noted_counted s s' : counted s -> noted s s' -> counted s'.
Proof.
  intros [C1 C2 C3] [(q&x&Hq&Hx&Hl&Hp&Hu&Hs&_) _]. set (n := set_fuzzed _ _ _) in Hl. set (f := fuzzed_now s q x) in *.
  assert (f = true -> q_was_fuzzed q = false) as Hw by (unfold f, fuzzed_now; intros; b2p; done).
  split.
  - rewrite Hl, Hp, C1. unfold n_pending. rewrite (count_insert is_pending _ _ q) by done.
    destruct (q_favored q) eqn:Ef, f; cbn [andb b2z]; rewrite ?(Hw eq_refl);
      repeat (destruct (decide _) as [[? ?]|?]; cbn in *); rewrite ?Ef, ?orb_true_r, ?orb_false_r in *; try lia; intuition congruence.
  - rewrite Hl, Hu, C2. unfold n_unfuzzed. rewrite (count_insert is_unfuzzed _ _ q) by done.
    destruct f; cbn [b2z]; rewrite ?(Hw eq_refl); repeat (destruct (decide _); cbn in *); rewrite ?orb_true_r, ?orb_false_r in *; try lia; intuition congruence.
  - rewrite Hs, Hl. destruct (f && q_favored q) eqn:Ef; [by left|]. destruct C3 as [?|(i&q'&Hi&Hq'&Hf&Hw')]; [by left|right].
    destruct (decide (i = fo_cur s)) as [->|Hne].
    + simplify_eq. rewrite Hf, andb_true_r in Ef. exists (fo_cur s), n. split_and!; [done| |done|].
      * apply list_lookup_insert_eq. by eapply lookup_lt_Some.
      * unfold n. cbn. by rewrite Hw', Ef.
    + exists i, q'. split_and!; try done. by rewrite list_lookup_insert_ne.
Qed.

(** ** An entry that is given up every time *)

(** [m] goes on with [Q] or gives the entry up with [A]; only the random source may fail. *)
Definition alive {X} (m : stage st X) (s : st) (Q : X -> st -> Prop) (A : st -> Prop) : Prop :=
  match m s with
  | Next a s => Q a s
  | Abandon s => A s
  | NoRandom => True
  | Leave _ | Fatal | OutOfBounds | Unfinished => False
  end.

Lemma alive_ret {X} (a : X) (s : st) (Q : X -> st -> Prop) A : Q a s -> alive (mret a) s Q A.
Proof. done. Qed.

Lemma alive_bind {X Y} (m : stage st X) (k : X -> stage st Y) s Q A :
  alive m s (fun a s => alive (k a) s Q A) A -> alive (m ≫= k) s Q A.
Proof. unfold alive, mbind, stage_bind. by destruct (m s). Qed.

Lemma alive_weaken {X} (m : stage st X) s (Q Q' : X -> st -> Prop) (A A' : st -> Prop) :
  alive m s Q A -> (forall a s, Q a s -> Q' a s) -> (forall s, A s -> A' s) -> alive m s Q' A'.
Proof. unfold alive. destruct (m s); auto. Qed.

(** The entry [i] is the favoured one that is waited for, and its calibration has failed too
    often; the test case cache is well formed. *)
Record stuck (i : nat) (s : st) : Prop := Stuck {
  sk_pending : pending_favored (fo_afl s) <> 0;
  sk_smallest : smallest_favored (fo_afl s) = Z.of_nat i;
  sk_entry : exists q, queue s !! i = Some q;
  sk_failed : exists x, fo_x s !! i = Some x /\ CAL_CHANCES <= x_cal_failed x;
  sk_cache : cache_wf (fo_cache s);
  sk_file : exists e, c_queue (fo_cache s) !! i = Some e;
  sk_running : ph_stop_soon (fo_rest s) = false
}.

Lemma stuck_cur i s : stuck i s -> stuck i (with_cur i s).
Proof. intros []. constructor; try done. destruct sk_cache0. constructor; assumption. Qed.

Lemma stuck_rng i s r : stuck i s -> stuck i (with_source (fo_cache s) r s).
Proof. intros []. by constructor. Qed.

(** A draw, whatever is done with it. *)
Lemma stuck_draw i (f : Z -> bool) s :
  stuck i s -> fo_cur s = i ->
  alive (r ← below 100; mret (f r)) s (fun _ s' => stuck i s' /\ fo_cur s' = i) (fun _ => False).
Proof.
  intros Hs Hc. unfold alive, below, mbind, stage_bind. destruct (rs_below 100 _) as [[v r]|]; [|done].
  split; [by apply stuck_rng|done].
Qed.

Lemma stuck_skip i s :
  stuck i s -> fo_cur s = i -> alive skip_entry s (fun _ s' => stuck i s' /\ fo_cur s' = i) (fun _ => False).
Proof.
  intros Hs Hc. destruct (sk_entry _ _ Hs) as [q Hq]. unfold skip_entry. apply alive_bind. unfold alive at 1, view.
  apply alive_bind. unfold alive at 1, cur_entry, within. rewrite Hc, Hq. apply alive_bind. unfold alive at 1, view.
  unfold z2b. rewrite (proj2 (Z.eqb_neq _ _) (sk_pending _ _ Hs)). cbn [negb].
  destruct (_ || _); [by apply stuck_draw|by apply alive_ret].
Qed.

Lemma stuck_load i s :
  stuck i s -> fo_cur s = i -> alive (load_cur c) s (fun _ s' => stuck i s' /\ fo_cur s' = i) (fun _ => False).
Proof.
  intros Hs Hc. destruct (sk_file _ _ Hs) as [e He]. destruct (sk_entry _ _ Hs) as [q Hq].
  unfold load_cur. apply alive_bind. unfold alive at 1, cur_testcase. rewrite Hc. set (k := fo_cache s) in *.
  pose proof (get_ok (S (Z.to_nat (c_count k))) (fo_pick_fuel c) (fo_junk c) k i e (fo_rng s) (sk_cache _ _ Hs) He) as Hg.
  destruct (queue_testcase_get _ _ _ _ _ _) as [[[p k'] r']| | |]; [|exfalso; apply Hg; lia..|done].
  destruct Hg as (Hw&Hk&_&b&Hb&_); [lia|]. rewrite Hb. cbn [within].
  apply alive_bind. unfold alive at 1, cur_entry, within. cbn [with_source fo_afl fo_cur]. rewrite Hc, Hq.
  apply alive_bind. unfold alive at 1, alter_st. apply alive_ret. split; [|done]. destruct Hs. constructor; try done. cbn.
  destruct Hk as (_&_&Hk). destruct (Hk _ _ He) as (b'&Hb'&_). by eexists.
Qed.

(** The entry is given up before any of the phases. *)
Lemma stuck_given_up i b s :
  fo_crash_mode c <> FSRV_RUN_TMOUT -> stuck i s -> fo_cur s = i ->
  alive (calibrate_again c b) s (fun _ _ => False) (fun s' => stuck i s' /\ fo_cur s' = i).
Proof.
  intros Hm Hs Hc. destruct (sk_failed _ _ Hs) as (x&Hx&Hf). unfold calibrate_again, CAL_CHANCES in *.
  apply alive_bind. unfold alive at 1, cur_x, within. rewrite Hc, Hx.
  unfold z2b. rewrite (proj2 (Z.eqb_neq _ 0)) by lia. cbn [negb]. rewrite (proj2 (Z.ltb_ge _ _)) by lia.
  apply alive_bind, alive_ret. apply alive_bind. unfold alive at 1, stopping, view.
  rewrite bool_decide_false by congruence. rewrite orb_true_r. apply alive_bind. unfold alive at 1, skip_one, alter_st.
  split; [|done]. destruct Hs. by constructor.
Qed.

(** Its round: the value 1, and it is waited for as before. *)
Lemma stuck_noted i s :
  stuck i s -> fo_cur s = i -> alive note_fuzzed s (fun _ s' => stuck i s' /\ fo_cur s' = i) (fun _ => False).
Proof.
  intros Hs Hc. destruct (sk_entry _ _ Hs) as [q Hq]. destruct (sk_failed _ _ Hs) as (x&Hx&Hf).
  unfold alive, note_fuzzed, mbind, stage_bind, cur_entry, cur_x, within. rewrite Hc, Hq, Hc, Hx. unfold stopping, view, alter_st, z2b.
  rewrite (proj2 (Z.eqb_neq (x_cal_failed x) 0)) by (unfold CAL_CHANCES in *; lia). cbn [negb]. rewrite andb_false_r. cbn [andb].
  split; [|done]. destruct Hs. constructor; try done. cbn. rewrite Hc. eexists. apply list_lookup_insert_eq. by eapply lookup_lt_Some.
Qed.

Lemma stuck_round i s :
  fo_crash_mode c <> FSRV_RUN_TMOUT -> stuck i s -> fo_cur s = i ->
  alive (fuzz_one_original c) s (fun r s' => r = true /\ stuck i s') (fun _ => False).
Proof.
  intros Hm Hs Hc. unfold fuzz_one_original. apply alive_bind. eapply alive_weaken; [by apply (stuck_skip i)| |done].
  intros skip s1 [Hs1 Hc1]. destruct skip; [by apply alive_ret|]. apply alive_bind.
  assert (alive (fuzz_entry c) s1 (fun _ _ => False) (fun s' => stuck i s' /\ fo_cur s' = i)) as Hf.
  { unfold fuzz_entry. apply alive_bind. eapply alive_weaken; [by apply (stuck_load i)| |done].
    intros b s2 [Hs2 Hc2]. apply alive_bind. eapply alive_weaken; [by apply (stuck_given_up i)|done|done]. }
  unfold alive at 1. unfold alive in Hf. destruct (fuzz_entry c s1) as [|s2| | | | |]; try done. destruct Hf as [Hs2 Hc2].
  apply alive_bind. eapply alive_weaken; [by apply (stuck_noted i)| |done]. intros ? s3 [Hs3 _]. by apply alive_ret.
Qed.

Lemma stuck_turn i s :
  fo_crash_mode c <> FSRV_RUN_TMOUT -> stuck i s ->
  alive (select_turn c) s (fun again s' => again = true /\ stuck i s') (fun _ => False).
Proof.
  intros Hm Hs. unfold select_turn. apply alive_bind. unfold alive at 1, view. unfold z2b.
  rewrite (proj2 (Z.eqb_neq _ _) (sk_pending _ _ Hs)), (sk_smallest _ _ Hs), (proj2 (Z.geb_le _ _)) by lia. cbn [negb andb].
  apply alive_bind. unfold alive at 1, alter_st. rewrite Nat2Z.id. apply alive_bind.
  eapply alive_weaken; [apply (stuck_round i); [done|by apply stuck_cur|done]| |done]. intros r s' [-> Hs'].
  apply alive_bind. unfold alive at 1, stopping, view. apply alive_ret. by rewrite (sk_running _ _ Hs').
Qed.
End Main.

(** C20. At the label [abandon_entry], for any phases: the current entry's level is raised by one;
    it counts as fuzzed from then on, and the seed selection table is to be rebuilt, exactly
    when it had not been fuzzed, the fuzzer is not to stop, its calibration did not fail and it
    is enabled; and the counts stay those of the queue: [pending_favored] is the number of
    favoured entries that were not fuzzed, [pending_not_fuzzed] that of all that were not,
    neither of them wraps around, and [smallest_favored] is -1 or such a favoured entry.
    Nothing else changes but [splicing_with].  (The file is read without the stray brace of
    line 2205.) *)
Theorem note_fuzzed_correct {W R} `{Phases W R} (s : fo_st W R) :
  present s -> counted s ->
  exists s', note_fuzzed s = Next tt s' /\ noted s s' /\ counted s'.
Proof.
  intros Hp Hc. destruct (note_fuzzed_run s Hp Hc) as (s'&E&Hn). exists s'. split_and!; [done..|by eapply noted_counted].
Qed.

(** C37. What [main] does when the favoured entry it waits for has used up its [CAL_CHANCES]: as
    long as the fuzzer is not told to stop, the loop that selects an entry does not end, after
    any number of turns.  In every turn the entry is skipped or given up before any phase is
    run, with the value 1 in both cases, and neither [pending_favored] nor [smallest_favored]
    is changed, so that it is the next to be selected.  This holds for any phases and any
    source of random numbers, which may stop to answer ([NoRandom]), and for crash modes other
    than a timeout.  (The file is read without the stray brace of line 2205.) *)
Theorem select_spins {W R} `{Phases W R} `{RandSource R} c fuel i (s : fo_st W R) :
  fo_crash_mode c <> FSRV_RUN_TMOUT -> stuck i s ->
  match select_loop c fuel s with
  | Unfinished | NoRandom => True
  | _ => False
  end.
Proof.
  intros Hm. revert s. induction fuel as [|fuel IH]; intros s Hs; [done|]. cbn [select_loop].
  pose proof (stuck_turn c i s Hm Hs) as Ht. unfold alive in Ht. unfold mbind, stage_bind.
  destruct (select_turn c s) as [again s'| | | | | |]; try done. destruct Ht as [-> Hs']. by apply IH.
Qed.

(** ** The hypotheses hold *)

(** Phases that do nothing, with the generator of the fuzzer. *)
Definition idle_phases : Phases unit rng := {|
  ph_calibrate b n s := (FSRV_RUN_OK, s);
  ph_trim b s := (FSRV_RUN_OK, s);
  ph_score s := (100, s);
  ph_input_to_state b n s := (false, s);
  ph_time s := (0, s);
  ph_skipdet b n t s := (true, s);
  ph_det b n s := (DetDone, s);
  ph_havoc b n d p s := (false, s);
  ph_select s := Some (O, s);
  ph_stop_soon _ := false;
  ph_total_execs _ := 1;
  ph_last_find_time _ := 0
|}.

#[local] Existing Instance idle_phases.
#[local] Instance round_rng : RandSource rng := rng_source 64.

(** Three entries, of which the second is favoured and was not fuzzed; its calibration failed
    [n] times.  The cache is that of [CacheMain]. *)
Definition round_ex (n : Z) (cur : nat) : fo_st unit rng :=
  FoSt (Afl [Entry 3 0 1 true true false false false false 1 0 100 None 0 None;
             Entry 2 1 2 false false true false false false 0 0 100 None 0 None;
             Entry 2 2 2 false true false false false false 1 0 100 None 0 None]
          3 [] [] 0 FAST false [] false false false [] 1 1 1 false)
    [EntryX 0 true 100 0 1 0; EntryX n false 100 0 1 0; EntryX 0 false 100 0 1 0] cur [] 1 0 2 1 2 (-1) 0 0
    cache_ex demo_rng tt.
Definition round_ex_cfg : fo_cfg := FoCfg FSRV_RUN_OK false false true 2 1000 false 16 0 0 false 100 None.

(** The phases are run, the bytes 4 and 5 of the entry are in [out_buf], and it counts as fuzzed. *)
Example round_fuzzed : match fuzz_one_original round_ex_cfg (with_cur 1 (round_ex 0 1)) with
  | Next r s' => (r, q_was_fuzzed <$> queue_buf (fo_afl s'), pending_favored (fo_afl s'), smallest_favored (fo_afl s'), take 2 (fo_out s'))
  | _ => (true, [], 0, 0, [])
  end = (false, [true; true; true], 0, -1, [4; 5]).
Proof. vm_compute. reflexivity. Qed.

Lemma note_fuzzed_correct_witness :
  exists s', note_fuzzed (round_ex 0 1) = Next tt s' /\ noted (round_ex 0 1) s' /\ counted s' /\
    (pending_favored (fo_afl s'), smallest_favored (fo_afl s'), fo_pending_not_fuzzed s') = (0, -1, 0).
Proof.
  destruct (note_fuzzed_correct (round_ex 0 1)) as (s'&E&Hn&Hc).
  - split; [by eexists _, _|]. done.
  - split; [done..|]. right. by exists 1%nat, (Entry 2 1 2 false false true false false false 0 0 100 None 0 None).
  - exists s'. split_and!; try done. vm_compute in E. by injection E as <-.
Defined.

(** Here no number of turns is enough. *)
Lemma select_spins_witness :
  match select_loop round_ex_cfg 200 (round_ex 3 0) with
  | Unfinished | NoRandom => True
  | _ => False
  end /\ select_loop round_ex_cfg 200 (round_ex 3 0) = Unfinished.
Proof.
  split; [|vm_compute; reflexivity]. apply (select_spins round_ex_cfg 200 1 (round_ex 3 0)); [discriminate|].
  constructor; try done; [by eexists|by exists (EntryX 3 false 100 0 1 0)|apply cache_ex_wf|by eexists].
Defined.
