(* ===== verification/Skipdet.v ===== *)
(** * Which bytes the deterministic stages look at

    [src/afl-fuzz-skipdet.c]: the choice of the test cases for the deterministic stages,
    the inference of blocks that do not matter and the map of the effective bytes.  The
    counters for the statistics are left out. *)

From S2P Require Import Prelude Res Rng Extras Tmin Stage.

Definition MINIMAL_BLOCK_SIZE : Z := 64.
Definition MAXIMUM_QUICK_EFF_EXECS : Z := 64 * 1024.
Definition THRESHOLD_DEC_TIME : Z := 20 * 60 * 1000.

Section Skipdet.
Context {W R : Type} `{Fuzzer W} `{RandSource R}.

(** [struct skipdet_global], [virgin_det_bits] empty before it is allocated. *)
Record skipdet_global := SkipdetGlobal {
  undet_bits_threshold : Z;
  last_cov_undet : Z;
  virgin_det_bits : list Z
}.

Record skipdet_entry := SkipdetEntry {
  continue_inf : bool;
  done_eff : bool;
  undet_bits : Z;
  quick_eff_bytes : Z;
  skip_eff_map : option (list Z);
  done_inf_map : option (list Z)
}.

(** What is read of the fuzzer and of the entry. *)
Record skip_cfg := SkipCfg {
  orig_buf : list Z;
  len : Z;
  map_size : Z;
  favored : bool;
  passed_det : bool;
  trace_mini : option (list Z);
  before_det_time : Z;
  min_length : Z;
  max_length : Z;
  repeat_eff : bool;
  fuzz_nearby : bool
}.

Record skip_st := SkipSt {
  s_out : list Z;
  s_global : skipdet_global;
  s_entry : skipdet_entry;
  s_env : env W R
}.

Context (c : skip_cfg).

(** ** Accesses *)

Definition up {A} (m : stage (env W R) A) : stage skip_st A := fun s =>
  match m (s_env s) with
  | Next a e => Next a (SkipSt (s_out s) (s_global s) (s_entry s) e)
  | Abandon e => Abandon (SkipSt (s_out s) (s_global s) (s_entry s) e)
  | Leave e => Leave (SkipSt (s_out s) (s_global s) (s_entry s) e)
  | Fatal => Fatal
  | OutOfBounds => OutOfBounds
  | NoRandom => NoRandom
  | Unfinished => Unfinished
  end.

Definition global : stage skip_st skipdet_global := fun s => Next (s_global s) s.
Definition entry : stage skip_st skipdet_entry := fun s => Next (s_entry s) s.
Definition out : stage skip_st (list Z) := fun s => Next (s_out s) s.

Definition set_global (g : skipdet_global) : stage skip_st unit := fun s =>
  Next tt (SkipSt (s_out s) g (s_entry s) (s_env s)).
Definition set_entry (e : skipdet_entry) : stage skip_st unit := fun s =>
  Next tt (SkipSt (s_out s) (s_global s) e (s_env s)).
Definition set_out (b : list Z) : stage skip_st unit := fun s =>
  Next tt (SkipSt b (s_global s) (s_entry s) (s_env s)).

Definition time : stage skip_st Z := fun s =>
  let '(t, w) := get_cur_time (e_fuzzer (s_env s)) in
  Next t (SkipSt (s_out s) (s_global s) (s_entry s) (with_fuzzer w (s_env s))).

Definition items : stage skip_st Z := fun s => Next (queued_items (e_fuzzer (s_env s))) s.

(** [if (common_fuzz_stuff(afl, buf, len)) { return 0; }] *)
Definition try_run (buf : list Z) : stage skip_st unit :=
  b ← up (common_fuzz_stuff (min_length c) (max_length c) buf (len c));
  if (b : bool) then abandon_entry else mret tt.

(** ** The choice of the test case *)

Definition set_threshold (n : Z) : stage skip_st unit :=
  g ← global; set_global (SkipdetGlobal n (last_cov_undet g) (virgin_det_bits g)).
Definition set_last_cov (t : Z) : stage skip_st unit :=
  g ← global; set_global (SkipdetGlobal (undet_bits_threshold g) t (virgin_det_bits g)).
Definition set_virgin_det (v : list Z) : stage skip_st unit :=
  g ← global; set_global (SkipdetGlobal (undet_bits_threshold g) (last_cov_undet g) v).

(** [q->trace_mini[i >> 3] & (1 << (i & 7))] *)
Definition mini_bit (mini : list Z) (i : Z) : option bool :=
  v ← get mini (Z.shiftr i 3); Some (z2b (Z.land v (Z.shiftl 1 (Z.land i 7)))).

Definition count_step (mini virgin : list Z) (i n : Z) : stage skip_st Z :=
  b ← within (mini_bit mini i);
  if (b : bool) then
    v ← within (get virgin i);
    mret (if v =? 0 then u32 (n + 1) else n)
  else mret n.

Definition mark_step (mini : list Z) (i : Z) (virgin : list Z) : stage skip_st (list Z) :=
  b ← within (mini_bit mini i);
  if (b : bool) then
    v ← within (get virgin i);
    if v =? 0 then within (put virgin i 1) else mret virgin
  else mret virgin.

(** The products with 0.75 and 0.05 are truncated to [u32]; the literal 0.05 is rounded
    up, so that the second is the quotient by 20 for every [u32]. *)
Definition should_det_fuzz : stage skip_st bool :=
  g ← global;
  (if zlen (virgin_det_bits g) =? 0 then set_virgin_det (replicate (Z.to_nat (map_size c)) 0)
   else mret tt);;
  if negb (favored c) || passed_det c then mret false
  else
    match trace_mini c with
    | None => mret false
    | Some mini =>
        g ← global;
        (if last_cov_undet g =? 0 then t ← time; set_last_cov t else mret tt);;
        t ← time;
        g ← global;
        (if THRESHOLD_DEC_TIME <=? u64 (t - last_cov_undet g) then
           if 2 <=? undet_bits_threshold g then
             set_threshold (undet_bits_threshold g * 3 / 4);;
             t ← time;
             set_last_cov t
           else mret tt
         else mret tt);;
        g ← global;
        new_det_bits ← each_with (seqZ 0 (map_size c)) (count_step mini (virgin_det_bits g)) 0;
        (if undet_bits_threshold g =? 0 then set_threshold (new_det_bits / 20) else mret tt);;
        g ← global;
        if undet_bits_threshold g <=? new_det_bits then
          t ← time;
          set_last_cov t;;
          e ← entry;
          set_entry (SkipdetEntry (continue_inf e) (done_eff e) new_det_bits (quick_eff_bytes e)
                       (skip_eff_map e) (done_inf_map e));;
          v ← each_with (seqZ 0 (map_size c)) (mark_step mini) (virgin_det_bits g);
          set_virgin_det v;;
          mret true
        else mret false
    end.

(** ** The inference of blocks that do not matter *)

Definition flip_range (pos size : Z) : stage skip_st unit :=
  each (seqZ 0 size) (fun i =>
    b ← out;
    v ← within (get b (pos + i));
    b ← within (put b (pos + i) (Z.lxor v 0xff));
    set_out b).

(** The loop over the sizes at [pos]: the size at which it stops. *)
Fixpoint grow_block (fuel : nat) (clean_cksum pos cur_block_size : Z) : stage skip_st Z :=
  match fuel with
  | O => fun _ => Unfinished
  | S fuel =>
      if cur_block_size <? len c / 8 then
        let flip_block_size :=
          if u32 (cur_block_size + pos) <? len c then cur_block_size else u32 (len c - 1 - pos) in
        flip_range pos flip_block_size;;
        b ← out;
        try_run b;;
        flip_range pos flip_block_size;;
        cksum ← up cksum_env;
        if cksum =? clean_cksum then
          let cur_block_size := u32 (cur_block_size * 2) in
          if u32 (len c - 1 - pos) <=? cur_block_size then mret cur_block_size
          else grow_block fuel clean_cksum pos cur_block_size
        else mret cur_block_size
      else mret cur_block_size
  end.

(** The loop over the positions on [inf_eff_map]. *)
Fixpoint infer_blocks (fuel : nat) (clean_cksum pos : Z) (inf_eff_map : list Z) :
  stage skip_st (list Z) :=
  match fuel with
  | O => fun _ => Unfinished
  | S fuel =>
      if pos <? u32 (len c - 1) then
        cur_block_size ← grow_block 32 clean_cksum pos MINIMAL_BLOCK_SIZE;
        if cur_block_size =? MINIMAL_BLOCK_SIZE then
          infer_blocks fuel clean_cksum (u32 (pos + cur_block_size)) inf_eff_map
        else
          let cur_skip_len :=
            if u32 (cur_block_size / 2 + pos) <? len c then cur_block_size / 2
            else u32 (len c - pos - 1) in
          m ← within (store inf_eff_map pos (replicate (Z.to_nat cur_skip_len) 0));
          infer_blocks fuel clean_cksum (u32 (pos + cur_skip_len)) m
      else mret inf_eff_map
  end.

Definition inference (fuel : nat) : stage skip_st (list Z) :=
  let inf_eff_map := replicate (Z.to_nat (len c)) 1 in
  try_run (orig_buf c);;
  cksum ← up cksum_env;
  if MINIMAL_BLOCK_SIZE * 8 <? len c then infer_blocks fuel cksum 0 inf_eff_map
  else mret inf_eff_map.

(** ** The map of the effective bytes *)

(** [replace], another byte than [orig]; a source that goes on giving [orig] does not
    answer. *)
Fixpoint other_byte (fuel : nat) (orig : Z) : stage skip_st Z :=
  match fuel with
  | O => fun _ => NoRandom
  | S fuel =>
      r ← up (rand_below_env 256);
      if u8 r =? orig then other_byte fuel orig else mret (u8 r)
  end.

(** The variables of the loop: [stage_cur], [stage_max], [eff_round_continue], and
    [non_eff_bytes]. *)
Record eff_vars := EffVars {
  v_cur : Z;
  v_max : Z;
  v_continue : bool;
  v_non_eff : list Z
}.

Definition maps : stage skip_st (list Z * list Z) :=
  e ← entry;
  s ← within (skip_eff_map e);
  d ← within (done_inf_map e);
  mret (s, d).

Definition set_maps (s d : list Z) (found : Z) : stage skip_st unit :=
  e ← entry;
  set_entry (SkipdetEntry (continue_inf e) (done_eff e) (undet_bits e)
               (u32 (quick_eff_bytes e + found)) (Some s) (Some d)).

(** One byte that is tried. *)
Definition try_byte (fuel : nat) (prev_cksum : Z) (v : eff_vars) : stage skip_st eff_vars :=
  let i := v_cur v in
  b ← out;
  orig ← within (get b i);
  replace ← other_byte fuel orig;
  b ← within (put b i replace);
  set_out b;;
  before ← items;
  try_run b;;
  b ← within (put b i orig);
  set_out b;;
  non_eff ← (if fuzz_nearby c then
               cksum ← up cksum_env;
               if prev_cksum =? cksum then within (put (v_non_eff v) i 1) else mret (v_non_eff v)
             else mret (v_non_eff v));
  after ← items;
  '(s, d) ← maps;
  if negb (after =? before) then
    s ← within (bitmap_set s i);
    let stage_max := if v_max v <? MAXIMUM_QUICK_EFF_EXECS then u32 (v_max v * 2) else v_max v in
    d ← within (bitmap_set d i);
    set_maps s d 1;;
    mret (EffVars i stage_max
            (v_continue v || ((stage_max =? MAXIMUM_QUICK_EFF_EXECS) && repeat_eff c)) non_eff)
  else
    d ← within (bitmap_set d i);
    set_maps s d 0;;
    mret (EffVars i (v_max v) (v_continue v) non_eff).

(** One round; the first component is whether the time is over. *)
Fixpoint eff_loop (n rfuel : nat) (inf_eff_map : list Z) (prev_cksum : Z) (v : eff_vars) :
  stage skip_st (bool * eff_vars) :=
  match n with
  | O => fun _ => Unfinished
  | S n =>
      let i := v_cur v in
      let next (v : eff_vars) :=
        eff_loop n rfuel inf_eff_map prev_cksum
          (EffVars (u32 (v_cur v + 1)) (v_max v) (v_continue v) (v_non_eff v)) in
      if (i <? v_max v) && (i <? len c) then
        f ← within (get inf_eff_map i);
        '(s, _) ← maps;
        skip ← (if f =? 0 then mret true else within (bitmap_read s i));
        if (skip : bool) then next v
        else
          t ← up (is_det_timeout (before_det_time c) true);
          if (t : bool) then mret (true, v)
          else
            v ← try_byte rfuel prev_cksum v;
            next v
      else mret (false, v)
  end.

(** The rounds, at most eight; the result is [done_eff]. *)
Fixpoint eff_rounds (rounds n rfuel : nat) (inf_eff_map : list Z) (prev_cksum : Z)
  (done : bool) (v : eff_vars) : stage skip_st (bool * eff_vars) :=
  match rounds with
  | O => mret (done, v)
  | S rounds =>
      '(t, v) ← eff_loop n rfuel inf_eff_map prev_cksum
        (EffVars (v_cur v) (32 * 1024) false (v_non_eff v));
      if (t : bool) then mret (done, v)
      else
        let v := EffVars 0 (v_max v) (v_continue v) (v_non_eff v) in
        if v_continue v then eff_rounds rounds n rfuel inf_eff_map prev_cksum true v
        else mret (true, v)
  end.

(** With [FUZZ_NEARBY]: the bytes around the effective ones. *)
Fixpoint mark_nearby (n : nat) (s : list Z) (i : Z) (nearby : list Z) : option (list Z) :=
  match n with
  | O => Some nearby
  | S n =>
      if i <? len c then
        b ← bitmap_read s i;
        if (b : bool) then
          let fill_length := if i + 3 <? len c then 7 else len c - i + 2 in
          m ← store nearby (i - 3) (replicate (Z.to_nat fill_length) 1);
          mark_nearby n s (i + 3) m
        else mark_nearby n s (i + 1) nearby
      else Some nearby
  end.

Definition add_nearby (nearby non_eff : list Z) (i : Z) (s : list Z) : stage skip_st (list Z) :=
  a ← within (get nearby i);
  b ← within (get non_eff i);
  if negb (a =? 0) && (b =? 0) then within (bitmap_set s i) else mret s.

Definition nearby_bytes (non_eff : list Z) : stage skip_st unit :=
  '(s, d) ← maps;
  nearby ← within (mark_nearby (Z.to_nat (len c)) s 3 (replicate (Z.to_nat (len c)) 0));
  s ← each_with (seqZ 0 (len c)) (add_nearby nearby non_eff) s;
  set_maps s d 0.

(** The first byte that has not been tried. *)
Fixpoint first_undone (n : nat) (d : list Z) (i : Z) : option Z :=
  match n with
  | O => Some i
  | S n =>
      b ← bitmap_read d i;
      if (b : bool) then first_undone n d (i + 1) else Some i
  end.

(** Fresh or cleared maps, and where to start. *)
Definition start_maps : stage skip_st Z :=
  let size := (len c + 7) / 8 in
  e ← entry;
  s ← (match skip_eff_map e with
       | None => mret (replicate (Z.to_nat size) 0)
       | Some s => within (store s 0 (replicate (Z.to_nat size) 0))
       end);
  '(d, cur) ← (match done_inf_map e with
               | None => mret (replicate (Z.to_nat size) 0, 0)
               | Some d => i ← within (first_undone (Z.to_nat (len c)) d 0); mret (d, i)
               end);
  set_maps s d 0;;
  mret cur.

(** The whole stage: [true] is 1; the jump [Abandon] is the return of 0. *)
Definition skip_deterministic_stage (fuel n rfuel : nat) : stage skip_st bool :=
  e ← entry;
  if done_eff e then mret true
  else
    chosen ← should_det_fuzz;
    if negb chosen then mret true
    else
      inf_eff_map ← inference fuel;
      cur ← start_maps;
      '(non_eff, prev_cksum) ← (if fuzz_nearby c then
        b ← out;
        try_run b;;
        cksum ← up cksum_env;
        mret (replicate (Z.to_nat (len c)) 0, cksum)
      else mret ([], 0));
      '(done, v) ← eff_rounds 8 n rfuel inf_eff_map prev_cksum false (EffVars cur 0 false non_eff);
      (if fuzz_nearby c then nearby_bytes (v_non_eff v) else mret tt);;
      e ← entry;
      set_entry (SkipdetEntry (negb done) (if (done : bool) then true else done_eff e) (undet_bits e)
                   (quick_eff_bytes e) (skip_eff_map e) (done_inf_map e));;
      mret true.
End Skipdet.
Arguments skip_st : clear implicits.
