(* ===== verification/SkipdetFacts.v ===== *)
(** * Effective bytes: safety and meaning of the maps *)

From S2P Require Import Prelude Res Rng MutationsFacts TextCheck Extras Tmin Stage StageFacts Skipdet.

(** ** Flipping a range *)

(** [n] bytes inverted at [pos]. *)
Definition inverted (n pos : Z) (o : list Z) : list Z :=
  imap (fun j v => if (pos <=? Z.of_nat j) && (Z.of_nat j <? pos + n) then Z.lxor v 0xff else v) o.

Lemma inverted_lookup n pos o j :
  inverted n pos o !! j =
    (fun v => if (pos <=? Z.of_nat j) && (Z.of_nat j <? pos + n) then Z.lxor v 0xff else v) <$> o !! j.
Proof. unfold inverted. by rewrite list_lookup_imap. Qed.

Lemma zlen_inverted n pos o : zlen (inverted n pos o) = zlen o.
Proof. unfold inverted, zlen. by rewrite length_imap. Qed.

Lemma inverted_twice n pos o : inverted n pos (inverted n pos o) = o.
Proof.
  apply list_eq. intros j. rewrite !inverted_lookup. destruct (o !! j) as [v|]; [|done]. cbn.
  destruct (_ && _); [|done]. by rewrite Z.lxor_assoc, Z.lxor_nilpotent, Z.lxor_0_r.
Qed.

Lemma inverted_take n pos o k : take k (inverted n pos o) = inverted n pos (take k o).
Proof.
  apply list_eq. intros j. rewrite inverted_lookup. destruct (decide (j < k)%nat).
  - rewrite !lookup_take_lt by done. apply inverted_lookup.
  - by rewrite !lookup_take_ge by lia.
Qed.

Lemma inverted_0 pos o : inverted 0 pos o = o.
Proof.
  apply list_eq. intros j. rewrite inverted_lookup. destruct (o !! j) as [v|]; [|done]. cbn.
  destruct (_ && _) eqn:E; [|done]. apply andb_true_iff in E as [??]. b2p. lia.
Qed.

Lemma inverted_succ n pos o v :
  0 <= pos -> 0 <= n -> o !! Z.to_nat (pos + n) = Some v ->
  <[Z.to_nat (pos + n) := Z.lxor v 0xff]> (inverted n pos o) = inverted (n + 1) pos o.
Proof.
  intros Hp Hn Hv. apply list_eq. intros j. rewrite (inverted_lookup (n + 1)).
  pose proof (lookup_lt_Some _ _ _ Hv). destruct (decide (j = Z.to_nat (pos + n))) as [->|Hj].
  - rewrite list_lookup_insert_eq by (unfold inverted; by rewrite length_imap). rewrite Hv. cbn.
    rewrite (proj2 (Z.leb_le _ _)), (proj2 (Z.ltb_lt _ _)) by lia. done.
  - rewrite list_lookup_insert_ne, inverted_lookup by done. destruct (o !! j) as [w|]; [|done]. cbn. f_equal.
    destruct (pos <=? Z.of_nat j) eqn:E1, (Z.of_nat j <? pos + n) eqn:E2, (Z.of_nat j <? pos + (n + 1)) eqn:E3;
      b2p; cbn; done || lia.
Qed.

(** ** The runs of a call

    A fuzzer that notes its runs: each completed run with what the target was given, the
    number of queue entries before and after it, and the checksum of the trace it left. *)

Record run_note := RunNote {
  rn_input : list Z;
  rn_before : Z;
  rn_after : Z;
  rn_cksum : Z
}.

Record recorder (W : Type) := Recorder {
  r_world : W;
  r_before : Z;
  r_runs : list run_note
}.
Arguments Recorder {W}.
Arguments r_world {W}.
Arguments r_before {W}.
Arguments r_runs {W}.

#[export] Instance recording {W} `{Fuzzer W} : Fuzzer (recorder W) := {
  fuzz_run_target a x :=
    let '(f, w) := fuzz_run_target (r_world a) x in
    (f, Recorder w (queued_items (r_world a)) (r_runs a));
  stop_requested a := stop_requested (r_world a);
  skip_requested a := skip_requested (r_world a);
  clear_skip_request a := Recorder (clear_skip_request (r_world a)) (r_before a) (r_runs a);
  trace_cksum a := trace_cksum (r_world a);
  queued_items a := queued_items (r_world a);
  save_if_interesting a x f :=
    match save_if_interesting (r_world a) x f with
    | Some (n, w) => Some (n, Recorder w (r_before a)
        (r_runs a ++ [RunNote x (r_before a) (queued_items w) (trace_cksum w)]))
    | None => None
    end;
  get_cur_time a :=
    let '(t, w) := get_cur_time (r_world a) in (t, Recorder w (r_before a) (r_runs a))
}.

Section Facts.
Context {W0 R : Type} `{Fuzzer W0} `{RandSource R}.
Abbreviation W := (recorder W0).
Context (c : skip_cfg) (b : list Z).

(** The stage starts like this: [b] is the allocation of [out_buf]. *)
Record skip_pre : Prop := SkipPre {
  sp_len : 1 <= len c <= MAX_FILE;
  sp_room : len c <= zlen b;
  sp_bytes : bytes_ok b;
  sp_in : len c <= zlen (orig_buf c) /\ slice (orig_buf c) 0 (len c) = slice b 0 (len c);
  sp_min : min_length c <= len c;
  sp_max : 1 <= max_length c;
  sp_mini : forall mini, trace_mini c = Some mini -> map_size c <= 8 * zlen mini
}.
Context (Hpre : skip_pre).

Lemma len20 : 1 <= len c <= 2 ^ 20.
Proof. exact (sp_len Hpre). Qed.

Definition data : list Z := slice b 0 (len c).

Definition runs (e : env W R) : list run_note := r_runs (e_fuzzer e).

(** No run is forgotten. *)
Definition later (e e' : env W R) : Prop := runs e ⊆ runs e'.

#[local] Instance later_preorder : PreOrder later.
Proof. split; [intros e x; done|]. intros e1 e2 e3 Hl1 Hl2 x Hx. by apply Hl2, Hl1. Qed.

(** What the target is given of [x]. *)
Definition sent (x : list Z) : list Z := take (Z.to_nat (max_length c)) x.

(** [k] is the checksum of a run of the test case itself. *)
Definition clean (k : Z) (e : env W R) : Prop := exists q q', RunNote (sent data) q q' k ∈ runs e.

(** A run of the test case with [n] bytes inverted at [pos] had the checksum [k]. *)
Definition no_effect (k pos n : Z) (e : env W R) : Prop :=
  exists q q', RunNote (sent (inverted n pos data)) q q' k ∈ runs e.

(** A run of the test case with another byte at [i] has added to the queue. *)
Definition found (i : Z) (e : env W R) : Prop :=
  exists v r q q' k, data !! Z.to_nat i = Some v /\ r <> v /\ is_u8 r /\ q' <> q /\
    RunNote (sent (<[Z.to_nat i := r]> data)) q q' k ∈ runs e.

Lemma no_effect_later k pos n e e' : later e e' -> no_effect k pos n e -> no_effect k pos n e'.
Proof. intros Hl (q&q'&Hn). exists q, q'. by apply Hl. Qed.

Lemma found_later i e e' : later e e' -> found i e -> found i e'.
Proof. intros Hl (v&r&q&q'&k&?&?&?&?&Hn). exists v, r, q, q', k. split_and!; try done. by apply Hl. Qed.

Lemma clean_later k e e' : later e e' -> clean k e -> clean k e'.
Proof. intros Hl (q&q'&Hn). exists q, q'. by apply Hl. Qed.

(** What the target is given of a buffer. *)
Lemma write_sent buf :
  len c <= zlen buf ->
  write_to_testcase (min_length c) (max_length c) buf (len c) false = Some (sent (slice buf 0 (len c))) /\
  sent (slice buf 0 (len c)) <> [].
Proof.
  intros Hn. pose proof len20. pose proof (sp_max Hpre). unfold write_to_testcase, sent.
  rewrite (proj2 (Z.ltb_ge _ _)) by apply Hpre. cbn [andb].
  assert (zlen (take (Z.to_nat (max_length c)) (slice buf 0 (len c))) = Z.min (max_length c) (len c)) as Hz.
  { unfold zlen. rewrite length_take. pose proof (zlen_slice buf 0 (len c)). unfold zlen in *. lia. }
  split; [|intros He; rewrite He in Hz; change (zlen []) with 0 in Hz; lia].
  rewrite slice_0, take_take.
  destruct (len c >? max_length c) eqn:E; rewrite load_Some, slice_0 by lia; do 2 f_equal; lia.
Qed.

(** A run that is completed is noted. *)
Lemma run_noted buf (e e' : env W R) :
  len c <= zlen buf ->
  common_fuzz_stuff (min_length c) (max_length c) buf (len c) e = Next false e' ->
  runs e' = runs e ++ [RunNote (sent (slice buf 0 (len c))) (queued_items (e_fuzzer e))
    (queued_items (e_fuzzer e')) (trace_cksum (e_fuzzer e'))].
Proof.
  intros Hb. destruct (write_sent buf Hb) as [Hw Hne]. unfold common_fuzz_stuff, mbind, stage_bind, within.
  rewrite Hw. set (x := sent _) in *. unfold run_written.
  rewrite (proj2 (Z.eqb_neq _ _)) by (by destruct x).
  cbn. destruct (fuzz_run_target _ x) as [f w] eqn:Ef. cbn.
  destruct (stop_requested w); [done|]. destruct (_ && _); [done|]. destruct (skip_requested w); [done|].
  destruct (save_if_interesting w x f) as [[n w']|]; [|done]. by intros [= <-].
Qed.

Definition with_env (s : skip_st W R) (e : env W R) : skip_st W R :=
  SkipSt (s_out s) (s_global s) (s_entry s) e.

Lemma goes_run buf s (Q : unit -> skip_st W R -> Prop) :
  len c <= zlen buf ->
  (forall e', later (s_env s) e' ->
    RunNote (sent (slice buf 0 (len c))) (queued_items (e_fuzzer (s_env s)))
      (queued_items (e_fuzzer e')) (trace_cksum (e_fuzzer e')) ∈ runs e' -> Q tt (with_env s e')) ->
  goes (try_run c buf) s Q.
Proof.
  intros Hb HQ. unfold goes, try_run, mbind, stage_bind, up.
  destruct (common_fuzz_stuff _ _ buf _ _) as [[] e'|e'|e'| | | |] eqn:E; try done.
  - apply run_noted in E; [|done]. apply HQ; unfold later; rewrite E.
    + intros y Hy. apply elem_of_app. by left.
    + apply elem_of_app. right. by apply list_elem_of_singleton.
  - exfalso. revert E. unfold common_fuzz_stuff, mbind, stage_bind, within, run_written.
    repeat (case_match; try done).
  - exfalso. revert E. unfold common_fuzz_stuff, mbind, stage_bind, within.
    rewrite (proj1 (write_sent buf Hb)). unfold run_written. repeat (case_match; try done).
  - exfalso. revert E. unfold common_fuzz_stuff, mbind, stage_bind, within, run_written.
    repeat (case_match; try done).
Qed.

Lemma flip_range_run pos n (s : skip_st W R) :
  0 <= pos -> 0 <= n -> pos + n <= zlen (s_out s) ->
  flip_range pos n s = Next tt (SkipSt (inverted n pos (s_out s)) (s_global s) (s_entry s) (s_env s)).
Proof.
  intros Hp Hn. unfold flip_range. rewrite <- (Z2Nat.id n) by done. set (k := Z.to_nat n).
  intros Hk. clearbody k. clear n Hn. induction k as [|k IH].
  { change (Z.of_nat 0) with 0. rewrite inverted_0. by destruct s. }
  rewrite seqZ_S, each_app. unfold mbind at 1, stage_bind at 1. rewrite IH by lia.
  destruct (zlen_lookup (s_out s) (pos + Z.of_nat k)) as [v Hv]; [lia|].
  cbn [each]. unfold mbind, stage_bind, out, set_out. cbn [s_out s_global s_entry s_env].
  rewrite Z.add_0_l.
  rewrite get_pos, inverted_lookup, Hv by lia. cbn [fmap option_map option_fmap].
  rewrite (proj2 (Z.ltb_ge _ _)), andb_false_r by lia. cbn [within].
  rewrite put_Some by (rewrite zlen_inverted; lia). cbn [within].
  rewrite inverted_succ by (done || lia). by rewrite Nat2Z.inj_succ.
Qed.

(** ** Blocks without effect *)

Definition clip (pos n : Z) : Z := if n + pos <? len c then n else len c - 1 - pos.

(** The parts of the state that the inference leaves alone. *)
Definition framed (s s' : skip_st W R) : Prop :=
  s_out s' = b /\ s_global s' = s_global s /\ s_entry s' = s_entry s /\
  later (s_env s) (s_env s').

Lemma framed_trans s1 s2 s3 : framed s1 s2 -> framed s2 s3 -> framed s1 s3.
Proof. intros (?&?&?&?) (?&?&?&?). split_and!; [congruence..|by etransitivity]. Qed.

(** The size that [grow_block] reaches: the one before had no effect. *)
Definition grown (k pos cur : Z) (e : env W R) : Prop :=
  cur = MINIMAL_BLOCK_SIZE \/ (128 <= cur /\ no_effect k pos (clip pos (cur / 2)) e).

Lemma grown_later k pos cur e e' : later e e' -> grown k pos cur e -> grown k pos cur e'.
Proof. intros Hl [Hg|[Hg Hn]]; [by left|right]. split; [done|by eapply no_effect_later]. Qed.

Lemma grow_block_ok fuel k pos cur s :
  0 <= pos < len c - 1 -> 64 <= cur <= 2 ^ 18 -> (0 < fuel)%nat ->
  len c / 8 <= cur * 2 ^ (Z.of_nat fuel - 1) ->
  s_out s = b -> grown k pos cur (s_env s) ->
  goes (grow_block c fuel k pos cur) s (fun cur' s' =>
    framed s s' /\ 64 <= cur' <= 2 ^ 18 /\ grown k pos cur' (s_env s')).
Proof.
  pose proof len20. pose proof (sp_room Hpre).
  revert cur s. induction fuel as [|fuel IH]; intros cur s Hp Hc Hf0 Hf Ho Hg; [lia|]. cbn [grow_block].
  destruct (cur <? len c / 8) eqn:E; b2p; [|apply goes_ret; split; [by split_and!|done]].
  assert (len c / 8 <= 2 ^ 17) by dlia.
  rewrite (wrap_small 32 (cur + pos)), !(wrap_small 32 (len c - 1 - pos)) by (split; lia).
  fold (clip pos cur). assert (0 <= clip pos cur /\ pos + clip pos cur <= len c) as [Hc0 Hc1]
    by (unfold clip; destruct (_ <? _) eqn:E1; b2p; lia).
  apply goes_bind. unfold goes at 1. rewrite flip_range_run by (rewrite ?Ho; lia). rewrite Ho.
  apply goes_bind. cbn [s_out]. unfold goes at 1, out. cbn [s_out].
  apply goes_bind, goes_run; [rewrite zlen_inverted; lia|]. cbn [s_env]. intros e' Hl Hran.
  rewrite slice_0, inverted_take, <- slice_0 in Hran. fold data in Hran.
  apply goes_bind. unfold goes at 1, with_env. cbn [s_out s_global s_entry s_env].
  rewrite flip_range_run by (cbn [s_out]; rewrite ?zlen_inverted; lia). cbn [s_out s_global s_entry s_env].
  rewrite inverted_twice. apply goes_bind. unfold goes at 1, up, cksum_env. cbn [s_env s_out s_global s_entry].
  assert (framed s (SkipSt b (s_global s) (s_entry s) e')) as Hfr by (by split_and!).
  destruct (trace_cksum (e_fuzzer e') =? k) eqn:Ek; b2p; [|apply goes_ret; split_and!; [by apply Hfr..|lia|lia|by eapply grown_later]].
  rewrite (wrap_small 32) by (split; lia).
  assert (grown k pos (cur * 2) e') as Hg'.
  { right. split; [lia|]. rewrite Z.div_mul by lia. rewrite <- Ek. by eexists _, _. }
  destruct (_ <=? cur * 2); [apply goes_ret; split_and!; [done..|lia|lia|done]|].
  destruct fuel as [|fuel]; [change (Z.of_nat 1 - 1) with 0 in Hf; lia|].
  eapply goes_mono; [apply IH; [done|lia|lia| |done|done]|].
  - replace (Z.of_nat (S (S fuel)) - 1) with (Z.succ (Z.of_nat (S fuel) - 1)) in Hf by lia.
    rewrite Z.pow_succ_r in Hf by lia. lia.
  - intros cur' s' (Hf'&?&?). split; [exact (framed_trans _ _ _ Hfr Hf')|done].
Qed.

(** A byte that the inference leaves out lies in a block without effect. *)
Definition skipped (k : Z) (i : Z) (e : env W R) : Prop :=
  exists pos n, 0 <= pos <= i /\ i < pos + n <= len c /\ no_effect k pos n e.

Lemma skipped_later k i e e' : later e e' -> skipped k i e -> skipped k i e'.
Proof. intros Hl (pos&n&?&?&?). exists pos, n. split_and!; [lia..|by eapply no_effect_later]. Qed.

Definition inf_ok (k : Z) (m : list Z) (e : env W R) : Prop :=
  zlen m = len c /\ forall i, 0 <= i -> m !! Z.to_nat i = Some 0 -> skipped k i e.

Lemma inf_ok_later k m e e' : later e e' -> inf_ok k m e -> inf_ok k m e'.
Proof. intros Hl [Hz Hm]. split; [done|]. intros i Hi Hi0. eapply skipped_later; [done|by apply Hm]. Qed.

Lemma infer_blocks_ok fuel k pos m s :
  0 <= pos -> len c - pos < Z.of_nat fuel -> (0 < fuel)%nat -> pos <= 2 ^ 21 -> s_out s = b ->
  inf_ok k m (s_env s) ->
  goes (infer_blocks c fuel k pos m) s (fun m' s' => framed s s' /\ inf_ok k m' (s_env s')).
Proof.
  pose proof len20. pose proof (sp_room Hpre).
  revert pos m s. induction fuel as [|fuel IH]; intros pos m s Hp Hf Hf0 Hp2 Ho Hm; [lia|]. cbn [infer_blocks].
  rewrite (wrap_small 32 (len c - 1)) by (split; lia).
  destruct (pos <? len c - 1) eqn:E; b2p; [|apply goes_ret; split; [by split_and!|done]].
  apply goes_bind. eapply goes_mono.
  { apply (grow_block_ok 32 k pos 64 s); [lia|lia|lia|change (2 ^ (Z.of_nat 32 - 1)) with (2 ^ 31); dlia|done|by left]. }
  intros cur s1 (Hfr&Hc&Hg). assert (s_out s1 = b /\ later (s_env s) (s_env s1)) as [Ho1 Hre1] by (split; apply Hfr).
  apply (inf_ok_later _ _ _ _ Hre1) in Hm.
  destruct (cur =? MINIMAL_BLOCK_SIZE) eqn:E64.
  { b2p. unfold MINIMAL_BLOCK_SIZE in *. subst cur. rewrite (wrap_small 32) by (split; lia).
    eapply goes_mono; [apply IH; [lia|lia|lia|lia|done|done]|].
    intros m' s' [Hf' ?]. split; [exact (framed_trans _ _ _ Hfr Hf')|done]. }
  b2p. destruct Hg as [Hg|[Hc2 Hne]]; [congruence|].
  assert (64 <= cur / 2 <= cur) by dlia.
  rewrite (wrap_small 32 (cur / 2 + pos)), (wrap_small 32 (len c - pos - 1)) by (split; lia).
  replace (if cur / 2 + pos <? len c then cur / 2 else len c - pos - 1) with (clip pos (cur / 2))
    by (unfold clip; destruct (_ <? _); lia).
  assert (1 <= clip pos (cur / 2) /\ pos + clip pos (cur / 2) <= len c) as [Hn1 Hn2]
    by (unfold clip; destruct (_ <? _) eqn:E1; b2p; lia).
  set (n := clip pos (cur / 2)) in *. destruct Hm as [Hz Hm].
  assert (zlen (replicate (Z.to_nat n) 0) = n) as Hr by (apply zlen_replicate; lia).
  rewrite store_Some by lia. apply goes_bind, goes_within.
  rewrite (wrap_small 32) by (split; lia).
  eapply goes_mono; [apply IH; [lia|lia|lia|lia|done|]|].
  - split; [by rewrite zlen_splice_at by lia|]. intros i Hi Hl.
    destruct (decide (pos <= i < pos + n)).
    + exists pos, n. split_and!; [lia..|done].
    + rewrite lookup_splice_ne in Hl by lia. by apply Hm.
  - intros m' s' [Hf' ?]. split; [exact (framed_trans _ _ _ Hfr Hf')|done].
Qed.

Lemma inference_ok fuel s :
  len c < Z.of_nat fuel -> s_out s = b ->
  goes (inference c fuel) s (fun m s' => framed s s' /\ exists k, inf_ok k m (s_env s') /\
    clean k (s_env s')).
Proof.
  intros Hf Ho. pose proof len20. unfold inference. apply goes_bind, goes_run; [apply (sp_in Hpre)|].
  intros e' Hl Hran. apply goes_bind. unfold goes at 1, up, cksum_env. cbn [with_env s_env s_out s_global s_entry].
  set (s1 := SkipSt _ _ _ e'). assert (framed s s1) as Hfr by (by subst s1; split_and!).
  set (k := trace_cksum (e_fuzzer e')).
  assert (inf_ok k (replicate (Z.to_nat (len c)) 1) e') as Hm.
  { split; [apply zlen_replicate; lia|]. intros i _ Hr1. by apply lookup_replicate in Hr1 as [? _]. }
  assert (clean k e') as Hk by (rewrite (proj2 (sp_in Hpre)) in Hran; by eexists _, _).
  destruct (_ <? len c).
  - eapply goes_mono; [apply infer_blocks_ok; [lia|lia|lia|lia|done|done]|].
    intros m s' [Hf' ?]. split; [exact (framed_trans _ _ _ Hfr Hf')|]. exists k. split; [done|].
    eapply clean_later; [apply Hf'|done].
  - apply goes_ret. split; [done|]. by exists k.
Qed.

(** ** The effective bytes *)

Definition map_ok (m : list Z) : Prop := len c <= 8 * zlen m /\ bytes_ok m.

Definition virgin_ok (s : skip_st W R) : Prop :=
  zlen (virgin_det_bits (s_global s)) = 0 \/ zlen (virgin_det_bits (s_global s)) = map_size c.

(** A byte was tried. *)
Definition done_bit (s : skip_st W R) (j : Z) : Prop :=
  exists d, done_inf_map (s_entry s) = Some d /\ bit d j.

(** While the bytes are tried: an effective byte has been tried and something was found. *)
Record eff_inv (s : skip_st W R) : Prop := EffInv {
  ei_out : s_out s = b;
  ei_maps : exists m d, skip_eff_map (s_entry s) = Some m /\ done_inf_map (s_entry s) = Some d /\
    map_ok m /\ map_ok d /\ forall i, 0 <= i < len c -> bit m i -> found i (s_env s) /\ bit d i;
  ei_done : done_eff (s_entry s) = false;
  ei_virgin : virgin_ok s
}.

(** From [s] to [s']: no byte becomes untried, no run is forgotten. *)
Definition onward (s s' : skip_st W R) : Prop :=
  later (s_env s) (s_env s') /\ forall j, 0 <= j -> done_bit s j -> done_bit s' j.

Lemma onward_refl s : onward s s.
Proof. split; [reflexivity|done]. Qed.

Lemma onward_trans s1 s2 s3 : onward s1 s2 -> onward s2 s3 -> onward s1 s3.
Proof. intros [? Hd1] [? Hd2]. split; [by etransitivity|]. intros j Hj Hd. apply Hd2, Hd1; done. Qed.

Definition vars_ok (v : eff_vars) : Prop :=
  32768 <= v_max v < 2 ^ 20 /\ (fuzz_nearby c = true -> zlen (v_non_eff v) = len c).

Lemma other_byte_ok fuel orig (s : skip_st W R) :
  goes (other_byte fuel orig) s (fun r s' =>
    (exists e, s' = with_env s e /\ e_fuzzer e = e_fuzzer (s_env s)) /\ r <> orig /\ is_u8 r).
Proof.
  revert s. induction fuel as [|fuel IH]; intros s; cbn [other_byte]; [done|].
  apply goes_bind. unfold goes at 1, up, rand_below_env. destruct (rs_below 256 _) as [[r r']|] eqn:Er; [|done].
  fold (with_env s (with_tokens (e_extras (s_env s)) r' (s_env s))). set (s1 := with_env s _).
  destruct (u8 r =? orig) eqn:E; b2p.
  - eapply goes_mono; [by apply IH|]. intros v s' ((e&->&?)&?). split; [|done]. by exists e.
  - apply goes_ret. split_and!; [by eexists; split|done|apply wrap_range; lia].
Qed.

Lemma goes_maps (s : skip_st W R) m d (Q : _ -> _ -> Prop) :
  skip_eff_map (s_entry s) = Some m -> done_inf_map (s_entry s) = Some d -> Q (m, d) s ->
  goes maps s Q.
Proof. intros Hm Hd HQ. unfold maps, mbind, stage_bind, goes, entry, within. by rewrite Hm, Hd. Qed.

Lemma map_set m i :
  map_ok m -> 0 <= i < len c ->
  exists m', bitmap_set m i = Some m' /\ map_ok m' /\ forall j, 0 <= j -> bit m' j <-> j = i \/ bit m j.
Proof.
  intros [Hm Hb] Hi. destruct (bitmap_set_spec m i) as (m'&E&Hz&Hb'&Hs); [lia|done|].
  exists m'. split_and!; [done|split; [lia|done]|done].
Qed.

(** The end of a turn: the maps after byte [i], which was found effective if [f]. *)
Lemma set_maps_inv s m d i (f : bool) n :
  eff_inv s -> skip_eff_map (s_entry s) = Some m -> done_inf_map (s_entry s) = Some d ->
  0 <= i < len c -> (f = true -> found i (s_env s)) ->
  exists m' d', (if f then bitmap_set m i else Some m) = Some m' /\ bitmap_set d i = Some d' /\
    goes (set_maps m' d' n) s (fun _ s' => eff_inv s' /\ onward s s' /\ done_bit s' i).
Proof.
  intros [Ho Hmaps Hd Hv] Hm Hdm Hi Hf. destruct Hmaps as (m0&d0&Hm0&Hd0&Hmok&Hdok&Hall).
  rewrite Hm in Hm0. injection Hm0 as <-. rewrite Hdm in Hd0. injection Hd0 as <-.
  destruct (map_set d i Hdok Hi) as (d'&Ed&Hdok'&Hd').
  assert (exists m', (if f then bitmap_set m i else Some m) = Some m' /\ map_ok m' /\
    forall j, 0 <= j -> bit m' j -> j = i /\ f = true \/ bit m j) as (m'&Em&Hmok'&Hm').
  { destruct f; [|exists m; split_and!; [done..|]; tauto].
    destruct (map_set m i Hmok Hi) as (m'&?&?&Hs). exists m'. split_and!; [done..|].
    intros j Hj. rewrite Hs by done. tauto. }
  exists m', d'. split; [done|]. split; [done|]. cbn. split_and!.
  - constructor; cbn; [done| |done..]. exists m', d'. split_and!; [done..|].
    intros j Hj Hb. rewrite Hd' by lia. destruct (Hm' j) as [[-> Hft]|Hbm]; [lia|done| |].
    + split; [by apply Hf|by left].
    + destruct (Hall j Hj Hbm). tauto.
  - split; [reflexivity|]. intros j Hj (d2&Hd2&Hb). exists d'. split; [done|]. rewrite Hdm in Hd2. injection Hd2 as <-.
    apply Hd'; [done|]. by right.
  - exists d'. split; [done|]. apply Hd'; [lia|]. by left.
Qed.

Lemma eff_inv_later s e :
  eff_inv s -> later (s_env s) e -> eff_inv (SkipSt b (s_global s) (s_entry s) e).
Proof.
  intros [Ho (m&d&?&?&?&?&Hall) ? ?] Hl. constructor; try done. exists m, d. split_and!; try done.
  intros i Hi Hb. destruct (Hall i Hi Hb). split; [by eapply found_later|done].
Qed.

Lemma try_byte_ok rfuel k v s :
  eff_inv s -> vars_ok v -> 0 <= v_cur v < len c ->
  goes (try_byte c rfuel k v) s (fun v' s' =>
    eff_inv s' /\ vars_ok v' /\ v_cur v' = v_cur v /\ onward s s' /\ done_bit s' (v_cur v)).
Proof.
  intros Hi [Hmax Hnon] Hcur. pose proof (ei_out s Hi) as Ho. pose proof (sp_room Hpre).
  destruct (zlen_lookup b (v_cur v)) as [x Hx]; [lia|].
  unfold try_byte. apply goes_bind. unfold goes at 1, out. rewrite Ho. rewrite get_pos, Hx by lia.
  apply goes_bind, goes_within, goes_bind. eapply goes_mono; [apply other_byte_ok|].
  intros r s1 ((e1&->&He1)&Hr&Hr8). rewrite (put_Some b) by lia. apply goes_bind, goes_within, goes_bind.
  unfold goes at 1, set_out. cbn [with_env s_global s_entry s_env].
  apply goes_bind. unfold goes at 1, items. cbn [s_env].
  apply goes_bind, goes_run; [rewrite zlen_insert; lia|]. cbn [s_env with_env s_out s_global s_entry].
  intros e' Hl Hran. rewrite (put_Some (<[_ := r]> b)) by (rewrite zlen_insert; lia). apply goes_bind, goes_within, goes_bind.
  unfold goes at 1, set_out. cbn [s_out s_global s_entry s_env].
  rewrite list_insert_insert_eq, list_insert_id by done.
  set (s2 := SkipSt b (s_global s) (s_entry s) e').
  assert (later (s_env s) e') as Hl2 by (unfold later, runs in *; by rewrite <- He1).
  assert (onward s s2) as Hon2 by (by split).
  assert (eff_inv s2) as Hi2 by (by eapply eff_inv_later).
  apply goes_bind. eapply (goes_mono _ _ (fun m s' => s' = s2 /\ (fuzz_nearby c = true -> zlen m = len c))).
  { destruct (fuzz_nearby c) eqn:En; [|by apply goes_ret]. apply goes_bind.
    unfold goes at 1, up, cksum_env. cbn [s_env s_out s_global s_entry].
    destruct (k =? _); [|by apply goes_ret]. rewrite put_Some by (rewrite Hnon by done; lia).
    apply goes_within. split; [done|]. intros _. rewrite zlen_insert. by apply Hnon. }
  intros ne ? [-> Hne]. apply goes_bind. unfold goes at 1, items. cbn [s_env s2].
  destruct (ei_maps s2 Hi2) as (m&d&Hm&Hd&Hok). apply goes_bind. eapply goes_maps; [exact Hm|exact Hd|].
  assert (queued_items (e_fuzzer e') <> queued_items (e_fuzzer e1) -> found (v_cur v) e') as Hfound.
  { intros Hq. eexists x, r, _, _, _. split_and!; [|done|done|exact Hq|].
    - unfold data. by rewrite slice_0, lookup_take_lt by lia.
    - rewrite slice_0, take_insert_lt, <- slice_0 in Hran by lia. exact Hran. }
  destruct (negb _) eqn:Eq.
  - apply negb_true_iff in Eq. b2p. destruct (set_maps_inv s2 m d (v_cur v) true 1) as (m'&d'&->&->&Hset); try done.
    { intros _. by apply Hfound. }
    apply goes_bind, goes_within, goes_bind, goes_within, goes_bind. eapply goes_mono; [exact Hset|].
    intros _ s3 (?&Hon3&?). apply goes_ret. split_and!; try done; [|exact (onward_trans _ _ _ Hon2 Hon3)].
    split; [|done]. cbn [v_max].
    destruct (v_max v <? MAXIMUM_QUICK_EFF_EXECS) eqn:Em; b2p; [|done].
    unfold MAXIMUM_QUICK_EFF_EXECS in *. rewrite wrap_small by (split; lia). lia.
  - destruct (set_maps_inv s2 m d (v_cur v) false 0) as (m'&d'&[= <-]&->&Hset); try done.
    apply goes_bind, goes_within, goes_bind. eapply goes_mono; [exact Hset|].
    intros _ s3 (?&Hon3&?). apply goes_ret. split_and!; try done. exact (onward_trans _ _ _ Hon2 Hon3).
Qed.

(** A byte needs no further look. *)
Definition decided (k : Z) (s : skip_st W R) (j : Z) : Prop := done_bit s j \/ skipped k j (s_env s).

Definition all_decided (k : Z) (s : skip_st W R) : Prop :=
  forall j, 0 <= j < Z.min (len c) 32768 -> decided k s j.

Lemma onward_decided k s s' j : 0 <= j -> onward s s' -> decided k s j -> decided k s' j.
Proof. intros Hj [Hl Ho] [Hd|Hd]; [left; by apply Ho|right; by eapply skipped_later]. Qed.

Lemma time_later (e : env W R) t w : get_cur_time (e_fuzzer e) = (t, w) -> later e (with_fuzzer w e).
Proof.
  cbn. destruct (get_cur_time (r_world _)) as [t' w']. intros [= _ <-]. intros x. done.
Qed.

Lemma eff_loop_ok n rfuel k inf pk v s :
  inf_ok k inf (s_env s) -> eff_inv s -> vars_ok v -> 0 <= v_cur v <= len c -> len c - v_cur v < Z.of_nat n ->
  (forall j, 0 <= j < v_cur v -> decided k s j) ->
  goes (eff_loop c n rfuel inf pk v) s (fun r s' =>
    eff_inv s' /\ vars_ok r.2 /\ onward s s' /\ (r.1 = false -> all_decided k s')).
Proof.
  pose proof len20.
  revert v s. induction n as [|n IH]; intros v s Hinf Hi Hv Hcur Hn Hdec; [lia|]. cbn [eff_loop].
  assert (forall v' s', eff_inv s' -> vars_ok v' -> v_cur v' = v_cur v -> onward s s' -> v_cur v < len c ->
    decided k s' (v_cur v) ->
    goes (eff_loop c n rfuel inf pk (EffVars (u32 (v_cur v' + 1)) (v_max v') (v_continue v') (v_non_eff v'))) s'
      (fun r s' => eff_inv s' /\ vars_ok r.2 /\ onward s s' /\ (r.1 = false -> all_decided k s'))) as Hnext.
  { intros v' s' Hi' Hv' -> Hon Hlt Hd. rewrite (wrap_small 32) by (split; lia).
    eapply goes_mono; [apply IH; [eapply inf_ok_later; [apply Hon|done]|done|done|cbn; lia|cbn; lia|]|].
    - cbn. intros j Hj. destruct (decide (j = v_cur v)) as [->|]; [done|].
      apply (onward_decided k s); [lia|done|]. apply Hdec. lia.
    - intros r s2 (?&?&Hon2&?). split_and!; [done|done|by eapply onward_trans|done]. }
  destruct (_ && _) eqn:E.
  2:{ apply goes_ret. cbn. split_and!; [done|done|apply onward_refl|]. intros _ j Hj. apply Hdec.
      destruct Hv as [Hmax _]. apply andb_false_iff in E as [E|E]; b2p; lia. }
  apply andb_true_iff in E as [_ E]. b2p.
  destruct Hinf as [Hz Hinf]. destruct (zlen_lookup inf (v_cur v)) as [f Hf]; [lia|]. rewrite get_pos, Hf by lia.
  apply goes_bind, goes_within, goes_bind.
  destruct (ei_maps s Hi) as (m&d&Hm&Hd&[Hml Hmb]&[Hdl Hdb]&Hall). eapply goes_maps; [exact Hm|exact Hd|].
  apply goes_bind. destruct (f =? 0) eqn:Ef; b2p.
  { subst f. apply goes_ret. apply Hnext; [done|done|done|apply onward_refl|lia|]. right. apply Hinf; [lia|done]. }
  destruct (bitmap_read_Some m (v_cur v)) as [g Hg]; [lia|]. rewrite Hg. apply goes_within. destruct g.
  { apply Hnext; [done|done|done|apply onward_refl|lia|]. left. exists d. split; [done|]. by destruct (Hall (v_cur v) ltac:(lia) Hg). }
  apply goes_bind. unfold goes at 1, up, is_det_timeout. destruct (get_cur_time _) as [t w] eqn:Et.
  set (s1 := SkipSt _ _ _ _).
  assert (later (s_env s) (s_env s1)) as Hl1 by (by eapply time_later).
  assert (eff_inv s1) as Hi1 by (subst s1; rewrite (ei_out s Hi); by eapply eff_inv_later).
  assert (onward s s1) as Hon1 by (by split).
  destruct (_ >? _); [apply goes_ret; by split_and!|].
  apply goes_bind. eapply goes_mono; [apply try_byte_ok; [done|done|lia]|].
  intros v' s' (Hi'&Hv'&Hc'&Hon'&Hd'). apply Hnext; [done|done|done|exact (onward_trans _ _ _ Hon1 Hon')|lia|by left].
Qed.

Lemma eff_rounds_ok rounds n rfuel k inf pk dn v s :
  inf_ok k inf (s_env s) -> eff_inv s -> (fuzz_nearby c = true -> zlen (v_non_eff v) = len c) ->
  0 <= v_cur v <= len c -> len c < Z.of_nat n ->
  (forall j, 0 <= j < v_cur v -> decided k s j) -> (dn = true -> all_decided k s) ->
  goes (eff_rounds c rounds n rfuel inf pk dn v) s (fun r s' =>
    eff_inv s' /\ later (s_env s) (s_env s') /\
    (fuzz_nearby c = true -> zlen (v_non_eff r.2) = len c) /\ (r.1 = true -> all_decided k s')).
Proof.
  revert dn v s. induction rounds as [|rounds IH]; intros dn v s Hinf Hi Hne Hcur Hn Hdec Hdn; cbn [eff_rounds].
  { apply goes_ret. by split_and!. }
  apply goes_bind. eapply goes_mono.
  { eapply (eff_loop_ok n rfuel k inf pk (EffVars (v_cur v) (32 * 1024) false (v_non_eff v)) s Hinf Hi);
      [split; [cbn; lia|done]|cbn; lia|cbn; lia|done]. }
  intros [t v1] s1 (Hi1&[Hmax Hne1]&Hon&Hall). cbn [fst snd] in *. destruct t.
  - apply goes_ret. split_and!; [done|apply Hon|done|]. cbn. intros Hd j Hj. apply (onward_decided k s); [lia|done|].
    by apply Hdn.
  - cbn [v_continue]. destruct (v_continue v1); [|apply goes_ret; split_and!; [done|apply Hon|done|intros _; by apply Hall]].
    eapply goes_mono; [apply IH; try done; cbn|].
    + eapply inf_ok_later; [apply Hon|done].
    + pose proof len20. lia.
    + intros j Hj. lia.
    + intros _. by apply Hall.
    + intros r s2 (?&?&?&?). split_and!; try done. etransitivity; [apply Hon|done].
Qed.

(** ** Bytes nearby *)

Lemma mark_nearby_ok n m i nb :
  3 <= i -> map_ok m -> zlen nb = len c ->
  exists nb', mark_nearby c n m i nb = Some nb' /\ zlen nb' = len c.
Proof.
  intros Hi [Hm Hb]. revert i nb Hi. induction n as [|n IH]; intros i nb Hi Hnb; cbn [mark_nearby]; [by exists nb|].
  destruct (i <? len c) eqn:E; b2p; [|by exists nb].
  destruct (bitmap_read_Some m i) as [v ->]; [lia|]. cbn [mbind option_bind].
  destruct v; [|apply IH; [lia|done]].
  set (l := if i + 3 <? len c then 7 else len c - i + 2).
  assert (0 <= l /\ i - 3 + l <= len c) as [Hl0 Hl] by (subst l; destruct (_ <? _) eqn:E3; b2p; lia).
  assert (zlen (replicate (Z.to_nat l) 1) = l) as Hr by (by apply zlen_replicate).
  rewrite store_Some by lia. cbn [mbind option_bind]. apply IH; [lia|]. rewrite zlen_splice_at; lia.
Qed.

Lemma nearby_bytes_ok ne s :
  eff_inv s -> zlen ne = len c ->
  goes (nearby_bytes c ne) s (fun _ s' => s_out s' = b /\ s_env s' = s_env s /\ virgin_ok s' /\ done_eff (s_entry s') = false /\
    (exists m, skip_eff_map (s_entry s') = Some m /\ map_ok m) /\
    done_inf_map (s_entry s') = done_inf_map (s_entry s)).
Proof.
  intros Hi Hne. destruct (ei_maps s Hi) as (m&d&Hm&Hd&Hmok&Hdok&_). pose proof len20.
  unfold nearby_bytes. apply goes_bind. eapply goes_maps; [exact Hm|exact Hd|].
  destruct (mark_nearby_ok (Z.to_nat (len c)) m 3 (replicate (Z.to_nat (len c)) 0)) as (nb&->&Hnb);
    [lia|done|apply zlen_replicate; lia|].
  apply goes_bind, goes_within, goes_bind.
  eapply goes_mono; [apply (goes_each_with _ _ _ _ (fun m' s' => s' = s /\ map_ok m')); [done|]|].
  - intros i m1 s1 Hin [-> Hm1]. apply elem_of_seqZ in Hin. unfold add_nearby.
    destruct (zlen_lookup nb i) as [x Hx]; [lia|]. destruct (zlen_lookup ne i) as [y Hy]; [lia|].
    rewrite !get_pos, Hx, Hy by lia. apply goes_bind, goes_within, goes_bind, goes_within.
    destruct (_ && _); [|done]. destruct (map_set m1 i Hm1) as (m'&->&?&_); [lia|]. by apply goes_within.
  - intros m1 ? [-> Hm1]. cbn. split_and!; [apply Hi|done|apply Hi|apply Hi|by exists m1|by rewrite Hd].
Qed.

(** ** The choice of the test case *)

(** Only times and thresholds change. *)
Definition tuned (s s' : skip_st W R) : Prop :=
  s_out s' = s_out s /\ s_entry s' = s_entry s /\
  virgin_det_bits (s_global s') = virgin_det_bits (s_global s) /\
  later (s_env s) (s_env s').

Lemma tuned_refl s : tuned s s.
Proof. split_and!; done || reflexivity. Qed.

Lemma tuned_trans s1 s2 s3 : tuned s1 s2 -> tuned s2 s3 -> tuned s1 s3.
Proof. intros (?&?&?&?) (?&?&?&?). split_and!; [congruence..|by etransitivity]. Qed.

Lemma goes_tuned_bind {A B} (m : stage (skip_st W R) A) (k : A -> stage (skip_st W R) B) s s0 Q :
  tuned s0 s -> goes m s (fun _ s' => tuned s s') ->
  (forall a s', tuned s0 s' -> goes (k a) s' Q) -> goes (m ≫= k) s Q.
Proof.
  intros Ht Hm Hk. apply goes_bind. eapply goes_mono; [exact Hm|]. intros a s' Hs.
  apply Hk. by eapply tuned_trans.
Qed.

Lemma time_tuned s : goes time s (fun _ s' => tuned s s').
Proof.
  unfold goes, time. destruct (get_cur_time _) eqn:Et. split_and!; try done.
  by eapply time_later.
Qed.

Lemma set_last_cov_tuned t s : goes (set_last_cov t) s (fun _ s' => tuned s s').
Proof. done. Qed.

Lemma set_threshold_tuned n s : goes (set_threshold n) s (fun _ s' => tuned s s').
Proof. done. Qed.

Lemma set_virgin_det_ok v (s : skip_st W R) :
  goes (set_virgin_det v) s (fun _ s' => s_out s' = s_out s /\ s_entry s' = s_entry s /\
    virgin_det_bits (s_global s') = v /\ s_env s' = s_env s).
Proof. done. Qed.

(** The time is noted if [f]. *)
Lemma note_time_tuned (f : bool) s :
  goes (if f then t ← time; set_last_cov t else mret tt) s (fun _ s' => tuned s s').
Proof.
  destruct f; [|by apply goes_ret]. eapply goes_tuned_bind; [|apply time_tuned|]; [done|].
  intros t s' Ht. eapply goes_mono; [apply set_last_cov_tuned|]. intros ? s2 Ht2. by eapply tuned_trans.
Qed.

Lemma mini_bit_ok mini i : trace_mini c = Some mini -> 0 <= i < map_size c -> exists v, mini_bit mini i = Some v.
Proof.
  intros Hm Hi. pose proof (sp_mini Hpre mini Hm). unfold mini_bit.
  destruct (get_Some mini (Z.shiftr i 3)) as [v ->]; [|by eexists].
  rewrite Z.shiftr_div_pow2 by lia. change (2 ^ 3) with 8. dlia.
Qed.

Lemma count_bits_ok mini vg n s :
  trace_mini c = Some mini -> zlen vg = map_size c ->
  goes (each_with (seqZ 0 (map_size c)) (count_step (W:=W) (R:=R) mini vg) n) s (fun _ s' => s' = s).
Proof.
  intros Hm Hv. apply (goes_each_with _ _ _ _ (fun _ s' => s' = s)); [done|].
  intros i k ? Hi ->. apply elem_of_seqZ in Hi. unfold count_step.
  destruct (mini_bit_ok mini i Hm) as [v ->]; [lia|]. apply goes_bind, goes_within. destruct v; [|done].
  destruct (get_Some vg i) as [w ->]; [lia|]. by apply goes_bind, goes_within, goes_ret.
Qed.

Lemma mark_bits_ok mini vg s :
  trace_mini c = Some mini -> zlen vg = map_size c ->
  goes (each_with (seqZ 0 (map_size c)) (mark_step (W:=W) (R:=R) mini) vg) s (fun v s' => s' = s /\ zlen v = map_size c).
Proof.
  intros Hm Hv. apply (goes_each_with _ _ _ _ (fun v s' => s' = s /\ zlen v = map_size c)); [done|].
  intros i k ? Hi [-> Hk]. apply elem_of_seqZ in Hi. unfold mark_step.
  destruct (mini_bit_ok mini i Hm) as [v ->]; [lia|]. apply goes_bind, goes_within. destruct v; [|done].
  destruct (get_Some k i) as [w ->]; [lia|]. apply goes_bind, goes_within.
  destruct (w =? 0); [|done]. rewrite put_Some by lia. apply goes_within. by rewrite zlen_insert.
Qed.

(** The maps and flags of the entry. *)
Definition same_maps (s s' : skip_st W R) : Prop :=
  skip_eff_map (s_entry s') = skip_eff_map (s_entry s) /\
  done_inf_map (s_entry s') = done_inf_map (s_entry s) /\ done_eff (s_entry s') = done_eff (s_entry s).

(** The decision proper, with the map allocated. *)
Lemma decide_ok mini s :
  trace_mini c = Some mini -> zlen (virgin_det_bits (s_global s)) = map_size c ->
  goes (n ← each_with (seqZ 0 (map_size c)) (count_step mini (virgin_det_bits (s_global s))) 0;
        (if undet_bits_threshold (s_global s) =? 0 then set_threshold (n / 20) else mret tt);;
        g ← global;
        if undet_bits_threshold g <=? n then
          t ← time;
          set_last_cov t;;
          e ← entry;
          set_entry (SkipdetEntry (continue_inf e) (done_eff e) n (quick_eff_bytes e)
                       (skip_eff_map e) (done_inf_map e));;
          v ← each_with (seqZ 0 (map_size c)) (mark_step mini) (virgin_det_bits g);
          set_virgin_det v;;
          mret true
        else mret false) s
    (fun r s' => s_out s' = s_out s /\ later (s_env s) (s_env s') /\ virgin_ok s' /\ same_maps s s' /\ (r = false -> s_entry s' = s_entry s)).
Proof.
  intros Hm Hv. apply goes_bind. eapply goes_mono; [by apply count_bits_ok|]. intros n ? ->.
  eapply (goes_tuned_bind _ _ s s); [done|destruct (_ =? 0); [apply set_threshold_tuned|by apply goes_ret]|].
  intros ? s1 (Ho1&He1&Hv1&Hr1). apply goes_bind. unfold goes at 1, global.
  destruct (_ <=? n).
  2:{ apply goes_ret. split_and!; try done; [right; congruence|]. split_and!; by rewrite He1. }
  apply goes_bind. eapply goes_mono; [apply time_tuned|]. intros t s2 (Ho2&He2&Hv2&Hr2).
  apply goes_bind. eapply goes_mono; [apply set_last_cov_tuned|]. intros ? s3 (Ho3&He3&Hv3&Hr3).
  apply goes_bind. unfold goes at 1, entry. apply goes_bind. unfold goes at 1, set_entry.
  apply goes_bind. eapply goes_mono; [apply mark_bits_ok; [done|congruence]|]. intros v ? [-> Hvz].
  apply goes_bind. eapply goes_mono; [apply (set_virgin_det_ok v)|]. intros ? s4 (Ho4&He4&Hv4&Hr4).
  cbn [s_out s_entry] in *. apply goes_ret. split_and!; [congruence| |right; by rewrite Hv4| |done].
  { rewrite Hr4. cbn [s_env]. etransitivity; [exact Hr1|]. by etransitivity. }
  unfold same_maps. rewrite He4. cbn. rewrite He3, He2, He1. by split_and!.
Qed.

Lemma should_det_fuzz_ok s :
  1 <= map_size c -> virgin_ok s ->
  goes (should_det_fuzz c) s (fun r s' =>
    s_out s' = s_out s /\ later (s_env s) (s_env s') /\ virgin_ok s' /\ same_maps s s' /\ (r = false -> s_entry s' = s_entry s)).
Proof.
  intros Hms Hv. unfold should_det_fuzz. apply goes_bind. unfold goes at 1, global.
  set (m := if zlen _ =? 0 then _ else _).
  apply goes_bind. eapply (goes_mono m s (fun _ s' => s_out s' = s_out s /\ s_env s' = s_env s /\ s_entry s' = s_entry s /\
    zlen (virgin_det_bits (s_global s')) = map_size c)).
  { subst m. destruct (_ =? 0) eqn:E; b2p; [|apply goes_ret; split_and!; try done; destruct Hv; congruence].
    cbn. split_and!; [done..|]. apply zlen_replicate. lia. }
  intros ? s1 (Ho1&Hr1&He1&Hz1). clear m. assert (virgin_ok s1) as Hv1 by (by right).
  assert (same_maps s s1) as Hs1 by (split_and!; by rewrite He1).
  assert (later (s_env s) (s_env s1)) by (by rewrite Hr1).
  destruct (_ || _); [by apply goes_ret|]. destruct (trace_mini c) as [mini|] eqn:Em; [|by apply goes_ret].
  apply goes_bind. unfold goes at 1, global.
  eapply (goes_tuned_bind _ _ s1 s1); [done|apply note_time_tuned|]. intros ? s2 Ht2.
  eapply (goes_tuned_bind _ _ s2 s1); [done|apply time_tuned|]. intros t s3 Ht3.
  apply goes_bind. unfold goes at 1, global.
  eapply (goes_tuned_bind _ _ s3 s1); [done| |].
  { destruct (_ <=? _); [|by apply goes_ret]. destruct (2 <=? _); [|by apply goes_ret].
    eapply (goes_tuned_bind _ _ s3 s3); [done|apply set_threshold_tuned|]. intros ? s4 Ht4.
    eapply goes_mono; [apply (note_time_tuned true)|]. intros ? s5 Ht5. by eapply tuned_trans. }
  intros ? s4 (Ho4&He4&Hv4&Hr4). apply goes_bind. unfold goes at 1, global.
  eapply goes_mono; [apply decide_ok; [done|congruence]|].
  intros r s5 (Ho5&Hr5&Hv5&(Hm5&Hd5&Hf5)&He5). split_and!; [congruence|by etransitivity; [|etransitivity]|done| |intros; rewrite He5; congruence].
  split_and!; rewrite ?Hm5, ?Hd5, ?Hf5, ?He4, ?He1; done.
Qed.
(** ** The whole stage *)

(** What a former call left in the entry. *)
Definition entry_ok (e : skipdet_entry) : Prop :=
  (forall m, skip_eff_map e = Some m -> map_ok m) /\ (forall d, done_inf_map e = Some d -> map_ok d).

(** Bytes up to the length that have no bit set. *)
Definition blank (m : list Z) : Prop := map_ok m /\ forall i, 0 <= i < len c -> ~ bit m i.

Lemma map_bytes : 0 <= (len c + 7) / 8 /\ len c <= 8 * ((len c + 7) / 8).
Proof. pose proof len20. dlia. Qed.

Lemma blank_fresh : blank (replicate (Z.to_nat ((len c + 7) / 8)) 0).
Proof.
  pose proof map_bytes. split; [|intros i _; apply bit_zeros].
  split; [rewrite zlen_replicate; lia|]. apply Forall_replicate. unfold is_u8. lia.
Qed.

Lemma blank_cleared m :
  map_ok m -> exists m', store m 0 (replicate (Z.to_nat ((len c + 7) / 8)) 0) = Some m' /\ blank m'.
Proof.
  intros [Hm Hb]. pose proof map_bytes. pose proof len20.
  assert (zlen (replicate (Z.to_nat ((len c + 7) / 8)) 0) = (len c + 7) / 8) as Hz by (apply zlen_replicate; lia).
  assert ((len c + 7) / 8 <= zlen m) by dlia.
  rewrite store_Some by lia. eexists. split; [done|]. split.
  - split; [rewrite zlen_splice_at; lia|]. apply Forall_splice_at; [done|]. apply Forall_replicate. unfold is_u8. lia.
  - intros i Hi (v&Hv&Ht)%bit_get. apply get_inv in Hv as [_ Hv].
    rewrite lookup_splice_eq in Hv by (rewrite ?Hz; dlia).
    apply lookup_replicate in Hv as [-> _]. by rewrite Z.testbit_0_l in Ht.
Qed.

Lemma first_undone_ok n d i :
  map_ok d -> 0 <= i -> i + Z.of_nat n = len c -> (forall j, 0 <= j < i -> bit d j) ->
  exists i', first_undone n d i = Some i' /\ 0 <= i' <= len c /\ forall j, 0 <= j < i' -> bit d j.
Proof.
  intros [Hd Hb]. revert i. induction n as [|n IH]; intros i Hi Hn Hall; cbn [first_undone].
  { exists i. split_and!; [done|lia..|done]. }
  destruct (bitmap_read_Some d i) as [v Hv]; [lia|]. rewrite Hv. cbn [mbind option_bind].
  destruct v; [|exists i; split_and!; [done|lia..|done]].
  apply IH; [lia|lia|]. intros j Hj. destruct (decide (j = i)) as [->|]; [done|]. apply Hall. lia.
Qed.

Lemma start_maps_ok s :
  s_out s = b -> virgin_ok s -> done_eff (s_entry s) = false -> entry_ok (s_entry s) ->
  goes (start_maps c) s (fun cur s' =>
    s_env s' = s_env s /\ eff_inv s' /\ 0 <= cur <= len c /\ forall j, 0 <= j < cur -> done_bit s' j).
Proof.
  intros Ho Hv Hde [Hm Hd]. pose proof len20. unfold start_maps. apply goes_bind. unfold goes at 1, entry.
  apply goes_bind. eapply (goes_mono _ _ (fun m s' => s' = s /\ blank m)).
  { destruct (skip_eff_map _) as [m|]; [|apply goes_ret; split; [done|apply blank_fresh]].
    destruct (blank_cleared m (Hm m eq_refl)) as (m'&->&?). by apply goes_within. }
  intros m ? [-> [Hmok Hblank]].
  apply goes_bind. eapply (goes_mono _ _ (fun r s' => s' = s /\ map_ok r.1 /\ 0 <= r.2 <= len c /\
    forall j, 0 <= j < r.2 -> bit r.1 j)).
  { destruct (done_inf_map _) as [d|].
    - destruct (first_undone_ok (Z.to_nat (len c)) d 0) as (i&->&Hi); [by apply Hd|lia|lia|intros; lia|].
      apply goes_bind, goes_within, goes_ret. split_and!; try done; [by apply Hd|apply Hi..].
    - apply goes_ret. cbn. split_and!; [done|apply blank_fresh|lia|lia|intros; lia]. }
  intros [d cur] ? (->&Hdok&Hcur&Hall). cbn [fst snd] in *.
  apply goes_bind. unfold goes at 1, set_maps, mbind, stage_bind, entry, set_entry. apply goes_ret. split_and!; [done| |lia|lia|].
  - constructor; [done| |done..]. cbn. exists m, d. split_and!; try done.
    intros i Hi Hbit. by destruct (Hblank i Hi).
  - intros j Hj. exists d. split; [done|]. by apply Hall.
Qed.

(** The state between two calls. *)
Definition skip_inv (s : skip_st W R) : Prop :=
  s_out s = b /\ virgin_ok s /\ entry_ok (s_entry s).

(** What is known of the entry once its bytes were looked at: [k] is the checksum of the
    test case. *)
Record marked (k : Z) (s : skip_st W R) : Prop := Marked {
  mk_clean : clean k (s_env s);
  mk_map : exists m, skip_eff_map (s_entry s) = Some m /\
    (fuzz_nearby c = false -> forall i, 0 <= i < len c -> bit m i -> found i (s_env s) /\ done_bit s i);
  mk_done : done_eff (s_entry s) = true -> all_decided k s;
  mk_continue : continue_inf (s_entry s) = negb (done_eff (s_entry s))
}.

(** Before the flags are set. *)
Record tried (dn : bool) (k : Z) (s : skip_st W R) : Prop := Tried {
  td_inv : skip_inv s;
  td_map : exists m, skip_eff_map (s_entry s) = Some m /\
    (fuzz_nearby c = false -> forall i, 0 <= i < len c -> bit m i -> found i (s_env s) /\ done_bit s i);
  td_flag : done_eff (s_entry s) = false;
  td_done : dn = true -> all_decided k s
}.

Lemma eff_inv_tried dn k s :
  eff_inv s -> (dn = true -> all_decided k s) -> tried dn k s.
Proof.
  intros [Ho (m&d&Hm&Hd&Hmok&Hdok&Hall) Hde Hv] Hdn. constructor; [|by exists m; split; [|intros _ i Hi Hb; destruct (Hall i Hi Hb); split; [|exists d]]|done|done].
  split_and!; [done|done|split; congruence].
Qed.

Lemma near_tried dn k ne s :
  eff_inv s -> (dn = true -> all_decided k s) -> (fuzz_nearby c = true -> zlen ne = len c) ->
  goes (if fuzz_nearby c then nearby_bytes c ne else mret tt) s (fun _ s' => tried dn k s' /\ s_env s' = s_env s).
Proof.
  intros Hi Hdn Hne. destruct (fuzz_nearby c) eqn:En; [|apply goes_ret; split; [by apply eff_inv_tried|done]].
  destruct (ei_maps s Hi) as (_&d&_&Hd&_&Hdok&_).
  eapply goes_mono; [apply nearby_bytes_ok; [done|by apply Hne]|].
  intros _ s' (Ho&Hre&Hv&Hde&(m&Hm&Hmok)&Hd'). split; [|done]. constructor; [| |done|].
  - split_and!; [done|done|split; congruence].
  - exists m. by split; [|congruence].
  - intros Ht j Hj. destruct (Hdn Ht j Hj) as [(d2&Hd2&?)|?]; [left; exists d2; split; congruence|right; by rewrite Hre].
Qed.

(** The part of the stage after the inference. *)
Lemma effective_ok n rfuel k inf s :
  clean k (s_env s) -> inf_ok k inf (s_env s) -> s_out s = b -> virgin_ok s -> done_eff (s_entry s) = false ->
  entry_ok (s_entry s) -> len c < Z.of_nat n ->
  goes (cur ← start_maps c;
        '(non_eff, prev_cksum) ← (if fuzz_nearby c then
          b ← out;
          try_run c b;;
          cksum ← up cksum_env;
          mret (replicate (Z.to_nat (len c)) 0, cksum)
        else mret ([], 0));
        '(done, v) ← eff_rounds c 8 n rfuel inf prev_cksum false (EffVars cur 0 false non_eff);
        (if fuzz_nearby c then nearby_bytes c (v_non_eff v) else mret tt);;
        e ← entry;
        set_entry (SkipdetEntry (negb done) (if (done : bool) then true else done_eff e) (undet_bits e)
                     (quick_eff_bytes e) (skip_eff_map e) (done_inf_map e));;
        mret true) s
    (fun r s' => r = true /\ skip_inv s' /\ marked k s').
Proof.
  intros Hk Hinf Ho Hv Hde Hok Hn. pose proof len20. apply goes_bind.
  eapply goes_mono; [by apply start_maps_ok|]. intros cur s1 (He1&Hi1&Hcur&Hdone).
  rewrite <- He1 in Hk, Hinf.
  apply goes_bind. eapply (goes_mono _ _ (fun r s2 => eff_inv s2 /\ onward s1 s2 /\ (fuzz_nearby c = true -> zlen r.1 = len c))).
  { destruct (fuzz_nearby c); [|apply goes_ret; split; [done|]; split; [apply onward_refl|done]].
    apply goes_bind. unfold goes at 1, out.
    pose proof (sp_room Hpre). apply goes_bind, goes_run; [rewrite (ei_out s1 Hi1); lia|]. intros e' Hl Hran.
    apply goes_bind. unfold goes at 1, up, cksum_env. apply goes_ret. split_and!; [|by split|cbn; rewrite zlen_replicate; lia].
    cbn. rewrite (ei_out s1 Hi1). by apply eff_inv_later. }
  intros [ne pk] s2 (Hi2&Hon&Hne). cbn [fst] in Hne. apply goes_bind. eapply goes_mono.
  { eapply (eff_rounds_ok 8 n rfuel k inf pk false (EffVars cur 0 false ne) s2); try done.
    { eapply inf_ok_later; [apply Hon|done]. }
    intros j Hj. left. apply Hon; [apply Hj|]. by apply Hdone. }
  intros [dn v] s3 (Hi3&Hl3&Hne3&Hall). cbn [fst snd] in *. apply goes_bind.
  eapply goes_mono; [by apply (near_tried dn k)|]. intros _ s4 [[(Ho4&Hv4&Hok4) (m&Hm&Hm4) Hde4 Hdn4] Hre4].
  apply goes_bind. unfold goes at 1, entry. apply goes_bind. unfold goes at 1, set_entry. apply goes_ret.
  split; [done|]. split; [by split_and!|]. constructor; cbn; [|by exists m| |].
  - rewrite Hre4. eapply clean_later; [exact Hl3|]. eapply clean_later; [apply Hon|done].
  - rewrite Hde4. destruct dn; [|done]. intros _. by apply Hdn4.
  - rewrite Hde4. by destruct dn.
Qed.

(** C34. The skipping stage on a test case of at most [MAX_FILE] bytes, from whatever a
    former call left, with a fuzzer that notes its runs: it never accesses memory outside of
    its buffers and, with one more step than bytes, its loops end, whatever the target, the
    clock and the random numbers do (the stage may be given up and return 0 after a run,
    saving may end the process, and the random source may fail to give another byte; of
    these cases nothing more is stated, and [out_buf] is not restored in the first).  When
    the stage returns 1, [out_buf] is as before, the maps have their sizes, and the entry is
    either untouched or marked from the runs noted in this call: the test case was run, with
    the checksum [k]; without [FUZZ_NEARBY] every byte in the map of effective bytes is
    marked as tried, and a run with another value at that byte added to the queue; when the
    entry is called done, every byte below 32768 is marked as tried, now or by a former
    call, or lies in a block whose inversion was run and left the checksum [k];
    [continue_inf] is set exactly when the work is not done.  The target is given at most
    [max_length] bytes ([sent]). *)
Theorem skip_stage_correct fuel n rfuel s :
  1 <= map_size c -> skip_inv s -> runs (s_env s) = [] -> len c < Z.of_nat fuel -> len c < Z.of_nat n ->
  goes (skip_deterministic_stage c fuel n rfuel) s (fun r s' =>
    r = true /\ skip_inv s' /\ (s_entry s' = s_entry s \/ exists k, marked k s')).
Proof.
  intros Hms (Ho&Hv&Hok) _ Hf Hn. unfold skip_deterministic_stage. apply goes_bind. unfold goes at 1, entry.
  destruct (done_eff (s_entry s)) eqn:Hde; [apply goes_ret; split; [done|]; split; [by split|by left]|].
  apply goes_bind. eapply goes_mono; [by apply should_det_fuzz_ok|].
  intros r s1 (Ho1&Hr1&Hv1&(Hm1&Hd1&He1)&Hsame). assert (entry_ok (s_entry s1)) as Hok1.
  { split; [rewrite Hm1|rewrite Hd1]; apply Hok. }
  destruct r; cbn [negb]; [|apply goes_ret; split; [done|]; split; [split_and!; [congruence|done|done]|left; by apply Hsame]].
  apply goes_bind. eapply goes_mono; [apply inference_ok; [done|congruence]|].
  intros inf s2 ((Ho2&Hg2&He2&Hr2)&k&Hinf&Hk).
  eapply goes_mono; [eapply (effective_ok n rfuel k inf s2); try done|].
  - unfold virgin_ok. by rewrite Hg2.
  - congruence.
  - by rewrite He2.
  - intros r s3 (->&Hi3&Hmk). split; [done|]. split; [done|]. right. by exists k.
Qed.
End Facts.

(** ** Examples *)

(** A target with the trace of byte 1 of its input, and a queue that takes what has a new
    value there; the world is the last input and the number of entries. *)
#[local] Instance second_byte : Fuzzer (list Z * Z) := {
  fuzz_run_target w x := (FSRV_RUN_OK, (x, w.2));
  stop_requested _ := false;
  skip_requested _ := false;
  clear_skip_request w := w;
  trace_cksum w := default 0 (w.1 !! 1%nat);
  queued_items w := w.2;
  save_if_interesting w x _ := Some (0, (w.1, if bool_decide (x !! 1%nat = Some 2) then w.2 else w.2 + 1));
  get_cur_time w := (5, w)
}.

Definition skip_ex_cfg (d : list Z) : skip_cfg :=
  SkipCfg d (zlen d) 8 true false (Some [255]) 0 1 MAX_FILE false false.

Definition skip_ex_st (d rnd : list Z) : skip_st (recorder (list Z * Z)) (list Z) :=
  SkipSt d (SkipdetGlobal 0 0 []) (SkipdetEntry false false 0 0 None None)
    (Env (Recorder ([], 1) 0 []) rnd (ExtrasSt [] [] false) 0 0 0).

Definition entry_of {A} (f : flow (skip_st (recorder (list Z * Z)) (list Z)) A) : option skipdet_entry :=
  match f with Next _ s => Some (s_entry s) | _ => None end.

(** Of four bytes the second is effective, and all were tried. *)
Example skip_ex_small :
  entry_of (skip_deterministic_stage (skip_ex_cfg [1; 2; 3; 4]) 5 5 3 (skip_ex_st [1; 2; 3; 4] [7; 7; 7; 7]))
  = Some (SkipdetEntry false true 8 1 (Some [2]) (Some [15])).
Proof. vm_compute. reflexivity. Qed.

(** Of 520 bytes the first block of 64 has an effect, the others but the rest have not. *)
Example skip_ex_blocks :
  let d := 1 :: 2 :: replicate 518 3 in
  match inference (skip_ex_cfg d) 521 (skip_ex_st d []) with
  | Next m _ => m = replicate 64 1 ++ replicate 455 0 ++ [1]
  | _ => False
  end.
Proof. vm_compute. reflexivity. Qed.

(** With [FUZZ_NEARBY], next to the effective byte 7 of nine only 4 to 7 are added: the last
    byte is left out. *)
Example nearby_last_byte :
  mark_nearby (skip_ex_cfg (replicate 9 0)) 9 [128; 0] 3 (replicate 9 0) = Some [0; 0; 0; 0; 1; 1; 1; 1; 0].
Proof. vm_compute. reflexivity. Qed.

Example skip_stage_correct_witness :
  let c := skip_ex_cfg [1; 2; 3; 4] in
  let s := skip_ex_st [1; 2; 3; 4] [7; 7; 7; 7] in
  goes (skip_deterministic_stage c 5 5 3) s (fun r s' => r = true /\ skip_inv c [1; 2; 3; 4] s' /\
    (s_entry s' = s_entry s \/ exists k, marked c [1; 2; 3; 4] k s')).
Proof.
  intros c s. apply (skip_stage_correct c [1; 2; 3; 4]).
  - constructor; try done; [repeat constructor; done|]. by intros mini [= <-].
  - done.
  - split; [done|]. split; [by left|]. by split.
  - done.
  - done.
  - done.
Defined.
