(* ===== verification/Save.v ===== *)
(** * Calibration, and what is kept of an input

    [calibrate_case] of [src/afl-fuzz-run.c] and [save_if_interesting] of
    [src/afl-fuzz-bitmap.c], over the coverage maps of [Coverage], the queue of [Queue] and
    the cache of [Cache].  Custom mutators, Nyx and the introspection build are left out, and
    so are the names of files, the screen and the start of the fork server; the fork server
    and the clock are the interface [Host]. *)

From S2P Require Import Prelude Res Coverage Rng TextCheck Queue Cache Tmin Stage.

Definition CAL_CYCLES_FAST : Z := 3.
Definition CAL_CYCLES : Z := 7.
Definition CAL_CYCLES_LONG : Z := 12.
Definition CAL_TMOUT_PERC : Z := 125.
Definition CAL_TMOUT_ADD : Z := 50.
Definition KEEP_UNIQUE_HANG : Z := 512.
Definition KEEP_UNIQUE_CRASH : Z := 25600.
Definition N_FUZZ_SIZE : Z := 2 ^ 21.
Definition N_FUZZ_SIZE_BITMAP : Z := 2 ^ 29.
Definition SAN_CRASH_ONLY : Z := 2 ^ 4.
Definition NON_COV_INCREASE_BUG : Z := 2 ^ 5.

Inductive san_abstraction := SIMPLIFY_TRACE | UNIQUE_TRACE | COVERAGE_INCREASE.

#[export] Instance san_abstraction_eq_dec : EqDecision san_abstraction.
Proof. solve_decision. Defined.

(** ** The outside *)

(** [h_run w tmout x] runs the target on [x]; [h_san w i x] the [i]-th sanitizer binary. *)
Class Host (W : Type) := {
  h_run : W -> Z -> list Z -> exec_result * W;
  h_san : W -> Z -> list Z -> exec_result * W;
  h_total_execs : W -> Z;
  h_skip_requested : W -> bool;
  h_clear_skip : W -> W;
  h_time : W -> Z * W;
  h_time_us : W -> Z * W
}.

(** ** State *)

(** The fields of [struct queue_entry] that are not in [Queue.queue_entry]. *)
Record cal_entry := CalEntry {
  k_exec_cksum : Z;
  k_bitmap_size : Z;
  k_handicap : Z;
  k_cal_failed : Z;
  k_has_new_cov : bool;
  k_var_behavior : bool
}.

(** The counters and times of [afl_state_t] that are written. *)
Inductive counter :=
| calibration_time_us | total_cal_us | total_cal_cycles | total_bitmap_size
| total_bitmap_entries | queued_with_cov | queued_variable | var_byte_count
| total_tmouts | saved_tmouts | saved_hangs | last_hang_time
| total_crashes | saved_crashes | last_crash_time | last_crash_execs | san_case_status.

#[export] Instance counter_eq_dec : EqDecision counter.
Proof. solve_decision. Defined.

Inductive saved_kind := Hang | Crash.

(** The settings. *)
Record save_cfg := SaveCfg {
  crash_mode : fsrv_run_result;
  exec_tmout : Z;
  hang_tmout : Z;
  min_length : Z;
  max_length : Z;
  cal_fast : bool;
  cmplog_mode : bool;
  resuming_fuzz : bool;
  stage_cur : Z;
  queue_cycle : Z;
  ignore_timeouts : bool;
  keep_timeouts : bool;
  switch_fuzz_mode : bool;
  san_binary_length : Z;
  san_mode : san_abstraction
}.

Record save_st (W : Type) := SaveSt {
  v_world : W;
  v_stop : bool;
  v_cov : cov_state;
  v_corpus : corpus;
  v_cal : list cal_entry;
  v_cache : cache_st;
  v_first_trace : list Z;
  v_var_bytes : list Z;
  v_simplified : list Z;
  v_dup : list Z;
  v_fuzz_mode : bool;
  v_count : counter -> Z;
  v_files : list (saved_kind * list Z)
}.
Arguments SaveSt {W}.
Arguments v_world {W}.
Arguments v_stop {W}.
Arguments v_cov {W}.
Arguments v_corpus {W}.
Arguments v_cal {W}.
Arguments v_cache {W}.
Arguments v_first_trace {W}.
Arguments v_var_bytes {W}.
Arguments v_simplified {W}.
Arguments v_dup {W}.
Arguments v_fuzz_mode {W}.
Arguments v_count {W}.
Arguments v_files {W}.

Section Updates.
Context {W : Type}.
Implicit Type s : save_st W.

Definition with_world (w : W) (stop : bool) s : save_st W :=
  SaveSt w stop (v_cov s) (v_corpus s) (v_cal s) (v_cache s) (v_first_trace s) (v_var_bytes s)
    (v_simplified s) (v_dup s) (v_fuzz_mode s) (v_count s) (v_files s).
Definition with_cov (a : cov_state) s : save_st W :=
  SaveSt (v_world s) (v_stop s) a (v_corpus s) (v_cal s) (v_cache s) (v_first_trace s) (v_var_bytes s)
    (v_simplified s) (v_dup s) (v_fuzz_mode s) (v_count s) (v_files s).
Definition with_corpus (co : corpus) s : save_st W :=
  SaveSt (v_world s) (v_stop s) (v_cov s) co (v_cal s) (v_cache s) (v_first_trace s) (v_var_bytes s)
    (v_simplified s) (v_dup s) (v_fuzz_mode s) (v_count s) (v_files s).
Definition with_cal (l : list cal_entry) s : save_st W :=
  SaveSt (v_world s) (v_stop s) (v_cov s) (v_corpus s) l (v_cache s) (v_first_trace s) (v_var_bytes s)
    (v_simplified s) (v_dup s) (v_fuzz_mode s) (v_count s) (v_files s).
Definition with_cache (t : cache_st) s : save_st W :=
  SaveSt (v_world s) (v_stop s) (v_cov s) (v_corpus s) (v_cal s) t (v_first_trace s) (v_var_bytes s)
    (v_simplified s) (v_dup s) (v_fuzz_mode s) (v_count s) (v_files s).
Definition with_traces (first var : list Z) s : save_st W :=
  SaveSt (v_world s) (v_stop s) (v_cov s) (v_corpus s) (v_cal s) (v_cache s) first var
    (v_simplified s) (v_dup s) (v_fuzz_mode s) (v_count s) (v_files s).
Definition with_san (simplified dup : list Z) s : save_st W :=
  SaveSt (v_world s) (v_stop s) (v_cov s) (v_corpus s) (v_cal s) (v_cache s) (v_first_trace s)
    (v_var_bytes s) simplified dup (v_fuzz_mode s) (v_count s) (v_files s).
Definition with_mode (b : bool) s : save_st W :=
  SaveSt (v_world s) (v_stop s) (v_cov s) (v_corpus s) (v_cal s) (v_cache s) (v_first_trace s)
    (v_var_bytes s) (v_simplified s) (v_dup s) b (v_count s) (v_files s).
Definition with_count (f : counter -> Z) s : save_st W :=
  SaveSt (v_world s) (v_stop s) (v_cov s) (v_corpus s) (v_cal s) (v_cache s) (v_first_trace s)
    (v_var_bytes s) (v_simplified s) (v_dup s) (v_fuzz_mode s) f (v_files s).
Definition with_files (l : list (saved_kind * list Z)) s : save_st W :=
  SaveSt (v_world s) (v_stop s) (v_cov s) (v_corpus s) (v_cal s) (v_cache s) (v_first_trace s)
    (v_var_bytes s) (v_simplified s) (v_dup s) (v_fuzz_mode s) (v_count s) l.
End Updates.

Definition set_exec_us (n : Z) (q : queue_entry) : queue_entry :=
  Entry (q_len q) (q_id q) (q_depth q) (q_passed_det q) (q_was_fuzzed q) (q_favored q)
    (q_fs_redundant q) (q_is_ascii q) (q_disabled q) (q_fuzz_level q) (q_n_fuzz_entry q)
    n (q_mother q) (q_tc_ref q) (q_trace_mini q).

Definition set_n_fuzz_entry (n : Z) (q : queue_entry) : queue_entry :=
  Entry (q_len q) (q_id q) (q_depth q) (q_passed_det q) (q_was_fuzzed q) (q_favored q)
    (q_fs_redundant q) (q_is_ascii q) (q_disabled q) (q_fuzz_level q) n
    (q_exec_us q) (q_mother q) (q_tc_ref q) (q_trace_mini q).

Definition with_n_fuzz (l : list Z) (st : afl) : afl :=
  Afl (queue_buf st) (Queue.queued_items st) (top_rated st) (Queue.trace_bits st) (Queue.map_size st)
    (schedule st) (fixed_seed st) l (score_changed st) (non_instrumented_mode st)
    (afl_disable_redundant st) (map_tmp_buf st) (queued_favored st) (pending_favored st)
    (smallest_favored st) (reinit_table st).

Definition with_afl (a : afl) (co : corpus) : corpus :=
  Corpus a (queue_head co) (queue_top co) (queue_cur co) (cur_depth co) (max_depth co)
    (ready_for_splicing_count co) (active_items co) (pending_not_fuzzed co) (cycles_wo_finds co)
    (start_time co) (last_find_time co) (longest_find_time co).

Definition with_c_queue (l : list centry) (t : cache_st) : cache_st :=
  CacheSt l (c_slots t) (c_max_size t) (c_max_entries t) (c_size t) (c_max_count t)
    (c_count t) (c_smallest_free t) (c_evictions t) (c_queue_cur t) (c_do_once t)
    (c_testcase_buf t) (c_splicecase_buf t).

Section Save.
Context {W : Type} `{Host W} (c : save_cfg).
Context (hash64 hash32 : list Z -> Z) (tbl : table16).

(** ** Accesses *)

Definition gets {A} (f : save_st W -> A) : stage (save_st W) A := fun s => Next (f s) s.
Definition modify (f : save_st W -> save_st W) : stage (save_st W) unit := fun s => Next tt (f s).

Definition fatal {A} : stage (save_st W) A := fun _ => Fatal.

Definition the_afl (s : save_st W) : afl := co_afl (v_corpus s).
Definition the_trace (s : save_st W) : list Z := Coverage.trace_bits (v_cov s).
Definition put_afl (a : afl) (s : save_st W) : save_st W := with_corpus (with_afl a (v_corpus s)) s.

Definition set_counter (k : counter) (n : Z) : stage (save_st W) unit :=
  modify (fun s => with_count (fun k' => if decide (k' = k) then n else v_count s k') s).
Definition add64 (k : counter) (n : Z) : stage (save_st W) unit :=
  v ← gets (fun s => v_count s k); set_counter k (u64 (v + n)).
Definition add32 (k : counter) (n : Z) : stage (save_st W) unit :=
  v ← gets (fun s => v_count s k); set_counter k (u32 (v + n)).

Definition time_ms : stage (save_st W) Z := fun s =>
  let '(t, w) := h_time (v_world s) in Next t (with_world w (v_stop s) s).
Definition time_us : stage (save_st W) Z := fun s =>
  let '(t, w) := h_time_us (v_world s) in Next t (with_world w (v_stop s) s).

(** [fuzz_run_target(afl, &afl->fsrv, tmout)] on [x]. *)
Definition run (tmout : Z) (x : list Z) : stage (save_st W) fsrv_run_result := fun s =>
  let '(r, w) := h_run (v_world s) tmout x in
  Next (ret r) (with_cov (Coverage.set_trace (trace r) (v_cov s)) (with_world w (stop_soon r) s)).

Definition run_san (i : Z) (x : list Z) : stage (save_st W) fsrv_run_result := fun s =>
  let '(r, w) := h_san (v_world s) i x in Next (ret r) (with_world w (stop_soon r) s).

(** What [write_to_testcase] writes; its length is what it returns. *)
Definition write (mem : list Z) (len : Z) (fix_ : bool) : stage (save_st W) (list Z) :=
  within (write_to_testcase (min_length c) (max_length c) mem len fix_).

Definition on_cov {A} (f : cov_state -> option (A * cov_state)) : stage (save_st W) A := fun s =>
  match f (v_cov s) with
  | Some (x, a) => Next x (with_cov a s)
  | None => OutOfBounds
  end.

Definition new_bits (id : virgin_id) : stage (save_st W) Z := on_cov (has_new_bits 3 id).
Definition new_bits_unclassified (id : virgin_id) : stage (save_st W) Z :=
  on_cov (has_new_bits_unclassified 3 tbl id).
Definition classify : stage (save_st W) unit := on_cov (fun a =>
  tr ← Coverage.classify_counts 3 tbl (cov_map_size a) (Coverage.trace_bits a); Some (tt, Coverage.set_trace tr a)).
Definition simplify : stage (save_st W) unit := on_cov (fun a =>
  tr ← simplify_trace 3 (cov_map_size a) (Coverage.trace_bits a); Some (tt, Coverage.set_trace tr a)).

Definition bytes_set (mem : list Z) : stage (save_st W) Z :=
  n ← gets (fun s => cov_real_map_size (v_cov s)); within (count_bytes n mem).

Definition cksum64 : stage (save_st W) Z := gets (fun s => hash64 (the_trace s)).

Definition queue_entry_of (q : nat) : stage (save_st W) queue_entry :=
  l ← gets (fun s => queue_buf (the_afl s)); within (l !! q).
Definition set_queue_entry (q : nat) (f : queue_entry -> queue_entry) : stage (save_st W) unit :=
  modify (fun s => put_afl (with_queue (alter f q (queue_buf (the_afl s))) (the_afl s)) s).

Definition cal_of (q : nat) : stage (save_st W) cal_entry :=
  l ← gets v_cal; within (l !! q).
Definition set_cal (q : nat) (f : cal_entry -> cal_entry) : stage (save_st W) unit :=
  modify (fun s => with_cal (alter f q (v_cal s)) s).

Definition set_cksum (k : Z) (e : cal_entry) : cal_entry :=
  CalEntry k (k_bitmap_size e) (k_handicap e) (k_cal_failed e) (k_has_new_cov e) (k_var_behavior e).
Definition set_failed (n : Z) (e : cal_entry) : cal_entry :=
  CalEntry (k_exec_cksum e) (k_bitmap_size e) (k_handicap e) n (k_has_new_cov e) (k_var_behavior e).
Definition set_stats (bs hc : Z) (e : cal_entry) : cal_entry :=
  CalEntry (k_exec_cksum e) bs hc 0 (k_has_new_cov e) (k_var_behavior e).
Definition set_new_cov (e : cal_entry) : cal_entry :=
  CalEntry (k_exec_cksum e) (k_bitmap_size e) (k_handicap e) (k_cal_failed e) true (k_var_behavior e).

Definition instrumented : stage (save_st W) bool := gets (fun s => negb (non_instrumented_mode (the_afl s))).

(** ** Calibration *)

Definition update_calibration_time (start : Z) : stage (save_st W) Z :=
  cur ← time_us;
  add64 calibration_time_us (u64 (cur - start));;
  mret cur.

(** The checks after a run: the fault with which calibration is aborted. *)
Definition judge (fault : fsrv_run_result) (cur : Z) : stage (save_st W) (option fsrv_run_result) :=
  stop ← gets v_stop;
  if stop || bool_decide (fault <> crash_mode c) then mret (Some fault)
  else
    i ← instrumented;
    if (i : bool) && (cur =? 0) then
      tr ← gets the_trace;
      n ← bytes_set tr;
      mret (if n =? 0 then Some FSRV_RUN_NOINST else None)
    else mret None.

(** [var_bytes[i]] and [virgin_bits[i]] for a byte that differs from the first trace. *)
Definition mark_var (i : Z) : stage (save_st W) unit :=
  s ← gets id;
  v ← within (get (v_var_bytes s) i);
  if v =? 0 then
    f ← within (get (v_first_trace s) i);
    t ← within (get (the_trace s) i);
    if f =? t then mret tt
    else
      var ← within (put (v_var_bytes s) i 1);
      vb ← within (put (virgin_bits (v_cov s)) i 0);
      modify (with_traces (v_first_trace s) var);;
      modify (with_cov (set_virgin VirginBits vb (v_cov s)))
  else mret tt.

(** [stage_max], [new_bits], [var_detected], [calibration_start_us] *)
Record cal_vars := CalVars {
  cv_max : Z;
  cv_new : Z;
  cv_var : bool;
  cv_start : Z
}.

(** After a run that is accepted. *)
Definition compare_trace (q : nat) (v : cal_vars) : stage (save_st W) cal_vars :=
  classify;;
  cksum ← cksum64;
  e ← cal_of q;
  if k_exec_cksum e =? cksum then mret v
  else
    hnb ← new_bits VirginBits;
    let nb := if cv_new v <? hnb then hnb else cv_new v in
    if negb (k_exec_cksum e =? 0) then
      n ← gets (fun s => cov_map_size (v_cov s));
      each (seqZ 0 n) mark_var;;
      mret (CalVars (if cal_fast c then CAL_CYCLES else CAL_CYCLES_LONG) nb true (cv_start v))
    else
      set_cal q (set_cksum cksum);;
      modify (fun s => with_traces (the_trace s) (v_var_bytes s) s);;
      mret (CalVars (cv_max v) nb (cv_var v) (cv_start v)).

Fixpoint cal_loop (n : nat) (q : nat) (mem : list Z) (tmout cur : Z) (v : cal_vars) :
  stage (save_st W) (option fsrv_run_result * cal_vars) :=
  match n with
  | O => fun _ => Unfinished
  | S n =>
      if cur <? cv_max v then
        e ← queue_entry_of q;
        x ← write mem (q_len e) true;
        fault ← run tmout x;
        start ← update_calibration_time (cv_start v);
        let v := CalVars (cv_max v) (cv_new v) (cv_var v) start in
        j ← judge fault cur;
        match j with
        | Some f => mret (Some f, v)
        | None => v ← compare_trace q v; cal_loop n q mem tmout (cur + 1) v
        end
      else mret (None, v)
  end.

Definition score (q : nat) : stage (save_st W) unit := fun s =>
  match update_bitmap_score (with_trace (the_trace s) (the_afl s)) q true with
  | Some a => Next tt (put_afl a s)
  | None => OutOfBounds
  end.

(** The statistics of the runs, which started at [start]. *)
Definition cal_stats (q : nat) (handicap start : Z) (v : cal_vars) : stage (save_st W) unit :=
  seed ← gets (fun s => fixed_seed (the_afl s));
  diff_us ← (if (seed : bool) then mret (u64 (u32 (exec_tmout c - 1) * cv_max v))
             else
               stop ← time_us;
               let d := u64 (stop - start) in
               mret (if d =? 0 then 1 else d));
  add64 total_cal_us diff_us;;
  add64 total_cal_cycles (cv_max v);;
  if cv_max v =? 0 then fatal
  else
    let us := diff_us / cv_max v in
    set_queue_entry q (set_exec_us (if us =? 0 then 1 else us));;
    tr ← gets the_trace;
    bs ← bytes_set tr;
    set_cal q (set_stats bs handicap);;
    add64 total_bitmap_size bs;;
    add64 total_bitmap_entries 1;;
    score q.

Definition cal_end (q : nat) (v : cal_vars) (fault : fsrv_run_result) :
  stage (save_st W) fsrv_run_result :=
  e ← cal_of q;
  (if (cv_new v =? 2) && negb (k_has_new_cov e) then
     set_cal q set_new_cov;; add32 queued_with_cov 1
   else mret tt);;
  (if cv_var v then
     l ← gets v_var_bytes;
     n ← bytes_set l;
     set_counter var_byte_count n;;
     if negb (k_var_behavior e) then add32 queued_variable 1 else mret tt
   else mret tt);;
  update_calibration_time (cv_start v);;
  mret fault.

(** The run before the first when [cmplog_mode] is on; [Some]: abort. *)
Definition dummy_run (q : nat) (mem : list Z) (tmout : Z) : stage (save_st W) (option fsrv_run_result) :=
  e ← queue_entry_of q;
  x ← write mem (q_len e) true;
  fault ← run tmout x;
  judge fault (stage_cur c).

Definition cal_tmout (from_queue : bool) : Z :=
  if negb from_queue || resuming_fuzz c then
    Z.max (u32 (exec_tmout c + CAL_TMOUT_ADD)) (u32 (exec_tmout c * CAL_TMOUT_PERC) / 100)
  else exec_tmout c.

Definition calibrate_case (q : nat) (use_mem : list Z) (handicap : Z) (from_queue : bool) :
  stage (save_st W) fsrv_run_result :=
  e ← cal_of q;
  let first_run := k_exec_cksum e =? 0 in
  start0 ← time_us;
  (if cmplog_mode c then set_cal q (set_cksum 0) else mret tt);;
  let use_tmout := cal_tmout from_queue in
  set_cal q (set_failed (u8 (k_cal_failed e + 1)));;
  let stage_max := if cal_fast c then CAL_CYCLES_FAST else CAL_CYCLES in
  d ← (if cmplog_mode c then dummy_run q use_mem use_tmout else mret None);
  match d with
  | Some f => cal_end q (CalVars stage_max 0 false start0) f
  | None =>
      e ← cal_of q;
      nb ← (if negb (k_exec_cksum e =? 0) then
              modify (fun s => with_traces (the_trace s) (v_var_bytes s) s);;
              new_bits VirginBits
            else mret 0);
      start ← time_us;
      '(ab, v) ← cal_loop 13 q use_mem use_tmout 0 (CalVars stage_max nb false start0);
      match ab with
      | Some f => cal_end q v f
      | None =>
          cal_stats q handicap start v;;
          i ← instrumented;
          cal_end q v
            (if (i : bool) && first_run && bool_decide (crash_mode c = FSRV_RUN_OK) && (cv_new v =? 0)
             then FSRV_RUN_NOBITS else crash_mode c)
      end
  end.

(** ** Interesting inputs *)

Definition in_fast_schedules : stage (save_st W) bool :=
  gets (fun s => (FAST <=? schedule (the_afl s)) && (schedule (the_afl s) <=? RARE)).

(** [n_fuzz[cksum % N_FUZZ_SIZE]++], saturated *)
Definition count_path (cksum : Z) : stage (save_st W) unit :=
  a ← gets the_afl;
  v ← within (get (n_fuzz a) (cksum mod N_FUZZ_SIZE));
  if v <? 0xFFFFFFFF then
    l ← within (put (n_fuzz a) (cksum mod N_FUZZ_SIZE) (v + 1));
    modify (put_afl (with_n_fuzz l a))
  else mret tt.

Definition update_frequency : stage (save_st W) Z :=
  classify;;
  cksum ← cksum64;
  count_path cksum;;
  mret cksum.

(** The local variables: [classified], [need_hash], [new_bits], [cksum], [feed_san],
    [san_fault], [len]. *)
Record save_vars := SaveVars {
  w_classified : bool;
  w_need_hash : bool;
  w_new_bits : Z;
  w_cksum : Z;
  w_feed : bool;
  w_san_fault : fsrv_run_result;
  w_len : Z
}.

Definition classified_bits (b : bool) (v : save_vars) : save_vars :=
  SaveVars b (w_need_hash v) (w_new_bits v) (w_cksum v) (w_feed v) (w_san_fault v) (w_len v).
Definition found_bits (n : Z) (v : save_vars) : save_vars :=
  SaveVars true (w_need_hash v) n (w_cksum v) (w_feed v) (w_san_fault v) (w_len v).
Definition feed (b : bool) (v : save_vars) : save_vars :=
  SaveVars (w_classified v) (w_need_hash v) (w_new_bits v) (w_cksum v) b (w_san_fault v) (w_len v).
Definition san_result (f : fsrv_run_result) (len : Z) (v : save_vars) : save_vars :=
  SaveVars (w_classified v) (w_need_hash v) (w_new_bits v) (w_cksum v) (w_feed v) f len.

(** [has_new_bits] or, for a raw trace, [has_new_bits_unclassified] on [virgin_bits] *)
Definition look (v : save_vars) : stage (save_st W) save_vars :=
  n ← (if w_classified v then new_bits VirginBits else new_bits_unclassified VirginBits);
  mret (found_bits n v).

(** Whether the sanitizers are to see the input. *)
Definition choose_sanitizers (v : save_vars) : stage (save_st W) save_vars :=
  if san_binary_length c =? 0 then mret v
  else
    match san_mode c with
    | SIMPLIFY_TRACE =>
        s ← gets id;
        tr ← within (simplify_trace 3 (cov_map_size (v_cov s)) (the_trace s));
        let k := hash32 tr in
        b ← within (bitmap_read (v_simplified s) k);
        if (b : bool) then mret v
        else
          m ← within (bitmap_set (v_simplified s) k);
          modify (with_san m (v_dup s));;
          mret (feed true v)
    | COVERAGE_INCREASE =>
        v ← look v;
        mret (if w_new_bits v =? 0 then v else feed true v)
    | UNIQUE_TRACE =>
        (if w_classified v then mret tt else classify);;
        let v := classified_bits true v in
        s ← gets id;
        let k := hash32 (the_trace s) in
        b ← within (bitmap_read (v_dup s) (u32 (w_cksum v)));
        if (b : bool) then mret v
        else
          m ← within (bitmap_set (v_dup s) k);
          modify (with_san (v_simplified s) m);;
          mret (feed true v)
    end.

Definition add_status (n : Z) : stage (save_st W) unit :=
  v ← gets (fun s => v_count s san_case_status); set_counter san_case_status (Z.lor v n).

(** The loop over the sanitizer binaries; the result is [san_fault] and [len]. *)
Fixpoint run_sanitizers (l : list Z) (mem : list Z) (len : Z) : stage (save_st W) (fsrv_run_result * Z) :=
  match l with
  | [] => mret (FSRV_RUN_OK, len)
  | i :: l =>
      x ← write mem len false;
      f ← run_san i x;
      (if bool_decide (f = FSRV_RUN_OK) then mret tt else add_status SAN_CRASH_ONLY);;
      if bool_decide (f = FSRV_RUN_CRASH) then mret (f, zlen x)
      else run_sanitizers l mem (zlen x)
  end.

Definition sanitize (mem : list Z) (v : save_vars) : stage (save_st W) save_vars :=
  v ← choose_sanitizers v;
  if w_feed v then
    '(f, len) ← run_sanitizers (seqZ 0 (san_binary_length c)) mem (w_len v);
    mret (san_result f len v)
  else mret v.

(** [add_to_queue] for the file with the first [len] bytes of [mem]. *)
Definition enqueue (mem : list Z) (len : Z) : stage (save_st W) nat :=
  file ← within (load mem 0 len);
  q ← gets (fun s => length (queue_buf (the_afl s)));
  t ← time_ms;
  text ← (if cmplog_mode c then r ← within (check_if_text (Some file) len); mret (Some r) else mret None);
  modify (fun s => with_corpus (add_to_queue (v_corpus s) len false t text) s);;
  modify (fun s => with_cal (v_cal s ++ [CalEntry 0 0 0 0 false false]) s);;
  modify (fun s => with_cache (with_c_queue (c_queue (v_cache s) ++ [CEntry len file false None]) (v_cache s)) s);;
  mret q.

Definition of_res {A} (r : res A) : stage (save_st W) A := fun s =>
  match r with
  | Ret a => Next a s
  | Exit => Fatal
  | Fault => OutOfBounds
  | NoFuel => Unfinished
  end.

Definition store_mem (q : nat) (mem : list Z) : stage (save_st W) unit :=
  t ← gets v_cache;
  if c_max_size t =? 0 then mret tt
  else
    t ← of_res (queue_testcase_store_mem t q mem);
    modify (with_cache t).

(** From the label [save_to_queue] on. *)
Definition save_to_queue (mem : list Z) (v : save_vars) : stage (save_st W) save_vars :=
  q ← enqueue mem (w_len v);
  i ← instrumented;
  m ← gets v_fuzz_mode;
  (if m && switch_fuzz_mode c && i then modify (with_mode false) else mret tt);;
  (if w_new_bits v =? 2 then set_cal q set_new_cov;; add32 queued_with_cov 1 else mret tt);;
  (if w_need_hash v && negb (w_new_bits v =? 0) then
     k ← cksum64; set_cal q (set_cksum k)
   else mret tt);;
  (if w_cksum v =? 0 then mret tt
   else
     set_queue_entry q (set_n_fuzz_entry (w_cksum v mod N_FUZZ_SIZE));;
     a ← gets the_afl;
     l ← within (put (n_fuzz a) (w_cksum v mod N_FUZZ_SIZE) 1);
     modify (put_afl (with_n_fuzz l a)));;
  res ← calibrate_case q mem (u32 (queue_cycle c - 1)) false;
  if bool_decide (res = FSRV_RUN_ERROR) then fatal
  else
    store_mem q mem;;
    mret (SaveVars (w_classified v) (w_need_hash v && (w_new_bits v =? 0)) (w_new_bits v) (w_cksum v)
            (w_feed v) (w_san_fault v) (w_len v)).

(** New bits in the simplified trace. *)
Definition unique_fault (id : virgin_id) : stage (save_st W) bool :=
  i ← instrumented;
  if (i : bool) then
    simplify;;
    n ← new_bits id;
    mret (negb (n =? 0))
  else mret true.

Definition save_file (k : saved_kind) (mem : list Z) (len : Z) : stage (save_st W) unit :=
  x ← within (load mem 0 len);
  modify (fun s => with_files (v_files s ++ [(k, x)]) s).

Definition keep_as_crash (mem : list Z) (len : Z) (keeping : bool) : stage (save_st W) bool :=
  add64 total_crashes 1;;
  n ← gets (fun s => v_count s saved_crashes);
  if KEEP_UNIQUE_CRASH <=? n then mret keeping
  else
    new ← unique_fault VirginCrash;
    if negb new then mret keeping
    else
      add64 saved_crashes 1;;
      t ← time_ms;
      set_counter last_crash_time t;;
      n ← gets (fun s => h_total_execs (v_world s));
      set_counter last_crash_execs n;;
      save_file Crash mem len;;
      mret keeping.

Definition keep_as_hang (mem : list Z) (len : Z) (keeping : bool) : stage (save_st W) bool :=
  add64 saved_hangs 1;;
  t ← time_ms;
  set_counter last_hang_time t;;
  save_file Hang mem len;;
  mret keeping.

(** The run with the more generous timeout: its length, and the result. *)
Definition run_again (mem : list Z) (v : save_vars) : stage (save_st W) (fsrv_run_result * save_vars) :=
  x ← write mem (w_len v) false;
  x ← (if zlen x =? 0 then write mem (w_len v) true else mret x);
  f ← run (hang_tmout c) x;
  (if w_classified v then mret tt else classify);;
  mret (f, san_result (w_san_fault v) (zlen x) (classified_bits true v)).

(** From the label [may_save_fault] on; each turn but the last goes back to the label
    [save_to_queue]. *)
Fixpoint may_save_fault (fuel : nat) (mem : list Z) (fault : fsrv_run_result) (keeping : bool)
  (v : save_vars) : stage (save_st W) bool :=
  match fuel with
  | O => fun _ => Unfinished
  | S fuel =>
      match fault with
      | FSRV_RUN_TMOUT =>
          add64 total_tmouts 1;;
          n ← gets (fun s => v_count s saved_hangs);
          if KEEP_UNIQUE_HANG <=? n then mret keeping
          else
            new ← unique_fault VirginTmout;
            if negb new then mret keeping
            else if exec_tmout c <? hang_tmout c then
              '(f, v) ← run_again mem v;
              stop ← gets v_stop;
              if negb stop && bool_decide (f = FSRV_RUN_CRASH) then keep_as_crash mem (w_len v) keeping
              else if stop || bool_decide (f <> FSRV_RUN_TMOUT) then
                if keep_timeouts c then
                  add64 saved_tmouts 1;;
                  v ← save_to_queue mem v;
                  may_save_fault fuel mem fault true v
                else mret keeping
              else keep_as_hang mem (w_len v) keeping
            else keep_as_hang mem (w_len v) keeping
      | FSRV_RUN_CRASH => keep_as_crash mem (w_len v) keeping
      | FSRV_RUN_ERROR => fatal
      | _ => mret keeping
      end
  end.

Definition save_if_interesting (fuel : nat) (mem : list Z) (len : Z) (fault : fsrv_run_result) :
  stage (save_st W) bool :=
  if len =? 0 then mret false
  else
    fast ← in_fast_schedules;
    if bool_decide (fault = FSRV_RUN_TMOUT) && ignore_timeouts c then
      (if (fast : bool) then update_frequency;; mret tt else mret tt);;
      mret false
    else
      set_counter san_case_status 0;;
      cksum ← (if (fast : bool) then update_frequency else mret 0);
      let v := SaveVars fast (negb fast) 0 cksum false FSRV_RUN_OK len in
      if bool_decide (fault = crash_mode c) then
        v ← sanitize mem v;
        v ← (if bool_decide (san_mode c = COVERAGE_INCREASE) && w_feed v then mret v else look v);
        if w_new_bits v =? 0 then
          if bool_decide (w_san_fault v = FSRV_RUN_OK) then
            (if bool_decide (crash_mode c = FSRV_RUN_OK) then mret tt else add64 total_crashes 1);;
            mret false
          else
            add_status NON_COV_INCREASE_BUG;;
            may_save_fault fuel mem (w_san_fault v) false v
        else
          v ← save_to_queue mem v;
          may_save_fault fuel mem (w_san_fault v) true v
      else may_save_fault fuel mem fault false v.
End Save.
