(* ===== verification/CalFacts.v ===== *)
(** * Calibration: invariants *)

From S2P Require Import Prelude Res Coverage Rng CoverageFacts CountFacts TextCheck Queue QueueFacts Cache CacheFacts Tmin Stage StageFacts Save.

Lemma goes_each {S A} (l : list A) (f : A -> stage S unit) s (J : S -> Prop) :
  J s -> (forall i s, i ∈ l -> J s -> goes (f i) s (fun _ => J)) -> goes (each l f) s (fun _ => J).
Proof.
  revert s. induction l as [|i l IH]; intros s HJ Hf; [done|]. cbn [each].
  apply goes_bind. eapply goes_mono; [apply Hf; [left|done]|]. intros ? s' HJ'.
  apply IH; [done|]. intros. apply Hf; [by right|done].
Qed.

(** ** What holds between the steps *)

(** Every byte that was found to be variable counts as seen. *)
Definition var_seen (var virgin : list Z) : Prop :=
  forall i x, var !! i = Some x -> x <> 0 -> virgin !! i = Some 0.

(** No bit of a virgin map comes back. *)
Definition shrinks (v v' : list Z) : Prop :=
  forall i x y, v !! i = Some x -> v' !! i = Some y -> Z.ldiff y x = 0.

Lemma less_left_refl v : shrinks v v.
Proof. intros i x y Hx Hy. rewrite Hx in Hy. injection Hy as ->. apply Z.ldiff_diag. Qed.

Lemma ldiff_trans x y z : Z.ldiff y x = 0 -> Z.ldiff z y = 0 -> Z.ldiff z x = 0.
Proof.
  intros H1 H2. apply Z.bits_inj'. intros n Hn.
  assert (Z.testbit (Z.ldiff y x) n = false) as B1 by (rewrite H1; apply Z.bits_0).
  assert (Z.testbit (Z.ldiff z y) n = false) as B2 by (rewrite H2; apply Z.bits_0).
  rewrite Z.ldiff_spec in *. rewrite Z.bits_0.
  destruct (Z.testbit x n), (Z.testbit y n), (Z.testbit z n); done.
Qed.

Lemma less_left_trans v1 v2 v3 :
  length v2 = length v1 -> shrinks v1 v2 -> shrinks v2 v3 -> shrinks v1 v3.
Proof.
  intros Hl H1 H2 i x z Hx Hz. destruct (v2 !! i) as [y|] eqn:Hy.
  - apply (ldiff_trans x y z); eauto.
  - apply lookup_lt_Some in Hx. apply lookup_ge_None in Hy. lia.
Qed.

(** The counters that calibration writes. *)
Definition cal_counter (k : counter) : Prop :=
  match k with
  | calibration_time_us | total_cal_us | total_cal_cycles | total_bitmap_size
  | total_bitmap_entries | queued_with_cov | queued_variable | var_byte_count => True
  | _ => False
  end.

Section Facts.
Context {W : Type} `{Host W} (c : save_cfg).
Context (hash64 hash32 : list Z -> Z) (t0 : table16) (N : Z).
Implicit Type s : save_st W.

(** The shared memory has [N] bytes. *)
Definition host_ok : Prop := forall w tm x r w',
  h_run w tm x = (r, w') -> bytes_ok (trace r) /\ zlen (trace r) = N.

Record save_wf (tr : nat -> list Z) s : Prop := SaveWf {
  sw_cov : cov_wf (v_cov s);
  sw_size : cov_map_size (v_cov s) = N;
  sw_queue : wf tr (the_afl s);
  sw_afl_size : Queue.map_size (the_afl s) = N;
  sw_n_fuzz : zlen (n_fuzz (the_afl s)) = N_FUZZ_SIZE;
  sw_cal : length (v_cal s) = length (queue_buf (the_afl s));
  sw_lens : c_len <$> c_queue (v_cache s) = q_len <$> queue_buf (the_afl s);
  sw_cache : cache_wf (v_cache s);
  sw_first : zlen (v_first_trace s) = N;
  sw_var : zlen (v_var_bytes s) = N /\ bytes_ok (v_var_bytes s);
  sw_seen : var_seen (v_var_bytes s) (virgin_bits (v_cov s));
  sw_simplified : san_binary_length c <> 0 -> san_mode c = SIMPLIFY_TRACE ->
    zlen (v_simplified s) = N_FUZZ_SIZE_BITMAP /\ bytes_ok (v_simplified s);
  sw_dup : san_binary_length c <> 0 -> san_mode c = UNIQUE_TRACE ->
    zlen (v_dup s) = N_FUZZ_SIZE_BITMAP /\ bytes_ok (v_dup s)
}.

(** What calibration leaves alone. *)
Record stable s s' : Prop := Stable {
  st_files : v_files s' = v_files s;
  st_cache : v_cache s' = v_cache s;
  st_san : v_simplified s' = v_simplified s /\ v_dup s' = v_dup s;
  st_fuzz_mode : v_fuzz_mode s' = v_fuzz_mode s;
  st_count : forall k, ~ cal_counter k -> v_count s' k = v_count s k;
  st_afl : non_instrumented_mode (the_afl s') = non_instrumented_mode (the_afl s) /\
    schedule (the_afl s') = schedule (the_afl s) /\ fixed_seed (the_afl s') = fixed_seed (the_afl s);
  st_lens : q_len <$> queue_buf (the_afl s') = q_len <$> queue_buf (the_afl s);
  st_n_fuzz : n_fuzz (the_afl s') = n_fuzz (the_afl s);
  st_virgin : forall id, id <> VirginBits -> virgin_of (v_cov s') id = virgin_of (v_cov s) id;
  st_real : cov_real_map_size (v_cov s') = cov_real_map_size (v_cov s);
  st_bits : length (virgin_bits (v_cov s')) = length (virgin_bits (v_cov s)) /\
    shrinks (virgin_bits (v_cov s)) (virgin_bits (v_cov s'));
  st_var : forall i x, v_var_bytes s !! i = Some x -> x <> 0 -> v_var_bytes s' !! i = Some x
}.

Lemma stable_refl s : stable s s.
Proof. constructor; try done. split; [done|apply less_left_refl]. Qed.

Lemma stable_trans s1 s2 s3 : stable s1 s2 -> stable s2 s3 -> stable s1 s3.
Proof.
  intros [F1 C1 [S1 D1] M1 K1 (A1&B1&E1) L1 N1 V1 R1 [Y1 Z1] X1]
         [F2 C2 [S2 D2] M2 K2 (A2&B2&E2) L2 N2 V2 R2 [Y2 Z2] X2].
  constructor; try congruence; try (split_and!; congruence).
  - intros k Hk. rewrite K2, K1; done.
  - intros id Hid. rewrite V2, V1; done.
  - split; [congruence|]. by apply (less_left_trans _ (virgin_bits (v_cov s2))).
  - auto.
Qed.

(** The statistics of an entry. *)
Definition stats (k : cal_entry) : Z * Z * Z := (k_bitmap_size k, k_handicap k, k_cal_failed k).

Definition stats_of (q : nat) s : option (Z * Z * Z) := stats <$> v_cal s !! q.

(** ** Steps that keep the invariant

    [J] is what is known besides about the queue and the statistics of the entry [q] that is
    calibrated. *)

Section Steps.
Context (q : nat) (len : Z) (tr : nat -> list Z) (J : save_st W -> Prop).
Context (HJ : forall s s', v_corpus s' = v_corpus s -> stats_of q s' = stats_of q s -> J s -> J s').
Context (HJq : forall s, J s -> exists e, queue_buf (the_afl s) !! q = Some e /\ q_len e = len).

Definition inv s : Prop := save_wf tr s /\ J s.

Definition safe {A} (m : stage (save_st W) A) : Prop := forall s,
  inv s -> goes m s (fun _ s' => inv s' /\ stable s s').

Lemma safe_ret {A} (a : A) : safe (mret a).
Proof. intros s Hi. apply goes_ret. split; [done|apply stable_refl]. Qed.

Lemma safe_bind {A B} (m : stage (save_st W) A) (k : A -> stage (save_st W) B) :
  safe m -> (forall a, safe (k a)) -> safe (m ≫= k).
Proof.
  intros Hm Hk s Hi. apply goes_bind. eapply goes_mono; [by apply Hm|]. intros a s1 [Hi1 Hs1].
  eapply goes_mono; [by apply Hk|]. intros b s2 [Hi2 Hs2]. split; [done|exact (stable_trans _ _ _ Hs1 Hs2)].
Qed.

(** A step with a result that is known; the state goes on as the relation says. *)
Lemma safe_bind_with {A B} (m : stage (save_st W) A) (k : A -> stage (save_st W) B) (P : A -> Prop) s :
  inv s -> goes m s (fun a s' => P a /\ inv s' /\ stable s s') ->
  (forall a, P a -> safe (k a)) ->
  goes (m ≫= k) s (fun _ s' => inv s' /\ stable s s').
Proof.
  intros Hi Hm Hk. apply goes_bind. eapply goes_mono; [exact Hm|]. intros a s1 (Ha&Hi1&Hs1).
  eapply goes_mono; [by apply (Hk a Ha)|]. intros b s2 [Hi2 Hs2]. split; [done|exact (stable_trans _ _ _ Hs1 Hs2)].
Qed.

Lemma safe_gets {A} (f : save_st W -> A) : safe (gets f).
Proof. intros s Hi. split; [done|apply stable_refl]. Qed.

Lemma safe_if {A} (b : bool) (m k : stage (save_st W) A) : safe m -> safe k -> safe (if b then m else k).
Proof. by destruct b. Qed.

Lemma safe_modify f :
  (forall s, inv s -> inv (f s) /\ stable s (f s)) -> safe (modify f).
Proof. intros Hf s Hi. by apply Hf. Qed.

Lemma world_ok w b s : inv s -> inv (with_world w b s) /\ stable s (with_world w b s).
Proof.
  intros [Hw Hr]. split; [split; [destruct Hw; by constructor|by apply (HJ s)]|].
  constructor; try done. split; [done|apply less_left_refl].
Qed.

Lemma safe_time_us : safe time_us.
Proof. intros s Hi. unfold goes, time_us. destruct (h_time_us _). by apply world_ok. Qed.

Lemma safe_set_counter k n : cal_counter k -> safe (set_counter k n).
Proof.
  intros Hk. apply safe_modify. intros s [Hw Hr]. split; [split; [destruct Hw; by constructor|by apply (HJ s)]|].
  constructor; try done.
  - intros k' Hk'. cbn. by rewrite decide_False by (by intros ->).
  - split; [done|apply less_left_refl].
Qed.

Lemma safe_add64 k n : cal_counter k -> safe (add64 k n).
Proof. intros Hk. apply safe_bind; [apply safe_gets|]. intros v. by apply safe_set_counter. Qed.

Lemma safe_add32 k n : cal_counter k -> safe (add32 k n).
Proof. intros Hk. apply safe_bind; [apply safe_gets|]. intros v. by apply safe_set_counter. Qed.

Lemma safe_update_time start : safe (update_calibration_time start).
Proof.
  apply safe_bind; [apply safe_time_us|]. intros t. apply safe_bind; [by apply safe_add64|].
  intros _. apply safe_ret.
Qed.

(** Another coverage state, with the variable bytes still seen. *)
Lemma cov_ok a s :
  inv s -> cov_wf a -> cov_map_size a = N -> cov_real_map_size a = cov_real_map_size (v_cov s) ->
  (forall id, id <> VirginBits -> virgin_of a id = virgin_of (v_cov s) id) ->
  length (virgin_bits a) = length (virgin_bits (v_cov s)) -> shrinks (virgin_bits (v_cov s)) (virgin_bits a) ->
  var_seen (v_var_bytes s) (virgin_bits a) ->
  inv (with_cov a s) /\ stable s (with_cov a s).
Proof.
  intros [Hw Hr] Ha Hn Hre Hv Hl Hs Hvs. split; [split; [destruct Hw; by constructor|by apply (HJ s)]|].
  by constructor.
Qed.

Lemma trace_ok t s :
  inv s -> bytes_ok t -> zlen t = N ->
  inv (with_cov (Coverage.set_trace t (v_cov s)) s) /\
  stable s (with_cov (Coverage.set_trace t (v_cov s)) s).
Proof.
  intros Hi Ht Hz. pose proof (sw_size _ _ (proj1 Hi)) as Hn. apply cov_ok; try done.
  - apply set_trace_wf; [apply Hi|done|congruence].
  - apply less_left_refl.
  - apply Hi.
Qed.

Lemma safe_run tm x : host_ok -> safe (run tm x).
Proof.
  intros Hh s Hi. unfold goes, run. destruct (h_run _ tm x) as [r w] eqn:E. destruct (Hh _ _ _ _ _ E) as [Hb Hz].
  destruct (world_ok w (stop_soon r) s Hi) as [Hi1 Hs1].
  destruct (trace_ok (trace r) _ Hi1 Hb Hz) as [Hi2 Hs2]. split; [done|exact (stable_trans _ _ _ Hs1 Hs2)].
Qed.

Lemma N_ok s : inv s -> 0 <= N < 2 ^ 32 /\ N mod 64 = 0.
Proof.
  intros [Hw _]. pose proof (wf_size _ (sw_cov _ _ Hw)). pose proof (wf_align _ (sw_cov _ _ Hw)).
  pose proof (sw_size _ _ Hw) as Hn. rewrite Hn in *. done.
Qed.

Lemma safe_classify : safe (classify (init_count_class16 t0)).
Proof.
  intros s Hi. pose proof (N_ok s Hi) as [HN Hmod]. pose proof (sw_size _ _ (proj1 Hi)) as Hn.
  destruct (CoverageFacts.wf_trace _ (sw_cov _ _ (proj1 Hi))) as [Hb Hz].
  unfold goes, classify, on_cov. rewrite classify_counts_run by (first [by right|lia|congruence|done]).
  cbn [mbind option_bind]. apply trace_ok; [done|apply map_class_bytes_ok|].
  unfold zlen in *. rewrite length_map. congruence.
Qed.

(** What [has_new_bits] does to the map, as a relation. *)
Lemma new_bits_run id s :
  inv s -> exists r a', has_new_bits 3 id (v_cov s) = Some (r, a') /\ cov_wf a' /\ 0 <= r <= 2 /\
    cov_map_size a' = N /\ cov_real_map_size a' = cov_real_map_size (v_cov s) /\
    Coverage.trace_bits a' = the_trace s /\
    (forall id', id' <> id -> virgin_of a' id' = virgin_of (v_cov s) id') /\
    (forall i x y, virgin_of (v_cov s) id !! i = Some x -> virgin_of a' id !! i = Some y -> Z.ldiff y x = 0) /\
    (r = 0 -> virgin_of a' id = virgin_of (v_cov s) id) /\
    (virgin_of a' id = virgin_of (v_cov s) id -> r = 0).
Proof.
  intros [Hw _]. pose proof (sw_cov _ _ Hw) as Hc. pose proof (sw_size _ _ Hw) as Hn.
  destruct (has_new_bits_spec 3 id (v_cov s) (or_intror eq_refl) Hc) as (_&r&a'&E&Hc'&Hr&_&H0&Hv&Ho&Ht&_).
  exists r, a'. pose proof E as E2. rewrite has_new_bits_run in E2 by (done || by right). injection E2 as _ E2.
  assert (cov_map_size a' = cov_map_size (v_cov s) /\ cov_real_map_size a' = cov_real_map_size (v_cov s)) as [Hm1 Hm2].
  { rewrite <- E2. by destruct (_ && _). }
  destruct (CoverageFacts.wf_trace _ Hc) as [Htb Htl].
  assert (forall i x, virgin_of (v_cov s) id !! i = Some x -> exists t, the_trace s !! i = Some t) as Htr.
  { intros i x Hx. apply lookup_lt_is_Some. apply lookup_lt_Some in Hx. destruct (wf_virgin _ Hc id) as [_ Hl].
    unfold zlen, the_trace in *. lia. }
  split_and!; try done; [apply Hr|apply Hr|congruence| | |].
  - intros i x y Hx Hy. destruct (Htr i x Hx) as [t Hti]. rewrite (Hv i t x Hti Hx) in Hy. injection Hy as <-.
    destruct (_ <? _)%nat; [|apply Z.ldiff_diag]. apply Z.bits_inj'. intros k Hk.
    rewrite !Z.ldiff_spec, Z.bits_0. destruct (Z.testbit x k); cbn; rewrite ?andb_false_r; done.
  - intros ->. apply list_eq. intros i. destruct (virgin_of (v_cov s) id !! i) as [x|] eqn:Hx.
    + destruct (Htr i x Hx) as [t Hti]. rewrite (Hv i t x Hti Hx). destruct (_ <? _)%nat eqn:El; [|done].
      apply Nat.ltb_lt in El. pose proof (proj1 H0 eq_refl i t x El Hti Hx) as Hz. f_equal.
      apply Z.bits_inj'. intros k Hk. assert (Z.testbit (Z.land t x) k = false) as B by (rewrite Hz; apply Z.bits_0).
      rewrite Z.ldiff_spec, Z.land_spec in *. destruct (Z.testbit t k), (Z.testbit x k); done.
    + apply lookup_ge_None in Hx. apply lookup_ge_None. destruct (wf_virgin _ Hc id) as [_ Hl1].
      destruct (wf_virgin _ Hc' id) as [_ Hl2]. unfold zlen in *. lia.
  - intros Hsame. apply H0. intros i t x Hi Hti Hx. pose proof (Hv i t x Hti Hx) as Hy.
    rewrite Hsame, Hx in Hy. rewrite (proj2 (Nat.ltb_lt _ _) Hi) in Hy. injection Hy as Hy.
    apply Z.bits_inj'. intros k Hk. rewrite Z.land_spec, Z.bits_0. rewrite Hy, Z.ldiff_spec.
    destruct (Z.testbit t k), (Z.testbit x k); done.
Qed.

Lemma virgin_length a : cov_wf a -> cov_map_size a = N -> forall id, Z.of_nat (length (virgin_of a id)) = N.
Proof. intros Ha Hn id. destruct (wf_virgin _ Ha id) as [_ Hl]. unfold zlen in Hl. lia. Qed.

Lemma seen_shrinks var v v' : length v' = length v -> shrinks v v' -> var_seen var v -> var_seen var v'.
Proof.
  intros Hl Hs Hv i x Hx Hne. pose proof (Hv i x Hx Hne) as H0.
  destruct (lookup_lt_is_Some_2 v' i) as [y Hy]; [rewrite Hl; by eapply lookup_lt_Some|].
  pose proof (Hs i 0 y H0 Hy) as E. by rewrite Hy, <- E, Z.ldiff_0_r.
Qed.

Lemma safe_new_bits s :
  inv s -> goes (new_bits VirginBits) s (fun r s' => 0 <= r <= 2 /\ inv s' /\ stable s s').
Proof.
  intros Hi. destruct (new_bits_run VirginBits s Hi) as (r&a'&E&Hc&Hr&Hn&Hre&Ht&Hv&Hs&_&_).
  unfold goes, new_bits, on_cov. rewrite E. split; [done|].
  assert (length (virgin_bits a') = length (virgin_bits (v_cov s))) as Hl.
  { pose proof (virgin_length a' Hc Hn VirginBits) as L1. cbn in L1.
    pose proof (virgin_length _ (sw_cov _ _ (proj1 Hi)) (sw_size _ _ (proj1 Hi)) VirginBits) as L2. cbn in L2. lia. }
  apply cov_ok; try done. eapply seen_shrinks; [exact Hl|exact Hs|apply Hi].
Qed.

(** The entry and its twin. *)
Lemma safe_queue_entry s :
  inv s -> goes (queue_entry_of q) s (fun e s' => q_len e = len /\ inv s' /\ stable s s').
Proof.
  intros Hi. destruct (HJq s (proj2 Hi)) as (e&He&Hl). unfold goes, queue_entry_of, mbind, stage_bind, gets, within.
  rewrite He. split_and!; [done|done|apply stable_refl].
Qed.

Lemma cal_lookup s : inv s -> exists e, v_cal s !! q = Some e.
Proof.
  intros [Hw Hj]. destruct (HJq s Hj) as (e&He&_). apply lookup_lt_is_Some. rewrite (sw_cal _ _ Hw). by eapply lookup_lt_Some.
Qed.

Lemma safe_cal_of : safe (cal_of q).
Proof.
  intros s Hi. destruct (cal_lookup s Hi) as [e He]. unfold goes, cal_of, mbind, stage_bind, gets, within.
  rewrite He. split; [done|apply stable_refl].
Qed.

Lemma safe_set_cal f : (forall k, stats (f k) = stats k) -> safe (set_cal q f).
Proof.
  intros Hf. apply safe_modify. intros s [Hw Hr]. split; [split|].
  - destruct Hw. constructor; try done. cbn. by rewrite length_alter.
  - apply (HJ s); [done| |exact Hr]. unfold stats_of. cbn. rewrite list_lookup_alter_eq.
    destruct (v_cal s !! q); [|done]. cbn. by rewrite Hf.
  - constructor; try done. split; [done|apply less_left_refl].
Qed.

Lemma safe_first_trace : safe (modify (fun s => with_traces (the_trace s) (v_var_bytes s) s)).
Proof.
  apply safe_modify. intros s [Hw Hr]. destruct (CoverageFacts.wf_trace _ (sw_cov _ _ Hw)) as [_ Hz].
  pose proof (sw_size _ _ Hw) as Hn. split; [split; [|by apply (HJ s)]|].
  - destruct Hw. constructor; try done. cbn. unfold the_trace. congruence.
  - constructor; try done. split; [done|apply less_left_refl].
Qed.

Lemma mark_var_ok i s :
  inv s -> 0 <= i < N -> goes (mark_var i) s (fun _ s' => inv s' /\ stable s s').
Proof.
  intros Hi Hr. pose proof (proj1 Hi) as Hw. destruct (sw_var _ _ Hw) as [Hvz Hvb].
  pose proof (sw_first _ _ Hw) as Hfz. pose proof (sw_size _ _ Hw) as Hn. pose proof (sw_cov _ _ Hw) as Hc.
  destruct (CoverageFacts.wf_trace _ Hc) as [_ Htz]. destruct (wf_virgin _ Hc VirginBits) as [Hbb Hbz]. cbn in Hbb, Hbz.
  unfold mark_var. apply goes_bind. unfold goes at 1, gets, id.
  destruct (get_Some (v_var_bytes s) i) as [v Hv]; [lia|]. rewrite Hv. apply goes_bind, goes_within.
  destruct (v =? 0) eqn:E0; b2p; [|apply goes_ret; split; [done|apply stable_refl]].
  destruct (get_Some (v_first_trace s) i) as [f ->]; [lia|]. apply goes_bind, goes_within.
  destruct (get_Some (the_trace s) i) as [t ->]; [unfold the_trace; lia|]. apply goes_bind, goes_within.
  destruct (f =? t); [apply goes_ret; split; [done|apply stable_refl]|].
  rewrite (put_Some (v_var_bytes s)) by lia. apply goes_bind, goes_within.
  rewrite (put_Some (virgin_bits _)) by lia. apply goes_bind, goes_within. apply goes_bind.
  unfold goes, modify. subst v. apply get_inv in Hv as [_ Hv].
  set (vb := <[Z.to_nat i := 0]> (virgin_bits (v_cov s))).
  assert (shrinks (virgin_bits (v_cov s)) vb) as Hs.
  { intros j x y Hx Hy. unfold vb in Hy. destruct (decide (j = Z.to_nat i)) as [->|Hj].
    - rewrite list_lookup_insert_eq in Hy by (by eapply lookup_lt_Some). injection Hy as <-. done.
    - rewrite list_lookup_insert_ne in Hy by done. rewrite Hx in Hy. injection Hy as ->. apply Z.ldiff_diag. }
  assert (var_seen (<[Z.to_nat i := 1]> (v_var_bytes s)) vb) as Hvs.
  { intros j x Hx Hne. unfold vb. destruct (decide (j = Z.to_nat i)) as [->|Hj].
    - rewrite list_lookup_insert_eq; [done|]. unfold zlen in *. lia.
    - rewrite list_lookup_insert_ne in Hx |- * by done. by apply (sw_seen _ _ Hw j x). }
  split; [split; [|by apply (HJ s); [..|apply Hi]]|].
  - destruct Hw. constructor; try done; cbn.
    + apply set_virgin_wf; [done|apply Forall_insert; [done|unfold in_width; lia]|]. unfold vb. by rewrite zlen_insert.
    + split; [by rewrite zlen_insert|]. apply Forall_insert; [done|unfold in_width; lia].
  - constructor; try done; cbn.
    + intros id Hid. by destruct id.
    + split; [|done]. change (length vb = length (virgin_bits (v_cov s))). apply length_insert.
    + intros j x Hx Hne. destruct (decide (j = Z.to_nat i)) as [->|]; [congruence|].
      by rewrite list_lookup_insert_ne.
Qed.

Lemma safe_bytes_set (f : save_st W -> list Z) :
  (forall s, inv s -> bytes_ok (f s) /\ zlen (f s) = N) ->
  safe (l ← gets f; bytes_set l).
Proof.
  intros Hf s Hi. destruct (Hf s Hi) as [Hb Hz]. apply goes_bind. unfold goes at 1, gets.
  unfold bytes_set. apply goes_bind. unfold goes at 1, gets.
  pose proof (N_ok s Hi) as [HN Hmod]. pose proof (wf_real _ (sw_cov _ _ (proj1 Hi))) as Hre.
  rewrite (sw_size _ _ (proj1 Hi)) in Hre. pose proof (count_words_bound (cov_real_map_size (v_cov s))) as Hb2.
  unfold count_bytes. rewrite (count_loop_spec _ (fun b => b2z (z2b b))).
  - apply goes_within. split; [done|apply stable_refl].
  - apply count_bytes_step_spec.
  - assert (Z.of_nat (count_words (cov_real_map_size (v_cov s)) * 4) <= N); [|unfold zlen in Hz; lia].
    destruct Hb2 as [_ Hb2]; [dlia|]. assert (exists k, N = 4 * k) as [k Hk] by (exists (N / 4); dlia). lia.
  - done.
  - split; lia.
Qed.

Lemma safe_trace_count : safe (l ← gets the_trace; bytes_set l).
Proof.
  apply safe_bytes_set. intros s Hi. destruct (CoverageFacts.wf_trace _ (sw_cov _ _ (proj1 Hi))) as [Hb Hz].
  by rewrite (sw_size _ _ (proj1 Hi)) in Hz.
Qed.

Lemma safe_var_count : safe (l ← gets v_var_bytes; bytes_set l).
Proof. apply safe_bytes_set. intros s Hi. destruct (sw_var _ _ (proj1 Hi)). done. Qed.

(** Where a bind is nested to the right. *)
Lemma safe_assoc {A B D} (m : stage (save_st W) A) (f : A -> stage (save_st W) B) (k : B -> stage (save_st W) D) :
  safe (m ≫= f) -> (forall b, safe (k b)) -> safe (m ≫= (fun a => f a ≫= k)).
Proof.
  intros Hm Hk s Hi. pose proof (safe_bind _ _ Hm Hk s Hi) as Hg. unfold goes in *.
  by rewrite bind_assoc in Hg.
Qed.

Lemma safe_judge fault cur : safe (judge c fault cur).
Proof.
  apply safe_bind; [apply safe_gets|]. intros stop. destruct (_ || _); [apply safe_ret|].
  apply safe_bind; [apply safe_gets|]. intros i. destruct (_ && _); [|apply safe_ret].
  apply safe_assoc; [apply safe_trace_count|]. intros n. apply safe_ret.
Qed.

Lemma compare_trace_ok v s :
  inv s -> 0 < cv_max v <= 12 -> goes (compare_trace c hash64 (init_count_class16 t0) q v) s
    (fun v' s' => 0 < cv_max v' <= 12 /\ inv s' /\ stable s s').
Proof.
  intros Hi Hv. unfold compare_trace. apply goes_bind. eapply goes_mono; [by apply safe_classify|].
  intros _ s1 [Hi1 Hs1]. apply goes_bind. unfold goes at 1, cksum64, gets.
  apply goes_bind. eapply goes_mono; [by apply safe_cal_of|]. intros e s2 [Hi2 Hs2].
  pose proof (stable_trans _ _ _ Hs1 Hs2) as Hs.
  destruct (_ =? _); [by apply goes_ret|]. apply goes_bind. eapply goes_mono; [by apply safe_new_bits|].
  intros hnb s3 (_&Hi3&Hs3). pose proof (stable_trans _ _ _ Hs Hs3) as Hs'.
  destruct (negb _).
  - apply goes_bind. unfold goes at 1, gets. apply goes_bind. rewrite (sw_size _ _ (proj1 Hi3)).
    eapply goes_mono; [apply (goes_each _ _ _ (fun s' => inv s' /\ stable s s')); [done|]|].
    + intros i s4 Hin [Hi4 Hs4]. apply elem_of_seqZ in Hin. eapply goes_mono; [apply mark_var_ok; [done|lia]|].
      intros _ s5 [Hi5 Hs5]. split; [done|exact (stable_trans _ _ _ Hs4 Hs5)].
    + intros _ s4 [Hi4 Hs4]. apply goes_ret. cbn. destruct (cal_fast c); unfold CAL_CYCLES, CAL_CYCLES_LONG; (split; [lia|done]).
  - apply goes_bind. eapply goes_mono; [by apply (safe_set_cal (set_cksum _))|]. intros _ s4 [Hi4 Hs4].
    apply goes_bind. eapply goes_mono; [by apply safe_first_trace|]. intros _ s5 [Hi5 Hs5]. apply goes_ret.
    split; [done|]. split; [done|]. exact (stable_trans _ _ _ Hs' (stable_trans _ _ _ Hs4 Hs5)).
Qed.

Section Runs.
Context (mem : list Z) (Hlen : 0 <= len <= zlen mem) (Hmax : 0 <= max_length c) (Hhost : host_ok).

Lemma safe_write : safe (write c mem len true).
Proof.
  intros s Hi. unfold goes, write, write_to_testcase. rewrite andb_false_r.
  destruct (len >? max_length c) eqn:E; rewrite load_Some by lia; (split; [done|apply stable_refl]).
Qed.

(** A run of the entry, with [k] after it. *)
Lemma goes_entry_run {B} tm (k : fsrv_run_result -> stage (save_st W) B) s (Q : B -> save_st W -> Prop) :
  inv s -> (forall f s', inv s' -> stable s s' -> goes (k f) s' Q) ->
  goes (e ← queue_entry_of q; x ← write c mem (q_len e) true; f ← run tm x; k f) s Q.
Proof.
  intros Hi Hk. apply goes_bind. eapply goes_mono; [by apply safe_queue_entry|]. intros e s1 (->&Hi1&Hs1).
  apply goes_bind. eapply goes_mono; [by apply safe_write|]. intros x s2 [Hi2 Hs2].
  apply goes_bind. eapply goes_mono; [by apply safe_run|]. intros f s3 [Hi3 Hs3].
  apply Hk; [done|]. exact (stable_trans _ _ _ Hs1 (stable_trans _ _ _ Hs2 Hs3)).
Qed.

Lemma cal_loop_ok n tm cur v s :
  inv s -> 0 < cv_max v <= 12 -> 0 <= cur <= 12 -> 12 - cur < Z.of_nat n ->
  goes (cal_loop c hash64 (init_count_class16 t0) n q mem tm cur v) s
    (fun r s' => 0 < cv_max r.2 <= 12 /\ inv s' /\ stable s s').
Proof.
  revert cur v s. induction n as [|n IH]; intros cur v s Hi Hv Hc Hn; [lia|].
  cbn [cal_loop]. destruct (cur <? cv_max v) eqn:E; b2p; [|apply goes_ret; split; [done|]; split; [done|apply stable_refl]].
  apply goes_entry_run; [done|]. intros f s1 Hi1 Hs1. apply goes_bind.
  eapply goes_mono; [by apply safe_update_time|]. intros start s2 [Hi2 Hs2].
  apply goes_bind. eapply goes_mono; [by apply safe_judge|]. intros j s3 [Hi3 Hs3].
  pose proof (stable_trans _ _ _ Hs1 (stable_trans _ _ _ Hs2 Hs3)) as Hs.
  destruct j as [f'|]; [by apply goes_ret|]. apply goes_bind. eapply goes_mono; [by apply compare_trace_ok|].
  intros v' s4 (Hv'&Hi4&Hs4). eapply goes_mono; [apply IH; [done|done|lia|lia]|].
  intros r s5 (?&?&Hs5). split; [done|]. split; [done|].
  exact (stable_trans _ _ _ Hs (stable_trans _ _ _ Hs4 Hs5)).
Qed.

Lemma safe_dummy tm : safe (dummy_run c q mem tm).
Proof.
  intros s Hi. apply goes_entry_run; [done|]. intros f s1 Hi1 Hs1. eapply goes_mono; [by apply safe_judge|].
  intros j s2 [? Hs2]. split; [done|]. exact (stable_trans _ _ _ Hs1 Hs2).
Qed.
End Runs.

Lemma safe_cal_end v f : safe (cal_end q v f).
Proof.
  apply safe_bind; [apply safe_cal_of|]. intros e. apply safe_bind.
  { apply safe_if; [|apply safe_ret]. apply safe_bind; [by apply (safe_set_cal set_new_cov)|].
    intros _. by apply safe_add32. }
  intros _. apply safe_bind.
  { apply safe_if; [|apply safe_ret]. apply safe_assoc; [apply safe_var_count|]. intros n.
    apply safe_bind; [by apply safe_set_counter|]. intros _. apply safe_if; [by apply safe_add32|apply safe_ret]. }
  intros _. apply safe_bind; [apply safe_update_time|]. intros _. apply safe_ret.
Qed.
End Steps.

(** ** The scores *)

Lemma wf_alter tr st q f :
  wf tr st ->
  (forall e, queue_buf st !! q = Some e -> q_tc_ref (f e) = q_tc_ref e /\ q_trace_mini (f e) = q_trace_mini e /\
     0 <= q_n_fuzz_entry (f e) < zlen (n_fuzz st)) ->
  wf tr (with_queue (alter f q (queue_buf st)) st).
Proof.
  intros [H1 H2 H3 H4 H5 H6 H7 H8 H9] Hf.
  assert (forall w e, alter f q (queue_buf st) !! w = Some e -> exists e0, queue_buf st !! w = Some e0 /\
    q_tc_ref e = q_tc_ref e0 /\ q_trace_mini e = q_trace_mini e0 /\ 0 <= q_n_fuzz_entry e < zlen (n_fuzz st)) as Hl.
  { intros w e. rewrite list_lookup_alter. case_decide as E.
    - subst w. intros (e0&He0&->)%fmap_Some. exists e0. split; [done|]. by apply Hf.
    - intros He. exists e. destruct (H6 w e He). done. }
  split; cbn; try done.
  - rewrite H1. unfold zlen. by rewrite length_alter.
  - intros w e He. destruct (Hl w e He) as (e0&?&?&?&?). done.
  - intros w e He. destruct (Hl w e He) as (e0&He0&->&_). by apply H7.
  - intros i w Hi Hw. rewrite length_alter. by apply H8.
  - intros w e t He Ht. destruct (Hl w e He) as (e0&He0&_&Hm&_). apply (H9 w e0); congruence.
Qed.

(** The traces, with that of [q] replaced. *)
Definition trace_at (q : nat) (t : list Z) (tr : nat -> list Z) (w : nat) : list Z :=
  if decide (w = q) then t else tr w.

Lemma wf_retrace tr st q t e :
  wf tr st -> queue_buf st !! q = Some e -> q_tc_ref e = 0 -> Queue.map_size st <= zlen t ->
  wf (trace_at q t tr) (with_trace t st).
Proof.
  intros [H1 H2 H3 H4 H5 H6 H7 H8 H9] He Hr Ht.
  assert (refs (top_rated st) q = 0) as H0 by (by rewrite <- (H7 q e)).
  split; cbn; try done.
  - intros i w Hi Hw. destruct (H8 i w Hi Hw) as [? ?]. split; [done|]. unfold trace_at.
    rewrite decide_False; [done|]. intros ->. apply refs_pos in Hw. lia.
  - intros w x m Hx Hm. unfold trace_at. destruct (H9 w x m Hx Hm) as [Hp Hmi]. rewrite decide_False; [done|].
    intros ->. lia.
Qed.

(** Every byte that is hit has a winner. *)
Definition has_winners (t : list Z) (a : afl) : Prop := forall i, 0 <= i < N -> hits t i ->
  exists w, top_rated a !! Z.to_nat i = Some (Some w).

Lemma score_ok q tr s e :
  save_wf tr s -> queue_buf (the_afl s) !! q = Some e -> q_tc_ref e = 0 ->
  goes (score q) s (fun _ s' => exists a, s' = put_afl a s /\ stable s s' /\
    save_wf (trace_at q (the_trace s) tr) s' /\ static <$> queue_buf a = static <$> queue_buf (the_afl s) /\
    has_winners (the_trace s) a).
Proof.
  intros Hw He Hr. destruct (CoverageFacts.wf_trace _ (sw_cov _ _ Hw)) as [_ Hz].
  pose proof (sw_size _ _ Hw) as Hn. pose proof (sw_afl_size _ _ Hw) as Hm.
  assert (wf (trace_at q (the_trace s) tr) (with_trace (the_trace s) (the_afl s))) as Hwf.
  { eapply wf_retrace; [apply Hw|exact He|done|]. unfold the_trace. lia. }
  destruct (update_bitmap_score_run _ _ q e Hwf) as (a&Ha&Hwf'&Hfr&Hslot&_); [done| |].
  { intros j Hj. unfold trace_at. rewrite decide_True by done. done. }
  unfold goes, score. rewrite Ha. exists a. destruct Hfr as [F1 F2 F3 F4 F5 F6 F7 F8 F9 F10]. cbn in *.
  assert (q_len <$> queue_buf a = q_len <$> queue_buf (the_afl s)) as Hlens.
  { assert (forall l : list queue_entry, q_len <$> l = q_len <$> (static <$> l)) as Hst.
    { intros l. by rewrite <- list_fmap_compose. }
    by rewrite (Hst (queue_buf a)), F1, <- Hst. }
  split; [done|]. split_and!.
  - constructor; try done; [destruct F10; by split_and!|split; [done|apply less_left_refl]].
  - destruct Hw. constructor; try done; cbn; try congruence.
    rewrite sw_cal0. apply (f_equal length) in Hlens. by rewrite !length_fmap in Hlens.
  - done.
  - intros i Hi Hh. destruct (zlen_lookup (top_rated (the_afl s)) i) as [o Ho].
    { destruct (sw_queue _ _ Hw) as [_ _ Ht _ _ _ _ _ _]. lia. }
    destruct (Hslot i o) as [_ H2]; [lia|done|]. rewrite H2; [|by unfold trace_at; rewrite decide_True].
    unfold new_slot. destruct o as [w|]; [|by exists q]. destruct (wins _ _ _); [by exists q|by exists w].
Qed.

(** ** The whole of calibration *)

(** Before the scores: the entry holds no slot, the table is [top]. *)
Definition pending q len top st s : Prop :=
  (exists e, queue_buf (the_afl s) !! q = Some e /\ q_len e = len /\ q_tc_ref e = 0) /\
  top_rated (the_afl s) = top /\ stats_of q s = Some st.

(** After them. *)
Definition settled q len a st s : Prop :=
  (exists e, queue_buf (the_afl s) !! q = Some e /\ q_len e = len /\ 1 <= q_exec_us e) /\
  the_afl s = a /\ stats_of q s = Some st.

Section Phases.
Context (q : nat) (len : Z).

Lemma pending_ext top st s s' :
  v_corpus s' = v_corpus s -> stats_of q s' = stats_of q s -> pending q len top st s -> pending q len top st s'.
Proof. unfold pending, the_afl. by intros -> ->. Qed.

Lemma settled_ext a st s s' :
  v_corpus s' = v_corpus s -> stats_of q s' = stats_of q s -> settled q len a st s -> settled q len a st s'.
Proof. unfold settled, the_afl. by intros -> ->. Qed.

Lemma pending_entry top st s :
  pending q len top st s -> exists e, queue_buf (the_afl s) !! q = Some e /\ q_len e = len.
Proof. intros ((e&?&?&_)&_). by exists e. Qed.

Lemma settled_entry a st s :
  settled q len a st s -> exists e, queue_buf (the_afl s) !! q = Some e /\ q_len e = len.
Proof. intros ((e&?&?&_)&_). by exists e. Qed.
End Phases.

Lemma goes_value {A} (m : stage (save_st W) A) s (P : A -> Prop) (Q : A -> save_st W -> Prop) :
  (forall a s', m s = Next a s' -> P a) -> goes m s Q -> goes m s (fun a s' => P a /\ Q a s').
Proof. unfold goes. destruct (m s); try done. intros HP HQ. split; [by eapply HP|done]. Qed.

Lemma bind_value {A B} (m : stage (save_st W) A) (k : A -> stage (save_st W) B) s b s' :
  (m ≫= k) s = Next b s' -> exists a s1, m s = Next a s1 /\ k a s1 = Next b s'.
Proof. unfold mbind, stage_bind. destruct (m s) as [a s1| | | | | |]; try done. intros E. by exists a, s1. Qed.

Lemma cal_end_value q v f s f' s' : cal_end q v f s = Next f' s' -> f' = f.
Proof.
  intros E. do 4 (apply bind_value in E as (?&?&_&E)). by injection E.
Qed.

Lemma count_value s :
  cov_wf (v_cov s) -> exists n, count_bytes (cov_real_map_size (v_cov s)) (the_trace s) = Some n.
Proof.
  intros Hc. destruct (CoverageFacts.wf_trace _ Hc) as [Hb Hz]. pose proof (wf_real _ Hc). pose proof (wf_align _ Hc).
  pose proof (wf_size _ Hc) as [? ?]. unfold count_bytes. eexists. apply (count_loop_spec _ (fun b => b2z (z2b b)));
    [apply count_bytes_step_spec| |done|split; lia].
  destruct (count_words_bound (cov_real_map_size (v_cov s))) as [_ Hw]; [dlia|].
  assert (exists k, cov_map_size (v_cov s) = 4 * k) as [k Hk] by (exists (cov_map_size (v_cov s) / 4); dlia).
  unfold zlen, the_trace in *. lia.
Qed.

Definition add_counter (k : counter) (n : Z) s : save_st W :=
  with_count (fun k' => if decide (k' = k) then n else v_count s k') s.

Lemma goes_add64 k n s (Q : unit -> save_st W -> Prop) :
  Q tt (add_counter k (u64 (v_count s k + n)) s) -> goes (add64 k n) s Q.
Proof. done. Qed.

(** The end of the statistics: [e] is the entry with its new time. *)
Lemma stats_score_ok q len tr hc bs e s :
  save_wf tr s -> queue_buf (the_afl s) !! q = Some e -> q_len e = len -> q_tc_ref e = 0 -> 1 <= q_exec_us e ->
  goes (set_cal q (set_stats bs hc);; add64 total_bitmap_size bs;; add64 total_bitmap_entries 1;; score q) s
    (fun _ s' => stable s s' /\ the_trace s' = the_trace s /\ save_wf (trace_at q (the_trace s) tr) s' /\
      exists a, settled q len a (bs, hc, 0) s' /\ has_winners (the_trace s) a).
Proof.
  intros Hw He Hl Hr Hx. apply goes_bind. unfold goes at 1, set_cal, modify. set (s1 := with_cal _ s).
  apply goes_bind, goes_add64. set (s2 := add_counter _ _ s1).
  apply goes_bind, goes_add64. set (s3 := add_counter _ _ s2).
  assert (save_wf tr s3) as Hw3.
  { subst s3 s2 s1. destruct Hw. constructor; try done. cbn. by rewrite length_alter. }
  assert (stable s s3) as Hs3.
  { constructor; try done; [|split; [done|apply less_left_refl]]. intros k Hk. subst s3 s2 s1. cbn.
    rewrite !decide_False; [done|by intros ->..]. }
  eapply goes_mono; [by apply (score_ok q tr s3 e)|]. intros ? s4 (a&->&Hs4&Hw4&Hq&Hwin).
  split; [exact (stable_trans _ _ _ Hs3 Hs4)|]. split; [done|]. split; [done|]. exists a. split; [|done].
  apply (f_equal (.!! q)) in Hq. rewrite !list_lookup_fmap in Hq. change (queue_buf (the_afl s3)) with (queue_buf (the_afl s)) in Hq.
  rewrite He in Hq. apply fmap_Some in Hq as (e'&He'&Hst). split_and!.
  - exists e'. change (the_afl (put_afl a s3)) with a. split; [done|].
    assert (q_len (static e) = q_len (static e') /\ q_exec_us (static e) = q_exec_us (static e')) as [H1 H2] by (by rewrite Hst).
    cbn in H1, H2. lia.
  - done.
  - unfold stats_of. subst s3 s2 s1. cbn. rewrite list_lookup_alter_eq.
    destruct (lookup_lt_is_Some_2 (v_cal s) q) as [k ->]; [|done].
    rewrite (sw_cal _ _ Hw). by eapply lookup_lt_Some.
Qed.

Lemma exec_us_ok q len tr top st n s :
  save_wf tr s -> pending q len top st s -> 1 <= n ->
  exists e, let s' := put_afl (with_queue (alter (set_exec_us n) q (queue_buf (the_afl s))) (the_afl s)) s in
    save_wf tr s' /\ stable s s' /\ queue_buf (the_afl s') !! q = Some e /\ q_len e = len /\ q_tc_ref e = 0 /\
    1 <= q_exec_us e.
Proof.
  intros Hw ((e&He&Hl&Hr)&_) Hn. exists (set_exec_us n e). cbn.
  assert (q_len <$> alter (set_exec_us n) q (queue_buf (the_afl s)) = q_len <$> queue_buf (the_afl s)) as Hlens.
  { apply list_eq. intros i. rewrite !list_lookup_fmap, list_lookup_alter. case_decide as E; [|done]. subst i.
    by destruct (queue_buf (the_afl s) !! q). }
  split_and!; try done.
  - pose proof (wf_nfuzz _ _ _ (sw_queue _ _ Hw)) as Hnf. destruct Hw. constructor; try done; cbn.
    + apply wf_alter; [done|]. intros e' He'. split_and!; [done|done|by eapply (Hnf q e')|by eapply (Hnf q e')].
    + by rewrite length_alter.
    + by rewrite Hlens.
  - constructor; try done. split; [done|apply less_left_refl].
  - cbn. by rewrite list_lookup_alter_eq, He.
Qed.

(** The result of the statistics; [t] is the trace that was scored. *)
Lemma cal_stats_ok q len tr top st hc start v s :
  save_wf tr s -> pending q len top st s -> 0 < cv_max v ->
  goes (cal_stats c q hc start v) s (fun _ s' => stable s s' /\
    exists a bs, save_wf (trace_at q (the_trace s') tr) s' /\ settled q len a (bs, hc, 0) s' /\
      has_winners (the_trace s') a /\ count_bytes (cov_real_map_size (v_cov s')) (the_trace s') = Some bs).
Proof.
  intros Hw Hp Hv. unfold cal_stats. apply goes_bind. unfold goes at 1, gets. apply goes_bind.
  eapply (goes_mono _ _ (fun d s' => 0 <= d /\ inv tr (pending q len top st) s' /\ stable s s')).
  { destruct (fixed_seed _).
    - apply goes_ret. split; [apply wrap_range; lia|]. split; [done|apply stable_refl].
    - apply goes_bind. eapply goes_mono; [apply (safe_time_us q tr (pending q len top st) (pending_ext q len top st)); done|].
      intros t s1 [Hi1 Hs1]. apply goes_ret. split; [|done]. pose proof (wrap_range 64 (t - start)) as [? _]; [lia|].
      destruct (_ =? 0); lia. }
  intros d s1 (Hd&Hi1&Hs1).
  apply goes_bind. eapply goes_mono; [by apply (safe_add64 q tr _ (pending_ext q len top st) total_cal_us d)|]. intros ? s2 [Hi2 Hs2].
  apply goes_bind. eapply goes_mono; [by apply (safe_add64 q tr _ (pending_ext q len top st) total_cal_cycles (cv_max v))|]. intros ? s3 [Hi3 Hs3].
  pose proof (stable_trans _ _ _ Hs1 (stable_trans _ _ _ Hs2 Hs3)) as Hs.
  rewrite (proj2 (Z.eqb_neq _ _)) by lia. apply goes_bind. unfold goes at 1, set_queue_entry, modify.
  set (n := if _ =? 0 then _ else _).
  assert (1 <= n). { pose proof (Z.div_pos d (cv_max v)). subst n. destruct (_ =? 0) eqn:E; b2p; lia. }
  destruct (exec_us_ok q len tr top st n s3 (proj1 Hi3) (proj2 Hi3)) as (e&Hw4&Hs4&He4&Hl4&Hr4&Hx4); [done|].
  set (s4 := put_afl _ s3) in *. apply goes_bind. unfold goes at 1, gets.
  destruct (count_value s4 (sw_cov _ _ Hw4)) as [bs Hbs].
  apply goes_bind. unfold bytes_set. apply goes_bind. unfold goes at 1, gets. rewrite Hbs. apply goes_within.
  eapply goes_mono; [by apply (stats_score_ok q len tr hc bs e s4)|].
  intros ? s5 (Hs5&Ht5&Hw5&af&Hset&Hwin). pose proof (stable_trans _ _ _ Hs (stable_trans _ _ _ Hs4 Hs5)) as Hst.
  split; [done|]. exists af, bs. rewrite Ht5, (st_real _ _ Hs5). done.
Qed.

(** What calibration of entry [q] leads to: either it was aborted, and then the entry has one
    more failure and no slot has changed, or it was completed, and then the entry has its
    statistics and its last trace was scored. *)
Definition cal_outcome q len tr hc s (f : fsrv_run_result) s' : Prop :=
  stable s s' /\ exists tr', (forall w, w <> q -> tr' w = tr w) /\ save_wf tr' s' /\
  ((exists bs h n, stats_of q s = Some (bs, h, n) /\ pending q len (top_rated (the_afl s)) (bs, h, u8 (n + 1)) s') \/
   ((f = crash_mode c \/ f = FSRV_RUN_NOBITS) /\ exists a bs, settled q len a (bs, hc, 0) s' /\
    has_winners (tr' q) a /\ count_bytes (cov_real_map_size (v_cov s')) (tr' q) = Some bs)).

Section Calibrate.
Context (q : nat) (len : Z) (mem : list Z) (hc : Z) (tr : nat -> list Z).
Context (Hlen : 0 <= len <= zlen mem) (Hmax : 0 <= max_length c) (Hhost : host_ok).

Lemma failed_ok top bs h n s :
  save_wf tr s -> pending q len top (bs, h, n) s ->
  goes (set_cal q (set_failed (u8 (n + 1)))) s (fun _ s' =>
    inv tr (pending q len top (bs, h, u8 (n + 1))) s' /\ stable s s').
Proof.
  intros Hw (He&Ht&Hs). unfold goes, set_cal, modify. split; [split|].
  - destruct Hw. constructor; try done. cbn. by rewrite length_alter.
  - split; [done|]. split; [done|]. unfold stats_of in *. cbn. rewrite list_lookup_alter_eq.
    destruct (v_cal s !! q) as [k|]; [|done]. cbn in Hs |- *. injection Hs as <- <- _. done.
  - constructor; try done. split; [done|apply less_left_refl].
Qed.

(** Calibration once the failure is counted, from [s0] on. *)
Lemma after_failed_ok bs h n top v0 tm first s0 s :
  stats_of q s0 = Some (bs, h, n) -> top_rated (the_afl s0) = top -> stable s0 s ->
  0 < cv_max v0 <= 12 ->
  inv tr (pending q len top (bs, h, u8 (n + 1))) s ->
  goes (d ← (if cmplog_mode c then dummy_run c q mem tm else mret None);
        match d with
        | Some f => cal_end q v0 f
        | None =>
            e ← cal_of q;
            nb ← (if negb (k_exec_cksum e =? 0) then
                    modify (fun s => with_traces (the_trace s) (v_var_bytes s) s);;
                    new_bits VirginBits
                  else mret 0);
            start ← time_us;
            '(ab, v) ← cal_loop c hash64 (init_count_class16 t0) 13 q mem tm 0
                         (CalVars (cv_max v0) nb false (cv_start v0));
            match ab with
            | Some f => cal_end q v f
            | None =>
                cal_stats c q hc start v;;
                i ← instrumented;
                cal_end q v
                  (if (i : bool) && first && bool_decide (crash_mode c = FSRV_RUN_OK) && (cv_new v =? 0)
                   then FSRV_RUN_NOBITS else crash_mode c)
            end
        end) s (cal_outcome q len tr hc s0).
Proof.
  intros Hst Htop Hs0 Hv0 Hi. set (J := pending q len top (bs, h, u8 (n + 1))) in *.
  pose proof (pending_ext q len top (bs, h, u8 (n + 1)) : forall s s', _ -> _ -> J s -> J s') as HJ.
  pose proof (pending_entry q len top (bs, h, u8 (n + 1)) : forall s, J s -> _) as HJq.
  assert (forall v f s1, inv tr J s1 -> stable s0 s1 -> goes (cal_end q v f) s1 (cal_outcome q len tr hc s0)) as Habort.
  { intros v f s1 Hi1 Hs1. eapply goes_mono; [by apply (safe_cal_end q len tr J HJ HJq)|].
    intros f' s2 [Hi2 Hs2]. split; [exact (stable_trans _ _ _ Hs1 Hs2)|]. exists tr. split; [done|].
    split; [apply Hi2|]. left. exists bs, h, n. split; [done|]. rewrite Htop. apply Hi2. }
  apply goes_bind. eapply (goes_mono _ _ (fun _ s' => inv tr J s' /\ stable s s')).
  { destruct (cmplog_mode c); [by apply (safe_dummy q len tr J HJ HJq)|by apply safe_ret]. }
  intros d s1 [Hi1 Hs1]. pose proof (stable_trans _ _ _ Hs0 Hs1) as Hs01. destruct d as [f|]; [by apply Habort|].
  apply goes_bind. eapply goes_mono; [by apply (safe_cal_of q len tr J HJq)|]. intros e s2 [Hi2 Hs2].
  apply goes_bind. eapply (goes_mono _ _ (fun _ s' => inv tr J s' /\ stable s2 s')).
  { destruct (negb _); [|by apply safe_ret]. apply goes_bind.
    eapply goes_mono; [by apply (safe_first_trace q tr J HJ)|]. intros ? s3 [Hi3 Hs3].
    eapply goes_mono; [by apply (safe_new_bits q tr J HJ)|]. intros r s4 (_&Hi4&Hs4).
    split; [done|exact (stable_trans _ _ _ Hs3 Hs4)]. }
  intros nb s3 [Hi3 Hs3]. apply goes_bind. eapply goes_mono; [by apply (safe_time_us q tr J HJ)|].
  intros start s4 [Hi4 Hs4]. apply goes_bind.
  eapply goes_mono; [by apply (cal_loop_ok q len tr J HJ HJq mem Hlen Hmax Hhost)|].
  intros [ab v] s5 (Hv&Hi5&Hs5). cbn [snd] in Hv.
  pose proof (stable_trans _ _ _ Hs01 (stable_trans _ _ _ Hs2 (stable_trans _ _ _ Hs3 (stable_trans _ _ _ Hs4 Hs5)))) as Hs.
  destruct ab as [f|]; [by apply Habort|]. apply goes_bind.
  eapply goes_mono; [eapply cal_stats_ok; [apply Hi5|apply Hi5|apply Hv]|].
  intros ? s6 (Hs6&a&bs'&Hw6&Hset&Hwin&Hbs). apply goes_bind. unfold goes at 1, instrumented, gets.
  set (f := if _ && _ then _ else _).
  assert (f = crash_mode c \/ f = FSRV_RUN_NOBITS) as Hf by (subst f; destruct (_ && _); [by right|by left]).
  set (t := the_trace s6) in *. eapply goes_mono.
  { eapply (goes_value _ _ (fun f' => f' = f)); [intros f' s'; apply cal_end_value|].
    apply (safe_cal_end q len (trace_at q t tr) (settled q len a (bs', hc, 0)) (settled_ext q len a _) (settled_entry q len a _)).
    by split. }
  intros f' s7 [-> [[Hw7 Hset7] Hs7]].
  split; [exact (stable_trans _ _ _ Hs (stable_trans _ _ _ Hs6 Hs7))|]. exists (trace_at q t tr).
  split; [intros w Hne; unfold trace_at; by rewrite decide_False|]. split; [done|]. right. split; [done|].
  exists a, bs'. unfold trace_at. rewrite decide_True, (st_real _ _ Hs7) by done. done.
Qed.

Lemma calibrate_ok fq e s :
  save_wf tr s -> queue_buf (the_afl s) !! q = Some e -> q_len e = len -> q_tc_ref e = 0 ->
  goes (calibrate_case c hash64 (init_count_class16 t0) q mem hc fq) s (cal_outcome q len tr hc s).
Proof.
  intros Hw He Hl Hr. unfold calibrate_case.
  destruct (lookup_lt_is_Some_2 (v_cal s) q) as [k Hk].
  { rewrite (sw_cal _ _ Hw). by eapply lookup_lt_Some. }
  assert (stats_of q s = Some (stats k)) as Hst by (unfold stats_of; by rewrite Hk).
  unfold stats in Hst. set (J := pending q len (top_rated (the_afl s)) (k_bitmap_size k, k_handicap k, k_cal_failed k)).
  assert (inv tr J s) as Hi by (split; [done|]; split; [by exists e|done]).
  pose proof (pending_ext q len (top_rated (the_afl s)) (k_bitmap_size k, k_handicap k, k_cal_failed k)
    : forall s s', _ -> _ -> J s -> J s') as HJ.
  apply goes_bind. unfold cal_of. apply goes_bind. unfold goes at 1, gets. rewrite Hk. apply goes_within.
  apply goes_bind. eapply goes_mono; [by apply (safe_time_us q tr J HJ)|]. intros start s1 [Hi1 Hs1].
  apply goes_bind. eapply (goes_mono _ _ (fun _ s' => inv tr J s' /\ stable s1 s')).
  { destruct (cmplog_mode c); [by apply (safe_set_cal q tr J HJ)|by apply safe_ret]. }
  intros ? s2 [Hi2 Hs2]. apply goes_bind. eapply goes_mono; [apply failed_ok; apply Hi2|].
  intros ? s3 [Hi3 Hs3]. pose proof (stable_trans _ _ _ Hs1 (stable_trans _ _ _ Hs2 Hs3)) as Hs.
  set (mx := if cal_fast c then _ else _).
  apply (after_failed_ok _ _ _ (top_rated (the_afl s)) (CalVars mx 0 false start) _ _ s s3 Hst eq_refl Hs); [|done].
  subst mx. unfold CAL_CYCLES, CAL_CYCLES_FAST. cbn. destruct (cal_fast c); lia.
Qed.
End Calibrate.
End Facts.
