(* ===== verification/SaveFacts.v ===== *)
(** * What is kept: invariants of [save_if_interesting] *)

From S2P Require Import Prelude Res Coverage Rng CoverageFacts CountFacts TextCheck Queue QueueFacts Cache CacheFacts CacheMain Tmin Stage StageFacts Save CalFacts.

(** ** The bits that are left in a virgin map *)

Definition left_in (v : list Z) : Z := foldr Z.add 0 v.

Lemma subset_le x y : Z.ldiff y x = 0 -> 0 <= x -> 0 <= y -> y <= x.
Proof.
  intros Hd Hx Hy. pose proof (Z.sub_nocarry_ldiff x y Hd). pose proof (proj2 (Z.ldiff_nonneg x y)). lia.
Qed.

(** A map that shrinks loses something unless it stays the same. *)
Lemma left_in_shrinks v v' :
  length v' = length v -> bytes_ok v -> bytes_ok v' -> shrinks v v' ->
  left_in v' <= left_in v /\ (left_in v' = left_in v -> v' = v).
Proof.
  revert v'. induction v as [|x v IH]; intros [|y v'] Hl Hb Hb' Hs; try done.
  apply list.Forall_cons in Hb as [Hx Hb]. apply list.Forall_cons in Hb' as [Hy Hb'].
  destruct (IH v') as [Hle Heq]; [by injection Hl|done|done|intros i; apply (Hs (S i))|].
  unfold in_width in *. assert (y <= x) by (apply subset_le; [by apply (Hs 0%nat)|lia..]).
  unfold left_in in *. cbn [foldr].
  split; [lia|]. intros E. f_equal; [lia|]. apply Heq. lia.
Qed.

Section Facts.
Context {W : Type} `{Host W} (c : save_cfg).
Context (hash64 hash32 : list Z -> Z) (t0 : table16) (N : Z).
Context (Hhost : host_ok N).
Context (Hh64 : forall x, is_u64 (hash64 x)) (Hh32 : forall x, is_u32 (hash32 x)).
Implicit Type s : save_st W.

Abbreviation save_wf := (save_wf c N).
Abbreviation inv := (inv c N).

(** What the steps leave alone that do not queue anything. *)
Record quiet s s' : Prop := Quiet {
  qt_lens : q_len <$> queue_buf (the_afl s') = q_len <$> queue_buf (the_afl s);
  qt_cache : v_cache s' = v_cache s;
  qt_files : v_files s' = v_files s;
  qt_mode : non_instrumented_mode (the_afl s') = non_instrumented_mode (the_afl s);
  qt_left : left_in (virgin_tmout (v_cov s')) <= left_in (virgin_tmout (v_cov s))
}.

Lemma quiet_refl s : quiet s s.
Proof. by constructor. Qed.

Lemma quiet_trans s1 s2 s3 : quiet s1 s2 -> quiet s2 s3 -> quiet s1 s3.
Proof. intros [] []. constructor; first [congruence|lia]. Qed.

Lemma stable_quiet s s' : stable s s' -> quiet s s'.
Proof.
  intros [F C S M K (A&_) L Nf V R B X]. constructor; try done.
  pose proof (V VirginTmout ltac:(done)) as E. cbn in E. by rewrite E.
Qed.

Definition soft tr {A} (m : stage (save_st W) A) : Prop := forall s,
  save_wf tr s -> goes m s (fun _ s' => save_wf tr s' /\ quiet s s').

Section Soft.
Context (tr : nat -> list Z).

Lemma soft_ret {A} (a : A) : soft tr (mret a).
Proof. intros s Hw. apply goes_ret. split; [done|apply quiet_refl]. Qed.

Lemma soft_bind {A B} (m : stage (save_st W) A) (k : A -> stage (save_st W) B) :
  soft tr m -> (forall a, soft tr (k a)) -> soft tr (m ≫= k).
Proof.
  intros Hm Hk s Hi. apply goes_bind. eapply goes_mono; [by apply Hm|]. intros a s1 [Hi1 Hs1].
  eapply goes_mono; [by apply Hk|]. intros b s2 [Hi2 Hs2]. split; [done|exact (quiet_trans _ _ _ Hs1 Hs2)].
Qed.

Lemma soft_gets {A} (f : save_st W -> A) : soft tr (gets f).
Proof. intros s Hi. split; [done|apply quiet_refl]. Qed.

Lemma soft_if {A} (b : bool) (m k : stage (save_st W) A) : soft tr m -> soft tr k -> soft tr (if b then m else k).
Proof. by destruct b. Qed.

Lemma trivial_ext q s s' : v_corpus s' = v_corpus s -> stats_of q s' = stats_of q s -> True -> True.
Proof. done. Qed.

Lemma soft_safe {A} (m : stage (save_st W) A) : safe c N tr (fun _ => True) m -> soft tr m.
Proof.
  intros Hm s Hw. eapply goes_mono; [apply Hm; by split|]. intros a s' [[Hw' _] Hs].
  split; [done|by apply stable_quiet].
Qed.

Lemma soft_classify : soft tr (classify (init_count_class16 t0)).
Proof. apply soft_safe, (safe_classify c t0 N 0 tr _ (trivial_ext 0)). Qed.

Lemma soft_run tm x : soft tr (run tm x).
Proof. by apply soft_safe, (safe_run c N 0 tr _ (trivial_ext 0)). Qed.

Lemma soft_new_bits : soft tr (new_bits VirginBits).
Proof.
  intros s Hw. eapply goes_mono; [apply (safe_new_bits c N 0 tr _ (trivial_ext 0)); by split|].
  intros r s' (_&[Hw' _]&Hs). split; [done|by apply stable_quiet].
Qed.

Lemma soft_set_counter k n : soft tr (set_counter k n).
Proof. intros s Hw. split; [destruct Hw; by constructor|by constructor]. Qed.

Lemma soft_add64 k n : soft tr (add64 k n).
Proof. apply soft_bind; [apply soft_gets|]. intros v. apply soft_set_counter. Qed.

Lemma soft_add32 k n : soft tr (add32 k n).
Proof. apply soft_bind; [apply soft_gets|]. intros v. apply soft_set_counter. Qed.

Lemma soft_add_status n : soft tr (add_status n).
Proof. apply soft_bind; [apply soft_gets|]. intros v. apply soft_set_counter. Qed.

Lemma soft_time_ms : soft tr time_ms.
Proof.
  intros s Hw. unfold goes, time_ms. destruct (h_time _). split; [destruct Hw; by constructor|by constructor].
Qed.

Lemma soft_run_san i x : soft tr (run_san i x).
Proof.
  intros s Hw. unfold goes, run_san. destruct (h_san _ _ _). split; [destruct Hw; by constructor|by constructor].
Qed.

Lemma size_of s : save_wf tr s -> 0 <= N < 2 ^ 32 /\ N mod 64 = 0 /\ bytes_ok (the_trace s) /\ zlen (the_trace s) = N.
Proof.
  intros Hw. pose proof (sw_size _ _ _ _ Hw) as Hn. destruct (CoverageFacts.wf_trace _ (sw_cov _ _ _ _ Hw)) as [Hb Hz].
  pose proof (wf_size _ (sw_cov _ _ _ _ Hw)). pose proof (wf_align _ (sw_cov _ _ _ _ Hw)).
  rewrite Hn in *. by repeat (split; [done|]).
Qed.

Lemma same_cov s : save_wf tr s -> save_wf tr (with_cov (v_cov s) s) /\ quiet s (with_cov (v_cov s) s).
Proof. intros Hw. split; [destruct Hw; by constructor|by constructor]. Qed.

Lemma soft_unclassified : soft tr (new_bits_unclassified (init_count_class16 t0) VirginBits).
Proof.
  intros s Hw. destruct (size_of s Hw) as (HN&Hmod&Hb&Hz). pose proof (sw_size _ _ _ _ Hw) as Hn.
  destruct (wf_virgin _ (sw_cov _ _ _ _ Hw) VirginBits) as [Hvb Hvz]. cbn in Hvb, Hvz.
  assert (skim 3 (init_count_class16 t0) N (virgin_bits (v_cov s)) (the_trace s) =
    Some (b2z (any_new (map count_class_lookup8 (the_trace s)) (virgin_bits (v_cov s))))) as Hsk.
  { rewrite <- Hz at 1. apply skim_run; [by right|by rewrite Hz|unfold zlen in *; lia|done|done]. }
  pose proof (classify_counts_run 3 t0 N (the_trace s) (or_intror eq_refl) ltac:(lia) Hmod Hb Hz) as Hcr.
  unfold goes, new_bits_unclassified, on_cov, has_new_bits_unclassified. cbn [virgin_of]. fold (the_trace s).
  rewrite Hn, Hsk. cbn [mbind option_bind]. destruct (_ =? 0); [by apply same_cov|]. rewrite Hcr.
  cbn [mbind option_bind]. pose proof (soft_classify s Hw) as Hcl. unfold goes, classify, on_cov in Hcl.
  fold (the_trace s) in Hcl. rewrite Hn, Hcr in Hcl.
  cbn [mbind option_bind] in Hcl. destruct Hcl as [Hw1 Hq1]. pose proof (soft_new_bits _ Hw1) as Hnb.
  unfold goes, new_bits, on_cov in Hnb. cbn [v_cov with_cov] in Hnb. destruct (has_new_bits _ _ _) as [[r a']|]; [|done].
  destruct Hnb as [Hw2 Hq2]. split; [done|exact (quiet_trans _ _ _ Hq1 Hq2)].
Qed.

Lemma soft_look v : soft tr (look (init_count_class16 t0) v).
Proof.
  apply soft_bind; [apply soft_if; [apply soft_new_bits|apply soft_unclassified]|]. intros n. apply soft_ret.
Qed.

Lemma soft_cksum : soft tr (cksum64 hash64).
Proof. apply soft_gets. Qed.

Lemma path_index k : 0 <= k mod N_FUZZ_SIZE < N_FUZZ_SIZE.
Proof. apply Z.mod_pos_bound. done. Qed.

Lemma n_fuzz_ok l s :
  save_wf tr s -> zlen l = N_FUZZ_SIZE ->
  save_wf tr (put_afl (with_n_fuzz l (the_afl s)) s) /\ quiet s (put_afl (with_n_fuzz l (the_afl s)) s).
Proof.
  intros Hw Hl. split; [|by constructor]. pose proof (sw_n_fuzz _ _ _ _ Hw) as Hz.
  destruct Hw. constructor; try done. cbn. destruct sw_queue as [W1 W2 W3 W4 W5 W6 W7 W8 W9]. split; try done.
  cbn. intros w e He. rewrite Hl, <- Hz. by apply (W6 w e).
Qed.

Lemma soft_count_path k : soft tr (count_path k).
Proof.
  intros s Hw. pose proof (sw_n_fuzz _ _ _ _ Hw) as Hz. pose proof (path_index k). unfold count_path.
  apply goes_bind. unfold goes at 1, gets. destruct (get_Some (n_fuzz (the_afl s)) (k mod N_FUZZ_SIZE)) as [v ->]; [lia|].
  apply goes_bind, goes_within. destruct (v <? _); [|by apply soft_ret]. rewrite put_Some by lia.
  apply goes_bind, goes_within. apply n_fuzz_ok; [done|]. by rewrite zlen_insert.
Qed.

Lemma soft_frequency : soft tr (update_frequency hash64 (init_count_class16 t0)).
Proof.
  apply soft_bind; [apply soft_classify|]. intros _. apply soft_bind; [apply soft_cksum|]. intros k.
  apply soft_bind; [apply soft_count_path|]. intros _. apply soft_ret.
Qed.

Lemma bitmap_total m k :
  zlen m = N_FUZZ_SIZE_BITMAP -> bytes_ok m -> is_u32 k ->
  (exists b, bitmap_read m k = Some b) /\ exists m', bitmap_set m k = Some m' /\ zlen m' = zlen m /\ bytes_ok m'.
Proof.
  intros Hz Hb Hk. assert (0 <= k < 8 * zlen m) as Hr by (rewrite Hz; unfold in_width, N_FUZZ_SIZE_BITMAP in *; lia).
  split; [by apply bitmap_read_Some|]. destruct (bitmap_set_spec m k Hr Hb) as (m'&?&?&?&_). by exists m'.
Qed.

Lemma soft_san_maps s simplified dup :
  save_wf tr s ->
  (san_binary_length c <> 0 -> san_mode c = SIMPLIFY_TRACE -> zlen simplified = N_FUZZ_SIZE_BITMAP /\ bytes_ok simplified) ->
  (san_binary_length c <> 0 -> san_mode c = UNIQUE_TRACE -> zlen dup = N_FUZZ_SIZE_BITMAP /\ bytes_ok dup) ->
  save_wf tr (with_san simplified dup s) /\ quiet s (with_san simplified dup s).
Proof. intros Hw H1 H2. split; [destruct Hw; by constructor|by constructor]. Qed.

(** A step that keeps the length among the variables. *)
Definition soft_vars (m : stage (save_st W) save_vars) (len : Z) : Prop := forall s,
  save_wf tr s -> goes m s (fun v s' => w_len v = len /\ save_wf tr s' /\ quiet s s').

Lemma look_vars v : soft_vars (look (init_count_class16 t0) v) (w_len v).
Proof.
  intros s Hw. unfold look. apply goes_bind. eapply goes_mono.
  { apply (soft_if (w_classified v) _ _ soft_new_bits soft_unclassified). done. }
  intros n s1 [Hw1 Hq1]. by apply goes_ret.
Qed.

Lemma choose_vars v : soft_vars (choose_sanitizers c hash32 (init_count_class16 t0) v) (w_len v).
Proof.
  intros s Hw. unfold choose_sanitizers.
  destruct (_ =? 0) eqn:E0; [apply goes_ret; split; [done|]; split; [done|apply quiet_refl]|]. b2p.
  destruct (san_mode c) eqn:Em.
  - apply goes_bind. unfold goes at 1, gets, id. destruct (size_of s Hw) as (HN&Hmod&Hb&Hz).
    rewrite (sw_size _ _ _ _ Hw), simplify_trace_run by (first [by right|lia|done]). apply goes_bind, goes_within.
    destruct (sw_simplified _ _ _ _ Hw E0 Em) as [Hsz Hsb].
    destruct (bitmap_total _ (hash32 (map simplify_lookup (the_trace s))) Hsz Hsb) as ([b ->]&m'&->&Hz'&Hb'); [done|].
    apply goes_bind, goes_within. destruct b; [apply goes_ret; split; [done|]; split; [done|apply quiet_refl]|].
    apply goes_bind, goes_within. apply goes_bind. unfold goes, modify. split; [done|].
    apply soft_san_maps; [done|intros; split; [congruence|done]|congruence].
  - apply goes_bind. eapply goes_mono; [apply (soft_if (w_classified v) _ _ (soft_ret tt) soft_classify); done|].
    intros ? s1 [Hw1 Hq1]. apply goes_bind. unfold goes at 1, gets, id. cbn [w_cksum classified_bits].
    destruct (sw_dup _ _ _ _ Hw1 E0 Em) as [Hsz Hsb].
    destruct (bitmap_total _ (u32 (w_cksum v)) Hsz Hsb) as ([b ->]&_); [apply wrap_range; lia|].
    destruct (bitmap_total _ (hash32 (the_trace s1)) Hsz Hsb) as (_&m'&->&Hz'&Hb'); [done|].
    apply goes_bind, goes_within. destruct b; [by apply goes_ret|].
    apply goes_bind, goes_within. apply goes_bind. unfold goes, modify. split; [done|].
    destruct (soft_san_maps s1 (v_simplified s1) m' Hw1) as [Hw2 Hq2]; [congruence|intros; split; [congruence|done]|].
    split; [done|exact (quiet_trans _ _ _ Hq1 Hq2)].
  - apply goes_bind. eapply goes_mono; [by apply look_vars|]. intros v' s1 (Hl&Hw1&Hq1). apply goes_ret.
    destruct (_ =? 0); done.
Qed.

Lemma soft_simplify s :
  save_wf tr s -> goes simplify s (fun _ s' => save_wf tr s' /\ quiet s s' /\
    v_cov s' = Coverage.set_trace (map simplify_lookup (the_trace s)) (v_cov s) /\ v_corpus s' = v_corpus s).
Proof.
  intros Hw. destruct (size_of s Hw) as (HN&Hmod&Hb&Hz). unfold goes, simplify, on_cov. fold (the_trace s).
  rewrite (sw_size _ _ _ _ Hw), simplify_trace_run by (first [by right|lia|done]). cbn [mbind option_bind].
  destruct (trace_ok c N 0 tr _ (trivial_ext 0) (map simplify_lookup (the_trace s)) s) as [[Hw1 _] Hs1].
  - by split.
  - apply map_simplify_bytes_ok.
  - unfold zlen in *. by rewrite length_map.
  - split; [done|]. split; [by apply stable_quiet|done].
Qed.

(** A look at another map than [virgin_bits] clears something there if it finds something. *)
Lemma other_bits id s :
  save_wf tr s -> id <> VirginBits ->
  goes (new_bits id) s (fun r s' => save_wf tr s' /\ quiet s s' /\
    (id = VirginTmout -> r <> 0 -> left_in (virgin_tmout (v_cov s')) < left_in (virgin_tmout (v_cov s)))).
Proof.
  intros Hw Hid. destruct (new_bits_run c N tr (fun _ => True) id s) as (r&a'&E&Hc&Hr&Hn&Hre&Ht&Hv&Hs&_&Hne); [by split|].
  unfold goes, new_bits, on_cov. rewrite E.
  pose proof (Hv VirginBits ltac:(congruence)) as Hvb. cbn in Hvb.
  assert (id = VirginTmout -> left_in (virgin_tmout a') <= left_in (virgin_tmout (v_cov s)) /\
    (left_in (virgin_tmout a') = left_in (virgin_tmout (v_cov s)) -> virgin_tmout a' = virgin_tmout (v_cov s))) as Hleft.
  { intros ->. pose proof (virgin_length N a' Hc Hn VirginTmout) as L1.
    pose proof (virgin_length N _ (sw_cov _ _ _ _ Hw) (sw_size _ _ _ _ Hw) VirginTmout) as L2. cbn in L1, L2.
    apply left_in_shrinks; [lia|apply (wf_virgin _ (sw_cov _ _ _ _ Hw) VirginTmout)|apply (wf_virgin _ Hc VirginTmout)|exact Hs]. }
  split_and!.
  - destruct Hw. constructor; try done. cbn. by rewrite Hvb.
  - constructor; try done. cbn. destruct (decide (id = VirginTmout)) as [->|Hne2]; [by apply Hleft|].
    pose proof (Hv VirginTmout ltac:(congruence)) as Et. cbn in Et. by rewrite Et.
  - intros -> Hr0. destruct (Hleft eq_refl) as [Hle Heq]. cbn. destruct (decide (left_in (virgin_tmout a') = left_in (virgin_tmout (v_cov s)))).
    + exfalso. apply Hr0, Hne. by apply Heq.
    + lia.
Qed.

Lemma unique_fault_ok id s :
  save_wf tr s -> id <> VirginBits ->
  goes (unique_fault id) s (fun b s' => save_wf tr s' /\ quiet s s' /\
    (id = VirginTmout -> non_instrumented_mode (the_afl s) = false -> b = true ->
     left_in (virgin_tmout (v_cov s')) < left_in (virgin_tmout (v_cov s)))).
Proof.
  intros Hw Hid. unfold unique_fault. apply goes_bind. unfold goes at 1, instrumented, gets.
  destruct (non_instrumented_mode _) eqn:En; cbn [negb]; [apply goes_ret; split; [done|]; split; [apply quiet_refl|done]|].
  apply goes_bind. eapply goes_mono; [by apply soft_simplify|]. intros ? s1 (Hw1&Hq1&Hc1&_).
  apply goes_bind. eapply goes_mono; [by apply other_bits|]. intros r s2 (Hw2&Hq2&Hl2). apply goes_ret.
  split; [done|]. split; [exact (quiet_trans _ _ _ Hq1 Hq2)|]. intros Hid2 _ Hb. apply negb_true_iff in Hb. b2p.
  pose proof (Hl2 Hid2 Hb) as Hlt. rewrite Hc1 in Hlt. exact Hlt.
Qed.
End Soft.

(** ** The cache with one more entry *)

Lemma cache_app t e :
  cache_wf t -> entry_ok e -> c_buf e = None -> cache_wf (with_c_queue (c_queue t ++ [e]) t).
Proof.
  intros Hw He Hb. destruct Hw as [C1 C2 C3 C4 C5 C6 C7 C8 C9 C10]. constructor; try done.
  - intros q. change (occ (with_c_queue (c_queue t ++ [e]) t)) with (occ t). rewrite C7. unfold cached. cbn.
    split.
    + intros (e'&b&Hq&Hb'). exists e', b. split; [|done]. by apply lookup_app_l_Some.
    + intros (e'&b&Hq&Hb'). apply lookup_app_Some in Hq as [Hq|[_ Hq]]; [by exists e', b|].
      apply list_lookup_singleton_Some in Hq as [_ <-]. congruence.
  - cbn. apply Forall_app. split; [done|]. by apply Forall_singleton.
Qed.

Lemma keeps_fields t t' :
  keeps t t' -> c_len <$> c_queue t' = c_len <$> c_queue t /\ c_file <$> c_queue t' = c_file <$> c_queue t.
Proof.
  intros (_&Hb&Hf). split; apply list_eq; intros i; rewrite !list_lookup_fmap;
    (destruct (c_queue t !! i) as [e|] eqn:He;
     [destruct (Hf i e He) as (b&->&_); done
     |destruct (c_queue t' !! i) as [e'|] eqn:He'; [destruct (Hb i e' He') as [? ?]; congruence|done]]).
Qed.

(** ** An input of [len] bytes *)

Section Input.
Context (mem : list Z) (len : Z) (Hlen : 0 < len <= MAX_FILE) (Hmem : len <= zlen mem).
Context (Hmin : min_length c <= len) (Hmax : len <= max_length c).

Definition input : list Z := slice mem 0 len.

Lemma zlen_input : zlen input = len.
Proof. apply zlen_slice; lia. Qed.

Lemma write_run fix_ : write c mem len fix_ = within (S:=save_st W) (Some input).
Proof.
  unfold write, write_to_testcase. rewrite (proj2 (Z.ltb_ge _ _)) by done. cbn [andb].
  rewrite Z.gtb_ltb, (proj2 (Z.ltb_ge _ _)) by done. by rewrite load_Some by lia.
Qed.

Lemma run_sanitizers_ok tr l s :
  save_wf tr s -> goes (run_sanitizers c l mem len) s (fun r s' => r.2 = len /\ save_wf tr s' /\ quiet s s').
Proof.
  revert s. induction l as [|i l IH]; intros s Hw; cbn [run_sanitizers].
  { apply goes_ret. split; [done|]. split; [done|apply quiet_refl]. }
  rewrite write_run. apply goes_bind, goes_within. apply goes_bind.
  eapply goes_mono; [by apply soft_run_san|]. intros f s1 [Hw1 Hq1]. apply goes_bind.
  eapply goes_mono; [apply (soft_if tr (bool_decide (f = FSRV_RUN_OK)) _ _ (soft_ret tr tt) (soft_add_status tr _)); done|].
  intros ? s2 [Hw2 Hq2]. pose proof (quiet_trans _ _ _ Hq1 Hq2) as Hq. rewrite zlen_input.
  destruct (bool_decide _); [by apply goes_ret|]. eapply goes_mono; [by apply IH|].
  intros r s3 (Hr&Hw3&Hq3). split; [done|]. split; [done|]. exact (quiet_trans _ _ _ Hq Hq3).
Qed.

Lemma sanitize_ok tr v s :
  save_wf tr s -> w_len v = len ->
  goes (sanitize c hash32 (init_count_class16 t0) mem v) s (fun v' s' => w_len v' = len /\ save_wf tr s' /\ quiet s s').
Proof.
  intros Hw Hl. unfold sanitize. apply goes_bind. eapply goes_mono; [by apply choose_vars|].
  intros v1 s1 (Hl1&Hw1&Hq1). rewrite Hl in Hl1. destruct (w_feed v1); [|by apply goes_ret]. rewrite Hl1.
  apply goes_bind. eapply goes_mono; [by apply run_sanitizers_ok|]. intros [f l] s2 (Hr&Hw2&Hq2). cbn in Hr.
  apply goes_ret. split; [done|]. split; [done|]. exact (quiet_trans _ _ _ Hq1 Hq2).
Qed.

(** *** Progress from a state [s0]: [n] entries were queued. *)

Section Progress.
Context (tr0 : nat -> list Z) (s0 : save_st W).

Record progress (n : nat) s : Prop := Progress {
  pg_wf : exists tr, save_wf tr s /\ forall w, (w < length (queue_buf (the_afl s0)))%nat -> tr w = tr0 w;
  pg_lens : q_len <$> queue_buf (the_afl s) = (q_len <$> queue_buf (the_afl s0)) ++ replicate n len;
  pg_stored : c_file <$> c_queue (v_cache s) = (c_file <$> c_queue (v_cache s0)) ++ replicate n input;
  pg_files : v_files s = v_files s0;
  pg_mode : non_instrumented_mode (the_afl s) = non_instrumented_mode (the_afl s0)
}.

Lemma progress_start : save_wf tr0 s0 -> progress 0 s0.
Proof. intros Hw. constructor; try done; [by exists tr0|by rewrite app_nil_r..]. Qed.

Lemma progress_quiet n s s' tr :
  progress n s -> save_wf tr s' -> (forall w, (w < length (queue_buf (the_afl s0)))%nat -> tr w = tr0 w) ->
  quiet s s' -> progress n s'.
Proof.
  intros [_ P2 P3 P4 P5] Hw Htr [Q1 Q2 Q3 Q4 Q5]. constructor; [by exists tr|congruence..].
Qed.

Lemma progress_length n s :
  progress n s -> length (queue_buf (the_afl s)) = (length (queue_buf (the_afl s0)) + n)%nat.
Proof.
  intros Hp. pose proof (f_equal length (pg_lens n s Hp)) as E. by rewrite length_app, !length_fmap, length_replicate in E.
Qed.

(** A soft step. *)
Lemma goes_soft {A} (m : stage (save_st W) A) n s :
  (forall tr, soft tr m) -> progress n s ->
  goes m s (fun _ s' => progress n s' /\ quiet s s').
Proof.
  intros Hm Hp. destruct (pg_wf n s Hp) as (tr&Hw&Htr). eapply goes_mono; [by apply (Hm tr)|].
  intros a s' [Hw' Hq]. split; [by eapply progress_quiet|done].
Qed.

(** The new entry [q]: it has no slot and is not in the cache. *)
Definition fresh_entry (q : nat) s : Prop :=
  (exists e, queue_buf (the_afl s) !! q = Some e /\ q_len e = len /\ q_tc_ref e = 0) /\
  c_queue (v_cache s) !! q = Some (CEntry len input false None) /\
  (length (queue_buf (the_afl s0)) <= q)%nat.

Lemma goes_load {B} (k : list Z -> stage (save_st W) B) s (Q : B -> save_st W -> Prop) :
  goes (k input) s Q -> goes (x ← within (load mem 0 len); k x) s Q.
Proof. intros Hk. rewrite load_Some by lia. by apply goes_bind, goes_within. Qed.

(** The three tables with the new entry. *)
Lemma append_ok n s t text :
  progress n s -> zlen (queue_buf (the_afl s)) < 2 ^ 32 - 1 ->
  let s1 := with_corpus (add_to_queue (v_corpus s) len false t text) s in
  let s2 := with_cal (v_cal s1 ++ [CalEntry 0 0 0 0 false false]) s1 in
  let s3 := with_cache (with_c_queue (c_queue (v_cache s2) ++ [CEntry len input false None]) (v_cache s2)) s2 in
  progress (S n) s3 /\ fresh_entry (length (queue_buf (the_afl s))) s3.
Proof.
  intros Hp Hroom s1 s2 s3. destruct (pg_wf n s Hp) as (tr&Hw&Htr).
  pose proof (sw_n_fuzz _ _ _ _ Hw) as Hnf.
  destruct (add_to_queue_run tr (v_corpus s) len false t text (sw_queue _ _ _ _ Hw) Hroom)
    as (e&Hq&_&Hel&_&_&_&Hwf&_); [unfold the_afl in Hnf; by rewrite Hnf|].
  assert (q_tc_ref e = 0 /\ Queue.map_size (co_afl (add_to_queue (v_corpus s) len false t text)) = N /\
    n_fuzz (co_afl (add_to_queue (v_corpus s) len false t text)) = n_fuzz (the_afl s) /\
    non_instrumented_mode (co_afl (add_to_queue (v_corpus s) len false t text)) = non_instrumented_mode (the_afl s))
    as (He0&Hms&Hnf'&Hmode).
  { split_and!; [|apply (sw_afl_size _ _ _ _ Hw)|done|done]. apply app_inj_2 in Hq as [_ Hq]; [|done].
    injection Hq as <-. done. }
  change (co_afl (add_to_queue (v_corpus s) len false t text)) with (the_afl s3) in Hq, Hwf, Hms, Hnf', Hmode.
  change (co_afl (v_corpus s)) with (the_afl s) in Hq.
  assert (c_queue (v_cache s3) = c_queue (v_cache s) ++ [CEntry len input false None]) as Hcq by done.
  split.
  - constructor.
    + exists tr. split; [|done]. destruct Hw. constructor; try done.
      * cbn [v_cal s3 s2 with_cal with_cache]. rewrite Hq, !length_app. cbn. lia.
      * rewrite Hcq, Hq, !fmap_app, sw_lens. cbn. by rewrite Hel.
      * apply cache_app; [done| |done]. unfold entry_ok. cbn. rewrite zlen_input. unfold MAX_FILE in Hlen. split_and!; lia || done.
    + rewrite Hq, fmap_app, (pg_lens n s Hp), <- app_assoc, replicate_S_end. cbn. by rewrite Hel.
    + rewrite Hcq, fmap_app, (pg_stored n s Hp), <- app_assoc, replicate_S_end. done.
    + apply Hp.
    + rewrite Hmode. apply Hp.
  - split; [|split].
    + exists e. split; [|done]. rewrite Hq. by apply list_lookup_middle.
    + rewrite Hcq. apply list_lookup_middle. pose proof (sw_lens _ _ _ _ Hw) as E. apply (f_equal length) in E.
      by rewrite !length_fmap in E.
    + rewrite (progress_length n s Hp). lia.
Qed.

Lemma enqueue_ok n s :
  progress n s -> zlen (queue_buf (the_afl s)) < 2 ^ 32 - 1 ->
  goes (enqueue c mem len) s (fun q s' => progress (S n) s' /\ fresh_entry q s' /\
    v_cov s' = v_cov s).
Proof.
  intros Hp Hroom. unfold enqueue. apply goes_load. apply goes_bind. unfold goes at 1, gets.
  apply goes_bind. unfold goes at 1, time_ms. destruct (h_time _) as [t w].
  assert (progress n (with_world w (v_stop s) s)) as Hp1.
  { destruct (pg_wf n s Hp) as (tr&Hw&Htr). eapply (progress_quiet n s _ tr); [done| |done|by constructor].
    destruct Hw; by constructor. }
  set (s1 := with_world w (v_stop s) s) in *.
  apply goes_bind. eapply (goes_mono _ _ (fun _ s' => s' = s1)).
  { destruct (cmplog_mode c); [|by apply goes_ret]. destruct (check_if_text_run (Some input) len) as (v&->&_).
    by apply goes_bind, goes_within, goes_ret. }
  intros text ? ->. apply goes_bind. unfold goes at 1, modify. apply goes_bind. unfold goes at 1, modify.
  apply goes_bind. unfold goes at 1, modify. apply goes_ret.
  destruct (append_ok n s1 t text Hp1 Hroom) as [Hp2 Hf2]. done.
Qed.

(** The entry [q] is new, and [virgin_tmout] is [vt]. *)
Definition mid (n : nat) (q : nat) (vt : list Z) s : Prop :=
  progress n s /\ fresh_entry q s /\ virgin_tmout (v_cov s) = vt.

(** A step outside of the queue and the cache. *)
Lemma mid_outside n q vt s s' :
  mid n q vt s -> v_corpus s' = v_corpus s -> v_cache s' = v_cache s -> v_files s' = v_files s ->
  v_cov s' = v_cov s -> (forall tr, save_wf tr s -> save_wf tr s') -> mid n q vt s'.
Proof.
  intros (Hp&Hf&Hv) Hc Ht Hfi Hcov Hw. unfold mid. split; [|split; [|by rewrite Hcov]].
  - destruct (pg_wf n s Hp) as (tr&Hwf&Htr). eapply (progress_quiet n s _ tr); [done|by apply Hw|done|].
    constructor; unfold the_afl; rewrite ?Hc, ?Hcov; done.
  - unfold fresh_entry, the_afl in *. by rewrite Hc, Ht.
Qed.

Lemma mid_cal n q vt f q' s : mid n q vt s -> goes (set_cal q' f) s (fun _ => mid n q vt).
Proof.
  intros Hm. eapply (mid_outside n q vt s); [done..|]. intros tr Hw. destruct Hw. constructor; try done.
  cbn. by rewrite length_alter.
Qed.

Lemma mid_counter n q vt k x s : mid n q vt s -> goes (set_counter k x) s (fun _ => mid n q vt).
Proof. intros Hm. eapply (mid_outside n q vt s); [done..|]. intros tr Hw. destruct Hw. by constructor. Qed.

Lemma mid_mode n q vt b s : mid n q vt s -> goes (modify (with_mode b)) s (fun _ => mid n q vt).
Proof. intros Hm. eapply (mid_outside n q vt s); [done..|]. intros tr Hw. destruct Hw. by constructor. Qed.

Lemma mid_path n q vt k s :
  mid n q vt s ->
  goes (set_queue_entry q (set_n_fuzz_entry (k mod N_FUZZ_SIZE));;
        a ← gets the_afl;
        l ← within (put (n_fuzz a) (k mod N_FUZZ_SIZE) 1);
        modify (put_afl (with_n_fuzz l a))) s (fun _ => mid n q vt).
Proof.
  intros (Hp&Hf&Hv). destruct (pg_wf n s Hp) as (tr&Hw&Htr). pose proof (path_index k) as Hk.
  pose proof (sw_n_fuzz _ _ _ _ Hw) as Hz. apply goes_bind. unfold goes at 1, set_queue_entry, modify.
  set (f := set_n_fuzz_entry (k mod N_FUZZ_SIZE)).
  set (s1 := put_afl _ s). assert (n_fuzz (the_afl s1) = n_fuzz (the_afl s)) as Hnf by done.
  assert (q_len <$> queue_buf (the_afl s1) = q_len <$> queue_buf (the_afl s)) as Hlens.
  { cbn. apply list_eq. intros i. rewrite !list_lookup_fmap, list_lookup_alter. case_decide as E; [|done]. subst i.
    by destruct (queue_buf (the_afl s) !! q). }
  assert (save_wf tr s1) as Hw1.
  { destruct Hw. constructor; try done.
    - cbn. apply wf_alter; [done|]. intros e He. rewrite Hz. split_and!; [done|done|apply Hk|apply Hk].
    - cbn. by rewrite length_alter.
    - by rewrite Hlens. }
  apply goes_bind. unfold goes at 1, gets. rewrite Hnf. rewrite put_Some by lia. apply goes_bind, goes_within.
  unfold goes, modify. set (l := <[_ := 1]> _).
  destruct (n_fuzz_ok tr l s1 Hw1) as [Hw2 Hq2]; [unfold l; by rewrite zlen_insert|].
  split; [|split; [|done]].
  - eapply (progress_quiet n s _ tr); [done|done|done|]. eapply quiet_trans; [|exact Hq2]. by constructor.
  - destruct Hf as ((e&He&Hl&Hr)&Hc&Hge). split; [|done]. exists (f e). split; [|done]. cbn.
    by rewrite list_lookup_alter_eq, He.
Qed.

Lemma mid_calibrate n q vt hc fq s :
  mid n q vt s ->
  goes (calibrate_case c hash64 (init_count_class16 t0) q mem hc fq) s (fun _ s' => progress n s' /\
    c_queue (v_cache s') !! q = Some (CEntry len input false None) /\ virgin_tmout (v_cov s') = vt).
Proof.
  intros (Hp&((e&He&Hl&Hr)&Hc&Hge)&Hv). destruct (pg_wf n s Hp) as (tr&Hw&Htr).
  eapply goes_mono; [by apply (calibrate_ok c hash64 t0 N q len mem hc tr ltac:(lia) ltac:(lia) Hhost fq e)|].
  intros f s' (Hs&tr'&Htr'&Hw'&_). split_and!.
  - eapply (progress_quiet n s _ tr'); [done|done| |by apply stable_quiet]. intros w Hlt. rewrite Htr'; [by apply Htr|lia].
  - by rewrite (st_cache _ _ Hs).
  - pose proof (st_virgin _ _ Hs VirginTmout ltac:(done)) as E. cbn in E. congruence.
Qed.

Lemma store_mem_ok n q s :
  progress n s -> c_queue (v_cache s) !! q = Some (CEntry len input false None) ->
  goes (store_mem q mem) s (fun _ s' => progress n s' /\ v_cov s' = v_cov s).
Proof.
  intros Hp Hc. destruct (pg_wf n s Hp) as (tr&Hw&Htr). unfold store_mem. apply goes_bind. unfold goes at 1, gets.
  destruct (_ =? 0); [by apply goes_ret|].
  destruct (store_mem_run (v_cache s) q _ mem (sw_cache _ _ _ _ Hw) Hc) as (t&Et&Hcw&Hk&_); [done|done| |].
  { symmetry. apply (slice_full input). rewrite zlen_input. cbn. lia. }
  apply goes_bind. unfold goes at 1, of_res. rewrite Et. unfold goes, modify.
  destruct (keeps_fields _ _ Hk) as [Hkl Hkf]. split; [|done]. destruct Hp as [_ P2 P3 P4 P5]. constructor; try done.
  - exists tr. split; [|done]. destruct Hw. constructor; try done. cbn. by rewrite Hkl.
  - cbn. by rewrite Hkf.
Qed.

Lemma save_to_queue_ok n s v :
  progress n s -> zlen (queue_buf (the_afl s)) < 2 ^ 32 - 1 -> w_len v = len ->
  goes (save_to_queue c hash64 (init_count_class16 t0) mem v) s (fun v' s' => progress (S n) s' /\
    w_len v' = len /\ w_san_fault v' = w_san_fault v /\ virgin_tmout (v_cov s') = virgin_tmout (v_cov s)).
Proof.
  intros Hp Hroom Hl. unfold save_to_queue. rewrite Hl. apply goes_bind.
  eapply goes_mono; [by apply enqueue_ok|]. intros q s1 (Hp1&Hf1&Hc1). set (vt := virgin_tmout (v_cov s)).
  assert (mid (S n) q vt s1) as Hm1 by (split; [done|split; [done|by rewrite Hc1]]).
  apply goes_bind. unfold goes at 1, instrumented, gets. apply goes_bind. unfold goes at 1, gets.
  apply goes_bind. eapply (goes_mono _ _ (fun _ => mid (S n) q vt)).
  { destruct (_ && _); [by apply mid_mode|by apply goes_ret]. }
  intros ? s2 Hm2. apply goes_bind. eapply (goes_mono _ _ (fun _ => mid (S n) q vt)).
  { destruct (_ =? 2); [|by apply goes_ret]. apply goes_bind. eapply goes_mono; [by apply mid_cal|].
    intros ? s3 Hm3. by apply mid_counter. }
  intros ? s3 Hm3. apply goes_bind. eapply (goes_mono _ _ (fun _ => mid (S n) q vt)).
  { destruct (_ && _); [|by apply goes_ret]. apply goes_bind. unfold goes at 1, cksum64, gets. by apply mid_cal. }
  intros ? s4 Hm4. apply goes_bind. eapply (goes_mono _ _ (fun _ => mid (S n) q vt)).
  { destruct (_ =? 0); [by apply goes_ret|]. by apply mid_path. }
  intros ? s5 Hm5. apply goes_bind. eapply goes_mono; [by apply (mid_calibrate (S n) q vt)|].
  intros f s6 (Hp6&Hc6&Hv6). destruct (bool_decide _); [done|]. apply goes_bind.
  eapply goes_mono; [by apply store_mem_ok|]. intros ? s7 [Hp7 Hc7]. apply goes_ret. split_and!; try done. by rewrite Hc7.
Qed.

(** The end: [n] entries were queued and at most one file was written besides. *)
Definition final (n : nat) s : Prop :=
  progress n (with_files (v_files s0) s) /\
  (v_files s = v_files s0 \/ exists k, v_files s = v_files s0 ++ [(k, input)]).

Definition kept (n : nat) : bool := (0 <? n)%nat.

Lemma wf_files tr l s : save_wf tr s -> save_wf tr (with_files l s).
Proof. intros []. by constructor. Qed.

Lemma progress_final n s : progress n s -> final n s.
Proof.
  intros [(tr&Hw&Htr) P2 P3 P4 P5]. split; [|by left]. constructor; try done. exists tr. split; [by apply wf_files|done].
Qed.

(** The steps that write the file. *)
Lemma save_file_ok k n s :
  progress n s -> goes (save_file k mem len) s (fun _ s' => final n s').
Proof.
  intros Hp. unfold save_file. apply goes_load. unfold goes, modify. destruct Hp as [(tr&Hw&Htr) P2 P3 P4 P5]. split.
  - constructor; try done. exists tr. split; [|done]. destruct Hw; by constructor.
  - right. exists k. cbn. by rewrite P4.
Qed.

Lemma keep_as_hang_ok n b s :
  progress n s -> goes (keep_as_hang mem len b) s (fun r s' => r = b /\ final n s').
Proof.
  intros Hp. unfold keep_as_hang. apply goes_bind. eapply goes_mono; [apply (goes_soft _ n s (fun tr => soft_add64 tr _ _) Hp)|].
  intros ? s1 [Hp1 _]. apply goes_bind. eapply goes_mono; [apply (goes_soft _ n s1 soft_time_ms Hp1)|].
  intros t s2 [Hp2 _]. apply goes_bind. eapply goes_mono; [apply (goes_soft _ n s2 (fun tr => soft_set_counter tr _ _) Hp2)|].
  intros ? s3 [Hp3 _]. apply goes_bind. eapply goes_mono; [by apply save_file_ok|]. intros ? s4 Hf. by apply goes_ret.
Qed.

Lemma unique_progress id n s :
  progress n s -> id <> VirginBits -> goes (unique_fault id) s (fun b s' => progress n s' /\
    (id = VirginTmout -> non_instrumented_mode (the_afl s0) = false -> b = true ->
     left_in (virgin_tmout (v_cov s')) < left_in (virgin_tmout (v_cov s)))).
Proof.
  intros Hp Hid. destruct (pg_wf n s Hp) as (tr&Hw&Htr). eapply goes_mono; [by apply (unique_fault_ok tr)|].
  intros b s' (Hw'&Hq&Hl). split; [by eapply progress_quiet|]. intros Hi Hn. apply Hl; [done|].
  by rewrite (pg_mode n s Hp).
Qed.

Lemma keep_as_crash_ok n b s :
  progress n s -> goes (keep_as_crash mem len b) s (fun r s' => r = b /\ final n s').
Proof.
  intros Hp. unfold keep_as_crash. apply goes_bind. eapply goes_mono; [apply (goes_soft _ n s (fun tr => soft_add64 tr _ _) Hp)|].
  intros ? s1 [Hp1 _]. apply goes_bind. unfold goes at 1, gets.
  destruct (_ <=? _); [apply goes_ret; split; [done|by apply progress_final]|].
  apply goes_bind. eapply goes_mono; [by apply (unique_progress VirginCrash n)|]. intros new s2 [Hp2 _].
  destruct (negb new); [apply goes_ret; split; [done|by apply progress_final]|].
  apply goes_bind. eapply goes_mono; [apply (goes_soft _ n s2 (fun tr => soft_add64 tr _ _) Hp2)|]. intros ? s3 [Hp3 _].
  apply goes_bind. eapply goes_mono; [apply (goes_soft _ n s3 soft_time_ms Hp3)|]. intros t s4 [Hp4 _].
  apply goes_bind. eapply goes_mono; [apply (goes_soft _ n s4 (fun tr => soft_set_counter tr _ _) Hp4)|]. intros ? s5 [Hp5 _].
  apply goes_bind. unfold goes at 1, gets.
  apply goes_bind. eapply goes_mono; [apply (goes_soft _ n s5 (fun tr => soft_set_counter tr _ _) Hp5)|]. intros ? s6 [Hp6 _].
  apply goes_bind. eapply goes_mono; [by apply save_file_ok|]. intros ? s7 Hf. by apply goes_ret.
Qed.

Lemma run_again_ok n v s :
  progress n s -> w_len v = len ->
  goes (run_again c (init_count_class16 t0) mem v) s (fun r s' => progress n s' /\ w_len r.2 = len /\ quiet s s').
Proof.
  intros Hp Hl. unfold run_again. rewrite Hl, !write_run. apply goes_bind, goes_within. apply goes_bind.
  assert ((zlen input =? 0) = false) as -> by (apply Z.eqb_neq; rewrite zlen_input; lia). apply goes_ret.
  apply goes_bind. eapply goes_mono; [apply (goes_soft _ n s (fun tr => soft_run tr _ _) Hp)|]. intros f s1 [Hp1 Hq1].
  apply goes_bind. eapply goes_mono.
  { apply (goes_soft _ n s1 (fun tr => soft_if tr (w_classified v) _ _ (soft_ret tr tt) (soft_classify tr)) Hp1). }
  intros ? s2 [Hp2 Hq2]. apply goes_ret. split; [done|]. split; [apply zlen_input|exact (quiet_trans _ _ _ Hq1 Hq2)].
Qed.

Lemma left_nonneg tr s : save_wf tr s -> 0 <= left_in (virgin_tmout (v_cov s)).
Proof.
  intros Hw. destruct (wf_virgin _ (sw_cov _ _ _ _ Hw) VirginTmout) as [Hb _]. cbn in Hb. unfold left_in.
  induction Hb as [|x l Hx Hb IH]; cbn; [done|]. unfold in_width in Hx. lia.
Qed.

Lemma may_save_fault_ok fuel fault n v s :
  progress n s -> w_len v = len -> (0 < fuel)%nat ->
  (keep_timeouts c = true -> non_instrumented_mode (the_afl s0) = false /\
     left_in (virgin_tmout (v_cov s)) < Z.of_nat fuel) ->
  zlen (queue_buf (the_afl s)) + Z.of_nat fuel < 2 ^ 32 ->
  goes (may_save_fault c hash64 (init_count_class16 t0) fuel mem fault (kept n) v) s
    (fun r s' => exists n', final n' s' /\ r = kept n').
Proof.
  revert n v s. induction fuel as [|fuel IH]; intros n v s Hp Hl Hf0 Hterm Hroom; [lia|]. cbn [may_save_fault].
  destruct fault; try (apply goes_ret; exists n; split; [by apply progress_final|done]); [| |done].
  2:{ rewrite Hl. eapply goes_mono; [by apply keep_as_crash_ok|]. intros r s' [-> Hf]. by exists n. }
  apply goes_bind. eapply goes_mono; [apply (goes_soft _ n s (fun tr => soft_add64 tr _ _) Hp)|]. intros ? s1 [Hp1 Hq1].
  apply goes_bind. unfold goes at 1, gets. destruct (_ <=? _); [apply goes_ret; exists n; split; [by apply progress_final|done]|].
  apply goes_bind. eapply goes_mono; [by apply (unique_progress VirginTmout n)|]. intros new s2 [Hp2 Hl2].
  destruct new; cbn [negb]; [|apply goes_ret; exists n; split; [by apply progress_final|done]].
  destruct (_ <? _).
  2:{ rewrite Hl. eapply goes_mono; [by apply keep_as_hang_ok|]. intros r s' [-> Hf]. by exists n. }
  apply goes_bind. eapply goes_mono; [by apply (run_again_ok n)|]. intros [f v3] s3 (Hp3&Hl3&Hq3). cbn [snd] in Hl3.
  apply goes_bind. unfold goes at 1, gets. destruct (_ && _).
  { rewrite Hl3. eapply goes_mono; [by apply keep_as_crash_ok|]. intros r s' [-> Hf]. by exists n. }
  destruct (_ || _).
  2:{ rewrite Hl3. eapply goes_mono; [by apply keep_as_hang_ok|]. intros r s' [-> Hf]. by exists n. }
  destruct (keep_timeouts c) eqn:Ek; [|apply goes_ret; exists n; split; [by apply progress_final|done]].
  destruct (Hterm eq_refl) as [Hni Hfuel]. specialize (Hl2 eq_refl Hni eq_refl).
  apply goes_bind. eapply goes_mono; [apply (goes_soft _ n s3 (fun tr => soft_add64 tr _ _) Hp3)|]. intros ? s4 [Hp4 Hq4].
  pose proof (progress_length n s Hp) as L0. pose proof (progress_length n s4 Hp4) as L4.
  apply goes_bind. eapply goes_mono; [apply (save_to_queue_ok n); [done|unfold zlen in *; lia|done]|].
  intros v5 s5 (Hp5&Hl5&_&Hv5). pose proof (progress_length (S n) s5 Hp5) as L5.
  destruct (pg_wf _ _ Hp5) as (tr5&Hw5&_). pose proof (left_nonneg tr5 s5 Hw5) as Hnn.
  pose proof (qt_left _ _ Hq1). pose proof (qt_left _ _ Hq3). pose proof (qt_left _ _ Hq4).
  apply (IH (S n) v5 s5); [done|done| |intros _; split; [done|]|unfold zlen in *; lia]; rewrite Hv5 in *; lia.
Qed.

Lemma save_ok fuel fault :
  save_wf tr0 s0 -> (0 < fuel)%nat ->
  (keep_timeouts c = true -> non_instrumented_mode (the_afl s0) = false /\
     left_in (virgin_tmout (v_cov s0)) < Z.of_nat fuel) ->
  zlen (queue_buf (the_afl s0)) + Z.of_nat fuel < 2 ^ 32 - 1 ->
  goes (save_if_interesting c hash64 hash32 (init_count_class16 t0) fuel mem len fault) s0
    (fun r s' => exists n, final n s' /\ r = kept n).
Proof.
  intros Hw Hf0 Hterm Hroom. pose proof (progress_start Hw) as Hp. unfold save_if_interesting.
  rewrite (proj2 (Z.eqb_neq _ _)) by lia. apply goes_bind. unfold goes at 1, in_fast_schedules, gets.
  set (fast := _ && _). destruct (_ && _).
  { apply goes_bind. eapply goes_mono.
    { apply (goes_soft _ 0 s0); [|done]. intros tr. apply soft_if; [|apply soft_ret].
      apply soft_bind; [apply soft_frequency|]. intros k. apply soft_ret. }
    intros ? s1 [Hp1 _]. apply goes_ret. exists 0%nat. split; [by apply progress_final|done]. }
  apply goes_bind. eapply goes_mono; [apply (goes_soft _ 0 s0 (fun tr => soft_set_counter tr _ _) Hp)|]. intros ? s1 [Hp1 Hq1].
  apply goes_bind. eapply goes_mono.
  { apply (goes_soft _ 0 s1); [|done]. intros tr. apply soft_if; [apply soft_frequency|apply soft_ret]. }
  intros k s2 [Hp2 Hq2]. pose proof (quiet_trans _ _ _ Hq1 Hq2) as Hq12.
  set (v := SaveVars _ _ _ _ _ _ len). assert (w_len v = len) as Hl by done.
  assert (forall s v f n, progress n s -> w_len v = len -> (n <= 1)%nat -> left_in (virgin_tmout (v_cov s)) <= left_in (virgin_tmout (v_cov s0)) ->
    goes (may_save_fault c hash64 (init_count_class16 t0) fuel mem f (kept n) v) s
      (fun r s' => exists n', final n' s' /\ r = kept n')) as Hmay.
  { intros s' v' f n Hp' Hl' Hn Hle. pose proof (progress_length n s' Hp'). apply may_save_fault_ok; try done.
    - intros Hk. destruct (Hterm Hk). split; [done|lia].
    - unfold zlen in *. lia. }
  destruct (bool_decide (fault = crash_mode c)).
  2:{ apply (Hmay s2 v fault 0%nat); [done|done|lia|apply (qt_left _ _ Hq12)]. }
  destruct (pg_wf _ _ Hp2) as (tr2&Hw2&Htr2).
  apply goes_bind. eapply goes_mono; [by apply (sanitize_ok tr2)|]. intros v3 s3 (Hl3&Hw3&Hq3).
  apply goes_bind. eapply (goes_mono _ _ (fun v s' => w_len v = len /\ save_wf tr2 s' /\ quiet s3 s')).
  { destruct (bool_decide (san_mode c = COVERAGE_INCREASE) && w_feed v3).
    - apply goes_ret. split; [exact Hl3|]. split; [exact Hw3|apply quiet_refl].
    - pose proof (look_vars tr2 v3 s3 Hw3) as Hlk. by rewrite Hl3 in Hlk. }
  intros v4 s4 (Hl4&Hw4&Hq4). pose proof (quiet_trans _ _ _ Hq3 Hq4) as Hq34.
  assert (progress 0 s4) as Hp4 by (by eapply (progress_quiet 0 s2 s4 tr2)).
  pose proof (quiet_trans _ _ _ Hq12 Hq34) as Hq.
  destruct (_ =? 0).
  - destruct (bool_decide _).
    + apply goes_bind. eapply goes_mono.
      { apply (goes_soft _ 0 s4); [|done]. intros tr. apply soft_if; [apply soft_ret|apply soft_add64]. }
      intros ? s5 [Hp5 _]. apply goes_ret. exists 0%nat. split; [by apply progress_final|done].
    + apply goes_bind. eapply goes_mono; [apply (goes_soft _ 0 s4 (fun tr => soft_add_status tr _) Hp4)|]. intros ? s5 [Hp5 Hq5].
      pose proof (qt_left _ _ Hq). pose proof (qt_left _ _ Hq5). apply (Hmay s5 v4 _ 0%nat); [done|done|lia|lia].
  - pose proof (progress_length 0 s4 Hp4). apply goes_bind.
    eapply goes_mono; [apply (save_to_queue_ok 0); [done|unfold zlen in *; lia|done]|]. intros v5 s5 (Hp5&Hl5&_&Hv5).
    pose proof (qt_left _ _ Hq). apply (Hmay s5 v5 _ 1%nat); [done|done|lia|]. rewrite Hv5. done.
Qed.
End Progress.
End Input.
End Facts.
