(* ===== verification/SaveFatal.v ===== *)
(** * When saving an input ends the process

    [FATAL] is reached in [calibrate_case] and [save_if_interesting] only after a run that
    could not be done. *)

From S2P Require Import Prelude Res Coverage Rng TextCheck Queue Cache Tmin Stage Save.

Section Fatal.
Context {W : Type} `{Host W} (c : save_cfg).
Context (hash64 hash32 : list Z -> Z) (tbl : table16).

(** The target and the sanitizer binaries can always be executed. *)
Definition runs_work : Prop :=
  (forall w tm x, ret (h_run w tm x).1 <> FSRV_RUN_ERROR) /\
  (forall w i x, ret (h_san w i x).1 <> FSRV_RUN_ERROR).

(** [m] ends the process only if [F], and never leaves the function by a jump; its results have [P]. *)
Context (F : Prop).
Definition surely {A} (m : stage (save_st W) A) (P : A -> Prop) : Prop := forall s,
  match m s with
  | Next a _ => P a
  | OutOfBounds | Unfinished => True
  | Fatal => F
  | Abandon _ | Leave _ | NoRandom => False
  end.

Lemma surely_ret {A} (a : A) (P : A -> Prop) : P a -> surely (mret a) P.
Proof. by intros ? s. Qed.
Lemma surely_bind {A B} (m : stage (save_st W) A) (k : A -> stage (save_st W) B) P Q :
  surely m P -> (forall a, P a -> surely (k a) Q) -> surely (m ≫= k) Q.
Proof.
  intros Hm Hk s. specialize (Hm s). unfold mbind, stage_bind. destruct (m s) as [a s'| | | | | |]; try done. by apply Hk.
Qed.
(** The same for a first part whose result does not matter. *)
Lemma surely_then {A B} (m : stage (save_st W) A) (k : A -> stage (save_st W) B) Q :
  surely m (fun _ => True) -> (forall a, surely (k a) Q) -> surely (m ≫= k) Q.
Proof. intros Hm Hk. apply (surely_bind _ _ _ _ Hm). auto. Qed.
Lemma surely_mono {A} (m : stage (save_st W) A) (P Q : A -> Prop) : surely m P -> (forall a, P a -> Q a) -> surely m Q.
Proof. intros Hm Hq s. specialize (Hm s). destruct (m s); auto. Qed.

Lemma surely_gets {A} (f : save_st W -> A) : surely (gets f) (fun _ => True).
Proof. by intros s. Qed.
Lemma surely_modify f : surely (modify (W:=W) f) (fun _ => True).
Proof. by intros s. Qed.
Lemma surely_within {A} (o : option A) : surely (within o) (fun _ => True).
Proof. intros s. unfold within. by destruct o. Qed.
Lemma surely_on_cov {A} (f : cov_state -> option (A * cov_state)) : surely (on_cov f) (fun _ => True).
Proof. intros s. unfold on_cov. by destruct (f (v_cov s)) as [[]|]. Qed.
Lemma surely_time_ms : surely time_ms (fun _ => True).
Proof. intros s. unfold time_ms. by destruct (h_time _). Qed.
Lemma surely_time_us : surely time_us (fun _ => True).
Proof. intros s. unfold time_us. by destruct (h_time_us _). Qed.
Lemma surely_score q : surely (score q) (fun _ => True).
Proof. intros s. unfold score. by destruct (update_bitmap_score _ _ _). Qed.
Lemma surely_each {A} (l : list A) f : (forall x, surely (f x) (fun _ => True)) -> surely (each l f) (fun _ => True).
Proof. intros Hf. induction l as [|x l IH]; [by apply surely_ret|]. by apply surely_then. Qed.

Create HintDb surely.
#[local] Hint Resolve surely_gets surely_modify surely_within surely_on_cov surely_time_ms surely_time_us surely_score surely_each : surely.

(** Goes through a sequence of such operations. *)
Ltac surely :=
  repeat first
    [ progress intros
    | by apply surely_ret
    | solve [eauto with surely]
    | apply surely_each
    | apply surely_then
    | match goal with |- surely (if ?b then _ else _) _ => destruct b end
    | match goal with |- surely (match ?b with _ => _ end) _ => destruct b end ].

Lemma surely_add64 k n : surely (add64 (W:=W) k n) (fun _ => True).
Proof. unfold add64, set_counter. surely. Qed.
Lemma surely_add32 k n : surely (add32 (W:=W) k n) (fun _ => True).
Proof. unfold add32, set_counter. surely. Qed.
Lemma surely_update_time t : surely (update_calibration_time t) (fun _ => True).
Proof. unfold update_calibration_time, add64, set_counter. surely. Qed.
#[local] Hint Resolve surely_add64 surely_add32 surely_update_time : surely.

Lemma surely_compare q v : 0 < cv_max v -> surely (compare_trace c hash64 tbl q v) (fun v' => 0 < cv_max v').
Proof.
  intros Hv. unfold compare_trace, cal_of, set_cal, mark_var, classify, new_bits, cksum64. surely.
  apply surely_ret. cbn. by destruct (cal_fast c).
Qed.

(** ** Counting runs *)

(** A number that a run of the target raises by one at most, and nothing else raises. *)
Record counts_runs (n : W -> nat) : Prop := CountsRuns {
  cr_run : forall w tm x, (n (h_run w tm x).2 <= S (n w))%nat;
  cr_time : forall w, (n (h_time_us w).2 <= n w)%nat
}.

Section Cost.
Context (n : W -> nat) (Hn : counts_runs n).

(** [m] runs the target [k] times at most; its results have [P]. *)
Definition spends {A} (k : nat) (m : stage (save_st W) A) (P : A -> Prop) : Prop := forall s,
  match m s with Next a s' => (n (v_world s') <= k + n (v_world s))%nat /\ P a | _ => True end.

Lemma spends_ret {A} k (a : A) (P : A -> Prop) : P a -> spends k (mret a) P.
Proof. intros HP s. cbn. split; [lia|done]. Qed.
Lemma spends_bind {A B} j k (m : stage (save_st W) A) (f : A -> stage (save_st W) B) P Q :
  spends j m P -> (forall a, P a -> spends k (f a) Q) -> spends (j + k) (m ≫= f) Q.
Proof.
  intros Hm Hf s. specialize (Hm s). unfold mbind, stage_bind. destruct (m s) as [a s'| | | | | |]; try done. destruct Hm as [Hm HP].
  specialize (Hf a HP s'). destruct (f a s'); try done. destruct Hf. split; [lia|done].
Qed.
Lemma spends_then {A B} k (m : stage (save_st W) A) (f : A -> stage (save_st W) B) Q :
  spends 0 m (fun _ => True) -> (forall a, spends k (f a) Q) -> spends k (m ≫= f) Q.
Proof. intros Hm Hf. apply (spends_bind 0 k _ _ _ _ Hm). auto. Qed.
Lemma spends_le {A} j k (m : stage (save_st W) A) P : spends j m P -> (j <= k)%nat -> spends k m P.
Proof. intros Hm Hjk s. specialize (Hm s). destruct (m s); try done. destruct Hm. split; [lia|done]. Qed.

Lemma spends_gets {A} (f : save_st W -> A) : spends 0 (gets f) (fun _ => True).
Proof. by intros s. Qed.
Lemma spends_modify f : (forall s, v_world (f s) = v_world s) -> spends 0 (modify (W:=W) f) (fun _ => True).
Proof. intros Hf s. cbn. by rewrite Hf. Qed.
Lemma spends_within {A} (o : option A) : spends 0 (within o) (fun _ => True).
Proof. intros s. unfold within. by destruct o. Qed.
Lemma spends_on_cov {A} (f : cov_state -> option (A * cov_state)) : spends 0 (on_cov f) (fun _ => True).
Proof. intros s. unfold on_cov. by destruct (f (v_cov s)) as [[]|]. Qed.
Lemma spends_time_us : spends 0 time_us (fun _ => True).
Proof. intros s. unfold time_us. pose proof (cr_time _ Hn (v_world s)) as Ht. by destruct (h_time_us _). Qed.
Lemma spends_run tm x : spends 1 (run tm x) (fun _ => True).
Proof. intros s. unfold run. pose proof (cr_run _ Hn (v_world s) tm x) as Ht. by destruct (h_run _ _ _). Qed.
Lemma spends_score q : spends 0 (score q) (fun _ => True).
Proof. intros s. unfold score. by destruct (update_bitmap_score _ _ _). Qed.
Lemma spends_each {A} (l : list A) f : (forall x, spends 0 (f x) (fun _ => True)) -> spends 0 (each l f) (fun _ => True).
Proof. intros Hf. induction l as [|x l IH]; [by apply spends_ret|]. by apply spends_then. Qed.

#[local] Hint Resolve spends_gets spends_within spends_on_cov spends_time_us spends_score : surely.

Ltac spends :=
  repeat first
    [ progress intros
    | by apply spends_ret
    | solve [eauto with surely]
    | by apply spends_modify
    | apply spends_each
    | apply spends_then
    | done
    | match goal with |- spends _ (if ?b then _ else _) _ => destruct b end
    | match goal with |- spends _ (match ?b with _ => _ end) _ => destruct b end ].

Lemma spends_update_time t : spends 0 (update_calibration_time t) (fun _ => True).
Proof. unfold update_calibration_time, add64, set_counter. spends. Qed.
#[local] Hint Resolve spends_update_time : surely.

Lemma spends_compare q v : cv_max v <= 12 -> spends 0 (compare_trace c hash64 tbl q v) (fun v' => cv_max v' <= 12).
Proof.
  intros Hv. unfold compare_trace, cal_of, set_cal, mark_var, classify, new_bits, cksum64. spends.
  apply spends_ret. cbn. by destruct (cal_fast c).
Qed.
Lemma spends_judge f cur : spends 0 (judge c f cur) (fun _ => True).
Proof. unfold judge, instrumented, bytes_set. spends. Qed.
Lemma spends_stats q hc t v : spends 0 (cal_stats c q hc t v) (fun _ => True).
Proof. unfold cal_stats, set_queue_entry, set_cal, bytes_set, add64, set_counter. spends. Qed.
Lemma spends_cal_end q v f : spends 0 (cal_end q v f) (fun _ => True).
Proof. unfold cal_end, cal_of, set_cal, bytes_set, set_counter, add32, set_counter. spends. Qed.

Lemma spends_cal_loop fuel q mem tm : forall cur v, 0 <= cur -> cv_max v <= 12 ->
  spends (Z.to_nat (12 - cur)) (cal_loop c hash64 tbl fuel q mem tm cur v) (fun _ => True).
Proof.
  induction fuel as [|fuel IH]; intros cur v Hc Hv; [done|]. cbn [cal_loop]. destruct (cur <? cv_max v) eqn:E; b2p; [|by apply spends_ret].
  unfold queue_entry_of, write. apply spends_then; [spends|]. intros e. apply spends_then; [spends|]. intros x.
  replace (Z.to_nat (12 - cur)) with (1 + Z.to_nat (12 - (cur + 1)))%nat by lia.
  eapply spends_bind; [apply spends_run|]. intros f _. apply spends_then; [spends|]. intros t. cbv zeta.
  apply spends_then; [apply spends_judge|]. intros [g|]; [by apply spends_ret|].
  apply (spends_bind 0 _ _ _ (fun v' => cv_max v' <= 12)); [by apply spends_compare|]. intros v' Hv'. apply IH; [lia|done].
Qed.

(** Twelve runs, and the one before them with [cmplog_mode]. *)
Lemma spends_calibrate q mem hc fq :
  spends ((if cmplog_mode c then 1 else 0) + 12) (calibrate_case c hash64 tbl q mem hc fq) (fun _ => True).
Proof.
  unfold calibrate_case, cal_of, set_cal. apply spends_then; [spends|]. intros e. cbv zeta. apply spends_then; [spends|].
  intros t0. apply spends_then; [spends|]. intros _. apply spends_then; [spends|]. intros _.
  set (mx := if cal_fast c then CAL_CYCLES_FAST else CAL_CYCLES). assert (mx <= 12) by (unfold mx; by destruct (cal_fast c)).
  apply (spends_bind _ _ _ _ (fun _ => True)).
  { destruct (cmplog_mode c); [|by apply spends_ret]. unfold dummy_run, queue_entry_of, write. apply spends_then; [spends|]. intros e'.
    apply spends_then; [spends|]. intros x. apply (spends_bind 1 0 _ _ (fun _ => True)); [apply spends_run|]. intros f _. apply spends_judge. }
  intros [f|] _; [apply (spends_le 0); [apply spends_cal_end|lia]|]. apply spends_then; [spends|]. intros e'.
  apply spends_then; [unfold new_bits; spends|]. intros nb. apply spends_then; [spends|]. intros t.
  apply (spends_bind 12 0 _ _ (fun _ => True)); [by apply (spends_cal_loop 13 _ _ _ 0)|]. intros [[f'|] v] _; [apply spends_cal_end|].
  apply spends_then; [apply spends_stats|]. intros _. unfold instrumented. apply spends_then; [spends|]. intros i. apply spends_cal_end.
Qed.
End Cost.

Section Works.
(** A result that is an error only if some run was one. *)
Definition no_error (f : fsrv_run_result) : Prop := runs_work -> crash_mode c <> FSRV_RUN_ERROR -> f <> FSRV_RUN_ERROR.

Lemma surely_run tm x : surely (run tm x) no_error.
Proof. intros s. unfold run, no_error. destruct (h_run _ _ _) as [r w] eqn:E. intros [Hw _] _. pose proof (Hw (v_world s) tm x) as Hr. by rewrite E in Hr. Qed.
Lemma surely_run_san i x : surely (run_san i x) no_error.
Proof. intros s. unfold run_san, no_error. destruct (h_san _ _ _) as [r w] eqn:E. intros [_ Hw] _. pose proof (Hw (v_world s) i x) as Hr. by rewrite E in Hr. Qed.

Lemma surely_judge f cur : no_error f -> surely (judge c f cur) (fun o => forall g, o = Some g -> no_error g).
Proof.
  intros Hf. unfold judge, instrumented, bytes_set, no_error. surely; apply surely_ret; intros g Hg Hw Hm; repeat case_match; simplify_eq; auto.
Qed.

Lemma surely_cal_loop n q mem tm : forall cur v, 0 < cv_max v ->
  surely (cal_loop c hash64 tbl n q mem tm cur v) (fun '(o, v) => (forall g, o = Some g -> no_error g) /\ 0 < cv_max v).
Proof.
  induction n as [|n IH]; intros cur v Hv; [done|]. cbn [cal_loop]. destruct (cur <? cv_max v); [|by apply surely_ret].
  unfold queue_entry_of, write. apply surely_then; [surely|]. intros e. apply surely_then; [surely|]. intros x.
  eapply surely_bind; [apply surely_run|]. intros f Hf. apply surely_then; [surely|]. intros t. cbv zeta.
  eapply surely_bind; [by apply surely_judge|]. intros [g|] Hg; [by apply surely_ret|].
  eapply surely_bind; [by apply surely_compare|]. intros v' Hv'. by apply IH.
Qed.

Lemma surely_stats q hc t v : 0 < cv_max v -> surely (cal_stats c q hc t v) (fun _ => True).
Proof.
  intros Hv. unfold cal_stats, set_queue_entry, set_cal, bytes_set. rewrite (proj2 (Z.eqb_neq _ 0)) by lia. surely.
Qed.

Lemma surely_cal_end q v f : no_error f -> surely (cal_end q v f) no_error.
Proof. intros Hf. unfold cal_end, cal_of, set_cal, bytes_set, set_counter. surely. Qed.

(** [calibrate_case] never ends the process. *)
Lemma surely_calibrate q mem hc fq : surely (calibrate_case c hash64 tbl q mem hc fq) no_error.
Proof.
  unfold calibrate_case, cal_of, set_cal. apply surely_then; [surely|]. intros e. cbv zeta. apply surely_then; [surely|].
  intros t0. apply surely_then; [surely|]. intros _. apply surely_then; [surely|]. intros _.
  set (mx := if cal_fast c then CAL_CYCLES_FAST else CAL_CYCLES). assert (0 < mx) by (unfold mx; by destruct (cal_fast c)).
  eapply (surely_bind _ _ (fun o => forall g, o = Some g -> no_error g)).
  { destruct (cmplog_mode c); [|by apply surely_ret]. unfold dummy_run, queue_entry_of, write. apply surely_then; [surely|]. intros e'.
    apply surely_then; [surely|]. intros x. eapply surely_bind; [apply surely_run|]. intros f Hf. by apply surely_judge. }
  intros [f|] Hf; [by apply surely_cal_end, Hf|]. apply surely_then; [surely|]. intros e'.
  apply surely_then; [unfold new_bits; surely|]. intros nb. apply surely_then; [surely|]. intros t.
  eapply surely_bind; [by apply surely_cal_loop|]. intros [[f'|] v] [Hf' Hv]; [by apply surely_cal_end, Hf'|].
  apply surely_then; [by apply surely_stats|]. intros _. unfold instrumented. apply surely_then; [surely|]. intros i.
  apply surely_cal_end. intros _ Hm. by case_match.
Qed.

(** *** Saving *)

Context (HF : (runs_work -> crash_mode c <> FSRV_RUN_ERROR -> False) -> F).

Lemma no_error_F f : no_error f -> f = FSRV_RUN_ERROR -> F.
Proof. intros Hf ->. apply HF. intros Hw Hm. by apply (Hf Hw Hm). Qed.

(** Storing does not read a file. *)
Lemma bind_stays {A B} (m : res A) (k : A -> res B) : m <> Exit -> (forall a, k a <> Exit) -> (m ≫= k) <> Exit.
Proof. intros Hm Hk. unfold mbind, res_bind. by destruct m. Qed.
Lemma of_option_stays {A} (o : option A) : of_option o <> Exit.
Proof. by destruct o. Qed.
Lemma find_free_stays fuel slots : forall tid, find_free fuel slots tid <> Exit.
Proof.
  induction fuel as [|fuel IH]; intros tid; [done|]. cbn [find_free]. apply bind_stays; [apply of_option_stays|]. intros [?|]; [apply IH|done].
Qed.
Lemma store_mem_stays t q mem : queue_testcase_store_mem t q mem <> Exit.
Proof.
  unfold queue_testcase_store_mem, entry_of, register. apply bind_stays; [apply of_option_stays|]. intros e. cbv zeta. destruct (_ || _); [done|].
  apply bind_stays; [apply find_free_stays|]. intros tid. apply bind_stays; [apply of_option_stays|]. intros b.
  apply bind_stays; [apply of_option_stays|done].
Qed.
Lemma surely_store_mem q mem : surely (store_mem q mem) (fun _ => True).
Proof.
  unfold store_mem. apply surely_then; [surely|]. intros t. destruct (c_max_size t =? 0); [by apply surely_ret|].
  apply surely_then; [|intros; surely]. intros s. unfold of_res. pose proof (store_mem_stays t q mem). by destruct (queue_testcase_store_mem _ _ _).
Qed.

Lemma surely_save_to_queue mem v : surely (save_to_queue c hash64 tbl mem v) (fun v' => w_san_fault v' = w_san_fault v).
Proof.
  unfold save_to_queue. apply surely_then; [unfold enqueue; surely|]. intros q. apply surely_then; [unfold instrumented; surely|]. intros i.
  apply surely_then; [surely|]. intros m. apply surely_then; [surely|]. intros _. apply surely_then; [unfold set_cal; surely|]. intros _.
  apply surely_then; [unfold cksum64, set_cal; surely|]. intros _. apply surely_then; [unfold set_queue_entry; surely|]. intros _.
  eapply surely_bind; [apply surely_calibrate|]. intros res Hres. case_bool_decide; [intros s; by apply (no_error_F res)|].
  apply surely_then; [apply surely_store_mem|]. intros _. by apply surely_ret.
Qed.

Lemma surely_unique id : surely (unique_fault id) (fun _ => True).
Proof. unfold unique_fault, instrumented, simplify, new_bits. surely. Qed.
Lemma surely_crash mem len k : surely (keep_as_crash mem len k) (fun _ => True).
Proof.
  unfold keep_as_crash, set_counter, save_file. apply surely_then; [surely|]. intros _. apply surely_then; [surely|]. intros n.
  destruct (_ <=? _); [by apply surely_ret|]. apply surely_then; [apply surely_unique|]. surely.
Qed.
Lemma surely_hang mem len k : surely (keep_as_hang mem len k) (fun _ => True).
Proof. unfold keep_as_hang, set_counter, save_file. surely. Qed.
Lemma surely_again mem v : surely (run_again c tbl mem v) (fun _ => True).
Proof.
  unfold run_again, write. apply surely_then; [surely|]. intros x. apply surely_then; [surely|]. intros y.
  apply surely_then; [eapply surely_mono; [apply surely_run|done]|]. intros f. unfold classify. surely.
Qed.

Lemma surely_may_save fuel mem f : (f = FSRV_RUN_ERROR -> F) -> forall k v,
  surely (may_save_fault c hash64 tbl fuel mem f k v) (fun _ => True).
Proof.
  intros Hf. induction fuel as [|fuel IH]; intros k v; [done|]. cbn [may_save_fault].
  destruct f; try by apply surely_ret. 2: by apply surely_crash. 2: intros s; by apply Hf.
  apply surely_then; [surely|]. intros _. apply surely_then; [surely|]. intros n. destruct (_ <=? _); [by apply surely_ret|].
  apply surely_then; [apply surely_unique|]. intros new. destruct (negb new); [by apply surely_ret|].
  destruct (_ <? _); [|apply surely_hang]. apply surely_then; [apply surely_again|]. intros [f v']. apply surely_then; [surely|]. intros stop.
  destruct (_ && _); [apply surely_crash|]. destruct (_ || _); [|apply surely_hang]. destruct (keep_timeouts c); [|by apply surely_ret].
  apply surely_then; [surely|]. intros _. apply surely_then; [eapply surely_mono; [apply surely_save_to_queue|done]|]. intros v''. apply IH.
Qed.

Lemma surely_sanitizers l mem : forall len, surely (run_sanitizers c l mem len) (fun '(f, _) => no_error f).
Proof.
  induction l as [|i l IH]; intros len; [by apply surely_ret|]. cbn [run_sanitizers]. unfold write. apply surely_then; [surely|]. intros x.
  eapply surely_bind; [apply surely_run_san|]. intros f Hf. apply surely_then; [unfold add_status, set_counter; surely|]. intros _.
  destruct (bool_decide _); [by apply surely_ret|]. apply IH.
Qed.

Lemma surely_look v : surely (look tbl v) (fun v' => w_san_fault v' = w_san_fault v).
Proof. unfold look, new_bits, new_bits_unclassified. apply surely_then; [surely|]. intros n. by apply surely_ret. Qed.

Lemma surely_choose v : surely (choose_sanitizers c hash32 tbl v) (fun v' => w_san_fault v' = w_san_fault v).
Proof.
  unfold choose_sanitizers. destruct (_ =? _); [by apply surely_ret|]. destruct (san_mode c); try (unfold classify; surely; fail).
  eapply surely_bind; [apply surely_look|]. intros v' Hv'. apply surely_ret. by case_match.
Qed.

Lemma surely_sanitize mem v : no_error (w_san_fault v) ->
  surely (sanitize c hash32 tbl mem v) (fun v' => no_error (w_san_fault v')).
Proof.
  intros Hv. unfold sanitize. eapply surely_bind; [apply surely_choose|]. intros v' Hv'. destruct (w_feed v'); [|apply surely_ret; by rewrite Hv'].
  eapply surely_bind; [apply surely_sanitizers|]. intros [f len] Hf. by apply surely_ret.
Qed.

Lemma surely_save fuel mem len f : (f = FSRV_RUN_ERROR -> F) ->
  surely (save_if_interesting c hash64 hash32 tbl fuel mem len f) (fun _ => True).
Proof.
  intros Hf. unfold save_if_interesting, in_fast_schedules. destruct (len =? 0); [by apply surely_ret|]. apply surely_then; [surely|]. intros fast.
  assert (surely (update_frequency hash64 tbl) (fun _ => True)) as Hu.
  { unfold update_frequency, classify, cksum64, count_path. surely. }
  destruct (_ && _); [surely|]. apply surely_then; [unfold set_counter; surely|]. intros _. apply surely_then; [surely|]. intros k. cbv zeta.
  destruct (bool_decide (f = crash_mode c)); [|by apply surely_may_save].
  eapply surely_bind; [by apply surely_sanitize|]. intros v Hv.
  eapply (surely_bind _ _ (fun v => no_error (w_san_fault v))).
  { destruct (_ && _); [by apply surely_ret|]. eapply surely_mono; [apply surely_look|]. intros v' E. by rewrite E. }
  intros v' Hv'. destruct (_ =? 0).
  - destruct (bool_decide _); [surely|]. apply surely_then; [unfold add_status, set_counter; surely|]. intros _. by apply surely_may_save, no_error_F.
  - eapply surely_bind; [apply surely_save_to_queue|]. intros v'' E. apply surely_may_save. rewrite E. by apply no_error_F.
Qed.
End Works.
End Fatal.
