(* ===== verification/SaveMain.v ===== *)
(** * What is kept: the theorems *)

From S2P Require Import Prelude Res Coverage Rng CoverageFacts CountFacts TextCheck Queue QueueFacts Cache CacheFacts CacheMain Tmin Stage StageFacts Save CalFacts SaveFacts SaveFatal.

Section Facts.
Context {W : Type} `{Host W} (c : save_cfg).
Context (hash64 hash32 : list Z -> Z) (t0 : table16) (N : Z).
Context (Hhost : host_ok N).
Context (Hh64 : forall x, is_u64 (hash64 x)) (Hh32 : forall x, is_u32 (hash32 x)).
Implicit Type s : save_st W.

Abbreviation save_wf := (save_wf c N).
Abbreviation tbl := (init_count_class16 t0).

(** ** Decisions *)

(** No bit of the trace [t] is still in the map [v]. *)
Definition nothing_new (n : nat) (t v : list Z) : Prop := forall i x y,
  (i < n)%nat -> t !! i = Some x -> v !! i = Some y -> Z.land x y = 0.

Definition scan s : nat := scanned 3 (v_cov s).

Lemma new_bits_value id s tr :
  save_wf tr s -> goes (new_bits id) s (fun r s' =>
    (r = 0 <-> nothing_new (scan s) (the_trace s) (virgin_of (v_cov s) id)) /\
    (r = 0 -> forall id', virgin_of (v_cov s') id' = virgin_of (v_cov s) id')).
Proof.
  intros Hw. destruct (has_new_bits_spec 3 id (v_cov s) (or_intror eq_refl) (sw_cov _ _ _ _ Hw))
    as (_&r&a'&E&_&_&_&H0&_).
  destruct (new_bits_run c N tr (fun _ => True) id s) as (r2&a2&E2&_&_&_&_&_&Hv&_&Hsame&_); [by split|].
  rewrite E in E2. injection E2 as <- <-. unfold goes, new_bits, on_cov. rewrite E. split; [exact H0|].
  intros Hr id'. cbn. destruct (decide (id' = id)) as [->|Hne]; [by apply Hsame|by apply Hv].
Qed.

(** The look at [virgin_bits]; [t] is the classified trace. *)
Lemma look_value v s tr :
  save_wf tr s ->
  let t := if w_classified v then the_trace s else map count_class_lookup8 (the_trace s) in
  goes (look tbl v) s (fun v' s' =>
    (w_new_bits v' = 0 <-> nothing_new (scan s) t (virgin_bits (v_cov s))) /\
    (w_new_bits v' = 0 -> forall id', virgin_of (v_cov s') id' = virgin_of (v_cov s) id') /\
    w_san_fault v' = w_san_fault v).
Proof.
  intros Hw t. unfold look. apply goes_bind. destruct (w_classified v) eqn:Ec.
  - eapply goes_mono; [by apply (new_bits_value VirginBits s tr)|]. intros r s' Hr. apply goes_ret. by split; [apply Hr|split; [apply Hr|]].
  - unfold new_bits_unclassified, goes, on_cov.
    destruct (has_new_bits_unclassified_run 3 t0 VirginBits (v_cov s) (or_intror eq_refl) (sw_cov _ _ _ _ Hw))
      as (t'&r&b&a'&Hc&Hb&->&Hva&_&_).
    destruct (size_of c N tr s Hw) as (HN&Hmod&Htb&Htz).
    rewrite (sw_size _ _ _ _ Hw), classify_counts_run in Hc by (first [by right|lia|done]). injection Hc as <-.
    assert (save_wf tr (with_cov (Coverage.set_trace t (v_cov s)) s)) as Hw1.
    { destruct (trace_ok c N 0 tr _ (trivial_ext 0) t s) as [[? _] _]; [by split|apply map_class_bytes_ok| |done].
      unfold t, zlen in *. by rewrite length_map. }
    pose proof (new_bits_value VirginBits _ tr Hw1) as Hnb. unfold goes, new_bits, on_cov in Hnb. cbn [v_cov with_cov] in Hnb.
    unfold t in Hnb. fold (the_trace s) in Hb. rewrite Hb in Hnb. destruct Hnb as [H1 H2]. cbn. split; [exact H1|]. split; [|done].
    intros Hr id'. rewrite Hva. specialize (H2 Hr id'). cbn in H2. rewrite H2. by rewrite virgin_of_set_trace.
Qed.

(** The frequency of the path is counted; the trace is classified in passing. *)
Lemma frequency_value s tr :
  save_wf tr s -> goes (update_frequency hash64 tbl) s (fun _ s' =>
    the_trace s' = map count_class_lookup8 (the_trace s) /\ scan s' = scan s /\ v_count s' = v_count s /\
    forall id, virgin_of (v_cov s') id = virgin_of (v_cov s) id).
Proof.
  intros Hw. unfold update_frequency. destruct (size_of c N tr s Hw) as (HN&Hmod&Htb&Htz).
  apply goes_bind. unfold goes at 1, classify, on_cov. fold (the_trace s).
  rewrite (sw_size _ _ _ _ Hw), classify_counts_run by (first [by right|lia|done]). cbn [mbind option_bind].
  set (s1 := with_cov _ s).
  assert (save_wf tr s1) as Hw1.
  { destruct (trace_ok c N 0 tr _ (trivial_ext 0) (map count_class_lookup8 (the_trace s)) s) as [[? _] _];
      [by split|apply map_class_bytes_ok| |done]. unfold zlen in *. by rewrite length_map. }
  apply goes_bind. unfold goes at 1, cksum64, gets. set (k := hash64 _). pose proof (sw_n_fuzz _ _ _ _ Hw1) as Hz.
  pose proof (path_index k). apply goes_bind. unfold count_path. apply goes_bind. unfold goes at 1, gets.
  destruct (get_Some (n_fuzz (the_afl s1)) (k mod N_FUZZ_SIZE)) as [v ->]; [lia|]. apply goes_bind, goes_within.
  assert (the_trace s1 = map count_class_lookup8 (the_trace s) /\ scan s1 = scan s /\ v_count s1 = v_count s /\
    forall id, virgin_of (v_cov s1) id = virgin_of (v_cov s) id) as Hs1.
  { split_and!; [done..|]. intros id. apply virgin_of_set_trace. }
  destruct (v <? _); [|by apply goes_ret]. rewrite put_Some by lia. apply goes_bind, goes_within. exact Hs1.
Qed.

Section Normal.
Context (mem : list Z) (len : Z) (Hlen : 0 < len <= MAX_FILE) (Hmem : len <= zlen mem).
Context (Hmin : min_length c <= len) (Hmax : len <= max_length c).

Lemma kept_run fuel tr s :
  save_wf tr s -> san_binary_length c = 0 -> crash_mode c <> FSRV_RUN_TMOUT -> (0 < fuel)%nat ->
  zlen (queue_buf (the_afl s)) < 2 ^ 32 - 1 ->
  goes (save_if_interesting c hash64 hash32 tbl fuel mem len (crash_mode c)) s (fun r s' =>
    (r = false <-> nothing_new (scan s) (map count_class_lookup8 (the_trace s)) (virgin_bits (v_cov s))) /\
    q_len <$> queue_buf (the_afl s') = (q_len <$> queue_buf (the_afl s)) ++ (if r then [len] else []) /\
    c_file <$> c_queue (v_cache s') = (c_file <$> c_queue (v_cache s)) ++ (if r then [slice mem 0 len] else []) /\
    v_files s' = v_files s /\
    (r = false -> forall id, virgin_of (v_cov s') id = virgin_of (v_cov s) id)).
Proof.
  intros Hw Hsan Hcm Hf Hroom. pose proof (progress_start c N mem len tr s Hw) as Hp. unfold save_if_interesting.
  rewrite (proj2 (Z.eqb_neq _ _)) by lia. apply goes_bind. unfold goes at 1, in_fast_schedules, gets.
  set (fast := (FAST <=? _) && _). rewrite (bool_decide_eq_false_2 (crash_mode c = FSRV_RUN_TMOUT)) by done. cbn [andb].
  apply goes_bind. eapply goes_mono.
  { apply (goes_and _ _ _ (fun _ s' => v_cov s' = v_cov s)
      (goes_soft c N mem len tr s _ 0 s (fun tr => soft_set_counter c N tr _ _) Hp)). done. }
  intros ? s1 [[Hp1 _] Hc1]. destruct (pg_wf _ _ _ _ _ _ _ _ Hp1) as (tr1&Hw1&Htr1). apply goes_bind.
  eapply (goes_mono _ _ (fun _ s' => progress c N mem len tr s 0 s' /\ scan s' = scan s /\
    (if fast then the_trace s' else map count_class_lookup8 (the_trace s')) = map count_class_lookup8 (the_trace s) /\
    forall id, virgin_of (v_cov s') id = virgin_of (v_cov s) id)).
  { unfold scan, the_trace. rewrite <- Hc1. destruct fast; [|by apply goes_ret].
    eapply goes_mono; [apply goes_and; [apply (goes_soft c N mem len tr s _ 0 s1 (soft_frequency c hash64 t0 N) Hp1)
      |apply (frequency_value s1 tr1 Hw1)]|]. intros k s2 [[Hp2 _] (?&?&_&?)]. done. }
  intros k s2 (Hp2&Hsc&Ht&Hv). rewrite bool_decide_eq_true_2 by done.
  destruct (pg_wf _ _ _ _ _ _ _ _ Hp2) as (tr2&Hw2&Htr2).
  set (v := SaveVars _ _ _ _ _ _ len). apply goes_bind. unfold sanitize. apply goes_bind. unfold choose_sanitizers.
  rewrite Hsan. cbn [Z.eqb]. apply goes_ret. cbn [w_feed v]. apply goes_ret. rewrite andb_false_r. apply goes_bind.
  pose proof (look_value v s2 tr2 Hw2) as Hlook. cbn [w_classified v] in Hlook. rewrite Hsc, Ht in Hlook.
  change (virgin_bits (v_cov s2)) with (virgin_of (v_cov s2) VirginBits) in Hlook. rewrite (Hv VirginBits) in Hlook.
  eapply goes_mono; [apply goes_and; [exact Hlook|apply (look_vars c t0 N tr2 v s2 Hw2)]|].
  intros v3 s3 [(Hz&Hsame&Hsf) (Hl3&Hw3&Hq3)].
  assert (progress c N mem len tr s 0 s3) as Hp3 by (by eapply (progress_quiet c N mem len tr s 0 s2 s3 tr2)).
  rewrite Hsf. cbn [w_san_fault v]. destruct (w_new_bits v3 =? 0) eqn:Ez; b2p.
  - rewrite bool_decide_eq_true_2 by done. apply goes_bind. eapply (goes_mono _ _ (fun _ s' => progress c N mem len tr s 0 s' /\ v_cov s' = v_cov s3)).
    { destruct (bool_decide _); [by apply goes_ret|].
      eapply goes_mono; [apply (goes_and _ _ _ (fun _ s' => v_cov s' = v_cov s3)
        (goes_soft c N mem len tr s _ 0 s3 (fun tr => soft_add64 c N tr _ _) Hp3)); done|].
      intros ? s4 [[? _] ?]. done. }
    intros ? s4 [[_ P2 P3 P4 P5] Hc4]. apply goes_ret. split; [tauto|]. split_and!; [by rewrite P2|by rewrite P3|done|].
    intros _ id. rewrite Hc4, (Hsame Ez). apply Hv.
  - pose proof (progress_length _ _ _ _ _ _ _ _ Hp3) as L3. apply goes_bind. eapply goes_mono.
    { eapply save_to_queue_ok; [done..|exact Hp3|unfold zlen in *; lia|exact Hl3]. }
    intros v4 s4 ([_ P2 P3 P4 P5]&_&Hsf4&_). rewrite Hsf4, Hsf. cbn [w_san_fault v].
    destruct fuel as [|fuel]; [lia|]. cbn [may_save_fault]. apply goes_ret. split; [split; [done|tauto]|].
    by split_and!.
Qed.

(** C5. A run that ends the way the fuzzer is looking for, without sanitizer binaries: the
    input is kept exactly when the classified trace has a bit that [virgin_bits] still has,
    under every schedule, and whether the trace was classified before or is looked at raw.
    A kept input becomes one new entry at the end of the queue, of its length and with its
    bytes in the file; otherwise queue, files and virgin maps stay as they are. *)
Theorem kept_iff_new fuel tr s :
  save_wf tr s -> san_binary_length c = 0 -> crash_mode c <> FSRV_RUN_TMOUT -> (0 < fuel)%nat ->
  zlen (queue_buf (the_afl s)) < 2 ^ 32 - 1 ->
  goes (save_if_interesting c hash64 hash32 tbl fuel mem len (crash_mode c)) s (fun r s' =>
    (r = false <-> nothing_new (scan s) (map count_class_lookup8 (the_trace s)) (virgin_bits (v_cov s))) /\
    q_len <$> queue_buf (the_afl s') = (q_len <$> queue_buf (the_afl s)) ++ (if r then [len] else []) /\
    c_file <$> c_queue (v_cache s') = (c_file <$> c_queue (v_cache s)) ++ (if r then [slice mem 0 len] else []) /\
    v_files s' = v_files s /\
    (r = false -> forall id, virgin_of (v_cov s') id = virgin_of (v_cov s) id)).
Proof. apply kept_run. Qed.

Lemma simplify_classified x : is_u8 x -> simplify_lookup (count_class_lookup8 x) = simplify_lookup x.
Proof. unfold in_width, count_class_lookup8, simplify_lookup. intros Hx. repeat (case_match; b2p); done || lia. Qed.

(** [T] is the raw trace or the classified one. *)
Lemma simplify_either l (b : bool) :
  bytes_ok l -> map simplify_lookup (if b then map count_class_lookup8 l else l) = map simplify_lookup l.
Proof.
  intros Hl. destruct b; [|done]. rewrite map_map. induction Hl as [|x l Hx Hl IH]; [done|]. cbn.
  by rewrite simplify_classified, IH.
Qed.

Lemma unique_value id s tr :
  save_wf tr s -> id <> VirginBits ->
  goes (unique_fault id) s (fun b s' => (b = false <-> non_instrumented_mode (the_afl s) = false /\
    nothing_new (scan s) (map simplify_lookup (the_trace s)) (virgin_of (v_cov s) id)) /\
    v_count s' = v_count s /\ v_files s' = v_files s).
Proof.
  intros Hw Hid. unfold unique_fault. apply goes_bind. unfold goes at 1, instrumented, gets.
  destruct (non_instrumented_mode _) eqn:En; cbn [negb]; [apply goes_ret; split; [split; [done|by intros [? _]]|done]|].
  apply goes_bind. eapply goes_mono; [apply goes_and; [apply (soft_simplify c N tr s Hw)|]|].
  { instantiate (1 := fun _ s' => v_count s' = v_count s /\ v_files s' = v_files s).
    unfold goes, simplify, on_cov. destruct (_ ≫= _) as [[[] ?]|] eqn:E; [done|].
    destruct (size_of c N tr s Hw) as (HN&Hmod&Htb&Htz). fold (the_trace s) in E.
    rewrite (sw_size _ _ _ _ Hw), simplify_trace_run in E by (first [by right|lia|done]). done. }
  intros ? s1 [(Hw1&_&Hc1&_) [Hk1 Hf1]]. apply goes_bind.
  eapply goes_mono; [apply goes_and; [apply (new_bits_value id s1 tr Hw1)|]|].
  { instantiate (1 := fun _ s' => v_count s' = v_count s1 /\ v_files s' = v_files s1).
    unfold goes, new_bits, on_cov. destruct (new_bits_run c N tr (fun _ => True) id s1) as (r&a'&->&_); [by split|done]. }
  intros r s2 [[H0 _] [Hk2 Hf2]]. apply goes_ret. unfold scan, the_trace in *. rewrite Hc1 in H0. cbn in H0.
  rewrite virgin_of_set_trace in H0. split; [|split; congruence].
  rewrite negb_false_iff, Z.eqb_eq. split; [intros E; split; [done|by apply H0]|intros [_ E]; by apply H0].
Qed.

(** A crash, with the trace of the run: what is decided in [keep_as_crash]. *)
Lemma crash_value b s tr :
  save_wf tr s ->
  goes (keep_as_crash mem len b) s (fun r s' => r = b /\
    v_count s' total_crashes = u64 (v_count s total_crashes + 1) /\
    exists saved : bool, v_files s' = v_files s ++ (if saved then [(Crash, slice mem 0 len)] else []) /\
      v_count s' saved_crashes = (if saved then u64 (v_count s saved_crashes + 1) else v_count s saved_crashes) /\
      (saved = false <-> KEEP_UNIQUE_CRASH <= v_count s saved_crashes \/
         (non_instrumented_mode (the_afl s) = false /\
          nothing_new (scan s) (map simplify_lookup (the_trace s)) (virgin_crash (v_cov s))))).
Proof.
  intros Hw. unfold keep_as_crash. apply goes_bind, goes_add64. set (s1 := add_counter _ _ s).
  assert (save_wf tr s1) as Hw1 by (subst s1; destruct Hw; by constructor).
  apply goes_bind. unfold goes at 1, gets. change (v_count s1 saved_crashes) with (v_count s saved_crashes).
  destruct (KEEP_UNIQUE_CRASH <=? v_count s saved_crashes) eqn:Ek; b2p.
  { apply goes_ret. split; [done|]. split; [done|]. exists false. rewrite app_nil_r. split_and!; [done|done|]. split; [by left|done]. }
  apply goes_bind. eapply goes_mono; [by apply (unique_value VirginCrash s1 tr)|]. intros new s2 (Hnew&Hk2&Hf2).
  destruct new; cbn [negb].
  - apply goes_bind, goes_add64. apply goes_bind. unfold goes at 1, time_ms. destruct (h_time _) as [t w].
    apply goes_bind. unfold goes at 1, set_counter, modify. apply goes_bind. unfold goes at 1, gets.
    apply goes_bind. unfold goes at 1, set_counter, modify. apply goes_bind. unfold save_file.
    rewrite load_Some by lia. apply goes_bind, goes_within. unfold goes at 1, modify. apply goes_ret. cbn. rewrite Hk2, Hf2. cbn.
    split; [done|]. split; [done|]. exists true. split_and!; [done|done|]. split; [done|].
    intros [?|?]; [lia|]. by apply Hnew in H0.
  - apply goes_ret. rewrite Hk2, Hf2. split; [done|]. split; [done|]. exists false. rewrite app_nil_r. split_and!; [done|done|].
    split; [intros _; right; by apply Hnew|done].
Qed.

(** C18. A run that crashes when the fuzzer is not looking for crashes: it is counted, the
    queue stays as it is, and the input is written to the crashes exactly when there are
    fewer than [KEEP_UNIQUE_CRASH] and, with instrumentation, the simplified trace has a bit
    that [virgin_crash] still has.  It makes no difference whether the trace was classified
    before, as it is under the schedules that count paths. *)
Theorem crash_saved_iff_new fuel tr s :
  save_wf tr s -> crash_mode c <> FSRV_RUN_CRASH -> (0 < fuel)%nat ->
  goes (save_if_interesting c hash64 hash32 tbl fuel mem len FSRV_RUN_CRASH) s (fun r s' => r = false /\
    v_count s' total_crashes = u64 (v_count s total_crashes + 1) /\
    q_len <$> queue_buf (the_afl s') = q_len <$> queue_buf (the_afl s) /\
    exists saved : bool, v_files s' = v_files s ++ (if saved then [(Crash, slice mem 0 len)] else []) /\
      v_count s' saved_crashes = (if saved then u64 (v_count s saved_crashes + 1) else v_count s saved_crashes) /\
      (saved = false <-> KEEP_UNIQUE_CRASH <= v_count s saved_crashes \/
         (non_instrumented_mode (the_afl s) = false /\
          nothing_new (scan s) (map simplify_lookup (the_trace s)) (virgin_crash (v_cov s))))).
Proof.
  intros Hw Hcm Hf. pose proof (progress_start c N mem len tr s Hw) as Hp. unfold save_if_interesting.
  rewrite (proj2 (Z.eqb_neq _ _)) by lia. apply goes_bind. unfold goes at 1, in_fast_schedules, gets.
  set (fast := (FAST <=? _) && _). rewrite (bool_decide_eq_false_2 (FSRV_RUN_CRASH = FSRV_RUN_TMOUT)) by done. cbn [andb].
  apply goes_bind. unfold goes at 1, set_counter, modify. set (s1 := with_count _ s).
  assert (save_wf tr s1) as Hw1 by (subst s1; destruct Hw; by constructor).
  apply goes_bind. eapply (goes_mono _ _ (fun _ s' => save_wf tr s' /\ quiet s1 s' /\ v_count s' = v_count s1 /\
    scan s' = scan s1 /\ the_trace s' = (if fast then map count_class_lookup8 (the_trace s1) else the_trace s1) /\
    forall id, virgin_of (v_cov s') id = virgin_of (v_cov s1) id)).
  { destruct fast; [|apply goes_ret; split; [done|split; [apply quiet_refl|done]]].
    eapply goes_mono; [apply goes_and; [apply (soft_frequency c hash64 t0 N tr s1 Hw1)|
      apply (frequency_value s1 tr Hw1)]|].
    intros k s2 [[? ?] (?&?&?&?)]. done. }
  intros k s2 (Hw2&Hq2&Hk2&Hsc2&Ht2&Hv2). rewrite bool_decide_eq_false_2 by done.
  destruct fuel as [|fuel]; [lia|]. cbn [may_save_fault w_len].
  eapply goes_mono; [apply goes_and; [apply (crash_value false s2 tr Hw2)|]|].
  { apply (keep_as_crash_ok c N mem len Hlen Hmem tr s2 0 false s2). by apply progress_start. }
  intros r s3 [(Hr&Htot&saved&Hfi&Hsv&Hdec) (_&Hfin&_)]. split; [done|]. split; [by rewrite Htot, Hk2|].
  split.
  { pose proof (pg_lens _ _ _ _ _ _ _ _ Hfin) as E. rewrite app_nil_r in E.
    etransitivity; [exact E|apply (qt_lens _ _ Hq2)]. }
  exists saved. pose proof (qt_files _ _ Hq2) as Hqf. pose proof (qt_mode _ _ Hq2) as Hqm.
  pose proof (Hv2 VirginCrash) as Hvc. cbn in Hvc. rewrite Hfi, Hqf, Hsv, Hk2. split_and!; [done|done|].
  rewrite Hdec, Hk2, Hqm, Hsc2, Ht2, simplify_either, Hvc; [done|]. by destruct (size_of c N tr s1 Hw1) as (_&_&?&_).
Qed.

(** C4. [save_if_interesting] for any result of the run, with or without sanitizer
    binaries, on an input of at most [MAX_FILE] bytes that was written as it is: no access
    leaves a map, the queue or the cache, and the loop that queues inputs which time out
    ends before the values in [virgin_tmout] are used up, provided that the target is
    instrumented whenever timeouts are kept.  It returns, unless the result of the run is
    [FSRV_RUN_ERROR] or a run of the target or of a sanitizer binary cannot be done: then it
    may end the process with [FATAL].  When it returns, the invariant holds again, with the scores of the earlier entries for the same traces;
    the queue has [n] more entries at its end, all with the input as their file, the result
    says whether [n] is positive, and at most one other file was written, with the input. *)
Theorem save_correct fuel fault tr s :
  save_wf tr s -> (0 < fuel)%nat ->
  (keep_timeouts c = true -> non_instrumented_mode (the_afl s) = false /\
     left_in (virgin_tmout (v_cov s)) < Z.of_nat fuel) ->
  zlen (queue_buf (the_afl s)) + Z.of_nat fuel < 2 ^ 32 - 1 ->
  match save_if_interesting c hash64 hash32 tbl fuel mem len fault s with
  | Next r s' =>
      exists n tr', save_wf tr' s' /\ (forall w, (w < length (queue_buf (the_afl s)))%nat -> tr' w = tr w) /\
        q_len <$> queue_buf (the_afl s') = (q_len <$> queue_buf (the_afl s)) ++ replicate n len /\
        c_file <$> c_queue (v_cache s') = (c_file <$> c_queue (v_cache s)) ++ replicate n (slice mem 0 len) /\
        r = (0 <? n)%nat /\
        (v_files s' = v_files s \/ exists k, v_files s' = v_files s ++ [(k, slice mem 0 len)])
  | Fatal => runs_work -> crash_mode c <> FSRV_RUN_ERROR -> fault = FSRV_RUN_ERROR
  | Abandon _ | Leave _ | OutOfBounds | NoRandom | Unfinished => False
  end.
Proof.
  intros Hw Hf Hterm Hroom. pose proof (save_ok c hash64 hash32 t0 N Hhost Hh32 mem len Hlen Hmem Hmin Hmax tr s fuel fault Hw Hf Hterm Hroom) as Hok.
  pose proof (surely_save c hash64 hash32 tbl (runs_work -> crash_mode c <> FSRV_RUN_ERROR -> fault = FSRV_RUN_ERROR)
    ltac:(intros Hno Hr Hm; by destruct (Hno Hr Hm)) fuel mem len fault ltac:(done) s) as Hret. unfold goes in Hok.
  destruct (save_if_interesting _ _ _ _ _ _ _ _ s) as [r s'| | | | | |]; try done.
  destruct Hok as (n&[[(tr'&Hw'&Htr) P2 P3 P4 P5] Hfi]&->). exists n, tr'. split; [|by split_and!]. destruct Hw'. by constructor.
Qed.
End Normal.

End Facts.

(** ** Examples *)

(** A target whose trace has one byte, at the position that the first byte of the input
    says; it counts its runs. *)
Definition ex_trace (x : list Z) : list Z :=
  <[Z.to_nat (default 0 (head x) mod 64) := 1]> (replicate 64 0).

#[local] Instance ex_host : Host Z := {
  h_run w _ x := (ExecResult FSRV_RUN_OK false (ex_trace x) false, w + 1);
  h_san w _ _ := (ExecResult FSRV_RUN_OK false [] false, w);
  h_total_execs w := w;
  h_skip_requested _ := false;
  h_clear_skip w := w;
  h_time w := (w, w);
  h_time_us w := (7 * w, w)
}.

Definition ex_hash (l : list Z) : Z := foldr (fun x n => (31 * n + x + 1) mod 2 ^ 32) 0 l.

Definition ex_cfg : save_cfg :=
  SaveCfg FSRV_RUN_OK 1000 2000 1 MAX_FILE false false false 0 1 false false false 0 SIMPLIFY_TRACE.

(** A queue of [n] entries that were never run, with everything still to be found; [nf] is
    [n_fuzz], and the trace is that of the input [x]. *)
Definition ex_afl (n : nat) (nf : list Z) : afl :=
  Afl (replicate n (new_entry 2 1 0 false false None)) (Z.of_nat n) (replicate 64 None) (replicate 64 0) 64
    EXPLORE false nf false false false (replicate 8 0) 0 0 0 false.
Definition ex_cache (n : nat) : cache_st :=
  CacheSt (replicate n (CEntry 2 [5; 6] false None)) (replicate 4 None) 1000 4 0 0 0 0 0 0 false [] [].
Definition ex_cov (x : list Z) : cov_state :=
  CovState 64 64 (ex_trace x) (replicate 64 255) (replicate 64 255) (replicate 64 255) false.
Definition ex_st (n : nat) (nf x : list Z) : save_st Z :=
  SaveSt 0 false (ex_cov x) (Corpus (ex_afl n nf) None None None 0 0 0 0 0 0 0 0 0)
    (replicate n (CalEntry 0 0 0 0 false false)) (ex_cache n)
    (replicate 64 0) (replicate 64 0) [] [] false (fun _ => 0) [].

(** The input is queued, its edge has a winner; the second time nothing is new. *)
Example ex_save :
  match save_if_interesting ex_cfg ex_hash ex_hash (init_count_class16 (fun _ => 0)) 1 [5; 6] 2 FSRV_RUN_OK (ex_st 0 [0] [5; 6]) with
  | Next true s =>
      length (queue_buf (the_afl s)) = 1%nat /\ top_rated (the_afl s) !! 5%nat = Some (Some 0%nat) /\
      v_world s = 7 /\ virgin_bits (v_cov s) !! 5%nat = Some 254 /\
      match save_if_interesting ex_cfg ex_hash ex_hash (init_count_class16 (fun _ => 0)) 1 [5; 6] 2 FSRV_RUN_OK s with
      | Next b s' => b = false /\ length (queue_buf (the_afl s')) = 1%nat
      | _ => False
      end
  | _ => False
  end.
Proof. vm_compute. done. Qed.

(** *** Witnesses *)

Lemma ex_trace_ok x : bytes_ok (ex_trace x) /\ zlen (ex_trace x) = 64.
Proof.
  unfold ex_trace. split; [|by rewrite zlen_insert]. apply Forall_insert; [by apply Forall_replicate|done].
Qed.

Lemma ex_host_ok : host_ok 64.
Proof. intros w tm x r w' E. injection E as <- _. apply ex_trace_ok. Qed.

Lemma ex_hash_u32 x : is_u32 (ex_hash x).
Proof. destruct x as [|a x]; [done|]. cbn [ex_hash foldr]. apply Z.mod_pos_bound. done. Qed.

Lemma ex_hash_u64 x : is_u64 (ex_hash x).
Proof. pose proof (ex_hash_u32 x). unfold in_width in *. lia. Qed.

Lemma ex_cache_wf n : cache_wf (ex_cache n).
Proof.
  constructor; try (cbn; lia); try done.
  - intros i Hi. cbn in Hi. do 4 (destruct i as [|i]; [done|]). lia.
  - constructor.
  - intros q. change (occ (ex_cache n)) with (@nil nat). rewrite elem_of_nil. unfold cached. split; [done|].
    intros (e&b&E&Hb). apply lookup_replicate in E as [-> _]. done.
  - apply Forall_replicate. split; [cbn; lia|]. done.
Qed.

Lemma ex_wf n nf x : zlen nf = N_FUZZ_SIZE -> save_wf ex_cfg 64 (fun _ => []) (ex_st n nf x).
Proof.
  intros Hz. constructor; try done.
  - constructor; try done.
    + apply ex_trace_ok.
    + intros id. split; [destruct id; by apply Forall_replicate|by destruct id].
  - apply wf_fresh; try done.
    + cbn. unfold zlen. by rewrite length_replicate.
    + by apply Forall_replicate.
    + apply Forall_replicate. split; [done|]. split; [done|]. cbn. rewrite Hz. done.
  - cbn. by rewrite !length_replicate.
  - cbn. by rewrite !fmap_replicate.
  - apply ex_cache_wf.
  - split; [done|]. by apply Forall_replicate.
  - intros i y Hy Hne. apply lookup_replicate in Hy as [-> _]. done.
Qed.

Definition ex_table : list Z := replicate (Z.to_nat N_FUZZ_SIZE) 0.

Lemma ex_table_size : zlen ex_table = N_FUZZ_SIZE.
Proof. apply zlen_replicate. by apply Z.pow_nonneg. Qed.

Lemma ex_len : 0 < 2 <= MAX_FILE.
Proof. done. Qed.

Example kept_iff_new_witness :
  let s := ex_st 0 ex_table [5; 6] in
  goes (save_if_interesting ex_cfg ex_hash ex_hash (init_count_class16 (fun _ => 0)) 1 [5; 6] 2 (crash_mode ex_cfg)) s (fun r s' =>
    (r = false <-> nothing_new (scan s) (map count_class_lookup8 (the_trace s)) (virgin_bits (v_cov s))) /\
    q_len <$> queue_buf (the_afl s') = (q_len <$> queue_buf (the_afl s)) ++ (if r then [2] else []) /\
    c_file <$> c_queue (v_cache s') = (c_file <$> c_queue (v_cache s)) ++ (if r then [slice [5; 6] 0 2] else []) /\
    v_files s' = v_files s /\
    (r = false -> forall id, virgin_of (v_cov s') id = virgin_of (v_cov s) id)).
Proof.
  intros s. refine (kept_iff_new ex_cfg ex_hash ex_hash (fun _ => 0) 64 ex_host_ok [5; 6] 2 ex_len _ _ 1 (fun _ => []) s
    (ex_wf 0 ex_table [5; 6] ex_table_size) _ _ _ _); [done|done|done|done|lia|done].
Defined.

Example crash_saved_iff_new_witness :
  let s := ex_st 0 ex_table [5; 6] in
  goes (save_if_interesting ex_cfg ex_hash ex_hash (init_count_class16 (fun _ => 0)) 1 [5; 6] 2 FSRV_RUN_CRASH) s (fun r s' => r = false /\
    v_count s' total_crashes = u64 (v_count s total_crashes + 1) /\
    q_len <$> queue_buf (the_afl s') = q_len <$> queue_buf (the_afl s) /\
    exists saved : bool, v_files s' = v_files s ++ (if saved then [(Crash, slice [5; 6] 0 2)] else []) /\
      v_count s' saved_crashes = (if saved then u64 (v_count s saved_crashes + 1) else v_count s saved_crashes) /\
      (saved = false <-> KEEP_UNIQUE_CRASH <= v_count s saved_crashes \/
         (non_instrumented_mode (the_afl s) = false /\
          nothing_new (scan s) (map simplify_lookup (the_trace s)) (virgin_crash (v_cov s))))).
Proof.
  intros s. refine (crash_saved_iff_new ex_cfg ex_hash ex_hash (fun _ => 0) 64 [5; 6] 2 ex_len _ 1 (fun _ => []) s
    (ex_wf 0 ex_table [5; 6] ex_table_size) _ _); [done|done|lia].
Defined.

Example save_correct_witness :
  let s := ex_st 0 ex_table [5; 6] in
  match save_if_interesting ex_cfg ex_hash ex_hash (init_count_class16 (fun _ => 0)) 1 [5; 6] 2 FSRV_RUN_TMOUT s with
  | Next r s' =>
      exists n tr', save_wf ex_cfg 64 tr' s' /\ (forall w, (w < length (queue_buf (the_afl s)))%nat -> tr' w = []) /\
        q_len <$> queue_buf (the_afl s') = (q_len <$> queue_buf (the_afl s)) ++ replicate n 2 /\
        c_file <$> c_queue (v_cache s') = (c_file <$> c_queue (v_cache s)) ++ replicate n (slice [5; 6] 0 2) /\
        r = (0 <? n)%nat /\
        (v_files s' = v_files s \/ exists k, v_files s' = v_files s ++ [(k, slice [5; 6] 0 2)])
  | Fatal => runs_work -> crash_mode ex_cfg <> FSRV_RUN_ERROR -> FSRV_RUN_TMOUT = FSRV_RUN_ERROR
  | Abandon _ | Leave _ | OutOfBounds | NoRandom | Unfinished => False
  end.
Proof.
  intros s. refine (save_correct ex_cfg ex_hash ex_hash (fun _ => 0) 64 ex_host_ok ex_hash_u32 [5; 6] 2 ex_len _ _ _ 1
    FSRV_RUN_TMOUT (fun _ => []) s (ex_wf 0 ex_table [5; 6] ex_table_size) _ _ _); [done|done|done|lia|done|done].
Defined.

(** The example host counts its runs, and they can be done. *)
Lemma ex_counts : counts_runs Z.to_nat.
Proof. split; intros; cbn; lia. Qed.
Lemma ex_runs_work : runs_work.
Proof. done. Qed.

