(* ===== verification/SaveLoop.v ===== *)
(** * Inputs that are queued for ever

    The jump from the handling of timeouts back to [save_to_queue] ends in the same switch
    with the same [fault]. *)

From S2P Require Import Prelude Res Coverage Rng TextCheck Queue Cache Tmin Stage StageFacts Save CalFacts.

(** ** The scores do not touch the mode *)

Lemma insert_winner_mode len i qi st st' :
  insert_winner len i qi st = Some st' -> non_instrumented_mode st' = non_instrumented_mode st.
Proof.
  unfold insert_winner. intros E. apply bind_Some in E as (top&_&E). apply bind_Some in E as (e&_&E).
  apply bind_Some in E as (m&_&E). by injection E as <-.
Qed.

Lemma drop_ref_mode w st st' : drop_ref w st = Some st' -> non_instrumented_mode st' = non_instrumented_mode st.
Proof. unfold drop_ref. intros E. apply bind_Some in E as (e&_&E). by injection E as <-. Qed.

Lemma contend_mode len fp ff i qi st st' :
  contend len fp ff i qi st = Some st' -> non_instrumented_mode st' = non_instrumented_mode st.
Proof.
  unfold contend. intros E. apply bind_Some in E as (slot&_&E). destruct slot as [w|]; [|by apply insert_winner_mode in E].
  apply bind_Some in E as (e&_&E). apply bind_Some in E as (tp&_&E).
  destruct (fp >? tp); [by injection E as <-|]. destruct (ff >? _); [by injection E as <-|].
  apply bind_Some in E as (st1&E1&E). apply insert_winner_mode in E. apply drop_ref_mode in E1. congruence.
Qed.

Lemma update_bitmap_score_mode st qi b st' :
  update_bitmap_score st qi b = Some st' -> non_instrumented_mode st' = non_instrumented_mode st.
Proof.
  unfold update_bitmap_score. intros E. apply bind_Some in E as (q&_&E). apply bind_Some in E as (fp&_&E).
  destruct b; [|by injection E as <-]. revert E. generalize (Z.to_nat (Queue.map_size st)) (fav_factor st q) 0.
  generalize (Z.shiftr (Queue.map_size st + 7) 3). intros len todo ff. revert st.
  induction todo as [|todo IH]; intros st i E; cbn in E; [by injection E as <-|].
  apply bind_Some in E as (b&_&E). apply bind_Some in E as (st1&E1&E). rewrite (IH _ _ E).
  destruct (z2b b); [by apply contend_mode in E1|by injection E1 as <-].
Qed.

(** ** Steps that stay in the loop *)

Section Loop.
Context {W : Type} `{Host W} (c : save_cfg).
Context (hash64 hash32 : list Z -> Z) (tbl : table16).
Implicit Type s : save_st W.

(** There is no instrumentation, and hangs are still saved. *)
Definition looping s : Prop :=
  non_instrumented_mode (the_afl s) = true /\ v_count s saved_hangs < KEEP_UNIQUE_HANG.

Definition stays {A} (m : stage (save_st W) A) : Prop := forall s a s', m s = Next a s' -> looping s -> looping s'.

Lemma stays_ret {A} (a : A) : stays (mret a).
Proof. intros s a' s' E. by injection E as <- <-. Qed.

Lemma stays_bind {A B} (m : stage (save_st W) A) (k : A -> stage (save_st W) B) :
  stays m -> (forall a, stays (k a)) -> stays (m ≫= k).
Proof. intros Hm Hk s b s' E Hl. apply bind_value in E as (a&s1&E1&E2). eapply Hk, Hm; eauto. Qed.

Lemma stays_if {A} (b : bool) (m k : stage (save_st W) A) : stays m -> stays k -> stays (if b then m else k).
Proof. by destruct b. Qed.

Lemma stays_gets {A} (f : save_st W -> A) : stays (gets f).
Proof. intros s a s' E. by injection E as <- <-. Qed.

Lemma stays_within {A} (o : option A) : stays (within o).
Proof. intros s a s'. unfold within. destruct o; [|done]. intros E. by injection E as <- <-. Qed.

Lemma stays_modify f : (forall s, looping s -> looping (f s)) -> stays (modify f).
Proof. intros Hf s a s' E. injection E as _ <-. apply Hf. Qed.

Lemma stays_fatal {A} : stays (@fatal W A).
Proof. by intros s a s' E. Qed.

Lemma stays_on_cov {A} (f : cov_state -> option (A * cov_state)) : stays (on_cov f).
Proof. intros s a s'. unfold on_cov. destruct (f _) as [[x a']|]; [|done]. intros E. by injection E as <- <-. Qed.

Lemma stays_time_ms : stays time_ms.
Proof. intros s a s'. unfold time_ms. destruct (h_time _). intros E. by injection E as <- <-. Qed.

Lemma stays_time_us : stays time_us.
Proof. intros s a s'. unfold time_us. destruct (h_time_us _). intros E. by injection E as <- <-. Qed.

Lemma stays_run tm x : stays (run tm x).
Proof. intros s a s'. unfold run. destruct (h_run _ _ _). intros E. by injection E as <- <-. Qed.

Lemma stays_set_counter k n : k <> saved_hangs -> stays (set_counter k n).
Proof. intros Hk. apply stays_modify. intros s [H1 H2]. split; [done|]. cbn. by rewrite decide_False. Qed.

Lemma stays_add64 k n : k <> saved_hangs -> stays (add64 k n).
Proof. intros Hk. apply stays_bind; [apply stays_gets|]. intros v. by apply stays_set_counter. Qed.

Lemma stays_each {A} (l : list A) (f : A -> stage (save_st W) unit) : (forall a, stays (f a)) -> stays (each l f).
Proof. intros Hf. induction l as [|a l IH]; [apply stays_ret|]. cbn. apply stays_bind; [apply Hf|done]. Qed.

Lemma stays_score q : stays (score q).
Proof.
  intros s a s'. unfold score. destruct (update_bitmap_score _ _ _) as [st|] eqn:E; [|done]. intros E2 [H1 H2].
  injection E2 as _ <-. split; [|done]. apply update_bitmap_score_mode in E. cbn in *. congruence.
Qed.

Lemma stays_n_fuzz (f : afl -> option (list Z)) :
  stays (a ← gets the_afl; l ← within (f a); modify (put_afl (with_n_fuzz l a))).
Proof.
  intros s u s' E [H1 H2]. apply bind_value in E as (a&s1&E1&E). injection E1 as <- <-.
  apply bind_value in E as (l&s2&E2&E). unfold within in E2. destruct (f _); [|done]. injection E2 as <- <-.
  injection E as _ <-. by split.
Qed.

Lemma stays_of_res {A} (r : res A) : stays (of_res r).
Proof. intros s a s'. unfold of_res. destruct r; try done. intros E. by injection E as <- <-. Qed.
End Loop.

Create HintDb stays.
#[export] Hint Resolve stays_ret stays_gets stays_within stays_fatal stays_on_cov stays_time_ms stays_time_us
  stays_run stays_score stays_of_res : stays.

(** Walks through a stage. *)
Ltac stay :=
  repeat match goal with
  | |- stays (gets the_afl ≫= _) => apply (stays_n_fuzz (fun a => put (n_fuzz a) _ _))
  | |- stays (_ ≫= _) => apply stays_bind; [|intros ?]
  | |- stays (if _ then _ else _) => apply stays_if
  | |- stays (modify _) => apply stays_modify; intros ? [? ?]; by split
  | |- stays (set_counter _ _) => by apply stays_set_counter
  | |- stays (each _ _) => apply stays_each; intros ?
  | |- stays (let '(_, _) := ?x in _) => destruct x
  | |- stays (match ?x with _ => _ end) => destruct x
  | |- stays _ => by eauto with stays
  end.

Section Run.
Context {W : Type} `{Host W} (c : save_cfg).
Context (hash64 hash32 : list Z -> Z) (tbl : table16).
Implicit Type s : save_st W.

Lemma stays_update_time start : stays (W:=W) (update_calibration_time start).
Proof. unfold update_calibration_time, add64. stay. Qed.

Lemma stays_judge f cur : stays (W:=W) (judge c f cur).
Proof. unfold judge, instrumented, bytes_set. stay. Qed.

Lemma stays_compare q v : stays (W:=W) (compare_trace c hash64 tbl q v).
Proof. unfold compare_trace, mark_var, cal_of, set_cal, cksum64, classify, new_bits. stay. Qed.

Lemma stays_cal_loop n q mem tm cur v : stays (W:=W) (cal_loop c hash64 tbl n q mem tm cur v).
Proof.
  revert cur v. induction n as [|n IH]; intros cur v; [by intros s a s' E|]. cbn [cal_loop].
  unfold queue_entry_of, write. apply stays_if; [|stay].
  do 4 (apply stays_bind; [stay; apply stays_update_time|intros ?]).
  apply stays_bind; [apply stays_judge|]. intros [f|]; [stay|]. apply stays_bind; [apply stays_compare|]. intros v'. apply IH.
Qed.

Lemma stays_cal_stats q hc start v : stays (W:=W) (cal_stats c q hc start v).
Proof. unfold cal_stats, add64, set_queue_entry, set_cal, bytes_set. stay. Qed.

Lemma stays_cal_end q v f : stays (W:=W) (cal_end q v f).
Proof. unfold cal_end, cal_of, set_cal, add32, bytes_set, update_calibration_time, add64. stay. Qed.

Lemma stays_calibrate q mem hc fq : stays (W:=W) (calibrate_case c hash64 tbl q mem hc fq).
Proof.
  unfold calibrate_case, cal_of, set_cal, dummy_run, queue_entry_of, write, new_bits, instrumented. stay;
    first [apply stays_judge|apply stays_cal_end|apply stays_cal_loop|apply stays_cal_stats].
Qed.

Lemma stays_save_to_queue mem v : stays (W:=W) (save_to_queue c hash64 tbl mem v).
Proof.
  unfold save_to_queue, enqueue, instrumented, set_cal, add32, cksum64, set_queue_entry, store_mem. stay.
  apply stays_calibrate.
Qed.

Lemma stays_run_again mem v : stays (W:=W) (run_again c tbl mem v).
Proof. unfold run_again, write, classify. stay. Qed.

(** With the longer timeout the target always ends by itself. *)
Definition slow_but_ends : Prop := forall w x r w',
  h_run w (hang_tmout c) x = (r, w') -> ret r = FSRV_RUN_OK /\ stop_soon r = false.

Lemma run_again_result mem v s f v' s' :
  slow_but_ends -> run_again c tbl mem v s = Next (f, v') s' -> f = FSRV_RUN_OK /\ v_stop s' = false.
Proof.
  intros Hs E. unfold run_again in E. apply bind_value in E as (x&s1&_&E). apply bind_value in E as (y&s2&_&E).
  apply bind_value in E as (g&s3&E3&E). apply bind_value in E as (u&s4&E4&E). injection E as <- _ <-.
  unfold run in E3. destruct (h_run _ _ _) as [r w] eqn:Er. destruct (Hs _ _ _ _ Er) as [Hr Hst].
  injection E3 as <- <-. split; [done|]. destruct (w_classified v); [by injection E4 as _ <-|].
  unfold classify, on_cov in E4. destruct (_ ≫= _) as [[? ?]|]; [|done]. by injection E4 as _ <-.
Qed.

Lemma may_save_fault_loops fuel mem k v s r s' :
  slow_but_ends -> keep_timeouts c = true -> exec_tmout c < hang_tmout c -> looping s ->
  may_save_fault c hash64 tbl fuel mem FSRV_RUN_TMOUT k v s <> Next r s'.
Proof.
  intros Hs Hk Ht. revert k v s. induction fuel as [|fuel IH]; intros k v s Hl E; [done|]. cbn [may_save_fault] in E.
  apply bind_value in E as (?&s1&E1&E).
  assert (looping s1) as Hl1 by (by eapply (stays_add64 total_tmouts 1 ltac:(done) _ _ _ E1)).
  apply bind_value in E as (n&s2&E2&E). injection E2 as <- <-. rewrite (proj2 (Z.leb_gt _ _)) in E by apply Hl1.
  apply bind_value in E as (new&s3&E3&E). unfold unique_fault in E3. apply bind_value in E3 as (i&s4&E4&E3).
  injection E4 as <- <-. rewrite (proj1 Hl1) in E3. injection E3 as <- <-. cbn [negb] in E.
  rewrite (proj2 (Z.ltb_lt _ _)) in E by done. apply bind_value in E as ([f v5]&s5&E5&E).
  destruct (run_again_result _ _ _ _ _ _ Hs E5) as [-> Hstop]. pose proof (stays_run_again _ _ _ _ _ E5 Hl1) as Hl5.
  apply bind_value in E as (st&s6&E6&E). injection E6 as <- <-. rewrite Hstop in E. cbn in E. rewrite Hk in E.
  apply bind_value in E as (?&s7&E7&E).
  assert (looping s7) as Hl7 by (by eapply (stays_add64 saved_tmouts 1 ltac:(done) _ _ _ E7)).
  apply bind_value in E as (v8&s8&E8&E). pose proof (stays_save_to_queue _ _ _ _ _ E8 Hl7) as Hl8. by eapply IH.
Qed.

Lemma stays_frequency : stays (W:=W) (update_frequency hash64 tbl).
Proof.
  unfold update_frequency, classify, cksum64. stay. intros s u s' E [H1 H2]. unfold count_path in E.
  apply bind_value in E as (x&s1&E1&E). injection E1 as <- <-. apply bind_value in E as (v&s2&E2&E).
  unfold within in E2. destruct (get _ _) as [v0|]; [|done]. injection E2 as <- <-. destruct (v0 <? _).
  - apply bind_value in E as (l&s3&E3&E). unfold within in E3. destruct (put _ _ _); [|done]. injection E3 as <- <-.
    injection E as _ <-. by split.
  - by injection E as _ <-.
Qed.

(** C36. In non-instrumented mode with [AFL_KEEP_TIMEOUTS], [save_if_interesting] does not
    return for an input that times out but ends within [hang_tmout]: every turn queues the
    input and comes back to the switch with the same [fault], and without instrumentation
    nothing else stops it. *)
Theorem keep_timeouts_diverges fuel mem len s r s' :
  slow_but_ends -> keep_timeouts c = true -> ignore_timeouts c = false -> exec_tmout c < hang_tmout c ->
  crash_mode c <> FSRV_RUN_TMOUT -> len <> 0 ->
  non_instrumented_mode (the_afl s) = true -> v_count s saved_hangs < KEEP_UNIQUE_HANG ->
  save_if_interesting c hash64 hash32 tbl fuel mem len FSRV_RUN_TMOUT s <> Next r s'.
Proof.
  intros Hs Hk Hi Ht Hc Hl Hni Hh E. unfold save_if_interesting in E. rewrite (proj2 (Z.eqb_neq _ _)) in E by done.
  assert (looping s) as H0 by done. apply bind_value in E as (fast&s1&E1&E). injection E1 as _ <-.
  rewrite Hi, andb_false_r in E. apply bind_value in E as (?&s2&E2&E).
  pose proof (stays_set_counter san_case_status 0 ltac:(done) _ _ _ E2 H0) as H2.
  apply bind_value in E as (k&s3&E3&E). apply stays_if in E3; [|apply stays_frequency|apply stays_ret].
  specialize (E3 H2). rewrite bool_decide_eq_false_2 in E by congruence.
  by eapply may_save_fault_loops in E.
Qed.
End Run.

(** ** An example *)

(** A target that needs 1500 ms. *)
#[local] Instance slow_host : Host Z := {
  h_run w tm _ := (ExecResult (if tm <? 1500 then FSRV_RUN_TMOUT else FSRV_RUN_OK) (tm <? 1500) [] false, w + 1);
  h_san w _ _ := (ExecResult FSRV_RUN_OK false [] false, w);
  h_total_execs w := w;
  h_skip_requested _ := false;
  h_clear_skip w := w;
  h_time w := (w, w);
  h_time_us w := (7 * w, w)
}.

Definition slow_cfg : save_cfg :=
  SaveCfg FSRV_RUN_OK 1000 2000 1 MAX_FILE false false false 0 1 false true false 0 SIMPLIFY_TRACE.

Definition slow_st : save_st Z :=
  SaveSt 0 false (CovState 0 0 [] [] [] [] false)
    (Corpus (Afl [] 0 [] [] 0 EXPLORE false [] false true false [] 0 0 0 false) None None None 0 0 0 0 0 0 0 0 0)
    [] (CacheSt [] [] 0 4 0 0 0 0 0 0 false [] []) [] [] [] [] false (fun _ => 0) [].

(** With more fuel there are just more turns. *)
Example slow_turns :
  save_if_interesting slow_cfg (fun _ => 1) (fun _ => 1) (fun _ => 0) 4 [7] 1 FSRV_RUN_TMOUT slow_st = Unfinished.
Proof. vm_compute. reflexivity. Qed.

Example keep_timeouts_diverges_witness :
  save_if_interesting slow_cfg (fun _ => 1) (fun _ => 1) (fun _ => 0) 100 [7] 1 FSRV_RUN_TMOUT slow_st
  <> Next true slow_st.
Proof.
  apply (keep_timeouts_diverges slow_cfg (fun _ => 1) (fun _ => 1) (fun _ => 0) 100 [7] 1 slow_st true slow_st); try done.
  intros w x r w' E. injection E as <- _. done.
Defined.
