(* ===== verification/Fuzz.v ===== *)
(** * The fuzzer behind the stages

    The interface [Fuzzer] that the stages of [fuzz_one] are written against, implemented by
    the coverage maps, the queue, the cache and the saving of inputs. *)

From S2P Require Import Prelude Res Coverage Rng CoverageFacts TextCheck Queue QueueFacts Cache CacheFacts Extras Tmin Stage StageFacts Save CalFacts SaveFacts SaveFatal SaveMain.

Section Fuzz.
Context {W : Type} `{Host W} (c : save_cfg).
Context (hash64 hash32 : list Z -> Z) (t0 : table16) (fuel : nat).

(** The clock of the stages is [get_cur_time].  The saving does not answer when it ends the
    process; that it does not answer for no other reason is part of [fuzz_step_correct]. *)
Definition save_fuzzer : Fuzzer (save_st W) := {|
  fuzz_run_target s x :=
    match run (exec_tmout c) x s with
    | Next f s => (f, s)
    | _ => (FSRV_RUN_ERROR, s)
    end;
  stop_requested := v_stop;
  skip_requested s := h_skip_requested (v_world s);
  clear_skip_request s := with_world (h_clear_skip (v_world s)) (v_stop s) s;
  trace_cksum s := hash64 (the_trace s);
  queued_items s := Queue.queued_items (the_afl s);
  Stage.save_if_interesting s x fault :=
    match save_if_interesting c hash64 hash32 (init_count_class16 t0) fuel x (zlen x) fault s with
    | Next b s => Some (b2z b, s)
    | _ => None
    end;
  get_cur_time s := let '(t, w) := h_time (v_world s) in (t, with_world w (v_stop s) s)
|}.

Section Step.
Context {R : Type} (N : Z) (Hhost : host_ok N) (Hh32 : forall x, is_u32 (hash32 x)).
Context (buf : list Z) (len : Z) (Hlen : 0 < len <= MAX_FILE) (Hbuf : len <= zlen buf).
Context (Hmin : min_length c <= len) (Hmax : len <= max_length c).
Implicit Type s : save_st W.

(** The loop that keeps timeouts ends within the fuel, and the queue has room for it. *)
Definition bounded s : Prop :=
  (0 < fuel)%nat /\
  (keep_timeouts c = true -> non_instrumented_mode (the_afl s) = false /\
     left_in (virgin_tmout (v_cov s)) < Z.of_nat fuel) /\
  zlen (queue_buf (the_afl s)) + Z.of_nat fuel < 2 ^ 32 - 1.

(** The state after the run of the input. *)
Definition after_run (r : exec_result) (w : W) s : save_st W :=
  with_cov (Coverage.set_trace (trace r) (v_cov s)) (with_world w (stop_soon r) s).

Lemma ran_wf tr s r w :
  save_wf c N tr s -> h_run (v_world s) (exec_tmout c) (slice buf 0 len) = (r, w) -> save_wf c N tr (after_run r w s).
Proof.
  intros Hw E. pose proof (soft_run c N Hhost tr (exec_tmout c) (slice buf 0 len) s Hw) as Hr.
  unfold goes, run in Hr. rewrite E in Hr. apply Hr.
Qed.

Lemma items_of tr s : save_wf c N tr s -> Queue.queued_items (the_afl s) = Z.of_nat (length (q_len <$> queue_buf (the_afl s))).
Proof. intros Hw. rewrite length_fmap. apply (wf_items _ _ _ (sw_queue _ _ _ _ Hw)). Qed.

(** C19. A whole step of the stages, [common_fuzz_stuff] with the fuzzer behind it, on an input of
    allowed length, and with an instrumented target whenever timeouts are kept: it writes the
    input, runs the target, and leaves maps, queue, scores and cache consistent, whether the
    stage goes on or is given up.  No access leaves a buffer and no loop runs on; the process
    ends only where [save_if_interesting] ends it.  When the stage goes on, there are no
    sanitizer binaries, and the run ended in the way the fuzzer is looking for, other than by
    a timeout, then the queue has grown by at most one, and it has not grown exactly when no bit
    of the classified trace of the run was new. *)
Theorem fuzz_step_correct tr (e : env (save_st W) R) :
  save_wf c N tr (e_fuzzer e) -> bounded (e_fuzzer e) ->
  let s := e_fuzzer e in
  exists r w, h_run (v_world s) (exec_tmout c) (slice buf 0 len) = (r, w) /\
  match @common_fuzz_stuff _ R save_fuzzer (min_length c) (max_length c) buf len e with
  | Next b e' =>
      (exists tr', save_wf c N tr' (e_fuzzer e')) /\
      (b = false -> ret r = crash_mode c -> crash_mode c <> FSRV_RUN_TMOUT -> san_binary_length c = 0 ->
        let n := Queue.queued_items (the_afl s) in
        let n' := Queue.queued_items (the_afl (e_fuzzer e')) in
        n <= n' <= n + 1 /\
        (n' = n <-> nothing_new (scan s) (map count_class_lookup8 (trace r)) (virgin_bits (v_cov s))))
  | Fatal =>
      save_if_interesting c hash64 hash32 (init_count_class16 t0) fuel (slice buf 0 len) len (ret r) (after_run r w s) = Fatal
  | Abandon _ | Leave _ | OutOfBounds | NoRandom | Unfinished => False
  end.
Proof.
  intros Hw (Hf&Hterm&Hroom) s. destruct (h_run (v_world s) (exec_tmout c) (slice buf 0 len)) as [r w] eqn:Er. exists r, w. split; [done|].
  unfold common_fuzz_stuff, mbind, stage_bind.
  assert (write_to_testcase (min_length c) (max_length c) buf len false = Some (slice buf 0 len)) as ->.
  { unfold write_to_testcase. rewrite (proj2 (Z.ltb_ge _ _)) by done. cbn [andb].
    rewrite Z.gtb_ltb, (proj2 (Z.ltb_ge _ _)) by done. by rewrite load_Some by lia. }
  cbn [within]. set (x := slice buf 0 len) in *. assert (zlen x = len) as Hx by (apply zlen_slice; lia).
  unfold run_written. rewrite (proj2 (Z.eqb_neq _ _)) by lia. cbn [fuzz_run_target save_fuzzer].
  unfold run. fold s. rewrite Er. pose proof (ran_wf tr _ r w Hw Er) as Hw1. fold (after_run r w s).
  set (s1 := after_run r w s) in *.
  cbn [stop_requested save_fuzzer]. destruct (v_stop s1); [split; [by exists tr|done]|].
  destruct (_ && _); [split; [by exists tr|done]|]. cbn [skip_requested save_fuzzer].
  destruct (h_skip_requested _).
  { split; [|done]. exists tr. cbn. destruct Hw1; by constructor. }
  cbn [Stage.save_if_interesting save_fuzzer]. rewrite Hx.
  pose proof (save_ok c hash64 hash32 t0 N Hhost Hh32 x len Hlen ltac:(lia) Hmin Hmax tr s1 fuel (ret r) Hw1 Hf Hterm Hroom) as Hok.
  pose proof (fun Hn Hs => kept_run c hash64 hash32 t0 N Hhost x len Hlen ltac:(lia) Hmax fuel tr s1 Hw1 Hs Hn Hf) as Hk.
  pose proof (surely_save c hash64 hash32 (init_count_class16 t0) True ltac:(done) fuel x len (ret r) ltac:(done) s1) as Hj.
  unfold goes in Hok, Hk.
  destruct (save_if_interesting _ _ _ _ _ _ _ _ _) as [b s2| | | | | |] eqn:Es; try done.
  destruct Hok as (n&[[(tr2&Hw2&_) _ _ _ _] _]&_).
  assert (save_wf c N tr2 s2) as Hw3 by (destruct Hw2; by constructor).
  split; [by exists tr2|]. intros _ Hc Hn Hs. rewrite Hc in Es. rewrite Es in Hk.
  destruct (Hk Hn Hs) as (Hdec&Hlens&_); [change (zlen (queue_buf (the_afl (e_fuzzer e))) < 2 ^ 32 - 1); lia|]. cbn [e_fuzzer discover with_fuzzer with_tmouts].
  pose proof (items_of tr s Hw) as I1. pose proof (items_of tr2 s2 Hw3) as I2. rewrite Hlens, length_app in I2.
  change (q_len <$> queue_buf (the_afl s1)) with (q_len <$> queue_buf (the_afl s)) in I2.
  change (nothing_new (scan s1) (map count_class_lookup8 (the_trace s1)) (virgin_bits (v_cov s1))) with
    (nothing_new (scan s) (map count_class_lookup8 (trace r)) (virgin_bits (v_cov s))) in Hdec.
  rewrite <- Hdec. destruct b; cbn [length] in I2; (split; [lia|]; split; [|done || lia]; intros; try done; lia).
Qed.
End Step.
End Fuzz.

(** ** Witness *)

Definition ex_env : env (save_st Z) (list Z) := Env (ex_st 0 ex_table [9]) [] (ExtrasSt [] [] false) 0 0 0.

Lemma ex_bounded : @bounded Z ex_cfg 1 (e_fuzzer ex_env).
Proof. split; [lia|]. split; [done|]. done. Qed.

Example fuzz_step_correct_witness :
  exists r w, @h_run Z ex_host (v_world (e_fuzzer ex_env)) (exec_tmout ex_cfg) (slice [5; 6] 0 2) = (r, w) /\
  match @common_fuzz_stuff _ (list Z) (@save_fuzzer Z ex_host ex_cfg ex_hash ex_hash (fun _ => 0) 1) (min_length ex_cfg) (max_length ex_cfg) [5; 6] 2 ex_env with
  | Next b e' => exists tr', save_wf ex_cfg 64 tr' (e_fuzzer e')
  | _ => True
  end.
Proof.
  destruct (@fuzz_step_correct Z ex_host ex_cfg ex_hash ex_hash (fun _ => 0) 1 (list Z) 64 ex_host_ok ex_hash_u32 [5; 6] 2
    ex_len ltac:(done) ltac:(done) ltac:(done) (fun _ => []) ex_env (ex_wf 0 ex_table [9] ex_table_size) ex_bounded) as (r&w&E&P).
  exists r, w. split; [exact E|]. destruct (common_fuzz_stuff _ _ _ _ _); [exact (proj1 P)|exact I..].
Defined.
